(* ===== verification/_CoqProject ===== *)
-Q . S2P
Prelude.v
CoreTypes.v
SignalEngine.v
TraderIndex.v
Ranker.v
Bytes.v
Activity.v
LedgerEffect.v
PositionLedger.v
SecondProof.v
SecondClassify.v
ScopedSecond.v
LogFrame.v
LogChain.v
LogScanner.v
LogWriter.v
LogReader.v
LogCrash.v
RiskEngine.v
WinnerFollow.v
Fee.v
Ladder.v
CanaryTypes.v
LiveTypes.v
LiveAdmission.v
Polygon.v
Economic.v
RedemptionMachine.v
LiveJournal.v
LiveRecovery.v
LiveExecutor.v
LiveSession.v
CanaryState.v
CanaryAdmission.v
CanaryActor.v
CanaryJournal.v
