(* ===== verification/Prelude.v ===== *)
(** * A verification of the core of the prediction-markets trading stack

    The program follows leader wallets on a prediction market.  It downloads their
    public activity, aggregates it into normalized ledger effects, keeps an exact
    position ledger per wallet, classifies each trade against the ledger, and
    copies first entries, sized by fractional Kelly and gated by risk limits; it
    spends real money first in a canary campaign, a journaled actor with hard
    limits, then as ordinary live accounts whose orders are composed, admitted and
    journaled; it redeems resolved winners through a journaled state machine; and it
    records everything in an append-only, hash-chained event log.
    This library models the deciding parts of that pipeline, function by function,
    and proves what the rest of the program relies on.

    ** Files and the code they model

    - [Prelude]: [result] with the [?] operator, the state-and-error monad [stm]
      for [&mut self] methods (an error keeps the writes made before it),
      [try_fold], checked machine integers (an integer is a [Z] whose width is
      explicit: [is_u64], [checked_add_u64], ...), orders and sorting with [Ord],
      stable sorting by a key, hash maps iterated in any order ([HashOrder]), the
      tactic [inv_bind] and the shared lemmas on lists, maps and folds.
    - [CoreTypes] (crates/core-types): exact six-decimal amounts as atomic [u64]
      values, identifiers, wallet addresses, prices and their errors.
    - [SignalEngine] (crates/copy-signal-engine): position snapshots,
      [classify_leader_action], the eligibility gates and [classify_trade].
    - [TraderIndex], [Ranker] (crates/trader-index): trades matched first in, first
      out into ledgers, in one batch ([reconstruction.rs]) or incrementally
      ([incremental.rs]); window statistics ([score.rs]) and the watchlist
      ([ranker.rs]) the classifier reads.
    - [Bytes]: fixed-width integer encodings and the BLAKE3 interface.
    - [Activity] (crates/source-polymarket-public/src/activity.rs): canonical
      group components, group keys, and the aggregation of a response.
    - [LedgerEffect], [PositionLedger], [SecondProof], [SecondClassify],
      [ScopedSecond] (crates/position-ledger/src/lib.rs, split by topic): effects
      and their versioned documents; the ledger and every operation on it; the
      proof that the order of one second's mutations does not matter; first-entry
      classification of a complete second; scopes, problems and drops.
    - [LiveTypes] (the records of crates/execution-core/src/live_journal.rs and of
      the types they carry), [LiveJournal] (the journal of the live accounts over the
      event log: records of version 1 and 2, opening, appending, the published
      indexes, replays of the file, account checkpoints), [LiveRecovery] (the fold
      that recovers open orders, approved admissions and terminal ones from the
      records, and the inventories built on it).
    - [Polygon] (crates/venue-polymarket/src/receipt.rs and the finality part of
      live_journal.rs): receipts and logs of the chain, the fills of an order decoded
      from them, the classification of finality, and the verification of retained
      facts against their raw attempts.
    - [LiveAdmission] (crates/execution-core/src/live_executor.rs): the checks of a
      signed ladder against its admission artifact, the account read from its
      responses, and the verification of an admission record.
    - [LiveExecutor] (the same file): the order flow, [prepare], [resume], [submit]
      and [terminalize] of one order over the journal and the venue;
      [LiveSession]: processes that run these operations one after the other over
      one journal file, each of which may stop between any two interactions.
    - [Economic] (crates/execution-core/src/economic.rs): the composer that turns a
      ladder plan, a market and a risk decision into a prepared order.
    - [RedemptionMachine] (crates/execution-core/src/redemption_machine.rs and
      venue-polymarket/src/redemption.rs): the reducer [advance], the replay of a
      journal, and the driver pass over the live journal's interface.
    - [LogFrame] (crates/event-log/src/frame.rs, error.rs), [LogChain]
      (envelope.rs, one-frame reads of scanner.rs), [LogScanner] (scanner.rs,
      retention.rs and the isolated reads of reader.rs), [LogWriter] (writer.rs,
      receipt.rs), [LogReader] (the replay iterator of reader.rs), [LogCrash] (what a
      file of the log can hold after a crash, shared by the two journals).
    - [RiskEngine] (crates/risk-engine): the pre-trade gate, the canary gate, and
      the arithmetic of equity, resolution credit, drawdown and clamps.
    - [WinnerFollow] (crates/kelly-sizer, crates/strategy-winner-follow): the Kelly
      sizer, the strategy's gates, the organic canary policy, idempotency keys.
    - [Fee], [Ladder] (crates/venue-polymarket/src/fee.rs, ladder.rs): taker fees,
      reserves and the principal of a budget; the walks over the asks of a book and
      the plans of dollar, contract and Kelly orders.
    - [CanaryTypes], [CanaryState], [CanaryAdmission]
      (crates/execution-core/src/canary.rs, split by topic): the campaign's records,
      hashes and events; the reducer [apply] with the accounting of
      reconciliations; the admission check of one order.
    - [CanaryActor] (crates/execution-core/src/canary_actor.rs): the actor that owns
      a campaign: commands, dispatch, reconciliation, kill, shutdown, event loop.
    - [CanaryJournal] (canary.rs, and the start of
      crates/service/src/bin/pe-service-live-canary.rs): the campaign's journal as
      a file of the event log, its rebuild, and the daemon's start on it.

    The ranker's watchlist, built from reconstructed ledgers, decides whose trades the
    classifier turns into signals.  Activity calls nothing of the ledger; the ledger uses the classifier's
    snapshots and Activity's aggregates; the second proofs run the ledger; the
    strategy takes the classifier's signals to the sizer and the risk gate; the
    actor admits an order only if the admission check, which runs the risk gate and
    re-evaluates the organic policy, accepts it, and journals every event of the
    reducer before it acts on it, in a journal that is a file of the event log.  The
    composer takes the ladder's plan to the prepared order whose admission the live
    executor verifies; the redemption machine runs over the interface of the live
    journal, which is a file of the event log as well.  The recovery replays that file,
    re-verifies admissions with [LiveAdmission] and fills with [Polygon].

    ** Interfaces

    Code outside the repository, and components that are only called, are type
    classes: operations in one class, the documented behaviour in a class of laws,
    and an instance that satisfies the laws, on which the samples run.
    [DecimalOps]/[DecimalLaws] (rust_decimal; instance: rationals) with
    [DecimalMaths]/[DecimalMathsLaws] (square root, rounding to even), [TimeOps]
    (time), [Blake3]/[Blake3Laws] (a 32-byte digest; theorems that need
    distinct digests offer the collision as an alternative instead of assuming there
    is none), [DocJson] and [LogJson] (serde_json), [Zstd] (zstd and crc32fast),
    [LiveJson]/[LiveJsonLaws] (serde_json at the live journal's records),
    [AccountVenue] (the parsers of the venue's account responses), [LiveOrderVenue]
    (the venue, the clock and the end of the process as the live executor meets
    them: every interaction has its own answer), [Alloy] (the
    parsers of addresses, hashes and 256-bit integers),
    [LiveJournalOps]/[LiveJournalLaws] (what a journal append does to the published
    records; [LiveJournal] discharges them for the journal over the event log), [ScopeLookups] (the source's metadata trait),
    [LogDevice]/[LogDeviceLaws] (a buffered file with a position where it writes: a
    success means what the operating system documents, a failure promises nothing) and
    [LogDeviceCrashLaws] (what a failed call can leave durable: a prefix of what was
    written), [EventJson]/[EventJsonLaws] (serde_json at the canary's events), [ToVec]
    ([serde_json::to_vec] of one type), [CanaryWorld] (the submitter, reconciler,
    clocks and kill requests of the actor: every call has its own answer, and only
    [u64] amounts are assumed of it), [Journal]/[JournalLaws] (the canary journal: a
    synced append records its event, a failed one changes nothing or leaves a
    journal that refuses everything and may have recorded it; [CanaryJournal]
    discharges these laws for the journal over the event log).

    ** What the theorems show

    - Ledger: [apply] refines a per-position specification on every effect and
      error; a batch is all or nothing and keeps every position within [u64]; the
      redeem tolerance is used at most once per market outcome; classification of
      a trade determines what the ledger then does; split/merge and ingest/restore
      round trips.
    - Seconds: an accepted second ends in one ledger under every permutation of
      its mutations, a refused one is applicable under none; components partition
      the second; an admitted entry is the first one of its market; scoped
      application touches no dropped scope and a problem second admits nothing.
    - Trader index: a reconstructed ledger is the matching of single contracts, oldest
      first, and only one side of an outcome is open; the incremental ledger is the
      batch one, in every iteration order of the hash maps; the watchlist holds the
      best wallets of each tier, ordered within the tier, and a signal's leader meets
      every gate of the active one.
    - Activity and documents: every row counted once, sums exact; keys identify
      groups up to a digest collision; documents round-trip, and whatever decodes
      is well formed.
    - Redemption: no second submission while a request is outstanding, unless a
      balance is observed after the signed deadline of a request that has no
      transaction identity; no submission before its own journal record; replay after
      a restart agrees with memory but for three named cases; admission reopens only
      on reconciliation.
    - Live accounts: an append publishes exactly what is durable, and a failed one
      changes nothing or leaves a journal that refuses every call; reopening after a
      crash resumes the published records; the indexed lookups, the records in
      memory and every replay of the file agree; a checkpoint of an account survives
      later appends.  An admission record that verifies was evaluated from the
      account's own responses and its worst-case debit fits balance, allowance and
      free collateral; what the composer builds from a sized plan on the price grid
      and is ready is accepted by the admission's checks.  A final fill that verifies is
      rebuilt from the retained answers of chain 137 and its finalized head, keeps every
      receipt recorded as immutable, and settles exactly the signed principal, with a
      fee within the reserve.  The recovery fold refines the life cycle of a dispatch, whatever it
      accepts as final was admitted and prepared before and costs at most the admitted
      debit, and the structural inventory agrees with the recovery.  Over any number
      of processes with a crash between any two effects, an order is posted only with
      its own prepared record durable; what [submit] reports of an order is what the
      recovery then finds of it; and when callers name each dispatch once, each is
      posted at most once and the recovery fold accepts the journal left behind: the
      structural inventory is returned, and the consuming one, which also re-evaluates
      admissions, exactly if every admission in it verifies.
    - Event log, with or without a retention authority: frames round-trip; a scan of
      any bytes ends; a scan of what was written returns exactly it from the header or
      the retention boundary on, also after a cut inside the last frame; a recorded
      tail binding pins the history before it back to the later start of two scans; a
      receipt is only given for a durable event, also by a writer that resumed at a
      checkpoint; a failed append leaves the writer as it was or poisons it; reopening
      after a torn write loses only the torn frame; a replay yields exactly what a
      scan verifies.
    - Sizing and risk: the risk gate is monotone; what the canary gate approves is
      within every cap; a Kelly stake is within the bankroll whatever the decimal
      rounding, and an organic order within both caps to the atomic unit;
      idempotency keys identify the copied trade.  A planned buy is within its
      budget and every cap with its fee reserve, for any book; when the asks are
      priced on the six-decimal grid, which the code does not enforce, the reserve
      covers the fee the venue charges at any price the order can have, the used
      levels fill a prefix of the book and reach the signed shares, and a contract
      order signs exactly its contracts.
    - Canary campaign: the reducer refines an abstract campaign of stages, slots
      and debits, so a campaign reserves at most eight orders and eight dollars;
      closing is final; a reconciliation conserves money to the atomic unit or
      changes nothing; an admitted order respects every limit in exact money.
      For the actor, over any number of processes with crashes between any two
      effects: orders are sent only after their reservation is durable, each once,
      never after a kill, and a repeated command does nothing.  The journal over the
      event log meets the actor's interface, so the limits hold of the bytes on
      disk, through failed writes and torn frames, and a restart resumes exactly the
      recorded campaign.

    Eleven theorems record divergences: a correction back to the first stamped
    identity is written as a document no reader accepts; restoring a first-seen
    wallet leaves an empty snapshot behind; the canary gate adds exposures without
    an overflow check; a completely filled probe is reported to its caller as an
    admission mismatch; after a crash inside an append the canary daemon does not
    start, since it rebuilds before the open that would repair the file; a level of
    dust in a book is planned by the ladder and refused by the composer; a record
    with invalid control facts is written before it is validated, after which the
    live journal does not open; a receipt that changed after it was recorded as
    immutable verifies as pending, and replaces the recorded one, when an earlier
    transaction's receipt is unavailable; wallets of equal score are cut from the
    watchlist in the random order of a hash map; incubator wallets with a better
    score come after all active ones; and a redemption confirmed with a blank hash is
    ambiguous after a restart.

    ** Panics

    Decimal operators that panic on overflow or on division by zero are partial
    here: [panicking] is [None] for a panic, as is [option] in the trader index, and
    the actor's [Stop] has a constructor for it that no [match] on a [Result] catches.

    ** Fuel

    Loops without structural recursion carry fuel that is proved sufficient:
    [component_loop] takes one unit per mutation and one more, and
    [components_from] one per mutation (each pass removes at least one); the
    enumeration of orders takes the length of the component; [walk_loop] takes the
    number of remaining bytes and one more, since every frame read consumes at
    least one byte, and its termination theorem says that it never runs out;
    [hashed_loop] is the same loop with a digest.

    ** What is not modelled, and the plan

    Sockets, HTTP, SQL, configuration and the asynchronous service around these
    components are not modelled, nor are log messages and metrics.  Errors keep
    the source's constructors and the fields the code reads.  Of the event log,
    cancellation, archived feeds and publication of retention authorities are
    missing; of core-types, the
    floating-point constructors; of the actor, its handle's mailbox and reply
    channels.  The sessions of the live executor run one call at a time: calls that
    overlap in one process interleave only at the journal, whose appends are
    serialized by its lock.  What is left of the repository is mostly the service,
    the paper portfolio and the bootstrap cache, whose state is rows in SQLite: their
    behaviour is that of their SQL text, which would have to be a parameter.  The next
    parts that can be modelled as they are written are the
    archived feeds of the event log and the paper portfolio's profit-and-loss
    arithmetic. *)

From stdpp Require Export base tactics numbers option list strings gmap fin_maps fin_sets.
From Stdlib Require Export ZArith Lia Permutation Sorted.
#[export] Set Default Goal Selector "!".
#[export] Set Warnings "-clear-no-such-hyp".
#[global] Open Scope Z_scope.

(** ** Rust's [Result] and its [?] operator *)

Inductive result (E A : Type) : Type :=
| Ok (a : A)
| Err (e : E).
Arguments Ok {E A} a.
Arguments Err {E A} e.

#[export] Instance result_mret {E} : MRet (result E) := λ A a, Ok a.
#[export] Instance result_mbind {E} : MBind (result E) :=
  λ A B f r, match r with Ok a => f a | Err e => Err e end.
#[export] Instance result_fmap {E} : FMap (result E) :=
  λ A B f r, match r with Ok a => Ok (f a) | Err e => Err e end.
#[export] Instance result_eq_dec {E A} `{EqDecision E, EqDecision A} : EqDecision (result E A).
Proof. solve_decision. Defined.

(** [Option::ok_or], [Result::map_err], [Result::ok], [Result::is_ok]. *)
Definition ok_or {E A} (o : option A) (e : E) : result E A :=
  match o with Some a => Ok a | None => Err e end.
Definition map_err {E F A} (f : E → F) (r : result E A) : result F A :=
  match r with Ok a => Ok a | Err e => Err (f e) end.
Definition result_ok {E A} (r : result E A) : option A :=
  match r with Ok a => Some a | Err _ => None end.
Definition is_ok {E A} (r : result E A) : bool :=
  match r with Ok _ => true | Err _ => false end.

(** [Iterator::try_fold] over a slice. *)
Fixpoint try_fold {E S A} (f : S → A → result E S) (s : S) (l : list A) : result E S :=
  match l with
  | [] => Ok s
  | a :: l => s' ← f s a; try_fold f s' l
  end.

(** [Iterator::collect::<Result<Vec<_>, _>>] after a fallible [map]. *)
Fixpoint try_map {E A B} (f : A → result E B) (l : list A) : result E (list B) :=
  match l with
  | [] => Ok []
  | a :: l => b ← f a; bs ← try_map f l; Ok (b :: bs)
  end.

(** ** Stateful fallible code

    [stm S E A] is a method taking [&mut self] (the state [S]) and returning
    [Result<A, E>].  An early return keeps whatever was written before it, so a
    caller that must be atomic has to work on a clone, as the source does. *)
Definition stm (S E A : Type) : Type := S → S * result E A.

#[export] Instance stm_mret {S E} : MRet (stm S E) := λ A a s, (s, Ok a).
#[export] Instance stm_mbind {S E} : MBind (stm S E) :=
  λ A B f m s, match m s with
               | (s', Ok a) => f a s'
               | (s', Err e) => (s', Err e)
               end.

Definition stm_get {S E} : stm S E S := λ s, (s, Ok s).
Definition stm_put {S E} (s : S) : stm S E unit := λ _, (s, Ok tt).
Definition stm_fail {S E A} (e : E) : stm S E A := λ s, (s, Err e).
(** [for x in l { body(x)?; }] *)
Fixpoint stm_for {S E A} (l : list A) (body : A → stm S E unit) : stm S E unit :=
  match l with
  | [] => mret tt
  | a :: l => _ ← body a; stm_for l body
  end.
(** [for x in l { out.push(body(x)?); }] *)
Fixpoint stm_map {S E A B} (l : list A) (body : A → stm S E B) : stm S E (list B) :=
  match l with
  | [] => mret []
  | a :: l => b ← body a; bs ← stm_map l body; mret (b :: bs)
  end.
Definition stm_lift {S E A} (r : result E A) : stm S E A := λ s, (s, r).

(** ** Panics

    Code whose unchecked arithmetic may panic has the result type
    [option (result E A)]: [None] is the panic, which aborts the process. *)
Definition panicking (E A : Type) : Type := option (result E A).
#[export] Instance panicking_mret {E} : MRet (panicking E) := λ A a, Some (Ok a).
#[export] Instance panicking_mbind {E} : MBind (panicking E) :=
  λ A B f r, match r with
             | Some (Ok a) => f a
             | Some (Err e) => Some (Err e)
             | None => None
             end.
(** A value that is [None] where the source panics, and a fallible call. *)
Definition unpanic {E A} (o : option A) : panicking E A := Ok <$> o.
Definition throws {E A} (r : result E A) : panicking E A := Some r.
Definition throw {E A} (e : E) : panicking E A := Some (Err e).

Lemma panicking_bind_Ok {E A B} (m : panicking E A) (f : A → panicking E B) b :
  m ≫= f = Some (Ok b) ↔ ∃ a, m = Some (Ok a) ∧ f a = Some (Ok b).
Proof. destruct m as [[]|]; simpl; naive_solver. Qed.
Lemma unpanic_Ok {E A} (o : option A) a : unpanic (E := E) o = Some (Ok a) ↔ o = Some a.
Proof. destruct o; unfold unpanic; simpl; naive_solver. Qed.

(** ** Updating one field of a record

    [r <| field := v |>] is [r] with one field replaced, as an assignment through
    [&mut self].  A record type declares how it is rebuilt from its fields; the
    setter of a field abstracts that field in the rebuilding function. *)
Class Rebuild (R : Type) := rebuild : R → R.
Class FieldSet {R T : Type} (proj : R → T) := field_set : (T → T) → R → R.
Arguments field_set {R T} proj {_} f r : simpl never.
Ltac derive_field_set :=
  match goal with
  | |- @FieldSet ?R ?T ?proj =>
      let eta := constr:(@rebuild R _) in
      let body := eval hnf in eta in
      match eval pattern proj in body with
      | ?abs _ => let s := constr:(λ (f : T → T), abs (λ r, f (proj r))) in
                  let s := eval cbv beta in s in exact s
      end
  end.
#[export] Hint Extern 0 (FieldSet _) => derive_field_set : typeclass_instances.
Notation "r <| field := v |>" := (field_set field (λ _, v) r)
  (at level 1, left associativity, format "r  <| field  :=  v |>").

(** ** Machine integers

    A [w]-bit unsigned integer is a [Z] kept in range by the checked and
    saturating operations of the source; [is_u64 z] and its siblings are the type
    invariant of a field of that width. *)
Definition U8_MAX : Z := 255.
Definition U16_MAX : Z := 65535.
Definition U32_MAX : Z := 4294967295.
Definition U64_MAX : Z := 18446744073709551615.
Definition U128_MAX : Z := 340282366920938463463374607431768211455.
Definition I32_MIN : Z := -2147483648.
Definition I32_MAX : Z := 2147483647.
Definition I64_MIN : Z := -9223372036854775808.
Definition I64_MAX : Z := 9223372036854775807.

Definition is_u8 (z : Z) : Prop := 0 ≤ z ≤ U8_MAX.
Definition is_u16 (z : Z) : Prop := 0 ≤ z ≤ U16_MAX.
Definition is_u32 (z : Z) : Prop := 0 ≤ z ≤ U32_MAX.
Definition is_u64 (z : Z) : Prop := 0 ≤ z ≤ U64_MAX.
Definition is_i32 (z : Z) : Prop := I32_MIN ≤ z ≤ I32_MAX.
Definition is_i64 (z : Z) : Prop := I64_MIN ≤ z ≤ I64_MAX.

(** The value if it fits the range, [None] on overflow. *)
Definition fits (lo hi z : Z) : option Z :=
  if (lo <=? z) && (z <=? hi) then Some z else None.

Definition checked_add_u32 (a b : Z) : option Z := fits 0 U32_MAX (a + b).
Definition checked_add_u64 (a b : Z) : option Z := fits 0 U64_MAX (a + b).
Definition checked_sub_u64 (a b : Z) : option Z := fits 0 U64_MAX (a - b).
Definition checked_mul_u64 (a b : Z) : option Z := fits 0 U64_MAX (a * b).
Definition checked_add_u128 (a b : Z) : option Z := fits 0 U128_MAX (a + b).
Definition checked_sub_u128 (a b : Z) : option Z := fits 0 U128_MAX (a - b).
Definition checked_mul_u128 (a b : Z) : option Z := fits 0 U128_MAX (a * b).
Definition checked_add_i32 (a b : Z) : option Z := fits I32_MIN I32_MAX (a + b).
Definition saturating_add_u8 (a b : Z) : Z := Z.min (a + b) U8_MAX.
(** [a + b] on [i32] wraps in a release build. *)
Definition wrapping_add_i32 (a b : Z) : Z := (a + b - I32_MIN) mod 4294967296 + I32_MIN.
Definition saturating_add_u32 (a b : Z) : Z := Z.min (a + b) U32_MAX.
Definition saturating_add_u64 (a b : Z) : Z := Z.min (a + b) U64_MAX.
Definition saturating_sub_u64 (a b : Z) : Z := Z.max 0 (a - b).

Lemma fits_Some lo hi z z' : fits lo hi z = Some z' ↔ z' = z ∧ lo ≤ z ≤ hi.
Proof.
  unfold fits. destruct (lo <=? z) eqn:?, (z <=? hi) eqn:?; simpl;
    split; intros; simplify_eq; lia || (f_equal; lia).
Qed.

Lemma fits_None lo hi z : fits lo hi z = None ↔ ¬ (lo ≤ z ≤ hi).
Proof.
  unfold fits. destruct (lo <=? z) eqn:?, (z <=? hi) eqn:?; simpl;
    split; intros; simplify_eq; try lia; done.
Qed.

Lemma is_u64_fits z : is_u64 z → fits 0 U64_MAX z = Some z.
Proof. intros. by apply fits_Some. Qed.

(** ** Inverting the two monads *)

Lemma result_bind_Ok {E A B} (r : result E A) (f : A → result E B) b :
  r ≫= f = Ok b ↔ ∃ a, r = Ok a ∧ f a = Ok b.
Proof. destruct r; simpl; naive_solver. Qed.

Lemma stm_bind_Ok {S E A B} (m : stm S E A) (f : A → stm S E B) s s' b :
  (m ≫= f) s = (s', Ok b) ↔ ∃ a s1, m s = (s1, Ok a) ∧ f a s1 = (s', Ok b).
Proof. unfold mbind, stm_mbind. destruct (m s) as [? []]; naive_solver. Qed.

Lemma stm_bind_run {S E A B} (m : stm S E A) (f : A → stm S E B) s :
  (m ≫= f) s = match m s with (s', Ok a) => f a s' | (s', Err e) => (s', Err e) end.
Proof. done. Qed.

Lemma stm_bind_Err_l {S E A B} (m : stm S E A) (f : A → stm S E B) s e :
  (m s).2 = Err e → ((m ≫= f) s).2 = Err e.
Proof. rewrite stm_bind_run. destruct (m s) as [s' []]; naive_solver. Qed.

Lemma ok_or_Ok {E A} (o : option A) (e : E) a : ok_or o e = Ok a ↔ o = Some a.
Proof. destruct o; simpl; naive_solver. Qed.

Lemma ok_or_Err {E A} (o : option A) (e e' : E) : ok_or o e = Err e' ↔ o = None ∧ e' = e.
Proof. destruct o; simpl; naive_solver. Qed.

Lemma map_err_Ok {E F A} (f : E → F) (r : result E A) a : map_err f r = Ok a ↔ r = Ok a.
Proof. destruct r; simpl; naive_solver. Qed.

Lemma try_fold_app {E S A} (f : S → A → result E S) s l1 l2 :
  try_fold f s (l1 ++ l2) = (s' ← try_fold f s l1; try_fold f s' l2).
Proof.
  revert s. induction l1 as [|a l1 IH]; intros s; simpl; [done|].
  destruct (f s a); simpl; [apply IH|done].
Qed.

(** A property that every step keeps holds of the result. *)
Lemma try_fold_inv {E S A} (P : S → Prop) (f : S → A → result E S) (l : list A) :
  (∀ s s' a, a ∈ l → P s → f s a = Ok s' → P s') → ∀ s s', P s → try_fold f s l = Ok s' → P s'.
Proof.
  induction l as [|a l IH]; intros Hf s s' Hs; simpl; [by intros [= <-]|].
  destruct (f s a) as [s1|e] eqn:E1; simpl; [|done]. intros H.
  apply (IH (λ s s' x Hx, Hf s s' x (list_elem_of_further _ _ _ Hx)) s1); [|done].
  eapply Hf; [constructor|done|done].
Qed.

Lemma try_map_Ok {E A B} (f : A → result E B) l bs :
  try_map f l = Ok bs ↔ Forall2 (λ a b, f a = Ok b) l bs.
Proof.
  revert bs. induction l as [|a l IH]; intros bs; simpl.
  - split; [intros; simplify_eq; constructor|by inversion 1].
  - rewrite result_bind_Ok. setoid_rewrite result_bind_Ok. setoid_rewrite IH. split.
    + intros (b & ? & bs' & ? & ?). simplify_eq. by constructor.
    + inversion 1; subst. eauto 10.
Qed.

(** A computation known to succeed is its own result. *)
Definition result_or {E A} (d : A) (r : result E A) : A :=
  match r with Ok a => a | Err _ => d end.
Lemma is_ok_result_or {E A} (d : A) (r : result E A) : is_ok r = true → r = Ok (result_or d r).
Proof. by destruct r. Qed.

Lemma is_ok_pair {E A B} (r : result E (A * B)) a b : is_ok r = true →
  r = Ok (default a (fst <$> result_ok r), default b (snd <$> result_ok r)).
Proof. by destruct r as [[]|]. Qed.

Lemma stm_is_ok {S E} (m : stm S E unit) s : is_ok (m s).2 = true → m s = ((m s).1, Ok tt).
Proof. by destruct (m s) as [? [[]|]]. Qed.

(** Rewrite databases of the development: inversion of the two monads, and the
    boolean tests of the models as propositions. *)
Create Rewrite HintDb rust.
#[export] Hint Rewrite @result_bind_Ok @stm_bind_Ok @ok_or_Ok @ok_or_Err @map_err_Ok : rust.
#[export] Hint Rewrite fits_Some fits_None : rust.
#[export] Hint Rewrite andb_true_iff andb_false_iff orb_true_iff orb_false_iff
  negb_true_iff negb_false_iff bool_decide_eq_true bool_decide_eq_false : rust.
#[export] Hint Rewrite Z.leb_le Z.leb_gt Z.ltb_lt Z.ltb_ge Z.eqb_eq Z.eqb_neq : rust.

(** Case analysis on whatever a hypothesis is stuck on, then clean up. *)
Ltac case_hyp H :=
  repeat (match type of H with
          | context [match ?x with _ => _ end] => destruct x eqn:?
          end; simplify_eq/=).
Ltac case_goal :=
  repeat (match goal with
          | |- context [match ?x with _ => _ end] => destruct x eqn:?
          end; simplify_eq/=).
(** Invert every successful [?]-chain among the hypotheses. *)
Ltac inv_bind :=
  repeat match goal with
    | H : _ ≫= _ = Ok _ |- _ => apply result_bind_Ok in H as (? & ? & ?)
    | H : (_ ≫= _) _ = (_, Ok _) |- _ => apply stm_bind_Ok in H as (? & ? & ? & ?)
    | H : ok_or _ _ = Ok _ |- _ => apply ok_or_Ok in H
    | H : map_err _ _ = Ok _ |- _ => apply map_err_Ok in H
    end; simplify_eq/=.
Ltac rust := autorewrite with rust in *; try lia; eauto.

(** A prefix of a list one longer. *)
Lemma prefix_snoc {A} (tr l : list A) x : tr `prefix_of` l ++ [x] → tr `prefix_of` l ∨ tr = l ++ [x].
Proof.
  intros [k Hk]. destruct k as [|y k _] using rev_ind; [right; by rewrite app_nil_r in Hk|].
  left. rewrite (assoc_L (++)) in Hk. apply app_inj_tail in Hk as [-> _]. by exists k.
Qed.

(** ** Sums of integers *)
Definition sum_with {A} (f : A → Z) (l : list A) : Z := foldr (λ a s, f a + s) 0 l.

Lemma sum_with_cons {A} (f : A → Z) a l : sum_with f (a :: l) = f a + sum_with f l.
Proof. done. Qed.
Lemma sum_with_app {A} (f : A → Z) l1 l2 : sum_with f (l1 ++ l2) = sum_with f l1 + sum_with f l2.
Proof. induction l1 as [|a l1 IH]; simpl; lia. Qed.
Lemma sum_with_fmap {A B} (f : B → Z) (g : A → B) l : sum_with f (g <$> l) = sum_with (f ∘ g) l.
Proof. induction l as [|a l IH]; csimpl; [done|]. by rewrite IH. Qed.
Lemma sum_with_nonneg {A} (f : A → Z) l : Forall (λ a, 0 ≤ f a) l → 0 ≤ sum_with f l.
Proof. induction 1; simpl; lia. Qed.
Lemma sum_with_le {A} (f g : A → Z) l : Forall (λ a, f a ≤ g a) l → sum_with f l ≤ sum_with g l.
Proof. induction 1; simpl; lia. Qed.
Lemma sum_with_bound {A} (f : A → Z) c l : Forall (λ a, f a ≤ c) l → sum_with f l ≤ c * Z.of_nat (length l).
Proof. induction 1; simpl length; simpl sum_with; lia. Qed.
Lemma sum_with_sublist {A} (f : A → Z) l1 l2 : l1 `sublist_of` l2 → Forall (λ a, 0 ≤ f a) l2 →
  sum_with f l1 ≤ sum_with f l2.
Proof. induction 1; inversion 1; subst; simpl; naive_solver lia. Qed.
#[export] Instance sum_with_perm {A} (f : A → Z) : Proper ((≡ₚ) ==> (=)) (sum_with f).
Proof. intros l1 l2. induction 1; simpl; lia. Qed.

(** ** Ordered keys

    [Ord] as the sorted collections of the standard library use it. *)
Class Ord (K : Type) := {
  cmp : K → K → comparison;
  cmp_eq a b : cmp a b = Eq ↔ a = b;
  cmp_opp a b : cmp b a = CompOpp (cmp a b);
  cmp_lt_trans a b c : cmp a b = Lt → cmp b c = Lt → cmp a c = Lt
}.

Lemma cmp_refl `{Ord K} (a : K) : cmp a a = Eq.
Proof. by apply cmp_eq. Qed.

Lemma cmp_gt_lt `{Ord K} (a b : K) : cmp a b = Gt ↔ cmp b a = Lt.
Proof. rewrite (cmp_opp a b). by destruct (cmp a b). Qed.

#[export] Program Instance Z_ord : Ord Z := {| cmp := Z.compare |}.
Next Obligation. apply Z.compare_eq_iff. Qed.
Next Obligation. intros. apply Z.compare_antisym. Qed.
Next Obligation. intros a b c. rewrite !Z.compare_lt_iff. lia. Qed.

Lemma string_cmp_lt_trans a b c :
  String.compare a b = Lt → String.compare b c = Lt → String.compare a c = Lt.
Proof.
  revert b c. induction a as [|x a IH]; intros [|y b] [|z c]; simpl; try done.
  unfold Ascii.compare.
  destruct (N.compare_spec (Ascii.N_of_ascii x) (Ascii.N_of_ascii y)) as [E1|E1|E1],
    (N.compare_spec (Ascii.N_of_ascii y) (Ascii.N_of_ascii z)) as [E2|E2|E2]; try done;
    intros H1 H2.
  - rewrite E1, E2, N.compare_refl. eauto.
  - rewrite E1. by apply N.compare_lt_iff in E2 as ->.
  - rewrite <- E2. by apply N.compare_lt_iff in E1 as ->.
  - assert (E3 : (Ascii.N_of_ascii x < Ascii.N_of_ascii z)%N) by lia.
    by apply N.compare_lt_iff in E3 as ->.
Qed.

(** Rust compares strings bytewise, as [String.compare] does. *)
#[export] Program Instance string_ord : Ord string := {| cmp := String.compare |}.
Next Obligation.
  intros a b. simpl. split; [apply String.compare_eq_iff|]. intros ->.
  pose proof (String.compare_antisym b b) as H. by destruct (String.compare b b).
Qed.
Next Obligation. intros. rewrite String.compare_antisym. done. Qed.
Next Obligation. apply string_cmp_lt_trans. Qed.

(** Lexicographic order of tuples, as [#[derive(PartialOrd, Ord)]] gives it. *)
Definition prod_cmp `{Ord A, Ord B} (p q : A * B) : comparison :=
  match cmp p.1 q.1 with Eq => cmp p.2 q.2 | c => c end.
#[export] Program Instance prod_ord `{Ord A, Ord B} : Ord (A * B) := {| cmp := prod_cmp |}.
Next Obligation.
  intros A ? B ? [a1 b1] [a2 b2]. unfold prod_cmp. simpl. destruct (cmp a1 a2) eqn:E.
  - apply cmp_eq in E as ->. simpl. rewrite (cmp_eq b1 b2). naive_solver.
  - split; [done|]. intros [= -> ->]. by rewrite cmp_refl in E.
  - split; [done|]. intros [= -> ->]. by rewrite cmp_refl in E.
Qed.
Next Obligation.
  intros A ? B ? [a1 b1] [a2 b2]. unfold prod_cmp. simpl. rewrite (cmp_opp a1 a2).
  destruct (cmp a1 a2); simpl; [apply cmp_opp|done|done].
Qed.
Next Obligation.
  intros A ? B ? [a1 b1] [a2 b2] [a3 b3]. unfold prod_cmp. simpl.
  destruct (cmp a1 a2) eqn:E1, (cmp a2 a3) eqn:E2; try done; intros H1 H2.
  - apply cmp_eq in E1 as ->. apply cmp_eq in E2 as ->. rewrite cmp_refl.
    by eapply cmp_lt_trans.
  - apply cmp_eq in E1 as ->. by rewrite E2.
  - apply cmp_eq in E2 as ->. by rewrite E1.
  - by rewrite (cmp_lt_trans a1 a2 a3).
Qed.

(** Slices and arrays compare element by element, a proper prefix first. *)
Fixpoint list_cmp `{Ord A} (l1 l2 : list A) : comparison :=
  match l1, l2 with
  | [], [] => Eq
  | [], _ :: _ => Lt
  | _ :: _, [] => Gt
  | a :: l1, b :: l2 => match cmp a b with Eq => list_cmp l1 l2 | c => c end
  end.
#[export] Program Instance list_ord `{Ord A} : Ord (list A) := {| cmp := list_cmp |}.
Next Obligation.
  intros A ? l1. induction l1 as [|a l1 IH]; intros [|b l2]; simpl; try done.
  destruct (cmp a b) eqn:E; [apply cmp_eq in E as ->; rewrite IH; naive_solver| |];
    split; try done; intros [= -> ->]; by rewrite cmp_refl in E.
Qed.
Next Obligation.
  intros A ? l1. induction l1 as [|a l1 IH]; intros [|b l2]; simpl; try done.
  rewrite (cmp_opp a b). destruct (cmp a b); simpl; [apply IH|done|done].
Qed.
Next Obligation.
  intros A ? l1. induction l1 as [|a l1 IH]; intros [|b l2] [|c l3]; simpl; try done.
  destruct (cmp a b) eqn:E1, (cmp b c) eqn:E2; try done; intros H1 H2.
  - apply cmp_eq in E1 as ->. apply cmp_eq in E2 as ->. rewrite cmp_refl. by eapply IH.
  - apply cmp_eq in E1 as ->. by rewrite E2.
  - apply cmp_eq in E2 as ->. by rewrite E1.
  - by rewrite (cmp_lt_trans a b c).
Qed.

(** The order a newtype or a derived enum gets from an injective key. *)
Definition inj_ord {A K} `{Ord K} (f : A → K) (Hf : ∀ a b, f a = f b → a = b) : Ord A.
Proof.
  refine {| cmp a b := cmp (f a) (f b) |}.
  - intros a b. rewrite cmp_eq. naive_solver.
  - intros. apply cmp_opp.
  - intros a b c. apply cmp_lt_trans.
Defined.

Definition leb_of `{Ord K} (a b : K) : bool :=
  match cmp a b with Gt => false | _ => true end.
Definition ltb_of `{Ord K} (a b : K) : bool :=
  match cmp a b with Lt => true | _ => false end.

Lemma leb_of_spec `{Ord K} (a b : K) : leb_of a b = true ↔ cmp a b = Lt ∨ a = b.
Proof.
  unfold leb_of. rewrite <- (cmp_eq a b). destruct (cmp a b); naive_solver.
Qed.

Lemma leb_of_total `{Ord K} (a b : K) : leb_of a b = true ∨ leb_of b a = true.
Proof. unfold leb_of. rewrite (cmp_opp a b). destruct (cmp a b); naive_solver. Qed.

Lemma leb_of_trans `{Ord K} (a b c : K) :
  leb_of a b = true → leb_of b c = true → leb_of a c = true.
Proof.
  rewrite !leb_of_spec. intros [?| ->] [?| ->]; eauto using cmp_lt_trans.
Qed.

Lemma leb_of_antisym `{Ord K} (a b : K) : leb_of a b = true → leb_of b a = true → a = b.
Proof.
  unfold leb_of. rewrite (cmp_opp a b), <- (cmp_eq a b). by destruct (cmp a b).
Qed.

Lemma leb_of_refl `{Ord K} (a : K) : leb_of a a = true.
Proof. apply leb_of_spec. by right. Qed.

Lemma ltb_of_leb `{Ord K} (a b : K) : ltb_of a b = true → leb_of a b = true ∧ a ≠ b.
Proof.
  unfold ltb_of, leb_of. destruct (cmp a b) eqn:E; try done. intros _. split; [done|].
  intros ->. by rewrite cmp_refl in E.
Qed.

Lemma ltb_of_false `{Ord K} (a b : K) : ltb_of a b = false → leb_of b a = true.
Proof. unfold ltb_of, leb_of. rewrite (cmp_opp a b). by destruct (cmp a b). Qed.

(** ** Stable sorting and minima, as [slice::sort_by] and [Iterator::min_by] *)

Fixpoint insert_by {A} (leb : A → A → bool) (a : A) (l : list A) : list A :=
  match l with
  | [] => [a]
  | b :: l' => if leb a b then a :: l else b :: insert_by leb a l'
  end.
Definition sort_by {A} (leb : A → A → bool) (l : list A) : list A :=
  foldr (insert_by leb) [] l.

(** The first minimal element in iteration order. *)
Definition min_step {A} (ltb : A → A → bool) (acc : option A) (x : A) : option A :=
  match acc with
  | None => Some x
  | Some m => if ltb x m then Some x else Some m
  end.
Definition min_by {A} (ltb : A → A → bool) (l : list A) : option A :=
  foldl (min_step ltb) None l.

Lemma insert_by_perm {A} leb (a : A) l : insert_by leb a l ≡ₚ a :: l.
Proof.
  induction l as [|b l IH]; simpl; [done|]. destruct (leb a b); [done|].
  rewrite IH. by constructor.
Qed.

Lemma sort_by_perm {A} leb (l : list A) : sort_by leb l ≡ₚ l.
Proof.
  induction l as [|a l IH]; simpl; [done|]. by rewrite insert_by_perm, IH.
Qed.

Lemma insert_by_sorted {A} (leb : A → A → bool)
  (Htot : ∀ a b, leb a b = true ∨ leb b a = true)
  (Htr : ∀ a b c, leb a b = true → leb b c = true → leb a c = true) a l :
  StronglySorted (λ a b, leb a b = true) l →
  StronglySorted (λ a b, leb a b = true) (insert_by leb a l).
Proof.
  induction 1 as [|b l Hl IH Hb]; simpl; [repeat constructor|].
  destruct (leb a b) eqn:E; [constructor; [by constructor|]|constructor; [done|]].
  - constructor; [done|]. eapply Forall_impl; [exact Hb|]. simpl. eauto.
  - rewrite insert_by_perm. constructor; [|done]. destruct (Htot a b); congruence.
Qed.

Lemma sort_by_sorted {A} (leb : A → A → bool)
  (Htot : ∀ a b, leb a b = true ∨ leb b a = true)
  (Htr : ∀ a b c, leb a b = true → leb b c = true → leb a c = true) l :
  StronglySorted (λ a b, leb a b = true) (sort_by leb l).
Proof.
  induction l as [|a l IH]; simpl; [constructor|]. by apply insert_by_sorted.
Qed.

Lemma StronglySorted_fmap {A B} (f : A → B) (R : B → B → Prop) l :
  StronglySorted (λ a b, R (f a) (f b)) l → StronglySorted R (f <$> l).
Proof.
  induction 1 as [|a l _ IH Ha]; csimpl; constructor; [done|]. by apply Forall_fmap.
Qed.

Lemma min_by_foldl_In {A} (ltb : A → A → bool) l o a :
  foldl (min_step ltb) o l = Some a → a ∈ l ∨ o = Some a.
Proof.
  revert o. induction l as [|x l IH]; intros o; simpl; [by right|].
  intros H. apply IH in H as [H|H]; [left; set_solver|].
  destruct o as [m|]; simpl in H; [destruct (ltb x m)|]; simplify_eq; set_solver.
Qed.

Lemma min_by_In {A} (ltb : A → A → bool) l a : min_by ltb l = Some a → a ∈ l.
Proof. intros [?|?]%min_by_foldl_In; done. Qed.

Lemma min_by_foldl_Some {A} (ltb : A → A → bool) l m :
  is_Some (foldl (min_step ltb) (Some m) l).
Proof.
  revert m. induction l as [|y l IH]; intros m; simpl; [eauto|]. destruct (ltb y m); apply IH.
Qed.

Lemma min_by_is_Some {A} (ltb : A → A → bool) l : l ≠ [] → is_Some (min_by ltb l).
Proof. destruct l as [|x l]; [done|]. intros _. apply min_by_foldl_Some. Qed.

Lemma min_by_fmap {A K} `{Ord K} (f : A → K) l :
  min_by ltb_of (f <$> l) = f <$> min_by (λ i j, ltb_of (f i) (f j)) l.
Proof.
  unfold min_by. change (@None K) with (f <$> @None A). generalize (@None A).
  induction l as [|x l IH]; intros o; [done|]. csimpl. rewrite <- IH. f_equal.
  destruct o as [m|]; simpl; [|done]. by destruct (ltb_of (f x) (f m)).
Qed.

Lemma min_by_foldl_le {A K} `{Ord K} (f : A → K) l o a :
  foldl (min_step (λ i j, ltb_of (f i) (f j))) o l = Some a →
  (∀ m, o = Some m → leb_of (f a) (f m) = true) ∧ ∀ x, x ∈ l → leb_of (f a) (f x) = true.
Proof.
  revert o. induction l as [|y l IH]; intros o; simpl.
  - intros ->. split; [|set_solver]. intros m [= ->]. apply leb_of_spec. by right.
  - intros [H1 H2]%IH. assert (∀ m, o = Some m → leb_of (f a) (f m) = true) as Ho.
    { intros m ->. simpl in H1. destruct (ltb_of (f y) (f m)) eqn:E; [|by apply H1].
      eapply leb_of_trans; [by apply H1|]. apply leb_of_spec. left.
      unfold ltb_of in E. by destruct (cmp (f y) (f m)). }
    split; [done|]. intros x. rewrite elem_of_cons. intros [->|Hx]; [|by apply H2].
    destruct o as [m|]; simpl in H1; [|by apply H1].
    destruct (ltb_of (f y) (f m)) eqn:E; [by apply H1|].
    eapply leb_of_trans; [by apply H1|]. unfold ltb_of in E. unfold leb_of.
    rewrite (cmp_opp (f y) (f m)). by destruct (cmp (f y) (f m)).
Qed.

Lemma min_by_le {A K} `{Ord K} (f : A → K) l a :
  min_by (λ i j, ltb_of (f i) (f j)) l = Some a → ∀ x, x ∈ l → leb_of (f a) (f x) = true.
Proof. intros H'. by apply (min_by_foldl_le f l None). Qed.

(** *** Sorting by a key

    A stable sort keeps the elements of one key in their order, so its result is
    determined by what each key's elements are. *)
Definition key_leb {A K} `{Ord K} (key : A → K) (a b : A) : bool := leb_of (key a) (key b).
Definition sort_by_key {A K} `{Ord K} (key : A → K) (l : list A) : list A := sort_by (key_leb key) l.

Section SortByKey.
Context {A K : Type} `{Ord K, EqDecision K} (key : A → K).

Lemma sort_by_key_sorted l : StronglySorted (λ a b, key_leb key a b = true) (sort_by_key key l).
Proof.
  apply sort_by_sorted; unfold key_leb; intros; [apply leb_of_total|by eapply leb_of_trans].
Qed.

Lemma filter_insert_by_key k a l :
  filter (λ x, key x = k) (insert_by (key_leb key) a l) = filter (λ x, key x = k) (a :: l).
Proof.
  induction l as [|b l IH]; simpl; [done|]. destruct (key_leb key a b) eqn:E; [done|].
  rewrite filter_cons, IH, !filter_cons. destruct (decide (key a = k)) as [Ha|]; [|done].
  destruct (decide (key b = k)) as [Hb|]; [|done]. unfold key_leb in E.
  by rewrite Ha, Hb, leb_of_refl in E.
Qed.

Lemma filter_sort_by_key k l : filter (λ x, key x = k) (sort_by_key key l) = filter (λ x, key x = k) l.
Proof.
  induction l as [|a l IH]; [done|]. unfold sort_by_key in *. simpl.
  rewrite filter_insert_by_key, !filter_cons, IH. done.
Qed.

Lemma sorted_by_key_unique l1 l2 :
  StronglySorted (λ a b, key_leb key a b = true) l1 → StronglySorted (λ a b, key_leb key a b = true) l2 →
  (∀ k, filter (λ x, key x = k) l1 = filter (λ x, key x = k) l2) → l1 = l2.
Proof.
  intros H1. revert l2. induction H1 as [|a l1 H1 IH Ha]; intros l2 H2 Hf.
  - destruct l2 as [|b l2]; [done|]. specialize (Hf (key b)).
    rewrite filter_cons_True in Hf by done. done.
  - destruct H2 as [|b l2 H2 Hb].
    { specialize (Hf (key a)). rewrite filter_cons_True in Hf by done. done. }
    assert (key a = key b) as Hk.
    { apply leb_of_antisym.
      - assert (b ∈ filter (λ x, key x = key b) (a :: l1)) as Hin.
        { rewrite Hf. apply list_elem_of_filter. split; [done|]. left. }
        apply list_elem_of_filter in Hin as [_ [->|Hin]%elem_of_cons]; [apply leb_of_refl|].
        rewrite Forall_forall in Ha. by apply Ha.
      - assert (a ∈ filter (λ x, key x = key a) (b :: l2)) as Hin.
        { rewrite <- Hf. apply list_elem_of_filter. split; [done|]. left. }
        apply list_elem_of_filter in Hin as [_ [->|Hin]%elem_of_cons]; [apply leb_of_refl|].
        rewrite Forall_forall in Hb. by apply Hb. }
    assert (a = b) as ->.
    { specialize (Hf (key a)). rewrite !filter_cons_True in Hf by done. by simplify_eq. }
    f_equal. apply IH; [done|]. intros k. specialize (Hf k). rewrite !filter_cons in Hf.
    destruct (decide (key b = k)); [by simplify_eq|done].
Qed.

Lemma sort_by_key_eq l1 l2 :
  (∀ k, filter (λ x, key x = k) l1 = filter (λ x, key x = k) l2) → sort_by_key key l1 = sort_by_key key l2.
Proof.
  intros Hf. apply sorted_by_key_unique; [apply sort_by_key_sorted..|]. intros k.
  by rewrite !filter_sort_by_key.
Qed.

Lemma sort_by_key_id l : StronglySorted (λ a b, key_leb key a b = true) l → sort_by_key key l = l.
Proof.
  intros Hl. apply sorted_by_key_unique; [apply sort_by_key_sorted|done|]. intros k. apply filter_sort_by_key.
Qed.

(** Elements with distinct keys have one sorting, whatever order they come in. *)
Lemma filter_key_perm k l1 l2 : l1 ≡ₚ l2 → NoDup (key <$> l1) →
  filter (λ x, key x = k) l1 = filter (λ x, key x = k) l2.
Proof.
  intros Hp Hn. assert (∀ l, NoDup (key <$> l) → length (filter (λ x, key x = k) l) ≤ 1)%nat as Hle.
  { clear. induction l as [|a l IH]; csimpl; [lia|]. intros [Ha Hn]%NoDup_cons.
    rewrite filter_cons. destruct (decide (key a = k)) as [<-|]; [|by apply IH].
    assert (filter (λ x, key x = key a) l = []) as ->; [|simpl; lia].
    apply elem_of_nil_inv. intros x [Hk Hx]%list_elem_of_filter. apply Ha. rewrite <- Hk.
    by apply list_elem_of_fmap_2. }
  assert (filter (λ x, key x = k) l1 ≡ₚ filter (λ x, key x = k) l2) as Hf by by rewrite Hp.
  pose proof (Hle l1 Hn) as Hl. pose proof (Permutation_length Hf) as Hlen.
  destruct (filter _ l1) as [|a [|]], (filter _ l2) as [|b [|]]; simpl in *; try lia; [done|].
  by apply Permutation_singleton_inj in Hf as ->.
Qed.
Lemma sort_by_key_perm l1 l2 : l1 ≡ₚ l2 → NoDup (key <$> l1) → sort_by_key key l1 = sort_by_key key l2.
Proof. intros Hp Hn. apply sort_by_key_eq. intros k. by apply filter_key_perm. Qed.
End SortByKey.

(** ** [HashMap]

    A finite map whose iteration order is up to the hasher: any order of its entries. *)
Class HashOrder := {
  hash_iter {K} `{Countable K} {V} : gmap K V → list (K * V);
  hash_iter_perm {K} `{Countable K} {V} (m : gmap K V) : hash_iter m ≡ₚ map_to_list m
}.
Definition key_order : HashOrder := {|
  hash_iter := λ K _ _ V m, map_to_list m;
  hash_iter_perm := λ K _ _ V m, Permutation_refl _
|}.
Definition reverse_order : HashOrder := {|
  hash_iter := λ K _ _ V m, reverse (map_to_list m);
  hash_iter_perm := λ K _ _ V m, reverse_Permutation _
|}.
Lemma hash_iter_elem `{HashOrder, Countable K} {V} (m : gmap K V) k v : (k, v) ∈ hash_iter m ↔ m !! k = Some v.
Proof. rewrite hash_iter_perm. apply elem_of_map_to_list. Qed.
Lemma hash_iter_NoDup `{HashOrder, Countable K} {V} (m : gmap K V) : NoDup (hash_iter m).*1.
Proof. rewrite hash_iter_perm. apply NoDup_fst_map_to_list. Qed.

(** ** [BTreeMap]

    A sorted association list: iteration is in key order, as in the source. *)
Section btree.
Context {K V : Type} `{Ord K} `{!EqDecision K}.

Fixpoint bt_get (k : K) (m : list (K * V)) : option V :=
  match m with
  | [] => None
  | (k', v) :: m' =>
      match cmp k k' with Eq => Some v | Lt => None | Gt => bt_get k m' end
  end.

Fixpoint bt_insert (k : K) (v : V) (m : list (K * V)) : list (K * V) :=
  match m with
  | [] => [(k, v)]
  | (k', v') :: m' =>
      match cmp k k' with
      | Lt => (k, v) :: m
      | Eq => (k, v) :: m'
      | Gt => (k', v') :: bt_insert k v m'
      end
  end.

Fixpoint bt_remove (k : K) (m : list (K * V)) : list (K * V) :=
  match m with
  | [] => []
  | (k', v') :: m' =>
      match cmp k k' with
      | Lt => m
      | Eq => m'
      | Gt => (k', v') :: bt_remove k m'
      end
  end.

Definition bt_keys (m : list (K * V)) : list K := m.*1.
Definition bt_values (m : list (K * V)) : list V := m.*2.
Definition bt_wf (m : list (K * V)) : Prop :=
  StronglySorted (λ a b, cmp a b = Lt) (bt_keys m).

Lemma bt_insert_keys k v m : ∀ x, x ∈ bt_keys (bt_insert k v m) ↔ x = k ∨ x ∈ bt_keys m.
Proof.
  unfold bt_keys. induction m as [|[k' v'] m IH]; intros x; csimpl; [set_solver|].
  destruct (cmp k k') eqn:E; csimpl.
  - apply cmp_eq in E as ->. set_solver.
  - set_solver.
  - set_solver.
Qed.

Lemma bt_insert_wf k v m : bt_wf m → bt_wf (bt_insert k v m).
Proof.
  unfold bt_wf. induction m as [|[k' v'] m IH]; csimpl; [repeat constructor|].
  inversion 1 as [|? ? Hs Hf]; subst. destruct (cmp k k') eqn:E; csimpl.
  - apply cmp_eq in E as ->. by constructor.
  - repeat (constructor; try done). eapply Forall_impl; [exact Hf|].
    intros. by eapply cmp_lt_trans.
  - constructor; [by apply IH|]. apply Forall_forall. intros x Hx.
    apply bt_insert_keys in Hx as [->|Hx]; [by apply cmp_gt_lt|].
    by eapply Forall_forall in Hf.
Qed.

Lemma bt_get_elem k v m : bt_wf m → (k, v) ∈ m → bt_get k m = Some v.
Proof.
  unfold bt_wf. induction m as [|[k' v'] m IH]; csimpl; [set_solver|].
  inversion 1 as [|? ? Hs Hf]; subst. rewrite elem_of_cons. intros [[= -> ->]|Hin].
  - by rewrite cmp_refl.
  - assert (cmp k' k = Lt) as E.
    { rewrite Forall_forall in Hf. apply Hf, list_elem_of_fmap. by exists (k, v). }
    apply cmp_gt_lt in E. rewrite E. by apply IH.
Qed.

Lemma bt_elem_get k v m : bt_get k m = Some v → (k, v) ∈ m.
Proof.
  induction m as [|[k' v'] m IH]; simpl; [done|]. destruct (cmp k k') eqn:E; [|done|].
  - intros [= ->]. apply cmp_eq in E as ->. set_solver.
  - intros ?. set_solver.
Qed.

Lemma bt_get_lt k m : Forall (λ b, cmp k b = Lt) (bt_keys m) → bt_get k m = None.
Proof. destruct m as [|[k' v] m]; simpl; [done|]. inversion 1 as [|? ? E]; subst. by rewrite E. Qed.

Lemma bt_get_insert k v m k' : bt_wf m →
  bt_get k' (bt_insert k v m) = if decide (k' = k) then Some v else bt_get k' m.
Proof.
  unfold bt_wf. induction m as [|[k1 v1] m IH]; simpl.
  - intros _. destruct (decide (k' = k)) as [->|Hn]; [by rewrite cmp_refl|].
    destruct (cmp k' k) eqn:E; try done. by apply cmp_eq in E.
  - inversion 1 as [|? ? Hs Hf]; subst. destruct (cmp k k1) eqn:E; simpl.
    + apply cmp_eq in E as ->. destruct (decide (k' = k1)) as [->|Hn]; [by rewrite cmp_refl|].
      destruct (cmp k' k1) eqn:E'; try done. by apply cmp_eq in E'.
    + destruct (decide (k' = k)) as [->|Hn]; [by rewrite cmp_refl|].
      destruct (cmp k' k) eqn:E'; try done.
      * by apply cmp_eq in E'.
      * by rewrite (cmp_lt_trans k' k k1).
    + rewrite IH by done. destruct (decide (k' = k)) as [->|Hn]; [by rewrite E|done].
Qed.

Lemma bt_remove_keys k m : ∀ x, x ∈ bt_keys (bt_remove k m) → x ∈ bt_keys m.
Proof.
  unfold bt_keys. induction m as [|[k' v'] m IH]; intros x; csimpl; [done|].
  destruct (cmp k k'); csimpl; [set_solver|done|set_solver].
Qed.

Lemma bt_remove_wf k m : bt_wf m → bt_wf (bt_remove k m).
Proof.
  unfold bt_wf. induction m as [|[k' v'] m IH]; csimpl; [done|].
  inversion 1 as [|? ? Hs Hf]; subst. destruct (cmp k k'); csimpl; [done|by constructor|].
  constructor; [by apply IH|]. apply Forall_forall. intros x Hx%bt_remove_keys. by eapply Forall_forall in Hf.
Qed.

Lemma bt_get_remove k m k' : bt_wf m → bt_get k' (bt_remove k m) = if decide (k' = k) then None else bt_get k' m.
Proof.
  unfold bt_wf. induction m as [|[k1 v1] m IH]; simpl; [by destruct (decide _)|].
  inversion 1 as [|? ? Hs Hf]; subst. destruct (cmp k k1) eqn:E; simpl.
  - apply cmp_eq in E as ->. destruct (decide (k' = k1)) as [->|Hn]; [by apply bt_get_lt|].
    destruct (cmp k' k1) eqn:E'; [by apply cmp_eq in E'| |done]. apply bt_get_lt.
    eapply Forall_impl; [exact Hf|]. intros b Hb. by eapply cmp_lt_trans.
  - destruct (decide (k' = k)) as [->|Hn]; [by rewrite E|done].
  - rewrite IH by done. destruct (decide (k' = k)) as [->|Hn]; [by rewrite E|done].
Qed.

(** Two trees with the same contents are the same list. *)
Lemma bt_ext m1 m2 : bt_wf m1 → bt_wf m2 → (∀ k, bt_get k m1 = bt_get k m2) → m1 = m2.
Proof.
  unfold bt_wf. revert m2. induction m1 as [|[k1 v1] m1 IH]; intros [|[k2 v2] m2]; csimpl; intros H1 H2 Heq.
  - done.
  - specialize (Heq k2). simpl in Heq. by rewrite cmp_refl in Heq.
  - specialize (Heq k1). simpl in Heq. by rewrite cmp_refl in Heq.
  - apply StronglySorted_inv in H1 as [Hs1 Hf1]. apply StronglySorted_inv in H2 as [Hs2 Hf2].
    assert (k1 = k2 ∧ v1 = v2) as [-> ->].
    { pose proof (Heq k1) as E1. pose proof (Heq k2) as E2. simpl in E1, E2. rewrite cmp_refl in E1, E2.
      destruct (cmp k1 k2) eqn:E; [apply cmp_eq in E; naive_solver|done|].
      apply cmp_gt_lt in E. by rewrite E in E2. }
    f_equal. apply IH; [done|done|]. intros k. specialize (Heq k). simpl in Heq.
    assert (∀ m : list (K * V), cmp k k2 ≠ Gt → Forall (λ b, cmp k2 b = Lt) (bt_keys m) → bt_get k m = None) as Hlt.
    { intros m Hc Hm. apply bt_get_lt. eapply Forall_impl; [exact Hm|]. intros b Hb.
      destruct (cmp k k2) eqn:E; [apply cmp_eq in E as ->; done|by eapply cmp_lt_trans|done]. }
    destruct (cmp k k2) eqn:E; [by rewrite !Hlt..|done].
Qed.

Lemma bt_get_keys k m : bt_get k m = None → bt_wf m → k ∉ bt_keys m.
Proof.
  intros Hn Hw Hk. apply list_elem_of_fmap in Hk as ([k' v] & -> & Hk). simpl in Hn.
  by rewrite (bt_get_elem _ _ _ Hw Hk) in Hn.
Qed.

End btree.
