(* ===== verification/CoreTypes.v ===== *)
(** * Core domain types (crates/core-types)

    Identifiers, exact six-decimal amounts, prices, timestamps and the crate's
    error type, with the two third-party types they rest on as interfaces:
    [DecimalOps]/[DecimalLaws] for [rust_decimal::Decimal] and [TimeOps] for
    [time::OffsetDateTime].  [QDecimal] and [ZTime] instantiate them. *)

From stdpp Require Export pretty.
From Stdlib Require Export Ascii QArith Qround Qabs Lqa.
From S2P Require Import Prelude.
#[local] Open Scope Z_scope.

(** ** Third-party interfaces *)

(** The operations of [rust_decimal::Decimal] the sources call.  [dec_value] is
    the number a decimal denotes; the arithmetic operators panic where their
    checked form returns [None], and agree with it otherwise. *)
Class DecimalOps := {
  Decimal : Type;
  dec_value : Decimal → Q;
  dec_ZERO : Decimal;
  dec_ONE : Decimal;
  dec_from : Z → Decimal;
  dec_new : Z → Z → Decimal;
  dec_cmp : Decimal → Decimal → comparison;
  dec_scale : Decimal → Z;
  dec_is_sign_negative : Decimal → bool;
  dec_fract : Decimal → Decimal;
  dec_floor : Decimal → Decimal;
  (** [normalize().scale()] *)
  dec_normal_scale : Decimal → Z;
  (** [round_dp_with_strategy], toward zero, minus and plus infinity *)
  dec_round_down : Z → Decimal → Decimal;
  dec_round_floor : Z → Decimal → Decimal;
  dec_round_ceil : Z → Decimal → Decimal;
  dec_to_u64 : Decimal → option Z;
  dec_to_i32 : Decimal → option Z;
  dec_checked_add : Decimal → Decimal → option Decimal;
  dec_checked_sub : Decimal → Decimal → option Decimal;
  dec_checked_rem : Decimal → Decimal → option Decimal;
  dec_checked_mul : Decimal → Decimal → option Decimal;
  dec_checked_div : Decimal → Decimal → option Decimal;
  dec_div : Decimal → Decimal → Decimal;
  dec_normalized_string : Decimal → string
}.

(** A number with a 96-bit mantissa and a scale of at most 28 digits. *)
Definition representable (q : Q) : Prop :=
  ∃ m s : Z, Z.abs m < 2 ^ 96 ∧ 0 ≤ s ≤ 28 ∧ (q == inject_Z m / inject_Z (10 ^ s))%Q.

(** [c] is a representable number nearest to [x]; an exactly representable [x] is
    its own rounding. *)
Definition rounds_to (x c : Q) : Prop :=
  ∀ r, representable r → (Qabs (c - x) <= Qabs (r - x))%Q.

(** Documented behaviour: comparison is by value, integers convert exactly, an
    exactly representable result is returned exactly, and any other result is
    rounded to the nearest representable number. *)
Class DecimalLaws `{DO : DecimalOps} : Prop := {
  dec_cmp_value a b : dec_cmp a b = Qcompare (dec_value a) (dec_value b);
  dec_ZERO_value : (dec_value dec_ZERO == 0)%Q;
  dec_ONE_value : (dec_value dec_ONE == 1)%Q;
  dec_from_value z : (dec_value (dec_from z) == inject_Z z)%Q;
  dec_from_sign z : 0 ≤ z → dec_is_sign_negative (dec_from z) = false;
  dec_new_value m k : Z.abs m < 2 ^ 96 → 0 ≤ k ≤ 28 →
    (dec_value (dec_new m k) == inject_Z m / inject_Z (10 ^ k))%Q;
  dec_floor_value a : (dec_value (dec_floor a) == inject_Z (Qfloor (dec_value a)))%Q;
  dec_round_down_value k a : 0 ≤ k ≤ 28 → (0 <= dec_value a)%Q →
    (dec_value (dec_round_down k a) == inject_Z (Qfloor (dec_value a * inject_Z (10 ^ k))) / inject_Z (10 ^ k))%Q;
  dec_round_floor_value k a : 0 ≤ k ≤ 28 →
    (dec_value (dec_round_floor k a) == inject_Z (Qfloor (dec_value a * inject_Z (10 ^ k))) / inject_Z (10 ^ k))%Q;
  dec_round_ceil_value k a : 0 ≤ k ≤ 28 →
    (dec_value (dec_round_ceil k a) == inject_Z (Qceiling (dec_value a * inject_Z (10 ^ k))) / inject_Z (10 ^ k))%Q;
  dec_to_i32_value a z : (dec_value a == inject_Z z)%Q → dec_to_i32 a = fits I32_MIN I32_MAX z;
  dec_checked_add_rounds a b c : dec_checked_add a b = Some c →
    rounds_to (dec_value a + dec_value b) (dec_value c);
  dec_checked_sub_rounds a b c : dec_checked_sub a b = Some c →
    rounds_to (dec_value a - dec_value b) (dec_value c);
  dec_checked_mul_rounds a b c : dec_checked_mul a b = Some c →
    rounds_to (dec_value a * dec_value b) (dec_value c);
  dec_checked_div_rounds a b c : dec_checked_div a b = Some c →
    ¬ (dec_value b == 0)%Q ∧ rounds_to (dec_value a / dec_value b) (dec_value c);
  dec_checked_rem_value a b c : dec_checked_rem a b = Some c →
    ¬ (dec_value b == 0)%Q ∧ ∃ k, (dec_value a == inject_Z k * dec_value b + dec_value c)%Q;
  dec_fract_value a : (dec_value (dec_fract a) == 0)%Q ↔ ∃ z, (dec_value a == inject_Z z)%Q;
  dec_to_u64_value a z : (dec_value a == inject_Z z)%Q → dec_to_u64 a = fits 0 U64_MAX z;
  dec_checked_mul_exact a b : representable (dec_value a * dec_value b) →
    ∃ c, dec_checked_mul a b = Some c ∧ (dec_value c == dec_value a * dec_value b)%Q;
  dec_checked_div_exact a b : ¬ (dec_value b == 0)%Q →
    representable (dec_value a / dec_value b) →
    ∃ c, dec_checked_div a b = Some c ∧ (dec_value c == dec_value a / dec_value b)%Q;
  dec_checked_div_sign a b c : dec_checked_div a b = Some c →
    dec_is_sign_negative a = false → dec_is_sign_negative b = false →
    dec_is_sign_negative c = false;
  dec_div_checked a b c : dec_checked_div a b = Some c → dec_div a b = c
}.

(** The operations of [time::OffsetDateTime] the sources call. *)
Class TimeOps := {
  OffsetDateTime : Type;
  odt_eq_dec :: EqDecision OffsetDateTime;
  unix_timestamp : OffsetDateTime → Z;
  unix_timestamp_nanos : OffsetDateTime → Z;
  odt_ltb : OffsetDateTime → OffsetDateTime → bool;
  (** [(a - b).whole_seconds()] *)
  odt_seconds_between : OffsetDateTime → OffsetDateTime → Z
}.

(** ** [error.rs] *)
Inductive Error : Type :=
| OutOfRange (field : string)
| ParseError (message : string)
| ScaleError (max_dp actual_dp : Z)
| LossyRounding
| ConvError (message : string).
#[export] Instance Error_eq_dec : EqDecision Error.
Proof. solve_decision. Defined.

(** ** [side.rs], [signal.rs], [canary.rs] *)
Inductive Side : Type := Buy | Sell.
#[export] Instance Side_eq_dec : EqDecision Side.
Proof. solve_decision. Defined.

Inductive LeaderAction : Type := Entry | Add | Trim | Exit | Flip | UnknownAction.
#[export] Instance LeaderAction_eq_dec : EqDecision LeaderAction.
Proof. solve_decision. Defined.

Inductive CanaryOrigin : Type := OperatorProbe | Organic.
#[export] Instance CanaryOrigin_eq_dec : EqDecision CanaryOrigin.
Proof. solve_decision. Defined.

(** ** [ids.rs], [polymarket.rs]: newtypes over strings and integers *)

Record VenueMarketId := { venue_market_id : string }.
Record MarketId := { market_id : VenueMarketId }.
Record OutcomeId := { outcome_index : Z }.
Record SourceTradeId := { source_trade_id : string }.
Record PolymarketConditionId := { condition_id_str : string }.
Record PolymarketTokenId := { token_id_str : string }.
Record EventSeq := { event_seq : Z }.
Record VenueId := { venue_name : string }.
Definition polymarket : VenueId := {| venue_name := "polymarket" |}.
Definition kalshi : VenueId := {| venue_name := "kalshi" |}.

#[export] Instance VenueMarketId_eq_dec : EqDecision VenueMarketId.
Proof. solve_decision. Defined.
#[export] Instance MarketId_eq_dec : EqDecision MarketId.
Proof. solve_decision. Defined.
#[export] Instance OutcomeId_eq_dec : EqDecision OutcomeId.
Proof. solve_decision. Defined.
#[export] Instance SourceTradeId_eq_dec : EqDecision SourceTradeId.
Proof. solve_decision. Defined.
#[export] Instance PolymarketConditionId_eq_dec : EqDecision PolymarketConditionId.
Proof. solve_decision. Defined.
#[export] Instance PolymarketTokenId_eq_dec : EqDecision PolymarketTokenId.
Proof. solve_decision. Defined.
#[export] Instance EventSeq_eq_dec : EqDecision EventSeq.
Proof. solve_decision. Defined.
#[export] Instance VenueId_eq_dec : EqDecision VenueId.
Proof. solve_decision. Defined.

#[export] Program Instance VenueMarketId_countable : Countable VenueMarketId :=
  inj_countable' venue_market_id (λ s, {| venue_market_id := s |}) _.
Next Obligation. by intros []. Qed.
#[export] Program Instance MarketId_countable : Countable MarketId :=
  inj_countable' market_id (λ s, {| market_id := s |}) _.
Next Obligation. by intros []. Qed.
#[export] Program Instance OutcomeId_countable : Countable OutcomeId :=
  inj_countable' outcome_index (λ s, {| outcome_index := s |}) _.
Next Obligation. by intros []. Qed.

(** [MarketId]'s [Display] is the inner string. *)
Definition market_to_string (m : MarketId) : string := venue_market_id (market_id m).

(** [MarketOutcomeId]: the compound key of a position. *)
Record MarketOutcomeId := { market : MarketId; outcome : OutcomeId }.
#[export] Instance MarketOutcomeId_eq_dec : EqDecision MarketOutcomeId.
Proof. solve_decision. Defined.
#[export] Program Instance MarketOutcomeId_countable : Countable MarketOutcomeId :=
  inj_countable' (λ k, (market k, outcome k)) (λ p, {| market := p.1; outcome := p.2 |}) _.
Next Obligation. by intros []. Qed.

(** ** [amount.rs]: exact six-decimal amounts

    The [exact_amount!] macro is instantiated twice, for collateral and for
    shares; the two types differ in the field name their errors carry. *)
Definition ATOMIC_SCALE : Z := 1000000.

Record ExactAmount := from_atomic { atomic : Z }.
Abbreviation CollateralAmount := ExactAmount (only parsing).
Abbreviation ShareAmount := ExactAmount (only parsing).
#[export] Instance ExactAmount_eq_dec : EqDecision ExactAmount.
Proof. solve_decision. Defined.

Definition amount_ZERO : ExactAmount := from_atomic 0.
(** The [u64] the amount holds is in range. *)
Definition amount_wf (a : ExactAmount) : Prop := is_u64 (atomic a).

Definition amount_leb (a b : ExactAmount) : bool := atomic a <=? atomic b.
Definition amount_ltb (a b : ExactAmount) : bool := atomic a <? atomic b.
Definition amount_min (a b : ExactAmount) : ExactAmount :=
  from_atomic (Z.min (atomic a) (atomic b)).

Definition from_whole (field : string) (whole : Z) : result Error ExactAmount :=
  ok_or (from_atomic <$> checked_mul_u64 whole ATOMIC_SCALE) (OutOfRange field).
Definition amount_checked_add (field : string) (a b : ExactAmount) : result Error ExactAmount :=
  ok_or (from_atomic <$> checked_add_u64 (atomic a) (atomic b)) (OutOfRange field).
Definition amount_checked_sub (field : string) (a b : ExactAmount) : result Error ExactAmount :=
  ok_or (from_atomic <$> checked_sub_u64 (atomic a) (atomic b)) (OutOfRange field).

Definition share_checked_add := amount_checked_add "ShareAmount".
Definition share_checked_sub := amount_checked_sub "ShareAmount".
Definition collateral_checked_add := amount_checked_add "CollateralAmount".
Definition collateral_checked_sub := amount_checked_sub "CollateralAmount".

Section Decimals.
Context `{DO : DecimalOps}.

Definition from_decimal_exact (field : string) (value : Decimal) : result Error ExactAmount :=
  if dec_is_sign_negative value then Err (OutOfRange field)
  else
    scaled ← ok_or (dec_checked_mul value (dec_from ATOMIC_SCALE)) (OutOfRange field);
    if bool_decide (dec_cmp (dec_fract scaled) dec_ZERO ≠ Eq)
    then Err (ScaleError 6 (dec_scale value))
    else ok_or (from_atomic <$> dec_to_u64 scaled) (OutOfRange field).

Definition to_decimal (a : ExactAmount) : Decimal :=
  dec_div (dec_from (atomic a)) (dec_from ATOMIC_SCALE).

(** ** [price.rs]: market prices on [0, 1] *)
Record Price := { price_value : Decimal }.

Definition dec_ltb (a b : Decimal) : bool := bool_decide (dec_cmp a b = Lt).

Definition Price_new (d : Decimal) : result Error Price :=
  if dec_ltb d dec_ZERO || dec_ltb dec_ONE d
  then Err (OutOfRange "Price")
  else Ok {| price_value := d |}.

Definition dec_leb (a b : Decimal) : bool := negb (dec_ltb b a).
Definition dec_eqb (a b : Decimal) : bool := bool_decide (dec_cmp a b = Eq).
Definition dec_min (a b : Decimal) : Decimal := if dec_ltb b a then b else a.
Definition dec_max (a b : Decimal) : Decimal := if dec_ltb b a then a else b.
Definition Price_ZERO : Price := {| price_value := dec_ZERO |}.
Definition Price_ONE : Price := {| price_value := dec_ONE |}.
Definition price_ltb (a b : Price) : bool := dec_ltb (price_value a) (price_value b).
Definition price_leb (a b : Price) : bool := dec_leb (price_value a) (price_value b).
Definition price_eqb (a b : Price) : bool := dec_eqb (price_value a) (price_value b).
(** [Ord::min] keeps its first argument on a tie. *)
Definition price_min (a b : Price) : Price := if price_ltb b a then b else a.
Definition dec_is_zero (a : Decimal) : bool := dec_eqb a dec_ZERO.

(** Probabilities, Kelly fractions and signed basis points. *)
Record Probability := { prob_value : Decimal }.
Record KellyFraction := { kelly_value : Decimal }.
Record BasisPoints := { bps : Z }.

Definition from_ratio_floor (numerator denominator : Decimal) : result Error BasisPoints :=
  if dec_leb denominator dec_ZERO then Err (OutOfRange "BasisPoints")
  else
    scaled ← ok_or (ratio ← dec_checked_div numerator denominator;
                    dec_checked_mul ratio (dec_from 10000)) (OutOfRange "BasisPoints");
    ok_or ((λ n, {| bps := n |}) <$> dec_to_i32 (dec_floor scaled)) (OutOfRange "BasisPoints").

End Decimals.
#[export] Instance BasisPoints_eq_dec : EqDecision BasisPoints.
Proof. solve_decision. Defined.

(** ** [quantity.rs] *)
Record ContractQty := { contract_qty : Z }.

(** ** [reconstruction.rs] *)
Record ReconstructionQuality := { quality : Z }.
Definition ReconstructionQuality_new (n : Z) : result Error ReconstructionQuality :=
  if 100 <? n then Err (OutOfRange "ReconstructionQuality") else Ok {| quality := n |}.

(** ** [time.rs] *)
Section Times.
Context `{TO : TimeOps}.
Record SourceTimestamp := { source_timestamp : OffsetDateTime }.
Record ReceivedAt := { received_at_time : OffsetDateTime }.
#[export] Instance SourceTimestamp_eq_dec : EqDecision SourceTimestamp.
Proof. solve_decision. Defined.
End Times.

(** ** Bytes of a string, and the ASCII classes the sources test *)
Definition ascii_byte (c : Ascii.ascii) : Z := Z.of_N (Ascii.N_of_ascii c).
Definition byte_ascii (b : Z) : Ascii.ascii := Ascii.ascii_of_N (Z.to_N b).
Fixpoint string_bytes (s : string) : list Z :=
  match s with
  | EmptyString => []
  | String c s => ascii_byte c :: string_bytes s
  end.
Definition byte_between (lo hi : Ascii.ascii) (b : Z) : bool :=
  (ascii_byte lo <=? b) && (b <=? ascii_byte hi).
Definition is_ascii_digit : Z → bool := byte_between "0"%char "9"%char.
Definition is_ascii_lowercase : Z → bool := byte_between "a"%char "z"%char.
Definition is_lower_hex (b : Z) : bool := is_ascii_digit b || byte_between "a"%char "f"%char b.
Definition is_ascii_hexdigit (b : Z) : bool := is_lower_hex b || byte_between "A"%char "F"%char b.

(** [str::to_ascii_lowercase] *)
Definition ascii_lower (c : ascii) : ascii :=
  if byte_between "A"%char "Z"%char (ascii_byte c) then byte_ascii (ascii_byte c + 32) else c.
Fixpoint to_ascii_lowercase (s : string) : string :=
  match s with
  | EmptyString => EmptyString
  | String c s => String (ascii_lower c) (to_ascii_lowercase s)
  end.

(** [str::eq_ignore_ascii_case] *)
Definition eq_ignore_ascii_case (a b : string) : bool :=
  bool_decide (to_ascii_lowercase a = to_ascii_lowercase b).

(** [str::trim().is_empty()]: every character has the Unicode property
    White_Space, read off the UTF-8 bytes. *)
Fixpoint is_blank_bytes (bs : list Z) : bool :=
  match bs with
  | [] => true
  | b :: rest =>
      if ((9 <=? b) && (b <=? 13)) || (b =? 32) then is_blank_bytes rest
      else match rest with
           | c :: rest1 =>
               if (b =? 194) && ((c =? 133) || (c =? 160)) then is_blank_bytes rest1
               else match rest1 with
                    | d :: rest2 =>
                        if ((b =? 225) && (c =? 154) && (d =? 128))
                           || ((b =? 226) && (c =? 128)
                               && (((128 <=? d) && (d <=? 138)) || (d =? 168) || (d =? 169) || (d =? 175)))
                           || ((b =? 226) && (c =? 129) && (d =? 159))
                           || ((b =? 227) && (c =? 128) && (d =? 128))
                        then is_blank_bytes rest2 else false
                    | [] => false
                    end
           | [] => false
           end
  end.
Definition is_blank (s : string) : bool := is_blank_bytes (string_bytes s).

(** [str::strip_prefix]. *)
Fixpoint strip_prefix (p s : string) : option string :=
  match p, s with
  | EmptyString, s => Some s
  | String c p, String d s => if decide (c = d) then strip_prefix p s else None
  | String _ _, EmptyString => None
  end.

(** ** [ids.rs]: generations of a trade identity *)
Inductive SourceTradeIdentityVersion : Type := TransactionHashV1 | ReconciledGroupV2.
#[export] Instance SourceTradeIdentityVersion_eq_dec : EqDecision SourceTradeIdentityVersion.
Proof. solve_decision. Defined.

Definition identity_version (id : SourceTradeId) : SourceTradeIdentityVersion :=
  let s := source_trade_id id in
  let is_v2 :=
    bool_decide (String.length s = 67%nat)
    && match strip_prefix "g2:" s with
       | Some hex => forallb is_lower_hex (string_bytes hex)
       | None => false
       end in
  if is_v2 then ReconciledGroupV2 else TransactionHashV1.
Definition is_reconciled_v2 (id : SourceTradeId) : bool :=
  bool_decide (identity_version id = ReconciledGroupV2).
Definition is_canonical_transaction_hash_v1 (id : SourceTradeId) : bool :=
  let s := source_trade_id id in
  bool_decide (String.length s = 66%nat)
  && match strip_prefix "0x" s with
     | Some hex => forallb is_ascii_hexdigit (string_bytes hex)
     | None => false
     end.

(** ** [identity.rs] *)
Definition hex_nibble (b : Z) : option Z :=
  if is_ascii_digit b then Some (b - ascii_byte "0"%char)
  else if byte_between "a"%char "f"%char b then Some (b - ascii_byte "a"%char + 10)
  else if byte_between "A"%char "F"%char b then Some (b - ascii_byte "A"%char + 10)
  else None.

(** The 20 bytes of an address. *)
Record WalletAddress := { wallet_bytes : list Z }.
Definition wallet_wf (w : WalletAddress) : Prop :=
  length (wallet_bytes w) = 20%nat ∧ Forall is_u8 (wallet_bytes w).
#[export] Instance WalletAddress_eq_dec : EqDecision WalletAddress.
Proof. solve_decision. Defined.
#[export] Program Instance WalletAddress_countable : Countable WalletAddress :=
  inj_countable' wallet_bytes (λ s, {| wallet_bytes := s |}) _.
Next Obligation. by intros []. Qed.

Fixpoint from_hex_chunks (i : Z) (bs : list Z) : result Error (list Z) :=
  match bs with
  | a :: b :: bs =>
      hi ← ok_or (hex_nibble a)
             (ParseError ("invalid hex char at position " +:+ pretty (i * 2)));
      lo ← ok_or (hex_nibble b)
             (ParseError ("invalid hex char at position " +:+ pretty (i * 2 + 1)));
      rest ← from_hex_chunks (i + 1) bs;
      Ok (Z.lor (Z.shiftl hi 4) lo :: rest)
  | _ => Ok []
  end.

Definition from_hex (s : string) : result Error WalletAddress :=
  s ← ok_or (strip_prefix "0x" s) (ParseError "wallet address must start with 0x");
  if bool_decide (String.length s ≠ 40%nat)
  then Err (ParseError ("expected 40 hex chars, got " +:+ pretty (String.length s)))
  else bytes ← from_hex_chunks 0 (string_bytes s); Ok {| wallet_bytes := bytes |}.

(** [{b:02x}]: two lowercase hexadecimal digits. *)
Definition hex_digit (n : Z) : Ascii.ascii :=
  byte_ascii (if n <? 10 then ascii_byte "0"%char + n else ascii_byte "a"%char + (n - 10)).
Fixpoint hex_string (bs : list Z) : string :=
  match bs with
  | [] => EmptyString
  | b :: bs => String (hex_digit (Z.shiftr b 4)) (String (hex_digit (Z.land b 15)) (hex_string bs))
  end.
Definition wallet_to_string (w : WalletAddress) : string := "0x" +:+ hex_string (wallet_bytes w).

Record TraderId := { trader_wallet : WalletAddress }.

Record AccountId := { account_slug : string }.
#[export] Instance AccountId_eq_dec : EqDecision AccountId.
Proof. solve_decision. Defined.

(** ** Facts about amounts *)

Lemma amount_eta a : from_atomic (atomic a) = a.
Proof. by destruct a. Qed.

Lemma amount_checked_add_Ok field a b c :
  amount_checked_add field a b = Ok c ↔
  c = from_atomic (atomic a + atomic b) ∧ 0 ≤ atomic a + atomic b ≤ U64_MAX.
Proof.
  unfold amount_checked_add, checked_add_u64. rewrite ok_or_Ok, fmap_Some.
  setoid_rewrite fits_Some. naive_solver.
Qed.

Lemma amount_checked_sub_Ok field a b c :
  amount_checked_sub field a b = Ok c ↔
  c = from_atomic (atomic a - atomic b) ∧ 0 ≤ atomic a - atomic b ≤ U64_MAX.
Proof.
  unfold amount_checked_sub, checked_sub_u64. rewrite ok_or_Ok, fmap_Some.
  setoid_rewrite fits_Some. naive_solver.
Qed.

Lemma amount_checked_sub_wf field a b : amount_wf a → amount_wf b →
  atomic b ≤ atomic a → amount_checked_sub field a b = Ok (from_atomic (atomic a - atomic b)).
Proof. unfold amount_wf, is_u64. intros. apply amount_checked_sub_Ok. split; [done|lia]. Qed.

#[export] Hint Rewrite amount_checked_add_Ok amount_checked_sub_Ok : rust.

(** ** Hexadecimal text *)

Lemma byte_ascii_byte b : is_u8 b → ascii_byte (byte_ascii b) = b.
Proof.
  unfold is_u8, U8_MAX, ascii_byte, byte_ascii. intros Hb.
  rewrite N_ascii_embedding; lia.
Qed.

Lemma hex_nibble_digit n : 0 ≤ n < 16 → hex_nibble (ascii_byte (hex_digit n)) = Some n.
Proof.
  intros Hn. assert (n ∈ (seqZ 0 16)) as Hin by (apply elem_of_seqZ; lia).
  clear Hn. revert n Hin. apply Forall_forall. repeat constructor.
Qed.

Lemma nibbles_byte b : is_u8 b →
  0 ≤ Z.shiftr b 4 < 16 ∧ 0 ≤ Z.land b 15 < 16 ∧ Z.lor (Z.shiftl (Z.shiftr b 4) 4) (Z.land b 15) = b.
Proof.
  intros Hb. assert (b ∈ (seqZ 0 256)) as Hin
    by (apply elem_of_seqZ; unfold is_u8, U8_MAX in Hb; lia).
  clear Hb. revert b Hin. apply Forall_forall.
  vm_compute. repeat (constructor; [repeat split; intros; discriminate|]). constructor.
Qed.

Lemma from_hex_chunks_hex_string bs i : Forall is_u8 bs →
  from_hex_chunks i (string_bytes (hex_string bs)) = Ok bs.
Proof.
  intros Hbs. revert i. induction Hbs as [|b bs Hb Hbs IH]; intros i; [done|].
  destruct (nibbles_byte b Hb) as (H1 & H2 & H3). cbn [hex_string string_bytes from_hex_chunks].
  rewrite !hex_nibble_digit by done. simpl. rewrite IH. simpl. by rewrite H3.
Qed.

Lemma length_hex_string bs : String.length (hex_string bs) = (2 * length bs)%nat.
Proof. induction bs as [|b bs IH]; simpl; [done|]. rewrite IH. lia. Qed.

Lemma strip_prefix_app p s : strip_prefix p (p +:+ s) = Some s.
Proof.
  induction p as [|c p IH]; [done|].
  change (strip_prefix (String c p) (String c (p +:+ s)) = Some s).
  simpl. by rewrite decide_True by done.
Qed.

(** Parsing the printed form of a wallet address gives the address back. *)
Theorem wallet_from_hex_to_string w : wallet_wf w → from_hex (wallet_to_string w) = Ok w.
Proof.
  intros [Hlen Hbs]. unfold from_hex, wallet_to_string.
  rewrite strip_prefix_app. unfold mbind at 1. cbn [result_mbind ok_or].
  rewrite length_hex_string, Hlen, bool_decide_eq_false_2 by lia.
  rewrite from_hex_chunks_hex_string by done. by destruct w.
Qed.

Lemma wallet_from_hex_to_string_witness :
  wallet_wf {| wallet_bytes := seqZ 0 20 |}
  ∧ from_hex (wallet_to_string {| wallet_bytes := seqZ 0 20 |})
    = Ok {| wallet_bytes := seqZ 0 20 |}.
Proof.
  assert (wallet_wf {| wallet_bytes := seqZ 0 20 |}) as H.
  { split; [done|]. vm_compute. repeat (constructor; [split; discriminate|]). constructor. }
  split; [exact H|exact (wallet_from_hex_to_string _ H)].
Defined.

(** ** Amounts and decimals *)

#[export] Instance rounds_to_proper : Proper (Qeq ==> Qeq ==> iff) rounds_to.
Proof. intros x y Hxy c d Hcd. unfold rounds_to. by setoid_rewrite Hxy; setoid_rewrite Hcd. Qed.
(** Rounding to the nearest respects every representable bound. *)
Lemma rounds_to_le x c r : rounds_to x c → representable r → (x <= r)%Q → (c <= r)%Q.
Proof.
  intros Hc Hr Hx. destruct (Qlt_le_dec r c) as [Hlt|]; [|done]. exfalso.
  specialize (Hc r Hr). rewrite !Qabs_pos in Hc by lra. lra.
Qed.
Lemma rounds_to_ge x c r : rounds_to x c → representable r → (r <= x)%Q → (r <= c)%Q.
Proof.
  intros Hc Hr Hx. destruct (Qlt_le_dec c r) as [Hlt|]; [|done]. exfalso.
  specialize (Hc r Hr). rewrite !Qabs_neg in Hc by lra. lra.
Qed.
Lemma rounds_to_eq x c : rounds_to x c → representable x → (c == x)%Q.
Proof.
  intros Hc Hx. apply Qle_antisym; [eapply rounds_to_le|eapply rounds_to_ge]; eauto using Qle_refl.
Qed.
Lemma representable_Z z : Z.abs z < 2 ^ 96 → representable (inject_Z z).
Proof. intros Hz. exists z, 0. split_and!; [done|lia|lia|]. change (inject_Z (10 ^ 0)) with 1%Q. field. Qed.
Lemma representable_u64 z : is_u64 z → representable (inject_Z z).
Proof. unfold is_u64, U64_MAX. intros Hz. apply representable_Z. lia. Qed.

(** The distance to a rounded number is below one unit of any scale at which the
    number still has a mantissa. *)
Lemma rounds_within x c s : rounds_to x c → 0 ≤ s ≤ 28 →
  (Qabs x * inject_Z (10 ^ s) <= inject_Z (2 ^ 95))%Q →
  (x - 1 / inject_Z (10 ^ s) <= c <= x + 1 / inject_Z (10 ^ s))%Q.
Proof.
  intros Hc Hs Hx. set (u := inject_Z (10 ^ s)) in *.
  assert (0 < u)%Q as Hu by (unfold u; rewrite <- (Zlt_Qlt 0); apply Z.pow_pos_nonneg; lia).
  set (m := Qfloor (x * u)). pose proof (Qfloor_le (x * u)) as Hlo. pose proof (Qlt_floor (x * u)) as Hhi.
  fold m in Hlo, Hhi. rewrite inject_Z_plus in Hhi. change (inject_Z 1) with 1%Q in Hhi.
  assert (Z.abs m < 2 ^ 96) as Hm.
  { assert (- inject_Z (2 ^ 95) <= x * u <= inject_Z (2 ^ 95))%Q as [H1 H2].
    { apply Qabs_Qle_condition. rewrite Qabs_Qmult, (Qabs_pos u) by lra. done. }
    assert (m ≤ 2 ^ 95) by (rewrite Zle_Qle; lra).
    assert (- 2 ^ 95 - 1 ≤ m); [|lia].
    cut (- 2 ^ 95 < m + 1); [lia|]. rewrite Zlt_Qlt, inject_Z_plus, inject_Z_opp. change (inject_Z 1) with 1%Q. lra. }
  specialize (Hc (inject_Z m / u)%Q). 
  assert (inject_Z m / u * u == inject_Z m)%Q as Hmu by (field; lra).
  assert (x - 1 / u <= inject_Z m / u <= x)%Q as [R1 R2].
  { split; apply Qmult_le_l with u; try done.
    - assert (u * (x - 1 / u) == x * u - 1)%Q as -> by (field; lra). rewrite (Qmult_comm u (_ / u)), Hmu. lra.
    - rewrite (Qmult_comm u (_ / u)), Hmu, (Qmult_comm u x). done. }
  assert (representable (inject_Z m / u)) as Hr by (by exists m, s).
  specialize (Hc Hr). rewrite (Qabs_neg (_ / u - x)) in Hc by lra.
  apply Qabs_Qle_condition in Hc. lra.
Qed.

Section Comparisons.
Context `{DL : DecimalLaws}.

Lemma dec_ltb_lt a b : dec_ltb a b = true ↔ (dec_value a < dec_value b)%Q.
Proof. unfold dec_ltb. rewrite bool_decide_eq_true, dec_cmp_value. apply iff_sym, Qlt_alt. Qed.
Lemma dec_ltb_ge a b : dec_ltb a b = false ↔ (dec_value b <= dec_value a)%Q.
Proof.
  rewrite <- not_true_iff_false, dec_ltb_lt. split; [apply Qnot_lt_le|apply Qle_not_lt].
Qed.
Lemma dec_leb_le a b : dec_leb a b = true ↔ (dec_value a <= dec_value b)%Q.
Proof. unfold dec_leb. rewrite negb_true_iff. apply dec_ltb_ge. Qed.
Lemma dec_leb_gt a b : dec_leb a b = false ↔ (dec_value b < dec_value a)%Q.
Proof. unfold dec_leb. rewrite negb_false_iff. apply dec_ltb_lt. Qed.
Lemma dec_eqb_eq a b : dec_eqb a b = true ↔ (dec_value a == dec_value b)%Q.
Proof. unfold dec_eqb. rewrite bool_decide_eq_true, dec_cmp_value. apply iff_sym, Qeq_alt. Qed.

(** Multiplying a whole number by a fraction in [0, 1] and flooring. *)
Lemma floor_mul_unit z f v n : is_u64 z → (0 <= dec_value f <= 1)%Q →
  dec_checked_mul (dec_from z) f = Some v → dec_to_u64 (dec_floor v) = Some n →
  0 ≤ n ≤ z ∧ ((dec_value f == 1)%Q → n = z) ∧ ((dec_value f == 0)%Q → n = 0).
Proof.
  intros Hz [Hf0 Hf1] Hm Hn. apply dec_checked_mul_rounds in Hm.
  rewrite (dec_to_u64_value _ _ (dec_floor_value v)) in Hn. apply fits_Some in Hn as [-> Hn].
  assert (dec_value (dec_from z) == inject_Z z)%Q as Hfz by apply dec_from_value.
  assert (0 <= inject_Z z)%Q as Hz0 by (rewrite <- (Zle_Qle 0); apply Hz).
  split_and!; [lia| | |].
  - rewrite <- (Qfloor_Z z). apply Qfloor_resp_le. eapply rounds_to_le; [done|by apply representable_u64|].
    rewrite Hfz. nra.
  - intros H1. assert (dec_value v == inject_Z z)%Q as ->; [|by rewrite Qfloor_Z].
    apply Qle_antisym; [eapply rounds_to_le|eapply rounds_to_ge]; eauto using representable_u64;
      rewrite Hfz, H1; lra.
  - intros H0. assert (dec_value v == inject_Z 0)%Q as ->; [|by rewrite Qfloor_Z].
    change (inject_Z 0) with 0%Q. assert (representable 0%Q) as Hr by (by apply (representable_Z 0)).
    apply Qle_antisym; [eapply rounds_to_le|eapply rounds_to_ge]; eauto; rewrite Hfz, H0; lra.
Qed.
End Comparisons.

Section AmountDecimal.
Context `{DL : DecimalLaws}.

Lemma dec_from_scale_nonzero : ¬ (dec_value (dec_from ATOMIC_SCALE) == 0)%Q.
Proof. rewrite dec_from_value. done. Qed.

Lemma representable_atomic z : is_u64 z → representable (inject_Z z / inject_Z ATOMIC_SCALE).
Proof.
  unfold is_u64, U64_MAX. intros Hz. exists z, 6. split_and!; [lia|lia|lia|done].
Qed.

Lemma to_decimal_spec a : amount_wf a →
  (dec_value (to_decimal a) == inject_Z (atomic a) / inject_Z ATOMIC_SCALE)%Q
  ∧ dec_is_sign_negative (to_decimal a) = false.
Proof.
  intros Ha.
  destruct (dec_checked_div_exact (dec_from (atomic a)) (dec_from ATOMIC_SCALE)) as (c & Hc & Hv).
  { apply dec_from_scale_nonzero. }
  { destruct (representable_atomic (atomic a) Ha) as (m & s & ? & ? & Hq).
    exists m, s. split_and!; try lia. by rewrite !dec_from_value. }
  unfold to_decimal. rewrite (dec_div_checked _ _ _ Hc). split.
  - rewrite Hv, !dec_from_value. done.
  - eapply dec_checked_div_sign; [exact Hc| |]; apply dec_from_sign; [apply Ha|done].
Qed.

(** Converting a decimal with a whole number of atomic units is exact. *)
Lemma from_decimal_exact_whole field d a z : from_decimal_exact field d = Ok a →
  (dec_value d * inject_Z ATOMIC_SCALE == inject_Z z)%Q → a = from_atomic z ∧ is_u64 z.
Proof.
  unfold from_decimal_exact. intros H Hz. destruct (dec_is_sign_negative d); [done|].
  apply result_bind_Ok in H as (v & Hv%ok_or_Ok & H). case_bool_decide as Hf; [done|].
  apply ok_or_Ok, fmap_Some in H as (w & Hw & ->). apply dec_checked_mul_rounds in Hv.
  assert (∃ k, dec_value v == inject_Z k)%Q as [k Hk].
  { apply dec_fract_value. destruct (dec_cmp (dec_fract v) dec_ZERO) eqn:E; [|done..].
    rewrite dec_cmp_value, dec_ZERO_value in E. by apply Qeq_alt. }
  rewrite (dec_to_u64_value _ _ Hk) in Hw. apply fits_Some in Hw as [-> Hu].
  rewrite dec_from_value, Hz in Hv. unfold U64_MAX in Hu.
  assert (k = z) as ->; [|done]. destruct (decide (Z.abs z < 2 ^ 96)) as [Hs|Hs].
  - apply rounds_to_eq in Hv; [|by apply representable_Z]. rewrite Hk in Hv. by apply inject_Z_injective.
  - exfalso. destruct (decide (0 ≤ z)) as [Hp|Hn].
    + pose proof (rounds_to_ge _ _ (inject_Z (2 ^ 65)) Hv) as Hge. rewrite Hk, <- !Zle_Qle in Hge.
      specialize (Hge ltac:(by apply representable_Z)). lia.
    + pose proof (rounds_to_le _ _ (inject_Z (-1)) Hv) as Hle. rewrite Hk, <- !Zle_Qle in Hle.
      specialize (Hle ltac:(by apply representable_Z)). lia.
Qed.

(** The exact decimal of a stored amount converts back to the same amount: the
    six-decimal boundary loses nothing. *)
Theorem amount_decimal_roundtrip field a :
  amount_wf a → from_decimal_exact field (to_decimal a) = Ok a.
Proof.
  intros Ha. destruct (to_decimal_spec a Ha) as [Hv Hs].
  assert (dec_value (to_decimal a) * dec_value (dec_from ATOMIC_SCALE) == inject_Z (atomic a))%Q
    as Hprod.
  { rewrite Hv, dec_from_value. field. done. }
  unfold from_decimal_exact. rewrite Hs.
  destruct (dec_checked_mul_exact (to_decimal a) (dec_from ATOMIC_SCALE)) as (c & -> & Hc).
  { exists (atomic a), 0. unfold amount_wf, is_u64, U64_MAX in Ha. split_and!; try lia.
    rewrite Hprod. change (inject_Z (10 ^ 0)) with 1%Q. field. }
  rewrite Hprod in Hc. simpl. rewrite bool_decide_eq_false_2.
  2:{ intros Hn. apply Hn. rewrite dec_cmp_value, dec_ZERO_value. apply Qeq_alt.
      apply dec_fract_value. eauto. }
  rewrite (dec_to_u64_value _ _ Hc), is_u64_fits by done. simpl. by rewrite amount_eta.
Qed.

End AmountDecimal.

(** ** Instances of the third-party interfaces

    Exact rationals and integer nanoseconds: enough to evaluate the models and to
    show that the laws are consistent. *)

Definition Q_integral (q : Q) : bool := Qeq_bool q (inject_Z (Qfloor q)).

Definition Qtruncate (q : Q) : Z := if Qle_bool 0 q then Qfloor q else Qceiling q.
(** The number of decimals of [q], 28 when it has no finite expansion of that length. *)
Fixpoint Q_scale (fuel : nat) (k : Z) (q : Q) : Z :=
  match fuel with
  | O => k
  | S fuel => if Q_integral (q * inject_Z (10 ^ k)) then k else Q_scale fuel (k + 1) q
  end.

#[export] Instance QDecimal : DecimalOps := {|
  Decimal := Q;
  dec_value := λ q, q;
  dec_ZERO := 0%Q;
  dec_ONE := 1%Q;
  dec_from := inject_Z;
  dec_new := λ m k, Qred (inject_Z m / inject_Z (10 ^ k));
  dec_cmp := Qcompare;
  dec_scale := λ _, 0;
  dec_is_sign_negative := λ q, negb (Qle_bool 0 q);
  dec_fract := λ q, Qred (q - inject_Z (Qfloor q));
  dec_floor := λ q, inject_Z (Qfloor q);
  dec_normal_scale := λ q, Q_scale 28 0 q;
  dec_round_down := λ k q, Qred (inject_Z (Qtruncate (q * inject_Z (10 ^ k))) / inject_Z (10 ^ k));
  dec_round_floor := λ k q, Qred (inject_Z (Qfloor (q * inject_Z (10 ^ k))) / inject_Z (10 ^ k));
  dec_round_ceil := λ k q, Qred (inject_Z (Qceiling (q * inject_Z (10 ^ k))) / inject_Z (10 ^ k));
  dec_to_u64 := λ q, fits 0 U64_MAX (Qfloor q);
  dec_to_i32 := λ q, fits I32_MIN I32_MAX (Qfloor q);
  dec_checked_sub := λ a b, Some (Qred (a - b));
  dec_checked_rem := λ a b, if Qeq_bool b 0 then None
                            else Some (Qred (a - inject_Z (Qfloor (a / b)) * b));
  dec_checked_add := λ a b, Some (Qred (a + b));
  dec_checked_mul := λ a b, Some (Qred (a * b));
  dec_checked_div := λ a b, if Qeq_bool b 0 then None else Some (Qred (a / b));
  dec_div := λ a b, Qred (a / b);
  dec_normalized_string := λ q, pretty (Qnum (Qred q)) +:+ "/" +:+ pretty (Zpos (Qden (Qred q)))
|}.

Lemma Qfloor_eq_iff q z : (q == inject_Z z)%Q → Qfloor q = z.
Proof. intros ->. apply Qfloor_Z. Qed.

Lemma Qle_bool_nonneg_div a b : Qle_bool 0 a = true → Qle_bool 0 b = true →
  ¬ (b == 0)%Q → Qle_bool 0 (a / b) = true.
Proof.
  rewrite !Qle_bool_iff. intros Ha Hb Hn.
  apply Qle_shift_div_l; [|by rewrite Qmult_0_l].
  apply Qle_lteq in Hb as [?|Hb]; [done|]. by symmetry in Hb.
Qed.

Lemma rounds_to_exact x c : (c == x)%Q → rounds_to x c.
Proof.
  intros Hc r _. assert (c - x == 0)%Q as -> by (rewrite Hc; ring). apply Qabs_nonneg.
Qed.

#[export] Instance QDecimal_laws : DecimalLaws.
Proof.
  split; simpl.
  - done.
  - done.
  - done.
  - done.
  - intros z Hz. apply negb_false_iff, Qle_bool_iff. unfold Qle. simpl. lia.
  - intros m k _ _. apply Qred_correct.
  - done.
  - intros k a Hk Ha. rewrite Qred_correct. unfold Qtruncate.
    assert (Qle_bool 0 (a * inject_Z (10 ^ k)) = true) as ->; [|done].
    apply Qle_bool_iff, Qmult_le_0_compat; [done|]. rewrite <- (Zle_Qle 0). apply Z.pow_nonneg. lia.
  - intros k a _. apply Qred_correct.
  - intros k a _. apply Qred_correct.
  - intros a z Hz. by rewrite (Qfloor_eq_iff a z Hz).
  - intros a b c [= <-]. apply rounds_to_exact, Qred_correct.
  - intros a b c [= <-]. apply rounds_to_exact, Qred_correct.
  - intros a b c [= <-]. apply rounds_to_exact, Qred_correct.
  - intros a b c. destruct (Qeq_bool b 0) eqn:E; [done|]. intros [= <-].
    split; [by apply Qeq_bool_neq|apply rounds_to_exact, Qred_correct].
  - intros a b c. destruct (Qeq_bool b 0) eqn:E; [done|]. intros [= <-].
    split; [by apply Qeq_bool_neq|]. exists (Qfloor (a / b)).
    rewrite Qred_correct. change (_ / Z.pos _) with (Qfloor (a / b)). ring.
  - intros a. rewrite Qred_correct. split.
    + intros H. exists (Qfloor a). rewrite <- (Qplus_0_l (inject_Z (Qfloor a))), <- H. ring.
    + intros [z Hz]. rewrite Hz at 1. rewrite (Qfloor_eq_iff a z Hz). ring.
  - intros a z Hz. by rewrite (Qfloor_eq_iff a z Hz).
  - intros a b _. eexists. split; [done|]. apply Qred_correct.
  - intros a b Hb _. destruct (Qeq_bool b 0) eqn:E; [by apply Qeq_bool_iff in E|].
    eexists. split; [done|]. apply Qred_correct.
  - intros a b c. destruct (Qeq_bool b 0) eqn:E; [done|]. intros [= <-] Ha Hb.
    apply negb_false_iff. apply negb_false_iff in Ha, Hb.
    apply Qle_bool_iff. rewrite Qred_correct. apply Qle_bool_iff.
    apply Qle_bool_nonneg_div; [done|done|]. intros H. apply Qeq_bool_iff in H. congruence.
  - intros a b c. destruct (Qeq_bool b 0); [done|]. by intros [= <-].
Qed.

#[export] Instance ZTime : TimeOps := {|
  OffsetDateTime := Z;
  unix_timestamp := λ nanos, nanos / 1000000000;
  unix_timestamp_nanos := λ nanos, nanos;
  odt_ltb := Z.ltb;
  odt_seconds_between := λ a b, Z.quot (a - b) 1000000000
|}.

Lemma amount_decimal_roundtrip_witness :
  amount_wf (from_atomic 1000001)
  ∧ from_decimal_exact "ShareAmount" (to_decimal (from_atomic 1000001))
    = Ok (from_atomic 1000001).
Proof.
  split; [by vm_compute|].
  apply (@amount_decimal_roundtrip QDecimal QDecimal_laws). by vm_compute.
Defined.
