(* ===== verification/SignalEngine.v ===== *)
(** * Leader-action classification (crates/copy-signal-engine)

    The position snapshot of a leader wallet, the classification of one observed
    trade against it ([classifier.rs]) and the eligibility gate in front of the
    emitted [LeaderSignal]. *)

From S2P Require Import Prelude CoreTypes.
#[local] Open Scope Z_scope.

(** ** [snapshot.rs] *)
Inductive TradeProvenance : Type := RestPoll | ActivityWs.

Record PositionState := {
  long_contracts : ShareAmount;
  short_contracts : ShareAmount
}.
#[export] Instance PositionState_eq_dec : EqDecision PositionState.
Proof. solve_decision. Defined.
Definition PositionState_default : PositionState :=
  {| long_contracts := amount_ZERO; short_contracts := amount_ZERO |}.
#[export] Instance PositionState_inhabited : Inhabited PositionState :=
  populate PositionState_default.
Definition position_wf (st : PositionState) : Prop :=
  amount_wf (long_contracts st) ∧ amount_wf (short_contracts st).

Record PositionSnapshot := {
  snapshot_wallet : WalletAddress;
  positions : gmap MarketOutcomeId PositionState
}.
#[export] Instance PositionSnapshot_eq_dec : EqDecision PositionSnapshot.
Proof. solve_decision. Defined.

(** ** [config.rs] *)
Record SignalConfig := {
  add_high_confidence_threshold_ppm : Z;
  exit_high_confidence_threshold_ppm : Z;
  near_close_remaining_pct : Z
}.
Definition SignalConfig_default : SignalConfig := {|
  add_high_confidence_threshold_ppm := 700000;
  exit_high_confidence_threshold_ppm := 700000;
  near_close_remaining_pct := 10
|}.

(** ** Watchlist types (crates/trader-index, [watchlist.rs]) *)
Inductive WatchlistTier : Type := Active | Incubator.
#[export] Instance WatchlistTier_eq_dec : EqDecision WatchlistTier.
Proof. solve_decision. Defined.

Record WatchlistEntry := {
  entry_wallet : WalletAddress;
  entry_tier : WatchlistTier;
  leader_score_bps : Z;
  lcb_5pct_bps : Z;
  win_rate_bps : Z;
  closed_trades_in_window : Z;
  entry_reconstruction_quality : ReconstructionQuality
}.

Section Classifier.
Context `{DO : DecimalOps} `{TO : TimeOps}.

Record Watchlist := {
  entries : list WatchlistEntry;
  snapshot_at : SourceTimestamp;
  active_count : Z;
  incubator_count : Z
}.

Record IncomingTrade := {
  trade_wallet : WalletAddress;
  trade_market_id : MarketId;
  trade_outcome_id : OutcomeId;
  trade_side : Side;
  trade_price : Price;
  trade_contracts : ShareAmount;
  trade_observed_at : OffsetDateTime;
  trade_received_at : OffsetDateTime;
  trade_source_trade_id : SourceTradeId;
  trade_transaction_hash : option string;
  trade_provenance : TradeProvenance
}.

(** ** [signal.rs] *)
Record LeaderSignal := {
  leader : TraderId;
  signal_venue : VenueId;
  signal_market_id : MarketId;
  signal_outcome_id : OutcomeId;
  signal_action : LeaderAction;
  leader_side : Side;
  leader_price : Price;
  leader_size : ShareAmount;
  signal_observed_at : OffsetDateTime;
  signal_received_at : OffsetDateTime;
  signal_reconstruction_quality : ReconstructionQuality;
  signal_source_trade_id : SourceTradeId;
  action_confidence_ppm : Z
}.

(** ** [classifier.rs] *)

(** Cross-multiplied in [u128]; see [is_near_close_no_overflow]. *)
Definition is_near_close (remaining original : ShareAmount) (config : SignalConfig) : bool :=
  if decide (original = amount_ZERO) then true
  else atomic remaining * 100 <=? atomic original * near_close_remaining_pct config.

Definition classify_leader_action (trade : IncomingTrade) (position : option PositionSnapshot)
    (reconstruction_quality : ReconstructionQuality) (config : SignalConfig) : LeaderAction :=
  let key := {| market := trade_market_id trade; outcome := trade_outcome_id trade |} in
  let state := default PositionState_default (p ← position; positions p !! key) in
  if (quality reconstruction_quality =? 0) && bool_decide (position = None)
  then UnknownAction
  else
    let qty := trade_contracts trade in
    match trade_side trade with
    | Buy =>
        if decide (short_contracts state = amount_ZERO) then
          if decide (long_contracts state = amount_ZERO) then Entry else Add
        else if amount_ltb (short_contracts state) qty then Flip
        else
          let remaining :=
            from_atomic (saturating_sub_u64 (atomic (short_contracts state)) (atomic qty)) in
          if is_near_close remaining (short_contracts state) config then Exit else Trim
    | Sell =>
        if decide (long_contracts state = amount_ZERO) then
          if decide (short_contracts state = amount_ZERO) then Entry else Add
        else if amount_ltb (long_contracts state) qty then Flip
        else
          let remaining :=
            from_atomic (saturating_sub_u64 (atomic (long_contracts state)) (atomic qty)) in
          if is_near_close remaining (long_contracts state) config then Exit else Trim
    end.

Definition is_on_active_watchlist (wallet : WalletAddress) (watchlist : Watchlist) : bool :=
  existsb (λ e, bool_decide (entry_wallet e = wallet) && bool_decide (entry_tier e = Active))
    (entries watchlist).

Definition is_action_eligible (action : LeaderAction) (confidence_ppm : Z)
    (config : SignalConfig) : bool :=
  match action with
  | UnknownAction => false
  | Add => add_high_confidence_threshold_ppm config <=? confidence_ppm
  | Trim | Exit => exit_high_confidence_threshold_ppm config <=? confidence_ppm
  | Entry | Flip => true
  end.

Definition confidence_from_quality (q : ReconstructionQuality) : Z := quality q * 10000.

Definition classify_trade (trade : IncomingTrade) (position : option PositionSnapshot)
    (watchlist : Watchlist) (reconstruction_quality : ReconstructionQuality) (venue : VenueId)
    (config : SignalConfig) : option LeaderSignal :=
  if negb (is_on_active_watchlist (trade_wallet trade) watchlist) then None
  else
    let action := classify_leader_action trade position reconstruction_quality config in
    let confidence := confidence_from_quality reconstruction_quality in
    if negb (is_action_eligible action confidence config) then None
    else Some {|
      leader := {| trader_wallet := trade_wallet trade |};
      signal_venue := venue;
      signal_market_id := trade_market_id trade;
      signal_outcome_id := trade_outcome_id trade;
      signal_action := action;
      leader_side := trade_side trade;
      leader_price := trade_price trade;
      leader_size := trade_contracts trade;
      signal_observed_at := trade_observed_at trade;
      signal_received_at := trade_received_at trade;
      signal_reconstruction_quality := reconstruction_quality;
      signal_source_trade_id := trade_source_trade_id trade;
      action_confidence_ppm := confidence
    |}.

(** ** Properties *)

(** The cross-multiplication of [is_near_close] stays far inside [u128]. *)
Lemma is_near_close_no_overflow (remaining original : ShareAmount) (pct : Z) :
  amount_wf remaining → amount_wf original → is_u8 pct →
  0 ≤ atomic remaining * 100 ≤ U128_MAX ∧ 0 ≤ atomic original * pct ≤ U128_MAX.
Proof.
  unfold amount_wf, is_u64, is_u8, U64_MAX, U8_MAX, U128_MAX. intros. nia.
Qed.

(** The action is [Unknown] exactly when nothing is known about the wallet. *)
Lemma classify_unknown trade position q config :
  classify_leader_action trade position q config = UnknownAction ↔
  quality q = 0 ∧ position = None.
Proof.
  unfold classify_leader_action.
  destruct (quality q =? 0) eqn:Hq; simpl; [destruct (decide (position = None))|].
  - rewrite bool_decide_eq_true_2 by done. split; [|done]. intros _. split; [lia|done].
  - rewrite bool_decide_eq_false_2 by done. split; [|naive_solver].
    intros H. by repeat case_match.
  - split; [|naive_solver lia]. intros H. by repeat case_match.
Qed.

(** An emitted signal comes from an active leader, has a known action, and meets
    the confidence threshold of that action; everything else is suppressed. *)
Lemma classify_trade_Some trade position wl q venue config s :
  classify_trade trade position wl q venue config = Some s →
  (∃ e, e ∈ entries wl ∧ entry_wallet e = trade_wallet trade ∧ entry_tier e = Active)
  ∧ signal_action s = classify_leader_action trade position q config
  ∧ signal_action s ≠ UnknownAction
  ∧ (signal_action s = Add →
       add_high_confidence_threshold_ppm config ≤ action_confidence_ppm s)
  ∧ (signal_action s = Trim ∨ signal_action s = Exit →
       exit_high_confidence_threshold_ppm config ≤ action_confidence_ppm s).
Proof.
  unfold classify_trade. intros H.
  destruct (is_on_active_watchlist _ _) eqn:Hw; [|done]. simpl in H.
  destruct (is_action_eligible _ _ _) eqn:He; [|done]. injection H as <-. simpl.
  split.
  { apply existsb_exists in Hw as (e & Hin & [? ?]%andb_true_iff).
    exists e. rewrite list_elem_of_In. by repeat case_bool_decide. }
  unfold is_action_eligible in He.
  destruct (classify_leader_action _ _ _ _); naive_solver lia.
Qed.

End Classifier.
