(* ===== verification/TraderIndex.v ===== *)
(** * Reconstruction of trader ledgers (crates/trader-index)

    The trades of a wallet are matched first in, first out within each market
    outcome ([reconstruction.rs]); [IncrementalLedger] ([incremental.rs]) keeps the
    same state from batch to batch.  The theorems relate the matching to queues of
    single contracts, and the two implementations to each other, for every order in
    which the hash maps are iterated.  A value of type [option] is [None] where a
    decimal operator panics. *)

From S2P Require Import Prelude CoreTypes SignalEngine.
#[local] Open Scope Z_scope.

(** [HashSet::iter] *)
Definition set_iter `{HashOrder, Countable K} (s : gset K) : list K := (hash_iter (gset_to_gmap tt s)).*1.

(** ** Keys of buckets *)
Record BucketKey := { bk_market_id : MarketId; bk_outcome_id : OutcomeId }.
#[export] Instance BucketKey_eq_dec : EqDecision BucketKey.
Proof. solve_decision. Defined.
#[export] Program Instance BucketKey_countable : Countable BucketKey :=
  inj_countable' (λ k, (bk_market_id k, bk_outcome_id k)) (λ p, {| bk_market_id := p.1; bk_outcome_id := p.2 |}) _.
Next Obligation. by destruct x. Qed.

Section Reconstruction.
Context `{TO : TimeOps} `{DO : DecimalOps}.

(** ** [snapshot.rs], [ledger.rs] *)
Record RawTrade := {
  rt_wallet : WalletAddress;
  rt_market_id : MarketId;
  rt_outcome_id : OutcomeId;
  rt_side : Side;
  rt_price : Price;
  rt_contracts : ContractQty;
  rt_timestamp : SourceTimestamp;
  rt_source_trade_id : SourceTradeId
}.
Record ClosedTrade := {
  ct_market_id : MarketId;
  ct_outcome_id : OutcomeId;
  ct_side : Side;
  ct_entry_price : Price;
  ct_exit_price : Price;
  ct_contracts : ContractQty;
  ct_hold_duration_seconds : Z;
  ct_realized_pnl_usd : Decimal;
  ct_opened_at_unix : Z;
  ct_closed_at_unix : Z;
  ct_source_trade_ids : list SourceTradeId
}.
Record OpenPosition := {
  op_market_id : MarketId;
  op_outcome_id : OutcomeId;
  op_side : Side;
  op_avg_entry_price : Price;
  op_contracts : ContractQty;
  op_source_trade_ids : list SourceTradeId
}.
Record TraderLedger := {
  tl_wallet : WalletAddress;
  tl_reconstruction_quality : ReconstructionQuality;
  tl_closed_trades : list ClosedTrade;
  tl_open_positions : list OpenPosition;
  tl_audit_window_days : Z
}.

(** ** [reconstruction.rs] *)
Record Fill := {
  fill_price : Price;
  fill_contracts : Z;
  fill_timestamp_unix : Z;
  fill_source_trade_id : SourceTradeId
}.
Definition with_contracts (f : Fill) (n : Z) : Fill := {|
  fill_price := fill_price f;
  fill_contracts := n;
  fill_timestamp_unix := fill_timestamp_unix f;
  fill_source_trade_id := fill_source_trade_id f
|}.
Definition trade_second (t : RawTrade) : Z := unix_timestamp (source_timestamp (rt_timestamp t)).
Definition trade_key (t : RawTrade) : BucketKey :=
  {| bk_market_id := rt_market_id t; bk_outcome_id := rt_outcome_id t |}.
Definition trade_fill (t : RawTrade) : Fill := {|
  fill_price := rt_price t;
  fill_contracts := contract_qty (rt_contracts t);
  fill_timestamp_unix := trade_second t;
  fill_source_trade_id := rt_source_trade_id t
|}.
(** The two queues of a bucket: longs opened by buys, shorts opened by sells. *)
Definition Queues : Type := list Fill * list Fill.

Definition is_empty {A} (l : list A) : bool := match l with [] => true | _ :: _ => false end.
Definition saturating_sub_i64 (a b : Z) : Z := Z.max I64_MIN (Z.min I64_MAX (a - b)).

(** One record of the loop: [matched] contracts of [entry] closed by [closing]. *)
Definition closed_lot (closing entry : Fill) (entry_side : Side) (key : BucketKey) (matched : Z) : option ClosedTrade :=
  let (entry_price, exit_price) :=
    match entry_side with
    | Buy => (fill_price entry, fill_price closing)
    | Sell => (fill_price closing, fill_price entry)
    end in
  difference ← dec_checked_sub (price_value exit_price) (price_value entry_price);
  pnl ← dec_checked_mul difference (dec_from matched);
  Some {|
    ct_market_id := bk_market_id key;
    ct_outcome_id := bk_outcome_id key;
    ct_side := entry_side;
    ct_entry_price := entry_price;
    ct_exit_price := exit_price;
    ct_contracts := {| contract_qty := matched |};
    ct_hold_duration_seconds := Z.max (saturating_sub_i64 (fill_timestamp_unix closing) (fill_timestamp_unix entry)) 0;
    ct_realized_pnl_usd := pnl;
    ct_opened_at_unix := fill_timestamp_unix entry;
    ct_closed_at_unix := fill_timestamp_unix closing;
    ct_source_trade_ids := [fill_source_trade_id entry; fill_source_trade_id closing]
  |}.

(** The loop of [match_against_queue].  [entries] are those not consumed yet: the
    index moves past an entry once it has no contracts left; an entry that has some
    has taken all of [closing], and the loop ends at its guard. *)
Fixpoint match_loop (closing : Fill) (entries : list Fill) (entry_side : Side) (key : BucketKey)
    (closed : list ClosedTrade) : option (Fill * list Fill * list ClosedTrade) :=
  match entries with
  | [] => Some (closing, [], closed)
  | entry :: rest =>
      if 0 <? fill_contracts closing then
        let matched := Z.min (fill_contracts closing) (fill_contracts entry) in
        lot ← closed_lot closing entry entry_side key matched;
        let closing' := with_contracts closing (fill_contracts closing - matched) in
        let entry' := with_contracts entry (fill_contracts entry - matched) in
        if fill_contracts entry' =? 0
        then match_loop closing' rest entry_side key (closed ++ [lot])
        else Some (closing', entry' :: rest, closed ++ [lot])
      else Some (closing, entries, closed)
  end.
Definition match_against_queue (closing : Fill) (entries : list Fill) (entry_side : Side) (key : BucketKey)
    (closed : list ClosedTrade) : option (option Fill * list Fill * list ClosedTrade) :=
  '(closing, entries, closed) ← match_loop closing entries entry_side key closed;
  Some (if 0 <? fill_contracts closing then Some closing else None, entries, closed).

Definition push_rest (q : list Fill) (rest : option Fill) : list Fill :=
  match rest with Some rem => q ++ [rem] | None => q end.

Definition quality_score (closed_contracts open_contracts : Z) : Z :=
  let total := saturating_add_u64 closed_contracts open_contracts in
  if total =? 0 then 0 else Z.min (closed_contracts * 100 / total) 100.

Definition sum_contracts (l : list Z) : Z := foldl saturating_add_u64 0 l.

Definition fills_to_open (key : BucketKey) (side : Side) (fills : list Fill) : option (option OpenPosition) :=
  let total_contracts := sum_contracts (fill_contracts <$> fills) in
  if total_contracts =? 0 then Some None
  else
    total_cost ← foldl (λ acc f, acc ← acc; cost ← dec_checked_mul (price_value (fill_price f)) (dec_from (fill_contracts f));
                                 dec_checked_add acc cost) (Some dec_ZERO) fills;
    avg ← dec_checked_div total_cost (dec_from total_contracts);
    let avg_decimal := dec_min (dec_max avg dec_ZERO) dec_ONE in
    let avg_entry_price := match Price_new avg_decimal with Ok p => p | Err _ => Price_ZERO end in
    Some (Some {|
      op_market_id := bk_market_id key;
      op_outcome_id := bk_outcome_id key;
      op_side := side;
      op_avg_entry_price := avg_entry_price;
      op_contracts := {| contract_qty := total_contracts |};
      op_source_trade_ids := fill_source_trade_id <$> fills
    |}).

Definition position_key (o : OpenPosition) : string * Z :=
  (market_to_string (op_market_id o), outcome_index (op_outcome_id o)).

(** The open positions of one bucket, in the order they are pushed. *)
Definition bucket_open (b : BucketKey * Queues) : option (list OpenPosition) :=
  long ← fills_to_open b.1 Buy b.2.1;
  short ← fills_to_open b.1 Sell b.2.2;
  Some (option_list long ++ option_list short).

(** One trade of the reconstruction loop. *)
Definition reconstruct_trade (st : list ClosedTrade * gmap BucketKey Queues) (t : RawTrade) : option (list ClosedTrade * gmap BucketKey Queues) :=
  let (closed, buckets) := st in
  let key := trade_key t in
  let fill := trade_fill t in
  let (buy_q, sell_q) := default ([], []) (buckets !! key) in
  match rt_side t with
  | Buy =>
      match sell_q with
      | [] => Some (closed, <[key := (buy_q ++ [fill], sell_q)]> buckets)
      | _ =>
          '(rest, sell_q, closed) ← match_against_queue fill sell_q Sell key closed;
          Some (closed, <[key := (push_rest buy_q rest, sell_q)]> buckets)
      end
  | Sell =>
      match buy_q with
      | [] => Some (closed, <[key := (buy_q, sell_q ++ [fill])]> buckets)
      | _ =>
          '(rest, buy_q, closed) ← match_against_queue fill buy_q Buy key closed;
          Some (closed, <[key := (buy_q, push_rest sell_q rest)]> buckets)
      end
  end.

(** The ledger of one wallet from what the loop left; [None] inside is the [continue]
    of the source's unreachable branch. *)
Definition finish_ledger `{HashOrder} (wallet : WalletAddress) (audit_window_days : Z) (closed : list ClosedTrade)
    (buckets : gmap BucketKey Queues) : option (option TraderLedger) :=
  open ← mapM bucket_open (hash_iter buckets);
  let open := sort_by_key position_key (concat open) in
  let closed_c := sum_contracts ((λ c, contract_qty (ct_contracts c)) <$> closed) in
  let open_c := sum_contracts ((λ o, contract_qty (op_contracts o)) <$> open) in
  let ledger q := {|
    tl_wallet := wallet;
    tl_reconstruction_quality := q;
    tl_closed_trades := closed;
    tl_open_positions := open;
    tl_audit_window_days := audit_window_days
  |} in
  Some (match ReconstructionQuality_new (quality_score closed_c open_c) with
        | Ok q => Some (ledger q)
        | Err _ => match ReconstructionQuality_new 0 with Ok q => Some (ledger q) | Err _ => None end
        end).

(** [entry(k).or_default().push(v)] *)
Definition entry_push {K V} `{Countable K} (k : K) (v : V) (m : gmap K (list V)) : gmap K (list V) :=
  <[k := default [] (m !! k) ++ [v]]> m.
Definition wallet_selected (wallet_filter : option (gset WalletAddress)) (w : WalletAddress) : bool :=
  match wallet_filter with Some f => bool_decide (w ∈ f) | None => true end.
Definition group_trades (wallet_filter : option (gset WalletAddress)) (trades : list RawTrade) : gmap WalletAddress (list RawTrade) :=
  foldl (λ m t, if wallet_selected wallet_filter (rt_wallet t) then entry_push (rt_wallet t) t m else m) ∅ trades.

Definition fold_option {S A} (f : S → A → option S) (s : S) (l : list A) : option S :=
  foldl (λ s a, s ← s; f s a) (Some s) l.

(** The body of the loop over wallets. *)
Definition reconstruct_wallet `{HashOrder} (audit_window_days : Z) (by_wallet : gmap WalletAddress (list RawTrade))
    (wallet : WalletAddress) : option (option TraderLedger) :=
  trades ← by_wallet !! wallet;
  '(closed, buckets) ← fold_option reconstruct_trade ([], ∅) (sort_by_key trade_second trades);
  finish_ledger wallet audit_window_days closed buckets.
Definition build_trader_ledgers `{HashOrder} (trades : list RawTrade) (audit_window_days : Z)
    (wallet_filter : option (gset WalletAddress)) : option (list TraderLedger) :=
  let by_wallet := group_trades wallet_filter trades in
  let wallets := sort_by_key wallet_bytes (hash_iter by_wallet).*1 in
  omap id <$> mapM (reconstruct_wallet audit_window_days by_wallet) wallets.

(** ** [incremental.rs] *)
Record WalletState := { ws_closed_trades : list ClosedTrade; ws_buckets : gmap BucketKey Queues }.
Definition WalletState_new : WalletState := {| ws_closed_trades := []; ws_buckets := ∅ |}.

Definition wallet_apply (s : WalletState) (t : RawTrade) : option WalletState :=
  let key := trade_key t in
  let fill := trade_fill t in
  let queues := default ([], []) (ws_buckets s !! key) in
  let update closed queues := {| ws_closed_trades := closed; ws_buckets := <[key := queues]> (ws_buckets s) |} in
  match rt_side t with
  | Buy =>
      if is_empty queues.2 then Some (update (ws_closed_trades s) (queues.1 ++ [fill], queues.2))
      else '(rest, sell_q, closed) ← match_against_queue fill queues.2 Sell key (ws_closed_trades s);
           Some (update closed (push_rest queues.1 rest, sell_q))
  | Sell =>
      if is_empty queues.1 then Some (update (ws_closed_trades s) (queues.1, queues.2 ++ [fill]))
      else '(rest, buy_q, closed) ← match_against_queue fill queues.1 Buy key (ws_closed_trades s);
           Some (update closed (buy_q, push_rest queues.2 rest))
  end.
Definition to_ledger `{HashOrder} (s : WalletState) (wallet : WalletAddress) (audit_window_days : Z) : option (option TraderLedger) :=
  finish_ledger wallet audit_window_days (ws_closed_trades s) (ws_buckets s).

Record IncrementalLedger := { il_states : gmap WalletAddress WalletState }.
Definition IncrementalLedger_new : IncrementalLedger := {| il_states := ∅ |}.
Definition apply_one (l : IncrementalLedger) (t : RawTrade) : option IncrementalLedger :=
  s ← wallet_apply (default WalletState_new (il_states l !! rt_wallet t)) t;
  Some {| il_states := <[rt_wallet t := s]> (il_states l) |}.
Definition apply_batch (l : IncrementalLedger) (trades : list RawTrade) : option IncrementalLedger :=
  fold_option apply_one l trades.
Definition build_ledgers `{HashOrder} (l : IncrementalLedger) (pool : option (gset WalletAddress)) (audit_window_days : Z) :
    option (list TraderLedger) :=
  ledgers ←
    match pool with
    | Some p => mapM (λ w, match il_states l !! w with
                           | Some s => to_ledger s w audit_window_days
                           | None => Some None
                           end) (set_iter p)
    | None => mapM (λ '(w, s), to_ledger s w audit_window_days) (hash_iter (il_states l))
    end;
  Some (sort_by_key (λ x, wallet_bytes (tl_wallet x)) (omap id ledgers)).
End Reconstruction.

(** ** Collecting results

    [mapM] over a list is all results or a panic; which of them, and the results, do
    not depend on the order. *)
Section Collect.
Context {A B : Type} (f : A → option B).

Lemma fold_option_cons {S} (g : S → A → option S) s a l :
  fold_option g s (a :: l) = s' ← g s a; fold_option g s' l.
Proof.
  unfold fold_option. simpl. destruct (g s a) as [s'|]; [done|]. simpl.
  induction l as [|b l IH]; simpl; [done|]. by apply IH.
Qed.
Lemma fold_option_app {S} (g : S → A → option S) s l1 l2 :
  fold_option g s (l1 ++ l2) = s' ← fold_option g s l1; fold_option g s' l2.
Proof.
  revert s. induction l1 as [|a l1 IH]; intros s; [done|]. rewrite <- app_comm_cons, !fold_option_cons.
  destruct (g s a); simpl; [apply IH|done].
Qed.

Lemma mapM_default (d : B) l r : mapM f l = Some r → r = (λ x, default d (f x)) <$> l.
Proof.
  intros H%mapM_Some. induction H as [|x y l r Hx _ IH]; csimpl; [done|]. by rewrite Hx, IH.
Qed.
Lemma mapM_perm_None l1 l2 : l1 ≡ₚ l2 → mapM f l1 = None → mapM f l2 = None.
Proof.
  intros Hp H. destruct (mapM f l2) as [r|] eqn:E; [|done].
  assert (is_Some (mapM f l1)) as [? ?]; [|congruence]. apply mapM_is_Some_2. rewrite Hp.
  apply mapM_is_Some_1. by exists r.
Qed.
End Collect.

Lemma filter_all {A} (P : A → Prop) `{!∀ x, Decision (P x)} (l : list A) : (∀ x, x ∈ l → P x) → filter P l = l.
Proof.
  induction l as [|a l IH]; intros Hl; [done|]. rewrite filter_cons, decide_True by (apply Hl; left).
  f_equal. apply IH. intros x Hx. apply Hl. by right.
Qed.

Section Sorted.
Context {A K : Type} `{Ord K, EqDecision K} (key : A → K).
Lemma sorted_filter_key (P : A → Prop) `{!∀ x, Decision (P x)} (R : A → A → Prop) l :
  StronglySorted R l → StronglySorted R (filter P l).
Proof.
  induction 1 as [|a l _ IH Ha]; [constructor|]. rewrite filter_cons.
  destruct (decide (P a)); [|done]. constructor; [done|]. rewrite Forall_forall in *. intros x [_ Hx]%list_elem_of_filter. by apply Ha.
Qed.
End Sorted.

Section OneOrder.
Context `{TO : TimeOps} `{DO : DecimalOps}.

(** The ledgers collected from the wallets in any order and then sorted are the
    ledgers collected in the order of the wallets. *)
Lemma omap_key_filter (L : WalletAddress → option TraderLedger) k (l : list WalletAddress) :
  (∀ w o, L w = Some o → tl_wallet o = w) →
  filter (λ o, wallet_bytes (tl_wallet o) = k) (omap L l) = omap L (filter (λ w, wallet_bytes w = k) l).
Proof.
  intros HL. induction l as [|w l IH]; [done|]. csimpl. rewrite filter_cons.
  destruct (L w) as [o|] eqn:E.
  - rewrite filter_cons, (HL _ _ E). destruct (decide (wallet_bytes w = k)); csimpl; [by rewrite E, IH|done].
  - destruct (decide (wallet_bytes w = k)); csimpl; [by rewrite E|done].
Qed.
Lemma omap_sorted (L : WalletAddress → option TraderLedger) (l : list WalletAddress) :
  (∀ w o, L w = Some o → tl_wallet o = w) →
  StronglySorted (λ a b, key_leb wallet_bytes a b = true) l →
  StronglySorted (λ a b, key_leb (λ o, wallet_bytes (tl_wallet o)) a b = true) (omap L l).
Proof.
  intros HL. induction 1 as [|w l _ IH Hw]; csimpl; [constructor|]. destruct (L w) as [o|] eqn:E; [|done].
  constructor; [done|]. rewrite Forall_forall in Hw. apply Forall_forall. intros o' (w' & Hin & E')%list_elem_of_omap.
  unfold key_leb. rewrite (HL _ _ E), (HL _ _ E'). by apply Hw.
Qed.

Lemma mapM_omap (L : WalletAddress → option (option TraderLedger)) l r :
  mapM L l = Some r → omap id r = omap (λ w, mjoin (L w)) l.
Proof.
  intros H%mapM_Some. induction H as [|w o l r Hw _ IH]; [done|]. csimpl. rewrite Hw. simpl.
  destruct o; simpl; by rewrite IH.
Qed.
Lemma wallet_bytes_inj (a b : WalletAddress) : wallet_bytes a = wallet_bytes b → a = b.
Proof. destruct a, b. simpl. by intros ->. Qed.
#[local] Instance wallet_bytes_Inj : Inj (=) (=) wallet_bytes := wallet_bytes_inj.

Lemma collect_sorted (L : WalletAddress → option (option TraderLedger)) l1 l2 :
  l1 ≡ₚ l2 → NoDup l1 → (∀ w o, L w = Some (Some o) → tl_wallet o = w) →
  (λ r, sort_by_key (λ o, wallet_bytes (tl_wallet o)) (omap id r)) <$> mapM L l1
  = omap id <$> mapM L (sort_by_key wallet_bytes l2).
Proof.
  intros Hp Hn HL. assert (l1 ≡ₚ sort_by_key wallet_bytes l2) as Hs by (by rewrite Hp; unfold sort_by_key; rewrite sort_by_perm).
  assert (∀ w o, mjoin (L w) = Some o → tl_wallet o = w) as HL'.
  { intros w o Hw. apply HL. by destruct (L w) as [[]|]; simplify_eq/=. }
  destruct (mapM L l1) as [r1|] eqn:E1, (mapM L (sort_by_key wallet_bytes l2)) as [r2|] eqn:E2; simpl.
  - f_equal. rewrite (mapM_omap _ _ _ E1), (mapM_omap _ _ _ E2).
    apply (sorted_by_key_unique (λ o, wallet_bytes (tl_wallet o))).
    + apply sort_by_key_sorted.
    + apply omap_sorted; [done|]. apply sort_by_key_sorted.
    + intros k. rewrite filter_sort_by_key, !omap_key_filter by done. f_equal.
      apply filter_key_perm; [done|]. by apply NoDup_fmap_2; [apply _|].
  - symmetry in Hs. apply (mapM_perm_None _ _ _ Hs) in E2. congruence.
  - apply (mapM_perm_None _ _ _ Hs) in E1. congruence.
  - done.
Qed.

Lemma collect_filter (P : WalletAddress → Prop) `{!∀ w, Decision (P w)} (L : WalletAddress → option (option TraderLedger)) l :
  (∀ w, ¬ P w → L w = Some None) → omap id <$> mapM L l = omap id <$> mapM L (filter P l).
Proof.
  intros HP. induction l as [|w l IH]; [done|]. rewrite filter_cons. destruct (decide (P w)).
  - simpl. destruct (L w) as [o|]; [|done]. simpl. destruct (mapM L l), (mapM L (filter P l)); simplify_eq/=; [|done].
    destruct o; simpl; congruence.
  - simpl. rewrite (HP w) by done. simpl. rewrite <- IH. by destruct (mapM L l).
Qed.

(** Open positions carry the key of their bucket, so sorting them undoes the order in
    which the map is iterated. *)
Definition bucket_key (b : BucketKey * Queues) : string * Z :=
  (market_to_string (bk_market_id b.1), outcome_index (bk_outcome_id b.1)).
Lemma fills_to_open_key key side fills o : fills_to_open key side fills = Some (Some o) →
  op_market_id o = bk_market_id key ∧ op_outcome_id o = bk_outcome_id key.
Proof.
  unfold fills_to_open. destruct (_ =? 0); [done|]. intros (? & _ & (? & _ & Ho)%bind_Some)%bind_Some.
  by simplify_eq/=.
Qed.
Lemma bucket_open_key b l o : bucket_open b = Some l → o ∈ l → position_key o = bucket_key b.
Proof.
  unfold bucket_open. intros (long & Hl & (short & Hs & [= <-])%bind_Some)%bind_Some Ho.
  unfold position_key, bucket_key. apply elem_of_app in Ho as [Ho|Ho].
  - destruct long as [x|]; [|by apply elem_of_nil in Ho]. apply list_elem_of_singleton in Ho as ->.
    by apply fills_to_open_key in Hl as [-> ->].
  - destruct short as [x|]; [|by apply elem_of_nil in Ho]. apply list_elem_of_singleton in Ho as ->.
    by apply fills_to_open_key in Hs as [-> ->].
Qed.
Lemma bucket_key_inj (l : list (BucketKey * Queues)) : NoDup l.*1 → NoDup (bucket_key <$> l).
Proof.
  intros H. set (g := λ k, (market_to_string (bk_market_id k), outcome_index (bk_outcome_id k))).
  assert (bucket_key <$> l = g <$> l.*1) as -> by by rewrite <- list_fmap_compose.
  apply NoDup_fmap_2_strong; [|done]. intros [[[m1]] [o1]] [[[m2]] [o2]] _ _. unfold g, market_to_string. simpl.
  by intros [= -> ->].
Qed.
Lemma concat_filter_key k l r : mapM bucket_open l = Some r →
  filter (λ o, position_key o = k) (concat r) = concat (default [] ∘ bucket_open <$> filter (λ b, bucket_key b = k) l).
Proof.
  intros H%mapM_Some. induction H as [|b os l r Hb _ IH]; [done|]. csimpl.
  rewrite filter_app, IH, filter_cons. destruct (decide (bucket_key b = k)) as [Hk|Hk].
  - csimpl. unfold compose at 1. rewrite Hb. simpl. f_equal.
    apply filter_all. intros o Ho. by rewrite (bucket_open_key _ _ _ Hb Ho).
  - assert (filter (λ o, position_key o = k) os = []) as ->; [|done].
    apply elem_of_nil_inv. intros o [Ho Hin]%list_elem_of_filter. by rewrite (bucket_open_key _ _ _ Hb Hin) in Ho.
Qed.
Lemma finish_ledger_order (H1 H2 : HashOrder) wallet days closed buckets :
  @finish_ledger _ H1 wallet days closed buckets = @finish_ledger _ H2 wallet days closed buckets.
Proof.
  assert (@hash_iter H1 _ _ _ _ buckets ≡ₚ @hash_iter H2 _ _ _ _ buckets) as Hp
    by by rewrite !hash_iter_perm.
  unfold finish_ledger. destruct (mapM _ _) as [r1|] eqn:E1, (mapM bucket_open (@hash_iter H2 _ _ _ _ buckets)) as [r2|] eqn:E2.
  - simpl. assert (sort_by_key position_key (concat r1) = sort_by_key position_key (concat r2)) as ->; [|done].
    apply sort_by_key_eq. intros k. rewrite (concat_filter_key _ _ _ E1), (concat_filter_key _ _ _ E2). do 2 f_equal.
    apply filter_key_perm; [done|]. apply bucket_key_inj, hash_iter_NoDup.
  - symmetry in Hp. apply (mapM_perm_None _ _ _ Hp) in E2. congruence.
  - apply (mapM_perm_None _ _ _ Hp) in E1. congruence.
  - done.
Qed.
Lemma finish_ledger_wallet `{HashOrder} wallet days closed buckets o :
  finish_ledger wallet days closed buckets = Some (Some o) → tl_wallet o = wallet ∧ tl_closed_trades o = closed.
Proof.
  unfold finish_ledger. intros (open & _ & Ho)%bind_Some. simplify_eq. by repeat case_match; simplify_eq/=.
Qed.
Lemma finish_ledger_Some `{HashOrder} wallet days closed buckets o :
  finish_ledger wallet days closed buckets = Some o → is_Some o.
Proof.
  unfold finish_ledger. intros (open & _ & Ho)%bind_Some. simplify_eq. by repeat case_match; simplify_eq/=.
Qed.

(** ** The batch and the incremental state *)
Definition wallet_state (st : list ClosedTrade * gmap BucketKey Queues) : WalletState :=
  {| ws_closed_trades := st.1; ws_buckets := st.2 |}.
Lemma wallet_apply_reconstruct st t : wallet_apply (wallet_state st) t = wallet_state <$> reconstruct_trade st t.
Proof.
  destruct st as [closed buckets]. unfold wallet_apply, reconstruct_trade. simpl.
  destruct (default ([], []) (buckets !! trade_key t)) as [buy_q sell_q]. simpl.
  destruct (rt_side t); [destruct sell_q|destruct buy_q]; simpl; try done;
    by destruct (match_against_queue _ _ _ _ _) as [[[]]|].
Qed.
Lemma wallet_run_reconstruct st l :
  fold_option wallet_apply (wallet_state st) l = wallet_state <$> fold_option reconstruct_trade st l.
Proof.
  revert st. induction l as [|t l IH]; intros st; [done|]. rewrite !fold_option_cons, wallet_apply_reconstruct.
  destruct (reconstruct_trade st t); simpl; [apply IH|done].
Qed.

Definition of_wallet (w : WalletAddress) (trades : list RawTrade) : list RawTrade := filter (λ t, rt_wallet t = w) trades.
Lemma of_wallet_cons w t trades :
  of_wallet w (t :: trades) = if decide (rt_wallet t = w) then t :: of_wallet w trades else of_wallet w trades.
Proof. unfold of_wallet. by rewrite filter_cons. Qed.

Lemma apply_batch_lookup l trades l' w : apply_batch l trades = Some l' →
  fold_option wallet_apply (default WalletState_new (il_states l !! w)) (of_wallet w trades)
    = Some (default WalletState_new (il_states l' !! w))
  ∧ (is_Some (il_states l' !! w) ↔ is_Some (il_states l !! w) ∨ of_wallet w trades ≠ []).
Proof.
  revert l. induction trades as [|t trades IH]; intros l; unfold apply_batch.
  - intros [= <-]. split; [done|]. split; [by left|]. by intros [?|?].
  - rewrite fold_option_cons. intros (l1 & Ht & Hl)%bind_Some. apply IH in Hl as [Hf Hs].
    unfold apply_one in Ht. apply bind_Some in Ht as (s & Ht & [= <-]). simpl in *. rewrite of_wallet_cons.
    destruct (decide (rt_wallet t = w)) as [<-|Hne].
    + rewrite lookup_insert_eq in Hf, Hs. simpl in Hf. rewrite fold_option_cons, Ht. split; [done|].
      rewrite Hs. split; [by right|]. intros _. by left.
    + by rewrite lookup_insert_ne in Hf, Hs by done.
Qed.
Lemma apply_batch_panics l trades : apply_batch l trades = None →
  ∃ w, fold_option wallet_apply (default WalletState_new (il_states l !! w)) (of_wallet w trades) = None.
Proof.
  revert l. induction trades as [|t trades IH]; intros l; unfold apply_batch; [done|].
  rewrite fold_option_cons. destruct (apply_one l t) as [l1|] eqn:Ht; simpl; intros Hl.
  - apply IH in Hl as [w Hw]. exists w. rewrite of_wallet_cons.
    unfold apply_one in Ht. apply bind_Some in Ht as (s & Ht & [= <-]). simpl in Hw.
    destruct (decide (rt_wallet t = w)) as [<-|Hne]; [|by rewrite lookup_insert_ne in Hw].
    rewrite lookup_insert_eq in Hw. by rewrite fold_option_cons, Ht.
  - exists (rt_wallet t). rewrite of_wallet_cons, decide_True, fold_option_cons by done.
    unfold apply_one in Ht. by destruct (wallet_apply _ t).
Qed.

Lemma group_trades_lookup wallet_filter trades w :
  group_trades wallet_filter trades !! w =
    if wallet_selected wallet_filter w && negb (is_empty (of_wallet w trades)) then Some (of_wallet w trades) else None.
Proof.
  unfold group_trades. induction trades as [|t trades IH] using rev_ind; [by rewrite andb_false_r|].
  rewrite foldl_app. simpl. unfold of_wallet in *. rewrite filter_app. set (m := foldl _ _ _) in *.
  assert (filter (λ t, rt_wallet t = w) [t] = if decide (rt_wallet t = w) then [t] else []) as -> by by rewrite filter_cons.
  destruct (decide (rt_wallet t = w)) as [<-|Hne].
  - destruct (wallet_selected wallet_filter (rt_wallet t)) eqn:Hw; simpl in *; [|done].
    unfold entry_push. rewrite lookup_insert_eq, IH. destruct (filter _ trades); simpl; done.
  - rewrite app_nil_r, <- IH. destruct (wallet_selected wallet_filter (rt_wallet t)); [|done].
    by apply lookup_insert_ne.
Qed.

Lemma mapM_ext_elem {A B} (f g : A → option B) (l : list A) : (∀ x, x ∈ l → f x = g x) → mapM f l = mapM g l.
Proof.
  induction l as [|a l IH]; intros Hl; [done|]. simpl. rewrite (Hl a) by left.
  destruct (g a); [|done]. simpl. rewrite IH; [done|]. intros x Hx. apply Hl. by right.
Qed.
Lemma set_iter_perm `{HashOrder, Countable K} (s : gset K) : set_iter s ≡ₚ elements s.
Proof.
  apply NoDup_Permutation; [apply hash_iter_NoDup|apply NoDup_elements|]. intros x. unfold set_iter.
  rewrite elem_of_elements, list_elem_of_fmap. split.
  - intros ([y []] & -> & Hy%hash_iter_elem). by apply lookup_gset_to_gmap_Some in Hy as [? _].
  - intros Hx. exists (x, tt). split; [done|]. apply hash_iter_elem. by apply lookup_gset_to_gmap_Some.
Qed.

(** The ledger of a wallet from its trades in the order given. *)
Definition ledger_of `{HashOrder} (days : Z) (trades : list RawTrade) (w : WalletAddress) : option (option TraderLedger) :=
  '(closed, buckets) ← fold_option reconstruct_trade ([], ∅) (of_wallet w trades);
  finish_ledger w days closed buckets.
Lemma ledger_of_order (H1 H2 : HashOrder) days trades w :
  ledger_of (H := H1) days trades w = ledger_of (H := H2) days trades w.
Proof.
  unfold ledger_of. destruct (fold_option _ _ _) as [[]|]; [|done]. simpl. apply finish_ledger_order.
Qed.
Lemma ledger_of_wallet `{HashOrder} days trades w o : ledger_of days trades w = Some (Some o) → tl_wallet o = w.
Proof. unfold ledger_of. intros ([] & _ & Ho)%bind_Some. by apply finish_ledger_wallet in Ho as [? _]. Qed.

Definition by_second (trades : list RawTrade) : Prop := StronglySorted (λ a b, trade_second a ≤ trade_second b) trades.
Lemma sort_by_second trades w : by_second trades → sort_by_key trade_second (of_wallet w trades) = of_wallet w trades.
Proof.
  intros Hs. apply sort_by_key_id, sorted_filter_key. revert Hs. unfold by_second.
  induction 1 as [|t l _ IH Ht]; constructor; [done|]. eapply Forall_impl; [exact Ht|]. simpl. intros t' Hle.
  unfold key_leb, leb_of. simpl. destruct (Z.compare_spec (trade_second t) (trade_second t')); [done..|lia].
Qed.
Lemma build_trader_ledgers_sorted `{HashOrder} trades days wallet_filter : by_second trades →
  build_trader_ledgers trades days wallet_filter
  = omap id <$> mapM (ledger_of days trades) (sort_by_key wallet_bytes (hash_iter (group_trades wallet_filter trades)).*1).
Proof.
  intros Hs. unfold build_trader_ledgers. f_equal. apply mapM_ext_elem. intros w Hw.
  unfold sort_by_key in Hw. rewrite sort_by_perm in Hw. apply list_elem_of_fmap in Hw as ([w' ts] & -> & Hw%hash_iter_elem).
  unfold reconstruct_wallet, ledger_of. simpl. rewrite Hw. simpl. rewrite group_trades_lookup in Hw.
  destruct (_ && _); simplify_eq. by rewrite sort_by_second.
Qed.

(** After a run of batches, the states are those of the wallets that traded. *)
Lemma apply_batches l batches : fold_option apply_batch l batches = apply_batch l (concat batches).
Proof.
  revert l. induction batches as [|b batches IH]; intros l; [done|]. rewrite fold_option_cons. simpl.
  trans (l' ← apply_batch l b; apply_batch l' (concat batches)); [|symmetry; apply fold_option_app].
  destruct (apply_batch l b); [apply IH|done].
Qed.
Lemma incremental_state `{HashOrder} trades l w days : apply_batch IncrementalLedger_new trades = Some l →
  match il_states l !! w with
  | Some s => to_ledger s w days = ledger_of days trades w ∧ of_wallet w trades ≠ []
  | None => of_wallet w trades = []
  end.
Proof.
  intros [Hf Hs]%(apply_batch_lookup _ _ _ w). simpl in *. rewrite lookup_empty in Hf, Hs. simpl in Hf.
  change WalletState_new with (wallet_state ([], ∅)) in Hf at 1. rewrite wallet_run_reconstruct in Hf.
  destruct (il_states l !! w) as [s|].
  - assert (of_wallet w trades ≠ []) as Hw by by destruct Hs as [[[? [=]]|?] _].
    split; [|done]. unfold ledger_of, to_ledger. apply fmap_Some in Hf as ([c b] & -> & Hf). simpl in Hf. by subst s.
  - destruct (of_wallet w trades); [done|]. destruct Hs as [_ Hs]. by destruct Hs as [? ?]; [right|].
Qed.
Lemma group_keys `{HashOrder} wallet_filter trades w :
  w ∈ (hash_iter (group_trades wallet_filter trades)).*1 ↔ wallet_selected wallet_filter w = true ∧ of_wallet w trades ≠ [].
Proof.
  rewrite list_elem_of_fmap. split.
  - intros ([w' ts] & -> & Hw%hash_iter_elem). rewrite group_trades_lookup in Hw. simpl.
    destruct (wallet_selected _ _); [|done]. by destruct (of_wallet w' trades).
  - intros [Hw Hn]. exists (w, of_wallet w trades). split; [done|]. apply hash_iter_elem.
    rewrite group_trades_lookup, Hw. by destruct (of_wallet w trades).
Qed.


Lemma mapM_elem_None {A B} (f : A → option B) (l : list A) x : x ∈ l → f x = None → mapM f l = None.
Proof.
  intros Hx Hf. destruct (mapM f l) as [r|] eqn:E; [|done]. exfalso.
  assert (is_Some (f x)) as [? ?]; [|congruence]. assert (is_Some (mapM f l)) as Hs by by exists r.
  apply mapM_is_Some_1 in Hs. rewrite Forall_forall in Hs. by apply Hs.
Qed.
Lemma mapM_pairs {A V B} (f : A * V → option B) (g : A → option B) (l : list (A * V)) :
  (∀ p, p ∈ l → f p = g p.1) → mapM f l = mapM g l.*1.
Proof.
  intros Hl. induction l as [|p l IH]; [done|]. simpl. rewrite (Hl p) by left.
  destruct (g p.1); [|done]. simpl. rewrite IH; [done|]. intros q Hq. apply Hl. by right.
Qed.

(** The wallets the incremental ledger reports on, and those the batch groups. *)
Definition traded (trades : list RawTrade) (w : WalletAddress) : Prop := is_empty (of_wallet w trades) = false.
#[local] Instance traded_dec trades w : Decision (traded trades w) := decide (is_empty (of_wallet w trades) = false).
Lemma traded_ne trades w : traded trades w ↔ of_wallet w trades ≠ [].
Proof. unfold traded. by destruct (of_wallet w trades). Qed.
Lemma pool_perm (H1 H2 : HashOrder) p trades :
  filter (traded trades) (set_iter (H := H1) p) ≡ₚ (hash_iter (HashOrder := H2) (group_trades (Some p) trades)).*1.
Proof.
  apply NoDup_Permutation; [apply NoDup_filter|apply hash_iter_NoDup|].
  { rewrite set_iter_perm. apply NoDup_elements. }
  intros w. rewrite list_elem_of_filter, group_keys, set_iter_perm, elem_of_elements, traded_ne. simpl.
  rewrite bool_decide_eq_true. tauto.
Qed.
Lemma states_perm (H1 H2 : HashOrder) trades l : apply_batch IncrementalLedger_new trades = Some l →
  (hash_iter (HashOrder := H1) (il_states l)).*1 ≡ₚ (hash_iter (HashOrder := H2) (group_trades None trades)).*1.
Proof.
  intros E. apply NoDup_Permutation; [apply hash_iter_NoDup..|]. intros w. rewrite group_keys, list_elem_of_fmap.
  apply (incremental_state (H := H1) _ _ w 0) in E. split.
  - intros ([w' s] & -> & Hw%hash_iter_elem). simpl in *. rewrite Hw in E. by destruct E.
  - intros [_ Hw]. destruct (il_states l !! w) as [s|] eqn:Hs; [|done]. exists (w, s). split; [done|].
    by apply hash_iter_elem.
Qed.

(** C21: The incremental ledger is the batch reconstruction.  Feeding trades in batches, in the order
    of their seconds, and reading the ledgers of a pool of wallets, or of all of them, gives exactly
    what one reconstruction of all the trades gives: the same wallets, closed trades, open positions
    and qualities in the same order, however the hash maps of either run are iterated.  When a
    batch panics on a decimal, so does the reconstruction of all wallets. *)
Theorem incremental_matches_reconstruction (H1 H2 : HashOrder) (batches : list (list RawTrade)) pool days :
  by_second (concat batches) →
  match fold_option apply_batch IncrementalLedger_new batches with
  | Some l => build_ledgers (H := H1) l pool days = build_trader_ledgers (H := H2) (concat batches) days pool
  | None => build_trader_ledgers (H := H2) (concat batches) days None = None
  end.
Proof.
  intros Hs. rewrite apply_batches, !build_trader_ledgers_sorted by done. set (trades := concat batches) in *.
  destruct (apply_batch IncrementalLedger_new trades) as [l|] eqn:E.
  - rewrite (mapM_ext_elem (ledger_of (H := H2) days trades) (ledger_of (H := H1) days trades)) by (intros; apply ledger_of_order).
    pose proof (λ w, incremental_state (H := H1) _ _ w days E) as Hst. destruct pool as [p|].
    + rewrite <- (collect_sorted _ _ _ (pool_perm H1 H2 p trades)); [|apply NoDup_filter; rewrite set_iter_perm; apply NoDup_elements|apply ledger_of_wallet].
      unfold build_ledgers.
      set (L := λ w, match il_states l !! w with Some s => to_ledger (H := H1) s w days | None => Some None end).
      trans (sort_by_key (λ o, wallet_bytes (tl_wallet o)) <$> (omap id <$> mapM L (set_iter (H := H1) p)));
        [by destruct (mapM L (set_iter (H := H1) p))|].
      rewrite (collect_filter (traded trades)).
      * rewrite (mapM_ext_elem L (ledger_of (H := H1) days trades)); [by destruct (mapM _ _)|].
        intros w [Hw%traded_ne _]%list_elem_of_filter. unfold L. specialize (Hst w). destruct (il_states l !! w); [apply Hst|done].
      * intros w Hw. unfold L. specialize (Hst w). destruct (il_states l !! w); [|done]. exfalso. apply Hw, traded_ne, Hst.
    + rewrite <- (collect_sorted _ _ _ (states_perm H1 H2 _ _ E)); [|apply hash_iter_NoDup|apply ledger_of_wallet].
      unfold build_ledgers. rewrite (mapM_pairs _ (ledger_of (H := H1) days trades)); [by destruct (mapM _ _)|].
      intros [w s] Hw%hash_iter_elem. specialize (Hst w). rewrite Hw in Hst. apply Hst.
  - apply apply_batch_panics in E as [w Hw]. simpl in Hw. rewrite lookup_empty in Hw.
    change (default WalletState_new None) with (wallet_state ([], ∅)) in Hw. rewrite wallet_run_reconstruct in Hw.
    rewrite (mapM_elem_None _ _ w); [done| |].
    + unfold sort_by_key. rewrite sort_by_perm, group_keys. split; [done|]. intros Hn. by rewrite Hn in Hw.
    + unfold ledger_of. by apply fmap_None in Hw as ->.
Qed.
End OneOrder.

(** ** Matching as queues of single contracts

    The specification of the matching: every contract of a trade closes the oldest
    open contract of the other side, or opens one of its own. *)
Section Fifo.
Context `{TO : TimeOps} `{DO : DecimalOps}.
Record Lot := { lot_price : Price; lot_second : Z; lot_id : SourceTradeId }.
Definition Fifo : Type := list Lot * list Lot * list (Side * Lot * Lot).
Definition fifo_step (side : Side) (st : Fifo) (x : Lot) : Fifo :=
  let '(longs, shorts, closed) := st in
  match side with
  | Buy => match shorts with
           | [] => (longs ++ [x], [], closed)
           | e :: shorts => (longs, shorts, closed ++ [(Sell, e, x)])
           end
  | Sell => match longs with
            | [] => ([], shorts ++ [x], closed)
            | e :: longs => (longs, shorts, closed ++ [(Buy, e, x)])
            end
  end.
Definition fill_lot (f : Fill) : Lot :=
  {| lot_price := fill_price f; lot_second := fill_timestamp_unix f; lot_id := fill_source_trade_id f |}.
Definition lots (f : Fill) : list Lot := replicate (Z.to_nat (fill_contracts f)) (fill_lot f).
Definition queue_lots (q : list Fill) : list Lot := concat (lots <$> q).
Definition fifo_trade (st : Fifo) (t : RawTrade) : Fifo := foldl (fifo_step (rt_side t)) st (lots (trade_fill t)).
Definition of_key (key : BucketKey) (trades : list RawTrade) : list RawTrade := filter (λ t, trade_key t = key) trades.
Definition fifo_run (key : BucketKey) (trades : list RawTrade) : Fifo := foldl fifo_trade ([], [], []) (of_key key trades).

(** What a closed trade says of its contracts.  A short was opened at the price the
    record calls its exit and closed at the one it calls its entry. *)
Definition closed_lots (c : ClosedTrade) : list (Side * Lot * Lot) :=
  match ct_source_trade_ids c with
  | [opened; closed] =>
      let (open_price, close_price) :=
        match ct_side c with
        | Buy => (ct_entry_price c, ct_exit_price c)
        | Sell => (ct_exit_price c, ct_entry_price c)
        end in
      replicate (Z.to_nat (contract_qty (ct_contracts c)))
        (ct_side c, {| lot_price := open_price; lot_second := ct_opened_at_unix c; lot_id := opened |},
         {| lot_price := close_price; lot_second := ct_closed_at_unix c; lot_id := closed |})
  | _ => []
  end.
Definition closed_key (c : ClosedTrade) : BucketKey := {| bk_market_id := ct_market_id c; bk_outcome_id := ct_outcome_id c |}.
Definition all_closed_lots (l : list ClosedTrade) : list (Side * Lot * Lot) := concat (closed_lots <$> l).
Lemma all_closed_lots_app l1 l2 : all_closed_lots (l1 ++ l2) = all_closed_lots l1 ++ all_closed_lots l2.
Proof. unfold all_closed_lots. by rewrite fmap_app, concat_app. Qed.
Lemma all_closed_lots_cons c l : all_closed_lots (c :: l) = closed_lots c ++ all_closed_lots l.
Proof. done. Qed.
Lemma queue_lots_app l1 l2 : queue_lots (l1 ++ l2) = queue_lots l1 ++ queue_lots l2.
Proof. unfold queue_lots. by rewrite fmap_app, concat_app. Qed.

(** A run of contracts of one trade through the specification. *)
Lemma fifo_buys n x longs shorts closed :
  foldl (fifo_step Buy) (longs, shorts, closed) (replicate n x)
  = (longs ++ replicate (n - length shorts) x, drop n shorts, closed ++ ((λ e, (Sell, e, x)) <$> take n shorts)).
Proof.
  revert longs shorts closed. induction n as [|n IH]; intros longs shorts closed; simpl.
  { by rewrite !app_nil_r. }
  destruct shorts as [|e shorts]; simpl; rewrite IH; simpl.
  - by rewrite Nat.sub_0_r, take_nil, drop_nil, <- app_assoc.
  - by rewrite <- app_assoc.
Qed.
Lemma fifo_sells n x longs shorts closed :
  foldl (fifo_step Sell) (longs, shorts, closed) (replicate n x)
  = (drop n longs, shorts ++ replicate (n - length longs) x, closed ++ ((λ e, (Buy, e, x)) <$> take n longs)).
Proof.
  revert longs shorts closed. induction n as [|n IH]; intros longs shorts closed; simpl.
  { by rewrite !app_nil_r. }
  destruct longs as [|e longs]; simpl; rewrite IH; simpl.
  - by rewrite Nat.sub_0_r, take_nil, drop_nil, <- app_assoc.
  - by rewrite <- app_assoc.
Qed.

(** The lots a loop closes are the oldest ones of the queue. *)
Lemma closed_lot_lots closing entry side key matched c : closed_lot closing entry side key matched = Some c →
  closed_lots c = replicate (Z.to_nat matched) (side, fill_lot entry, fill_lot closing) ∧ closed_key c = key
  ∧ contract_qty (ct_contracts c) = matched.
Proof.
  unfold closed_lot. destruct side; simpl; intros (d & _ & (pnl & _ & [= <-])%bind_Some)%bind_Some;
    destruct key; done.
Qed.
Definition nonneg (q : list Fill) : Prop := Forall (λ f, 0 ≤ fill_contracts f) q.
Record matched_oldest (closing : Fill) (entries : list Fill) (side : Side) (key : BucketKey) (closed : list ClosedTrade)
    (closing' : Fill) (entries' : list Fill) (closed' : list ClosedTrade) : Prop := {
  mo_closing : closing' = with_contracts closing (Z.max 0 (fill_contracts closing - Z.of_nat (length (queue_lots entries))));
  mo_entries : queue_lots entries' = drop (Z.to_nat (fill_contracts closing)) (queue_lots entries);
  mo_nonneg : nonneg entries';
  mo_closed : ∃ new, closed' = closed ++ new
    ∧ all_closed_lots new = (λ e, (side, e, fill_lot closing)) <$> take (Z.to_nat (fill_contracts closing)) (queue_lots entries)
    ∧ Forall (λ c, closed_key c = key ∧ 0 ≤ contract_qty (ct_contracts c)) new
}.
Lemma with_contracts_id f : with_contracts f (fill_contracts f) = f.
Proof. by destruct f. Qed.
Lemma lots_length f : length (lots f) = Z.to_nat (fill_contracts f).
Proof. apply length_replicate. Qed.

Lemma match_loop_oldest closing entries side key closed closing' entries' closed' :
  nonneg entries → 0 ≤ fill_contracts closing →
  match_loop closing entries side key closed = Some (closing', entries', closed') →
  matched_oldest closing entries side key closed closing' entries' closed'.
Proof.
  revert closing closed. induction entries as [|e rest IH]; intros closing closed Hn Hc; simpl.
  - intros [= <- <- <-]. split; simpl; [by rewrite Z.sub_0_r, Z.max_r, with_contracts_id by lia|unfold queue_lots; simpl; by rewrite drop_nil|done|].
    exists []. unfold queue_lots. simpl. by rewrite app_nil_r, take_nil.
  - apply Forall_cons in Hn as [He Hn]. destruct (Z.ltb_spec 0 (fill_contracts closing)) as [Hpos|Hpos].
    2: { intros [= <- <- <-]. assert (fill_contracts closing = 0) as H0 by lia. split; rewrite ?H0; simpl.
         - rewrite Z.max_l by lia. by rewrite <- H0 at 1; rewrite with_contracts_id.
         - done.
         - by constructor.
         - exists []. by rewrite app_nil_r. }
    intros (lot & Hl & Hm)%bind_Some. apply closed_lot_lots in Hl as (Hl & Hk & Hq).
    assert (queue_lots (e :: rest) = lots e ++ queue_lots rest) as Hql by done.
    destruct (Z.eqb_spec (fill_contracts e - Z.min (fill_contracts closing) (fill_contracts e)) 0) as [Hz|Hz].
    + assert (Z.min (fill_contracts closing) (fill_contracts e) = fill_contracts e) as Hmin by lia. rewrite Hmin in *.
      apply IH in Hm as [M1 M2 M3 (new & -> & M4 & M5)]; [|done|simpl; lia]. simpl in *.
      assert (Z.to_nat (fill_contracts closing) = (length (lots e) + Z.to_nat (fill_contracts closing - fill_contracts e))%nat) as Hsplit
        by (rewrite lots_length; lia).
      split; rewrite ?Hql.
      * rewrite length_app, lots_length. subst closing'. unfold with_contracts. simpl. f_equal. lia.
      * rewrite Hsplit, drop_app_add. done.
      * done.
      * exists (lot :: new). split_and!; [by rewrite <- app_assoc| |by constructor; [split; [done|lia]|]].
        rewrite Hsplit, take_app_add, fmap_app. rewrite all_closed_lots_cons, M4, Hl. f_equal.
        unfold lots. by rewrite fmap_replicate.
    + assert (Z.min (fill_contracts closing) (fill_contracts e) = fill_contracts closing) as Hmin by lia. rewrite Hmin in *.
      simplify_eq. split; rewrite ?Hql.
      * rewrite length_app, lots_length. f_equal. lia.
      * rewrite drop_app_le by (rewrite lots_length; lia). unfold queue_lots. csimpl. f_equal.
        unfold lots. rewrite drop_replicate. simpl. f_equal. lia.
      * constructor; [simpl; lia|done].
      * exists [lot]. split_and!; [done| |by constructor; [split; [done|lia]|]].
        rewrite take_app_le by (rewrite lots_length; lia). unfold lots. rewrite take_replicate, fmap_replicate.
        rewrite all_closed_lots_cons, Hl. unfold all_closed_lots. simpl. rewrite app_nil_r. f_equal. lia.
Qed.

(** ** The reconstruction refines the queues *)
Definition closed_of (key : BucketKey) (closed : list ClosedTrade) : list (Side * Lot * Lot) :=
  all_closed_lots (filter (λ c, closed_key c = key) closed).
Lemma closed_of_app key l1 l2 : closed_of key (l1 ++ l2) = closed_of key l1 ++ closed_of key l2.
Proof. unfold closed_of. by rewrite filter_app, all_closed_lots_app. Qed.
Lemma match_against_queue_oldest fill q side key closed rest q' closed' :
  nonneg q → 0 ≤ fill_contracts fill → match_against_queue fill q side key closed = Some (rest, q', closed') →
  let n := Z.to_nat (fill_contracts fill) in
  queue_lots q' = drop n (queue_lots q) ∧ nonneg q'
  ∧ (∀ own, nonneg own → nonneg (push_rest own rest)
       ∧ queue_lots (push_rest own rest) = queue_lots own ++ replicate (n - length (queue_lots q)) (fill_lot fill))
  ∧ closed_of key closed' = closed_of key closed ++ ((λ e, (side, e, fill_lot fill)) <$> take n (queue_lots q))
  ∧ ∀ key', key' ≠ key → closed_of key' closed' = closed_of key' closed.
Proof.
  intros Hn Hf ([[closing' q1] closed1] & Hm & Hr)%bind_Some n. simplify_eq/=.
  apply match_loop_oldest in Hm as [M1 M2 M3 (new & -> & M4 & M5)]; [|done..].
  split_and!; [done|done| | |].
  - intros own Ho. subst closing'. simpl. destruct (Z.ltb_spec 0 (Z.max 0 (fill_contracts fill - Z.of_nat (length (queue_lots q))))) as [Hlt|Hlt]; simpl.
    + split; [apply Forall_app; split; [done|]; constructor; [simpl; lia|constructor]|].
      rewrite queue_lots_app. f_equal. unfold queue_lots at 1, lots. csimpl. rewrite app_nil_r. f_equal. unfold n. lia.
    + split; [done|]. replace (n - length (queue_lots q))%nat with 0%nat by (unfold n; lia). by rewrite app_nil_r.
  - rewrite closed_of_app. f_equal. unfold n. rewrite <- M4. unfold closed_of. f_equal. apply filter_all.
    intros c Hc. rewrite Forall_forall in M5. by apply M5.
  - intros key' Hne. rewrite closed_of_app. unfold closed_of at 2.
    assert (filter (λ c, closed_key c = key') new = []) as ->; [|by rewrite app_nil_r].
    apply elem_of_nil_inv. intros c [Hc Hin]%list_elem_of_filter. rewrite Forall_forall in M5.
    apply Hne. rewrite <- Hc. by apply M5.
Qed.

Definition bucket_of (key : BucketKey) (buckets : gmap BucketKey Queues) : Queues := default ([], []) (buckets !! key).
Definition abstracts (key : BucketKey) (st : list ClosedTrade * gmap BucketKey Queues) : Fifo :=
  (queue_lots (bucket_of key st.2).1, queue_lots (bucket_of key st.2).2, closed_of key st.1).
Definition buckets_nonneg (buckets : gmap BucketKey Queues) : Prop :=
  ∀ key, nonneg (bucket_of key buckets).1 ∧ nonneg (bucket_of key buckets).2.
Lemma bucket_of_insert key key' q buckets :
  bucket_of key (<[key' := q]> buckets) = if decide (key' = key) then q else bucket_of key buckets.
Proof.
  unfold bucket_of. destruct (decide (key' = key)) as [->|]; [by rewrite lookup_insert_eq|by rewrite lookup_insert_ne].
Qed.
Definition updates (st st' : list ClosedTrade * gmap BucketKey Queues) (key : BucketKey) (q : Queues) : Prop :=
  st'.2 = <[key := q]> st.2 ∧ nonneg q.1 ∧ nonneg q.2 ∧ ∀ key', key' ≠ key → closed_of key' st'.1 = closed_of key' st.1.
Lemma updates_step st st' key q (f : Fifo → Fifo) : buckets_nonneg st.2 → updates st st' key q →
  f (abstracts key st) = (queue_lots q.1, queue_lots q.2, closed_of key st'.1) →
  buckets_nonneg st'.2 ∧ ∀ key', abstracts key' st' = if decide (key = key') then f (abstracts key' st) else abstracts key' st.
Proof.
  intros Hb (Hst & H1 & H2 & Hc) Hf. split.
  - intros key'. rewrite Hst, bucket_of_insert. by destruct (decide (key = key')).
  - intros key'. destruct (decide (key = key')) as [<-|Hne].
    + rewrite Hf. unfold abstracts. by rewrite Hst, bucket_of_insert, decide_True.
    + unfold abstracts. by rewrite Hst, bucket_of_insert, decide_False, Hc.
Qed.
Lemma trade_lots t : lots (trade_fill t) = replicate (Z.to_nat (contract_qty (rt_contracts t))) (fill_lot (trade_fill t)).
Proof. done. Qed.
Lemma push_own own t : nonneg own → 0 ≤ contract_qty (rt_contracts t) →
  nonneg (own ++ [trade_fill t]) ∧ queue_lots (own ++ [trade_fill t]) = queue_lots own ++ lots (trade_fill t).
Proof.
  intros Ho Ht. split; [by apply Forall_app; split; [|constructor; [|constructor]]|].
  rewrite queue_lots_app. f_equal. unfold queue_lots. csimpl. apply app_nil_r.
Qed.

Lemma reconstruct_trade_fifo st t st' : buckets_nonneg st.2 → 0 ≤ contract_qty (rt_contracts t) →
  reconstruct_trade st t = Some st' →
  buckets_nonneg st'.2 ∧ ∀ key, abstracts key st' = if decide (trade_key t = key) then fifo_trade (abstracts key st) t else abstracts key st.
Proof.
  intros Hb Ht. destruct st as [closed buckets]. unfold reconstruct_trade.
  pose proof (Hb (trade_key t)) as [Hbuy Hsell]. simpl in Hbuy, Hsell. unfold bucket_of in Hbuy, Hsell.
  destruct (default ([], []) (buckets !! trade_key t)) as [buy_q sell_q] eqn:Eq. simpl in Hbuy, Hsell.
  intros Hst. assert (abstracts (trade_key t) (closed, buckets) = (queue_lots buy_q, queue_lots sell_q, closed_of (trade_key t) closed)) as Ha
    by (unfold abstracts, bucket_of; simpl; by rewrite Eq).
  destruct (push_own buy_q t Hbuy Ht) as [P1 P2], (push_own sell_q t Hsell Ht) as [P3 P4].
  destruct (rt_side t) eqn:Hside.
  - destruct sell_q as [|e sell_q].
    + simplify_eq. apply (updates_step (closed, buckets) _ _ (buy_q ++ [trade_fill t], []) (λ f, fifo_trade f t)); [done|by repeat split|].
      rewrite Ha. unfold fifo_trade. simpl fst. simpl snd. rewrite Hside, P2, trade_lots, fifo_buys. unfold queue_lots. simpl. by rewrite Nat.sub_0_r, take_nil, drop_nil, app_nil_r.
    + apply bind_Some in Hst as ([[rest q'] closed'] & Hm & Hst). simplify_eq.
      apply match_against_queue_oldest in Hm as (M1 & M2 & M3 & M4 & M5); [|done..]. destruct (M3 buy_q Hbuy) as [M6 M7].
      apply (updates_step (closed, buckets) _ _ (push_rest buy_q rest, q') (λ f, fifo_trade f t)); [done|by repeat split|].
      rewrite Ha. unfold fifo_trade. rewrite Hside, trade_lots, fifo_buys. simpl fst. simpl snd. by rewrite M1, M4, M7.
  - destruct buy_q as [|e buy_q].
    + simplify_eq. apply (updates_step (closed, buckets) _ _ ([], sell_q ++ [trade_fill t]) (λ f, fifo_trade f t)); [done|by repeat split|].
      rewrite Ha. unfold fifo_trade. simpl fst. simpl snd. rewrite Hside, P4, trade_lots, fifo_sells. unfold queue_lots. simpl. by rewrite Nat.sub_0_r, take_nil, drop_nil, app_nil_r.
    + apply bind_Some in Hst as ([[rest q'] closed'] & Hm & Hst). simplify_eq.
      apply match_against_queue_oldest in Hm as (M1 & M2 & M3 & M4 & M5); [|done..]. destruct (M3 sell_q Hsell) as [M6 M7].
      apply (updates_step (closed, buckets) _ _ (q', push_rest sell_q rest) (λ f, fifo_trade f t)); [done|by repeat split|].
      rewrite Ha. unfold fifo_trade. rewrite Hside, trade_lots, fifo_sells. simpl fst. simpl snd. by rewrite M1, M4, M7.
Qed.

Definition valid_trade (t : RawTrade) : Prop := is_u64 (contract_qty (rt_contracts t)).
Lemma reconstruct_fifo st trades st' : buckets_nonneg st.2 → Forall valid_trade trades →
  fold_option reconstruct_trade st trades = Some st' →
  buckets_nonneg st'.2 ∧ ∀ key, abstracts key st' = foldl fifo_trade (abstracts key st) (of_key key trades).
Proof.
  revert st. induction trades as [|t trades IH]; intros st Hb Hv.
  { intros [= <-]. done. }
  apply Forall_cons in Hv as [Ht Hv]. rewrite fold_option_cons. intros (st1 & H1 & H2)%bind_Some.
  apply reconstruct_trade_fifo in H1 as [Hb1 Ha1]; [|done|apply Ht]. apply IH in H2 as [Hb2 Ha2]; [|done..].
  split; [done|]. intros key. rewrite Ha2, Ha1. unfold of_key. rewrite filter_cons.
  by destruct (decide (trade_key t = key)).
Qed.

(** *** Positions are net *)
Definition signed_contracts (t : RawTrade) : Z :=
  match rt_side t with Buy => contract_qty (rt_contracts t) | Sell => - contract_qty (rt_contracts t) end.
Definition one_sided (f : Fifo) : Prop := f.1.1 = [] ∨ f.1.2 = [].
Definition net (f : Fifo) : Z := Z.of_nat (length f.1.1) - Z.of_nat (length f.1.2).
Lemma fifo_trade_net f t : one_sided f → 0 ≤ contract_qty (rt_contracts t) →
  one_sided (fifo_trade f t) ∧ net (fifo_trade f t) = net f + signed_contracts t.
Proof.
  destruct f as [[longs shorts] closed]. intros Hone Ht. unfold one_sided, net, signed_contracts, fifo_trade in *.
  rewrite trade_lots. set (n := contract_qty (rt_contracts t)) in *. simpl in Hone. destruct (rt_side t).
  - rewrite fifo_buys. simpl. rewrite length_app, length_replicate, length_drop. split; [|lia].
    destruct (decide (Z.to_nat n <= length shorts)%nat) as [Hle|Hgt].
    + replace (Z.to_nat n - length shorts)%nat with 0%nat by lia. rewrite app_nil_r.
      destruct Hone as [->| ->]; [by left|]. right. by rewrite drop_nil.
    + right. apply drop_ge. lia.
  - rewrite fifo_sells. simpl. rewrite length_app, length_replicate, length_drop. split; [|lia].
    destruct (decide (Z.to_nat n <= length longs)%nat) as [Hle|Hgt].
    + replace (Z.to_nat n - length longs)%nat with 0%nat by lia. rewrite app_nil_r.
      destruct Hone as [->| ->]; [|by right]. left. by rewrite drop_nil.
    + left. apply drop_ge. lia.
Qed.
Lemma fifo_run_net f trades : one_sided f → Forall valid_trade trades →
  one_sided (foldl fifo_trade f trades) ∧ net (foldl fifo_trade f trades) = net f + sum_with signed_contracts trades.
Proof.
  revert f. induction trades as [|t trades IH]; intros f Hf Hv; simpl; [split; [done|unfold sum_with; simpl; lia]|].
  apply Forall_cons in Hv as [Ht Hv]. destruct (fifo_trade_net f t Hf) as [H1 H2]; [apply Ht|].
  destruct (IH _ H1 Hv) as [H3 H4]. split; [done|]. rewrite H4, H2. unfold sum_with. simpl. lia.
Qed.

(** *** Open positions of a bucket *)
Definition position_view (p : OpenPosition) : Side * Z := (op_side p, contract_qty (op_contracts p)).
Definition side_view (side : Side) (q : list Lot) : list (Side * Z) :=
  match q with [] => [] | _ => [(side, Z.min (Z.of_nat (length q)) U64_MAX)] end.
Lemma sum_contracts_lots fills : nonneg fills →
  sum_contracts (fill_contracts <$> fills) = Z.min (Z.of_nat (length (queue_lots fills))) U64_MAX.
Proof.
  unfold sum_contracts. intros Hn. assert (∀ a, 0 ≤ a ≤ U64_MAX →
    foldl saturating_add_u64 a (fill_contracts <$> fills) = Z.min (a + Z.of_nat (length (queue_lots fills))) U64_MAX) as Hg.
  { induction Hn as [|f fills Hf _ IH]; intros a Ha; csimpl; [unfold queue_lots; simpl; lia|].
    unfold saturating_add_u64 at 2. rewrite IH by (unfold U64_MAX in *; lia).
    unfold queue_lots. csimpl. rewrite length_app, lots_length. unfold U64_MAX in *. lia. }
  rewrite Hg; [done|]. unfold U64_MAX. lia.
Qed.
Lemma fills_to_open_view key side fills o : nonneg fills → fills_to_open key side fills = Some o →
  position_view <$> option_list o = side_view side (queue_lots fills).
Proof.
  intros Hn. unfold fills_to_open. rewrite sum_contracts_lots by done.
  destruct (queue_lots fills) as [|x q] eqn:E; simpl; [by intros [= <-]|].
  destruct (Z.eqb_spec (Z.min (Z.of_nat (S (length q))) U64_MAX) 0) as [H0|_]; [unfold U64_MAX in H0; lia|].
  intros (c & _ & (a & _ & Ho)%bind_Some)%bind_Some. by simplify_eq/=.
Qed.
Lemma bucket_open_view key q l : nonneg q.1 → nonneg q.2 → bucket_open (key, q) = Some l →
  position_view <$> l = side_view Buy (queue_lots q.1) ++ side_view Sell (queue_lots q.2).
Proof.
  intros H1 H2 (long & Hl & (short & Hs & [= <-])%bind_Some)%bind_Some. rewrite fmap_app.
  by rewrite (fills_to_open_view _ _ _ _ H1 Hl), (fills_to_open_view _ _ _ _ H2 Hs).
Qed.

(** *** The ledger *)
Definition open_of (key : BucketKey) (positions : list OpenPosition) : list OpenPosition :=
  filter (λ p, position_key p = bucket_key (key, ([], []))) positions.
Lemma bucket_key_eq key key' (q q' : Queues) : bucket_key (key, q) = bucket_key (key', q') → key = key'.
Proof. destruct key as [[[m]] [o]], key' as [[[m']] [o']]. unfold bucket_key, market_to_string. simpl. by intros [= -> ->]. Qed.
Lemma hash_iter_bucket `{HashOrder} (buckets : gmap BucketKey Queues) key :
  filter (λ b, bucket_key b = bucket_key (key, ([], []))) (hash_iter buckets)
  = match buckets !! key with Some q => [(key, q)] | None => [] end.
Proof.
  destruct (buckets !! key) as [q|] eqn:Hq.
  - trans (filter (λ b, bucket_key b = bucket_key (key, ([], []))) ((key, q) :: filter (λ b, b.1 ≠ key) (hash_iter buckets))).
    + apply filter_key_perm; [|apply bucket_key_inj, hash_iter_NoDup].
      apply NoDup_Permutation; [eapply NoDup_fmap_1, hash_iter_NoDup| |].
      * constructor; [by intros [[] _]%list_elem_of_filter|]. apply NoDup_filter. eapply NoDup_fmap_1, hash_iter_NoDup.
      * intros [key' q']. rewrite elem_of_cons, list_elem_of_filter, hash_iter_elem. simpl.
        destruct (decide (key' = key)) as [->|Hne]; [rewrite Hq|]; split.
        -- intros [= ->]. by left.
        -- by intros [[= ->]|[? _]].
        -- intros ?. by right.
        -- by intros [[= -> ->]|[_ ?]].
    + rewrite filter_cons_True by done. f_equal. apply elem_of_nil_inv.
      intros [key' q'] [Hk [Hne _]%list_elem_of_filter]%list_elem_of_filter. by apply bucket_key_eq in Hk.
  - apply elem_of_nil_inv. intros [key' q'] [Hk Hin%hash_iter_elem]%list_elem_of_filter.
    apply bucket_key_eq in Hk as ->. congruence.
Qed.
Lemma finish_ledger_open `{HashOrder} wallet days closed buckets o key : buckets_nonneg buckets →
  finish_ledger wallet days closed buckets = Some (Some o) →
  position_view <$> open_of key (tl_open_positions o)
  = side_view Buy (queue_lots (bucket_of key buckets).1) ++ side_view Sell (queue_lots (bucket_of key buckets).2).
Proof.
  intros Hb (open & Ho & Hl)%bind_Some. assert (tl_open_positions o = sort_by_key position_key (concat open)) as ->
    by (simpl in Hl; repeat case_match; by simplify_eq/=).
  unfold open_of. rewrite filter_sort_by_key, (concat_filter_key _ _ _ Ho), hash_iter_bucket.
  destruct (Hb key) as [H1 H2]. unfold bucket_of in *. destruct (buckets !! key) as [q|] eqn:Hq; [|done]. simpl in H1, H2.
  csimpl. rewrite app_nil_r. destruct (bucket_open _) as [l|] eqn:Hopen; [by apply bucket_open_view in Hopen|]. exfalso.
  apply (mapM_elem_None _ (hash_iter buckets)) in Hopen; [congruence|]. by apply hash_iter_elem.
Qed.
Lemma build_trader_ledgers_elem `{HashOrder} trades days wallet_filter ledgers o :
  build_trader_ledgers trades days wallet_filter = Some ledgers → o ∈ ledgers →
  ∃ closed buckets, fold_option reconstruct_trade ([], ∅) (sort_by_key trade_second (of_wallet (tl_wallet o) trades)) = Some (closed, buckets)
    ∧ finish_ledger (tl_wallet o) days closed buckets = Some (Some o)
    ∧ wallet_selected wallet_filter (tl_wallet o) = true.
Proof.
  intros (r & Hr & ->)%fmap_Some. rewrite (mapM_omap _ _ _ Hr). intros (w & Hw & Ho)%list_elem_of_omap.
  destruct (reconstruct_wallet days (group_trades wallet_filter trades) w) as [[o'|]|] eqn:E; simplify_eq/=.
  unfold reconstruct_wallet in E. apply bind_Some in E as (ts & Hts & ([closed buckets] & Hf & Hl)%bind_Some).
  rewrite group_trades_lookup in Hts. destruct (wallet_selected wallet_filter w) eqn:Hsel; [|done].
  pose proof (finish_ledger_wallet _ _ _ _ _ Hl) as [-> _].
  destruct (of_wallet w trades) eqn:Hof; simplify_eq/=. eauto.
Qed.

(** C20: A reconstructed ledger is the first-in, first-out matching of single contracts.  For every
    market outcome of every ledger, replaying the wallet's trades contract by contract, each one
    closing the oldest open contract of the other side or opening one, gives exactly the ledger's
    closed trades, contract for contract with both fills' prices, times and identifiers, and its open
    positions; only one side is ever open, its size is the balance of what was bought and sold. *)
Theorem reconstruction_refines_fifo `{HashOrder} trades days wallet_filter ledgers o key : Forall valid_trade trades →
  build_trader_ledgers trades days wallet_filter = Some ledgers → o ∈ ledgers →
  let own := of_key key (sort_by_key trade_second (of_wallet (tl_wallet o) trades)) in
  let '(longs, shorts, closed) := fifo_run key (sort_by_key trade_second (of_wallet (tl_wallet o) trades)) in
  closed_of key (tl_closed_trades o) = closed
  ∧ position_view <$> open_of key (tl_open_positions o) = side_view Buy longs ++ side_view Sell shorts
  ∧ (longs = [] ∨ shorts = [])
  ∧ Z.of_nat (length longs) - Z.of_nat (length shorts) = sum_with signed_contracts own.
Proof.
  intros Hv Hb Ho own. apply (build_trader_ledgers_elem _ _ _ _ _ Hb) in Ho as (closed & buckets & Hf & Hl & _).
  assert (Forall valid_trade (sort_by_key trade_second (of_wallet (tl_wallet o) trades))) as Hv'.
  { unfold sort_by_key. rewrite sort_by_perm. apply Forall_forall. intros t [_ Ht]%list_elem_of_filter.
    rewrite Forall_forall in Hv. by apply Hv. }
  apply reconstruct_fifo in Hf as [Hn Ha]; [|by intros k; split; constructor|done]. specialize (Ha key). simpl in Hn.
  destruct (fifo_run_net ([], [], []) own) as [Hone Hnet]; [by left| |].
  { apply Forall_forall. intros t [_ Ht]%list_elem_of_filter. rewrite Forall_forall in Hv'. by apply Hv'. }
  unfold fifo_run. fold own. change (abstracts key ([], ∅)) with (@nil Lot, @nil Lot, @nil (Side * Lot * Lot)) in Ha. fold own in Ha.
  rewrite <- Ha in Hone, Hnet |- *. unfold abstracts in *. simpl in *.
  pose proof (finish_ledger_wallet _ _ _ _ _ Hl) as [_ ->]. split; [done|].
  split; [by apply (finish_ledger_open _ _ _ _ _ key Hn Hl)|]. split; [done|]. unfold net in Hnet. simpl in Hnet. lia.
Qed.
End Fifo.

(** ** A sample: two wallets, a partial close, a flip to short and a flat market *)
Module SampleIndex.
#[local] Existing Instance key_order.
Definition wallet (b : Z) : WalletAddress := {| wallet_bytes := replicate 20 b |}.
Definition trade (w : Z) (m : string) (side : Side) (cents contracts second : Z) (id : string) : RawTrade := {|
  rt_wallet := wallet w;
  rt_market_id := {| market_id := {| venue_market_id := m |} |};
  rt_outcome_id := {| outcome_index := 0 |};
  rt_side := side;
  rt_price := {| price_value := dec_new cents 2 |};
  rt_contracts := {| contract_qty := contracts |};
  rt_timestamp := {| source_timestamp := (second * 1000000000 : OffsetDateTime) |};
  rt_source_trade_id := {| source_trade_id := id |}
|}.
Definition day1 : list RawTrade :=
  [trade 1 "m" Buy 40 10 100 "a"; trade 2 "m" Sell 70 5 100 "b"; trade 1 "m" Buy 50 10 110 "c"].
Definition day2 : list RawTrade :=
  [trade 1 "m" Sell 60 15 200 "d"; trade 2 "m" Buy 30 5 210 "e"; trade 1 "n" Sell 55 4 220 "f"; trade 1 "m" Sell 65 8 230 "g"].
Definition trades : list RawTrade := day1 ++ day2.
Definition key : BucketKey := trade_key (trade 1 "m" Buy 40 10 100 "a").
Definition ledgers : list TraderLedger := default [] (build_trader_ledgers trades 30 None).
Lemma trades_sorted : by_second trades.
Proof. unfold by_second. repeat (constructor; [|repeat constructor; by vm_compute]). constructor. Qed.
Lemma trades_valid : Forall valid_trade trades.
Proof. repeat constructor; by vm_compute. Qed.
Lemma ledgers_built : build_trader_ledgers trades 30 None = Some ledgers.
Proof.
  unfold ledgers. assert (match build_trader_ledgers trades 30 None with Some _ => true | None => false end = true) as H
    by (vm_compute; reflexivity).
  by destruct (build_trader_ledgers trades 30 None).
Qed.
(** The first wallet ends short three contracts of the first market and four of the
    second, with twenty contracts closed of the first; the second is flat. *)
Lemma ledgers_view :
  (λ o, (position_view <$> tl_open_positions o, length (tl_closed_trades o), quality (tl_reconstruction_quality o))) <$> ledgers
  = [([(Sell, 3); (Sell, 4)], 3%nat, 74); ([], 1%nat, 100)].
Proof. vm_compute. reflexivity. Qed.
Lemma first_ledger : ∃ o, o ∈ ledgers ∧ tl_wallet o = wallet 1.
Proof.
  assert (tl_wallet <$> ledgers = [wallet 1; wallet 2]) as H by (vm_compute; reflexivity).
  destruct ledgers as [|o l]; [done|]. exists o. split; [left|]. by simplify_eq/=.
Qed.
Lemma first_closed : length (fifo_run key (sort_by_key trade_second (of_wallet (wallet 1) trades))).2 = 20%nat.
Proof. vm_compute. reflexivity. Qed.
End SampleIndex.

Lemma incremental_matches_reconstruction_witness :
  by_second (concat [SampleIndex.day1; SampleIndex.day2])
  ∧ match fold_option apply_batch IncrementalLedger_new [SampleIndex.day1; SampleIndex.day2] with
    | Some l => build_ledgers (H := reverse_order) l (Some {[SampleIndex.wallet 1]}) 30
        = build_trader_ledgers (H := key_order) (concat [SampleIndex.day1; SampleIndex.day2]) 30 (Some {[SampleIndex.wallet 1]})
    | None => build_trader_ledgers (H := key_order) (concat [SampleIndex.day1; SampleIndex.day2]) 30 None = None
    end.
Proof.
  assert (by_second (concat [SampleIndex.day1; SampleIndex.day2])) as Hs by exact SampleIndex.trades_sorted.
  split; [exact Hs|]. exact (incremental_matches_reconstruction reverse_order key_order _ _ 30 Hs).
Defined.

Lemma reconstruction_refines_fifo_witness :
  ∃ o, o ∈ SampleIndex.ledgers ∧ (∃ longs shorts closed,
    fifo_run SampleIndex.key (sort_by_key trade_second (of_wallet (tl_wallet o) SampleIndex.trades)) = (longs, shorts, closed)
    ∧ length closed = 20%nat ∧ closed_of SampleIndex.key (tl_closed_trades o) = closed ∧ (longs = [] ∨ shorts = [])).
Proof.
  destruct SampleIndex.first_ledger as (o & Ho & Hw). exists o. split; [done|].
  pose proof (reconstruction_refines_fifo (H := key_order) SampleIndex.trades 30 None SampleIndex.ledgers o SampleIndex.key
    SampleIndex.trades_valid SampleIndex.ledgers_built Ho) as Ht.
  pose proof SampleIndex.first_closed as Hc. rewrite <- Hw in Hc.
  destruct (fifo_run _ _) as [[longs shorts] closed] eqn:Ef. exists longs, shorts, closed.
  destruct Ht as (H1 & _ & H2 & _). by split_and!.
Defined.
