(* ===== verification/Ranker.v ===== *)
(** * The walk-forward ranker (crates/trader-index/src/score.rs, ranker.rs)

    Statistics of a wallet's closed trades in a window, and the watchlist of active
    and incubator wallets built from reconstructed ledgers.  The hash maps of the
    source are iterated in any order; a value of type [option] is [None] where a
    decimal operator panics. *)

From S2P Require Import Prelude CoreTypes SignalEngine TraderIndex.
From Stdlib Require Import QArith Qabs Qround Lqa.
#[local] Open Scope Z_scope.

(** ** [rust_decimal]'s square root and rounding to even *)
Class DecimalMaths `{DO : DecimalOps} := {
  dec_sqrt : Decimal → option Decimal;
  (** [round_dp_with_strategy(0, MidpointNearestEven)] *)
  dec_round_even : Decimal → Decimal
}.
Class DecimalMathsLaws `{DM : DecimalMaths} : Prop := {
  dec_round_even_value a : ∃ z, (dec_value (dec_round_even a) == inject_Z z)%Q
    ∧ (Qabs (inject_Z z - dec_value a) <= 1 # 2)%Q
}.

(** ** [config.rs] *)
Record RankerConfig := {
  active_window_days : Z;
  active_min_closed_trades : Z;
  active_min_distinct_markets : Z;
  incubator_window_days : Z;
  incubator_min_closed_trades : Z;
  incubator_min_distinct_markets : Z;
  active_watchlist_size : Z;
  incubator_watchlist_size : Z;
  min_reconstruction_quality : Z
}.
Definition RankerConfig_default : RankerConfig := {|
  active_window_days := 180;
  active_min_closed_trades := 15;
  active_min_distinct_markets := 1;
  incubator_window_days := 90;
  incubator_min_closed_trades := 5;
  incubator_min_distinct_markets := 1;
  active_watchlist_size := 100;
  incubator_watchlist_size := 250;
  min_reconstruction_quality := 60
|}.

Section Ranker.
Context `{TO : TimeOps} `{DM : DecimalMaths}.

(** ** [price.rs]: basis points of a fraction, saturating *)
Definition bps_from_decimal (d : Decimal) : option BasisPoints :=
  scaled ← dec_checked_mul d (dec_from 10000);
  let rounded := dec_round_even scaled in
  Some {| bps := match dec_to_i32 rounded with
                 | Some n => n
                 | None => if dec_is_sign_negative rounded then I32_MIN else I32_MAX
                 end |}.

(** ** [score.rs] *)
Record CandidateStats := {
  cs_lcb_5pct_bps : BasisPoints;
  cs_leader_score_bps : BasisPoints;
  cs_win_rate_bps : BasisPoints;
  cs_closed_trades_in_window : Z;
  cs_distinct_markets_in_window : Z
}.
Definition as_u32 (n : nat) : Z := Z.of_nat n mod 4294967296.

Definition dec_sum (samples : list Decimal) : option Decimal := fold_option dec_checked_add dec_ZERO samples.
Definition squares_sum (mean : Decimal) (samples : list Decimal) : option Decimal :=
  fold_option (λ acc sample, diff ← dec_checked_sub sample mean; square ← dec_checked_mul diff diff; dec_checked_add acc square)
    dec_ZERO samples.
(** The outer [None] is a panic, the inner one an undefined score. *)
Definition lcb_5pct_decimal (samples : list Decimal) : option (option Decimal) :=
  if (length samples <? 2)%nat then Some None
  else
    let n_dec := dec_from (Z.of_nat (length samples)) in
    total ← dec_sum samples;
    mean ← dec_checked_div total n_dec;
    squares ← squares_sum mean samples;
    variance ← dec_checked_div squares n_dec;
    square_error ← dec_checked_div variance n_dec;
    let stderr := default dec_ZERO (dec_sqrt square_error) in
    margin ← dec_checked_mul (dec_new 1645 3) stderr;
    lcb ← dec_checked_sub mean margin;
    Some (Some lcb).
Definition lcb_5pct (returns : list Decimal) : option BasisPoints :=
  lcb ← lcb_5pct_decimal returns;
  match lcb with Some lcb => bps_from_decimal lcb | None => Some {| bps := I32_MIN |} end.

Definition in_window (window_start_unix now_unix : Z) (t : ClosedTrade) : bool :=
  (window_start_unix <=? ct_closed_at_unix t) && (ct_closed_at_unix t <=? now_unix).
Definition is_win (t : ClosedTrade) : bool := dec_ltb dec_ZERO (ct_realized_pnl_usd t).
Definition trade_return (t : ClosedTrade) : option Decimal :=
  cost ← dec_checked_mul (price_value (ct_entry_price t)) (dec_from (contract_qty (ct_contracts t)));
  if dec_is_zero cost then Some dec_ZERO else dec_checked_div (ct_realized_pnl_usd t) cost.
Definition add_return (daily : gmap Z Decimal) (t : ClosedTrade) : option (gmap Z Decimal) :=
  let day := ct_closed_at_unix t / 86400 in
  ret ← trade_return t;
  sum ← dec_checked_add (default dec_ZERO (daily !! day)) ret;
  Some (<[day := sum]> daily).

Definition compute_stats `{HashOrder} (trades : list ClosedTrade) (window_start_unix now_unix : Z) : option (option CandidateStats) :=
  let windowed := List.filter (in_window window_start_unix now_unix) trades in
  if is_empty windowed then Some None
  else
    let wins := length (List.filter is_win windowed) in
    ratio ← dec_checked_div (dec_from (Z.of_nat wins)) (dec_from (Z.of_nat (length windowed)));
    win_rate ← bps_from_decimal ratio;
    let markets : gset MarketId := list_to_set (ct_market_id <$> windowed) in
    daily_returns ← fold_option add_return ∅ windowed;
    lcb ← lcb_5pct (hash_iter daily_returns).*2;
    Some (Some {|
      cs_lcb_5pct_bps := lcb;
      cs_leader_score_bps := lcb;
      cs_win_rate_bps := win_rate;
      cs_closed_trades_in_window := as_u32 (length windowed);
      cs_distinct_markets_in_window := as_u32 (size markets)
    |}).

(** ** [ranker.rs] *)
Definition group_by_wallet (ledgers : list TraderLedger) : gmap WalletAddress (list TraderLedger) :=
  foldl (λ groups l, entry_push (tl_wallet l) l groups) ∅ ledgers.

Definition active_gate (config : RankerConfig) (stats : CandidateStats) : bool :=
  (active_min_closed_trades config <=? cs_closed_trades_in_window stats)
  && (active_min_distinct_markets config <=? cs_distinct_markets_in_window stats)
  && (0 <? bps (cs_lcb_5pct_bps stats)).
Definition incubator_gate (config : RankerConfig) (stats : CandidateStats) : bool :=
  (incubator_min_closed_trades config <=? cs_closed_trades_in_window stats)
  && (incubator_min_distinct_markets config <=? cs_distinct_markets_in_window stats).

Definition min_quality (ledgers : list TraderLedger) : Z :=
  default 0 (min_by ltb_of ((λ l, quality (tl_reconstruction_quality l)) <$> ledgers)).
(** [group_ledgers[0]] panics on an empty group. *)
Definition entry_quality (ledgers : list TraderLedger) : option ReconstructionQuality :=
  match ReconstructionQuality_new (min_quality ledgers) with
  | Ok q => Some q
  | Err _ => tl_reconstruction_quality <$> head ledgers
  end.
Definition watchlist_entry (wallet : WalletAddress) (tier : WatchlistTier) (stats : CandidateStats) (q : ReconstructionQuality) :
    WatchlistEntry := {|
  entry_wallet := wallet;
  entry_tier := tier;
  leader_score_bps := bps (cs_leader_score_bps stats);
  lcb_5pct_bps := bps (cs_lcb_5pct_bps stats);
  win_rate_bps := bps (cs_win_rate_bps stats);
  closed_trades_in_window := cs_closed_trades_in_window stats;
  entry_reconstruction_quality := q
|}.

Definition window_start (now_unix days : Z) : Z := now_unix - days * 86400.
Definition passed (gate : CandidateStats → bool) (stats : option CandidateStats) : option CandidateStats :=
  match stats with Some s => if gate s then Some s else None | None => None end.

(** One wallet of the loop: the entry is pushed to its tier's list. *)
Definition rank_wallet `{HashOrder} (config : RankerConfig) (now_unix : Z) (acc : list WatchlistEntry * list WatchlistEntry)
    (group : WalletAddress * list TraderLedger) : option (list WatchlistEntry * list WatchlistEntry) :=
  let (active_entries, incubator_entries) := acc in
  let (wallet, group_ledgers) := group in
  if min_quality group_ledgers <? min_reconstruction_quality config then Some acc
  else
    let owned := concat (tl_closed_trades <$> group_ledgers) in
    active ← compute_stats owned (window_start now_unix (active_window_days config)) now_unix;
    match passed (active_gate config) active with
    | Some stats =>
        q ← entry_quality group_ledgers;
        Some (active_entries ++ [watchlist_entry wallet Active stats q], incubator_entries)
    | None =>
        incubator ← compute_stats owned (window_start now_unix (incubator_window_days config)) now_unix;
        match passed (incubator_gate config) incubator with
        | Some stats =>
            q ← entry_quality group_ledgers;
            Some (active_entries, incubator_entries ++ [watchlist_entry wallet Incubator stats q])
        | None => Some acc
        end
    end.

Definition best_first (l : list WatchlistEntry) : list WatchlistEntry := sort_by_key (λ e, - leader_score_bps e) l.
Definition build_watchlist `{HashOrder} (ledgers : list TraderLedger) (at_time : SourceTimestamp) (config : RankerConfig) : option Watchlist :=
  let now_unix := unix_timestamp (source_timestamp at_time) in
  '(active_entries, incubator_entries) ← fold_option (rank_wallet config now_unix) ([], []) (hash_iter (group_by_wallet ledgers));
  let active_entries := take (Z.to_nat (active_watchlist_size config)) (best_first active_entries) in
  let incubator_entries := take (Z.to_nat (incubator_watchlist_size config)) (best_first incubator_entries) in
  Some {|
    entries := active_entries ++ incubator_entries;
    snapshot_at := at_time;
    active_count := Z.of_nat (length active_entries);
    incubator_count := Z.of_nat (length incubator_entries)
  |}.
End Ranker.

(** ** Entries of the watchlist *)
Section Entries.
Context `{TO : TimeOps} `{DM : DecimalMaths} {DL : DecimalLaws} {DML : DecimalMathsLaws} {HO : HashOrder}.

(** A fraction between zero and one has between zero and ten thousand basis points,
    whatever the rounding. *)
Lemma bps_from_fraction d b : (0 <= dec_value d <= 1)%Q → bps_from_decimal d = Some b → 0 ≤ bps b ≤ 10000.
Proof.
  intros [H0 H1] (scaled & Hs & [= <-])%bind_Some. apply dec_checked_mul_rounds in Hs. rewrite dec_from_value in Hs.
  assert (0 <= dec_value scaled)%Q as Hlo.
  { eapply rounds_to_ge; [exact Hs|by apply (representable_Z 0)|]. unfold inject_Z. nra. }
  assert (dec_value scaled <= inject_Z 10000)%Q as Hhi.
  { eapply rounds_to_le; [exact Hs|by apply representable_Z|]. unfold inject_Z. nra. }
  destruct (dec_round_even_value scaled) as (z & Hz & Habs). apply Qabs_Qle_condition in Habs as [Ha Hb].
  assert (0 ≤ z ≤ 10000) as Hr.
  { split.
    - assert (inject_Z (-1) < inject_Z z)%Q as Hl by (change (inject_Z (-1)) with (-1)%Q; lra).
      rewrite <- Zlt_Qlt in Hl. lia.
    - assert (inject_Z z < inject_Z 10001)%Q as Hl by (change (inject_Z 10001) with 10001%Q; change (inject_Z 10000) with 10000%Q in Hhi; lra).
      rewrite <- Zlt_Qlt in Hl. lia. }
  simpl. rewrite (dec_to_i32_value _ z Hz). unfold fits.
  destruct ((I32_MIN <=? z) && (z <=? I32_MAX)) eqn:E; [done|]. unfold I32_MIN, I32_MAX in E. lia.
Qed.
Lemma win_rate_bounded trades start now s : compute_stats trades start now = Some (Some s) →
  0 ≤ bps (cs_win_rate_bps s) ≤ 10000.
Proof.
  unfold compute_stats. set (w := List.filter _ trades). destruct (is_empty w) eqn:Ew; [done|].
  assert (0 < length w)%nat as Hlen by (destruct w; [done|simpl; lia]).
  set (wins := length (List.filter is_win w)). assert (wins <= length w)%nat as Hle.
  { unfold wins. apply List.filter_length_le. }
  intros (ratio & Hr & (rate & Hb & Hrest)%bind_Some)%bind_Some.
  assert (cs_win_rate_bps s = rate) as ->.
  { apply bind_Some in Hrest as (? & _ & (? & _ & Hs)%bind_Some). by simplify_eq/=. }
  apply (bps_from_fraction ratio); [|done]. apply dec_checked_div_rounds in Hr as [_ Hr]. rewrite !dec_from_value in Hr.
  assert (0 < inject_Z (Z.of_nat (length w)))%Q as Hpos by (rewrite <- (Zlt_Qlt 0); lia).
  split; [eapply rounds_to_ge|eapply rounds_to_le]; try exact Hr.
  - by apply (representable_Z 0).
  - apply Qle_shift_div_l; [done|]. rewrite Qmult_0_l, <- (Zle_Qle 0). lia.
  - by apply (representable_Z 1).
  - apply Qle_shift_div_r; [done|]. rewrite Qmult_1_l, <- Zle_Qle. lia.
Qed.

(** *** One wallet *)
Lemma group_by_wallet_lookup ledgers w :
  group_by_wallet ledgers !! w =
    let own := filter (λ l, tl_wallet l = w) ledgers in if is_empty own then None else Some own.
Proof.
  unfold group_by_wallet. simpl. induction ledgers as [|l ledgers IH] using rev_ind; [done|].
  rewrite foldl_app, filter_app. simpl. set (m := foldl _ _ _) in *. unfold entry_push.
  assert (filter (λ x, tl_wallet x = w) [l] = if decide (tl_wallet l = w) then [l] else []) as -> by by rewrite filter_cons.
  destruct (decide (tl_wallet l = w)) as [<-|Hne].
  - rewrite lookup_insert_eq, IH. by destruct (filter _ ledgers).
  - by rewrite lookup_insert_ne, IH, app_nil_r.
Qed.

Context (config : RankerConfig) (now : Z).
(** The entry one wallet gets, if any. *)
Definition candidate (g : WalletAddress * list TraderLedger) : option (option WatchlistEntry) :=
  '(active, incubator) ← rank_wallet config now ([], []) g; Some (head (active ++ incubator)).
Definition place (acc : list WatchlistEntry * list WatchlistEntry) (e : option WatchlistEntry) : list WatchlistEntry * list WatchlistEntry :=
  match e with
  | Some e => match entry_tier e with Active => (acc.1 ++ [e], acc.2) | Incubator => (acc.1, acc.2 ++ [e]) end
  | None => acc
  end.
Lemma rank_wallet_candidate acc g : rank_wallet config now acc g = place acc <$> candidate g.
Proof.
  destruct acc as [active incubator], g as [w ls]. unfold candidate, rank_wallet.
  destruct (_ <? _); [done|]. destruct (compute_stats _ (window_start now (active_window_days config)) now) as [a|]; [|done]. simpl.
  destruct (passed _ a); [by destruct (entry_quality ls)|].
  destruct (compute_stats _ (window_start now (incubator_window_days config)) now) as [i|]; [|done]. simpl. destruct (passed _ i); [by destruct (entry_quality ls)|done].
Qed.
Definition of_tier (tier : WatchlistTier) (l : list WatchlistEntry) : list WatchlistEntry := filter (λ e, entry_tier e = tier) l.
Lemma rank_wallets_candidates acc gs a i : fold_option (rank_wallet config now) acc gs = Some (a, i) →
  ∃ r, mapM candidate gs = Some r ∧ a = acc.1 ++ of_tier Active (omap id r) ∧ i = acc.2 ++ of_tier Incubator (omap id r).
Proof.
  revert acc. induction gs as [|g gs IH]; intros acc.
  { intros [= ->]. exists []. by rewrite !app_nil_r. }
  rewrite fold_option_cons, rank_wallet_candidate. intros (acc' & (e & He & ->)%fmap_Some & (r & Hr & -> & ->)%IH)%bind_Some.
  exists (e :: r). simpl. rewrite He. simpl. rewrite Hr. split; [done|]. destruct e as [e|]; [|done]. csimpl.
  unfold of_tier. rewrite !filter_cons. destruct (entry_tier e) eqn:Ht; simpl.
  all: by rewrite <- !app_assoc.
Qed.

(** What an entry says of its wallet's ledgers. *)
Definition supported (ls : list TraderLedger) (e : WatchlistEntry) : Prop :=
  min_reconstruction_quality config ≤ min_quality ls
  ∧ ∃ stats,
      compute_stats (concat (tl_closed_trades <$> ls))
        (window_start now (match entry_tier e with Active => active_window_days config | Incubator => incubator_window_days config end)) now
        = Some (Some stats)
      ∧ match entry_tier e with Active => active_gate config stats | Incubator => incubator_gate config stats end = true
      ∧ ∃ q, entry_quality ls = Some q ∧ e = watchlist_entry (entry_wallet e) (entry_tier e) stats q.
Lemma passed_Some gate stats s : passed gate stats = Some s → stats = Some s ∧ gate s = true.
Proof. unfold passed. intros H. repeat case_match; by simplify_eq. Qed.
Lemma candidate_supported w ls e : candidate (w, ls) = Some (Some e) → entry_wallet e = w ∧ supported ls e.
Proof.
  unfold candidate, rank_wallet. destruct (Z.ltb_spec (min_quality ls) (min_reconstruction_quality config)) as [|Hq]; [done|].
  destruct (compute_stats _ (window_start now (active_window_days config)) now) as [a|] eqn:Ea; [|done]. simpl. destruct (passed _ a) as [s|] eqn:Ha.
  - apply passed_Some in Ha as [-> Hg]. destruct (entry_quality ls) as [q|] eqn:Hq'; [|done]. intros [= <-]. split; [done|].
    split; [done|]. exists s. split_and!; [done|done|]. by exists q.
  - destruct (compute_stats _ (window_start now (incubator_window_days config)) _) as [i|] eqn:Ei; [|done]. simpl.
    destruct (passed _ i) as [s|] eqn:Hi; [|done]. apply passed_Some in Hi as [-> Hg].
    destruct (entry_quality ls) as [q|] eqn:Hq'; [|done]. intros [= <-]. split; [done|].
    split; [done|]. exists s. split_and!; [done|done|]. by exists q.
Qed.

(** *** The watchlist *)
Definition candidates (ledgers : list TraderLedger) : option (list WatchlistEntry) :=
  omap id <$> mapM candidate (hash_iter (group_by_wallet ledgers)).
Lemma candidates_wallets gs r : mapM candidate gs = Some r → entry_wallet <$> omap id r `sublist_of` gs.*1.
Proof.
  intros H%mapM_Some. induction H as [|[w ls] o gs r Hg _ IH]; [done|]. csimpl. destruct o as [e|]; csimpl.
  - apply candidate_supported in Hg as [-> _]. by constructor.
  - by constructor.
Qed.
Lemma mapM_result {A B} (f : A → option B) l r y : mapM f l = Some r → y ∈ r → ∃ x, x ∈ l ∧ f x = Some y.
Proof.
  intros H%mapM_Some. induction H as [|x z l r Hx _ IH]; [by intros ?%elem_of_nil|]. intros [->|Hy]%elem_of_cons.
  - exists x. split; [left|done].
  - destruct (IH Hy) as (x' & ? & ?). exists x'. split; [by right|done].
Qed.
Lemma candidate_elem ledgers pool e : candidates ledgers = Some pool → e ∈ pool →
  supported (filter (λ l, tl_wallet l = entry_wallet e) ledgers) e.
Proof.
  intros (r & Hr & ->)%fmap_Some He. apply list_elem_of_omap in He as (o & Ho & He). unfold id in He. subst o.
  apply (mapM_result _ _ _ _ Hr) in Ho as ([w ls] & Hin%hash_iter_elem & Hc).
  apply candidate_supported in Hc as [-> Hs]. rewrite group_by_wallet_lookup in Hin. simpl in Hin.
  by destruct (is_empty _); simplify_eq.
Qed.

Record top (n : Z) (pool l : list WatchlistEntry) : Prop := {
  top_elem e : e ∈ l → e ∈ pool;
  top_bound : Z.of_nat (length l) ≤ Z.max 0 n;
  top_sorted : StronglySorted (λ a b, leader_score_bps b ≤ leader_score_bps a) l;
  top_best e : e ∈ pool → e ∈ l ∨ (Z.of_nat (length l) = Z.max 0 n ∧ ∀ x, x ∈ l → leader_score_bps e ≤ leader_score_bps x)
}.
Lemma best_first_sorted l : StronglySorted (λ a b, leader_score_bps b ≤ leader_score_bps a) (best_first l).
Proof.
  pose proof (sort_by_key_sorted (λ e, - leader_score_bps e) l) as H. fold (best_first l) in H.
  induction H as [|e l' _ IH He]; constructor; [done|]. eapply Forall_impl; [exact He|]. intros x. unfold key_leb, leb_of. simpl.
  destruct (Z.compare_spec (- leader_score_bps e) (- leader_score_bps x)); [lia..|done].
Qed.
Lemma best_first_perm l : best_first l ≡ₚ l.
Proof. apply sort_by_perm. Qed.
Lemma sorted_take_drop {A} (R : A → A → Prop) n l x y : StronglySorted R l → x ∈ take n l → y ∈ drop n l → R x y.
Proof.
  intros Hs. revert n. induction Hs as [|a l Hs IH Ha]; intros [|n]; simpl.
  - by intros ?%elem_of_nil.
  - by intros ?%elem_of_nil.
  - by intros ?%elem_of_nil.
  - intros [->|Hx]%elem_of_cons Hy; [|by eapply IH]. rewrite Forall_forall in Ha. apply Ha. rewrite <- (take_drop n l). apply elem_of_app. by right.
Qed.
Lemma sorted_take {A} (R : A → A → Prop) n l : StronglySorted R l → StronglySorted R (take n l).
Proof.
  intros Hs. revert n. induction Hs as [|a l Hs IH Ha]; intros [|n]; simpl; constructor; [done|].
  rewrite Forall_forall in Ha. apply Forall_forall. intros x Hx. apply Ha. rewrite <- (take_drop n l). apply elem_of_app. by left.
Qed.
Lemma top_take n pool : top n pool (take (Z.to_nat n) (best_first pool)).
Proof.
  pose proof (best_first_sorted pool) as Hs. split.
  - intros e He. rewrite <- best_first_perm. rewrite <- (take_drop (Z.to_nat n) (best_first pool)). apply elem_of_app. by left.
  - rewrite length_take. lia.
  - by apply sorted_take.
  - intros e He. rewrite <- best_first_perm, <- (take_drop (Z.to_nat n) (best_first pool)) in He.
    apply elem_of_app in He as [He|He]; [by left|right]. split; [|intros x Hx; by eapply (sorted_take_drop (λ a b, _ b ≤ _ a))].
    rewrite length_take. assert (0 < length (drop (Z.to_nat n) (best_first pool)))%nat by (by destruct (drop _ _); [apply elem_of_nil in He|simpl; lia]).
    rewrite length_drop in *. lia.
Qed.

Lemma watchlist_parts ledgers at_time wl : now = unix_timestamp (source_timestamp at_time) →
  build_watchlist ledgers at_time config = Some wl →
  ∃ pool, candidates ledgers = Some pool
    ∧ wl = (let active := take (Z.to_nat (active_watchlist_size config)) (best_first (of_tier Active pool)) in
            let incubator := take (Z.to_nat (incubator_watchlist_size config)) (best_first (of_tier Incubator pool)) in
            {| entries := active ++ incubator; snapshot_at := at_time;
               active_count := Z.of_nat (length active); incubator_count := Z.of_nat (length incubator) |}).
Proof.
  intros Hnow. unfold build_watchlist. rewrite <- Hnow. intros ([a i] & (r & Hr & -> & ->)%rank_wallets_candidates & Hwl)%bind_Some.
  injection Hwl as <-. exists (omap id r). unfold candidates. by rewrite Hr.
Qed.
Lemma of_tier_elem tier pool e : e ∈ of_tier tier pool ↔ entry_tier e = tier ∧ e ∈ pool.
Proof. unfold of_tier. by rewrite list_elem_of_filter. Qed.
Lemma of_tiers pool : of_tier Active pool ++ of_tier Incubator pool ≡ₚ pool.
Proof.
  unfold of_tier. induction pool as [|e pool IH]; [done|]. rewrite !filter_cons. destruct (entry_tier e); simpl.
  - by rewrite IH.
  - by rewrite <- Permutation_middle, IH.
Qed.
Lemma NoDup_key_sublist (l1 l2 : list WatchlistEntry) :
  l1 `sublist_of` l2 → NoDup (entry_wallet <$> l2) → NoDup (entry_wallet <$> l1).
Proof.
  intros Hs Hn. eapply sublist_NoDup; [exact Hn|]. clear Hn. induction Hs; csimpl; by constructor.
Qed.

Lemma of_tier_app tier l1 l2 : of_tier tier (l1 ++ l2) = of_tier tier l1 ++ of_tier tier l2.
Proof. apply filter_app. Qed.
Lemma of_tier_taken tier tier' n pool : of_tier tier (take n (best_first (of_tier tier' pool)))
  = if decide (tier = tier') then take n (best_first (of_tier tier' pool)) else [].
Proof.
  assert (Forall (λ e, entry_tier e = tier') (take n (best_first (of_tier tier' pool)))) as Hall.
  { apply Forall_take, Forall_forall. intros e He. rewrite best_first_perm in He. by apply of_tier_elem in He as [? _]. }
  unfold of_tier at 1. case_decide as E; induction Hall as [|e l He _ IH]; try done; rewrite filter_cons.
  - rewrite decide_True by congruence. by rewrite IH.
  - rewrite decide_False by congruence. done.
Qed.
Definition tier_size (tier : WatchlistTier) : Z :=
  match tier with Active => active_watchlist_size config | Incubator => incubator_watchlist_size config end.
Definition tier_count (wl : Watchlist) (tier : WatchlistTier) : Z :=
  match tier with Active => active_count wl | Incubator => incubator_count wl end.

(** C23: The watchlist takes the best wallets of each tier.  Of the wallets whose ledgers support an
    entry of a tier, the list holds at most the configured number, and among themselves they are
    listed best score first; a wallet that was left out has a score no better than any that was
    taken from its tier, and the tier is full.  Nothing is said of the order of entries of different
    tiers.  The counts are those of the tiers, no wallet is listed twice, and every listed entry is
    supported: quality, closed trades, distinct markets and, when active, a positive lower confidence
    bound. *)
Theorem watchlist_takes_best ledgers at_time wl : now = unix_timestamp (source_timestamp at_time) →
  build_watchlist ledgers at_time config = Some wl →
  ∃ pool, candidates ledgers = Some pool
    ∧ (∀ tier, top (tier_size tier) (of_tier tier pool) (of_tier tier (entries wl))
               ∧ tier_count wl tier = Z.of_nat (length (of_tier tier (entries wl))))
    ∧ NoDup (entry_wallet <$> entries wl)
    ∧ ∀ e, e ∈ entries wl → supported (filter (λ l, tl_wallet l = entry_wallet e) ledgers) e.
Proof.
  intros Hnow (pool & Hp & ->)%watchlist_parts; [|done]. exists pool. split_and!; [done| | |].
  - intros tier. cbn [entries active_count incubator_count]. rewrite of_tier_app, !of_tier_taken.
    destruct tier; repeat case_decide; try done; rewrite ?app_nil_r; (split; [apply top_take|done]).
  - simpl. eapply NoDup_key_sublist; [apply sublist_app; apply sublist_take|].
    rewrite !best_first_perm, of_tiers. apply fmap_Some in Hp as (r & Hr & ->).
    eapply sublist_NoDup; [|by apply candidates_wallets]. apply hash_iter_NoDup.
  - intros e He. apply (candidate_elem _ _ _ Hp). simpl in He.
    apply elem_of_app in He as [He|He]; by apply (top_elem _ _ _ (top_take _ _)), of_tier_elem in He as [_ ?].
Qed.

Lemma min_quality_le ls l : l ∈ ls → min_quality ls ≤ quality (tl_reconstruction_quality l).
Proof.
  intros Hl. unfold min_quality. set (f := λ l, quality (tl_reconstruction_quality l)).
  destruct (min_by_is_Some ltb_of (f <$> ls)) as [m Hm]; [by destruct ls; [apply elem_of_nil in Hl|]|].
  rewrite Hm. simpl. pose proof (min_by_le id (f <$> ls) m Hm (f l)) as Hle.
  assert (leb_of m (f l) = true) as H by by apply Hle, list_elem_of_fmap_2. revert H. unfold leb_of. simpl. fold (f l).
  destruct (Z.compare_spec m (f l)); [lia|lia|done].
Qed.

(** C22: Only supported leaders are copied.  When the classifier turns a trade into a signal with a
    watchlist the ranker built, every ledger of the trading wallet has the required quality, its
    closed trades in the active window are numerous and diverse enough with a positive lower
    confidence bound, and its win rate, the probability the sizer bets with, is between zero and ten
    thousand basis points. *)
Theorem signal_leader_supported ledgers at_time wl trade position q venue signal_config signal :
  now = unix_timestamp (source_timestamp at_time) → build_watchlist ledgers at_time config = Some wl →
  classify_trade trade position wl q venue signal_config = Some signal →
  let own := filter (λ l, tl_wallet l = trade_wallet trade) ledgers in
  (∀ l, l ∈ own → min_reconstruction_quality config ≤ quality (tl_reconstruction_quality l))
  ∧ ∃ stats, compute_stats (concat (tl_closed_trades <$> own)) (window_start now (active_window_days config)) now = Some (Some stats)
      ∧ active_min_closed_trades config ≤ cs_closed_trades_in_window stats
      ∧ active_min_distinct_markets config ≤ cs_distinct_markets_in_window stats
      ∧ 0 < bps (cs_lcb_5pct_bps stats) ∧ 0 ≤ bps (cs_win_rate_bps stats) ≤ 10000.
Proof.
  intros Hnow (pool & Hp & ->)%watchlist_parts Hs own; [|done].
  apply classify_trade_Some in Hs as [(e & He & Hw & Ht) _]. simpl in He.
  assert (e ∈ pool) as Hin.
  { apply elem_of_app in He as [He|He].
    - by apply (top_elem _ _ _ (top_take _ _)), of_tier_elem in He as [_ ?].
    - by apply (top_elem _ _ _ (top_take _ _)), of_tier_elem in He as [_ ?]. }
  destruct (candidate_elem _ _ _ Hp Hin) as (Hq & stats & Hc & Hg & _). rewrite Hw in Hq, Hc. rewrite Ht in Hc, Hg.
  fold own in Hq, Hc. split.
  - intros l Hl. apply min_quality_le in Hl. lia.
  - exists stats. apply andb_true_iff in Hg as [[Hg1 Hg2]%andb_true_iff Hg3].
    split_and!; [done|by apply Z.leb_le|by apply Z.leb_le|by apply Z.ltb_lt|by eapply win_rate_bounded..].
Qed.
End Entries.

(** ** A sample *)
Definition Q_round_even (q : Q) : Z :=
  let f := Qfloor q in
  match ((q - inject_Z f) ?= (1 # 2))%Q with
  | Lt => f
  | Gt => f + 1
  | Eq => if Z.even f then f else f + 1
  end.
(** Square roots to twelve decimals. *)
Definition Q_sqrt (q : Q) : option Q :=
  if Qle_bool 0 q then Some (Qred (inject_Z (Z.sqrt (Qfloor (q * inject_Z (10 ^ 24)))) / inject_Z (10 ^ 12))) else None.
Definition Q_nearest (q : Q) : Q := inject_Z (Q_round_even q).
#[export] Instance QMaths : DecimalMaths (DO := QDecimal) := Build_DecimalMaths QDecimal Q_sqrt Q_nearest.
Lemma Q_round_even_near q : (Qabs (inject_Z (Q_round_even q) - q) <= 1 # 2)%Q.
Proof.
  apply Qabs_Qle_condition. unfold Q_round_even.
  pose proof (Qfloor_le q) as H1. pose proof (Qlt_floor q) as H2. rewrite inject_Z_plus in H2. change (inject_Z 1) with 1%Q in H2.
  destruct (Qcompare_spec (q - inject_Z (Qfloor q)) (1 # 2)) as [H|H|H]; [destruct (Z.even (Qfloor q))| |];
    rewrite ?inject_Z_plus; change (inject_Z 1) with 1%Q; lra.
Qed.
#[export] Instance QMaths_laws : DecimalMathsLaws (DM := QMaths).
Proof. split. intros a. exists (Q_round_even a). split; [done|]. exact (Q_round_even_near a). Qed.

Module SampleRanking.
Import SampleIndex.
Definition round_trip (w : Z) (buy sell day : Z) : list RawTrade :=
  [trade w "m" Buy buy 10 (day * 86400) "in"; trade w "m" Sell sell 10 (day * 86400 + 10) "out"].
Definition day_ten : SourceTimestamp := {| source_timestamp := (10 * 86400 * 1000000000 : OffsetDateTime) |}.
Lemma day_ten_unix : 864000 = unix_timestamp (source_timestamp day_ten).
Proof. reflexivity. Qed.
Definition ranked_config (min_closed size : Z) : RankerConfig := {|
  active_window_days := 180; active_min_closed_trades := min_closed; active_min_distinct_markets := 1;
  incubator_window_days := 90; incubator_min_closed_trades := 2; incubator_min_distinct_markets := 1;
  active_watchlist_size := size; incubator_watchlist_size := 250; min_reconstruction_quality := 60
|}.
Definition ledgers_of (trades : list RawTrade) : list TraderLedger := default [] (build_trader_ledgers (H := key_order) trades 30 None).
(** Two wallets with the same record. *)
Definition tied : list TraderLedger :=
  ledgers_of (round_trip 1 40 60 1 ++ round_trip 1 40 60 2 ++ round_trip 2 40 60 1 ++ round_trip 2 40 60 2).
(** A wallet with three small wins, and one with two large ones. *)
Definition uneven : list TraderLedger :=
  ledgers_of (round_trip 1 50 60 1 ++ round_trip 1 50 60 2 ++ round_trip 1 50 60 3 ++ round_trip 2 20 80 1 ++ round_trip 2 20 80 2).
Definition listed (wl : option Watchlist) : option (list (Z * WatchlistTier * Z)) :=
  (λ wl, (λ e, (default 0 (head (wallet_bytes (entry_wallet e))), entry_tier e, leader_score_bps e)) <$> entries wl) <$> wl.

(** The wallet of three small wins is active and first, the better one after it. *)
Definition config : RankerConfig := ranked_config 3 100.
Definition built : option Watchlist := build_watchlist (H := key_order) uneven day_ten config.
Definition watchlist : Watchlist :=
  default {| entries := []; snapshot_at := day_ten; active_count := 0; incubator_count := 0 |} built.
Lemma watchlist_built : built = Some watchlist.
Proof.
  unfold watchlist. assert (match built with Some _ => true | None => false end = true) as H by (vm_compute; reflexivity).
  by destruct built.
Qed.
Definition incoming : IncomingTrade := {|
  trade_wallet := wallet 1;
  trade_market_id := {| market_id := {| venue_market_id := "m" |} |};
  trade_outcome_id := {| outcome_index := 0 |};
  trade_side := Buy;
  trade_price := {| price_value := dec_new 50 2 |};
  trade_contracts := from_atomic 1000000;
  trade_observed_at := (864001000000000 : OffsetDateTime);
  trade_received_at := (864002000000000 : OffsetDateTime);
  trade_source_trade_id := {| source_trade_id := "t" |};
  trade_transaction_hash := None;
  trade_provenance := RestPoll
|}.
Definition quality_full : ReconstructionQuality := {| quality := 100 |}.
Definition classified : option LeaderSignal := classify_trade incoming None watchlist quality_full polymarket SignalConfig_default.
Lemma signal_classified : ∃ signal, classified = Some signal.
Proof.
  assert (match classified with Some _ => true | None => false end = true) as H by (vm_compute; reflexivity).
  destruct classified as [signal|]; [by exists signal|done].
Qed.
End SampleRanking.

(** The cut through wallets of equal score follows the order of the hash map: the same
    ledgers give two watchlists of one place. *)
Lemma tied_cut_follows_hashing :
  let list order := SampleRanking.listed (build_watchlist (H := order) SampleRanking.tied SampleRanking.day_ten (SampleRanking.ranked_config 2 1)) in
  list key_order = Some [(1, Active, 5000)] ∧ list reverse_order = Some [(2, Active, 5000)].
Proof. split; vm_compute; reflexivity. Qed.

(** The entries are not sorted by score: incubator wallets come after every active
    one, with any score. *)
Lemma incubator_outranks_active : SampleRanking.listed SampleRanking.built = Some [(1, Active, 2000); (2, Incubator, 30000)].
Proof. vm_compute. reflexivity. Qed.

Lemma watchlist_takes_best_witness :
  SampleRanking.built = Some SampleRanking.watchlist
  ∧ NoDup (entry_wallet <$> entries SampleRanking.watchlist)
  ∧ incubator_count SampleRanking.watchlist = Z.of_nat (length (of_tier Incubator (entries SampleRanking.watchlist))).
Proof.
  split; [exact SampleRanking.watchlist_built|].
  destruct (watchlist_takes_best (DM := QMaths) (HO := key_order) SampleRanking.config 864000 SampleRanking.uneven SampleRanking.day_ten
    SampleRanking.watchlist SampleRanking.day_ten_unix SampleRanking.watchlist_built)
    as (pool & _ & Ht & Hn & _).
  split; [exact Hn|]. exact (proj2 (Ht Incubator)).
Defined.

Lemma signal_leader_supported_witness :
  ∃ signal stats, SampleRanking.classified = Some signal
    ∧ compute_stats (H := key_order) (concat (tl_closed_trades <$> filter (λ l, tl_wallet l = SampleIndex.wallet 1) SampleRanking.uneven))
        (window_start 864000 180) 864000 = Some (Some stats)
    ∧ 0 < bps (cs_lcb_5pct_bps stats).
Proof.
  destruct SampleRanking.signal_classified as [signal Hs]. exists signal.
  destruct (signal_leader_supported (DM := QMaths) (HO := key_order) SampleRanking.config 864000 SampleRanking.uneven SampleRanking.day_ten
    SampleRanking.watchlist SampleRanking.incoming None SampleRanking.quality_full polymarket SignalConfig_default signal
    SampleRanking.day_ten_unix SampleRanking.watchlist_built Hs) as (_ & stats & Hc & _ & _ & Hl & _).
  exists stats. split; [exact Hs|]. split; [exact Hc|exact Hl].
Defined.
