(* ===== verification/Bytes.v ===== *)
(** * Fixed-width byte encodings

    [to_le_bytes]/[to_be_bytes] of the standard library's integers, their
    inverses, and the third-party BLAKE3 hash as an interface.  A byte is a [Z]
    in [0, 255]; a byte string is a [list Z]. *)

From S2P Require Import Prelude CoreTypes.
#[local] Open Scope Z_scope.

(** ** Little- and big-endian integers *)

Fixpoint le_bytes (n : nat) (z : Z) : list Z :=
  match n with
  | O => []
  | S n => z mod 256 :: le_bytes n (z / 256)
  end.
Fixpoint le_decode (bs : list Z) : Z :=
  match bs with
  | [] => 0
  | b :: bs => b + 256 * le_decode bs
  end.
Definition be_bytes (n : nat) (z : Z) : list Z := reverse (le_bytes n z).

Lemma length_le_bytes n z : length (le_bytes n z) = n.
Proof. revert z. induction n as [|n IH]; intros z; simpl; [done|]. by rewrite IH. Qed.

Lemma length_be_bytes n z : length (be_bytes n z) = n.
Proof. unfold be_bytes. by rewrite length_reverse, length_le_bytes. Qed.

Lemma le_bytes_u8 n z : Forall is_u8 (le_bytes n z).
Proof.
  revert z. induction n as [|n IH]; intros z; simpl; constructor; [|done].
  unfold is_u8, U8_MAX. pose proof (Z.mod_pos_bound z 256). lia.
Qed.

Lemma le_decode_bytes n z : 0 ≤ z < 256 ^ Z.of_nat n → le_decode (le_bytes n z) = z.
Proof.
  revert z. induction n as [|n IH]; intros z Hz; simpl.
  - simpl in Hz. lia.
  - rewrite Nat2Z.inj_succ, Z.pow_succ_r in Hz by lia.
    rewrite IH; [pose proof (Z.div_mod z 256); lia|].
    split; [apply Z.div_pos; lia|apply Z.div_lt_upper_bound; lia].
Qed.

Lemma le_decode_bound bs : Forall is_u8 bs → 0 ≤ le_decode bs < 256 ^ Z.of_nat (length bs).
Proof.
  induction 1 as [|b bs Hb Hbs IH]; simpl; [lia|].
  unfold is_u8, U8_MAX in Hb. rewrite Nat2Z.inj_succ, Z.pow_succ_r by lia. lia.
Qed.

Lemma le_bytes_inj n x y :
  0 ≤ x < 256 ^ Z.of_nat n → 0 ≤ y < 256 ^ Z.of_nat n → le_bytes n x = le_bytes n y → x = y.
Proof. intros Hx Hy H. by rewrite <- (le_decode_bytes n x), <- (le_decode_bytes n y), H. Qed.

Lemma be_bytes_inj n x y :
  0 ≤ x < 256 ^ Z.of_nat n → 0 ≤ y < 256 ^ Z.of_nat n → be_bytes n x = be_bytes n y → x = y.
Proof. unfold be_bytes. intros Hx Hy H%(inj reverse). by apply (le_bytes_inj n). Qed.

(** ** Strings as bytes *)

Lemma string_bytes_inj s t : string_bytes s = string_bytes t → s = t.
Proof.
  revert t. induction s as [|c s IH]; intros [|d t]; simpl; try done.
  intros [= Hc Hs]. f_equal; [|by apply IH].
  unfold ascii_byte in Hc. rewrite <- (ascii_N_embedding c), <- (ascii_N_embedding d).
  f_equal. lia.
Qed.

Lemma length_string_bytes s : length (string_bytes s) = String.length s.
Proof. induction s as [|c s IH]; simpl; [done|]. by rewrite IH. Qed.

Lemma string_app_inj p s t : p +:+ s = p +:+ t → s = t.
Proof. induction p as [|c p IH]; [done|]. intros [= H]. by apply IH. Qed.

Lemma hex_string_inj x y : Forall is_u8 x → Forall is_u8 y → hex_string x = hex_string y → x = y.
Proof.
  intros Hx Hy H. apply (f_equal (λ s, from_hex_chunks 0 (string_bytes s))) in H.
  rewrite !from_hex_chunks_hex_string in H by done. by injection H.
Qed.

Lemma wallet_to_string_inj v w :
  wallet_wf v → wallet_wf w → wallet_to_string v = wallet_to_string w → v = w.
Proof.
  intros [_ Hv] [_ Hw] H%string_app_inj. apply hex_string_inj in H; [|done|done].
  destruct v, w. by simpl in *; subst.
Qed.

(** ** BLAKE3

    A 32-byte digest of a byte string; [Hasher::update] appends to the input and
    [finalize] hashes what was appended. *)
Record Hash := { hash_bytes : list Z }.
#[export] Instance Hash_eq_dec : EqDecision Hash.
Proof. solve_decision. Defined.
Definition hash_wf (h : Hash) : Prop := length (hash_bytes h) = 32%nat ∧ Forall is_u8 (hash_bytes h).
Definition to_hex (h : Hash) : string := hex_string (hash_bytes h).

Class Blake3 := { blake3 : list Z → Hash }.
Class Blake3Laws `{B3 : Blake3} : Prop := { blake3_wf bs : hash_wf (blake3 bs) }.

(** [x] and [y] are a collision: different inputs with one digest. *)
Definition blake3_collides `{B3 : Blake3} (x y : list Z) : Prop := x ≠ y ∧ blake3 x = blake3 y.

Lemma to_hex_inj g h : hash_wf g → hash_wf h → to_hex g = to_hex h → g = h.
Proof.
  intros [_ Hg] [_ Hh] H%hex_string_inj; [|done|done]. destruct g, h. by simpl in *; subst.
Qed.

(** A stand-in digest for evaluation: the little-endian bytes of a polynomial
    checksum of the input. *)
#[export] Instance ToyBlake3 : Blake3 := {|
  blake3 bs := {| hash_bytes := le_bytes 32 (foldl (λ acc b, (acc * 257 + b + 1) mod 4294967296) 7 bs) |}
|}.
#[export] Instance ToyBlake3_laws : Blake3Laws.
Proof. split. intros bs. split; [apply length_le_bytes|apply le_bytes_u8]. Qed.
