(* ===== verification/Activity.v ===== *)
(** * Public-activity identity and aggregation
      (crates/source-polymarket-public, [activity.rs])

    Activity types, the canonical byte encoding behind a version-two group key,
    the semantic row encoding, and the aggregation of the rows of one complete
    response into [ActivityAggregate]s. *)

From S2P Require Import Prelude CoreTypes Bytes.
#[local] Open Scope Z_scope.

(** ** Activity types *)
Inductive ActivityType : Type :=
| ActTrade | ActSplit | ActMerge | ActRedeem | ActReward | ActConversion | ActDeposit
| ActWithdrawal | ActYield | ActMakerRebate | ActTakerRebate | ActReferralReward
| ActUnknown (value : string).
#[export] Instance ActivityType_eq_dec : EqDecision ActivityType.
Proof. solve_decision. Defined.

Definition activity_type_str (t : ActivityType) : string :=
  match t with
  | ActTrade => "TRADE" | ActSplit => "SPLIT" | ActMerge => "MERGE" | ActRedeem => "REDEEM"
  | ActReward => "REWARD" | ActConversion => "CONVERSION" | ActDeposit => "DEPOSIT"
  | ActWithdrawal => "WITHDRAWAL" | ActYield => "YIELD" | ActMakerRebate => "MAKER_REBATE"
  | ActTakerRebate => "TAKER_REBATE" | ActReferralReward => "REFERRAL_REWARD"
  | ActUnknown value => value
  end.

Definition activity_type_from (value : string) : ActivityType :=
  if decide (value = "TRADE") then ActTrade
  else if decide (value = "SPLIT") then ActSplit
  else if decide (value = "MERGE") then ActMerge
  else if decide (value = "REDEEM") then ActRedeem
  else if decide (value = "REWARD") then ActReward
  else if decide (value = "CONVERSION") then ActConversion
  else if decide (value = "DEPOSIT") then ActDeposit
  else if decide (value = "WITHDRAWAL") then ActWithdrawal
  else if decide (value = "YIELD") then ActYield
  else if decide (value = "MAKER_REBATE") then ActMakerRebate
  else if decide (value = "TAKER_REBATE") then ActTakerRebate
  else if decide (value = "REFERRAL_REWARD") then ActReferralReward
  else ActUnknown value.

Definition is_position_changing (t : ActivityType) : bool :=
  match t with
  | ActTrade | ActSplit | ActMerge | ActRedeem | ActConversion => true
  | _ => false
  end.
Definition is_raw_only (t : ActivityType) : bool :=
  match t with
  | ActReward | ActDeposit | ActWithdrawal | ActYield | ActMakerRebate | ActTakerRebate
  | ActReferralReward => true
  | _ => false
  end.
Definition type_requires_wallet_fence (t : ActivityType) : bool :=
  match t with ActConversion | ActUnknown _ => true | _ => false end.

(** ** Canonical components of a version-two group key *)
Record SourceActivityGroupComponents := {
  c_activity_type : ActivityType;
  c_wallet : WalletAddress;
  c_transaction_hash : string;
  c_condition_id : option PolymarketConditionId;
  c_asset : option PolymarketTokenId;
  c_outcome : option OutcomeId;
  c_side : option Side
}.
#[export] Instance SourceActivityGroupComponents_eq_dec :
  EqDecision SourceActivityGroupComponents.
Proof. solve_decision. Defined.

Inductive ActivityIdentityError : Type :=
| ComponentTooLong
| ComponentMismatch (stored derived : string).
#[export] Instance ActivityIdentityError_eq_dec : EqDecision ActivityIdentityError.
Proof. solve_decision. Defined.

(** [CanonicalEncoder]: every field is a presence byte, a big-endian [u64]
    length and the bytes. *)
Definition length_prefixed (value : list Z) : result ActivityIdentityError (list Z) :=
  let len := Z.of_nat (length value) in
  if U64_MAX <? len then Err ComponentTooLong else Ok (be_bytes 8 len ++ value).
Definition present (bytes value : list Z) : result ActivityIdentityError (list Z) :=
  lp ← length_prefixed value; Ok (bytes ++ 1 :: lp).
Definition optional (bytes : list Z) (value : option (list Z)) :
    result ActivityIdentityError (list Z) :=
  match value with
  | Some value => present bytes value
  | None => Ok (bytes ++ 0 :: be_bytes 8 0)
  end.

Definition side_bytes (side : Side) : list Z :=
  match side with Buy => string_bytes "BUY" | Sell => string_bytes "SELL" end.

Definition ACTIVITY_GROUP_DOMAIN : list Z :=
  string_bytes "prediction-edge/source-polymarket-public/activity-group/v2" ++ [0].
Definition ACTIVITY_REVISION_DOMAIN : list Z :=
  string_bytes "prediction-edge/source-polymarket-public/activity-semantic-revision/v2" ++ [0].

Definition canonical_group_components (components : SourceActivityGroupComponents) :
    result ActivityIdentityError (list Z) :=
  e ← present [] ACTIVITY_GROUP_DOMAIN;
  e ← present e (string_bytes (activity_type_str (c_activity_type components)));
  e ← present e (string_bytes (wallet_to_string (c_wallet components)));
  e ← present e (string_bytes (c_transaction_hash components));
  e ← optional e (string_bytes ∘ condition_id_str <$> c_condition_id components);
  e ← optional e (string_bytes ∘ token_id_str <$> c_asset components);
  e ← optional e (be_bytes 2 ∘ outcome_index <$> c_outcome components);
  optional e (side_bytes <$> c_side components).

Record SourceActivityGroupId := {
  group_key : SourceTradeId;
  group_components : SourceActivityGroupComponents
}.
#[export] Instance SourceActivityGroupId_eq_dec : EqDecision SourceActivityGroupId.
Proof. solve_decision. Defined.
(** [Display] is the key. *)
Definition group_to_string (g : SourceActivityGroupId) : string := source_trade_id (group_key g).

Section Identity.
Context `{B3 : Blake3}.

Definition derive (components : SourceActivityGroupComponents) :
    result ActivityIdentityError SourceActivityGroupId :=
  canonical ← canonical_group_components components;
  Ok {| group_key := {| source_trade_id := "g2:" +:+ to_hex (blake3 canonical) |};
        group_components := components |}.

Definition verify_components (g : SourceActivityGroupId) : result ActivityIdentityError unit :=
  derived ← derive (group_components g);
  if decide (group_key derived = group_key g) then Ok tt
  else Err (ComponentMismatch (source_trade_id (group_key g))
              (source_trade_id (group_key derived))).

End Identity.

(** ** Rows and aggregates *)
Inductive ActivityTransport : Type := Rest | ActivityWebsocket | Replay.

Inductive ActivityRowAnomalyKind : Type :=
| PriceOutOfRange | UnmappedOutcome | UnrepresentableDecimal.

(** Lowercase BLAKE3 hash over one complete group multiset. *)
Record ActivitySemanticRevision := { revision : string }.
#[export] Instance ActivitySemanticRevision_eq_dec : EqDecision ActivitySemanticRevision.
Proof. solve_decision. Defined.

Inductive ActivityRevisionComparison : Type := RevEqual | RevChanged | RevDifferentGroup.

Section Aggregation.
Context `{DO : DecimalOps} `{TO : TimeOps} `{B3 : Blake3}.

Record NormalizedActivity := {
  row_activity_type : ActivityType;
  row_source_id : string;
  row_wallet : WalletAddress;
  row_transaction_hash : string;
  row_condition_id : option PolymarketConditionId;
  row_asset : option PolymarketTokenId;
  row_outcome : option OutcomeId;
  row_side : option Side;
  row_price : Price;
  row_share_amount : ShareAmount;
  row_source_usdc_amount : CollateralAmount;
  row_is_combo : bool;
  row_source_time : SourceTimestamp;
  row_observed_at : SourceTimestamp;
  row_received_at : ReceivedAt;
  row_raw_row_hash : string;
  row_raw_row_json : string;
  row_parser_version : Z;
  row_schema_version : Z;
  row_transport : ActivityTransport
}.

Record ActivityRowAnomaly := {
  an_row_index : Z;
  an_kind : ActivityRowAnomalyKind;
  an_field : string;
  an_wallet : WalletAddress;
  an_source_time : SourceTimestamp;
  an_activity_type : ActivityType;
  an_transaction_hash : string;
  an_condition_id : option PolymarketConditionId;
  an_asset : option PolymarketTokenId;
  an_side : option Side;
  an_is_combo : bool;
  an_raw_row_hash : string
}.

Record ActivityAggregate := {
  group_id : SourceActivityGroupId;
  row_count : Z;
  share_sum : ShareAmount;
  price_weighted_share_sum : Decimal;
  source_usdc_sum : CollateralAmount;
  source_time : SourceTimestamp;
  is_combo : bool;
  semantic_revision : ActivitySemanticRevision
}.

Inductive ActivityAggregationError : Type :=
| IdentityError (e : ActivityIdentityError)
| CausalAmbiguity (group_id : string) (expected actual : Z)
| MixedComboState (group_id : string)
| EmptyGroup (group_id : string)
| AmountOverflow (group_id : string)
| PriceWeightedSumOverflow (group_id : string)
| ZeroShareSum (group_id : string)
| InvalidWeightedPrice (group_id : string) (value : Decimal).

Definition row_group_id (row : NormalizedActivity) :
    result ActivityIdentityError SourceActivityGroupId :=
  derive {| c_activity_type := row_activity_type row;
            c_wallet := row_wallet row;
            c_transaction_hash := row_transaction_hash row;
            c_condition_id := row_condition_id row;
            c_asset := row_asset row;
            c_outcome := row_outcome row;
            c_side := row_side row |}.

Definition row_requires_wallet_fence (row : NormalizedActivity) : bool :=
  match row_activity_type row with
  | ActConversion => bool_decide (row_share_amount row ≠ amount_ZERO)
  | other => type_requires_wallet_fence other
  end.

Definition is_ordinary_position_change (row : NormalizedActivity) : bool :=
  bool_decide (row_share_amount row ≠ amount_ZERO)
  && is_position_changing (row_activity_type row)
  && negb (type_requires_wallet_fence (row_activity_type row))
  && negb (row_is_combo row).

(** Exact volume-weighted price of a complete aggregate. *)
Definition volume_weighted_price (agg : ActivityAggregate) :
    result ActivityAggregationError Price :=
  let id := group_to_string (group_id agg) in
  if decide (share_sum agg = amount_ZERO) then Err (ZeroShareSum id)
  else
    value ← ok_or (dec_checked_div (price_weighted_share_sum agg) (to_decimal (share_sum agg)))
              (PriceWeightedSumOverflow id);
    map_err (λ _, InvalidWeightedPrice id value) (Price_new value).

Definition semantically_equal (a b : ActivityAggregate) : bool :=
  bool_decide (group_id a = group_id b)
  && bool_decide (semantic_revision a = semantic_revision b).

Definition compare_revision (a b : ActivityAggregate) : ActivityRevisionComparison :=
  if decide (group_id a ≠ group_id b) then RevDifferentGroup
  else if decide (semantic_revision a = semantic_revision b) then RevEqual
  else RevChanged.

(** *** Semantic revision *)

Definition encode_effect_components (e : list Z) (row : NormalizedActivity) :
    result ActivityIdentityError (list Z) :=
  e ← optional e (string_bytes ∘ condition_id_str <$> row_condition_id row);
  e ← optional e (string_bytes ∘ token_id_str <$> row_asset row);
  e ← optional e (be_bytes 2 ∘ outcome_index <$> row_outcome row);
  optional e (side_bytes <$> row_side row).

Definition semantic_row_encoding (row : NormalizedActivity) :
    result ActivityIdentityError (list Z) :=
  e ← present [] (be_bytes 8 (unix_timestamp (source_timestamp (row_source_time row))));
  e ← present e (be_bytes 8 (atomic (row_share_amount row)));
  e ← present e (string_bytes (dec_normalized_string (price_value (row_price row))));
  e ← present e (string_bytes (if row_is_combo row then "combo" else "ordinary"));
  match row_activity_type row with
  | ActTrade => e ← present e (string_bytes "trade"); encode_effect_components e row
  | ActSplit => e ← present e (string_bytes "split"); encode_effect_components e row
  | ActMerge => e ← present e (string_bytes "merge"); encode_effect_components e row
  | ActRedeem => e ← present e (string_bytes "redeem"); encode_effect_components e row
  | ActConversion => e ← present e (string_bytes "conversion"); encode_effect_components e row
  | ActReward | ActDeposit | ActWithdrawal | ActYield | ActMakerRebate | ActTakerRebate
  | ActReferralReward => present e (string_bytes "raw_only")
  | ActUnknown _ => e ← present e (string_bytes "unknown"); encode_effect_components e row
  end.

(** [hash_component]: the bytes a length-prefixed component adds to the hasher. *)
Definition hash_component (h bytes : list Z) : result ActivityIdentityError (list Z) :=
  lp ← length_prefixed bytes; Ok (h ++ lp).

(** Bytewise lexicographic order of [Vec<u8>]. *)
Fixpoint bytes_leb (x y : list Z) : bool :=
  match x, y with
  | [], _ => true
  | _ :: _, [] => false
  | a :: x, b :: y => match a ?= b with Lt => true | Gt => false | Eq => bytes_leb x y end
  end.

Definition derive_semantic_revision (g : SourceActivityGroupId)
    (members : list NormalizedActivity) : result ActivityAggregationError ActivitySemanticRevision :=
  encodings ← map_err IdentityError (try_map semantic_row_encoding members);
  h ← map_err IdentityError
        (h ← hash_component ACTIVITY_REVISION_DOMAIN (string_bytes (source_trade_id (group_key g)));
         h ← hash_component h (be_bytes 8 (Z.of_nat (length members)));
         try_fold hash_component h (sort_by bytes_leb encodings));
  Ok {| revision := to_hex (blake3 h) |}.

(** *** Aggregating one group *)

(** What two listings of a transaction's fills must share to be copies. *)
Definition RowContent : Type := Z * Price * Z * bool.
Definition row_content (row : NormalizedActivity) : RowContent :=
  (atomic (row_share_amount row), row_price row, atomic (row_source_usdc_amount row),
   row_is_combo row).

Definition bool_cmp (a b : bool) : comparison :=
  match a, b with
  | false, true => Lt
  | true, false => Gt
  | _, _ => Eq
  end.
Definition content_cmp (x y : RowContent) : comparison :=
  let '(s1, p1, u1, c1) := x in
  let '(s2, p2, u2, c2) := y in
  match s1 ?= s2 with
  | Eq => match dec_cmp (price_value p1) (price_value p2) with
          | Eq => match u1 ?= u2 with Eq => bool_cmp c1 c2 | c => c end
          | c => c
          end
  | c => c
  end.
Definition content_leb (x y : RowContent) : bool :=
  match content_cmp x y with Gt => false | _ => true end.

(** [Vec] equality of two sorted contents. *)
Fixpoint content_eqb (x y : list RowContent) : bool :=
  match x, y with
  | [], [] => true
  | a :: x, b :: y => match content_cmp a b with Eq => content_eqb x y | _ => false end
  | _, _ => false
  end.

Definition listing_content (rows : list NormalizedActivity) : list RowContent :=
  sort_by content_leb (row_content <$> rows).

(** [entry(t).or_default().push(row)] on the [BTreeMap] of listings. *)
Definition listing_push (m : list (Z * list NormalizedActivity)) (row : NormalizedActivity) :
    list (Z * list NormalizedActivity) :=
  let t := unix_timestamp (source_timestamp (row_source_time row)) in
  bt_insert t (default [] (bt_get t m) ++ [row]) m.

Definition earliest_listing (g : SourceActivityGroupId) (members : list NormalizedActivity) :
    result ActivityAggregationError (list NormalizedActivity) :=
  match foldl listing_push [] members with
  | [] => Err (EmptyGroup (group_to_string g))
  | (expected, earliest) :: listings =>
      _ ← try_fold (λ _ '(actual, rows),
             if content_eqb (listing_content rows) (listing_content earliest) then Ok tt
             else Err (CausalAmbiguity (group_to_string g) expected actual)) tt listings;
      Ok earliest
  end.

(** The running sums of the aggregation loop. *)
Record GroupSums := {
  sum_shares : ShareAmount;
  sum_usdc : CollateralAmount;
  sum_weighted : Decimal
}.

Definition add_member (g : SourceActivityGroupId) (combo : bool) (s : GroupSums)
    (member : NormalizedActivity) : result ActivityAggregationError GroupSums :=
  let id := group_to_string g in
  if negb (eqb (row_is_combo member) combo) then Err (MixedComboState id)
  else
    shares ← map_err (λ _, AmountOverflow id)
               (share_checked_add (sum_shares s) (row_share_amount member));
    usdc ← map_err (λ _, AmountOverflow id)
             (collateral_checked_add (sum_usdc s) (row_source_usdc_amount member));
    weighted ← ok_or (dec_checked_mul (to_decimal (row_share_amount member))
                        (price_value (row_price member)))
                 (PriceWeightedSumOverflow id);
    total ← ok_or (dec_checked_add (sum_weighted s) weighted) (PriceWeightedSumOverflow id);
    Ok {| sum_shares := shares; sum_usdc := usdc; sum_weighted := total |}.

Definition aggregate_group (g : SourceActivityGroupId) (members : list NormalizedActivity) :
    result ActivityAggregationError ActivityAggregate :=
  match members with
  | [] => Err (EmptyGroup (group_to_string g))
  | first :: _ =>
      count ← ok_or (fits 0 U64_MAX (Z.of_nat (length members)))
                (AmountOverflow (group_to_string g));
      listing ← (if forallb (λ m, bool_decide (row_source_time m = row_source_time first)) members
                 then Ok members else earliest_listing g members);
      match listing with
      | [] => Err (EmptyGroup (group_to_string g))
      | first :: _ =>
          sums ← try_fold (add_member g (row_is_combo first))
                   {| sum_shares := amount_ZERO; sum_usdc := amount_ZERO;
                      sum_weighted := dec_ZERO |} listing;
          rev ← derive_semantic_revision g listing;
          Ok {| group_id := g;
                row_count := count;
                share_sum := sum_shares sums;
                price_weighted_share_sum := sum_weighted sums;
                source_usdc_sum := sum_usdc sums;
                source_time := row_source_time first;
                is_combo := row_is_combo first;
                semantic_revision := rev |}
      end
  end.

(** *** Grouping the rows of one complete response

    [entry(group_id).or_default().push(row)]; the groups are then sorted by key. *)
Fixpoint group_push (g : SourceActivityGroupId) (row : NormalizedActivity)
    (groups : list (SourceActivityGroupId * list NormalizedActivity)) :
    list (SourceActivityGroupId * list NormalizedActivity) :=
  match groups with
  | [] => [(g, [row])]
  | (g', rows) :: groups =>
      if decide (g' = g) then (g', rows ++ [row]) :: groups
      else (g', rows) :: group_push g row groups
  end.

Definition group_rows (rows : list NormalizedActivity) :
    result ActivityIdentityError (list (SourceActivityGroupId * list NormalizedActivity)) :=
  try_fold (λ groups row, g ← row_group_id row; Ok (group_push g row groups)) [] rows.

Definition aggregate_activity_rows (rows : list NormalizedActivity) :
    result ActivityAggregationError (list ActivityAggregate) :=
  groups ← map_err IdentityError (group_rows rows);
  try_map (λ '(g, members), aggregate_group g members)
    (sort_by (λ x y, leb_of (source_trade_id (group_key x.1)) (source_trade_id (group_key y.1)))
       groups).

End Aggregation.

(** ** The canonical encoding identifies the group *)

(** One encoded field: presence byte, length, bytes. *)
Definition field_bytes (value : option (list Z)) : list Z :=
  match value with
  | Some v => 1 :: be_bytes 8 (Z.of_nat (length v)) ++ v
  | None => 0 :: be_bytes 8 0
  end.
Definition field_wf (value : option (list Z)) : Prop :=
  ∀ v, value = Some v → Z.of_nat (length v) ≤ U64_MAX.

Lemma optional_Ok e v e' : optional e v = Ok e' ↔ e' = e ++ field_bytes v ∧ field_wf v.
Proof.
  unfold optional, present, length_prefixed, field_wf. destruct v as [v|]; simpl.
  - destruct (U64_MAX <? Z.of_nat (length v)) eqn:E; simpl.
    + split; [done|]. intros [_ H]. specialize (H v eq_refl). rust.
    + split; [intros [= <-]; split; [done|intros ? [= <-]; rust]|]. by intros [-> _].
  - split; [intros [= <-]; done|]. by intros [-> _].
Qed.

Lemma field_bytes_app_inj v w x y : field_wf v → field_wf w →
  field_bytes v ++ x = field_bytes w ++ y → v = w ∧ x = y.
Proof.
  unfold field_wf. destruct v as [v|], w as [w|]; intros Hv Hw H; try done.
  - apply (f_equal tail) in H. cbn [field_bytes tail app] in H. rewrite <- !app_assoc in H. apply app_inj_1 in H as [Hl H]; [|by rewrite !length_be_bytes].
    apply be_bytes_inj in Hl; 
      [|specialize (Hv v eq_refl); specialize (Hw w eq_refl); unfold U64_MAX in *;
        change (256 ^ Z.of_nat 8) with 18446744073709551616; lia..].
    apply app_inj_1 in H as [-> ->]; [done|lia].
  - split; [done|]. by apply app_inv_head in H.
Qed.

Arguments optional : simpl never.
Arguments present : simpl never.

(** The eight fields of a group, in encoding order. *)
Definition component_fields (c : SourceActivityGroupComponents) : list (option (list Z)) :=
  [Some ACTIVITY_GROUP_DOMAIN;
   Some (string_bytes (activity_type_str (c_activity_type c)));
   Some (string_bytes (wallet_to_string (c_wallet c)));
   Some (string_bytes (c_transaction_hash c));
   string_bytes ∘ condition_id_str <$> c_condition_id c;
   string_bytes ∘ token_id_str <$> c_asset c;
   be_bytes 2 ∘ outcome_index <$> c_outcome c;
   side_bytes <$> c_side c].

Lemma try_fold_optional fs e b :
  try_fold optional e fs = Ok b ↔ b = e ++ mjoin (field_bytes <$> fs) ∧ Forall field_wf fs.
Proof.
  revert e. induction fs as [|f fs IH]; intros e; csimpl.
  { rewrite app_nil_r. split; [intros [= <-]; by split|by intros [-> _]]. }
  rewrite result_bind_Ok, Forall_cons. setoid_rewrite optional_Ok. setoid_rewrite IH.
  rewrite app_assoc. naive_solver.
Qed.

Lemma canonical_group_components_fold c :
  canonical_group_components c = try_fold optional [] (component_fields c).
Proof.
  unfold canonical_group_components, component_fields. cbn [try_fold].
  change present with (λ e v, optional e (Some v)). cbv beta.
  repeat match goal with
    | |- optional ?e ?v ≫= _ = _ => destruct (optional e v) as [?|?]; cbn; [|done]
    end.
  match goal with |- optional ?e ?v = _ => by destruct (optional e v) end.
Qed.

Lemma fields_inj fs gs : length fs = length gs → Forall field_wf fs → Forall field_wf gs →
  mjoin (field_bytes <$> fs) = mjoin (field_bytes <$> gs) → fs = gs.
Proof.
  revert gs. induction fs as [|f fs IH]; intros [|g gs] Hl Hf Hg; csimpl; try done.
  apply Forall_cons in Hf as [? ?], Hg as [? ?]. intros E.
  apply field_bytes_app_inj in E as [-> E]; [|done|done]. f_equal. apply IH; [simpl in Hl; lia|done..].
Qed.

(** What the ingestion boundary guarantees of components: a type as parsed from
    its text, a 20-byte wallet, a [u16] outcome. *)
Definition components_wf (c : SourceActivityGroupComponents) : Prop :=
  activity_type_from (activity_type_str (c_activity_type c)) = c_activity_type c
  ∧ wallet_wf (c_wallet c)
  ∧ ∀ o, c_outcome c = Some o → is_u16 (outcome_index o).

Lemma activity_type_from_str s : activity_type_str (activity_type_from s) = s.
Proof. unfold activity_type_from. repeat (case_decide; [by subst|]). done. Qed.

Lemma activity_type_from_wf s :
  activity_type_from (activity_type_str (activity_type_from s)) = activity_type_from s.
Proof. by rewrite activity_type_from_str. Qed.

Lemma fmap_option_inj {A B} (f : A → B) (x y : option A) :
  (∀ a b, x = Some a → y = Some b → f a = f b → a = b) → f <$> x = f <$> y → x = y.
Proof. destruct x, y; simpl; intros Hf H; simplify_eq; try done. f_equal. by apply Hf. Qed.

Lemma cons_eq {A} (x y : A) l m : x :: l = y :: m → x = y ∧ l = m.
Proof. naive_solver. Qed.

Lemma component_fields_inj c d : components_wf c → components_wf d →
  component_fields c = component_fields d → c = d.
Proof.
  intros (Ht & Hw & Ho) (Ht' & Hw' & Ho') H. unfold component_fields in H.
  apply cons_eq in H as [_ H]. apply cons_eq in H as [H1%Some_inj H].
  apply cons_eq in H as [H2%Some_inj H]. apply cons_eq in H as [H3%Some_inj H].
  apply cons_eq in H as [H4 H]. apply cons_eq in H as [H5 H]. apply cons_eq in H as [H6 H].
  apply cons_eq in H as [H7 _].
  destruct c as [t w h cond asset o side], d as [t' w' h' cond' asset' o' side'];
    cbn [c_activity_type c_wallet c_transaction_hash c_condition_id c_asset c_outcome c_side] in *.
  apply string_bytes_inj in H1, H2, H3. apply wallet_to_string_inj in H2; [|done|done]. subst.
  f_equal; [congruence| | | |].
  - eapply fmap_option_inj; [|exact H4]. intros [] [] _ _ E%string_bytes_inj. by simpl in *; subst.
  - eapply fmap_option_inj; [|exact H5]. intros [] [] _ _ E%string_bytes_inj. by simpl in *; subst.
  - eapply fmap_option_inj; [|exact H6]. intros a b Ha Hb E.
    specialize (Ho a Ha). specialize (Ho' b Hb). unfold is_u16, U16_MAX in *.
    apply be_bytes_inj in E; [destruct a, b; by simpl in *; subst|simpl in *; lia..].
  - eapply fmap_option_inj; [|exact H7]. by intros [] [].
Qed.

Lemma component_bytes_same c d b : components_wf c → components_wf d →
  canonical_group_components c = Ok b → canonical_group_components d = Ok b → c = d.
Proof.
  intros Hc Hd. rewrite !canonical_group_components_fold, !try_fold_optional.
  intros [-> Hf] [E Hg]. apply component_fields_inj; [done|done|]. by apply fields_inj.
Qed.

Lemma hex_string_lower bs : Forall is_u8 bs → forallb is_lower_hex (string_bytes (hex_string bs)) = true.
Proof.
  assert (∀ n, 0 ≤ n < 16 → is_lower_hex (ascii_byte (hex_digit n)) = true) as Hd.
  { intros n Hn. assert (n ∈ seqZ 0 16) as Hin by (apply elem_of_seqZ; lia). clear Hn.
    revert n Hin. apply Forall_forall. repeat constructor. }
  induction 1 as [|b bs Hb Hbs IH]; [done|]. destruct (nibbles_byte b Hb) as (? & ? & _).
  cbn [hex_string string_bytes forallb]. by rewrite !Hd, IH by done.
Qed.

(** the canonical bytes behind a group key determine the group: two
    well-formed groups with the same encoding have the same components, field by
    field, present or absent. *)
Theorem canonical_encoding_injective c d b : components_wf c → components_wf d →
  canonical_group_components c = Ok b → canonical_group_components d = Ok b → c = d.
Proof. apply component_bytes_same. Qed.

Section IdentityFacts.
Context `{B3 : Blake3} {B3L : Blake3Laws}.

Lemma derive_Ok c g : derive c = Ok g ↔
  ∃ b, canonical_group_components c = Ok b
    ∧ g = {| group_key := {| source_trade_id := "g2:" +:+ to_hex (blake3 b) |};
             group_components := c |}.
Proof. unfold derive. rewrite result_bind_Ok. naive_solver. Qed.

(** version-two identity: a derived key verifies against its own components,
    is recognised as a reconciled version-two identifier, and two groups share a
    key only if they are the same group or their canonical encodings are an actual
    BLAKE3 collision. *)
Theorem group_key_identity c d gc gd : components_wf c → components_wf d →
  derive c = Ok gc → derive d = Ok gd →
  verify_components gc = Ok tt
  ∧ is_reconciled_v2 (group_key gc) = true
  ∧ (group_key gc = group_key gd → gc = gd
     ∨ ∃ b b', canonical_group_components c = Ok b ∧ canonical_group_components d = Ok b'
               ∧ blake3_collides b b').
Proof.
  intros Hc Hd Hgc Hgd. pose proof Hgc as (b & Hb & ->)%derive_Ok. pose proof Hgd as (b' & Hb' & ->)%derive_Ok.
  split_and!.
  - unfold verify_components. simpl. rewrite Hgc. simpl. by rewrite decide_True.
  - unfold is_reconciled_v2, identity_version. cbn [source_trade_id group_key].
    destruct (blake3_wf b) as [Hl H8].
    rewrite strip_prefix_app, (bool_decide_eq_true_2 (String.length _ = _)).
    2:{ change (3 + String.length (to_hex (blake3 b)) = 67)%nat. unfold to_hex.
        rewrite length_hex_string, Hl. done. }
    unfold to_hex. by rewrite hex_string_lower.
  - simpl. intros [= E%string_app_inj]. apply to_hex_inj in E; [|apply blake3_wf|apply blake3_wf].
    destruct (decide (b = b')) as [->|Hn]; [left|right; by exists b, b'].
    f_equal. exact (component_bytes_same c d b' Hc Hd Hb Hb').
Qed.

End IdentityFacts.

(** ** Aggregation counts every fill once *)
Lemma derive_verifies `{B3 : Blake3} c g : derive c = Ok g → verify_components g = Ok tt.
Proof.
  intros Hg. pose proof Hg as (b & _ & ->)%derive_Ok. unfold verify_components. simpl.
  rewrite Hg. simpl. by rewrite decide_True.
Qed.

Section AggregationFacts.
Context `{DO : DecimalOps} `{TO : TimeOps} `{B3 : Blake3}.

Definition row_second (row : NormalizedActivity) : Z :=
  unix_timestamp (source_timestamp (row_source_time row)).
Definition share_total (rows : list NormalizedActivity) : Z :=
  foldr (λ r z, atomic (row_share_amount r) + z) 0 rows.
Definition usdc_total (rows : list NormalizedActivity) : Z :=
  foldr (λ r z, atomic (row_source_usdc_amount r) + z) 0 rows.
Definition rows_at (t : Z) (rows : list NormalizedActivity) : list NormalizedActivity :=
  filter (λ r, row_second r = t) rows.

Lemma share_total_perm l l' : l ≡ₚ l' → share_total l = share_total l'.
Proof. induction 1; simpl; lia. Qed.

Lemma listings_spec rows :
  bt_wf (foldl listing_push [] rows)
  ∧ ∀ t, bt_get t (foldl listing_push [] rows)
         = match rows_at t rows with [] => None | l => Some l end.
Proof.
  induction rows as [|r rows [Hwf IH]] using rev_ind; [split; [constructor|done]|].
  rewrite foldl_app. cbn [foldl]. unfold listing_push at 1 3.
  change (unix_timestamp (source_timestamp (row_source_time r))) with (row_second r).
  split; [by apply bt_insert_wf|]. intros t. unfold rows_at in *. rewrite bt_get_insert, filter_app by done.
  case_decide as E.
  - subst t. rewrite IH, (filter_cons_True _ r) by done. simpl.
    destruct (filter _ rows); simpl; done.
  - rewrite IH, (filter_cons_False _ r) by done. simpl. by rewrite app_nil_r.
Qed.

Lemma content_eqb_shares x y : content_eqb x y = true →
  foldr (λ c z, c.1.1.1 + z) 0 x = foldr (λ c z, c.1.1.1 + z) 0 y.
Proof.
  revert y. induction x as [|[[[s p] u] b] x IH]; intros [|[[[s' p'] u'] b'] y]; simpl; try done.
  destruct (s ?= s') eqn:E; try done. apply Z.compare_eq in E as ->.
  intros H. f_equal. apply IH. by repeat case_match.
Qed.

Lemma listing_content_shares rows :
  foldr (λ c z, c.1.1.1 + z) 0 (listing_content rows) = share_total rows.
Proof.
  unfold listing_content.
  assert (∀ l l' : list RowContent, l ≡ₚ l' →
    foldr (λ c z, c.1.1.1 + z) 0 l = foldr (λ c z, c.1.1.1 + z) 0 l') as Hp
    by (induction 1; simpl; lia).
  rewrite (Hp _ _ (sort_by_perm content_leb _)). induction rows as [|r rows IH]; csimpl; [done|].
  by rewrite IH.
Qed.

(** A repeated listing: the earliest second's rows, with every other second a copy. *)
Lemma earliest_listing_Ok g members listing : earliest_listing g members = Ok listing →
  listing ≠ [] ∧ (∃ t0, listing = rows_at t0 members ∧ ∀ r, r ∈ members → t0 ≤ row_second r)
  ∧ ∀ r, r ∈ members → share_total (rows_at (row_second r) members) = share_total listing.
Proof.
  unfold earliest_listing. destruct (listings_spec members) as [Hwf Hget].
  destruct (foldl listing_push [] members) as [|[t0 earliest] ls] eqn:El; [done|].
  intros H. apply result_bind_Ok in H as ([] & Hcopies & [= <-]).
  assert (earliest ≠ [] ∧ earliest = rows_at t0 members) as [Hne He].
  { specialize (Hget t0). simpl in Hget. rewrite Z.compare_refl in Hget.
    by destruct (rows_at t0 members); simplify_eq. }
  assert (∀ r, r ∈ members → ∃ l, (row_second r, l) ∈ (t0, earliest) :: ls
    ∧ l = rows_at (row_second r) members) as Hcov.
  { intros r Hr. specialize (Hget (row_second r)).
    assert (r ∈ rows_at (row_second r) members) as Hin by (by apply list_elem_of_filter).
    destruct (rows_at (row_second r) members) as [|x l]; [set_solver|].
    apply bt_elem_get in Hget. eauto. }
  split_and!; [done| |].
  - exists t0. split; [done|]. intros r Hr. destruct (Hcov r Hr) as (l & Hl & _).
    apply elem_of_cons in Hl as [[= -> _]|Hl]; [done|].
    unfold bt_wf in Hwf. csimpl in Hwf. inversion Hwf as [|? ? _ Hlt]; subst.
    rewrite Forall_forall in Hlt. specialize (Hlt (row_second r)). simpl in Hlt.
    rewrite Z.compare_lt_iff in Hlt. apply Z.lt_le_incl, Hlt, list_elem_of_fmap. by eexists (_, _).
  - intros r Hr. destruct (Hcov r Hr) as (l & Hl & <-).
    apply elem_of_cons in Hl as [[= _ ->]|Hl]; [done|].
    clear -Hcopies Hl. induction ls as [|[t rows] ls IH]; [set_solver|]. cbn [try_fold] in Hcopies.
    destruct (content_eqb (listing_content rows) (listing_content earliest)) eqn:E; [|done].
    simpl in Hcopies. apply elem_of_cons in Hl as [[= _ ->]|Hl]; [|by apply IH].
    apply content_eqb_shares in E. by rewrite !listing_content_shares in E.
Qed.

Lemma add_members_Ok g combo rows s s' : try_fold (add_member g combo) s rows = Ok s' →
  atomic (sum_shares s') = atomic (sum_shares s) + share_total rows
  ∧ atomic (sum_usdc s') = atomic (sum_usdc s) + usdc_total rows
  ∧ Forall (λ r, row_is_combo r = combo) rows
  ∧ (amount_wf (sum_shares s) → amount_wf (sum_shares s')).
Proof.
  revert s. induction rows as [|r rows IH]; intros s; simpl.
  { intros [= <-]. split_and!; [lia|lia|constructor|done]. }
  intros H. apply result_bind_Ok in H as (s1 & H1 & H2). apply IH in H2 as (-> & -> & ? & Hwf).
  unfold add_member in H1. destruct (negb _) eqn:Ec; [done|]. inv_bind.
  unfold share_checked_add, collateral_checked_add in *.
  rewrite amount_checked_add_Ok in *. destruct_and?. subst. simpl in *.
  split_and!; [lia|lia| |].
  - constructor; [|done]. apply negb_false_iff in Ec. by apply eqb_prop.
  - intros _. by apply Hwf.
Qed.

(** aggregating one group never loses or double-counts a fill: the sums are
    exact over the counted listing, the amount stays a [u64], and when the group
    is listed under several timestamps each listed second sums to the same shares,
    so counting the earliest one counts the transaction once. *)
Theorem aggregate_group_counts_once g members agg :
  aggregate_group g members = Ok agg →
  group_id agg = g ∧ row_count agg = Z.of_nat (length members) ∧ amount_wf (share_sum agg)
  ∧ (∃ listing, listing ≠ [] ∧ (∀ r, r ∈ listing → r ∈ members ∧ row_is_combo r = is_combo agg)
       ∧ atomic (share_sum agg) = share_total listing
       ∧ atomic (source_usdc_sum agg) = usdc_total listing)
  ∧ (Forall (λ r, row_source_time r = source_time agg) members →
       atomic (share_sum agg) = share_total members)
  ∧ (¬ (∃ t, Forall (λ r, row_source_time r = t) members) →
       ∀ r, r ∈ members → share_total (rows_at (row_second r) members) = atomic (share_sum agg)).
Proof.
  unfold aggregate_group. destruct members as [|first members']; [done|].
  set (members := first :: members'). intros H.
  apply result_bind_Ok in H as (count & Hcount & H).
  apply ok_or_Ok, fits_Some in Hcount as [-> _].
  apply result_bind_Ok in H as (listing & Hl & H).
  assert (listing = members ∧ Forall (λ r, row_source_time r = row_source_time first) members
    ∨ earliest_listing g members = Ok listing
      ∧ ¬ Forall (λ r, row_source_time r = row_source_time first) members) as Hcase.
  { destruct (forallb _ members) eqn:Ef.
    - left. split; [congruence|]. rewrite forallb_forall in Ef. apply Forall_forall. intros r Hr.
      by apply list_elem_of_In, Ef, bool_decide_eq_true in Hr.
    - right. split; [done|]. intros Hall. apply not_true_iff_false in Ef. apply Ef, forallb_forall.
      intros r Hr. rewrite Forall_forall in Hall. by apply bool_decide_eq_true, Hall, list_elem_of_In. }
  clear Hl. destruct listing as [|f listing']; [done|]. set (listing := f :: listing') in *.
  apply result_bind_Ok in H as (sums & Hs & H). apply result_bind_Ok in H as (rev & _ & [= <-]).
  apply add_members_Ok in Hs as (Hsh & Hus & Hcombo & Hwf). cbn -[share_total usdc_total members listing] in *.
  split_and!; [done|done|by apply Hwf| | |].
  - exists listing. split_and!; [done| |done|done]. intros r Hr. split.
    + destruct Hcase as [[<- _]|[Hl _]]; [done|].
      apply earliest_listing_Ok in Hl as (_ & (t0 & E & _) & _). rewrite E in Hr.
      by apply list_elem_of_filter in Hr as [_ ?].
    + by eapply Forall_forall in Hcombo.
  - intros Hall. rewrite Hsh. destruct Hcase as [[-> _]|[_ Hn]]; [done|]. exfalso. apply Hn.
    pose proof (Forall_inv Hall) as E1. simpl in E1. by rewrite E1.
  - intros Hmixed r Hr. rewrite Hsh. destruct Hcase as [[_ Hall]|[Hl _]]; [naive_solver|].
    apply earliest_listing_Ok in Hl as (_ & _ & Heq). by rewrite (Heq r Hr).
Qed.

(** *** Grouping *)

Lemma group_push_elem g row groups : NoDup groups.*1 → ∀ g' ms,
  (g', ms) ∈ group_push g row groups ↔
  (g' = g ∧ ((∃ old, (g, old) ∈ groups ∧ ms = old ++ [row]) ∨ (¬ (g ∈ groups.*1) ∧ ms = [row])))
  ∨ (g' ≠ g ∧ (g', ms) ∈ groups).
Proof.
  induction groups as [|[g1 m1] groups IH]; csimpl; intros Hnd g' ms.
  - rewrite list_elem_of_singleton. naive_solver set_solver.
  - apply NoDup_cons in Hnd as [Hn Hnd]. specialize (IH Hnd). case_decide as E.
    + subst g1. rewrite !elem_of_cons. split.
      * intros [[= -> ->]|Hin]; [left; split; [done|left; exists m1; set_solver]|].
        right. split; [|by right]. intros ->. apply Hn, list_elem_of_fmap. by exists (g, ms).
      * intros [[-> [(old & Hold & ->)|[Hc _]]]|[Hne Hin]]; [|set_solver|].
        -- apply elem_of_cons in Hold as [[= ->]|Hold]; [by left|].
           exfalso. apply Hn, list_elem_of_fmap. by exists (g, old).
        -- destruct Hin as [[= ? ?]|?]; [done|by right].
    + rewrite !elem_of_cons, IH. setoid_rewrite elem_of_cons. naive_solver.
Qed.

Lemma group_push_keys g row groups :
  (group_push g row groups).*1 = if decide (g ∈ groups.*1) then groups.*1 else (groups.*1 ++ [g]).
Proof.
  induction groups as [|[g1 m1] groups IH]; csimpl; [done|].
  destruct (decide (g1 = g)) as [->|E]; csimpl.
  - rewrite decide_True by set_solver. done.
  - rewrite IH. repeat case_decide; set_solver.
Qed.

Lemma group_push_rows g row groups : mjoin (group_push g row groups).*2 ≡ₚ row :: mjoin groups.*2.
Proof.
  induction groups as [|[g1 m1] groups IH]; csimpl; [done|]. case_decide; csimpl.
  - rewrite <- app_assoc. simpl. by rewrite <- Permutation_middle.
  - rewrite IH. by rewrite <- Permutation_middle.
Qed.

Lemma group_rows_Ok rows groups : group_rows rows = Ok groups →
  NoDup groups.*1 ∧ mjoin groups.*2 ≡ₚ rows
  ∧ ∀ g ms, (g, ms) ∈ groups → ms = filter (λ r, row_group_id r = Ok g) rows ∧ ms ≠ []
                               ∧ verify_components g = Ok tt.
Proof.
  unfold group_rows. revert groups. induction rows as [|r rows IH] using rev_ind; intros groups.
  { intros [= <-]. split_and!; [constructor|done|set_solver]. }
  rewrite try_fold_app. intros H. apply result_bind_Ok in H as (old & Hold & H).
  destruct (IH old Hold) as (Hnd & Hp & Hm). clear IH.
  simpl in H. apply result_bind_Ok in H as (gs & H & [= <-]).
  apply result_bind_Ok in H as (g & Hg & [= <-]). split_and!.
  - rewrite group_push_keys. case_decide; [done|]. apply NoDup_app. split_and!; [done|set_solver|].
    apply NoDup_singleton.
  - rewrite group_push_rows, Hp. by rewrite <- Permutation_cons_append.
  - intros g' ms Hin. rewrite filter_app. apply (group_push_elem g r old Hnd) in Hin.
    destruct Hin as [[-> [(o & Ho & ->)|[Hnew ->]]]|[Hne Hin]].
    + destruct (Hm g o Ho) as (-> & ? & ?). rewrite (filter_cons_True _ r) by done.
      split_and!; [done|by destruct (filter _ rows)|done].
    + rewrite (filter_cons_True _ r) by done. split_and!; [|done|by eapply derive_verifies].
      destruct (filter (λ r0, row_group_id r0 = Ok g) rows) as [|x l] eqn:Ef; [done|].
      exfalso. assert (x ∈ filter (λ r0, row_group_id r0 = Ok g) rows) as Hx by (rewrite Ef; set_solver).
      apply list_elem_of_filter in Hx as [Hgx Hx]. rewrite <- Hp in Hx.
      apply list_elem_of_join in Hx as (ms & Hxm & ([g2 ms'] & -> & Hin)%list_elem_of_fmap).
      simpl in Hxm. destruct (Hm _ _ Hin) as (-> & _). apply list_elem_of_filter in Hxm as [Hg2 _].
      apply Hnew, list_elem_of_fmap. exists (g2, filter (λ r0, row_group_id r0 = Ok g2) rows).
      split; [simpl; congruence|done].
    + destruct (Hm g' ms Hin) as (-> & ? & ?). rewrite (filter_cons_False _ r) by congruence.
      simpl. by rewrite app_nil_r.
Qed.

Definition row_count_total (aggs : list ActivityAggregate) : Z :=
  foldr (λ a z, row_count a + z) 0 aggs.

Lemma aggregate_group_count g members agg : aggregate_group g members = Ok agg →
  group_id agg = g ∧ row_count agg = Z.of_nat (length members).
Proof.
  unfold aggregate_group. destruct members as [|first members']; [done|]. intros H.
  apply result_bind_Ok in H as (count & Hcount & H). apply ok_or_Ok, fits_Some in Hcount as [-> _].
  apply result_bind_Ok in H as (listing & _ & H). destruct listing; [done|].
  apply result_bind_Ok in H as (sums & _ & H). by apply result_bind_Ok in H as (rev & _ & [= <-]).
Qed.

Lemma aggregates_count groups aggs :
  try_map (λ '(g, members), aggregate_group g members) groups = Ok aggs →
  group_id <$> aggs = groups.*1 ∧ row_count_total aggs = Z.of_nat (length (mjoin groups.*2)).
Proof.
  rewrite try_map_Ok. induction 1 as [|[g ms] agg groups aggs H _ [IH1 IH2]]; csimpl; [done|].
  apply aggregate_group_count in H as [-> ->]. rewrite IH1, IH2, length_app. split; [done|lia].
Qed.

(** Aggregating a response accounts for every row exactly once and in key
    order: each aggregate is the aggregation of all rows of its own verified
    group, no group appears twice, and the row counts add up to the response. *)
Theorem aggregate_rows_partition rows aggs :
  aggregate_activity_rows rows = Ok aggs →
  NoDup (group_id <$> aggs)
  ∧ row_count_total aggs = Z.of_nat (length rows)
  ∧ StronglySorted (λ x y, leb_of (source_trade_id (group_key x)) (source_trade_id (group_key y)) = true)
      (group_id <$> aggs)
  ∧ (∀ agg, agg ∈ aggs → verify_components (group_id agg) = Ok tt
       ∧ aggregate_group (group_id agg) (filter (λ r, row_group_id r = Ok (group_id agg)) rows) = Ok agg).
Proof.
  unfold aggregate_activity_rows. intros H. apply result_bind_Ok in H as (groups & Hg & H).
  apply map_err_Ok, group_rows_Ok in Hg as (Hnd & Hp & Hm).
  set (sorted := sort_by _ groups) in H.
  assert (sorted ≡ₚ groups) as Hs by apply sort_by_perm.
  destruct (aggregates_count _ _ H) as [Hids Hcount]. rewrite Hids, Hcount. split_and!.
  - by rewrite Hs.
  - f_equal. apply Permutation_length. by rewrite Hs.
  - apply StronglySorted_fmap, sort_by_sorted.
    + intros a b. apply leb_of_total.
    + intros a b c. apply leb_of_trans.
  - intros agg Hin. apply try_map_Ok in H.
    apply list_elem_of_lookup in Hin as [i Hi].
    destruct (Forall2_lookup_r _ _ _ _ _ H Hi) as ([g ms] & Hgm & Ha).
    apply list_elem_of_lookup_2 in Hgm. rewrite Hs in Hgm.
    destruct (aggregate_group_count _ _ _ Ha) as [-> _].
    destruct (Hm g ms Hgm) as (-> & _ & ?). done.
Qed.

End AggregationFacts.

(** ** Instances *)

Definition sample_components (outcome : Z) : SourceActivityGroupComponents := {|
  c_activity_type := ActTrade; c_wallet := {| wallet_bytes := replicate 20 7 |};
  c_transaction_hash := "0x1"; c_condition_id := Some {| condition_id_str := "0xabc" |};
  c_asset := None; c_outcome := Some {| outcome_index := outcome |}; c_side := Some Buy |}.

Lemma sample_components_wf n : is_u16 n → components_wf (sample_components n).
Proof.
  intros Hn. split_and!; [done| |by intros ? [= <-]]. split; [done|].
  repeat (apply Forall_cons_2; [by vm_compute|]). apply Forall_nil_2.
Qed.

Lemma canonical_encoding_injective_witness :
  components_wf (sample_components 1) ∧ sample_components 1 = sample_components 1.
Proof.
  assert (components_wf (sample_components 1)) as H by (by apply sample_components_wf).
  split; [exact H|].
  apply (canonical_encoding_injective (sample_components 1) (sample_components 1)
    (result_or [] (canonical_group_components (sample_components 1))) H H); by vm_compute.
Defined.

Definition sample_group (n : Z) : SourceActivityGroupId :=
  result_or {| group_key := {| source_trade_id := "" |}; group_components := sample_components n |}
    (derive (sample_components n)).

Lemma group_key_identity_witness :
  verify_components (sample_group 0) = Ok tt ∧ is_reconciled_v2 (group_key (sample_group 0)) = true.
Proof.
  destruct (group_key_identity (sample_components 0) (sample_components 1)
    (sample_group 0) (sample_group 1)) as (H1 & H2 & _);
    [by apply sample_components_wf|by apply sample_components_wf|by vm_compute|by vm_compute|].
  split; [exact H1|exact H2].
Defined.

(** Two fills of one transaction, listed at two different seconds. *)
Definition sample_row (nanos shares : Z) : NormalizedActivity := {|
  row_activity_type := ActTrade; row_source_id := "s"; row_wallet := {| wallet_bytes := replicate 20 7 |};
  row_transaction_hash := "0x1"; row_condition_id := Some {| condition_id_str := "0xabc" |};
  row_asset := None; row_outcome := Some {| outcome_index := 0 |}; row_side := Some Buy;
  row_price := {| price_value := (1 # 2 : @Decimal QDecimal)%Q |};
  row_share_amount := from_atomic shares; row_source_usdc_amount := from_atomic 1;
  row_is_combo := false; row_source_time := {| source_timestamp := (nanos : @OffsetDateTime ZTime) |};
  row_observed_at := {| source_timestamp := nanos |}; row_received_at := {| received_at_time := nanos |};
  row_raw_row_hash := ""; row_raw_row_json := ""; row_parser_version := 1; row_schema_version := 1;
  row_transport := Rest |}.
Definition sample_rows : list NormalizedActivity :=
  [sample_row 1000000000 5; sample_row 2000000000 6; sample_row 1000000000 6; sample_row 2000000000 5].
Definition sample_agg : result ActivityAggregationError ActivityAggregate :=
  aggregate_group (sample_group 0) sample_rows.
Definition default_agg : ActivityAggregate := {|
  group_id := sample_group 0; row_count := 0; share_sum := amount_ZERO;
  price_weighted_share_sum := (0 : @Decimal QDecimal)%Q; source_usdc_sum := amount_ZERO;
  source_time := {| source_timestamp := (0 : @OffsetDateTime ZTime) |}; is_combo := false;
  semantic_revision := {| revision := "" |} |}.

Lemma aggregate_group_counts_once_witness :
  row_count (result_or default_agg sample_agg) = 4
  ∧ atomic (share_sum (result_or default_agg sample_agg)) = 11.
Proof.
  destruct (aggregate_group_counts_once (sample_group 0) sample_rows (result_or default_agg sample_agg))
    as (_ & H & _); [apply is_ok_result_or; by vm_compute|].
  split; [exact H|by vm_compute].
Defined.

Lemma aggregate_rows_partition_witness :
  row_count_total (result_or [] (aggregate_activity_rows sample_rows)) = 4.
Proof.
  destruct (aggregate_rows_partition sample_rows (result_or [] (aggregate_activity_rows sample_rows)))
    as (_ & H & _); [apply is_ok_result_or; by vm_compute|exact H].
Defined.
