(* ===== verification/LedgerEffect.v ===== *)
(** * Ledger effects and their persisted documents
      (crates/position-ledger, first part of [lib.rs])

    The normalized effect of one activity group, its identity correction, the
    mapping from a reconciled aggregate, and the versioned effect document.  The
    JSON layer (serde_json) is the interface [DocJson]. *)

From S2P Require Import Prelude CoreTypes Bytes Activity.
#[local] Open Scope Z_scope.

Record IdentityCorrection := {
  stamped : MarketOutcomeId;
  verified : MarketOutcomeId;
  evidence_hash : string
}.
#[export] Instance IdentityCorrection_eq_dec : EqDecision IdentityCorrection.
Proof. solve_decision. Defined.

Inductive LedgerEffectDocumentError : Type :=
| UnknownVersion (version : Z)
| Malformed (message : string).

Inductive WalletFenceCause : Type :=
| FenceRevisedAggregate | FenceLateEqualSecondGroup | FenceInvalidMapping | FenceUnderflow
| FenceOverflow | FenceConversion | FenceUnknownEffect | FenceOrderDependentEqualSecond.

Inductive LedgerError : Type :=
| InvalidMapping (source : SourceTradeId)
| Underflow (source : SourceTradeId)
| Overflow (source : SourceTradeId)
| ConversionError (source : SourceTradeId)
| UnknownEffectError (source : SourceTradeId).
#[export] Instance LedgerError_eq_dec : EqDecision LedgerError.
Proof. solve_decision. Defined.

Definition fence_cause (e : LedgerError) : WalletFenceCause :=
  match e with
  | InvalidMapping _ => FenceInvalidMapping
  | Underflow _ => FenceUnderflow
  | Overflow _ => FenceOverflow
  | ConversionError _ => FenceConversion
  | UnknownEffectError _ => FenceUnknownEffect
  end.

Definition LEDGER_EFFECT_DOCUMENT_VERSION_V1 : Z := 1.
Definition LEDGER_EFFECT_DOCUMENT_VERSION_V2 : Z := 2.
Definition LEDGER_EFFECT_DOCUMENT_VERSION_V3 : Z := 3.
(** One four-decimal [/positions] quantum. *)
Definition REDEEM_RESIDUAL_LIMIT_ATOMIC : Z := 100.

Section Effects.
Context `{DO : DecimalOps}.

Inductive LedgerEffect : Type :=
| Trade (m : MarketId) (o : OutcomeId) (side : Side) (amount : ShareAmount) (price : Price)
| Split (m : MarketId) (amount : ShareAmount)
| Merge (m : MarketId) (amount : ShareAmount)
| Redeem (m : MarketId) (o : OutcomeId) (amount : ShareAmount)
| RequiresAnchor
| Conversion
| RawOnly
| UnknownEffect
| Corrected (effect : LedgerEffect) (correction : IdentityCorrection).

Record AppliedEffect := {
  applied_effect : LedgerEffect;
  clamped_residual : option Z
}.

(** ** Reading an effect *)

Definition correction (e : LedgerEffect) : option IdentityCorrection :=
  match e with Corrected _ c => Some c | _ => None end.

Fixpoint effective (e : LedgerEffect) : LedgerEffect :=
  match e with Corrected e _ => effective e | _ => e end.

Definition identity (e : LedgerEffect) : option MarketOutcomeId :=
  match effective e with
  | Trade m o _ _ _ | Redeem m o _ => Some {| market := m; outcome := o |}
  | _ => None
  end.

Fixpoint into_effective (e : LedgerEffect) : LedgerEffect :=
  match e with Corrected e _ => into_effective e | _ => e end.

Definition with_identity (e : LedgerEffect) (v : MarketOutcomeId) : LedgerEffect :=
  match e with
  | Trade _ _ side amount price => Trade (market v) (outcome v) side amount price
  | Redeem _ _ amount => Redeem (market v) (outcome v) amount
  | e => e
  end.

(** ** Documents *)

(** The persisted form of an effect: a correction is a field of the document. *)
Inductive LedgerEffectDto : Type :=
| DtoTrade (m : MarketId) (o : OutcomeId) (side : Side) (price : Price) (amount : ShareAmount)
| DtoSplit (m : MarketId) (amount : ShareAmount)
| DtoMerge (m : MarketId) (amount : ShareAmount)
| DtoRedeem (m : MarketId) (o : OutcomeId) (amount : ShareAmount)
| DtoRequiresAnchor
| DtoConversion
| DtoRawOnly
| DtoUnknownEffect.

Record LedgerEffectDocument := {
  doc_version : Z;
  doc_effect : LedgerEffectDto;
  doc_clamped_residual_atomic : option Z;
  doc_correction : option IdentityCorrection
}.

Fixpoint dto_from_effect (e : LedgerEffect) : LedgerEffectDto :=
  match e with
  | Trade m o side amount price => DtoTrade m o side price amount
  | Split m amount => DtoSplit m amount
  | Merge m amount => DtoMerge m amount
  | Redeem m o amount => DtoRedeem m o amount
  | RequiresAnchor => DtoRequiresAnchor
  | Conversion => DtoConversion
  | RawOnly => DtoRawOnly
  | UnknownEffect => DtoUnknownEffect
  | Corrected e _ => dto_from_effect e
  end.

Definition effect_from_dto (d : LedgerEffectDto) : LedgerEffect :=
  match d with
  | DtoTrade m o side price amount => Trade m o side amount price
  | DtoSplit m amount => Split m amount
  | DtoMerge m amount => Merge m amount
  | DtoRedeem m o amount => Redeem m o amount
  | DtoRequiresAnchor => RequiresAnchor
  | DtoConversion => Conversion
  | DtoRawOnly => RawOnly
  | DtoUnknownEffect => UnknownEffect
  end.

Definition corrected_effect (e : LedgerEffect) (c : IdentityCorrection) :
    result LedgerEffectDocumentError LedgerEffect :=
  if decide (stamped c = verified c)
  then Err (Malformed "ledger identity correction does not change identity")
  else if decide (identity e ≠ Some (verified c))
  then Err (Malformed "corrected effect identity does not match verified identity")
  else Ok (Corrected e c).

Definition validate_clamped_residual (e : LedgerEffect) (clamped : option Z) :
    result LedgerEffectDocumentError unit :=
  match clamped with
  | None => Ok tt
  | Some residual =>
      if (residual =? 0) || (REDEEM_RESIDUAL_LIMIT_ATOMIC <=? residual)
      then Err (Malformed "clamped redeem residual is outside 1..=99 atomic")
      else match effective e with
           | Redeem _ _ _ => Ok tt
           | _ => Err (Malformed "clamped residual belongs only to a redeem effect")
           end
  end.

(** serde_json as the two documents use it: struct to value, value to text, and
    back.  Errors are rendered as text by [malformed]. *)
Class DocJson := {
  Value : Type;
  to_value : LedgerEffectDocument → result string Value;
  value_to_string : Value → result string string;
  value_from_str : string → result string Value;
  from_value : Value → result string LedgerEffectDocument
}.
Class DocJsonLaws {J : DocJson} : Prop := {
  to_value_total d : is_Some (result_ok (to_value d));
  value_to_string_total v : is_Some (result_ok (value_to_string v));
  value_str_roundtrip v s : value_to_string v = Ok s → value_from_str s = Ok v;
  doc_value_roundtrip d v : to_value d = Ok v → from_value v = Ok d
}.

Section Documents.
Context {J : DocJson}.

Definition applied_to_document (a : AppliedEffect) : result LedgerEffectDocumentError string :=
  _ ← validate_clamped_residual (applied_effect a) (clamped_residual a);
  let c := correction (applied_effect a) in
  let version :=
    match clamped_residual a with
    | Some _ => LEDGER_EFFECT_DOCUMENT_VERSION_V3
    | None => match c with
              | Some _ => LEDGER_EFFECT_DOCUMENT_VERSION_V2
              | None => LEDGER_EFFECT_DOCUMENT_VERSION_V1
              end
    end in
  value ← map_err Malformed
            (to_value {| doc_version := version;
                         doc_effect := dto_from_effect (effective (applied_effect a));
                         doc_clamped_residual_atomic := clamped_residual a;
                         doc_correction := c |});
  map_err Malformed (value_to_string value).

(** The version table of [from_document]. *)
Definition decode_document (d : LedgerEffectDocument) :
    result LedgerEffectDocumentError AppliedEffect :=
  let effect := effect_from_dto (doc_effect d) in
  if doc_version d =? LEDGER_EFFECT_DOCUMENT_VERSION_V1 then
    match doc_correction d, doc_clamped_residual_atomic d with
    | None, None => Ok {| applied_effect := effect; clamped_residual := None |}
    | Some _, _ => Err (Malformed "version 1 ledger effect document contains a correction")
    | None, Some _ =>
        Err (Malformed "version 1 ledger effect document contains a clamped residual")
    end
  else if doc_version d =? LEDGER_EFFECT_DOCUMENT_VERSION_V2 then
    match doc_correction d, doc_clamped_residual_atomic d with
    | Some c, None =>
        e ← corrected_effect effect c; Ok {| applied_effect := e; clamped_residual := None |}
    | None, _ => Err (Malformed "version 2 ledger effect document is missing its correction")
    | Some _, Some _ =>
        Err (Malformed "version 2 ledger effect document contains a clamped residual")
    end
  else if doc_version d =? LEDGER_EFFECT_DOCUMENT_VERSION_V3 then
    match doc_clamped_residual_atomic d with
    | Some residual =>
        e ← match doc_correction d with
            | Some c => corrected_effect effect c
            | None => Ok effect
            end;
        _ ← validate_clamped_residual e (Some residual);
        Ok {| applied_effect := e; clamped_residual := Some residual |}
    | None =>
        Err (Malformed "version 3 ledger effect document is missing its clamped residual")
    end
  else Err (UnknownVersion (doc_version d)).

Definition applied_from_document (document : string) :
    result LedgerEffectDocumentError AppliedEffect :=
  value ← map_err Malformed (value_from_str document);
  decoded ← map_err Malformed (from_value value);
  applied ← decode_document decoded;
  text ← map_err Malformed (value_to_string value);
  canonical ← applied_to_document applied;
  if decide (text ≠ canonical)
  then Err (Malformed "document is not the canonical encoding of its effect")
  else Ok applied.

Definition effect_to_document (e : LedgerEffect) : result LedgerEffectDocumentError string :=
  applied_to_document {| applied_effect := e; clamped_residual := None |}.
Definition effect_from_document (document : string) :
    result LedgerEffectDocumentError LedgerEffect :=
  applied_effect <$> applied_from_document document.

End Documents.
End Effects.

(** ** Mutations *)
Section Mutations.
Context `{DO : DecimalOps} `{TO : TimeOps} `{B3 : Blake3}.

Record LedgerMutation := {
  mut_source_trade_id : SourceTradeId;
  mut_transaction_hash : string;
  mut_wallet : WalletAddress;
  mut_source_time : SourceTimestamp;
  mut_effect : LedgerEffect
}.

(** The effect of a reconciled aggregate, [None] for an invalid mapping. *)
Definition activity_effect (agg : ActivityAggregate) : option LedgerEffect :=
  let c := group_components (group_id agg) in
  let market := (λ condition, {| market_id := {| venue_market_id := condition_id_str condition |} |})
                  <$> c_condition_id c in
  let zero := bool_decide (share_sum agg = amount_ZERO) in
  match c_activity_type c with
  | ActConversion => Some (if zero then RawOnly else Conversion)
  | ActUnknown _ => Some UnknownEffect
  | ActReward | ActDeposit | ActWithdrawal | ActYield | ActMakerRebate | ActTakerRebate
  | ActReferralReward => Some RawOnly
  | t =>
      if is_combo agg then Some RawOnly
      else match t with
           | ActRedeem =>
               if zero then Some RequiresAnchor
               else match c_outcome c with
                    | Some o => m ← market; Some (Redeem m o (share_sum agg))
                    | None => Some RequiresAnchor
                    end
           | _ =>
               if zero then Some RawOnly
               else match t with
                    | ActTrade =>
                        m ← market; o ← c_outcome c; side ← c_side c;
                        price ← result_ok (volume_weighted_price agg);
                        Some (Trade m o side (share_sum agg) price)
                    | ActSplit => m ← market; Some (Split m (share_sum agg))
                    | ActMerge => m ← market; Some (Merge m (share_sum agg))
                    | _ => Some RawOnly
                    end
           end
  end.

Definition from_activity (agg : ActivityAggregate) : result LedgerError LedgerMutation :=
  let id := group_key (group_id agg) in
  let c := group_components (group_id agg) in
  _ ← map_err (λ _, InvalidMapping id) (verify_components (group_id agg));
  effect ← ok_or (activity_effect agg) (InvalidMapping id);
  Ok {| mut_source_trade_id := id;
        mut_transaction_hash := c_transaction_hash c;
        mut_wallet := c_wallet c;
        mut_source_time := source_time agg;
        mut_effect := effect |}.

Definition with_verified_identity (m : LedgerMutation) (v : MarketOutcomeId) (evidence : string) :
    LedgerMutation :=
  match identity (mut_effect m) with
  | None => m
  | Some current =>
      if decide (current = v) then m
      else
        let st := match correction (mut_effect m) with
                  | Some c => stamped c
                  | None => current
                  end in
        {| mut_source_trade_id := mut_source_trade_id m;
           mut_transaction_hash := mut_transaction_hash m;
           mut_wallet := mut_wallet m;
           mut_source_time := mut_source_time m;
           mut_effect :=
             Corrected (with_identity (into_effective (mut_effect m)) v)
               {| stamped := st; verified := v; evidence_hash := evidence |} |}
  end.

Definition effect_keys (e : LedgerEffect) : list MarketOutcomeId :=
  match effective e with
  | Trade m o _ _ _ | Redeem m o _ => [{| market := m; outcome := o |}]
  | Split m _ | Merge m _ =>
      [{| market := m; outcome := {| outcome_index := 0 |} |};
       {| market := m; outcome := {| outcome_index := 1 |} |}]
  | _ => []
  end.
Definition touched_keys (m : LedgerMutation) : list MarketOutcomeId := effect_keys (mut_effect m).

(** The share amount an effect moves. *)
Definition effect_amount (e : LedgerEffect) : ShareAmount :=
  match effective e with
  | Trade _ _ _ a _ | Split _ a | Merge _ a | Redeem _ _ a => a
  | _ => amount_ZERO
  end.
Definition mutation_wf (m : LedgerMutation) : Prop := amount_wf (effect_amount (mut_effect m)).

End Mutations.

Arguments validate_clamped_residual : simpl never.
Arguments corrected_effect : simpl never.

(** ** Properties of effects and documents *)
Section EffectFacts.
Context `{DO : DecimalOps}.

Lemma effective_not_corrected e e' c : effective e ≠ Corrected e' c.
Proof. induction e; simpl; done. Qed.

Lemma effective_idemp e : effective (effective e) = effective e.
Proof. induction e; simpl; done. Qed.

Lemma into_effective_effective e : into_effective e = effective e.
Proof. induction e; simpl; done. Qed.

Lemma effect_from_dto_effective d : effective (effect_from_dto d) = effect_from_dto d.
Proof. by destruct d. Qed.

Lemma correction_from_dto d : correction (effect_from_dto d) = None.
Proof. by destruct d. Qed.

Lemma effect_dto_roundtrip e : effect_from_dto (dto_from_effect e) = effective e.
Proof. induction e; simpl; done. Qed.

Lemma dto_effect_roundtrip d : dto_from_effect (effect_from_dto d) = d.
Proof. by destruct d. Qed.

(** An effect the ledger can persist: uncorrected, or one correction that moves
    a single-outcome effect to another identity. *)
Definition effect_wf (e : LedgerEffect) : Prop :=
  match e with
  | Corrected e' c =>
      effective e' = e' ∧ stamped c ≠ verified c ∧ identity e' = Some (verified c)
  | _ => True
  end.

Lemma corrected_effect_Ok e c e' :
  corrected_effect e c = Ok e' ↔
  e' = Corrected e c ∧ stamped c ≠ verified c ∧ identity e = Some (verified c).
Proof. unfold corrected_effect. repeat case_decide; naive_solver. Qed.

Lemma validate_clamped_residual_Ok e r :
  validate_clamped_residual e r = Ok tt ↔
  ∀ z, r = Some z → z ≠ 0 ∧ z < REDEEM_RESIDUAL_LIMIT_ATOMIC ∧ ∃ m o a, effective e = Redeem m o a.
Proof.
  unfold validate_clamped_residual. destruct r as [z|]; [|naive_solver].
  destruct ((z =? 0) || (REDEEM_RESIDUAL_LIMIT_ATOMIC <=? z)) eqn:E.
  - split; [done|]. intros H. destruct (H z eq_refl) as (?&?&_). rust.
  - split.
    + intros H z' [= <-]. split_and!; [rust|rust|]. destruct (effective e); naive_solver.
    + intros H. destruct (H z eq_refl) as (_&_&m&o&a&->). done.
Qed.

Section DocumentFacts.
Context {J : DocJson} {JL : DocJsonLaws}.

Lemma decode_document_of_applied a d :
  effect_wf (applied_effect a) →
  validate_clamped_residual (applied_effect a) (clamped_residual a) = Ok tt →
  d = {| doc_version :=
           match clamped_residual a with
           | Some _ => LEDGER_EFFECT_DOCUMENT_VERSION_V3
           | None => match correction (applied_effect a) with
                     | Some _ => LEDGER_EFFECT_DOCUMENT_VERSION_V2
                     | None => LEDGER_EFFECT_DOCUMENT_VERSION_V1
                     end
           end;
         doc_effect := dto_from_effect (effective (applied_effect a));
         doc_clamped_residual_atomic := clamped_residual a;
         doc_correction := correction (applied_effect a) |} →
  decode_document d = Ok a.
Proof.
  destruct a as [e r]. simpl. intros Hwf Hv ->. unfold decode_document. simpl.
  rewrite effect_dto_roundtrip, effective_idemp.
  destruct e as [| | | | | | | |e c]; simpl in *; destruct r as [z|]; simpl;
    try (by rewrite Hv); try done.
  - destruct Hwf as (-> & Hne & Hid). rewrite (proj2 (corrected_effect_Ok e c (Corrected e c))) by done.
    simpl. by rewrite Hv.
  - destruct Hwf as (-> & Hne & Hid). by rewrite (proj2 (corrected_effect_Ok e c (Corrected e c))).
Qed.

(** an applied effect survives its document: writing it succeeds and reading
    it back gives the same effect and residual. *)
Theorem document_roundtrip (a : AppliedEffect) :
  effect_wf (applied_effect a) →
  validate_clamped_residual (applied_effect a) (clamped_residual a) = Ok tt →
  ∃ s, applied_to_document a = Ok s ∧ applied_from_document s = Ok a.
Proof.
  intros Hwf Hv. unfold applied_to_document. rewrite Hv. simpl.
  match goal with |- context [to_value ?x] => set (d := x) end.
  destruct (to_value_total d) as [v Hd].
  destruct (to_value d) as [v'|] eqn:Ed; [|done]. simpl.
  destruct (value_to_string_total v') as [s Hs].
  destruct (value_to_string v') as [s'|] eqn:Es; [|done]. simpl.
  exists s'. split; [done|]. unfold applied_from_document.
  rewrite (value_str_roundtrip v' s' Es). simpl.
  rewrite (doc_value_roundtrip d v' Ed). simpl.
  rewrite (decode_document_of_applied a d) by done. simpl. rewrite Es. simpl.
  unfold applied_to_document. rewrite Hv. simpl. subst d. rewrite Ed. simpl. rewrite Es. simpl.
  by rewrite decide_False by naive_solver.
Qed.

Lemma decode_document_wf d a : decode_document d = Ok a → effect_wf (applied_effect a).
Proof.
  unfold decode_document. intros H.
  assert (∀ x, effect_wf (effect_from_dto x)) as Hdto by (by intros []).
  assert (∀ x c e, corrected_effect (effect_from_dto x) c = Ok e → effect_wf e) as Hc.
  { intros x c e (-> & ? & ?)%corrected_effect_Ok. simpl.
    by rewrite effect_from_dto_effective. }
  repeat (case_match; simplify_eq/=; try done); inv_bind; eauto.
Qed.

Lemma applied_to_document_residual a s : applied_to_document a = Ok s →
  ∀ z, clamped_residual a = Some z →
    z ≠ 0 ∧ z < REDEEM_RESIDUAL_LIMIT_ATOMIC ∧ ∃ m o x, effective (applied_effect a) = Redeem m o x.
Proof.
  unfold applied_to_document. rewrite result_bind_Ok. intros ([] & Hv & _).
  by apply validate_clamped_residual_Ok.
Qed.

(** whatever a document decodes to is what the ledger may have written: the
    text is the canonical encoding, a correction moves the identity it certifies,
    and a clamped residual is in 1..=99 and belongs to a redeem. *)
Theorem from_document_sound s a :
  applied_from_document s = Ok a →
  effect_wf (applied_effect a)
  ∧ (∀ z, clamped_residual a = Some z →
       z ≠ 0 ∧ z < REDEEM_RESIDUAL_LIMIT_ATOMIC ∧ ∃ m o x, effective (applied_effect a) = Redeem m o x)
  ∧ (∃ v, value_from_str s = Ok v ∧ ∃ t, value_to_string v = Ok t ∧ applied_to_document a = Ok t).
Proof.
  unfold applied_from_document. intros H.
  destruct (value_from_str s) as [v|] eqn:Ev; [|done]. simpl in H.
  destruct (from_value v) as [d|] eqn:Ed; [|done]. simpl in H.
  destruct (decode_document d) as [a'|] eqn:Ea; [|done]. simpl in H.
  destruct (value_to_string v) as [t|] eqn:Et; [|done]. simpl in H.
  destruct (applied_to_document a') as [t'|] eqn:Et'; [|done]. simpl in H.
  case_decide; [done|]. injection H as ->. destruct (decide (t = t')) as [->|]; [|done].
  split_and!; [by eapply decode_document_wf|by eapply applied_to_document_residual|].
  exists v. split; [done|]. by exists t'.
Qed.

End DocumentFacts.
End EffectFacts.

(** ** Rebinding an effect to its verified identity *)
Section Rebinding.
Context `{DO : DecimalOps} `{TO : TimeOps}.

(** The identity the source stamped on an effect. *)
Definition stamped_identity (e : LedgerEffect) : option MarketOutcomeId :=
  match correction e with Some c => Some (stamped c) | None => identity e end.

Lemma identity_with_identity e v i : identity e = Some i → effective e = e →
  identity (with_identity e v) = Some v ∧ effective (with_identity e v) = with_identity e v
  ∧ effect_amount (with_identity e v) = effect_amount e ∧ effect_keys (with_identity e v) = [v].
Proof.
  destruct v, e; try done. intros _ H. by apply effective_not_corrected in H.
Qed.

Lemma identity_effective e : identity (effective e) = identity e.
Proof. unfold identity. by rewrite effective_idemp. Qed.

Lemma effect_amount_effective e : effect_amount (effective e) = effect_amount e.
Proof. unfold effect_amount. by rewrite effective_idemp. Qed.

(** binding a single-outcome effect to its verified identity moves exactly
    that identity: the key, the group evidence and the amount stay, the position
    touched is the verified one, the stamp the source put first is kept, and the
    result is still an effect the ledger can persist and read back. *)
Theorem verified_identity_rebinds m v evidence i s :
  effect_wf (mut_effect m) → identity (mut_effect m) = Some i →
  stamped_identity (mut_effect m) = Some s → s ≠ v ∨ i = v →
  let m' := with_verified_identity m v evidence in
  mut_source_trade_id m' = mut_source_trade_id m ∧ mut_wallet m' = mut_wallet m
  ∧ identity (mut_effect m') = Some v ∧ touched_keys m' = [v]
  ∧ effect_amount (mut_effect m') = effect_amount (mut_effect m)
  ∧ stamped_identity (mut_effect m') = Some s
  ∧ effect_wf (mut_effect m').
Proof.
  intros Hwf Hi Hs Hne. unfold with_verified_identity. rewrite Hi. case_decide as E; cbv zeta.
  { subst i. split_and!; try done. unfold touched_keys, effect_keys, identity in *.
    destruct (effective (mut_effect m)); simplify_eq; done. }
  destruct Hne as [Hne|?]; [|done]. rewrite into_effective_effective.
  destruct (identity_with_identity (effective (mut_effect m)) v i) as (H1 & H2 & H3 & H4);
    [by rewrite identity_effective|apply effective_idemp|].
  assert (match correction (mut_effect m) with Some c => stamped c | None => i end = s) as Est.
  { unfold stamped_identity in Hs. destruct (correction (mut_effect m)); congruence. }
  split_and!; try done.
  - rewrite <- (effect_amount_effective (mut_effect m)), <- H3. done.
  - unfold stamped_identity. simpl. by rewrite Est.
  - simpl. by rewrite Est.
Qed.

(** Binding a corrected effect back to the identity the source stamped keeps
    an empty correction: the document is written, and every reader refuses it. *)
Theorem rebinding_to_stamp_unreadable {J : DocJson} {JL : DocJsonLaws} m v evidence i d s :
  identity (mut_effect m) = Some i → stamped_identity (mut_effect m) = Some v → i ≠ v →
  d = {| applied_effect := mut_effect (with_verified_identity m v evidence); clamped_residual := None |} →
  applied_to_document d = Ok s → ∃ reason, applied_from_document s = Err (Malformed reason).
Proof.
  intros Hi Hs Hne -> Hd. unfold with_verified_identity in Hd. rewrite Hi, decide_False in Hd by done.
  assert (match correction (mut_effect m) with Some c => stamped c | None => i end = v) as Est.
  { unfold stamped_identity in Hs. destruct (correction (mut_effect m)); congruence. }
  rewrite Est in Hd. unfold applied_to_document in Hd. simpl in Hd.
  match type of Hd with context [to_value ?x] => set (doc := x) in Hd end.
  destruct (to_value doc) as [x|] eqn:Hx; simpl in Hd; [|done]. apply map_err_Ok in Hd.
  unfold applied_from_document. rewrite (value_str_roundtrip x s) by done. simpl.
  rewrite (doc_value_roundtrip doc x) by done. simpl.
  unfold decode_document, corrected_effect. simpl. rewrite decide_True by done. simpl. eauto.
Qed.

End Rebinding.

(** ** An instance of the JSON interface

    Documents are their own values; the text of a document is the binary notation
    of its code. *)

Definition Effect_code : Type := Z * MarketId * OutcomeId * bool * Z * (Z * positive).
Definition no_market : MarketId := {| market_id := {| venue_market_id := "" |} |}.
Definition no_outcome : OutcomeId := {| outcome_index := 0 |}.
Definition dto_code (d : LedgerEffectDto) : Effect_code :=
  match d with
  | DtoTrade m o side p a =>
      (0, m, o, bool_decide (side = Buy), atomic a,
       (Qnum (price_value p : Q), Qden (price_value p : Q)))
  | DtoSplit m a => (1, m, no_outcome, true, atomic a, (0, 1%positive))
  | DtoMerge m a => (2, m, no_outcome, true, atomic a, (0, 1%positive))
  | DtoRedeem m o a => (3, m, o, true, atomic a, (0, 1%positive))
  | DtoRequiresAnchor => (4, no_market, no_outcome, true, 0, (0, 1%positive))
  | DtoConversion => (5, no_market, no_outcome, true, 0, (0, 1%positive))
  | DtoRawOnly => (6, no_market, no_outcome, true, 0, (0, 1%positive))
  | DtoUnknownEffect => (7, no_market, no_outcome, true, 0, (0, 1%positive))
  end.
Definition dto_decode (c : Effect_code) : LedgerEffectDto :=
  let '(t, m, o, b, a, (n, d)) := c in
  if t =? 0 then DtoTrade m o (if b then Buy else Sell)
                   {| price_value := (Qmake n d : @Decimal QDecimal) |} (from_atomic a)
  else if t =? 1 then DtoSplit m (from_atomic a)
  else if t =? 2 then DtoMerge m (from_atomic a)
  else if t =? 3 then DtoRedeem m o (from_atomic a)
  else if t =? 4 then DtoRequiresAnchor
  else if t =? 5 then DtoConversion
  else if t =? 6 then DtoRawOnly
  else DtoUnknownEffect.

Lemma dto_decode_code d : dto_decode (dto_code d) = d.
Proof. by destruct d as [? ? [] [[]] []|? []|? []|? ? []| | | |]. Qed.

#[export] Instance LedgerEffectDto_eq_dec : EqDecision (@LedgerEffectDto QDecimal).
Proof.
  intros x y. destruct (decide (dto_code x = dto_code y)) as [E|E]; [left|right; congruence].
  by rewrite <- (dto_decode_code x), <- (dto_decode_code y), E.
Defined.
#[export] Instance LedgerEffectDto_countable : Countable (@LedgerEffectDto QDecimal) :=
  inj_countable' dto_code dto_decode dto_decode_code.

Definition correction_code (c : IdentityCorrection) : MarketOutcomeId * MarketOutcomeId * string :=
  (stamped c, verified c, evidence_hash c).
Definition correction_decode (c : MarketOutcomeId * MarketOutcomeId * string) : IdentityCorrection :=
  {| stamped := c.1.1; verified := c.1.2; evidence_hash := c.2 |}.
#[export] Instance IdentityCorrection_countable : Countable IdentityCorrection.
Proof. refine (inj_countable' correction_code correction_decode _). abstract (by intros []). Defined.

Definition document_code (d : @LedgerEffectDocument QDecimal) :
    Z * LedgerEffectDto * option Z * option IdentityCorrection :=
  (doc_version d, doc_effect d, doc_clamped_residual_atomic d, doc_correction d).
Definition document_decode (c : Z * LedgerEffectDto * option Z * option IdentityCorrection) :
    LedgerEffectDocument :=
  {| doc_version := c.1.1.1; doc_effect := c.1.1.2; doc_clamped_residual_atomic := c.1.2;
     doc_correction := c.2 |}.
Lemma document_decode_code d : document_decode (document_code d) = d.
Proof. by destruct d. Qed.

Fixpoint bits_of (p : positive) : string :=
  match p with
  | xH => EmptyString
  | xO p => String "0" (bits_of p)
  | xI p => String "1" (bits_of p)
  end.
Fixpoint of_bits (s : string) : positive :=
  match s with
  | EmptyString => xH
  | String c s => if decide (c = "1"%char) then xI (of_bits s) else xO (of_bits s)
  end.
Lemma of_bits_of p : of_bits (bits_of p) = p.
Proof. induction p as [p IH|p IH|]; simpl; [by rewrite IH..|done]. Qed.

Definition BitsJson : @DocJson QDecimal := {|
  Value := LedgerEffectDocument;
  to_value := Ok;
  value_to_string := λ d, Ok (bits_of (encode (document_code d)));
  value_from_str := λ s, ok_or (document_decode <$> decode (of_bits s)) "not a document";
  from_value := Ok
|}.
Lemma BitsJson_laws : @DocJsonLaws QDecimal BitsJson.
Proof.
  split; simpl; [by eexists|by eexists| |by intros ? ? [= ->]].
  intros v s [= <-]. rewrite of_bits_of, decode_encode. simpl. by rewrite document_decode_code.
Qed.

Definition sample_key (n : Z) : MarketOutcomeId :=
  {| market := {| market_id := {| venue_market_id := "m" |} |}; outcome := {| outcome_index := n |} |}.
(** A redeem moved from outcome 0 to outcome 1, clamped by 42 atomic units. *)
Definition sample_applied : @AppliedEffect QDecimal := {|
  applied_effect := Corrected (Redeem (market (sample_key 1)) (outcome (sample_key 1)) (from_atomic 9))
                      {| stamped := sample_key 0; verified := sample_key 1; evidence_hash := "e" |};
  clamped_residual := Some 42
|}.

Lemma document_roundtrip_witness :
  ∃ s, @applied_to_document QDecimal BitsJson sample_applied = Ok s
     ∧ @applied_from_document QDecimal BitsJson s = Ok sample_applied.
Proof.
  apply (@document_roundtrip QDecimal BitsJson BitsJson_laws sample_applied).
  - split_and!; [reflexivity|by vm_compute|reflexivity].
  - by vm_compute.
Defined.

Definition sample_document : string :=
  result_or "" (@applied_to_document QDecimal BitsJson sample_applied).
Lemma sample_document_decodes :
  is_ok (@applied_from_document QDecimal BitsJson sample_document) = true.
Proof. by vm_compute. Qed.

Lemma from_document_sound_witness :
  effect_wf (applied_effect (result_or sample_applied
    (@applied_from_document QDecimal BitsJson sample_document))).
Proof.
  apply (@from_document_sound QDecimal BitsJson sample_document).
  apply is_ok_result_or, sample_document_decodes.
Defined.

Definition sample_redeem (e : @LedgerEffect QDecimal) : LedgerMutation := {|
  mut_source_trade_id := {| source_trade_id := "g" |}; mut_transaction_hash := "t";
  mut_wallet := {| wallet_bytes := replicate 20 7 |};
  mut_source_time := {| source_timestamp := (5 : @OffsetDateTime ZTime) |}; mut_effect := e
|}.

Lemma verified_identity_rebinds_witness :
  touched_keys (with_verified_identity (sample_redeem (applied_effect sample_applied)) (sample_key 2) "x")
  = [sample_key 2].
Proof.
  apply (verified_identity_rebinds (sample_redeem (applied_effect sample_applied)) (sample_key 2) "x"
    (sample_key 1) (sample_key 0)); [split_and!; [done|by vm_compute|done]|done|done|left; by vm_compute].
Defined.

Lemma rebinding_to_stamp_unreadable_witness :
  ∃ reason, @applied_from_document QDecimal BitsJson
    (result_or "" (@applied_to_document QDecimal BitsJson
       {| applied_effect := mut_effect (with_verified_identity
            (sample_redeem (applied_effect sample_applied)) (sample_key 0) "x");
          clamped_residual := None |})) = Err (Malformed reason).
Proof.
  eapply (@rebinding_to_stamp_unreadable QDecimal ZTime BitsJson BitsJson_laws
    (sample_redeem (applied_effect sample_applied)) (sample_key 0) "x" (sample_key 1));
    [reflexivity|reflexivity|by vm_compute|reflexivity|].
  apply is_ok_result_or. by vm_compute.
Defined.
