(* ===== verification/PositionLedger.v ===== *)
(** * The position ledger (crates/position-ledger, [PositionLedger])

    Per-wallet net long/short exposure and the operations that change it.
    Methods taking [&mut self] are [stm] computations, so what an operation leaves
    behind on an early return is explicit; [apply] and [apply_all_or_none] work on
    a clone and commit it on success, as the source does. *)

From S2P Require Import Prelude CoreTypes Bytes Activity SignalEngine LedgerEffect.
#[local] Open Scope Z_scope.

Record PositionLedger := { snapshots : gmap WalletAddress PositionSnapshot }.
#[export] Instance PositionLedger_eq_dec : EqDecision PositionLedger.
Proof. solve_decision. Defined.

Definition ledger_new : PositionLedger := {| snapshots := ∅ |}.
Definition from_snapshots (s : gmap WalletAddress PositionSnapshot) : PositionLedger :=
  {| snapshots := s |}.
Definition position (L : PositionLedger) (w : WalletAddress) : option PositionSnapshot :=
  snapshots L !! w.

(** [state_mut]: the two [entry] calls, and a write through the returned
    reference. *)
Definition wallet_snapshot (L : PositionLedger) (w : WalletAddress) : PositionSnapshot :=
  default {| snapshot_wallet := w; positions := ∅ |} (snapshots L !! w).
Definition set_state (L : PositionLedger) (w : WalletAddress) (k : MarketOutcomeId)
    (st : PositionState) : PositionLedger :=
  let snap := wallet_snapshot L w in
  {| snapshots := <[w := {| snapshot_wallet := snapshot_wallet snap;
                            positions := <[k := st]> (positions snap) |}]> (snapshots L) |}.
Definition get_state (L : PositionLedger) (w : WalletAddress) (k : MarketOutcomeId) :
    PositionState :=
  default PositionState_default (positions (wallet_snapshot L w) !! k).

(** The batch state: the ledger and the keys closed by a redeem residual. *)

Definition Batch : Type := PositionLedger * gset (MarketId * OutcomeId).

(** [closed_by_residual.insert(key)] *)
Definition close_by_residual {E} (k : MarketId * OutcomeId) : stm Batch E unit :=
  λ '(L, C), ((L, {[k]} ∪ C), Ok tt).

(** Run [f] on the state behind [state_mut], whatever it returns. *)
Definition with_state {E A} (w : WalletAddress) (k : MarketOutcomeId) (f : stm PositionState E A) :
    stm Batch E A :=
  λ '(L, C), let '(st, r) := f (get_state L w k) in ((set_state L w k st, C), r).

(** ** One trade on one position *)
Definition set_long (a : ShareAmount) (st : PositionState) : PositionState :=
  {| long_contracts := a; short_contracts := short_contracts st |}.
Definition set_short (a : ShareAmount) (st : PositionState) : PositionState :=
  {| long_contracts := long_contracts st; short_contracts := a |}.

Definition apply_trade (side : Side) (amount : ShareAmount) (id : SourceTradeId) :
    stm PositionState LedgerError unit :=
  match side with
  | Buy =>
      st ← stm_get;
      let covered := amount_min (short_contracts st) amount in
      short ← stm_lift (map_err (λ _, Underflow id)
                          (share_checked_sub (short_contracts st) covered));
      _ ← stm_put (set_short short st);
      remainder ← stm_lift (map_err (λ _, Underflow id) (share_checked_sub amount covered));
      long ← stm_lift (map_err (λ _, Overflow id)
                         (share_checked_add (long_contracts st) remainder));
      stm_put (set_long long (set_short short st))
  | Sell =>
      st ← stm_get;
      let trimmed := amount_min (long_contracts st) amount in
      long ← stm_lift (map_err (λ _, Underflow id)
                         (share_checked_sub (long_contracts st) trimmed));
      _ ← stm_put (set_long long st);
      remainder ← stm_lift (map_err (λ _, Underflow id) (share_checked_sub amount trimmed));
      short ← stm_lift (map_err (λ _, Overflow id)
                          (share_checked_add (short_contracts st) remainder));
      stm_put (set_short short (set_long long st))
  end.

Definition outcome0 : OutcomeId := {| outcome_index := 0 |}.
Definition outcome1 : OutcomeId := {| outcome_index := 1 |}.

Section Ledger.
Context `{DO : DecimalOps} `{TO : TimeOps}.

(** ** Removing shares *)

Definition checked_remaining_long (L : PositionLedger) (mutation : LedgerMutation)
    (m : MarketId) (o : OutcomeId) (amount : ShareAmount) : result LedgerError ShareAmount :=
  let balance :=
    match (snap ← snapshots L !! mut_wallet mutation;
           positions snap !! {| market := m; outcome := o |}) with
    | Some st => long_contracts st
    | None => amount_ZERO
    end in
  map_err (λ _, Underflow (mut_source_trade_id mutation)) (share_checked_sub balance amount).

Definition checked_remove_pair (mutation : LedgerMutation) (m : MarketId) (amount : ShareAmount) :
    stm Batch LedgerError unit :=
  λ '(L, C),
    if bool_decide (amount ≠ amount_ZERO)
       && existsb (λ o, bool_decide ((m, o) ∈ C)) [outcome0; outcome1]
    then ((L, C), Err (Underflow (mut_source_trade_id mutation)))
    else
      (zero ← stm_lift (checked_remaining_long L mutation m outcome0 amount);
       one ← stm_lift (checked_remaining_long L mutation m outcome1 amount);
       _ ← with_state (mut_wallet mutation) {| market := m; outcome := outcome0 |}
             (λ st, (set_long zero st, Ok tt));
       with_state (mut_wallet mutation) {| market := m; outcome := outcome1 |}
         (λ st, (set_long one st, Ok tt))) (L, C).

(** The body of [checked_remove_redeem] on the position it borrows. *)
Definition redeem_state (id : SourceTradeId) (amount : ShareAmount) :
    stm PositionState LedgerError (option Z) :=
  st ← stm_get;
  if amount_leb amount (long_contracts st) then
    long ← stm_lift (map_err (λ _, Underflow id) (share_checked_sub (long_contracts st) amount));
    _ ← stm_put (set_long long st);
    mret None
  else
    residual ← stm_lift (map_err (λ _, Underflow id)
                           (share_checked_sub amount (long_contracts st)));
    if REDEEM_RESIDUAL_LIMIT_ATOMIC <=? atomic residual
    then stm_fail (Underflow id)
    else
      _ ← stm_put (set_long amount_ZERO st);
      mret (Some (atomic residual)).

Definition checked_remove_redeem (mutation : LedgerMutation) (m : MarketId) (o : OutcomeId)
    (amount : ShareAmount) : stm Batch LedgerError (option Z) :=
  λ '(L, C),
    if bool_decide (amount ≠ amount_ZERO) && bool_decide ((m, o) ∈ C)
    then ((L, C), Err (Underflow (mut_source_trade_id mutation)))
    else
      (r ← with_state (mut_wallet mutation) {| market := m; outcome := o |}
             (redeem_state (mut_source_trade_id mutation) amount);
       match r with
       | Some residual => _ ← close_by_residual (m, o); mret (Some residual)
       | None => mret None
       end) (L, C).

(** ** Applying one mutation in place *)

(** The guard of the trade arm: no sell out of a residual-closed position. *)
Definition refuse_closed_sell (id : SourceTradeId) (m : MarketId) (o : OutcomeId) (side : Side)
    (amount : ShareAmount) : stm Batch LedgerError unit :=
  λ '(L, C),
    if bool_decide (side = Sell) && bool_decide (amount ≠ amount_ZERO)
       && bool_decide ((m, o) ∈ C)
    then ((L, C), Err (Underflow id))
    else ((L, C), Ok tt).

Definition apply_effect (mutation : LedgerMutation) : stm Batch LedgerError (option Z) :=
  let id := mut_source_trade_id mutation in
  let w := mut_wallet mutation in
  match effective (mut_effect mutation) with
  | Trade m o side amount _ =>
      _ ← refuse_closed_sell id m o side amount;
      _ ← with_state w {| market := m; outcome := o |} (apply_trade side amount id);
      mret None
  | Split m amount =>
      _ ← stm_for [outcome0; outcome1] (λ o,
            with_state w {| market := m; outcome := o |}
              (st ← stm_get;
               long ← stm_lift (map_err (λ _, Overflow id)
                                  (share_checked_add (long_contracts st) amount));
               stm_put (set_long long st)));
      mret None
  | Merge m amount => _ ← checked_remove_pair mutation m amount; mret None
  | Redeem m o amount => checked_remove_redeem mutation m o amount
  | Conversion => stm_fail (ConversionError id)
  | RequiresAnchor | RawOnly => mret None
  | UnknownEffect => stm_fail (UnknownEffectError id)
  | Corrected _ _ => mret None
  end.

Definition apply_in_place (mutation : LedgerMutation) : stm Batch LedgerError AppliedEffect :=
  clamped ← apply_effect mutation;
  mret {| applied_effect := mut_effect mutation; clamped_residual := clamped |}.

(** ** Atomic application *)
Definition apply (mutation : LedgerMutation) : stm PositionLedger LedgerError unit :=
  λ self, match apply_in_place mutation (self, ∅) with
          | ((candidate, _), Ok _) => (candidate, Ok tt)
          | (_, Err e) => (self, Err e)
          end.

Definition apply_all_in_place (mutations : list LedgerMutation) :
    stm PositionLedger LedgerError (list AppliedEffect) :=
  λ self, let '((L, _), r) := stm_map mutations apply_in_place (self, ∅) in (L, r).

Definition simulate_all_or_none (self : PositionLedger) (mutations : list LedgerMutation) :
    result LedgerError (PositionLedger * list AppliedEffect) :=
  let '(candidate, r) := apply_all_in_place mutations self in
  applied ← r; Ok (candidate, applied).

Definition apply_all_or_none (mutations : list LedgerMutation) :
    stm PositionLedger LedgerError (list AppliedEffect) :=
  λ self, match simulate_all_or_none self mutations with
          | Ok (candidate, applied) => (candidate, Ok applied)
          | Err e => (self, Err e)
          end.

Definition trade_mutation (trade : IncomingTrade) : LedgerMutation := {|
  mut_source_trade_id := trade_source_trade_id trade;
  mut_transaction_hash :=
    default (source_trade_id (trade_source_trade_id trade)) (trade_transaction_hash trade);
  mut_wallet := trade_wallet trade;
  mut_source_time := {| source_timestamp := trade_observed_at trade |};
  mut_effect := Trade (trade_market_id trade) (trade_outcome_id trade) (trade_side trade)
                  (trade_contracts trade) (trade_price trade)
|}.
Definition ingest (trade : IncomingTrade) : stm PositionLedger LedgerError unit :=
  apply (trade_mutation trade).

(** ** Restoring and replacing *)
Definition restore (L : PositionLedger) (w : WalletAddress) (k : MarketOutcomeId)
    (prev : option (ShareAmount * ShareAmount)) : PositionLedger :=
  match snapshots L !! w with
  | None => L
  | Some snap =>
      let positions' :=
        match prev with
        | Some (long, short) =>
            <[k := {| long_contracts := long; short_contracts := short |}]> (positions snap)
        | None => delete k (positions snap)
        end in
      {| snapshots := <[w := {| snapshot_wallet := snapshot_wallet snap;
                                positions := positions' |}]> (snapshots L) |}
  end.

Definition replace_wallet_snapshot (L : PositionLedger) (w : WalletAddress)
    (ps : gmap MarketOutcomeId PositionState) : PositionLedger :=
  {| snapshots := <[w := {| snapshot_wallet := w; positions := ps |}]> (snapshots L) |}.

End Ledger.

(** ** Reading back a write *)

Lemma wallet_snapshot_set_state L w k st :
  wallet_snapshot (set_state L w k st) w
  = {| snapshot_wallet := snapshot_wallet (wallet_snapshot L w);
       positions := <[k := st]> (positions (wallet_snapshot L w)) |}.
Proof. unfold wallet_snapshot, set_state. simpl. by rewrite lookup_insert_eq. Qed.

Lemma get_set_state L w k st w' k' :
  get_state (set_state L w k st) w' k'
  = if decide (w' = w ∧ k' = k) then st else get_state L w' k'.
Proof.
  unfold get_state, wallet_snapshot, set_state. simpl. destruct (decide (w' = w)) as [->|Hw].
  - rewrite lookup_insert_eq. simpl. destruct (decide (k' = k)) as [->|Hk].
    + by rewrite lookup_insert_eq, decide_True.
    + rewrite lookup_insert_ne by done. rewrite decide_False by naive_solver. done.
  - rewrite lookup_insert_ne by done. by rewrite decide_False by naive_solver.
Qed.

Lemma get_set_state_eq L w k st : get_state (set_state L w k st) w k = st.
Proof. by rewrite get_set_state, decide_True. Qed.

Lemma get_set_state_ne L w k st k' : k' ≠ k →
  get_state (set_state L w k st) w k' = get_state L w k'.
Proof. intros. by rewrite get_set_state, decide_False by naive_solver. Qed.

(** Every amount of every position is a [u64]. *)
Definition ledger_wf (L : PositionLedger) : Prop := ∀ w k, position_wf (get_state L w k).

Lemma ledger_wf_new : ledger_wf ledger_new.
Proof. intros w k. unfold get_state, wallet_snapshot. simpl. rewrite lookup_empty. by vm_compute. Qed.

Lemma ledger_wf_set_state L w k st :
  ledger_wf L → position_wf st → ledger_wf (set_state L w k st).
Proof. intros HL Hst w' k'. rewrite get_set_state. case_decide; eauto. Qed.

(** ** What one effect does to the positions it touches

    The abstract specification: [effect_delta] gives, from the states of the
    touched keys alone, the new states and the clamped residual, or [None] when
    the effect is refused. *)
Definition trade_result (side : Side) (amount : ShareAmount) (st : PositionState) :
    option PositionState :=
  let l := atomic (long_contracts st) in
  let s := atomic (short_contracts st) in
  let a := atomic amount in
  match side with
  | Buy =>
      l' ← fits 0 U64_MAX (l + Z.max 0 (a - s));
      Some {| long_contracts := from_atomic l'; short_contracts := from_atomic (Z.max 0 (s - a)) |}
  | Sell =>
      s' ← fits 0 U64_MAX (s + Z.max 0 (a - l));
      Some {| long_contracts := from_atomic (Z.max 0 (l - a)); short_contracts := from_atomic s' |}
  end.

(** Move the long side by a signed amount, within [u64]. *)
Definition shift_long (d : Z) (st : PositionState) : option PositionState :=
  l ← fits 0 U64_MAX (atomic (long_contracts st) + d);
  Some (set_long (from_atomic l) st).

(** The long side a redeem leaves, and the residual it clamps away. *)
Definition redeem_result (amount : ShareAmount) (st : PositionState) :
    option (PositionState * option Z) :=
  let over := atomic amount - atomic (long_contracts st) in
  if over <=? 0 then Some (set_long (from_atomic (- over)) st, None)
  else if over <? REDEEM_RESIDUAL_LIMIT_ATOMIC then Some (set_long amount_ZERO st, Some over)
  else None.

Definition zero_key (m : MarketId) : MarketOutcomeId := {| market := m; outcome := outcome0 |}.
Definition one_key (m : MarketId) : MarketOutcomeId := {| market := m; outcome := outcome1 |}.

Section Delta.
Context `{DO : DecimalOps} `{TO : TimeOps}.

Definition effect_delta (e : LedgerEffect) (st : MarketOutcomeId → PositionState)
    (closed : MarketOutcomeId → bool) : option (list (MarketOutcomeId * PositionState) * option Z) :=
  match effective e with
  | Trade m o side amount _ =>
      let k := {| market := m; outcome := o |} in
      if bool_decide (side = Sell) && bool_decide (amount ≠ amount_ZERO) && closed k then None
      else st' ← trade_result side amount (st k); Some ([(k, st')], None)
  | Split m amount =>
      a ← shift_long (atomic amount) (st (zero_key m));
      b ← shift_long (atomic amount) (st (one_key m));
      Some ([(zero_key m, a); (one_key m, b)], None)
  | Merge m amount =>
      if bool_decide (amount ≠ amount_ZERO) && (closed (zero_key m) || closed (one_key m))
      then None
      else
        a ← shift_long (- atomic amount) (st (zero_key m));
        b ← shift_long (- atomic amount) (st (one_key m));
        Some ([(zero_key m, a); (one_key m, b)], None)
  | Redeem m o amount =>
      let k := {| market := m; outcome := o |} in
      if bool_decide (amount ≠ amount_ZERO) && closed k then None
      else '(st', r) ← redeem_result amount (st k); Some ([(k, st')], r)
  | RequiresAnchor | RawOnly => Some ([], None)
  | _ => None
  end.

(** Write the new states of one wallet; close the keys of a clamped redeem. *)
Definition write_states (L : PositionLedger) (w : WalletAddress)
    (ups : list (MarketOutcomeId * PositionState)) : PositionLedger :=
  foldl (λ L u, set_state L w u.1 u.2) L ups.
Definition is_closed (C : gset (MarketId * OutcomeId)) (k : MarketOutcomeId) : bool :=
  bool_decide ((market k, outcome k) ∈ C).
Definition close_all (r : option Z) (ks : list MarketOutcomeId)
    (C : gset (MarketId * OutcomeId)) : gset (MarketId * OutcomeId) :=
  if r is Some _ then list_to_set ((λ k, (market k, outcome k)) <$> ks) ∪ C else C.

End Delta.

(** ** The operations meet the specification *)

Lemma share_sub_covered (x a : ShareAmount) : amount_wf x → amount_wf a →
  share_checked_sub x (amount_min x a) = Ok (from_atomic (Z.max 0 (atomic x - atomic a)))
  ∧ share_checked_sub a (amount_min x a) = Ok (from_atomic (Z.max 0 (atomic a - atomic x))).
Proof.
  unfold amount_wf, is_u64. intros. split; apply amount_checked_sub_Ok; simpl;
    (split; [f_equal; lia|lia]).
Qed.

Lemma share_add_fits (x y : ShareAmount) :
  share_checked_add x y
  = match fits 0 U64_MAX (atomic x + atomic y) with
    | Some z => Ok (from_atomic z) | None => Err (OutOfRange "ShareAmount") end.
Proof. unfold share_checked_add, amount_checked_add, checked_add_u64. by destruct (fits _ _ _). Qed.

Lemma share_sub_fits (x y : ShareAmount) :
  share_checked_sub x y
  = match fits 0 U64_MAX (atomic x - atomic y) with
    | Some z => Ok (from_atomic z) | None => Err (OutOfRange "ShareAmount") end.
Proof. unfold share_checked_sub, amount_checked_sub, checked_sub_u64. by destruct (fits _ _ _). Qed.

Lemma apply_trade_spec side a id st : position_wf st → amount_wf a →
  match trade_result side a st with
  | Some st' => apply_trade side a id st = (st', Ok tt)
  | None => (apply_trade side a id st).2 = Err (Overflow id)
  end.
Proof.
  intros [Hl Hs] Ha. destruct side; unfold trade_result, apply_trade, mbind, stm_mbind,
    stm_get, stm_lift, stm_put.
  - destruct (share_sub_covered _ _ Hs Ha) as [-> ->]. simpl. rewrite share_add_fits. simpl.
    by destruct (fits _ _ _).
  - destruct (share_sub_covered _ _ Hl Ha) as [-> ->]. simpl. rewrite share_add_fits. simpl.
    by destruct (fits _ _ _).
Qed.

Lemma trade_result_wf side a st st' : position_wf st → amount_wf a →
  trade_result side a st = Some st' → position_wf st'.
Proof.
  unfold position_wf, amount_wf, is_u64, trade_result. intros [? ?] ? Hr.
  destruct side; apply bind_Some in Hr as (z & [-> ?]%fits_Some & [= <-]); simpl; lia.
Qed.

Lemma shift_long_wf d st st' : position_wf st → shift_long d st = Some st' → position_wf st'.
Proof.
  unfold shift_long, position_wf. intros [? ?] (z & [-> ?]%fits_Some & [= <-])%bind_Some.
  by split.
Qed.

Lemma redeem_result_wf a st st' r : position_wf st → amount_wf a →
  redeem_result a st = Some (st', r) →
  position_wf st' ∧ (∀ z, r = Some z → 1 ≤ z < REDEEM_RESIDUAL_LIMIT_ATOMIC).
Proof.
  unfold redeem_result, position_wf, amount_wf, is_u64. intros [? ?] ? Hr.
  repeat case_match; simplify_eq/=; rust; split_and!; rust; intros; simplify_eq; rust.
Qed.

Lemma redeem_state_spec id a st : position_wf st → amount_wf a →
  match redeem_result a st with
  | Some (st', r) => redeem_state id a st = (st', Ok r)
  | None => (redeem_state id a st).2 = Err (Underflow id)
  end.
Proof.
  unfold position_wf, amount_wf, is_u64. intros [Hl Hs] Ha.
  unfold redeem_result, redeem_state, mbind, stm_mbind, stm_get, stm_lift, stm_put, amount_leb.
  destruct (atomic a - _ <=? 0) eqn:E1.
  - replace (atomic a <=? atomic (long_contracts st)) with true by (symmetry; rust).
    rewrite share_sub_fits, (proj2 (fits_Some _ _ _ _)) by (split; [reflexivity|rust]). simpl.
    unfold mret, stm_mret. do 3 f_equal. lia.
  - replace (atomic a <=? atomic (long_contracts st)) with false by (symmetry; rust).
    rewrite share_sub_fits, (proj2 (fits_Some _ _ _ _)) by (split; [reflexivity|rust]). simpl.
    destruct (_ <? REDEEM_RESIDUAL_LIMIT_ATOMIC) eqn:E2.
    + replace (REDEEM_RESIDUAL_LIMIT_ATOMIC <=? _) with false by (symmetry; rust). done.
    + replace (REDEEM_RESIDUAL_LIMIT_ATOMIC <=? _) with true by (symmetry; rust). done.
Qed.

Section Refinement.
Context `{DO : DecimalOps} `{TO : TimeOps}.

(** The error a refused effect reports. *)
Definition effect_refusal (m : LedgerMutation) (closed : MarketOutcomeId → bool) : LedgerError :=
  let id := mut_source_trade_id m in
  match effective (mut_effect m) with
  | Trade mk o side _ _ =>
      if bool_decide (side = Sell) && bool_decide (effect_amount (mut_effect m) ≠ amount_ZERO)
         && closed {| market := mk; outcome := o |} then Underflow id else Overflow id
  | Split _ _ => Overflow id
  | Merge _ _ | Redeem _ _ _ => Underflow id
  | Conversion => ConversionError id
  | _ => UnknownEffectError id
  end.

Lemma zero_one_key m : zero_key m ≠ one_key m.
Proof. done. Qed.

Lemma checked_remaining_long_spec L mu m o a :
  checked_remaining_long L mu m o a
  = match fits 0 U64_MAX
            (atomic (long_contracts (get_state L (mut_wallet mu) {| market := m; outcome := o |}))
             - atomic a) with
    | Some z => Ok (from_atomic z)
    | None => Err (Underflow (mut_source_trade_id mu))
    end.
Proof.
  unfold checked_remaining_long, get_state, wallet_snapshot. rewrite share_sub_fits.
  destruct (snapshots L !! mut_wallet mu) as [snap|]; simpl.
  - destruct (positions snap !! _); simpl; by destruct (fits _ _ _).
  - rewrite lookup_empty. simpl. by destruct (fits _ _ _).
Qed.

Lemma with_state_Ok {E A} w k (f : stm PositionState E A) L C st' a :
  f (get_state L w k) = (st', Ok a) → with_state w k f (L, C) = ((set_state L w k st', C), Ok a).
Proof. unfold with_state. by intros ->. Qed.

Lemma with_state_Err {E A} w k (f : stm PositionState E A) L C e :
  (f (get_state L w k)).2 = Err e → (with_state w k f (L, C)).2 = Err e.
Proof. unfold with_state. by destruct (f _) as [st' r]. Qed.

Lemma apply_trade_arm w k side a id L C : ledger_wf L → amount_wf a →
  match trade_result side a (get_state L w k) with
  | Some st' => (_ ← with_state w k (apply_trade side a id); mret (M := stm Batch LedgerError) (@None Z)) (L, C)
                = ((set_state L w k st', C), Ok None)
  | None => ((_ ← with_state w k (apply_trade side a id); mret (M := stm Batch LedgerError) (@None Z)) (L, C)).2
            = Err (Overflow id)
  end.
Proof.
  intros HL Ha. pose proof (apply_trade_spec side a id _ (HL w k) Ha) as H.
  destruct (trade_result _ _ _) as [st'|].
  - rewrite stm_bind_run. by rewrite (with_state_Ok _ _ _ _ _ _ _ H).
  - by apply stm_bind_Err_l, with_state_Err.
Qed.

Lemma split_arm w k id a L C :
  let add := with_state w k
    (st ← stm_get;
     long ← stm_lift (map_err (λ _, Overflow id) (share_checked_add (long_contracts st) a));
     stm_put (set_long long st)) in
  match shift_long (atomic a) (get_state L w k) with
  | Some st' => add (L, C) = ((set_state L w k st', C), Ok tt)
  | None => (add (L, C)).2 = Err (Overflow id)
  end.
Proof.
  simpl. unfold shift_long. destruct (fits _ _ _) as [z|] eqn:E; simpl.
  - apply with_state_Ok. rewrite stm_bind_run. simpl. rewrite stm_bind_run. unfold stm_lift.
    by rewrite share_add_fits, E.
  - apply with_state_Err. rewrite stm_bind_run. simpl. rewrite stm_bind_run. unfold stm_lift.
    by rewrite share_add_fits, E.
Qed.

Lemma apply_in_place_run m L C :
  apply_in_place m (L, C)
  = match apply_effect m (L, C) with
    | (s, Ok r) => (s, Ok {| applied_effect := mut_effect m; clamped_residual := r |})
    | (s, Err e) => (s, Err e)
    end.
Proof. done. Qed.

(** A run of the effect on [(L, C)] is what [effect_delta] says. *)
Definition effect_meets (m : LedgerMutation) (L : PositionLedger) (C : gset (MarketId * OutcomeId))
    (run : Batch * result LedgerError (option Z)) : Prop :=
  match effect_delta (mut_effect m) (get_state L (mut_wallet m)) (is_closed C) with
  | Some (ups, r) => run = ((write_states L (mut_wallet m) ups, close_all r ups.*1 C), Ok r)
  | None => run.2 = Err (effect_refusal m (is_closed C))
  end.

Lemma effect_meets_split m L C mk a :
  effective (mut_effect m) = Split mk a → effect_meets m L C (apply_effect m (L, C)).
Proof.
  intros E. unfold effect_meets, effect_delta, effect_refusal, apply_effect. rewrite E.
  pose proof (split_arm (mut_wallet m) (zero_key mk) (mut_source_trade_id m) a L C) as H0.
  cbv zeta in H0. unfold zero_key in *. cbn [stm_for].
  destruct (shift_long (atomic a) _) as [st0|].
  2:{ by do 2 apply stm_bind_Err_l. }
  rewrite 2 stm_bind_run, H0, stm_bind_run.
  pose proof (split_arm (mut_wallet m) (one_key mk) (mut_source_trade_id m) a
    (set_state L (mut_wallet m) (zero_key mk) st0) C) as H1.
  cbv zeta in H1. rewrite get_set_state, decide_False in H1 by naive_solver.
  unfold zero_key, one_key in *. simpl (Some _ ≫= _).
  destruct (shift_long (atomic a) _) as [st1|].
  - by rewrite H1.
  - clear H0. by destruct (with_state _ _ _ _) as [? []]; simplify_eq/=.
Qed.

Lemma effect_meets_merge m L C mk a :
  effective (mut_effect m) = Merge mk a → effect_meets m L C (apply_effect m (L, C)).
Proof.
  intros E. unfold effect_meets, effect_delta, effect_refusal, apply_effect, checked_remove_pair.
  rewrite E, stm_bind_run. simpl. rewrite orb_false_r.
  change (bool_decide ((mk, outcome0) ∈ C)) with (is_closed C (zero_key mk)).
  change (bool_decide ((mk, outcome1) ∈ C)) with (is_closed C (one_key mk)).
  destruct (_ && _); [done|]. rewrite stm_bind_run. unfold stm_lift at 1.
  rewrite checked_remaining_long_spec. unfold shift_long. rewrite !Z.add_opp_r.
  unfold zero_key, one_key.
  destruct (fits _ _ (_ (_ (_ _ _ {| outcome := outcome0 |})) - _)) as [z0|]; [|done]. simpl.
  rewrite stm_bind_run. unfold stm_lift at 1. rewrite checked_remaining_long_spec.
  destruct (fits _ _ (_ (_ (_ _ _ {| outcome := outcome1 |})) - _)) as [z1|]; [|done]. simpl.
  rewrite get_set_state, decide_False by naive_solver. done.
Qed.

Lemma effect_meets_redeem m L C mk o a : ledger_wf L → amount_wf a →
  effective (mut_effect m) = Redeem mk o a → effect_meets m L C (apply_effect m (L, C)).
Proof.
  intros HL Ha E. unfold effect_meets, effect_delta, effect_refusal, apply_effect.
  rewrite E. unfold checked_remove_redeem.
  change (bool_decide ((mk, o) ∈ C)) with (is_closed C {| market := mk; outcome := o |}).
  destruct (_ && _); [done|].
  pose proof (redeem_state_spec (mut_source_trade_id m) a _
    (HL (mut_wallet m) {| market := mk; outcome := o |}) Ha) as H.
  destruct (redeem_result _ _) as [[st' r]|]; simpl.
  - rewrite stm_bind_run, (with_state_Ok _ _ _ _ _ _ _ H).
    destruct r as [z|]; [|done]. rewrite stm_bind_run. simpl.
    by rewrite union_empty_r_L.
  - by apply stm_bind_Err_l, with_state_Err.
Qed.

Lemma effect_meets_trade m L C mk o side a p : ledger_wf L → amount_wf a →
  effective (mut_effect m) = Trade mk o side a p → effect_meets m L C (apply_effect m (L, C)).
Proof.
  intros HL Ha E. unfold effect_meets, effect_delta, effect_refusal, effect_amount, apply_effect.
  rewrite E, stm_bind_run. unfold refuse_closed_sell.
  change (bool_decide ((mk, o) ∈ C)) with (is_closed C {| market := mk; outcome := o |}).
  destruct (_ && _); [done|].
  pose proof (apply_trade_arm (mut_wallet m) {| market := mk; outcome := o |} side a
    (mut_source_trade_id m) L C HL Ha) as H.
  by destruct (trade_result _ _ _).
Qed.

Lemma apply_effect_meets m L C :
  ledger_wf L → mutation_wf m → effect_meets m L C (apply_effect m (L, C)).
Proof.
  unfold mutation_wf, effect_amount. intros HL Hm.
  destruct (effective (mut_effect m)) eqn:E.
  - by eapply effect_meets_trade.
  - by eapply effect_meets_split.
  - by eapply effect_meets_merge.
  - by eapply effect_meets_redeem.
  - unfold effect_meets, effect_delta, apply_effect. by rewrite E.
  - unfold effect_meets, effect_delta, effect_refusal, apply_effect. by rewrite E.
  - unfold effect_meets, effect_delta, apply_effect. by rewrite E.
  - unfold effect_meets, effect_delta, effect_refusal, apply_effect. by rewrite E.
  - by apply effective_not_corrected in E.
Qed.

(** The refinement in the form the later files use. *)
Lemma apply_in_place_delta m L C : ledger_wf L → mutation_wf m →
  match effect_delta (mut_effect m) (get_state L (mut_wallet m)) (is_closed C) with
  | Some (ups, r) =>
      apply_in_place m (L, C)
      = ((write_states L (mut_wallet m) ups, close_all r ups.*1 C),
         Ok {| applied_effect := mut_effect m; clamped_residual := r |})
  | None => (apply_in_place m (L, C)).2 = Err (effect_refusal m (is_closed C))
  end.
Proof.
  intros HL Hm. pose proof (apply_effect_meets m L C HL Hm) as H.
  unfold effect_meets in H. rewrite apply_in_place_run.
  destruct (effect_delta _ _ _) as [[ups r]|].
  - by rewrite H.
  - by destruct (apply_effect m (L, C)) as [s []]; simplify_eq/=.
Qed.

End Refinement.

(** ** Consequences of the specification *)

Section DeltaFacts.
Context `{DO : DecimalOps} `{TO : TimeOps}.

Lemma effect_delta_keys e st cl ups r :
  effect_delta e st cl = Some (ups, r) → ups.*1 = effect_keys e.
Proof.
  unfold effect_delta, effect_keys. intros H.
  destruct (effective e); case_hyp H; try done;
    repeat (apply bind_Some in H as (? & ? & H)); case_hyp H; simplify_eq/=; done.
Qed.

Lemma effect_delta_local e st cl st' cl' :
  (∀ k, k ∈ effect_keys e → st k = st' k ∧ cl k = cl' k) →
  effect_delta e st cl = effect_delta e st' cl'.
Proof.
  unfold effect_delta, effect_keys. intros H. destruct (effective e); try done; cbv zeta;
  repeat match goal with
    | |- context [st ?k] =>
        destruct (H k) as [E1 E2]; [unfold zero_key, one_key; set_solver|];
        rewrite ?E1, ?E2; clear E1 E2
    end; done.
Qed.

Lemma effect_delta_wf e st cl ups r : (∀ k, position_wf (st k)) → amount_wf (effect_amount e) →
  effect_delta e st cl = Some (ups, r) →
  Forall (λ u, position_wf u.2) ups
  ∧ (∀ z, r = Some z → 1 ≤ z < REDEEM_RESIDUAL_LIMIT_ATOMIC).
Proof.
  unfold effect_delta, effect_amount. intros Hst Ha H.
  destruct (effective e); case_hyp H; try (by repeat constructor);
    repeat (apply bind_Some in H as (? & ? & H)); case_hyp H; simplify_eq/=.
  all: split; [|first [done|by eapply redeem_result_wf]].
  all: repeat apply Forall_cons_2; try apply Forall_nil_2; simpl;
    eauto using trade_result_wf, shift_long_wf.
  by eapply redeem_result_wf.
Qed.

Lemma write_states_other L w ups w' : w' ≠ w →
  snapshots (write_states L w ups) !! w' = snapshots L !! w'.
Proof.
  intros Hw. revert L. induction ups as [|u ups IH]; intros L; simpl; [done|].
  rewrite IH. simpl. by rewrite lookup_insert_ne.
Qed.

Lemma write_states_positions L w ups :
  snapshot_wallet (wallet_snapshot (write_states L w ups) w) = snapshot_wallet (wallet_snapshot L w)
  ∧ positions (wallet_snapshot (write_states L w ups) w)
    = foldl (λ p u, <[u.1 := u.2]> p) (positions (wallet_snapshot L w)) ups.
Proof.
  revert L. induction ups as [|u ups IH]; intros L; simpl; [done|].
  destruct (IH (set_state L w u.1 u.2)) as [-> ->]. by rewrite wallet_snapshot_set_state.
Qed.

Lemma write_states_exists L w ups :
  is_Some (snapshots (write_states L w ups) !! w) ↔ is_Some (snapshots L !! w) ∨ ups ≠ [].
Proof.
  revert L. induction ups as [|u ups IH]; intros L; simpl; [naive_solver|].
  rewrite IH. simpl. rewrite lookup_insert_eq. split; [by right|by left].
Qed.

Lemma write_states_get_other L w ups w' k : w' ≠ w ∨ k ∉ ups.*1 →
  get_state (write_states L w ups) w' k = get_state L w' k.
Proof.
  revert L. induction ups as [|u ups IH]; intros L H; simpl; [done|]. csimpl in *.
  rewrite IH by set_solver. rewrite get_set_state, decide_False; [done|]. set_solver.
Qed.

Lemma write_states_wf L w ups :
  ledger_wf L → Forall (λ u, position_wf u.2) ups → ledger_wf (write_states L w ups).
Proof.
  intros HL Hups. revert L HL. induction Hups; intros L HL; simpl; [done|].
  by apply IHHups, ledger_wf_set_state.
Qed.

(** Two ledgers are equal when they hold the same wallets and the same positions. *)
Lemma ledger_ext L1 L2 w :
  (∀ w', w' ≠ w → snapshots L1 !! w' = snapshots L2 !! w') →
  wallet_snapshot L1 w = wallet_snapshot L2 w →
  (is_Some (snapshots L1 !! w) ↔ is_Some (snapshots L2 !! w)) → L1 = L2.
Proof.
  intros Ho Hw He. destruct L1 as [s1], L2 as [s2]. f_equal. apply map_eq. intros w'.
  destruct (decide (w' = w)) as [->|Hn]; [|by apply Ho].
  unfold wallet_snapshot in Hw. simpl in *.
  destruct (s1 !! w) eqn:E1, (s2 !! w) eqn:E2; simpl in *; subst; try done.
  - destruct (proj1 He (mk_is_Some _ _ eq_refl)). done.
  - destruct (proj2 He (mk_is_Some _ _ eq_refl)). done.
Qed.

(** ** Batches of successful steps *)

Lemma apply_in_place_Ok m L C s a : ledger_wf L → mutation_wf m →
  apply_in_place m (L, C) = (s, Ok a) →
  ∃ ups, effect_delta (mut_effect m) (get_state L (mut_wallet m)) (is_closed C)
         = Some (ups, clamped_residual a)
    ∧ s = (write_states L (mut_wallet m) ups, close_all (clamped_residual a) ups.*1 C)
    ∧ applied_effect a = mut_effect m.
Proof.
  intros HL Hm Hrun. pose proof (apply_in_place_delta m L C HL Hm) as H.
  destruct (effect_delta _ _ _) as [[ups r]|].
  - rewrite H in Hrun. simplify_eq. eauto.
  - by rewrite Hrun in H.
Qed.

Lemma apply_in_place_wf m L C L' C' a : ledger_wf L → mutation_wf m →
  apply_in_place m (L, C) = ((L', C'), Ok a) → ledger_wf L'.
Proof.
  intros HL Hm Hrun. apply apply_in_place_Ok in Hrun as (ups & Hd & ? & _); [|done|done].
  simplify_eq. apply write_states_wf; [done|]. eapply effect_delta_wf in Hd; naive_solver.
Qed.

Lemma stm_map_cons_Ok {S E A B} (f : A → stm S E B) a l s s' bs :
  stm_map (a :: l) f s = (s', Ok bs) ↔
  ∃ b s1 bs', f a s = (s1, Ok b) ∧ stm_map l f s1 = (s', Ok bs') ∧ bs = b :: bs'.
Proof.
  simpl. rewrite stm_bind_Ok. setoid_rewrite stm_bind_Ok. unfold mret, stm_mret.
  split; [intros (b & s1 & ? & bs' & s2 & ? & ?); simplify_eq; eauto 10|].
  intros (b & s1 & bs' & ? & ? & ->). eauto 10.
Qed.

Lemma stm_map_wf ms L C L' C' applied : ledger_wf L → Forall mutation_wf ms →
  stm_map ms apply_in_place (L, C) = ((L', C'), Ok applied) → ledger_wf L'.
Proof.
  intros HL Hms. revert L C applied HL.
  induction Hms as [|m ms Hm Hms IH]; intros L C applied HL.
  - intros [= <- <- <-]. done.
  - rewrite stm_map_cons_Ok. intros (a & [L1 C1] & as' & H1 & H2 & _).
    eapply IH; [|exact H2]. by eapply apply_in_place_wf.
Qed.

Lemma simulate_Ok L ms L' applied :
  simulate_all_or_none L ms = Ok (L', applied) ↔
  ∃ C', stm_map ms apply_in_place (L, ∅) = ((L', C'), Ok applied).
Proof.
  unfold simulate_all_or_none, apply_all_in_place.
  destruct (stm_map ms apply_in_place (L, ∅)) as [[L1 C1] [x|e]]; simpl; naive_solver.
Qed.

End DeltaFacts.

(** ** The ledger's guarantees *)

Lemma from_atomic_ne x y : from_atomic x ≠ from_atomic y → x ≠ y.
Proof. congruence. Qed.
Ltac amounts :=
  repeat match goal with
    | H : from_atomic _ ≠ from_atomic _ |- _ => apply from_atomic_ne in H
    end.

(** The positions closed by a clamped redeem among applied effects. *)
Definition clamped_keys `{DecimalOps} (applied : list AppliedEffect) : list MarketOutcomeId :=
  mjoin ((λ a, if clamped_residual a is Some _ then effect_keys (applied_effect a) else []) <$> applied).

(** The exposure on the traded side, and the one a trade covers first. *)
Definition own_side (side : Side) (st : PositionState) : Z :=
  match side with Buy => atomic (long_contracts st) | Sell => atomic (short_contracts st) end.
Definition opposite_side (side : Side) (st : PositionState) : Z :=
  match side with Buy => atomic (short_contracts st) | Sell => atomic (long_contracts st) end.
Definition net_exposure (st : PositionState) : Z :=
  atomic (long_contracts st) - atomic (short_contracts st).

Section Guarantees.
Context `{DO : DecimalOps} `{TO : TimeOps}.

Lemma apply_delta m L : ledger_wf L → mutation_wf m →
  apply m L
  = match effect_delta (mut_effect m) (get_state L (mut_wallet m)) (is_closed ∅) with
    | Some (ups, _) => (write_states L (mut_wallet m) ups, Ok tt)
    | None => (L, Err (effect_refusal m (is_closed ∅)))
    end.
Proof.
  intros HL Hm. unfold apply. pose proof (apply_in_place_delta m L ∅ HL Hm) as H.
  destruct (effect_delta _ _ _) as [[ups r]|]; [by rewrite H|].
  destruct (apply_in_place m (L, ∅)) as [[L1 C1] [x|e]]; simpl in H; congruence.
Qed.

(** C18: [apply] implements the specification [effect_delta]: on a well-formed
    ledger it writes exactly the specified states of the touched positions and
    succeeds, or it reports the specified error and leaves the ledger as it was. *)
Theorem apply_refines_delta m L : ledger_wf L → mutation_wf m →
  apply m L
  = match effect_delta (mut_effect m) (get_state L (mut_wallet m)) (is_closed ∅) with
    | Some (ups, _) => (write_states L (mut_wallet m) ups, Ok tt)
    | None => (L, Err (effect_refusal m (is_closed ∅)))
    end.
Proof. apply apply_delta. Qed.

Lemma stm_map_applied ms L C s applied : ledger_wf L → Forall mutation_wf ms →
  stm_map ms apply_in_place (L, C) = (s, Ok applied) →
  applied_effect <$> applied = mut_effect <$> ms
  ∧ Forall (λ a, ∀ z, clamped_residual a = Some z → 1 ≤ z < REDEEM_RESIDUAL_LIMIT_ATOMIC) applied.
Proof.
  intros HL Hms. revert L C applied HL. induction Hms as [|m ms Hm Hms IH]; intros L C applied HL.
  - intros [= <- <-]. repeat constructor.
  - rewrite stm_map_cons_Ok. intros (a & [L1 C1] & as' & H1 & H2 & ->).
    destruct (IH L1 C1 as') as [IH1 IH2]; [by eapply apply_in_place_wf|done|].
    apply apply_in_place_Ok in H1 as (ups & Hd & _ & He); [|done|done].
    csimpl. rewrite He, IH1. split; [done|]. constructor; [|done].
    eapply effect_delta_wf; [|exact Hm|exact Hd]. intros k. apply HL.
Qed.

(** C32: a batch is all or nothing, keeps every position a [u64], reports one
    outcome per mutation in order, and clamps at most 99 atomic units each time. *)
Theorem apply_all_or_none_atomic ms L L' r : ledger_wf L → Forall mutation_wf ms →
  apply_all_or_none ms L = (L', r) →
  ledger_wf L'
  ∧ match r with
    | Err _ => L' = L
    | Ok applied =>
        simulate_all_or_none L ms = Ok (L', applied)
        ∧ applied_effect <$> applied = mut_effect <$> ms
        ∧ Forall (λ a, ∀ z, clamped_residual a = Some z →
                            1 ≤ z < REDEEM_RESIDUAL_LIMIT_ATOMIC) applied
    end.
Proof.
  intros HL Hms. unfold apply_all_or_none.
  destruct (simulate_all_or_none L ms) as [[L1 applied]|e] eqn:E; intros [= <- <-]; [|done].
  pose proof E as (C' & Hrun)%simulate_Ok.
  split; [by eapply stm_map_wf|]. split; [done|]. by eapply stm_map_applied.
Qed.

Lemma delta_clamped_open e st cl ups z : (∀ k, position_wf (st k)) →
  effect_delta e st cl = Some (ups, Some z) →
  ∃ k, effect_keys e = [k] ∧ cl k = false.
Proof.
  unfold effect_delta, effect_keys. intros Hst H.
  destruct (effective e) as [| | |m o a| | | | |]; case_hyp H;
    try (by repeat (apply bind_Some in H as (? & ? & H)); case_hyp H).
  eexists. split; [done|].
  apply bind_Some in H as ([st' r] & Hr & H). simplify_eq/=.
  destruct (cl _); [|done]. rewrite andb_true_r in *.
  assert (a = amount_ZERO) as -> by (by destruct (decide (a = amount_ZERO)); case_bool_decide).
  unfold redeem_result in Hr. destruct (Hst {| market := m; outcome := o |}) as [Hl _].
  unfold amount_wf, is_u64 in Hl. simpl in Hr.
  replace (0 - _ <=? 0) with true in Hr by (symmetry; rust). simplify_eq.
Qed.

Lemma close_all_mono r ks C x : x ∈ C → x ∈ close_all r ks C.
Proof. unfold close_all. destruct r; set_solver. Qed.

Lemma stm_map_clamped ms L C s applied : ledger_wf L → Forall mutation_wf ms →
  stm_map ms apply_in_place (L, C) = (s, Ok applied) →
  NoDup (clamped_keys applied) ∧ (∀ k, k ∈ clamped_keys applied → is_closed C k = false).
Proof.
  intros HL Hms. revert L C applied HL. induction Hms as [|m ms Hm Hms IH]; intros L C applied HL.
  - intros [= <- <-]. split; [constructor|set_solver].
  - rewrite stm_map_cons_Ok. intros (a & [L1 C1] & as' & H1 & H2 & ->).
    destruct (IH L1 C1 as') as [IH1 IH2]; [by eapply apply_in_place_wf|done|].
    apply apply_in_place_Ok in H1 as (ups & Hd & [= -> ->] & He); [|done|done].
    unfold clamped_keys. csimpl. fold (clamped_keys as').
    assert (∀ k, k ∈ clamped_keys as' → is_closed C k = false) as Hopen.
    { intros k Hk. specialize (IH2 k Hk). unfold is_closed in *. apply bool_decide_eq_false in IH2.
      apply bool_decide_eq_false. intros ?. by apply IH2, close_all_mono. }
    destruct (clamped_residual a) as [z|] eqn:Ez; [|done].
    destruct (delta_clamped_open _ _ _ _ _ (HL (mut_wallet m)) Hd) as (k & Hk & Ho).
    rewrite He, Hk. simpl. split; [constructor; [|done]|set_solver].
    intros Hin. specialize (IH2 k Hin). unfold is_closed in IH2.
    apply bool_decide_eq_false in IH2. apply IH2.
    rewrite (effect_delta_keys _ _ _ _ _ Hd), Hk. simpl. set_solver.
Qed.

(** the redeem tolerance cannot stack: in one batch a market outcome is
    clamped at most once, however many redeems it carries. *)
Theorem residuals_do_not_stack ms L L' applied : ledger_wf L → Forall mutation_wf ms →
  simulate_all_or_none L ms = Ok (L', applied) → NoDup (clamped_keys applied).
Proof. intros HL Hms (C' & H)%simulate_Ok. by eapply stm_map_clamped. Qed.

End Guarantees.

Section Trading.
Context `{DO : DecimalOps} `{TO : TimeOps}.

Definition trade_key (t : IncomingTrade) : MarketOutcomeId :=
  {| market := trade_market_id t; outcome := trade_outcome_id t |}.

Lemma ingest_delta t L : ledger_wf L → amount_wf (trade_contracts t) →
  ingest t L
  = match trade_result (trade_side t) (trade_contracts t)
            (get_state L (trade_wallet t) (trade_key t)) with
    | Some st' => (set_state L (trade_wallet t) (trade_key t) st', Ok tt)
    | None => (L, Err (Overflow (trade_source_trade_id t)))
    end.
Proof.
  intros HL Ha. unfold ingest. rewrite apply_delta by done.
  unfold effect_delta, effect_refusal, is_closed. simpl.
  rewrite !(bool_decide_eq_false_2 (_ ∈ ∅)) by set_solver. rewrite !andb_false_r.
  fold (trade_key t). by destruct (trade_result _ _ _).
Qed.

(** a recorded trade moves the net exposure of its own position by exactly
    the traded amount, never opens both sides of a one-sided position, and leaves
    every other position of every wallet alone. *)
Theorem ingest_net_exposure t L L' : ledger_wf L → amount_wf (trade_contracts t) →
  ingest t L = (L', Ok tt) →
  let st := get_state L (trade_wallet t) (trade_key t) in
  let st' := get_state L' (trade_wallet t) (trade_key t) in
  net_exposure st'
  = match trade_side t with
    | Buy => net_exposure st + atomic (trade_contracts t)
    | Sell => net_exposure st - atomic (trade_contracts t)
    end
  ∧ (own_side Buy st = 0 ∨ opposite_side Buy st = 0 →
     own_side Buy st' = 0 ∨ opposite_side Buy st' = 0)
  ∧ (∀ w k, (w, k) ≠ (trade_wallet t, trade_key t) → get_state L' w k = get_state L w k).
Proof.
  intros HL Ha Hi. rewrite ingest_delta in Hi by done.
  destruct (trade_result _ _ _) as [st'|] eqn:Ht; simplify_eq. cbv zeta.
  rewrite !get_set_state, decide_True by done.
  destruct (HL (trade_wallet t) (trade_key t)) as [Hl Hs].
  unfold amount_wf, is_u64 in *.
  split_and!; [| |intros w k Hn; rewrite get_set_state, decide_False by naive_solver; done];
    unfold trade_result, net_exposure, own_side, opposite_side in *;
    destruct (trade_side t); apply bind_Some in Ht as (z & [-> ?]%fits_Some & [= <-]); simpl; lia.
Qed.

(** A wallet without a snapshot is flat, and a trade opens its own side. *)
Lemma opened_from_nothing t L L' (q : ReconstructionQuality) : quality q = 0 → position L (trade_wallet t) = None →
  match trade_result (trade_side t) (trade_contracts t) (get_state L (trade_wallet t) (trade_key t)) with
  | Some st' => (set_state L (trade_wallet t) (trade_key t) st', Ok tt)
  | None => (L, Err (Overflow (trade_source_trade_id t)))
  end = (L', Ok tt) →
  amount_wf (trade_contracts t) →
  let st := get_state L (trade_wallet t) (trade_key t) in
  let st' := get_state L' (trade_wallet t) (trade_key t) in
  quality q = 0 ∧ position L (trade_wallet t) = None
  ∧ own_side (trade_side t) st = 0 ∧ opposite_side (trade_side t) st = 0
  ∧ own_side (trade_side t) st' = atomic (trade_contracts t) ∧ opposite_side (trade_side t) st' = 0.
Proof.
  intros Hq Hn Ht Ha. cbv zeta. assert (get_state L (trade_wallet t) (trade_key t) = PositionState_default) as Hs.
  { unfold get_state, wallet_snapshot, position in *. by rewrite Hn. }
  rewrite Hs in *. destruct (trade_result _ _ _) as [st'|] eqn:E; simplify_eq. rewrite get_set_state, decide_True by done.
  unfold amount_wf, is_u64 in Ha. revert E. unfold trade_result. destruct (trade_side t); simpl;
    intros (z & [-> ?]%fits_Some & [= <-])%bind_Some; simpl; split_and!; try done; lia.
Qed.

(** C37: the classifier names what the ledger then does.  For a trade the ledger
    accepts, the action computed from the pre-trade snapshot determines the change
    on both sides of the position: an entry opens a flat position, an add grows
    it, a trim or exit only reduces the opposite side (down to the near-close
    share for an exit), a flip closes it and opens the remainder; the unknown action is
    reported only for a wallet without a snapshot and without quality, whose position the
    trade opens from nothing, as an entry does. *)
Theorem classification_matches_ledger t q cfg L L' :
  ledger_wf L → amount_wf (trade_contracts t) → ingest t L = (L', Ok tt) →
  let a := atomic (trade_contracts t) in
  let st := get_state L (trade_wallet t) (trade_key t) in
  let st' := get_state L' (trade_wallet t) (trade_key t) in
  let own := own_side (trade_side t) in
  let opp := opposite_side (trade_side t) in
  match classify_leader_action t (position L (trade_wallet t)) q cfg with
  | Entry => own st = 0 ∧ opp st = 0 ∧ own st' = a ∧ opp st' = 0
  | Add => 0 < own st ∧ opp st = 0 ∧ own st' = own st + a ∧ opp st' = 0
  | Flip => 0 < opp st < a ∧ opp st' = 0 ∧ own st' = own st + (a - opp st)
  | Exit => a ≤ opp st ∧ own st' = own st ∧ opp st' = opp st - a
            ∧ opp st' * 100 ≤ opp st * near_close_remaining_pct cfg
  | Trim => a ≤ opp st ∧ own st' = own st ∧ opp st' = opp st - a
            ∧ opp st * near_close_remaining_pct cfg < opp st' * 100
  | UnknownAction => quality q = 0 ∧ position L (trade_wallet t) = None
                     ∧ own st = 0 ∧ opp st = 0 ∧ own st' = a ∧ opp st' = 0
  end.
Proof.
  intros HL Ha Hi. rewrite ingest_delta in Hi by done. cbv zeta.
  destruct (classify_leader_action t (position L (trade_wallet t)) q cfg) eqn:Hc;
    [..|by apply classify_unknown in Hc as [Hq Hn]; eapply opened_from_nothing].
  all: destruct (trade_result _ _ _) as [st'|] eqn:Ht; simplify_eq.
  all: rewrite !get_set_state, decide_True by done.
  all: revert Hc Ht; unfold classify_leader_action; fold (trade_key t).
  all: replace (default PositionState_default
         (p ← position L (trade_wallet t); positions p !! trade_key t))
       with (get_state L (trade_wallet t) (trade_key t))
       by (unfold get_state, wallet_snapshot, position; by destruct (snapshots L !! _)).
  all: destruct (HL (trade_wallet t) (trade_key t)) as [Hl Hs].
  all: destruct (get_state L _ _) as [[l] [s]]; destruct (trade_contracts t) as [a].
  all: unfold amount_wf, is_u64, is_near_close, amount_ltb, amount_ZERO, saturating_sub_u64 in *; simpl in *.
  all: intros Hc Ht; destruct (_ && _); [done|].
  all: destruct (trade_side t); simpl in *;
    apply bind_Some in Ht as (z & [-> ?]%fits_Some & [= <-]); simpl;
    repeat case_decide; case_hyp Hc; simplify_eq/=; amounts; rust;
    split_and!; rust.
Qed.

End Trading.

Section RoundTrips.
Context `{DO : DecimalOps} `{TO : TimeOps}.

Lemma shift_long_back d st st' : position_wf st → shift_long d st = Some st' →
  shift_long (- d) st' = Some st.
Proof.
  unfold shift_long, position_wf, amount_wf, is_u64. destruct st as [[l] s]. simpl.
  intros [? ?] (z & [-> ?]%fits_Some & [= <-])%bind_Some. simpl.
  replace (l + d + - d) with l by lia. by rewrite (proj2 (fits_Some 0 U64_MAX l l)).
Qed.

Lemma delta_split m L mk a : ledger_wf L → mutation_wf m → effective (mut_effect m) = Split mk a →
  ∀ L', apply m L = (L', Ok tt) ↔
  ∃ st0 st1, shift_long (atomic a) (get_state L (mut_wallet m) (zero_key mk)) = Some st0
    ∧ shift_long (atomic a) (get_state L (mut_wallet m) (one_key mk)) = Some st1
    ∧ L' = set_state (set_state L (mut_wallet m) (zero_key mk) st0) (mut_wallet m) (one_key mk) st1.
Proof.
  intros HL Hm E L'. rewrite apply_delta by done. unfold effect_delta. rewrite E.
  destruct (shift_long _ (get_state _ _ (zero_key mk))) as [st0|]; simpl.
  2:{ split; [done|]. by intros (? & ? & ? & _). }
  destruct (shift_long _ (get_state _ _ (one_key mk))) as [st1|]; simpl.
  2:{ split; [done|]. by intros (? & ? & _ & ? & _). }
  split; [intros [= <-]; eauto|]. by intros (? & ? & [= <-] & [= <-] & ->).
Qed.

(** merging the complete set that a split minted restores every position. *)
Theorem split_merge_roundtrip ms mm L L1 mk a :
  ledger_wf L → mutation_wf ms → mutation_wf mm →
  mut_wallet mm = mut_wallet ms →
  effective (mut_effect ms) = Split mk a → effective (mut_effect mm) = Merge mk a →
  apply ms L = (L1, Ok tt) →
  ∃ L2, apply mm L1 = (L2, Ok tt) ∧ ∀ w k, get_state L2 w k = get_state L w k.
Proof.
  intros HL Hms Hmm Hw Es Em Hs.
  assert (ledger_wf L1) as HL1.
  { unfold apply in Hs. destruct (apply_in_place ms (L, ∅)) as [[? ?] []] eqn:E; simplify_eq.
    exact (apply_in_place_wf ms L ∅ _ _ _ HL Hms E). }
  apply (delta_split ms L mk a) in Hs as (st0 & st1 & H0 & H1 & ->); [|done..].
  rewrite apply_delta by done. unfold effect_delta. rewrite Em, Hw.
  assert (∀ k, is_closed ∅ k = false) as Hcl
    by (intros k; unfold is_closed; apply bool_decide_eq_false; set_solver).
  rewrite !Hcl, andb_false_r, get_set_state_eq, (get_set_state_ne _ _ (one_key mk)), get_set_state_eq
    by apply zero_one_key.
  apply shift_long_back in H0; [|apply HL]. apply shift_long_back in H1; [|apply HL].
  rewrite H0, H1. simpl. eexists. split; [done|]. intros w k. rewrite !get_set_state.
  repeat case_decide; destruct_and?; subst; done.
Qed.

(** The pre-trade pair a caller captures for [restore]. *)
Definition captured (L : PositionLedger) (w : WalletAddress) (k : MarketOutcomeId) :
    option (ShareAmount * ShareAmount) :=
  snap ← snapshots L !! w; st ← positions snap !! k;
  Some (long_contracts st, short_contracts st).

(** for a wallet the ledger knows, [restore] with the captured pair is the
    exact inverse of [ingest]: the ledger is the one before the trade. *)
Theorem restore_undoes_ingest t L L' snap : ledger_wf L → amount_wf (trade_contracts t) →
  snapshots L !! trade_wallet t = Some snap → ingest t L = (L', Ok tt) →
  restore L' (trade_wallet t) (trade_key t) (captured L (trade_wallet t) (trade_key t)) = L.
Proof.
  intros HL Ha Hsnap Hi. rewrite ingest_delta in Hi by done.
  destruct (trade_result _ _ _) as [st'|]; simplify_eq.
  unfold restore, captured, set_state, wallet_snapshot. simpl. rewrite Hsnap, lookup_insert_eq. simpl.
  destruct L as [s]. f_equal. simpl in *. rewrite insert_insert_eq.
  rewrite <- (insert_id s (trade_wallet t) snap) at 2 by done. f_equal.
  destruct snap as [sw ps]. simpl. f_equal.
  destruct (ps !! trade_key t) as [[l sh]|] eqn:E; simpl.
  - rewrite insert_insert_eq. by apply insert_id.
  - by apply delete_insert_id.
Qed.

(** For a wallet seen for the first time, [restore] removes the entry but
    keeps the wallet's empty snapshot, so the ledger differs from the one before
    the trade, and a wallet without reconstruction history classifies differently
    on redelivery: [Unknown] before, [Entry] after. *)
Theorem restore_keeps_new_wallet t L L' cfg : ledger_wf L → amount_wf (trade_contracts t) →
  snapshots L !! trade_wallet t = None → ingest t L = (L', Ok tt) →
  let L2 := restore L' (trade_wallet t) (trade_key t) (captured L (trade_wallet t) (trade_key t)) in
  L2 = replace_wallet_snapshot L (trade_wallet t) ∅
  ∧ L2 ≠ L
  ∧ classify_leader_action t (position L (trade_wallet t)) {| quality := 0 |} cfg = UnknownAction
  ∧ classify_leader_action t (position L2 (trade_wallet t)) {| quality := 0 |} cfg = Entry.
Proof.
  intros HL Ha Hnone Hi. rewrite ingest_delta in Hi by done.
  destruct (trade_result _ _ _) as [st'|]; simplify_eq. cbv zeta.
  set (L2 := restore _ _ _ _).
  assert (L2 = replace_wallet_snapshot L (trade_wallet t) ∅) as ->.
  { subst L2. unfold restore, captured, set_state, wallet_snapshot, replace_wallet_snapshot.
    simpl. rewrite Hnone, lookup_insert_eq. simpl. f_equal.
    rewrite insert_insert_eq, insert_empty, delete_singleton_eq. done. }
  split_and!; [done| | |].
  - intros Heq. apply (f_equal (λ X, snapshots X !! trade_wallet t)) in Heq. simpl in Heq.
    by rewrite lookup_insert_eq, Hnone in Heq.
  - by apply classify_unknown.
  - unfold classify_leader_action, position, replace_wallet_snapshot. simpl.
    rewrite lookup_insert_eq. simpl. rewrite lookup_empty. simpl. by destruct (trade_side t).
Qed.

End RoundTrips.

(** ** Concrete ledgers, at which the theorems are instantiated *)

Definition sample_wallet : WalletAddress := {| wallet_bytes := replicate 20 7 |}.
Definition sample_market : MarketId := {| market_id := {| venue_market_id := "0xabc" |} |}.
Definition sample_id (s : string) : SourceTradeId := {| source_trade_id := s |}.
Definition sample_mutation (s : string) (e : LedgerEffect) : LedgerMutation := {|
  mut_source_trade_id := sample_id s; mut_transaction_hash := s; mut_wallet := sample_wallet;
  mut_source_time := {| source_timestamp := (5 : @OffsetDateTime ZTime) |}; mut_effect := e
|}.
Definition sample_trade (side : Side) (a : Z) : IncomingTrade := {|
  trade_wallet := sample_wallet; trade_market_id := sample_market; trade_outcome_id := outcome0;
  trade_side := side; trade_price := {| price_value := (1 # 2 : @Decimal QDecimal)%Q |};
  trade_contracts := from_atomic a; trade_observed_at := (5 : @OffsetDateTime ZTime);
  trade_received_at := (6 : @OffsetDateTime ZTime); trade_source_trade_id := sample_id "t";
  trade_transaction_hash := None; trade_provenance := RestPoll
|}.
(** One wallet, 1000 atomic units long on outcome 0. *)
Definition sample_ledger : PositionLedger :=
  set_state ledger_new sample_wallet (zero_key sample_market)
    {| long_contracts := from_atomic 1000; short_contracts := amount_ZERO |}.

Lemma sample_ledger_wf : ledger_wf sample_ledger.
Proof. apply ledger_wf_set_state; [apply ledger_wf_new|by vm_compute]. Qed.

Lemma apply_refines_delta_witness :
  apply (sample_mutation "r" (Redeem sample_market outcome0 (from_atomic 1001))) sample_ledger
  = (set_state sample_ledger sample_wallet (zero_key sample_market) PositionState_default, Ok tt).
Proof.
  rewrite (apply_refines_delta (sample_mutation "r" (Redeem sample_market outcome0 (from_atomic 1001)))
    sample_ledger sample_ledger_wf); [reflexivity|by vm_compute].
Defined.

Definition sample_batch : list LedgerMutation :=
  [sample_mutation "a" (Redeem sample_market outcome0 (from_atomic 1050));
   sample_mutation "b" (Split sample_market (from_atomic 10));
   sample_mutation "c" (Redeem sample_market outcome1 (from_atomic 12))].
Definition sample_batch_result : result LedgerError (PositionLedger * list AppliedEffect) :=
  simulate_all_or_none sample_ledger sample_batch.

Lemma sample_batch_wf : Forall mutation_wf sample_batch.
Proof. repeat (apply Forall_cons_2; [by vm_compute|]). apply Forall_nil_2. Qed.

Lemma apply_all_or_none_atomic_witness :
  ledger_wf (apply_all_or_none sample_batch sample_ledger).1
  ∧ clamped_residual <$> default [] (result_ok (apply_all_or_none sample_batch sample_ledger).2)
    = [Some 50; None; Some 2].
Proof.
  split; [|by vm_compute].
  exact (proj1 (apply_all_or_none_atomic sample_batch sample_ledger _ _
    sample_ledger_wf sample_batch_wf (surjective_pairing _))).
Defined.

Lemma residuals_do_not_stack_witness :
  NoDup (clamped_keys (default [] (snd <$> result_ok sample_batch_result))).
Proof.
  apply (residuals_do_not_stack sample_batch sample_ledger
    (default ledger_new (fst <$> result_ok sample_batch_result)) _ sample_ledger_wf sample_batch_wf).
  apply is_ok_pair. by vm_compute.
Defined.

Lemma ingest_net_exposure_witness :
  net_exposure (get_state (ingest (sample_trade Sell 1500) sample_ledger).1 sample_wallet
                  (zero_key sample_market)) = -500.
Proof.
  destruct (ingest_net_exposure (sample_trade Sell 1500) sample_ledger
    (ingest (sample_trade Sell 1500) sample_ledger).1 sample_ledger_wf) as [H _];
    [by vm_compute|apply stm_is_ok; by vm_compute|]. exact H.
Defined.

Lemma classification_matches_ledger_witness :
  opposite_side Sell (get_state (ingest (sample_trade Sell 950) sample_ledger).1 sample_wallet
                        (zero_key sample_market)) * 100 ≤ 1000 * 10.
Proof.
  destruct (classification_matches_ledger (sample_trade Sell 950) {| quality := 90 |}
    SignalConfig_default sample_ledger (ingest (sample_trade Sell 950) sample_ledger).1
    sample_ledger_wf) as (_ & _ & _ & H); [by vm_compute|apply stm_is_ok; by vm_compute|exact H].
Defined.

Definition sample_split : LedgerMutation :=
  sample_mutation "s" (Split sample_market (from_atomic 10)).
Definition sample_merge : LedgerMutation :=
  sample_mutation "m" (Merge sample_market (from_atomic 10)).
Lemma split_merge_roundtrip_witness :
  ∃ L2, apply sample_merge (apply sample_split sample_ledger).1 = (L2, Ok tt)
        ∧ ∀ w k, get_state L2 w k = get_state sample_ledger w k.
Proof.
  apply (split_merge_roundtrip sample_split sample_merge sample_ledger
    (apply sample_split sample_ledger).1 sample_market (from_atomic 10) sample_ledger_wf);
    [by vm_compute|by vm_compute|done|done|done|].
  apply stm_is_ok. by vm_compute.
Defined.

Lemma restore_undoes_ingest_witness :
  restore (ingest (sample_trade Buy 5) sample_ledger).1 sample_wallet (zero_key sample_market)
    (captured sample_ledger sample_wallet (zero_key sample_market)) = sample_ledger.
Proof.
  eapply (restore_undoes_ingest (sample_trade Buy 5) sample_ledger _ _ sample_ledger_wf);
    [by vm_compute|apply lookup_insert_eq|apply stm_is_ok; by vm_compute].
Defined.

Lemma restore_keeps_new_wallet_witness :
  restore (ingest (sample_trade Buy 5) ledger_new).1 sample_wallet (zero_key sample_market)
    (captured ledger_new sample_wallet (zero_key sample_market)) ≠ ledger_new.
Proof.
  destruct (restore_keeps_new_wallet (sample_trade Buy 5) ledger_new
    (ingest (sample_trade Buy 5) ledger_new).1 SignalConfig_default ledger_wf_new)
    as (_ & H & _); [by vm_compute|apply lookup_empty|apply stm_is_ok; by vm_compute|exact H].
Defined.
