(* ===== verification/SecondProof.v ===== *)
(** * Order independence of one wallet-second
      (crates/position-ledger, [order_independent_validity] and its helpers)

    Mutations of one second arrive without an order.  The source splits them into
    components that share no position, and accepts a component when every order of
    it ends in the same position (enumerated up to four mutations, or, for
    same-side trades of any number, by one checked fold).  The theorems show that
    acceptance means what it says: every order of the whole second succeeds and
    ends in the same ledger. *)

From S2P Require Import Prelude CoreTypes Bytes Activity SignalEngine LedgerEffect PositionLedger.
#[local] Open Scope Z_scope.

Inductive SecondProofKind : Type := Repaired | Legacy.
#[export] Instance SecondProofKind_eq_dec : EqDecision SecondProofKind.
Proof. solve_decision. Defined.

Section Definitions.
Context `{DO : DecimalOps} `{TO : TimeOps}.

(** ** [mutation_components]

    The [assigned] vector is the list of mutations not yet assigned, in index
    order: every index below the current seed is assigned. *)

(** One pass of the inner [for]: the grown key set, the mutations taken in this
    pass and the ones left. *)
Fixpoint component_pass (keys : gset MarketOutcomeId) (unassigned : list LedgerMutation) :
    gset MarketOutcomeId * list LedgerMutation * list LedgerMutation :=
  match unassigned with
  | [] => (keys, [], [])
  | m :: rest =>
      if existsb (λ k, bool_decide (k ∈ keys)) (touched_keys m)
      then let '(keys', taken, others) := component_pass (list_to_set (touched_keys m) ∪ keys) rest in
           (keys', m :: taken, others)
      else let '(keys', taken, others) := component_pass keys rest in
           (keys', taken, m :: others)
  end.

(** The [loop]: passes until one changes nothing.  A pass that changes something
    shortens the list, so its length bounds the iterations. *)
Fixpoint component_loop (fuel : nat) (keys : gset MarketOutcomeId)
    (component unassigned : list LedgerMutation) : list LedgerMutation * list LedgerMutation :=
  match fuel with
  | O => (component, unassigned)
  | S fuel =>
      let '(keys', taken, others) := component_pass keys unassigned in
      match taken with
      | [] => (component, others)
      | _ => component_loop fuel keys' (component ++ taken) others
      end
  end.

Fixpoint components_from (fuel : nat) (unassigned : list LedgerMutation) :
    list (list LedgerMutation) :=
  match fuel, unassigned with
  | S fuel, seed :: rest =>
      let '(component, others) :=
        component_loop (S (length rest)) (list_to_set (touched_keys seed)) [seed] rest in
      component :: components_from fuel others
  | _, _ => []
  end.

Definition mutation_components (mutations : list LedgerMutation) : list (list LedgerMutation) :=
  components_from (length mutations) mutations.

(** ** [enumerate_mutation_orders] *)

(** [remaining.remove(index)] for every index in turn. *)
Fixpoint removals {A} (remaining : list A) : list (A * list A) :=
  match remaining with
  | [] => []
  | x :: rest => (x, rest) :: ((λ p, (p.1, x :: p.2)) <$> removals rest)
  end.

(** The depth of the recursion is the number of mutations left. *)
Fixpoint enumerate_mutation_orders (depth : nat) (remaining current : list LedgerMutation) :
    list (list LedgerMutation) :=
  match depth with
  | O => [current]
  | S depth =>
      mjoin ((λ p, enumerate_mutation_orders depth p.2 (current ++ [p.1])) <$> removals remaining)
  end.

(** ** [all_component_orders_match] *)
Fixpoint orders_match (ledger : PositionLedger) (wallet : WalletAddress) (single : bool)
    (expected : option (option PositionSnapshot * list (option Z)))
    (sequences : list (list LedgerMutation)) : result LedgerError bool :=
  match sequences with
  | [] => Ok true
  | sequence :: sequences =>
      match simulate_all_or_none ledger sequence with
      | Err error => if single then Err error else Ok false
      | Ok (candidate, applied) =>
          let result := (position candidate wallet, clamped_residual <$> applied) in
          if match expected with Some e => bool_decide (e ≠ result) | None => false end
          then Ok false
          else orders_match ledger wallet single (Some result) sequences
      end
  end.

Definition all_component_orders_match (ledger : PositionLedger) (wallet : WalletAddress)
    (component : list LedgerMutation) : result LedgerError bool :=
  orders_match ledger wallet (bool_decide (length component = 1%nat)) None
    (enumerate_mutation_orders (length component) component []).

(** ** [same_side_component_validity] *)
Definition same_side_trade (wallet : WalletAddress) (mk : MarketId) (o : OutcomeId) (side : Side)
    (mutation : LedgerMutation) : bool :=
  bool_decide (mut_wallet mutation = wallet)
  && match effective (mut_effect mutation) with
     | Trade mk' o' side' _ _ =>
         bool_decide (mk' = mk) && bool_decide (o' = o) && bool_decide (side' = side)
     | _ => false
     end.

Definition same_side_step (side : Side) (mutation : LedgerMutation) :
    stm PositionState LedgerError unit :=
  match effective (mut_effect mutation) with
  | Trade _ _ _ amount _ => apply_trade side amount (mut_source_trade_id mutation)
  | _ => mret tt
  end.

Definition same_side_component_validity (ledger : PositionLedger) (wallet : WalletAddress)
    (component : list LedgerMutation) : option (result LedgerError unit) :=
  first ← head component;
  match effective (mut_effect first) with
  | Trade mk o side _ _ =>
      if negb (forallb (same_side_trade wallet mk o side) component) then None
      else
        let state := default PositionState_default
          (snap ← position ledger wallet; positions snap !! {| market := mk; outcome := o |}) in
        Some (stm_for component (same_side_step side) state).2
  | _ => None
  end.

Definition component_order_independent (ledger : PositionLedger) (wallet : WalletAddress)
    (component : list LedgerMutation) (proof : SecondProofKind) : result LedgerError bool :=
  let valid :=
    match proof with
    | Repaired => same_side_component_validity ledger wallet component
    | Legacy => None
    end in
  match valid with
  | Some (Ok _) => Ok true
  | Some (Err error) => if bool_decide (length component = 1%nat) then Err error else Ok false
  | None =>
      if bool_decide (length component ≤ 4)%nat
      then all_component_orders_match ledger wallet component
      else Ok false
  end.

Fixpoint components_validity (ledger : PositionLedger) (wallet : WalletAddress)
    (components : list (list LedgerMutation)) (proof : SecondProofKind) :
    result LedgerError (option SourceTradeId) :=
  match components with
  | [] => Ok None
  | component :: components =>
      match head component with
      | None => components_validity ledger wallet components proof
      | Some first =>
          independent ← component_order_independent ledger wallet component proof;
          if (independent : bool) then components_validity ledger wallet components proof
          else Ok (Some (mut_source_trade_id first))
      end
  end.

Definition order_independent_validity (ledger : PositionLedger) (wallet : WalletAddress)
    (mutations : list LedgerMutation) (proof : SecondProofKind) :
    result LedgerError (option SourceTradeId) :=
  components_validity ledger wallet (mutation_components mutations) proof.

End Definitions.

(** ** Enumeration *)
Section Enumeration.
Context `{DO : DecimalOps} `{TO : TimeOps}.

Lemma removals_perm {A} (l : list A) p : p ∈ removals l → p.1 :: p.2 ≡ₚ l.
Proof.
  revert p. induction l as [|x l IH]; intros p; simpl; [set_solver|].
  rewrite elem_of_cons, list_elem_of_fmap. intros [->|(q & -> & Hq)]; [done|]. simpl.
  rewrite Permutation_swap. by rewrite (IH q Hq).
Qed.

Lemma removals_complete {A} (l1 l2 : list A) x : (x, l1 ++ l2) ∈ removals (l1 ++ x :: l2).
Proof.
  induction l1 as [|y l1 IH]; simpl; [apply elem_of_cons; by left|].
  apply elem_of_cons. right. apply list_elem_of_fmap. by exists (x, l1 ++ l2).
Qed.

Lemma enumerate_orders_spec n remaining current σ : length remaining = n →
  σ ∈ enumerate_mutation_orders n remaining current ↔
  ∃ τ, σ = current ++ τ ∧ τ ≡ₚ remaining.
Proof.
  revert remaining current σ. induction n as [|n IH]; intros remaining current σ Hn; simpl.
  - apply nil_length_inv in Hn as ->. rewrite list_elem_of_singleton. split.
    + intros ->. exists []. by rewrite app_nil_r.
    + intros (τ & -> & ->%Permutation_nil_r). by rewrite app_nil_r.
  - rewrite list_elem_of_join. setoid_rewrite list_elem_of_fmap. split.
    + intros (l & Hσ & (p & -> & Hp)). pose proof (removals_perm _ _ Hp) as Hperm.
      apply IH in Hσ as (τ & -> & Hτ).
      2:{ apply Permutation_length in Hperm. simpl in Hperm. lia. }
      exists (p.1 :: τ). split; [by rewrite <- app_assoc|]. by rewrite Hτ.
    + intros (τ & -> & Hτ). destruct τ as [|x τ].
      { apply Permutation_length in Hτ. simpl in Hτ. lia. }
      apply Permutation_sym, Permutation_cons_inv_r in Hτ as (l1 & l2 & -> & Hl).
      eexists. split; [|exists (x, l1 ++ l2); split; [done|apply removals_complete]].
      apply IH; simpl.
      { rewrite length_app in *. simpl in Hn. lia. }
      exists τ. split; [by rewrite <- app_assoc|]. by rewrite Hl.
Qed.

(** the enumeration of a component's orders is complete and exact: it lists
    the permutations of the component and nothing else. *)
Theorem enumerate_orders_exact component σ :
  σ ∈ enumerate_mutation_orders (length component) component [] ↔ σ ≡ₚ component.
Proof.
  rewrite enumerate_orders_spec by done. simpl. split; [by intros (τ & -> & ?)|eauto].
Qed.

(** ** Components *)

Definition keys_of (ms : list LedgerMutation) : gset MarketOutcomeId :=
  list_to_set (mjoin (touched_keys <$> ms)).
Definition touches (K : gset MarketOutcomeId) (m : LedgerMutation) : Prop :=
  list_to_set (touched_keys m) ∩ K ≠ ∅.
#[global] Instance touches_dec K m : Decision (touches K m).
Proof. unfold touches. apply _. Defined.

Lemma keys_of_cons m ms : keys_of (m :: ms) = list_to_set (touched_keys m) ∪ keys_of ms.
Proof. unfold keys_of. csimpl. by rewrite list_to_set_app_L. Qed.
Lemma keys_of_app ms1 ms2 : keys_of (ms1 ++ ms2) = keys_of ms1 ∪ keys_of ms2.
Proof. unfold keys_of. by rewrite fmap_app, join_app, list_to_set_app_L. Qed.

Lemma touches_existsb K m :
  existsb (λ k, bool_decide (k ∈ K)) (touched_keys m) = true ↔ touches K m.
Proof.
  unfold touches. rewrite existsb_exists. setoid_rewrite bool_decide_eq_true.
  setoid_rewrite <- list_elem_of_In. split.
  - intros (k & ? & ?). set_solver.
  - intros (k & Hk)%set_choose_L. set_solver.
Qed.

Lemma component_pass_spec keys ms keys' taken others :
  component_pass keys ms = (keys', taken, others) →
  taken ++ others ≡ₚ ms ∧ keys' = keys_of taken ∪ keys
  ∧ (taken = [] → others = ms ∧ Forall (λ m, ¬ touches keys m) ms)
  ∧ Forall (λ m, list_to_set (touched_keys m) ≠ (∅ : gset MarketOutcomeId)) taken.
Proof.
  revert keys keys' taken others.
  induction ms as [|m ms IH]; intros keys keys' taken others; simpl.
  { intros [= <- <- <-]. split_and!; [done|set_solver| |]; repeat constructor. }
  destruct (existsb _ _) eqn:E.
  - destruct (component_pass _ ms) as [[k1 t1] o1] eqn:E1. intros [= <- <- <-].
    apply IH in E1 as (? & -> & ? & ?). split_and!; [by simpl; f_equiv| |done|].
    + rewrite keys_of_cons. set_solver.
    + constructor; [|done]. apply touches_existsb in E. unfold touches in E. set_solver.
  - destruct (component_pass _ ms) as [[k1 t1] o1] eqn:E1. intros [= <- <- <-].
    apply IH in E1 as (? & -> & Hno & ?). split_and!; [|done| |done].
    + rewrite <- Permutation_middle. by f_equiv.
    + intros Ht. destruct (Hno Ht) as [-> ?]. split; [done|]. constructor; [|done].
      rewrite <- touches_existsb. congruence.
Qed.

Lemma component_loop_spec fuel component unassigned component' others :
  (length unassigned < fuel)%nat →
  component_loop fuel (keys_of component) component unassigned = (component', others) →
  component' ++ others ≡ₚ component ++ unassigned
  ∧ Forall (λ m, ¬ touches (keys_of component') m) others
  ∧ ∃ taken, component' = component ++ taken
    ∧ Forall (λ m, list_to_set (touched_keys m) ≠ (∅ : gset MarketOutcomeId)) taken.
Proof.
  revert component unassigned. induction fuel as [|fuel IH]; intros component unassigned Hf; [lia|].
  simpl. destruct (component_pass _ _) as [[keys' taken] left'] eqn:E.
  apply component_pass_spec in E as (Hp & -> & Hno & Hne).
  destruct taken as [|t taken].
  - intros [= <- <-]. destruct (Hno eq_refl) as [-> ?]. split_and!; [done|done|].
    exists []. by rewrite app_nil_r.
  - replace (keys_of (t :: taken) ∪ keys_of component) with (keys_of (component ++ t :: taken))
      by (rewrite keys_of_app; set_solver).
    intros H. apply IH in H as (Hp' & Hd & (tk & -> & Htk)).
    + split_and!; [|done|].
      * rewrite Hp', <- Hp, <- app_assoc. done.
      * exists ((t :: taken) ++ tk). rewrite app_assoc. split; [done|].
        by apply Forall_app.
    + apply Permutation_length in Hp. rewrite length_app in Hp. simpl in Hp. lia.
Qed.

Definition keyless (m : LedgerMutation) : Prop :=
  list_to_set (touched_keys m) = (∅ : gset MarketOutcomeId).
#[global] Instance keyless_dec m : Decision (keyless m).
Proof. unfold keyless. apply _. Defined.

(** A component is one mutation that touches nothing, or mutations that all touch
    something. *)
Definition component_shape (c : list LedgerMutation) : Prop :=
  (∃ m, c = [m] ∧ keyless m) ∨ (c ≠ [] ∧ Forall (λ m, ¬ keyless m) c).

Lemma component_pass_empty ms : component_pass ∅ ms = (∅, [], ms).
Proof.
  induction ms as [|m ms IH]; simpl; [done|].
  destruct (existsb _ _) eqn:E; [|by rewrite IH].
  apply touches_existsb in E. unfold touches in E. set_solver.
Qed.

Lemma component_loop_keyless fuel m unassigned : keyless m →
  component_loop (S fuel) (keys_of [m]) [m] unassigned = ([m], unassigned).
Proof.
  intros Hm. assert (keys_of [m] = ∅) as -> by (rewrite keys_of_cons; unfold keyless in Hm; set_solver).
  simpl. destruct (component_pass ∅ unassigned) as [[k t] o] eqn:E.
  rewrite component_pass_empty in E. by simplify_eq.
Qed.

Lemma component_of_seed seed rest c others :
  component_loop (S (length rest)) (list_to_set (touched_keys seed)) [seed] rest = (c, others) →
  c ++ others ≡ₚ seed :: rest ∧ keys_of c ## keys_of others ∧ component_shape c.
Proof.
  replace (list_to_set (touched_keys seed)) with (keys_of [seed])
    by (rewrite keys_of_cons; set_solver).
  intros H. destruct (decide (keyless seed)) as [Hk|Hk].
  - rewrite component_loop_keyless in H by done. simplify_eq. split_and!; [done| |left; eauto].
    rewrite keys_of_cons. unfold keyless in Hk. rewrite Hk. set_solver.
  - apply component_loop_spec in H as (Hp & Hd & tk & -> & Htk); [|lia].
    split_and!; [done| |right; by split; [|constructor]].
    clear Hp. revert Hd. generalize (keys_of ([seed] ++ tk)). intros K.
    induction 1 as [|m ms Hm Hms IH]; [unfold keys_of; set_solver|].
    rewrite keys_of_cons. unfold touches in Hm. set_solver.
Qed.

Lemma keys_of_perm ms1 ms2 : ms1 ≡ₚ ms2 → keys_of ms1 = keys_of ms2.
Proof. intros H. unfold keys_of. by rewrite H. Qed.

Lemma keys_of_join c cs : c ∈ cs → keys_of c ⊆ keys_of (mjoin cs).
Proof.
  induction cs as [|c' cs IH]; [set_solver|]. csimpl. rewrite keys_of_app, elem_of_cons.
  intros [->|?]; set_solver.
Qed.

Lemma components_from_spec fuel ms : (length ms ≤ fuel)%nat →
  mjoin (components_from fuel ms) ≡ₚ ms
  ∧ Forall component_shape (components_from fuel ms)
  ∧ StronglySorted (λ c1 c2, keys_of c1 ## keys_of c2) (components_from fuel ms).
Proof.
  revert ms. induction fuel as [|fuel IH]; intros [|seed rest] Hf; cbn [length] in Hf;
    try (by repeat constructor); [lia|]. cbn [components_from].
  destruct (component_loop _ _ _ _) as [c others] eqn:E.
  apply component_of_seed in E as (Hp & Hd & Hs).
  destruct (IH others) as (IHp & IHs & IHd).
  { pose proof (Permutation_length Hp) as Hl. rewrite length_app in Hl. simpl in Hl.
    destruct Hs as [(m & -> & _)|[? _]]; [simpl in Hl; lia|]. destruct c; [done|]. simpl in Hl. lia. }
  csimpl. split_and!; [by rewrite IHp|by constructor|]. constructor; [done|].
  apply Forall_forall. intros c' Hc'. apply keys_of_join in Hc'.
  rewrite (keys_of_perm _ _ IHp) in Hc'. set_solver.
Qed.

(** the components of a second are a partition of its mutations into groups
    that share no position: every mutation is in exactly one component, and
    different components touch disjoint sets of positions. *)
Theorem mutation_components_partition ms :
  mjoin (mutation_components ms) ≡ₚ ms
  ∧ Forall (λ c, c ≠ []) (mutation_components ms)
  ∧ StronglySorted (λ c1 c2, keys_of c1 ## keys_of c2) (mutation_components ms).
Proof.
  destruct (components_from_spec (length ms) ms) as (? & Hs & ?); [done|].
  split_and!; [done| |done]. eapply Forall_impl; [exact Hs|].
  intros c [(m & -> & _)|[? _]]; done.
Qed.

End Enumeration.

(** ** Steps on disjoint positions do not interfere *)

(** What a step of wallet [w] can see of position [k]. *)
Definition view (w : WalletAddress) (s : Batch) (k : MarketOutcomeId) : option PositionState * bool :=
  (positions (wallet_snapshot s.1 w) !! k, is_closed s.2 k).
Definition agree (w : WalletAddress) (K : gset MarketOutcomeId) (s1 s2 : Batch) : Prop :=
  ∀ k, k ∈ K → view w s1 k = view w s2 k.

Section Locality.
Context `{DO : DecimalOps} `{TO : TimeOps}.
Variable w : WalletAddress.

(** A mutation of this wallet with a [u64] amount. *)
Definition own (m : LedgerMutation) : Prop := mut_wallet m = w ∧ mutation_wf m.

Lemma view_get s1 s2 k : view w s1 k = view w s2 k →
  get_state s1.1 w k = get_state s2.1 w k ∧ is_closed s1.2 k = is_closed s2.2 k.
Proof. unfold view, get_state. intros [= -> ->]. done. Qed.

Lemma foldl_insert_lookup (ups : list (MarketOutcomeId * PositionState))
    (p1 p2 : gmap MarketOutcomeId PositionState) k :
  k ∈ ups.*1 →
  foldl (λ p u, <[u.1 := u.2]> p) p1 ups !! k = foldl (λ p u, <[u.1 := u.2]> p) p2 ups !! k.
Proof.
  revert p1 p2. induction ups as [|u ups IH] using rev_ind; intros p1 p2; [set_solver|].
  rewrite fmap_app, elem_of_app, !foldl_app. simpl. intros Hk.
  destruct (decide (k = u.1)) as [->|Hn]; [by rewrite !lookup_insert_eq|].
  rewrite !lookup_insert_ne by done. apply IH. destruct Hk as [?|Hk]; [done|]. set_solver.
Qed.

Lemma foldl_insert_frame (ups : list (MarketOutcomeId * PositionState))
    (p : gmap MarketOutcomeId PositionState) k :
  k ∉ ups.*1 → foldl (λ p u, <[u.1 := u.2]> p) p ups !! k = p !! k.
Proof.
  revert p. induction ups as [|u ups IH]; intros p; [done|]. csimpl. intros Hk.
  rewrite IH by set_solver. apply lookup_insert_ne. set_solver.
Qed.

Lemma is_closed_close_all r ks C k :
  is_closed (close_all r ks C) k = (if r is Some _ then bool_decide (k ∈ ks) else false) || is_closed C k.
Proof.
  unfold is_closed, close_all. destruct r; [|done]. apply eq_bool_prop_intro.
  rewrite orb_True, !bool_decide_spec, elem_of_union, elem_of_list_to_set, list_elem_of_fmap.
  f_equiv. split; [|eauto]. intros ([m o] & [= H1 H2] & Hk). destruct k. simpl in *. by subst.
Qed.

Lemma step_agree m s1 s2 t1 a : own m → ledger_wf s1.1 → ledger_wf s2.1 →
  agree w (list_to_set (touched_keys m)) s1 s2 →
  apply_in_place m s1 = (t1, Ok a) →
  ∃ t2, apply_in_place m s2 = (t2, Ok a) ∧ agree w (list_to_set (touched_keys m)) t1 t2.
Proof.
  destruct s1 as [L1 C1], s2 as [L2 C2]. simpl. intros [Hw Hm] HL1 HL2 Hag Hrun.
  apply apply_in_place_Ok in Hrun as (ups & Hd & -> & Ha); [|done|done]. rewrite Hw in *.
  rewrite (effect_delta_local _ _ _ (get_state L2 w) (is_closed C2)) in Hd.
  2:{ intros k Hk. apply (view_get (L1, C1) (L2, C2)), Hag. by apply elem_of_list_to_set. }
  pose proof (apply_in_place_delta m L2 C2 HL2 Hm) as H2. rewrite Hw, Hd in H2.
  exists (write_states L2 w ups, close_all (clamped_residual a) ups.*1 C2). split.
  { rewrite H2. destruct a. simpl in *. by subst. }
  intros k Hk. apply elem_of_list_to_set in Hk. unfold view. simpl.
  pose proof (effect_delta_keys _ _ _ _ _ Hd) as Hkeys.
  rewrite (proj2 (write_states_positions L1 w ups)), (proj2 (write_states_positions L2 w ups)).
  rewrite (foldl_insert_lookup ups _ (positions (wallet_snapshot L2 w))) by (by rewrite Hkeys).
  rewrite !is_closed_close_all. do 2 f_equal.
  specialize (Hag k). unfold view in Hag. simpl in Hag.
  rewrite elem_of_list_to_set in Hag. specialize (Hag Hk). congruence.
Qed.

Lemma step_frame m s t a k : own m → ledger_wf s.1 → apply_in_place m s = (t, Ok a) →
  k ∉ touched_keys m → view w t k = view w s k.
Proof.
  destruct s as [L C]. simpl. intros [Hw Hm] HL Hrun Hk.
  apply apply_in_place_Ok in Hrun as (ups & Hd & -> & Ha); [|done|done]. rewrite Hw in *.
  pose proof (effect_delta_keys _ _ _ _ _ Hd) as Hkeys. unfold view. simpl.
  rewrite (proj2 (write_states_positions L w ups)), is_closed_close_all.
  rewrite foldl_insert_frame by (by rewrite Hkeys). f_equal.
  destruct (clamped_residual a); [|done]. rewrite bool_decide_eq_false_2; [done|]. by rewrite Hkeys.
Qed.

Lemma step_wf m s t a : own m → ledger_wf s.1 → apply_in_place m s = (t, Ok a) → ledger_wf t.1.
Proof. destruct s, t. intros [_ ?]. simpl. intros. by eapply apply_in_place_wf. Qed.

Ltac step_wf := eapply step_wf; [..|eassumption]; done.

Lemma step_agree_on K m s1 s2 t1 a : own m → ledger_wf s1.1 → ledger_wf s2.1 →
  list_to_set (touched_keys m) ⊆ K → agree w K s1 s2 → apply_in_place m s1 = (t1, Ok a) →
  ∃ t2, apply_in_place m s2 = (t2, Ok a) ∧ agree w K t1 t2.
Proof.
  intros Hm H1 H2 HK Hag Hrun.
  destruct (step_agree m s1 s2 t1 a) as (t2 & Hrun2 & Hag2); [done|done|done| |done|].
  { intros k Hk. apply Hag. set_solver. }
  exists t2. split; [done|]. intros k Hk. destruct (decide (k ∈ touched_keys m)) as [?|Hn].
  - apply Hag2. by apply elem_of_list_to_set.
  - rewrite (step_frame m s1 t1 a k), (step_frame m s2 t2 a k) by done. by apply Hag.
Qed.

Lemma step_agree_off K m s t a s' : own m → ledger_wf s.1 →
  list_to_set (touched_keys m) ## K → agree w K s s' → apply_in_place m s = (t, Ok a) →
  agree w K t s'.
Proof.
  intros Hm Hs HK Hag Hrun k Hk. rewrite (step_frame m s t a k Hm Hs Hrun); [by apply Hag|].
  intros Hin. apply (HK k); [by apply elem_of_list_to_set|done].
Qed.

(** ** Runs *)

Definition runs (σ : list LedgerMutation) (s t : Batch) : Prop :=
  ∃ applied, stm_map σ apply_in_place s = (t, Ok applied).

Lemma runs_nil s t : runs [] s t ↔ t = s.
Proof. unfold runs. simpl. unfold mret, stm_mret. naive_solver. Qed.

Lemma runs_cons m σ s t : runs (m :: σ) s t ↔ ∃ s1 a, apply_in_place m s = (s1, Ok a) ∧ runs σ s1 t.
Proof.
  unfold runs. setoid_rewrite stm_map_cons_Ok. naive_solver.
Qed.

Lemma runs_app σ1 σ2 s t : runs (σ1 ++ σ2) s t ↔ ∃ s1, runs σ1 s s1 ∧ runs σ2 s1 t.
Proof.
  revert s. induction σ1 as [|m σ1 IH]; intros s; simpl.
  - setoid_rewrite runs_nil. naive_solver.
  - setoid_rewrite runs_cons. setoid_rewrite IH. naive_solver.
Qed.

(** Compose the runs of the parts: if the mutations of every key set of [Ks] run
    on their own from a state that agrees with [s] there, they run together, in
    any interleaving, and each part ends as it did on its own. *)
Lemma runs_compose (Ks : gset MarketOutcomeId → Prop) σ s (start finish : gset MarketOutcomeId → Batch) :
  (∀ K1 K2, Ks K1 → Ks K2 → K1 ≠ K2 → K1 ## K2) →
  Forall own σ →
  Forall (λ m, (∃ K, Ks K ∧ ¬ keyless m ∧ list_to_set (touched_keys m) ⊆ K)
             ∨ (keyless m ∧ ∃ s0 t0 a, ledger_wf s0.1 ∧ apply_in_place m s0 = (t0, Ok a))) σ →
  ledger_wf s.1 →
  (∀ K, Ks K → ledger_wf (start K).1 ∧ agree w K s (start K)
               ∧ runs (filter (touches K) σ) (start K) (finish K)) →
  ∃ t, runs σ s t ∧ ∀ K, Ks K → agree w K t (finish K).
Proof.
  intros Hdis Hown Hcov. revert s start.
  induction σ as [|m σ IH]; intros s start Hs Hstart.
  { exists s. split; [by apply runs_nil|]. intros K HK. destruct (Hstart K HK) as (_ & Hag & Hr).
    apply runs_nil in Hr as ->. done. }
  apply Forall_cons in Hown as [Hm Hown], Hcov as [Hc Hcov]. specialize (IH Hown Hcov).
  destruct Hc as [(K0 & HK0 & Hne & Hsub)|(Hk & s0 & t0 & a & Hs0 & Hrun0)].
  - destruct (Hstart K0 HK0) as (Hwf0 & Hag0 & Hr0).
    rewrite filter_cons_True in Hr0 by (unfold touches, keyless in *; set_solver).
    apply runs_cons in Hr0 as (s1 & a & Hstep & Hr0).
    destruct (step_agree_on K0 m (start K0) s s1 a) as (s' & Hstep' & Hag'); try done.
    { intros k ?. symmetry. by apply Hag0. }
    destruct (IH s' (λ K, if decide (K = K0) then s1 else start K)) as (t & Hrt & Hfin).
    + step_wf.
    + intros K HK. destruct (decide (K = K0)) as [->|HnK].
      * split_and!; [step_wf| |done]. intros k ?. symmetry. by apply Hag'.
      * destruct (Hstart K HK) as (? & ? & Hr). split_and!; [done| |].
        -- eapply step_agree_off; [done|exact Hs| |done|done].
           specialize (Hdis K K0 HK HK0 HnK). set_solver.
        -- rewrite filter_cons_False in Hr; [done|]. specialize (Hdis K K0 HK HK0 HnK).
           unfold touches. set_solver.
    + exists t. split; [apply runs_cons; eauto|done].
  - destruct (step_agree m s0 s t0 a) as (s' & Hstep' & _); try done.
    { intros k Hin. unfold keyless in Hk. rewrite Hk in Hin. set_solver. }
    destruct (IH s' start) as (t & Hrt & Hfin).
    + step_wf.
    + intros K HK. destruct (Hstart K HK) as (? & ? & Hr). split_and!; [done| |].
      * eapply step_agree_off; [done|exact Hs| |done|done]. unfold keyless in Hk. set_solver.
      * rewrite filter_cons_False in Hr; [done|]. unfold touches, keyless in *. set_solver.
    + exists t. split; [apply runs_cons; eauto|done].
Qed.

(** Project a run on one part: the mutations that touch [K] run on their own. *)
Lemma runs_project K σ s s' t :
  Forall own σ →
  Forall (λ m, touches K m → list_to_set (touched_keys m) ⊆ K) σ →
  ledger_wf s.1 → ledger_wf s'.1 → agree w K s s' → runs σ s t →
  ∃ t', runs (filter (touches K) σ) s' t' ∧ agree w K t t'.
Proof.
  intros Hown Hcov. revert s s'. induction σ as [|m σ IH]; intros s s' Hs Hs' Hag Hrun.
  { apply runs_nil in Hrun as ->. exists s'. split; [by apply runs_nil|done]. }
  apply Forall_cons in Hown as [Hm Hown], Hcov as [Hc Hcov].
  apply runs_cons in Hrun as (s1 & a & Hstep & Hrun).
  assert (ledger_wf s1.1) by (step_wf).
  destruct (decide (touches K m)) as [Ht|Ht].
  - destruct (step_agree_on K m s s' s1 a) as (s1' & Hstep' & Hag'); try done; [by apply Hc|].
    destruct (IH Hown Hcov s1 s1') as (t' & Hr & ?); try done; [step_wf|].
    exists t'. rewrite filter_cons_True by done. split; [apply runs_cons; eauto|done].
  - rewrite filter_cons_False by done. eapply IH; [done|done|done|done| |done].
    eapply step_agree_off; [done|exact Hs| |done|done]. unfold touches in Ht. set_solver.
Qed.

Lemma runs_wf σ s t : Forall own σ → ledger_wf s.1 → runs σ s t → ledger_wf t.1.
Proof.
  intros Hown. revert s. induction Hown as [|m σ Hm _ IH]; intros s Hs Hr.
  - by apply runs_nil in Hr as ->.
  - apply runs_cons in Hr as (s1 & a & Hstep & Hr). eapply IH; [|done]. step_wf.
Qed.

(** What a run leaves alone: other wallets, the wallet's name, positions no
    mutation touches; and when the wallet has a snapshot afterwards. *)
Lemma runs_frame σ s t : Forall own σ → ledger_wf s.1 → runs σ s t →
  (∀ w', w' ≠ w → snapshots t.1 !! w' = snapshots s.1 !! w')
  ∧ snapshot_wallet (wallet_snapshot t.1 w) = snapshot_wallet (wallet_snapshot s.1 w)
  ∧ (∀ k, k ∉ keys_of σ → positions (wallet_snapshot t.1 w) !! k
                           = positions (wallet_snapshot s.1 w) !! k)
  ∧ (is_Some (snapshots t.1 !! w) ↔ is_Some (snapshots s.1 !! w) ∨ keys_of σ ≠ ∅).
Proof.
  intros Hown. revert s. induction Hown as [|m σ Hm _ IH]; intros s Hs Hr.
  { apply runs_nil in Hr as ->. split_and!; try done. unfold keys_of. set_solver. }
  apply runs_cons in Hr as (s1 & a & Hstep & Hr).
  destruct (IH s1) as (IH1 & IH2 & IH3 & IH4); [step_wf|done|].
  pose proof (λ k, step_frame m s s1 a k Hm Hs Hstep) as Hfr.
  destruct s as [L C]. destruct Hm as [Hw Hm].
  apply apply_in_place_Ok in Hstep as (ups & Hd & -> & _); [|done|done]. rewrite Hw in *. simpl in *.
  pose proof (effect_delta_keys _ _ _ _ _ Hd) as Hkeys. split_and!.
  - intros w' Hn. rewrite IH1 by done. by apply write_states_other.
  - by rewrite IH2, (proj1 (write_states_positions L w ups)).
  - intros k. rewrite keys_of_cons. intros Hk. rewrite IH3 by set_solver.
    assert (k ∉ touched_keys m) as Hk' by set_solver. specialize (Hfr k Hk'). unfold view in Hfr.
    by simplify_eq/=.
  - rewrite IH4, write_states_exists, keys_of_cons. unfold touched_keys. rewrite <- Hkeys.
    destruct ups; csimpl; set_solver.
Qed.

End Locality.

(** ** Acceptance of one component *)
Section Component.
Context `{DO : DecimalOps} `{TO : TimeOps}.
Variable w : WalletAddress.

Lemma runs_simulate σ L t : runs σ (L, ∅) t ↔ ∃ applied, simulate_all_or_none L σ = Ok (t.1, applied)
  ∧ stm_map σ apply_in_place (L, ∅) = (t, Ok applied).
Proof.
  unfold runs. setoid_rewrite simulate_Ok. destruct t as [L' C']. simpl. naive_solver.
Qed.

Lemma simulate_runs σ L L' applied : simulate_all_or_none L σ = Ok (L', applied) →
  ∃ C', runs σ (L, ∅) (L', C').
Proof. intros (C' & H)%simulate_Ok. exists C'. by eexists. Qed.

Lemma orders_match_true L single expected σs : orders_match L w single expected σs = Ok true →
  ∃ e, (∀ x, expected = Some x → e = x)
    ∧ Forall (λ σ, ∃ cand applied, simulate_all_or_none L σ = Ok (cand, applied)
                ∧ (position cand w, clamped_residual <$> applied) = e) σs.
Proof.
  revert expected. induction σs as [|σ σs IH]; intros expected; simpl.
  { intros _. destruct expected as [e|]; [exists e|exists (None, [])]; naive_solver. }
  destruct (simulate_all_or_none L σ) as [[cand applied]|err] eqn:E; [|by destruct single].
  destruct (match expected with Some _ => _ | None => _ end) eqn:Ex; [done|].
  intros (e & He & Hall)%IH. exists e. specialize (He _ eq_refl) as ->. split.
  - intros x ->. by destruct (decide (x = (position cand w, clamped_residual <$> applied)));
      case_bool_decide.
  - constructor; [eauto|done].
Qed.

Lemma orders_match_Err L single expected σs e : orders_match L w single expected σs = Err e →
  single = true ∧ Exists (λ σ, simulate_all_or_none L σ = Err e) σs.
Proof.
  revert expected. induction σs as [|σ σs IH]; intros expected; simpl; [done|].
  destruct (simulate_all_or_none L σ) as [[cand applied]|err] eqn:E.
  - destruct (match expected with Some _ => _ | None => _ end); [done|].
    intros [? ?]%IH. split; [done|]. by right.
  - destruct single; [|done]. intros [= ->]. split; [done|]. by left.
Qed.

(** *** Same-side trades *)

Definition total_amount (σ : list LedgerMutation) : Z :=
  foldr (λ m z, atomic (effect_amount (mut_effect m)) + z) 0 σ.

Lemma total_amount_perm σ σ' : σ ≡ₚ σ' → total_amount σ = total_amount σ'.
Proof. induction 1; simpl; lia. Qed.

Lemma total_amount_nonneg σ : Forall (own w) σ → 0 ≤ total_amount σ.
Proof.
  induction 1 as [|m σ [_ Hm] _ IH]; simpl; [lia|]. unfold mutation_wf, amount_wf, is_u64 in Hm. lia.
Qed.

Lemma trade_result_zero side st : position_wf st → trade_result side (from_atomic 0) st = Some st.
Proof.
  unfold position_wf, amount_wf, is_u64, trade_result. destruct st as [[l] [s]], side; simpl; intros.
  - rewrite (proj2 (fits_Some _ _ _ _)) by (split; [reflexivity|lia]). simpl. do 3 f_equal; lia.
  - rewrite (proj2 (fits_Some _ _ _ _)) by (split; [reflexivity|lia]). simpl. do 3 f_equal; lia.
Qed.

Lemma trade_result_add side a b st : position_wf st → 0 ≤ a → 0 ≤ b →
  trade_result side (from_atomic (a + b)) st
  = trade_result side (from_atomic a) st ≫= trade_result side (from_atomic b).
Proof.
  unfold position_wf, amount_wf, is_u64, trade_result. destruct st as [[l] [s]], side; simpl;
    intros [? ?] ? ?; repeat (match goal with |- context [fits 0 U64_MAX ?x] =>
      destruct (fits 0 U64_MAX x) eqn:? end; simpl); rust; destruct_and?; subst;
    try lia; do 3 f_equal; lia.
Qed.

Lemma same_side_delta m mk o side L C : own w m → same_side_trade w mk o side m = true →
  is_closed C {| market := mk; outcome := o |} = false →
  effect_delta (mut_effect m) (get_state L w) (is_closed C)
  = st' ← trade_result side (effect_amount (mut_effect m)) (get_state L w {| market := mk; outcome := o |});
    Some ([({| market := mk; outcome := o |}, st')], None).
Proof.
  intros [Hw _] Hs Hc. unfold same_side_trade in Hs. unfold effect_delta, effect_amount.
  destruct (effective (mut_effect m)); rewrite ?andb_false_r in Hs; try done.
  rust. destruct_and?. subst. by rewrite Hc, andb_false_r.
Qed.

Lemma set_state_twice L k a b : set_state (set_state L w k a) w k b = set_state L w k b.
Proof.
  unfold set_state at 1 3. rewrite wallet_snapshot_set_state. simpl. f_equal.
  unfold set_state. simpl. by rewrite !insert_insert_eq.
Qed.

Lemma same_side_runs σ mk o side L st' :
  Forall (own w) σ → Forall (λ m, same_side_trade w mk o side m = true) σ → σ ≠ [] →
  ledger_wf L →
  trade_result side (from_atomic (total_amount σ)) (get_state L w {| market := mk; outcome := o |})
  = Some st' →
  runs σ (L, ∅) (set_state L w {| market := mk; outcome := o |} st', ∅).
Proof.
  set (k := {| market := mk; outcome := o |}). intros Hown Hss. revert L.
  induction σ as [|m σ IH]; intros L Hne HL Ht; [done|].
  apply Forall_cons in Hown as [Hm Hown], Hss as [Hs Hss]. simpl in Ht.
  pose proof Hm as [Hw Hwf]. pose proof Hwf as [? ?]. rewrite trade_result_add in Ht; [|apply HL|lia|by apply total_amount_nonneg].
  rewrite amount_eta in Ht. apply bind_Some in Ht as (st1 & Hst1 & Ht).
  assert (is_closed ∅ k = false) as Hc by (apply bool_decide_eq_false; set_solver).
  pose proof (apply_in_place_delta m L ∅ HL Hwf) as Hstep.
  rewrite Hw, (same_side_delta m mk o side L ∅ Hm Hs Hc) in Hstep. fold k in Hstep.
  rewrite Hst1 in Hstep. simpl in Hstep. apply runs_cons. do 2 eexists. split; [exact Hstep|].
  assert (position_wf st1) as Hwf1 by (by eapply trade_result_wf).
  destruct σ as [|m' σ].
  - simpl in Ht. rewrite trade_result_zero in Ht by done. apply runs_nil. by simplify_eq.
  - rewrite <- (set_state_twice L k st1 st'). apply IH; [done|done|done| |].
    + by apply ledger_wf_set_state.
    + by rewrite get_set_state_eq.
Qed.

Lemma same_side_runs_inv σ mk o side L t :
  Forall (own w) σ → Forall (λ m, same_side_trade w mk o side m = true) σ → ledger_wf L →
  runs σ (L, ∅) t →
  is_Some (trade_result side (from_atomic (total_amount σ)) (get_state L w {| market := mk; outcome := o |})).
Proof.
  set (k := {| market := mk; outcome := o |}). intros Hown Hss. revert L.
  induction σ as [|m σ IH]; intros L HL Hr.
  { simpl. rewrite trade_result_zero by apply HL. eauto. }
  apply Forall_cons in Hown as [Hm Hown], Hss as [Hs Hss].
  apply runs_cons in Hr as (s1 & a & Hstep & Hr). pose proof Hm as [Hw Hwf]. pose proof Hwf as [? ?].
  cbn [total_amount foldr]. fold (total_amount σ).
  rewrite trade_result_add, amount_eta; [|apply HL|lia|by apply total_amount_nonneg].
  assert (is_closed ∅ k = false) as Hc by (apply bool_decide_eq_false; set_solver).
  assert (ledger_wf s1.1) as Hwf1 by (by eapply (step_wf w m (L, ∅))).
  apply apply_in_place_Ok in Hstep as (ups & Hd & -> & _); [|done|done].
  rewrite Hw, (same_side_delta m mk o side L ∅ Hm Hs Hc) in Hd. fold k in Hd.
  apply bind_Some in Hd as (st1 & Hst1 & [= <- Hres]). rewrite Hst1. rewrite <- Hres, Hw in *. simpl in *.
  specialize (IH Hown Hss _ Hwf1 Hr). by rewrite get_set_state_eq in IH.
Qed.

Lemma same_side_fold σ mk o side st :
  Forall (own w) σ → Forall (λ m, same_side_trade w mk o side m = true) σ → position_wf st →
  match trade_result side (from_atomic (total_amount σ)) st with
  | Some st' => stm_for σ (same_side_step side) st = (st', Ok tt)
  | None => ∃ m, m ∈ σ ∧ (stm_for σ (same_side_step side) st).2 = Err (Overflow (mut_source_trade_id m))
  end.
Proof.
  intros Hown Hss. revert st. induction σ as [|m σ IH]; intros st Hst.
  { simpl. by rewrite trade_result_zero. }
  apply Forall_cons in Hown as [Hm Hown], Hss as [Hs Hss]. cbn [stm_for total_amount foldr].
  fold (total_amount σ). pose proof Hm as [Hw Hwf]. pose proof Hwf as [? ?].
  rewrite trade_result_add, amount_eta; [|done|lia|by apply total_amount_nonneg].
  rewrite stm_bind_run.
  assert (same_side_step side m = apply_trade side (effect_amount (mut_effect m)) (mut_source_trade_id m)) as ->.
  { unfold same_side_step, effect_amount. unfold same_side_trade in Hs.
    destruct (effective (mut_effect m)); rewrite ?andb_false_r in Hs; done. }
  pose proof (apply_trade_spec side (effect_amount (mut_effect m)) (mut_source_trade_id m) st Hst Hwf) as Hsp.
  destruct (trade_result side (effect_amount (mut_effect m)) st) as [st1|] eqn:E1; simpl.
  - rewrite Hsp. specialize (IH Hown Hss st1 (trade_result_wf _ _ _ _ Hst Hwf E1)).
    destruct (trade_result side _ st1); [done|]. destruct IH as (m' & ? & ?). exists m'. set_solver.
  - exists m. split; [set_solver|]. destruct (apply_trade _ _ _ st) as [? []]; simplify_eq/=; done.
Qed.

End Component.

(** ** The verdict on a whole second *)
Section Verdict.
Context `{DO : DecimalOps} `{TO : TimeOps}.
Variable w : WalletAddress.

Lemma same_side_validity_Some L c r : same_side_component_validity L w c = Some r →
  ∃ mk o side, c ≠ [] ∧ Forall (λ m, same_side_trade w mk o side m = true) c
    ∧ r = (stm_for c (same_side_step side) (get_state L w {| market := mk; outcome := o |})).2.
Proof.
  unfold same_side_component_validity. destruct c as [|m c]; [done|]. simpl head. intros H.
  apply bind_Some in H as (first & [= <-] & H).
  destruct (effective (mut_effect m)) as [mk o side a p| | | | | | | |]; try done.
  destruct (forallb _ _) eqn:Hf; [|done]. injection H as <-. exists mk, o, side. split_and!; [done| |].
  - apply Forall_forall. intros x Hx. rewrite forallb_forall in Hf. by apply Hf, list_elem_of_In.
  - unfold get_state, wallet_snapshot, position. by destruct (snapshots L !! w).
Qed.

Lemma component_accepted L c proof : component_order_independent L w c proof = Ok true →
  Forall (own w) c → ledger_wf L →
  ∃ P, ∀ σ, σ ≡ₚ c → ∃ t, runs σ (L, ∅) t ∧ position t.1 w = P.
Proof.
  intros H Hown HL.
  assert (∀ b : bool, (if b then all_component_orders_match L w c else Ok false) = Ok true →
    ∃ P, ∀ σ, σ ≡ₚ c → ∃ t, runs σ (L, ∅) t ∧ position t.1 w = P) as Henum.
  { intros [|] Hm; [|done]. apply orders_match_true in Hm as (e & _ & Hall). exists e.1.
    intros σ Hσ. rewrite Forall_forall in Hall.
    destruct (Hall σ) as (cand & applied & Hsim & <-).
    { apply enumerate_orders_spec; [done|]. by exists σ. }
    apply simulate_runs in Hsim as [C' Hr]. by exists (cand, C'). }
  unfold component_order_independent in H. destruct proof; [|by eapply Henum].
  destruct (same_side_component_validity L w c) as [[[]|e]|] eqn:E.
  - apply same_side_validity_Some in E as (mk & o & side & Hne & Hss & Hr).
    pose proof (same_side_fold w c mk o side _ Hown Hss (HL w {| market := mk; outcome := o |})) as Hf.
    destruct (trade_result _ _ _) as [st'|] eqn:Et; [|destruct Hf as (? & _ & Hf); congruence].
    eexists. intros σ Hσ. eexists. split; [|reflexivity].
    apply (same_side_runs w σ mk o side L st').
    + by rewrite Hσ.
    + by rewrite Hσ.
    + intros ->. by apply Permutation_nil_l in Hσ.
    + done.
    + by rewrite (total_amount_perm σ c Hσ).
  - by destruct (bool_decide _).
  - by eapply Henum.
Qed.

Lemma repaired_component L c : component_order_independent L w c Legacy = Ok true →
  Forall (own w) c → ledger_wf L → component_order_independent L w c Repaired = Ok true.
Proof.
  intros H Hown HL. destruct (component_accepted L c Legacy H Hown HL) as [P HP].
  unfold component_order_independent in *.
  destruct (same_side_component_validity L w c) as [r|] eqn:E; [|done].
  apply same_side_validity_Some in E as (mk & o & side & Hne & Hss & ->).
  destruct (HP c (reflexivity _)) as (t & Hr & _).
  destruct (same_side_runs_inv w c mk o side L t Hown Hss HL Hr) as [st' Ht].
  pose proof (same_side_fold w c mk o side _ Hown Hss (HL w {| market := mk; outcome := o |})) as Hf.
  rewrite Ht in Hf. by rewrite Hf.
Qed.

Lemma stm_for_single {S E A} (f : A → stm S E unit) a s : (stm_for [a] f s).2 = (f a s).2.
Proof.
  cbn [stm_for]. rewrite stm_bind_run. unfold mret, stm_mret.
  by destruct (f a s) as [? [[]|]].
Qed.

Lemma component_error L c proof e : component_order_independent L w c proof = Err e →
  Forall (own w) c → ledger_wf L → ∃ m, c = [m] ∧ ∀ t, ¬ runs [m] (L, ∅) t.
Proof.
  intros H Hown HL. unfold component_order_independent in H.
  assert (∀ b : bool, (if b then all_component_orders_match L w c else Ok false) = Err e →
    ∃ m, c = [m] ∧ ∀ t, ¬ runs [m] (L, ∅) t) as Henum.
  { intros [|] Hm; [|done]. apply orders_match_Err in Hm as [Hl (σ & Hσ & Hsim)%Exists_exists].
    apply bool_decide_eq_true in Hl. destruct c as [|m [|]]; simpl in Hl; try lia.
    exists m. split; [done|]. simpl in Hσ. apply list_elem_of_singleton in Hσ as ->.
    intros t (applied & Hs & _)%runs_simulate. simpl in Hsim. congruence. }
  destruct proof; [|by eapply Henum].
  destruct (same_side_component_validity L w c) as [[[]|e']|] eqn:E; [done| |by eapply Henum].
  case_bool_decide as Hl; [|done]. injection H as ->. destruct c as [|m [|]]; simpl in Hl; try lia.
  exists m. split; [done|].
  apply same_side_validity_Some in E as (mk & o & side & _ & Hss & Hr).
  pose proof (same_side_fold w [m] mk o side _ Hown Hss (HL w {| market := mk; outcome := o |})) as Hf.
  destruct (trade_result _ _ _) as [st'|] eqn:Et; [rewrite Hf in Hr; done|].
  apply Forall_singleton in Hown as [Hw Hm]. pose proof (Forall_inv Hss) as Hs. simpl in Hs.
  intros t (s1 & a & Hstep & _)%runs_cons.
  apply apply_in_place_Ok in Hstep as (ups & Hd & _); [|done|done].
  rewrite Hw, (same_side_delta w m mk o side L ∅) in Hd; [|by split|done|apply bool_decide_eq_false; set_solver].
  simpl in Et. rewrite Z.add_0_r, amount_eta in Et. by rewrite Et in Hd.
Qed.

Lemma components_validity_None L cs proof : components_validity L w cs proof = Ok None →
  Forall (λ c, c = [] ∨ component_order_independent L w c proof = Ok true) cs.
Proof.
  induction cs as [|c cs IH]; simpl; intros H; [constructor|].
  destruct c as [|m c]; simpl in H; [constructor; [by left|by apply IH]|].
  destruct (component_order_independent L w (m :: c) proof) as [[]|] eqn:E; simpl in H; try done.
  constructor; [by right|by apply IH].
Qed.

Lemma components_validity_Err L cs proof e : components_validity L w cs proof = Err e →
  ∃ c, c ∈ cs ∧ component_order_independent L w c proof = Err e.
Proof.
  induction cs as [|c cs IH]; simpl; intros H; [done|].
  destruct c as [|m c]; simpl in H; [destruct (IH H) as (c' & ? & ?); exists c'; set_solver|].
  destruct (component_order_independent L w (m :: c) proof) as [[]|] eqn:E; simpl in H; try done.
  - destruct (IH H) as (c' & ? & ?); exists c'; set_solver.
  - simplify_eq. exists (m :: c). set_solver.
Qed.

(** Disjoint, well-shaped groups. *)
Lemma filter_component cs c : StronglySorted (λ c1 c2, keys_of c1 ## keys_of c2) cs →
  Forall component_shape cs → c ∈ cs → keys_of c ≠ ∅ →
  filter (touches (keys_of c)) (mjoin cs) = c.
Proof.
  intros Hss Hsh Hin Hne.
  assert (∀ l K, keys_of l ## K → filter (touches K) l = []) as Hoff.
  { induction l as [|m l IH]; intros K HK; [done|]. rewrite keys_of_cons in HK.
    rewrite filter_cons_False; [apply IH; set_solver|]. unfold touches. set_solver. }
  assert (∀ l K, Forall (λ m, ¬ keyless m) l → keys_of l ⊆ K → filter (touches K) l = l) as Hon.
  { induction 1 as [|m l Hm _ IH]; intros HK; [done|]. rewrite keys_of_cons in HK.
    rewrite filter_cons_True; [f_equal; apply IH; set_solver|].
    unfold touches, keyless in *. set_solver. }
  induction Hss as [|c' cs Hss IH Hd]; [set_solver|].
  apply Forall_cons in Hsh as [Hc' Hsh]. csimpl. rewrite filter_app.
  apply elem_of_cons in Hin as [->|Hin].
  - rewrite (Hon c'); [|destruct Hc' as [(m & -> & Hk)|[_ ?]]; [|done]|done].
    2:{ exfalso. apply Hne. rewrite keys_of_cons. unfold keyless in Hk. rewrite Hk. unfold keys_of. set_solver. }
    rewrite (Hoff (mjoin cs)); [by rewrite app_nil_r|].
    clear -Hd. induction cs as [|c cs IH]; [unfold keys_of; set_solver|].
    apply Forall_cons in Hd as [? ?]. csimpl. rewrite keys_of_app. set_solver.
  - rewrite (Hoff c'), IH by (try done; by eapply Forall_forall in Hd). done.
Qed.

Lemma sorted_disjoint cs c1 c2 : StronglySorted (λ c1 c2, keys_of c1 ## keys_of c2) cs →
  c1 ∈ cs → c2 ∈ cs → c1 ≠ c2 → keys_of c1 ## keys_of c2.
Proof.
  induction 1 as [|c cs _ IH Hd]; [set_solver|]. rewrite Forall_forall in Hd.
  rewrite !elem_of_cons. intros [->|H1] [->|H2] Hn; try done.
  - by apply Hd.
  - symmetry. by apply Hd.
  - by apply IH.
Qed.

(** The state in which the mutations of [σ] touching [K] end on their own. *)
Definition part_result (L : PositionLedger) (σ : list LedgerMutation) (K : gset MarketOutcomeId) : Batch :=
  (stm_map (filter (touches K) σ) apply_in_place (L, ∅)).1.

Lemma runs_part L σ K t : runs (filter (touches K) σ) (L, ∅) t → t = part_result L σ K.
Proof. intros [applied H]. unfold part_result. by rewrite H. Qed.

(** The key sets of the components that touch something. *)
Definition component_keys (ms : list LedgerMutation) (K : gset MarketOutcomeId) : Prop :=
  ∃ c, c ∈ mutation_components ms ∧ keys_of c = K ∧ K ≠ ∅.

Lemma component_keys_disjoint ms K1 K2 :
  component_keys ms K1 → component_keys ms K2 → K1 ≠ K2 → K1 ## K2.
Proof.
  intros (c1 & H1 & <- & _) (c2 & H2 & <- & _) Hn.
  destruct (components_from_spec (length ms) ms) as (_ & _ & Hss); [done|].
  eapply sorted_disjoint; [exact Hss|done|done|naive_solver].
Qed.

Lemma component_filter ms σ c : σ ≡ₚ ms → c ∈ mutation_components ms → keys_of c ≠ ∅ →
  filter (touches (keys_of c)) σ ≡ₚ c.
Proof.
  intros Hσ Hc Hne.
  destruct (components_from_spec (length ms) ms) as (Hp & Hsh & Hss); [done|].
  rewrite Hσ, <- Hp. by rewrite (filter_component (components_from (length ms) ms) c).
Qed.

Lemma component_of ms m : m ∈ ms → ∃ c, c ∈ mutation_components ms ∧ m ∈ c ∧ component_shape c.
Proof.
  destruct (components_from_spec (length ms) ms) as (Hp & Hsh & _); [done|].
  rewrite <- Hp at 1. rewrite list_elem_of_join. intros (c & Hm & Hc). exists c. split_and!; try done.
  by eapply Forall_forall in Hsh.
Qed.

Lemma keys_of_member m c : m ∈ c → list_to_set (touched_keys m) ⊆ keys_of c.
Proof.
  induction c as [|m' c IH]; [set_solver|]. rewrite keys_of_cons, elem_of_cons.
  intros [->|?]; set_solver.
Qed.

Section Accepted.
Variables (L : PositionLedger) (ms : list LedgerMutation) (proof : SecondProofKind).
Hypothesis HL : ledger_wf L.
Hypothesis Hown : Forall (own w) ms.
Hypothesis Hacc : order_independent_validity L w ms proof = Ok None.

Lemma accepted_component c : c ∈ mutation_components ms →
  ∃ P, ∀ σ, σ ≡ₚ c → ∃ t, runs σ (L, ∅) t ∧ position t.1 w = P.
Proof using HL Hacc Hown.
  intros Hc. apply components_validity_None in Hacc as Hall. rewrite Forall_forall in Hall.
  destruct (components_from_spec (length ms) ms) as (Hp & Hsh & _); [done|].
  assert (Forall (own w) c) as Hoc.
  { rewrite <- Hp in Hown. apply Forall_forall. intros m Hm. rewrite Forall_forall in Hown.
    apply Hown, list_elem_of_join. eauto. }
  destruct (Hall c Hc) as [->|H]; [|by eapply component_accepted].
  exists (position L w). intros σ ->%Permutation_nil_r. exists (L, ∅). split; [by apply runs_nil|done].
Qed.

Lemma accepted_part σ K : σ ≡ₚ ms → component_keys ms K →
  runs (filter (touches K) σ) (L, ∅) (part_result L σ K)
  ∧ position (part_result L σ K).1 w = position (part_result L ms K).1 w.
Proof using HL Hacc Hown.
  intros Hσ (c & Hc & <- & Hne). destruct (accepted_component c Hc) as [P HP].
  destruct (HP (filter (touches (keys_of c)) σ)) as (t & Hr & Ht); [by apply (component_filter ms)|].
  destruct (HP (filter (touches (keys_of c)) ms)) as (t' & Hr' & Ht'); [by apply (component_filter ms)|].
  rewrite <- (runs_part _ _ _ _ Hr), <- (runs_part _ _ _ _ Hr'). split; [done|congruence].
Qed.

Lemma accepted_runs σ : σ ≡ₚ ms →
  ∃ t, runs σ (L, ∅) t ∧ ∀ K, component_keys ms K → agree w K t (part_result L σ K).
Proof using HL Hacc Hown.
  intros Hσ. apply (runs_compose w (component_keys ms) σ (L, ∅) (λ _, (L, ∅)) (part_result L σ)).
  - apply component_keys_disjoint.
  - by rewrite Hσ.
  - apply Forall_forall. intros m Hm. rewrite Hσ in Hm.
    destruct (component_of ms m Hm) as (c & Hc & Hmc & [(m' & -> & Hk)|[_ Hne]]).
    + apply list_elem_of_singleton in Hmc as ->. right. split; [done|].
      destruct (accepted_component _ Hc) as [P HP].
      destruct (HP [m'] (reflexivity _)) as (t & (s1 & a & Hstep & _)%runs_cons & _).
      by exists (L, ∅), s1, a.
    + left. rewrite Forall_forall in Hne. pose proof (keys_of_member m c Hmc) as Hsub.
      exists (keys_of c). split_and!; [|by apply Hne|done]. exists c. split_and!; [done|done|].
      specialize (Hne m Hmc). unfold keyless in Hne. set_solver.
  - done.
  - intros K HK. split_and!; [done|done|]. by apply accepted_part.
Qed.

Lemma accepted_same_ledger σ t t0 : σ ≡ₚ ms → runs σ (L, ∅) t → runs ms (L, ∅) t0 → t.1 = t0.1.
Proof using HL Hacc Hown.
  intros Hσ Hr Hr0. assert (Forall (own w) σ) as Hownσ by (by rewrite Hσ).
  destruct (accepted_runs σ Hσ) as (t' & Hr' & Hag).
  assert (t' = t) as -> by (destruct Hr as [? Hr], Hr' as [? Hr']; congruence).
  destruct (accepted_runs ms (reflexivity _)) as (t' & Hr0' & Hag0).
  assert (t' = t0) as -> by (destruct Hr0 as [? Hr0], Hr0' as [? Hr0']; congruence).
  destruct (runs_frame w σ (L, ∅) t) as (F1 & F2 & F3 & F4); [done|done|done|].
  destruct (runs_frame w ms (L, ∅) t0) as (G1 & G2 & G3 & G4); [done|done|done|].
  apply (ledger_ext t.1 t0.1 w).
  - intros w' ?. by rewrite F1, G1.
  - destruct (wallet_snapshot t.1 w) as [sw p] eqn:E, (wallet_snapshot t0.1 w) as [sw0 p0] eqn:E0.
    simpl in *. f_equal; [congruence|]. apply map_eq. intros k.
    destruct (decide (k ∈ keys_of ms)) as [Hk|Hk].
    2:{ rewrite F3, G3; [done|done|by rewrite (keys_of_perm _ _ Hσ)]. }
    apply elem_of_list_to_set, list_elem_of_join in Hk as (ks & Hk & (m & -> & Hm)%list_elem_of_fmap).
    destruct (component_of ms m Hm) as (c & Hc & Hmc & _).
    assert (k ∈ keys_of c) as Hkc by (apply (keys_of_member m c Hmc); by apply elem_of_list_to_set).
    assert (component_keys ms (keys_of c)) as HK by (exists c; split_and!; [done|done|set_solver]).
    pose proof (Hag _ HK k Hkc) as V1. pose proof (Hag0 _ HK k Hkc) as V2.
    apply (f_equal fst) in V1, V2. simpl in V1, V2. rewrite E in V1. rewrite E0 in V2.
    destruct (accepted_part σ _ Hσ HK) as [_ Hpos]. simpl in V1, V2. rewrite V1, V2.
    unfold position in Hpos. unfold wallet_snapshot. by rewrite Hpos.
  - rewrite F4, G4. by rewrite (keys_of_perm _ _ Hσ).
Qed.

End Accepted.

(** C19: a second accepted as order independent really is: every order of its
    mutations succeeds and ends in the same ledger, whichever proof was used. *)
Theorem order_independent_validity_sound L ms proof :
  ledger_wf L → Forall (own w) ms →
  order_independent_validity L w ms proof = Ok None →
  ∃ L', ∀ σ, σ ≡ₚ ms → ∃ applied, simulate_all_or_none L σ = Ok (L', applied).
Proof.
  intros HL Hown Hacc. destruct (accepted_runs L ms proof HL Hown Hacc ms (reflexivity _)) as (t0 & Hr0 & _).
  exists t0.1. intros σ Hσ. destruct (accepted_runs L ms proof HL Hown Hacc σ Hσ) as (t & Hr & _).
  rewrite <- (accepted_same_ledger L ms proof HL Hown Hacc σ t t0 Hσ Hr Hr0).
  apply runs_simulate in Hr as (applied & ? & _). eauto.
Qed.

(** an error is not an artefact of the order tried: when the check returns an
    error, no order of the second can be applied. *)
Theorem order_independent_validity_error L ms proof e :
  ledger_wf L → Forall (own w) ms →
  order_independent_validity L w ms proof = Err e →
  ∀ σ, σ ≡ₚ ms → ∃ e', simulate_all_or_none L σ = Err e'.
Proof.
  intros HL Hown He σ Hσ. destruct (simulate_all_or_none L σ) as [[L' applied]|e'] eqn:Es; [|eauto].
  exfalso. apply simulate_runs in Es as [C' Hr].
  apply components_validity_Err in He as (c & Hc & He).
  destruct (components_from_spec (length ms) ms) as (Hp & Hsh & _); [done|].
  assert (∀ m, m ∈ c → m ∈ ms) as Hcm.
  { intros m Hm. rewrite <- Hp. apply list_elem_of_join. eauto. }
  assert (∀ m, m ∈ ms → own w m) as Hms by (by apply Forall_forall).
  destruct (component_error L c proof e) as (m & -> & Hno); [done| |done|].
  { apply Forall_forall. intros m Hm. by apply Hms, Hcm. }
  assert (m ∈ σ) as Hmσ by (rewrite Hσ; apply Hcm; set_solver).
  assert (Forall (own w) σ) as Hownσ by (by rewrite Hσ).
  destruct (decide (keyless m)) as [Hk|Hk].
  - apply list_elem_of_split in Hmσ as (σ1 & σ2 & ->).
    apply Forall_app in Hownσ as [Ho1 [Hom _]%Forall_cons].
    apply runs_app in Hr as (s & Hr1 & (s1 & a & Hstep & _)%runs_cons).
    pose proof (runs_wf w σ1 (L, ∅) s Ho1 HL Hr1) as Hs.
    destruct (step_agree w m s (L, ∅) s1 a) as (t2 & Ht2 & _); try done.
    { intros k Hin. unfold keyless in Hk. rewrite Hk in Hin. set_solver. }
    apply (Hno t2). apply runs_cons. exists t2, a. split; [done|by apply runs_nil].
  - assert (filter (touches (keys_of [m])) σ = [m]) as Hf.
    { apply Permutation_singleton_r, (component_filter ms); [done|done|].
      rewrite keys_of_cons. unfold keyless in Hk. set_solver. }
    destruct (runs_project w (keys_of [m]) σ (L, ∅) (L, ∅) (L', C')) as (t' & Hr' & _); try done.
    + apply Forall_forall. intros m' Hm' Ht.
      assert (m' ∈ filter (touches (keys_of [m])) σ) as Hin by (by apply list_elem_of_filter).
      rewrite Hf in Hin. by apply keys_of_member.
    + rewrite Hf in Hr'. by apply (Hno t').
Qed.

(** the repaired proof only accepts more: a second the bounded enumeration
    accepts is accepted by the same-side fold as well. *)
Theorem repaired_extends_legacy L ms :
  ledger_wf L → Forall (own w) ms →
  order_independent_validity L w ms Legacy = Ok None →
  order_independent_validity L w ms Repaired = Ok None.
Proof.
  intros HL Hown H. pose proof (components_validity_None L _ _ H) as Hall.
  assert (Forall (Forall (own w)) (mutation_components ms)) as Hoc.
  { destruct (components_from_spec (length ms) ms) as (Hp & _ & _); [done|].
    rewrite <- Hp in Hown. apply Forall_forall. intros c Hc. apply Forall_forall. intros m Hm.
    rewrite Forall_forall in Hown. apply Hown, list_elem_of_join. eauto. }
  clear H Hown. unfold order_independent_validity.
  induction Hall as [|c cs [->|Hc] _ IH]; simpl; [done|by apply IH, (Forall_inv_tail Hoc)|].
  apply Forall_cons in Hoc as [Hoc Hocs]. destruct c as [|m c]; simpl; [by apply IH|].
  rewrite repaired_component by done. by apply IH.
Qed.

End Verdict.

(** ** Instances *)

(** Six buys and a redeem of the other outcome: one component of six same-side
    trades (too many to enumerate) and one of a single clamped redeem. *)
Definition sample_second : list LedgerMutation :=
  ((λ n, sample_mutation (pretty n)
           (Trade sample_market outcome0 Buy (from_atomic n) {| price_value := (1 # 2 : @Decimal QDecimal)%Q |}))
     <$> [1; 2; 3; 4; 5; 6])
  ++ [sample_mutation "r" (Redeem sample_market outcome1 (from_atomic 7))].

Lemma sample_second_own : Forall (own sample_wallet) sample_second.
Proof. repeat (apply Forall_cons_2; [split; by vm_compute|]). apply Forall_nil_2. Qed.

Lemma order_independent_validity_sound_witness :
  ∃ L', ∀ σ, σ ≡ₚ sample_second →
    ∃ applied, simulate_all_or_none sample_ledger σ = Ok (L', applied).
Proof.
  apply (order_independent_validity_sound sample_wallet sample_ledger sample_second Repaired
    sample_ledger_wf sample_second_own). by vm_compute.
Defined.

(** A merge of shares the wallet does not hold. *)
Definition sample_bad_second : list LedgerMutation :=
  [sample_mutation "b" (Merge sample_market (from_atomic 5));
   sample_mutation "x" RawOnly].

Lemma sample_bad_second_own : Forall (own sample_wallet) sample_bad_second.
Proof. repeat (apply Forall_cons_2; [split; by vm_compute|]). apply Forall_nil_2. Qed.

Lemma order_independent_validity_error_witness :
  ∃ e', simulate_all_or_none sample_ledger (rev sample_bad_second) = Err e'.
Proof.
  apply (order_independent_validity_error sample_wallet sample_ledger sample_bad_second Legacy
    (Underflow (sample_id "b")) sample_ledger_wf sample_bad_second_own); [by vm_compute|].
  symmetry. apply Permutation_rev.
Defined.

Definition sample_small_second : list LedgerMutation := take 3 sample_second.

Lemma sample_small_second_own : Forall (own sample_wallet) sample_small_second.
Proof. repeat (apply Forall_cons_2; [split; by vm_compute|]). apply Forall_nil_2. Qed.

Lemma repaired_extends_legacy_witness :
  order_independent_validity sample_ledger sample_wallet sample_small_second Repaired = Ok None.
Proof.
  apply (repaired_extends_legacy sample_wallet sample_ledger sample_small_second
    sample_ledger_wf sample_small_second_own). by vm_compute.
Defined.
