(* ===== verification/SecondClassify.v ===== *)
(** * First-entry classification of one complete wallet-second
      (crates/position-ledger, [classify_with_second_proof] and its callers)

    Once a second is proved order independent, every ordinary trade in it is
    classified against the pre-second snapshot, and the buys that would open a
    market are compared: one of them at most is the wallet's first entry. *)

From S2P Require Import Prelude CoreTypes Bytes Activity SignalEngine LedgerEffect PositionLedger SecondProof.
#[local] Open Scope Z_scope.

Inductive EntryClassification : Type :=
| EntryAdmitted | NotFirstEntry | NotBuy | NotAnEntry | AmbiguousFirstEntrySameSecond
| WalletHistoryIncomplete.
#[export] Instance EntryClassification_eq_dec : EqDecision EntryClassification.
Proof. solve_decision. Defined.

Definition entry_classification_str (e : EntryClassification) : string :=
  match e with
  | EntryAdmitted => "admitted"
  | NotFirstEntry => "not_first_entry"
  | NotBuy => "not_buy"
  | NotAnEntry => "not_an_entry"
  | AmbiguousFirstEntrySameSecond => "ambiguous_first_entry_same_second"
  | WalletHistoryIncomplete => "wallet_history_incomplete"
  end.

Inductive SameSecondEntryPolicy : Type := LegacyPolicy | HomogeneousPieces.
#[export] Instance SameSecondEntryPolicy_eq_dec : EqDecision SameSecondEntryPolicy.
Proof. solve_decision. Defined.

Section Classify.
Context `{DO : DecimalOps} `{TO : TimeOps}.

Record TradeDecision := {
  d_source_trade_id : SourceTradeId;
  d_market_id : MarketId;
  d_outcome_id : OutcomeId;
  d_side : Side;
  d_amount : ShareAmount;
  d_price : Price;
  d_action : LeaderAction;
  d_action_order_dependent : bool;
  d_entry : EntryClassification
}.

Inductive SecondVerdict : Type :=
| OrderIndependent (applied : list AppliedEffect) (decisions : list TradeDecision)
    (first_entries : list (MarketId * SourceTradeId))
| OrderDependent (trigger : SourceTradeId).

Definition set_entry (e : EntryClassification) (d : TradeDecision) : TradeDecision := {|
  d_source_trade_id := d_source_trade_id d; d_market_id := d_market_id d;
  d_outcome_id := d_outcome_id d; d_side := d_side d; d_amount := d_amount d;
  d_price := d_price d; d_action := d_action d;
  d_action_order_dependent := d_action_order_dependent d; d_entry := e
|}.
Definition clear_order_dependent (d : TradeDecision) : TradeDecision := {|
  d_source_trade_id := d_source_trade_id d; d_market_id := d_market_id d;
  d_outcome_id := d_outcome_id d; d_side := d_side d; d_amount := d_amount d;
  d_price := d_price d; d_action := d_action d;
  d_action_order_dependent := false; d_entry := d_entry d
|}.

(** ** The decisions before first entries are compared *)

(** [touched_count] *)
Definition touched_counts (mutations : list LedgerMutation) : gmap MarketOutcomeId Z :=
  foldl (λ counts m,
    foldl (λ counts k, <[k := saturating_add_u64 (default 0 (counts !! k)) 1]> counts)
      counts (touched_keys m)) ∅ mutations.

Definition second_trade (wallet : WalletAddress) (mutation : LedgerMutation) (mk : MarketId)
    (o : OutcomeId) (side : Side) (amount : ShareAmount) (price : Price) : IncomingTrade := {|
  trade_wallet := wallet; trade_market_id := mk; trade_outcome_id := o; trade_side := side;
  trade_price := price; trade_contracts := amount;
  trade_observed_at := source_timestamp (mut_source_time mutation);
  trade_received_at := source_timestamp (mut_source_time mutation);
  trade_source_trade_id := mut_source_trade_id mutation;
  trade_transaction_hash := Some (mut_transaction_hash mutation);
  trade_provenance := RestPoll
|}.

Definition trade_decision (wallet : WalletAddress) (pre_snapshot : option PositionSnapshot)
    (counts : gmap MarketOutcomeId Z) (q : ReconstructionQuality) (config : SignalConfig)
    (mutation : LedgerMutation) : option TradeDecision :=
  match effective (mut_effect mutation) with
  | Trade mk o side amount price =>
      Some {|
        d_source_trade_id := mut_source_trade_id mutation;
        d_market_id := mk; d_outcome_id := o; d_side := side; d_amount := amount;
        d_price := price;
        d_action := classify_leader_action (second_trade wallet mutation mk o side amount price)
                      pre_snapshot q config;
        d_action_order_dependent := 1 <? default 0 (counts !! {| market := mk; outcome := o |});
        d_entry := NotAnEntry
      |}
  | _ => None
  end.

(** ** Candidates per market *)

Definition is_candidate (d : TradeDecision) : bool :=
  bool_decide (d_side d = Buy) && bool_decide (d_action d = Entry).

(** The entry the first pass writes. *)
Definition mark_decision (d : TradeDecision) : TradeDecision :=
  if decide (d_side d ≠ Buy) then set_entry NotBuy d
  else if decide (d_action d ≠ Entry) then set_entry NotAnEntry d
  else d.

Definition Candidates : Type := list (string * (MarketId * list nat)).

Definition add_candidate (candidates : Candidates) (index : nat) (d : TradeDecision) : Candidates :=
  if is_candidate d then
    let key := market_to_string (d_market_id d) in
    let '(mk, indices) := default (d_market_id d, []) (bt_get key candidates) in
    bt_insert key (mk, indices ++ [index]) candidates
  else candidates.

(** The candidate loop over [decisions.iter_mut().enumerate()]. *)
Fixpoint collect_candidates (candidates : Candidates) (index : nat) (ds : list TradeDecision) :
    Candidates :=
  match ds with
  | [] => candidates
  | d :: ds => collect_candidates (add_candidate candidates index d) (S index) ds
  end.

(** ** First entries of one market *)

(** [decisions[i].source_trade_id.0] *)
Definition id_at (ds : list TradeDecision) (i : nat) : string :=
  default EmptyString (source_trade_id ∘ d_source_trade_id <$> ds !! i).

Definition representative (ds : list TradeDecision) (indices : list nat) : option nat :=
  min_by (λ i j, ltb_of (id_at ds i) (id_at ds j)) indices.

Definition homogeneous_trades (mk : MarketId) (ds : list TradeDecision) (first : nat) : bool :=
  forallb (λ d, bool_decide (d_side d = Buy) && bool_decide (d_action d = Entry)
                && bool_decide (Some (d_outcome_id d) = d_outcome_id <$> ds !! first))
    (filter (λ d, d_market_id d = mk) ds).

Definition homogeneous_mutations (wallet : WalletAddress) (mk : MarketId)
    (mutations : list LedgerMutation) : bool :=
  forallb (λ m,
    bool_decide (mut_wallet m = wallet)
    && match head mutations with
       | Some first => bool_decide (mut_source_time m = mut_source_time first)
       | None => false
       end
    && (negb (existsb (λ k, bool_decide (market k = mk)) (touched_keys m))
        || match effective (mut_effect m) with Trade _ _ Buy _ _ => true | _ => false end))
    mutations.

Definition is_homogeneous (policy : SameSecondEntryPolicy) (wallet : WalletAddress)
    (mutations : list LedgerMutation) (mk : MarketId) (ds : list TradeDecision)
    (rep : option nat) : bool :=
  bool_decide (policy = HomogeneousPieces)
  && match rep with Some first => homogeneous_trades mk ds first | None => false end
  && homogeneous_mutations wallet mk mutations.

Definition market_entry (history_complete homogeneous : bool) (candidates : nat) :
    EntryClassification :=
  if negb history_complete then WalletHistoryIncomplete
  else if bool_decide (2 ≤ candidates)%nat && negb homogeneous then AmbiguousFirstEntrySameSecond
  else EntryAdmitted.

(** The write of one candidate's entry. *)
Definition write_entry (homogeneous : bool) (entry : EntryClassification) (rep : option nat)
    (ds : list TradeDecision) (index : nat) : list TradeDecision :=
  if homogeneous && bool_decide (entry = EntryAdmitted) then
    if decide (Some index = rep)
    then alter (set_entry EntryAdmitted ∘ clear_order_dependent) index ds
    else alter (set_entry NotFirstEntry) index ds
  else alter (set_entry entry) index ds.

Definition classify_market (policy : SameSecondEntryPolicy) (wallet : WalletAddress)
    (mutations : list LedgerMutation) (history_complete : bool) (has_market : MarketId → bool)
    (acc : list TradeDecision * list (MarketId * SourceTradeId)) (c : MarketId * list nat) :
    list TradeDecision * list (MarketId * SourceTradeId) :=
  let '(ds, first_entries) := acc in
  let '(mk, indices) := c in
  if has_market mk then (foldl (λ ds i, alter (set_entry NotFirstEntry) i ds) ds indices, first_entries)
  else
    let rep := representative ds indices in
    let homogeneous := is_homogeneous policy wallet mutations mk ds rep in
    let first_entries' :=
      match min_by ltb_of (id_at ds <$> indices) with
      | Some first_id => first_entries ++ [(mk, {| source_trade_id := first_id |})]
      | None => first_entries
      end in
    let entry := market_entry history_complete homogeneous (length indices) in
    (foldl (write_entry homogeneous entry rep) ds indices, first_entries').

(** ** The whole second *)

Definition second_decisions (ledger : PositionLedger) (wallet : WalletAddress)
    (mutations : list LedgerMutation) (q : ReconstructionQuality) (config : SignalConfig) :
    list TradeDecision :=
  omap (trade_decision wallet (position ledger wallet) (touched_counts mutations) q config) mutations.

Definition first_entry_pass (policy : SameSecondEntryPolicy) (wallet : WalletAddress)
    (mutations : list LedgerMutation) (history_complete : bool) (has_market : MarketId → bool)
    (ds : list TradeDecision) : list TradeDecision * list (MarketId * SourceTradeId) :=
  let candidates := collect_candidates [] 0 ds in
  foldl (classify_market policy wallet mutations history_complete has_market)
    (mark_decision <$> ds, []) (bt_values candidates).

Definition classify_with_second_proof (proof : SecondProofKind) (policy : SameSecondEntryPolicy)
    (ledger : PositionLedger) (wallet : WalletAddress) (mutations : list LedgerMutation)
    (q : ReconstructionQuality) (config : SignalConfig) (history_complete : bool)
    (has_market : MarketId → bool) : result LedgerError SecondVerdict :=
  validity ← order_independent_validity ledger wallet mutations proof;
  match validity with
  | Some trigger => Ok (OrderDependent trigger)
  | None =>
      simulated ← simulate_all_or_none ledger mutations;
      let '(decisions, first_entries) :=
        first_entry_pass policy wallet mutations history_complete has_market
          (second_decisions ledger wallet mutations q config) in
      Ok (OrderIndependent simulated.2 decisions first_entries)
  end.

Definition classify_complete_second (policy : SameSecondEntryPolicy) (ledger : PositionLedger)
    (wallet : WalletAddress) (mutations : list LedgerMutation) (q : ReconstructionQuality)
    (config : SignalConfig) (history_complete : bool) (has_market : MarketId → bool) :
    result LedgerError SecondVerdict :=
  classify_with_second_proof Repaired policy ledger wallet mutations q config history_complete
    has_market.

Definition classify_complete_second_legacy (ledger : PositionLedger) (wallet : WalletAddress)
    (mutations : list LedgerMutation) (q : ReconstructionQuality) (config : SignalConfig)
    (history_complete : bool) (has_market : MarketId → bool) : result LedgerError SecondVerdict :=
  classify_with_second_proof Legacy LegacyPolicy ledger wallet mutations q config history_complete
    has_market.

Definition classify_complete_historical_second (ledger : PositionLedger) (wallet : WalletAddress)
    (mutations : list LedgerMutation) (q : ReconstructionQuality) (has_market : MarketId → bool) :
    result LedgerError SecondVerdict :=
  classify_complete_second LegacyPolicy ledger wallet mutations q SignalConfig_default true
    has_market.

End Classify.

(** ** Candidates are the opening buys of each market *)
Section CandidateFacts.
Context `{DO : DecimalOps} `{TO : TimeOps}.

(** [indices] are the positions of the candidates of market [mk]. *)
Definition candidate_indices (ds : list TradeDecision) (mk : MarketId) (indices : list nat) : Prop :=
  ∀ i, i ∈ indices ↔ ∃ d, ds !! i = Some d ∧ is_candidate d = true ∧ d_market_id d = mk.

Definition candidates_inv (ds : list TradeDecision) (c : Candidates) : Prop :=
  bt_wf c
  ∧ (∀ key mk indices, bt_get key c = Some (mk, indices) →
       key = market_to_string mk ∧ indices ≠ [] ∧ candidate_indices ds mk indices)
  ∧ (∀ i d, ds !! i = Some d → is_candidate d = true →
       is_Some (bt_get (market_to_string (d_market_id d)) c)).

Lemma market_to_string_inj a b : market_to_string a = market_to_string b → a = b.
Proof. destruct a as [[a]], b as [[b]]. unfold market_to_string. simpl. by intros ->. Qed.

Lemma collect_candidates_snoc c n ds d :
  collect_candidates c n (ds ++ [d]) = add_candidate (collect_candidates c n ds) (n + length ds) d.
Proof.
  revert c n. induction ds as [|x ds IH]; intros c n; simpl; [by rewrite Nat.add_0_r|].
  rewrite IH. f_equal. lia.
Qed.

Lemma lookup_snoc_cases {A} (l : list A) x i y :
  (l ++ [x]) !! i = Some y ↔ l !! i = Some y ∨ i = length l ∧ y = x.
Proof.
  rewrite lookup_app_Some, list_lookup_singleton_Some. split.
  - intros [?|(? & ? & ->)]; [by left|right; split; [lia|done]].
  - intros [?|[-> ->]]; [by left|right; split; [lia|split; [lia|done]]].
Qed.

Lemma candidates_inv_collect ds : candidates_inv ds (collect_candidates [] 0 ds).
Proof.
  induction ds as [|d ds IH] using rev_ind.
  { split_and!; [constructor|done|]. intros i d. by rewrite lookup_nil. }
  rewrite collect_candidates_snoc. simpl. set (c := collect_candidates [] 0 ds) in *.
  destruct IH as (Hwf & Hget & Hall). unfold add_candidate. destruct (is_candidate d) eqn:Hc.
  2:{ split_and!; [done| |].
      - intros key mk indices Hk. destruct (Hget key mk indices Hk) as (? & ? & Hi). split_and!; try done.
        intros i. rewrite (Hi i). setoid_rewrite lookup_snoc_cases. naive_solver congruence.
      - intros i d'. rewrite lookup_snoc_cases. intros [?|[-> ->]]; [by eapply Hall|congruence]. }
  set (key := market_to_string (d_market_id d)).
  destruct (default (d_market_id d, []) (bt_get key c)) as [mk indices] eqn:Ed.
  assert (mk = d_market_id d ∧ candidate_indices ds mk indices) as [-> Hi].
  { destruct (bt_get key c) as [[mk' ix']|] eqn:Eg; simplify_eq/=.
    - destruct (Hget _ _ _ Eg) as (Hk & _ & ?). by apply market_to_string_inj in Hk as ->.
    - split; [done|]. intros i. split; [set_solver|]. intros (d' & Hd & Hcd & Hm).
      specialize (Hall i d' Hd Hcd). rewrite Hm in Hall. fold key in Hall. rewrite Eg in Hall.
      by destruct Hall. }
  split_and!; [by apply bt_insert_wf| |].
  - intros key' mk' ix'. rewrite bt_get_insert by done. case_decide as Hk; subst.
    + intros [= <- <-]. split_and!; [done|by destruct indices|]. intros i.
      rewrite elem_of_app, (Hi i), list_elem_of_singleton. setoid_rewrite lookup_snoc_cases.
      naive_solver.
    + intros Hg. destruct (Hget _ _ _ Hg) as (-> & ? & Hi'). split_and!; try done. intros i.
      rewrite (Hi' i). setoid_rewrite lookup_snoc_cases. split; [naive_solver|].
      intros (d' & [?|[-> ->]] & ? & Hm); [eauto|]. subst mk'. done.
  - intros i d'. rewrite lookup_snoc_cases, bt_get_insert by done. case_decide; [eauto|].
    intros [?|[-> ->]]; [by eapply Hall|done].
Qed.

End CandidateFacts.

(** ** The first-entry pass *)
Section FirstEntries.
Context `{DO : DecimalOps} `{TO : TimeOps}.
Variables (policy : SameSecondEntryPolicy) (wallet : WalletAddress)
  (mutations : list LedgerMutation) (history_complete : bool) (has_market : MarketId → bool).
Variable ds0 : list TradeDecision.
Hypothesis Hfresh : Forall (λ d, d_entry d = NotAnEntry) ds0.

(** Everything of a decision but its verdict. *)
Definition same_trade (d d' : TradeDecision) : Prop :=
  d_source_trade_id d' = d_source_trade_id d ∧ d_market_id d' = d_market_id d
  ∧ d_outcome_id d' = d_outcome_id d ∧ d_side d' = d_side d ∧ d_amount d' = d_amount d
  ∧ d_price d' = d_price d ∧ d_action d' = d_action d.

(** The market groups the pass visits. *)
Let groups : list (MarketId * list nat) := bt_values (collect_candidates [] 0 ds0).

Lemma groups_spec mk indices : (mk, indices) ∈ groups →
  bt_get (market_to_string mk) (collect_candidates [] 0 ds0) = Some (mk, indices)
  ∧ indices ≠ [] ∧ candidate_indices ds0 mk indices.
Proof.
  destruct (candidates_inv_collect ds0) as (Hwf & Hget & _).
  unfold groups, bt_values. rewrite list_elem_of_fmap. intros ([key v] & Hv & Hin). simpl in Hv. subst v.
  apply bt_get_elem in Hin; [|done]. destruct (Hget _ _ _ Hin) as (<- & ? & ?). done.
Qed.

Lemma groups_unique mk i1 i2 : (mk, i1) ∈ groups → (mk, i2) ∈ groups → i1 = i2.
Proof. intros (H1 & _)%groups_spec (H2 & _)%groups_spec. rewrite H1 in H2. by simplify_eq. Qed.

Lemma group_of i d : ds0 !! i = Some d → is_candidate d = true →
  ∃ indices, (d_market_id d, indices) ∈ groups.
Proof.
  intros Hd Hc. destruct (candidates_inv_collect ds0) as (_ & Hget & Hall).
  destruct (Hall i d Hd Hc) as [[mk indices] Hg]. destruct (Hget _ _ _ Hg) as (Hk & _).
  apply market_to_string_inj in Hk as <-. exists indices. apply bt_elem_get in Hg.
  unfold groups, bt_values. apply list_elem_of_fmap. eexists. split; [|exact Hg]. done.
Qed.

(** Position [i] may be admitted. *)
Definition may_admit (i : nat) : Prop :=
  ∃ d indices, ds0 !! i = Some d ∧ is_candidate d = true ∧ (d_market_id d, indices) ∈ groups
    ∧ representative ds0 indices = Some i ∧ has_market (d_market_id d) = false
    ∧ history_complete = true.

Definition pass_inv (ds : list TradeDecision) : Prop :=
  Forall2 same_trade ds0 ds
  ∧ ∀ i d, ds !! i = Some d → d_entry d = EntryAdmitted → may_admit i.

Lemma same_trade_refl d : same_trade d d.
Proof. by unfold same_trade. Qed.

Lemma mark_decision_same d : same_trade d (mark_decision d).
Proof. unfold mark_decision. repeat case_decide; done. Qed.

Lemma pass_inv_alter ds f i : (∀ d d', same_trade d d' → same_trade d (f d')) →
  ((∃ d, d_entry (f d) = EntryAdmitted) → may_admit i) →
  pass_inv ds → pass_inv (alter f i ds).
Proof.
  intros Hf Hp [Hs Ha]. split.
  - apply Forall2_same_length_lookup_2; [rewrite length_alter; by eapply Forall2_length|].
    intros j d d' H1 H2. destruct (decide (i = j)) as [->|Hn].
    + rewrite list_lookup_alter_eq in H2. apply fmap_Some in H2 as (x & H2 & ->).
      apply Hf. by eapply Forall2_lookup_lr.
    + rewrite list_lookup_alter_ne in H2 by done. by eapply Forall2_lookup_lr.
  - intros j d H2 He. destruct (decide (i = j)) as [->|Hn].
    + rewrite list_lookup_alter_eq in H2. apply fmap_Some in H2 as (x & H2 & ->). eauto.
    + rewrite list_lookup_alter_ne in H2 by done. eauto.
Qed.

Lemma pass_inv_foldl (f : list TradeDecision → nat → list TradeDecision) indices ds :
  (∀ ds i, i ∈ indices → pass_inv ds → pass_inv (f ds i)) → pass_inv ds → pass_inv (foldl f ds indices).
Proof.
  revert ds. induction indices as [|i indices IH]; intros ds Hf Hi; simpl; [done|].
  apply IH; [set_solver|]. apply Hf; [set_solver|done].
Qed.

Lemma id_at_same ds i : Forall2 same_trade ds0 ds → id_at ds i = id_at ds0 i.
Proof.
  intros Hs. unfold id_at. destruct (ds0 !! i) as [d|] eqn:E.
  - destruct (Forall2_lookup_l _ _ _ _ _ Hs E) as (d' & -> & Hd). simpl. destruct Hd as [-> _]. done.
  - apply lookup_ge_None in E. rewrite (Forall2_length _ _ _ Hs) in E.
    by apply lookup_ge_None in E as ->.
Qed.

Lemma min_by_ext {A} (f g : A → A → bool) l : (∀ x y, f x y = g x y) → min_by f l = min_by g l.
Proof.
  intros H. unfold min_by. generalize (@None A). induction l as [|x l IH]; intros o; simpl; [done|].
  rewrite IH. f_equal. destruct o; simpl; [by rewrite H|done].
Qed.

Lemma representative_same ds indices : Forall2 same_trade ds0 ds →
  representative ds indices = representative ds0 indices.
Proof. intros Hs. apply min_by_ext. intros x y. by rewrite !(id_at_same ds). Qed.

Lemma set_entry_same e d d' : same_trade d d' → same_trade d (set_entry e d').
Proof. done. Qed.

Lemma classify_market_inv ds fe mk indices : (mk, indices) ∈ groups → pass_inv ds →
  pass_inv (classify_market policy wallet mutations history_complete has_market (ds, fe) (mk, indices)).1.
Proof.
  intros Hg Hi. destruct (groups_spec mk indices Hg) as (_ & Hne & Hix). unfold classify_market.
  destruct (has_market mk) eqn:Hm.
  { apply pass_inv_foldl; [|done]. intros ds' i _. apply pass_inv_alter; [done|].
    intros [d Hd]. done. }
  cbn [fst]. rewrite (representative_same ds indices) by apply Hi.
  set (rep := representative ds0 indices).
  set (hom := is_homogeneous _ _ _ _ _ _).
  assert (∀ i, i ∈ indices → rep = Some i → history_complete = true → may_admit i) as Hadm.
  { intros i Hin Hr Hh. apply Hix in Hin as (d & Hd & Hc & <-). exists d, indices. by split_and!. }
  apply pass_inv_foldl; [|done]. intros ds' i Hin. unfold write_entry.
  destruct (hom && bool_decide (market_entry history_complete hom (length indices) = EntryAdmitted)) eqn:Eh.
  - apply andb_true_iff in Eh as [Eh Ea]. apply bool_decide_eq_true in Ea.
    case_decide as Hr; (apply pass_inv_alter; [done|]); [|by intros [d Hd]].
    intros _. apply Hadm; [done|done|]. unfold market_entry in Ea. by destruct history_complete.
  - apply pass_inv_alter; [done|]. intros [d Hd]. simpl in Hd. rewrite Hd, bool_decide_eq_true_2 in Eh by done.
    rewrite andb_true_r in Eh. rewrite Eh in Hd. unfold market_entry in Hd.
    destruct history_complete; [|done]. simpl in Hd. case_bool_decide as Hlen; [done|].
    destruct indices as [|j [|]]; simpl in Hlen; [done| |lia].
    apply list_elem_of_singleton in Hin as ->. by apply Hadm; [set_solver|..].
Qed.

Lemma marked_inv : pass_inv (mark_decision <$> ds0).
Proof using Hfresh.
  split.
  - apply Forall2_fmap_r, Forall_Forall2_diag, Forall_true. intros d. apply mark_decision_same.
  - intros i d Hd He. apply list_lookup_fmap_Some in Hd as (d0 & -> & Hd).
    eapply Forall_lookup_1 in Hfresh; [|exact Hd].
    unfold mark_decision in He. repeat case_decide; simpl in He; congruence.
Qed.

Lemma classify_markets_inv gs ds fe : (∀ g, g ∈ gs → g ∈ groups) → pass_inv ds →
  pass_inv (foldl (classify_market policy wallet mutations history_complete has_market) (ds, fe) gs).1.
Proof.
  revert ds fe. induction gs as [|[mk indices] gs IH]; intros ds fe Hsub Hi; [done|].
  assert ((mk, indices) ∈ groups) as Hg by (apply Hsub; set_solver).
  pose proof (classify_market_inv ds fe mk indices Hg Hi) as Hi'. cbn [foldl].
  destruct (classify_market _ _ _ _ _ _ (mk, indices)) as [ds' fe']. apply IH; [set_solver|done].
Qed.

Lemma first_entry_pass_inv :
  pass_inv (first_entry_pass policy wallet mutations history_complete has_market ds0).1.
Proof using Hfresh. by apply classify_markets_inv, marked_inv. Qed.

(** The first-entry list: one line per market with candidates that has no market
    yet, in the order the groups are visited. *)
Definition group_first_entry (g : MarketId * list nat) : option (MarketId * SourceTradeId) :=
  if has_market g.1 then None
  else id ← min_by ltb_of (id_at ds0 <$> g.2); Some (g.1, {| source_trade_id := id |}).

Lemma first_entry_pass_entries :
  (first_entry_pass policy wallet mutations history_complete has_market ds0).2
  = omap group_first_entry groups.
Proof using Hfresh.
  unfold first_entry_pass. fold groups. pose proof marked_inv as H0.
  assert (∀ gs ds fe, (∀ g, g ∈ gs → g ∈ groups) → pass_inv ds →
    (foldl (classify_market policy wallet mutations history_complete has_market) (ds, fe) gs).2
    = fe ++ omap group_first_entry gs) as Hgen; [|by rewrite Hgen].
  clear H0. induction gs as [|[mk indices] gs IH]; intros ds fe Hsub Hi; [by rewrite app_nil_r|].
  assert ((mk, indices) ∈ groups) as Hg by (apply Hsub; set_solver).
  pose proof (classify_market_inv ds fe mk indices Hg Hi) as Hi'. cbn [foldl omap list_omap].
  unfold group_first_entry at 1. unfold classify_market at 2. unfold classify_market in Hi'. cbn [fst snd].
  destruct (has_market mk); [rewrite IH; [done|set_solver|done]|].
  assert (id_at ds <$> indices = id_at ds0 <$> indices) as Hid.
  { apply list_fmap_ext. intros ? i ?. apply id_at_same, Hi. }
  cbn [fst snd] in Hi'. rewrite IH; [|set_solver|done]. rewrite Hid.
  destruct (min_by ltb_of _); csimpl; [|done]. by rewrite <- app_assoc.
Qed.

(** The first entry of a market, as a property of a decision list. *)
Definition is_first_entry (ds : list TradeDecision) (mk : MarketId) (id : SourceTradeId) : Prop :=
  (∃ d, d ∈ ds ∧ is_candidate d = true ∧ d_market_id d = mk ∧ d_source_trade_id d = id)
  ∧ ∀ d, d ∈ ds → is_candidate d = true → d_market_id d = mk →
      leb_of (source_trade_id id) (source_trade_id (d_source_trade_id d)) = true.

Lemma first_entries_of_groups mk id :
  (mk, id) ∈ omap group_first_entry groups ↔ has_market mk = false ∧ is_first_entry ds0 mk id.
Proof.
  rewrite list_elem_of_omap. split.
  - intros ([mk' ix] & Hg & He). unfold group_first_entry in He. simpl in He.
    destruct (has_market mk') eqn:Hm; [done|]. rewrite min_by_fmap in He.
    destruct (min_by _ ix) as [i|] eqn:Hr; simplify_eq/=. split; [done|].
    destruct (groups_spec mk ix Hg) as (_ & _ & Hix).
    pose proof (min_by_le (id_at ds0) ix i Hr) as Hle.
    apply min_by_In, Hix in Hr as (d & Hd & Hc & <-). split.
    + exists d. split_and!; [by eapply list_elem_of_lookup_2|done|done|].
      unfold id_at. rewrite Hd. simpl. by destruct (d_source_trade_id d).
    + intros d' (j & Hd')%list_elem_of_lookup Hc' Hm'.
      specialize (Hle j (proj2 (Hix j) (ex_intro _ d' (conj Hd' (conj Hc' Hm'))))).
      unfold id_at in *. by rewrite Hd, Hd' in *.
  - intros (Hm & (d & (i & Hd)%list_elem_of_lookup & Hc & <- & <-) & Hmin).
    destruct (group_of i d Hd Hc) as [ix Hg]. exists (d_market_id d, ix). split; [done|].
    unfold group_first_entry. simpl. rewrite Hm, min_by_fmap.
    destruct (groups_spec _ ix Hg) as (_ & Hne & Hix).
    destruct (min_by_is_Some (λ i j, ltb_of (id_at ds0 i) (id_at ds0 j)) ix Hne) as [r Hr].
    rewrite Hr. simpl. pose proof (min_by_le (id_at ds0) ix r Hr i) as Hle.
    apply min_by_In, Hix in Hr as (dr & Hdr & Hcr & Hmr).
    assert (i ∈ ix) as Hi by (apply Hix; eauto). specialize (Hle Hi).
    unfold id_at in *. rewrite Hdr, Hd in *. simpl in *.
    rewrite (leb_of_antisym _ _ Hle); [by destruct (d_source_trade_id d)|].
    apply Hmin; [by eapply list_elem_of_lookup_2|done|done].
Qed.

End FirstEntries.

Lemma same_trade_sym `{DecimalOps} d d' : same_trade d d' → same_trade d' d.
Proof. unfold same_trade. naive_solver. Qed.

Lemma is_first_entry_same `{DecimalOps} ds ds' mk id :
  Forall2 same_trade ds ds' → is_first_entry ds mk id → is_first_entry ds' mk id.
Proof.
  intros Hs [(d & (i & Hd)%list_elem_of_lookup & Hc & Hm & Hid) Hmin]. split.
  - destruct (Forall2_lookup_l _ _ _ _ _ Hs Hd) as (d' & Hd' & (E1 & E2 & _ & E3 & _ & _ & E4)).
    exists d'. unfold is_candidate in *. rewrite E1, E2, E3, E4.
    split_and!; [by eapply list_elem_of_lookup_2|done..].
  - intros d' (j & Hd')%list_elem_of_lookup.
    destruct (Forall2_lookup_r _ _ _ _ _ Hs Hd') as (d0 & Hd0 & (E1 & E2 & _ & E3 & _ & _ & E4)).
    unfold is_candidate. rewrite E1, E2, E3, E4. apply Hmin. by eapply list_elem_of_lookup_2.
Qed.

(** ** The verdict *)
Section VerdictFacts.
Context `{DO : DecimalOps} `{TO : TimeOps}.
Variables (proof : SecondProofKind) (policy : SameSecondEntryPolicy) (ledger : PositionLedger)
  (wallet : WalletAddress) (mutations : list LedgerMutation) (q : ReconstructionQuality)
  (config : SignalConfig) (history_complete : bool) (has_market : MarketId → bool).

Lemma second_decisions_fresh :
  Forall (λ d, d_entry d = NotAnEntry) (second_decisions ledger wallet mutations q config).
Proof.
  apply Forall_forall. intros d Hd. unfold second_decisions in Hd.
  apply list_elem_of_omap in Hd as (m & _ & Hm). unfold trade_decision in Hm.
  by destruct (effective (mut_effect m)); simplify_eq.
Qed.

Lemma verdict_OrderIndependent applied ds fe :
  classify_with_second_proof proof policy ledger wallet mutations q config history_complete has_market
  = Ok (OrderIndependent applied ds fe) →
  order_independent_validity ledger wallet mutations proof = Ok None
  ∧ (∃ L', simulate_all_or_none ledger mutations = Ok (L', applied))
  ∧ first_entry_pass policy wallet mutations history_complete has_market
      (second_decisions ledger wallet mutations q config) = (ds, fe).
Proof.
  unfold classify_with_second_proof. intros H. inv_bind.
  destruct x as [t|]; [done|]. inv_bind.
  destruct (first_entry_pass _ _ _ _ _ _) as [ds' fe'] eqn:E. simplify_eq.
  split_and!; [done| |done]. destruct x as [L' a]. eauto.
Qed.

(** C38: an admitted decision is the wallet's first entry into its market: a buy
    that opens a position, with complete history, in a market not entered before,
    listed as that market's first entry; and a market has at most one. *)
Theorem admitted_is_first_entry applied ds fe :
  classify_with_second_proof proof policy ledger wallet mutations q config history_complete has_market
  = Ok (OrderIndependent applied ds fe) →
  (∀ d, d ∈ ds → d_entry d = EntryAdmitted →
     d_side d = Buy ∧ d_action d = Entry ∧ history_complete = true
     ∧ has_market (d_market_id d) = false ∧ (d_market_id d, d_source_trade_id d) ∈ fe)
  ∧ (∀ i j di dj, ds !! i = Some di → ds !! j = Some dj → d_entry di = EntryAdmitted →
       d_entry dj = EntryAdmitted → d_market_id di = d_market_id dj → i = j).
Proof.
  intros (_ & _ & Hp)%verdict_OrderIndependent.
  set (ds0 := second_decisions ledger wallet mutations q config) in *.
  pose proof (first_entry_pass_inv policy wallet mutations history_complete has_market ds0
    second_decisions_fresh) as [Hs Ha].
  pose proof (first_entry_pass_entries policy wallet mutations history_complete has_market ds0
    second_decisions_fresh) as Hfe.
  rewrite Hp in Hs, Ha, Hfe. simpl in Hs, Ha, Hfe. split.
  - intros d (i & Hd)%list_elem_of_lookup He.
    destruct (Ha i d Hd He) as (d0 & ix & Hd0 & Hc & Hg & Hr & Hm & Hh).
    destruct (Forall2_lookup_l _ _ _ _ _ Hs Hd0) as (d' & Hd' & Hst). rewrite Hd in Hd'. simplify_eq.
    destruct Hst as (-> & -> & _ & -> & _ & _ & ->).
    unfold is_candidate in Hc. apply andb_true_iff in Hc as [?%bool_decide_eq_true ?%bool_decide_eq_true].
    split_and!; try done. apply list_elem_of_omap. eexists. split; [exact Hg|].
    unfold group_first_entry. simpl. rewrite Hm, min_by_fmap.
    unfold representative in Hr. rewrite Hr. simpl. unfold id_at. rewrite Hd0. simpl.
    by destruct (d_source_trade_id d0).
  - intros i j di dj Hi Hj Ei Ej Hm.
    destruct (Ha i di Hi Ei) as (d1 & ix1 & Hd1 & _ & Hg1 & Hr1 & _).
    destruct (Ha j dj Hj Ej) as (d2 & ix2 & Hd2 & _ & Hg2 & Hr2 & _).
    assert (d_market_id d1 = d_market_id d2) as E.
    { destruct (Forall2_lookup_lr _ _ _ _ _ _ Hs Hd1 Hi) as (_ & <- & _).
      destruct (Forall2_lookup_lr _ _ _ _ _ _ Hs Hd2 Hj) as (_ & <- & _). done. }
    rewrite E in Hg1. rewrite (groups_unique ds0 _ _ _ Hg1 Hg2) in Hr1. congruence.
Qed.

(** the first-entry list is exact: it holds each market the wallet newly
    enters in this second once, with the smallest identifier among the opening
    buys of that market, and no market already entered. *)
Theorem first_entries_exact applied ds fe mk id :
  classify_with_second_proof proof policy ledger wallet mutations q config history_complete has_market
  = Ok (OrderIndependent applied ds fe) →
  (mk, id) ∈ fe ↔ has_market mk = false ∧ is_first_entry ds mk id.
Proof.
  intros (_ & _ & Hp)%verdict_OrderIndependent.
  set (ds0 := second_decisions ledger wallet mutations q config) in *.
  pose proof (first_entry_pass_inv policy wallet mutations history_complete has_market ds0
    second_decisions_fresh) as [Hs _].
  pose proof (first_entry_pass_entries policy wallet mutations history_complete has_market ds0
    second_decisions_fresh) as Hfe.
  rewrite Hp in Hs, Hfe. simpl in Hs, Hfe. rewrite Hfe, first_entries_of_groups. f_equiv.
  split; apply is_first_entry_same; [done|].
  apply Forall2_flip. eapply Forall2_impl; [exact Hs|]. apply same_trade_sym.
Qed.

End VerdictFacts.

(** ** Instances: three pieces of one opening buy, classified together *)
Definition sample_verdict : result LedgerError SecondVerdict :=
  classify_with_second_proof Repaired HomogeneousPieces ledger_new sample_wallet sample_small_second
    {| quality := 90 |} SignalConfig_default true (λ _, false).
Definition verdict_parts (v : result LedgerError SecondVerdict) :
    list AppliedEffect * list TradeDecision * list (MarketId * SourceTradeId) :=
  match v with Ok (OrderIndependent a ds fe) => (a, ds, fe) | _ => ([], [], []) end.
Definition is_order_independent (v : result LedgerError SecondVerdict) : bool :=
  match v with Ok (OrderIndependent _ _ _) => true | _ => false end.

Lemma verdict_parts_eq v : is_order_independent v = true →
  v = Ok (OrderIndependent (verdict_parts v).1.1 (verdict_parts v).1.2 (verdict_parts v).2).
Proof. by destruct v as [[]|]. Qed.

Lemma admitted_is_first_entry_witness :
  d_entry <$> (verdict_parts sample_verdict).1.2 = [EntryAdmitted; NotFirstEntry; NotFirstEntry]
  ∧ ∀ d, d ∈ (verdict_parts sample_verdict).1.2 → d_entry d = EntryAdmitted →
    (d_market_id d, d_source_trade_id d) ∈ (verdict_parts sample_verdict).2.
Proof.
  split; [by vm_compute|]. intros d Hd He.
  apply (proj1 (admitted_is_first_entry Repaired HomogeneousPieces ledger_new sample_wallet
    sample_small_second {| quality := 90 |} SignalConfig_default true (λ _, false)
    (verdict_parts sample_verdict).1.1 (verdict_parts sample_verdict).1.2 (verdict_parts sample_verdict).2
    (verdict_parts_eq sample_verdict ltac:(by vm_compute))) d Hd He).
Defined.

Lemma sample_verdict_first : (verdict_parts sample_verdict).2 = [(sample_market, sample_id "1")].
Proof. by vm_compute. Qed.

Lemma first_entries_exact_witness :
  is_first_entry (verdict_parts sample_verdict).1.2 sample_market (sample_id "1").
Proof.
  apply (first_entries_exact Repaired HomogeneousPieces ledger_new sample_wallet
    sample_small_second {| quality := 90 |} SignalConfig_default true (λ _, false)
    (verdict_parts sample_verdict).1.1 (verdict_parts sample_verdict).1.2 (verdict_parts sample_verdict).2
    sample_market (sample_id "1") (verdict_parts_eq sample_verdict ltac:(by vm_compute))).
  rewrite sample_verdict_first. apply list_elem_of_here.
Defined.
