(* ===== verification/ScopedSecond.v ===== *)
(** * Scoped classification of a wallet-second
      (crates/position-ledger, [classify_scoped_second_with_anomalies])

    A second may hold records that cannot be applied.  Each is resolved to a
    scope, a market or a neg-risk event, from the caller's lookups; scopes with a
    problem are dropped from then on, unresolvable problems are counted, and what
    is left is classified as a complete second. *)

From S2P Require Import Prelude CoreTypes Bytes Activity SignalEngine LedgerEffect PositionLedger SecondProof SecondClassify.
#[local] Open Scope Z_scope.

(** ** Scopes and causes *)

Inductive ScopeKind : Type := EventScope | MarketScope.
#[export] Instance ScopeKind_eq_dec : EqDecision ScopeKind.
Proof. solve_decision. Defined.
(** The derived order is the declaration order. *)
Definition scope_kind_index (k : ScopeKind) : Z := match k with EventScope => 0 | MarketScope => 1 end.

Record Scope := { scope_kind : ScopeKind; scope_id : string }.
#[export] Instance Scope_eq_dec : EqDecision Scope.
Proof. solve_decision. Defined.
Definition scope_key (s : Scope) : Z * string := (scope_kind_index (scope_kind s), scope_id s).
Lemma scope_key_inj a b : scope_key a = scope_key b → a = b.
Proof. destruct a as [[] ?], b as [[] ?]; unfold scope_key; simpl; congruence. Qed.
#[export] Instance Scope_ord : Ord Scope := inj_ord scope_key scope_key_inj.
#[export] Instance Scope_countable : Countable Scope.
Proof.
  refine (inj_countable' scope_key
    (λ p, {| scope_kind := if p.1 =? 0 then EventScope else MarketScope; scope_id := p.2 |}) _).
  abstract (by intros [[] ?]).
Defined.

Inductive DropCause : Type :=
| DropConversion | DropOrderDependent | DropOverflow | DropUnderflow | DropUnknownCondition
| DropUnknownType | DropUnmapped | DropUnrepresentable.
#[export] Instance DropCause_eq_dec : EqDecision DropCause.
Proof. solve_decision. Defined.
Definition cause_index (c : DropCause) : Z :=
  match c with
  | DropConversion => 0 | DropOrderDependent => 1 | DropOverflow => 2 | DropUnderflow => 3
  | DropUnknownCondition => 4 | DropUnknownType => 5 | DropUnmapped => 6 | DropUnrepresentable => 7
  end.
Lemma cause_index_inj a b : cause_index a = cause_index b → a = b.
Proof. by destruct a, b. Qed.
#[export] Instance DropCause_ord : Ord DropCause := inj_ord cause_index cause_index_inj.

Record ScopeProblem := {
  problem_scope : Scope;
  problem_cause : DropCause;
  problem_trigger : SourceTradeId
}.

Inductive MarketLookup : Type := UnknownMarket | Ungrouped | Grouped (group : string).

(** [trait ScopeLookups]: the caller's market and token evidence. *)
Class ScopeLookups := {
  lookup_market : string → MarketLookup;
  token_market : string → option string;
  is_group : string → bool
}.

Definition canonical_scope_id (id : string) : bool :=
  match strip_prefix "0x" id with
  | Some hex => bool_decide (hex ≠ EmptyString) && forallb is_lower_hex (string_bytes hex)
  | None => false
  end.

Definition ACTIVITY_ROW_ANOMALY_NAMESPACE : string := "activity-row-anomaly:v1:".

Section Scoped.
Context `{DO : DecimalOps} `{TO : TimeOps} `{B3 : Blake3} {LK : ScopeLookups}.

Definition activity_row_anomaly_trigger (anomaly : ActivityRowAnomaly) : SourceTradeId :=
  {| source_trade_id := ACTIVITY_ROW_ANOMALY_NAMESPACE +:+ an_raw_row_hash anomaly |}.

(** ** Resolving a scope *)

Definition normalized_condition (condition : option PolymarketConditionId) : option string :=
  c ← condition;
  let lowercase := to_ascii_lowercase (condition_id_str c) in
  let id := match strip_prefix "\x" lowercase with
            | Some hex => "0x" +:+ hex
            | None => lowercase
            end in
  if canonical_scope_id id then Some id else None.

Definition token_scope (asset : option PolymarketTokenId) (event_cause : bool) : option Scope :=
  token ← asset;
  market ← token_market (token_id_str token);
  Some (match lookup_market market with
        | Grouped group =>
            if event_cause then {| scope_kind := EventScope; scope_id := group |}
            else {| scope_kind := MarketScope; scope_id := market |}
        | _ => {| scope_kind := MarketScope; scope_id := market |}
        end).

Definition resolve_scope (activity_type : ActivityType) (condition : option PolymarketConditionId)
    (asset : option PolymarketTokenId) (cause : DropCause) : option Scope :=
  let event_cause :=
    match cause with
    | DropConversion | DropUnknownType => true
    | DropUnrepresentable => type_requires_wallet_fence activity_type
    | _ => false
    end in
  match normalized_condition condition with
  | Some id =>
      if event_cause && is_group id then Some {| scope_kind := EventScope; scope_id := id |}
      else match lookup_market id with
           | Grouped group =>
               if event_cause then Some {| scope_kind := EventScope; scope_id := group |}
               else Some {| scope_kind := MarketScope; scope_id := id |}
           | Ungrouped => Some {| scope_kind := MarketScope; scope_id := id |}
           | UnknownMarket => token_scope asset event_cause
           end
  | None => token_scope asset event_cause
  end.

Definition resolve_problem_scope (aggregate : ActivityAggregate) (cause : DropCause) : option Scope :=
  let c := group_components (group_id aggregate) in
  resolve_scope (c_activity_type c) (c_condition_id c) (c_asset c) cause.

Definition resolve_anomaly_scope (anomaly : ActivityRowAnomaly) : option Scope :=
  resolve_scope (an_activity_type anomaly) (an_condition_id anomaly) (an_asset anomaly)
    DropUnrepresentable.

Definition effect_market (effect : LedgerEffect) : option MarketId :=
  match effective effect with
  | Trade mk _ _ _ _ | Split mk _ | Merge mk _ | Redeem mk _ _ => Some mk
  | _ => None
  end.

Definition record_market (mutation : LedgerMutation) (aggregate : ActivityAggregate) :
    option string :=
  match effect_market (mut_effect mutation) with
  | Some mk => Some (market_to_string mk)
  | None =>
      match effective (mut_effect mutation) with
      | RequiresAnchor =>
          condition_id_str <$> c_condition_id (group_components (group_id aggregate))
      | _ => None
      end
  end.

Definition market_is_dropped (market : string) (dropped : gset Scope) : bool :=
  if bool_decide ({| scope_kind := MarketScope; scope_id := market |} ∈ dropped) then true
  else match lookup_market market with
       | Grouped group => bool_decide ({| scope_kind := EventScope; scope_id := group |} ∈ dropped)
       | _ => false
       end.

Definition scope_is_dropped (scope : Scope) (dropped : gset Scope) : bool :=
  match scope_kind scope with
  | EventScope => bool_decide (scope ∈ dropped)
  | MarketScope => market_is_dropped (scope_id scope) dropped
  end.

Definition Problems : Type := list (Scope * ScopeProblem).

Definition record_scope_problem (problems : Problems) (scope : Scope) (cause : DropCause)
    (trigger : SourceTradeId) : Problems :=
  let problem :=
    default {| problem_scope := scope; problem_cause := cause; problem_trigger := trigger |}
      (bt_get scope problems) in
  bt_insert scope
    (if ltb_of (source_trade_id trigger, cause)
          (source_trade_id (problem_trigger problem), problem_cause problem)
     then {| problem_scope := problem_scope problem; problem_cause := cause;
             problem_trigger := trigger |}
     else problem) problems.

(** ** Scanning the records *)

Record SecondRecord := {
  rec_aggregate : ActivityAggregate;
  rec_mutation : result LedgerError LedgerMutation
}.

Record ScopedSecond := {
  problem_second : bool;
  problems : list ScopeProblem;
  ignored : list (SourceTradeId * ActivityType);
  apply_list : list LedgerMutation;
  decisions : list TradeDecision;
  consumed : list MarketId
}.

(** The accumulators of the source's loops. *)
Record Scan := {
  sc_problems : Problems;
  sc_ignored : list (SourceTradeId * ActivityType);
  sc_mutations : list LedgerMutation;
  sc_consumed : list (string * MarketId);
  sc_effective : gmap string ActivityAggregate
}.
Definition scan_empty : Scan :=
  {| sc_problems := []; sc_ignored := []; sc_mutations := []; sc_consumed := []; sc_effective := ∅ |}.
Definition push_problem (scope : Scope) (cause : DropCause) (trigger : SourceTradeId) (s : Scan) : Scan :=
  {| sc_problems := record_scope_problem (sc_problems s) scope cause trigger;
     sc_ignored := sc_ignored s; sc_mutations := sc_mutations s; sc_consumed := sc_consumed s;
     sc_effective := sc_effective s |}.
Definition push_ignored (x : SourceTradeId * ActivityType) (s : Scan) : Scan :=
  {| sc_problems := sc_problems s; sc_ignored := sc_ignored s ++ [x];
     sc_mutations := sc_mutations s; sc_consumed := sc_consumed s; sc_effective := sc_effective s |}.
Definition push_mutation (m : LedgerMutation) (s : Scan) : Scan :=
  {| sc_problems := sc_problems s; sc_ignored := sc_ignored s;
     sc_mutations := sc_mutations s ++ [m]; sc_consumed := sc_consumed s;
     sc_effective := sc_effective s |}.
Definition set_consumed (c : list (string * MarketId)) (s : Scan) : Scan :=
  {| sc_problems := sc_problems s; sc_ignored := sc_ignored s; sc_mutations := sc_mutations s;
     sc_consumed := c; sc_effective := sc_effective s |}.
Definition set_effective (id : string) (a : ActivityAggregate) (s : Scan) : Scan :=
  {| sc_problems := sc_problems s; sc_ignored := sc_ignored s; sc_mutations := sc_mutations s;
     sc_consumed := sc_consumed s; sc_effective := <[id := a]> (sc_effective s) |}.

Definition scan_anomaly (dropped : gset Scope) (s : Scan) (anomaly : ActivityRowAnomaly) : Scan :=
  let trigger := activity_row_anomaly_trigger anomaly in
  match resolve_anomaly_scope anomaly with
  | Some scope =>
      if scope_is_dropped scope dropped then s
      else push_problem scope DropUnrepresentable trigger s
  | None => push_ignored (trigger, an_activity_type anomaly) s
  end.

Definition is_buy_trade (effect : LedgerEffect) : bool :=
  match effective effect with Trade _ _ Buy _ _ => true | _ => false end.

(** What the [match] on one record decides: keep it raw, ignore it, or go on
    with a problem cause or none. *)
Inductive RecordFate : Type :=
| FateRaw (m : LedgerMutation)
| FateIgnored
| FateCause (cause : option DropCause).

Definition record_fate (record : SecondRecord) : result LedgerError RecordFate :=
  let aggregate := rec_aggregate record in
  let c := group_components (group_id aggregate) in
  let tokenless_trade :=
    bool_decide (c_activity_type c = ActTrade) && bool_decide (share_sum aggregate ≠ amount_ZERO)
    && bool_decide (c_asset c = None) in
  match rec_mutation record with
  | Ok mutation =>
      match effective (mut_effect mutation) with
      | RawOnly => Ok (FateRaw mutation)
      | effect =>
          if tokenless_trade then Ok FateIgnored
          else match effect with
               | Conversion => Ok (FateCause (Some DropConversion))
               | UnknownEffect => Ok (FateCause (Some DropUnknownType))
               | RequiresAnchor =>
                   Ok (FateCause (if decide (c_condition_id c = None) then Some DropUnknownCondition
                                  else None))
               | effect =>
                   let canonical :=
                     match c_condition_id c with
                     | Some condition => canonical_scope_id (condition_id_str condition)
                     | None => false
                     end in
                   Ok (FateCause (if bool_decide (is_Some (effect_market effect)) && negb canonical
                                  then Some DropUnmapped else None))
               end
      end
  | Err error =>
      if tokenless_trade then Ok FateIgnored
      else match error with
           | InvalidMapping _ => Ok (FateCause (Some DropUnmapped))
           | error => Err error
           end
  end.

Definition scan_problem (dropped : gset Scope) (s : Scan) (record : SecondRecord)
    (cause : DropCause) : Scan :=
  let aggregate := rec_aggregate record in
  let key := group_key (group_id aggregate) in
  match resolve_problem_scope aggregate cause with
  | None => push_ignored (key, c_activity_type (group_components (group_id aggregate))) s
  | Some scope =>
      let s :=
        match rec_mutation record with
        | Ok mutation =>
            if is_buy_trade (mut_effect mutation)
            then set_consumed (bt_insert (source_trade_id key)
                   {| market_id := {| venue_market_id := scope_id scope |} |} (sc_consumed s)) s
            else s
        | Err _ => s
        end in
      if scope_is_dropped scope dropped then s else push_problem scope cause key s
  end.

Definition scan_valid (dropped : gset Scope) (s : Scan) (aggregate : ActivityAggregate)
    (mutation : LedgerMutation) : Scan :=
  let id := source_trade_id (mut_source_trade_id mutation) in
  let s :=
    match effective (mut_effect mutation) with
    | Trade mk _ Buy _ _ => set_consumed (bt_insert id mk (sc_consumed s)) s
    | _ => s
    end in
  if match record_market mutation aggregate with
     | Some market => market_is_dropped market dropped
     | None => false
     end
  then s
  else push_mutation mutation (set_effective id aggregate s).

Definition scan_record (dropped : gset Scope) (s : Scan) (record : SecondRecord) :
    result LedgerError Scan :=
  fate ← record_fate record;
  Ok (match fate with
      | FateRaw m => push_mutation m s
      | FateIgnored => push_ignored (group_key (group_id (rec_aggregate record)), ActTrade) s
      | FateCause (Some cause) => scan_problem dropped s record cause
      | FateCause None =>
          match rec_mutation record with
          | Ok mutation => scan_valid dropped s (rec_aggregate record) mutation
          | Err _ => s
          end
      end).

(** ** Failing components *)

(** The cause of a failing component, [None] when it is accepted. *)
Definition component_cause (ledger : PositionLedger) (wallet : WalletAddress)
    (component : list LedgerMutation) : result LedgerError (option DropCause) :=
  let single := bool_decide (length component = 1%nat) in
  match component_order_independent ledger wallet component Repaired with
  | Ok true => Ok None
  | Ok false => Ok (Some DropOrderDependent)
  | Err (Underflow id) => if single then Ok (Some DropUnderflow) else Err (Underflow id)
  | Err (Overflow id) => if single then Ok (Some DropOverflow) else Err (Overflow id)
  | Err error => Err error
  end.

Definition ignore_member (s : Scan) (mutation : LedgerMutation) : Scan :=
  let id := source_trade_id (mut_source_trade_id mutation) in
  let s :=
    match sc_effective s !! id with
    | Some aggregate =>
        push_ignored (mut_source_trade_id mutation,
                      c_activity_type (group_components (group_id aggregate))) s
    | None => s
    end in
  set_consumed (bt_remove id (sc_consumed s)) s.

Definition scan_component (ledger : PositionLedger) (wallet : WalletAddress) (dropped : gset Scope)
    (acc : Scan * gset string) (component : list LedgerMutation) :
    result LedgerError (Scan * gset string) :=
  let '(s, failed) := acc in
  match head component with
  | None => Ok acc
  | Some first =>
      cause ← component_cause ledger wallet component;
      match cause with
      | None => Ok acc
      | Some cause =>
          aggregate ← ok_or (sc_effective s !! source_trade_id (mut_source_trade_id first))
                        (InvalidMapping (mut_source_trade_id first));
          let s :=
            match resolve_problem_scope aggregate cause with
            | Some scope =>
                if bool_decide (scope ∈ dropped) then s
                else push_problem scope cause (mut_source_trade_id first) s
            | None => foldl ignore_member s component
            end in
          Ok (s, list_to_set ((λ m, source_trade_id (mut_source_trade_id m)) <$> component) ∪ failed)
      end
  end.

(** ** The whole second *)

Definition admit_none (d : TradeDecision) : TradeDecision :=
  if decide (d_entry d = EntryAdmitted) then set_entry NotAnEntry d else d.

Definition keep_mutation (s : Scan) (failed : gset string) (new_drops : gset Scope)
    (mutation : LedgerMutation) : bool :=
  let id := source_trade_id (mut_source_trade_id mutation) in
  negb (bool_decide (id ∈ failed))
  && match (aggregate ← sc_effective s !! id; record_market mutation aggregate) with
     | Some market => negb (market_is_dropped market new_drops)
     | None => true
     end.

Definition anomalies_match (wallet : WalletAddress) (source_second : Z)
    (anomalies : list ActivityRowAnomaly) : result LedgerError unit :=
  try_fold (λ _ anomaly,
    if bool_decide (an_wallet anomaly ≠ wallet)
       || negb (unix_timestamp (source_timestamp (an_source_time anomaly)) =? source_second)
    then Err (InvalidMapping (activity_row_anomaly_trigger anomaly))
    else Ok tt) tt anomalies.

Definition classify_scoped_second_with_anomalies (policy : SameSecondEntryPolicy)
    (ledger : PositionLedger) (wallet : WalletAddress) (source_second : Z)
    (records : list SecondRecord) (anomalies : list ActivityRowAnomaly) (dropped : gset Scope)
    (certified_problem_second : bool) (q : ReconstructionQuality) (config : SignalConfig)
    (history_complete : bool) (has_market : MarketId → bool) : result LedgerError ScopedSecond :=
  _ ← anomalies_match wallet source_second anomalies;
  let ordered :=
    sort_by (λ x y, leb_of (source_trade_id (group_key (group_id (rec_aggregate x))))
                           (source_trade_id (group_key (group_id (rec_aggregate y))))) records in
  let s := foldl (scan_anomaly dropped) scan_empty anomalies in
  s ← try_fold (scan_record dropped) s ordered;
  '(s, failed) ← try_fold (scan_component ledger wallet dropped) (s, ∅)
                   (mutation_components (sc_mutations s));
  let new_drops : gset Scope := list_to_set (bt_keys (sc_problems s)) in
  let apply := List.filter (keep_mutation s failed new_drops) (sc_mutations s) in
  let problem_second :=
    certified_problem_second || match sc_problems s with [] => false | _ => true end in
  verdict ← classify_complete_second policy ledger wallet apply q config history_complete has_market;
  ds ← match verdict with
       | OrderIndependent _ ds _ => Ok ds
       | OrderDependent trigger => Err (InvalidMapping trigger)
       end;
  Ok {| problem_second := problem_second;
        problems := bt_values (sc_problems s);
        ignored := sort_by (λ x y, leb_of (source_trade_id x.1) (source_trade_id y.1)) (sc_ignored s);
        apply_list := apply;
        decisions := if problem_second then admit_none <$> ds else ds;
        consumed := bt_values (foldl (λ m mk, bt_insert (market_to_string mk) mk m) []
                                 (bt_values (sc_consumed s))) |}.

Definition classify_scoped_second (policy : SameSecondEntryPolicy) (ledger : PositionLedger)
    (wallet : WalletAddress) (records : list SecondRecord) (dropped : gset Scope)
    (certified_problem_second : bool) (q : ReconstructionQuality) (config : SignalConfig)
    (history_complete : bool) (has_market : MarketId → bool) : result LedgerError ScopedSecond :=
  classify_scoped_second_with_anomalies policy ledger wallet
    match head records with
    | Some record => unix_timestamp (source_timestamp (source_time (rec_aggregate record)))
    | None => 0
    end
    records [] dropped certified_problem_second q config history_complete has_market.

Definition classify_scoped_historical_second (ledger : PositionLedger) (wallet : WalletAddress)
    (records : list SecondRecord) (dropped : gset Scope) (certified_problem_second : bool)
    (q : ReconstructionQuality) (has_market : MarketId → bool) : result LedgerError ScopedSecond :=
  classify_scoped_second HomogeneousPieces ledger wallet records dropped certified_problem_second q
    SignalConfig_default true has_market.

Definition classify_scoped_historical_second_with_anomalies (ledger : PositionLedger)
    (wallet : WalletAddress) (source_second : Z) (records : list SecondRecord)
    (anomalies : list ActivityRowAnomaly) (dropped : gset Scope) (certified_problem_second : bool)
    (q : ReconstructionQuality) (has_market : MarketId → bool) : result LedgerError ScopedSecond :=
  classify_scoped_second_with_anomalies HomogeneousPieces ledger wallet source_second records
    anomalies dropped certified_problem_second q SignalConfig_default true has_market.

End Scoped.

(** ** Problems *)
Section ProblemFacts.

Definition problem_rank (p : ScopeProblem) : string * DropCause :=
  (source_trade_id (problem_trigger p), problem_cause p).

Lemma record_scope_problem_get (ps : Problems) sc c t sc' : bt_wf ps →
  bt_get sc' (record_scope_problem ps sc c t)
  = if decide (sc' = sc)
    then Some (let p := default {| problem_scope := sc; problem_cause := c; problem_trigger := t |}
                          (bt_get sc ps) in
               if ltb_of (source_trade_id t, c) (problem_rank p)
               then {| problem_scope := problem_scope p; problem_cause := c; problem_trigger := t |}
               else p)
    else bt_get sc' ps.
Proof. intros Hwf. unfold record_scope_problem. by rewrite bt_get_insert. Qed.

(** Every problem is filed under its own scope, outside what is dropped already. *)
Definition problems_wf (dropped : gset Scope) (ps : Problems) : Prop :=
  bt_wf ps ∧ ∀ sc p, bt_get sc ps = Some p → problem_scope p = sc ∧ sc ∉ dropped.

Lemma problems_wf_record dropped ps sc c t : problems_wf dropped ps → sc ∉ dropped →
  problems_wf dropped (record_scope_problem ps sc c t).
Proof.
  intros [Hwf Hp] Hsc. split; [by apply bt_insert_wf|]. intros sc' p.
  rewrite record_scope_problem_get by done. case_decide as E; [subst sc'|apply Hp].
  intros [= <-]. destruct (bt_get sc ps) as [p0|] eqn:E0; simpl.
  - destruct (Hp sc p0 E0). by destruct (ltb_of _ _).
  - by destruct (ltb_of _ _).
Qed.

Definition record_event (ps : Problems) (e : Scope * DropCause * SourceTradeId) : Problems :=
  record_scope_problem ps e.1.1 e.1.2 e.2.

(** whatever the order in which problems are met, each scope keeps one of
    them: the one with the smallest (trigger, cause). *)
Theorem recorded_problem_minimal (events : list (Scope * DropCause * SourceTradeId)) sc :
  match bt_get sc (foldl record_event [] events) with
  | Some p => problem_scope p = sc ∧ (sc, problem_cause p, problem_trigger p) ∈ events
              ∧ ∀ c t, (sc, c, t) ∈ events → leb_of (problem_rank p) (source_trade_id t, c) = true
  | None => ∀ c t, (sc, c, t) ∉ events
  end.
Proof.
  assert (∀ evs, bt_wf (foldl record_event [] evs)) as Hwf.
  { intros evs. induction evs as [|e evs IH] using rev_ind; [constructor|].
    rewrite foldl_app. by apply bt_insert_wf. }
  induction events as [|[[sc1 c1] t1] evs IH] using rev_ind; [simpl; set_solver|].
  rewrite foldl_app. cbn [foldl]. unfold record_event at 1. cbn [fst snd].
  rewrite record_scope_problem_get by done. case_decide as E.
  2:{ destruct (bt_get sc _); [destruct IH as (? & ? & IH); split_and!; [done|set_solver|]|];
      intros c t; rewrite ?elem_of_app, ?list_elem_of_singleton; naive_solver. }
  subst sc1. destruct (bt_get sc _) as [p|]; simpl.
  - destruct IH as (Hs & Hin & Hmin). destruct (ltb_of _ (problem_rank p)) eqn:El.
    + apply ltb_of_leb in El as [Hle _]. split_and!; [done|set_solver|].
      intros c t [Hct|[= -> ->]%list_elem_of_singleton]%elem_of_app; [|apply leb_of_refl].
      eapply leb_of_trans; [exact Hle|by apply Hmin].
    + split_and!; [done|set_solver|].
      intros c t [Hct|[= -> ->]%list_elem_of_singleton]%elem_of_app; [by apply Hmin|].
      by apply ltb_of_false.
  - assert (∀ b : bool, (if b then {| problem_scope := sc; problem_cause := c1; problem_trigger := t1 |}
      else {| problem_scope := sc; problem_cause := c1; problem_trigger := t1 |})
      = {| problem_scope := sc; problem_cause := c1; problem_trigger := t1 |}) as -> by (by intros []).
    split_and!; [done|set_solver|].
    intros c t [Hct|[= -> ->]%list_elem_of_singleton]%elem_of_app; [by apply IH in Hct|apply leb_of_refl].
Qed.

End ProblemFacts.

(** ** What the scan keeps *)
Section ScanFacts.
Context `{DO : DecimalOps} `{TO : TimeOps} `{B3 : Blake3} {LK : ScopeLookups}.
Variable dropped : gset Scope.

Lemma scope_not_dropped sc : scope_is_dropped sc dropped = false → sc ∉ dropped.
Proof.
  destruct sc as [[] id]; unfold scope_is_dropped; simpl.
  - apply bool_decide_eq_false.
  - unfold market_is_dropped. case_bool_decide; done.
Qed.

Definition scan_inv (s : Scan) : Prop :=
  problems_wf dropped (sc_problems s)
  ∧ ∀ m mk, m ∈ sc_mutations s → effect_market (mut_effect m) = Some mk →
      is_Some (sc_effective s !! source_trade_id (mut_source_trade_id m))
      ∧ market_is_dropped (market_to_string mk) dropped = false.

Lemma scan_inv_empty : scan_inv scan_empty.
Proof. split; [split; [constructor|done]|set_solver]. Qed.

Lemma scan_inv_problem s sc c t : scan_inv s → sc ∉ dropped → scan_inv (push_problem sc c t s).
Proof. intros [? ?] ?. split; [by apply problems_wf_record|done]. Qed.

Lemma scan_anomaly_inv s a : scan_inv s → scan_inv (scan_anomaly dropped s a).
Proof.
  intros Hs. unfold scan_anomaly. destruct (resolve_anomaly_scope a) as [sc|]; [|done].
  destruct (scope_is_dropped sc dropped) eqn:E; [done|].
  by apply scan_inv_problem, scope_not_dropped.
Qed.

Lemma scan_problem_inv s r c : scan_inv s → scan_inv (scan_problem dropped s r c).
Proof.
  intros Hs. unfold scan_problem. destruct (resolve_problem_scope _ c) as [sc|]; [|done].
  set (s' := match rec_mutation r with Ok _ => _ | Err _ => _ end).
  assert (scan_inv s') as Hs'.
  { subst s'. destruct (rec_mutation r) as [m|]; [|done]. by destruct (is_buy_trade _). }
  clearbody s'. cbv zeta. destruct (scope_is_dropped sc dropped) eqn:E; [done|].
  by apply scan_inv_problem, scope_not_dropped.
Qed.

Lemma scan_valid_inv s a m : scan_inv s → scan_inv (scan_valid dropped s a m).
Proof.
  intros Hs. unfold scan_valid.
  set (s' := match effective (mut_effect m) with Trade _ _ _ _ _ => _ | _ => _ end).
  assert (scan_inv s') as Hs'.
  { subst s'. destruct (effective (mut_effect m)) as [mk o side a' p| | | | | | | |]; try done.
    by destruct side. }
  clearbody s'. cbv zeta.
  destruct (match record_market m a with Some _ => _ | None => _ end) eqn:Em; [done|].
  destruct Hs' as [Hp Hm]. split; [done|]. intros m' mk. simpl.
  rewrite elem_of_app, list_elem_of_singleton. intros [Hin| ->] Hmk.
  - destruct (Hm m' mk Hin Hmk) as [? ?]. split; [|done]. apply lookup_insert_is_Some'. by right.
  - split; [by rewrite lookup_insert_eq|]. unfold record_market in Em. by rewrite Hmk in Em.
Qed.

Lemma record_fate_raw r m : record_fate r = Ok (FateRaw m) → effect_market (mut_effect m) = None.
Proof.
  unfold record_fate. intros H. destruct (rec_mutation r) as [m'|e]; [|by repeat case_match].
  assert (effective (mut_effect m') = RawOnly ∧ m = m') as [E ->].
  { destruct (effective (mut_effect m')); simplify_eq/=; try done;
      repeat (case_match; simplify_eq/=; try done). }
  unfold effect_market. by rewrite E.
Qed.

Lemma scan_record_inv s r s' : scan_inv s → scan_record dropped s r = Ok s' → scan_inv s'.
Proof.
  intros Hs H. unfold scan_record in H. apply result_bind_Ok in H as (fate & Hfate & [= <-]).
  destruct fate as [m| |[c|]].
  - apply record_fate_raw in Hfate. destruct Hs as [Hp Hm]. split; [done|]. intros m' mk. simpl.
    rewrite elem_of_app, list_elem_of_singleton. intros [Hin| ->] Hmk; [by apply Hm|congruence].
  - done.
  - by apply scan_problem_inv.
  - destruct (rec_mutation r); [by apply scan_valid_inv|done].
Qed.

Lemma ignore_member_inv s m : scan_inv s → scan_inv (ignore_member s m).
Proof. intros Hs. unfold ignore_member. by destruct (sc_effective s !! _). Qed.

Lemma ignore_members_inv ms s : scan_inv s → scan_inv (foldl ignore_member s ms).
Proof. revert s. induction ms; intros s Hs; simpl; [done|]. auto using ignore_member_inv. Qed.

Lemma scan_component_inv ledger wallet acc c acc' : scan_inv acc.1 →
  scan_component ledger wallet dropped acc c = Ok acc' → scan_inv acc'.1.
Proof.
  destruct acc as [s failed]. simpl. intros Hs H.
  destruct (head c); [|by simplify_eq]. inv_bind. destruct x as [cause|]; [|by simplify_eq].
  inv_bind. destruct (resolve_problem_scope _ cause) as [sc|]; [|by apply ignore_members_inv].
  case_bool_decide; [done|]. by apply scan_inv_problem.
Qed.

End ScanFacts.

(** ** Guarantees of a scoped second *)
Section ScopedGuarantees.
Context `{DO : DecimalOps} `{TO : TimeOps} `{B3 : Blake3} {LK : ScopeLookups}.
Variables (policy : SameSecondEntryPolicy) (ledger : PositionLedger) (wallet : WalletAddress)
  (source_second : Z) (records : list SecondRecord) (anomalies : list ActivityRowAnomaly)
  (dropped : gset Scope) (certified : bool) (q : ReconstructionQuality) (config : SignalConfig)
  (history_complete : bool) (has_market : MarketId → bool) (r : ScopedSecond).

Lemma scoped_run :
  classify_scoped_second_with_anomalies policy ledger wallet source_second records anomalies dropped
    certified q config history_complete has_market = Ok r →
  ∃ s failed applied ds fe,
  scan_inv dropped s
  ∧ apply_list r = List.filter (keep_mutation s failed (list_to_set (bt_keys (sc_problems s)))) (sc_mutations s)
  ∧ problems r = bt_values (sc_problems s)
  ∧ problem_second r = certified || match sc_problems s with [] => false | _ => true end
  ∧ decisions r = (if problem_second r then admit_none <$> ds else ds)
  ∧ classify_complete_second policy ledger wallet (apply_list r) q config history_complete has_market
    = Ok (OrderIndependent applied ds fe).
Proof.
  intros H. unfold classify_scoped_second_with_anomalies in H.
  apply result_bind_Ok in H as (_ & _ & H). cbv zeta in H.
  apply result_bind_Ok in H as (s1 & H1 & H).
  apply result_bind_Ok in H as ([s failed] & H2 & H).
  apply result_bind_Ok in H as (v & Hv & H). destruct v as [applied ds fe|t]; [|done].
  simpl in H. injection H as <-. exists s, failed, applied, ds, fe. split_and!; try done.
  assert (scan_inv dropped (foldl (scan_anomaly dropped) scan_empty anomalies)) as H0.
  { clear. pose proof (scan_inv_empty dropped) as Hs. revert Hs. generalize scan_empty.
    induction anomalies as [|a l IH]; intros s Hs; simpl; [done|]. by apply IH, scan_anomaly_inv. }
  apply (try_fold_inv (scan_inv dropped)) in H1; [|intros; by eapply scan_record_inv|done].
  apply (try_fold_inv (λ acc, scan_inv dropped acc.1)) in H2;
    [done|intros; by eapply scan_component_inv|done].
Qed.

(** no entry of a problem second is scored: as soon as the second is
    certified as problematic or any scope gets a problem, no decision is
    admitted. *)
Theorem problem_second_admits_nothing d :
  classify_scoped_second_with_anomalies policy ledger wallet source_second records anomalies dropped
    certified q config history_complete has_market = Ok r →
  problem_second r = true → d ∈ decisions r → d_entry d ≠ EntryAdmitted.
Proof.
  intros (s & failed & applied & ds & fe & _ & _ & _ & _ & -> & _)%scoped_run.
  intros -> (d0 & -> & _)%list_elem_of_fmap. unfold admit_none. case_decide; done.
Qed.

(** C39: a scoped second applies only what lies outside every drop, old or new;
    its problems are new, filed once per scope in scope order; and what it applies
    is accepted by the ledger as one batch. *)
Theorem scoped_apply_outside_drops :
  classify_scoped_second_with_anomalies policy ledger wallet source_second records anomalies dropped
    certified q config history_complete has_market = Ok r →
  (∀ m mk, m ∈ apply_list r → effect_market (mut_effect m) = Some mk →
     market_is_dropped (market_to_string mk) dropped = false
     ∧ market_is_dropped (market_to_string mk) (list_to_set (problem_scope <$> problems r)) = false)
  ∧ (∀ p, p ∈ problems r → problem_scope p ∉ dropped)
  ∧ StronglySorted (λ a b, cmp a b = Lt) (problem_scope <$> problems r)
  ∧ (problem_second r = true ↔ certified = true ∨ problems r ≠ [])
  ∧ ∃ L' applied, simulate_all_or_none ledger (apply_list r) = Ok (L', applied).
Proof.
  intros (s & failed & applied & ds & fe & [[Hwf Hp] Hm] & Ha & -> & Hps & _ & Hv)%scoped_run.
  assert (problem_scope <$> bt_values (sc_problems s) = bt_keys (sc_problems s)) as Hk.
  { unfold bt_values, bt_keys. rewrite <- list_fmap_compose. apply list_fmap_ext.
    intros i [sc p] Hi. simpl. apply Hp, bt_get_elem; [done|]. by eapply list_elem_of_lookup_2. }
  rewrite Hk. split_and!.
  - intros m mk Hin Hmk. rewrite Ha in Hin. apply list_elem_of_In, filter_In in Hin as [Hin Hkeep].
    apply list_elem_of_In in Hin. destruct (Hm m mk Hin Hmk) as [[agg Hagg] Hd]. split; [done|].
    unfold keep_mutation in Hkeep. rewrite Hagg in Hkeep. simpl in Hkeep.
    unfold record_market in Hkeep. rewrite Hmk in Hkeep.
    apply andb_true_iff in Hkeep as [_ ?%negb_true_iff]. done.
  - intros p Hin. unfold bt_values in Hin. apply list_elem_of_fmap in Hin as ([sc p'] & -> & Hin).
    simpl. apply bt_get_elem in Hin; [|done]. by destruct (Hp sc p' Hin) as [-> ?].
  - exact Hwf.
  - rewrite Hps. destruct (sc_problems s); simpl; rewrite orb_true_iff; naive_solver.
  - unfold classify_complete_second in Hv. apply verdict_OrderIndependent in Hv as (_ & [L' ?] & _). eauto.
Qed.

End ScopedGuarantees.

(** ** Instances: an opening buy next to a conversion of another market *)
Definition sample_lookups : ScopeLookups := {|
  lookup_market := λ id, if decide (id = "0xdef") then Grouped "0xeee" else Ungrouped;
  token_market := λ _, None;
  is_group := λ _, false
|}.
Definition sample_aggregate (id condition : string) (t : ActivityType) : ActivityAggregate := {|
  group_id := {| group_key := sample_id id;
                 group_components := {| c_activity_type := t; c_wallet := sample_wallet;
                   c_transaction_hash := "0x1";
                   c_condition_id := Some {| condition_id_str := condition |};
                   c_asset := Some {| token_id_str := "1" |};
                   c_outcome := Some outcome0; c_side := Some Buy |} |};
  row_count := 1; share_sum := from_atomic 5; price_weighted_share_sum := (5 # 2 : @Decimal QDecimal)%Q;
  source_usdc_sum := from_atomic 2; source_time := {| source_timestamp := (5 : @OffsetDateTime ZTime) |};
  is_combo := false; semantic_revision := {| revision := "r" |}
|}.
Definition sample_records : list SecondRecord :=
  [{| rec_aggregate := sample_aggregate "z" "0xDEF" ActConversion;
      rec_mutation := Ok (sample_mutation "z" Conversion) |};
   {| rec_aggregate := sample_aggregate "b" "0xabc" ActTrade;
      rec_mutation := Ok (sample_mutation "b" (Trade sample_market outcome0 Buy (from_atomic 5)
                        {| price_value := (1 # 2 : @Decimal QDecimal)%Q |})) |}].
Definition sample_scoped : result LedgerError ScopedSecond :=
  @classify_scoped_second_with_anomalies QDecimal ZTime sample_lookups HomogeneousPieces ledger_new
    sample_wallet 0 sample_records [] ∅ false {| quality := 90 |} SignalConfig_default true (λ _, false).
Definition empty_scoped : ScopedSecond :=
  {| problem_second := false; problems := []; ignored := []; apply_list := []; decisions := [];
     consumed := [] |}.

Lemma problem_second_admits_nothing_witness :
  Forall (λ d, d_entry d ≠ EntryAdmitted) (decisions (result_or empty_scoped sample_scoped)).
Proof.
  apply Forall_forall. intros d.
  apply (@problem_second_admits_nothing QDecimal ZTime sample_lookups HomogeneousPieces
    ledger_new sample_wallet 0 sample_records [] ∅ false {| quality := 90 |} SignalConfig_default true
    (λ _, false) _ d (is_ok_result_or empty_scoped sample_scoped ltac:(by vm_compute))).
  by vm_compute.
Defined.

Lemma scoped_apply_outside_drops_witness :
  StronglySorted (λ a b, cmp a b = Lt)
    (problem_scope <$> problems (result_or empty_scoped sample_scoped)).
Proof.
  destruct (@scoped_apply_outside_drops QDecimal ZTime sample_lookups HomogeneousPieces
    ledger_new sample_wallet 0 sample_records [] ∅ false {| quality := 90 |} SignalConfig_default true
    (λ _, false) _ (is_ok_result_or empty_scoped sample_scoped ltac:(by vm_compute)))
    as (_ & _ & H & _). exact H.
Defined.
