(* ===== verification/LogFrame.v ===== *)
(** * Frames of the event log

    crates/event-log, [frame.rs] and the errors of [error.rs]: the physical
    format of the append-only log.  A file is the five-byte header followed by
    frames [LEN | zstd block | CRC32].  zstd and crc32fast are interfaces; a
    reader is a byte string read from a position, whose device may fail with an
    I/O error after the bytes it can deliver. *)

From S2P Require Import Prelude CoreTypes Bytes.
#[local] Open Scope Z_scope.

(** ** [std::io] *)

Inductive IoErrorKind : Type := UnexpectedEof | InvalidData | InvalidInput | NotFound | WouldBlock | OtherKind.
#[export] Instance IoErrorKind_eq_dec : EqDecision IoErrorKind.
Proof. solve_decision. Defined.
Record IoError := { io_kind : IoErrorKind; io_message : string }.

(** An open file being read: what is left of it, the position of the first byte
    left, and how reading ends: at end of file, or with a device error. *)
Record Rd := { rd_rest : list Z; rd_pos : Z; rd_end : option IoError }.

Definition rd_advance (n : nat) (r : Rd) : Rd :=
  {| rd_rest := drop n (rd_rest r); rd_pos := rd_pos r + Z.of_nat (n `min` length (rd_rest r));
     rd_end := rd_end r |}.

(** [seek(SeekFrom::Start(p))] on the file [bytes]. *)
Definition rd_seek (bytes : list Z) (fin : option IoError) (p : Z) : Rd :=
  {| rd_rest := drop (Z.to_nat p) bytes; rd_pos := p; rd_end := fin |}.

Definition eof_error : IoError := {| io_kind := UnexpectedEof; io_message := "failed to fill whole buffer" |}.

(** [read(&mut [u8; 1])]: one byte, or none at end of file. *)
Definition read1 : stm Rd IoError (option Z) :=
  λ r, match rd_rest r with
       | b :: _ => (rd_advance 1 r, Ok (Some b))
       | [] => (r, match rd_end r with None => Ok None | Some e => Err e end)
       end.

(** [read_exact(&mut [u8; n])] *)
Definition read_exact (n : nat) : stm Rd IoError (list Z) :=
  λ r, (rd_advance n r,
        if decide (n ≤ length (rd_rest r))%nat then Ok (take n (rd_rest r))
        else Err (default eof_error (rd_end r))).

(** [take(n).read_to_end(&mut vec)] *)
Definition read_up_to (n : nat) : stm Rd IoError (list Z) :=
  λ r, (rd_advance n r,
        if decide (n ≤ length (rd_rest r))%nat then Ok (take n (rd_rest r))
        else match rd_end r with None => Ok (rd_rest r) | Some e => Err e end).

(** ** zstd and crc32fast

    [zstd_single] decodes one frame from the front and returns the unconsumed
    input; [None] when the frame is malformed or unfinished. *)
Class Zstd := {
  zstd_encode : list Z → result string (list Z);
  zstd_decode : list Z → result string (list Z);
  zstd_single : list Z → option (list Z);
  crc32 : list Z → Z
}.
(** What the log relies on: [encode_all] writes one self-delimiting frame that
    [decode_all] reverses, and a proper prefix of a frame is unfinished. *)
Class ZstdLaws {ZS : Zstd} : Prop := {
  zstd_encode_decode bs c : zstd_encode bs = Ok c → zstd_decode c = Ok bs;
  zstd_encode_single bs c : zstd_encode bs = Ok c → zstd_single c = Some [];
  zstd_unfinished bs c p q : zstd_encode bs = Ok c → c = p ++ q → q ≠ [] → zstd_single p = None;
  crc32_u32 bs : is_u32 (crc32 bs)
}.

(** ** [error.rs] *)
Inductive PoisonReason : Type := PoisonAppend | PoisonFlush | PoisonSynchronize.
#[export] Instance PoisonReason_eq_dec : EqDecision PoisonReason.
Proof. solve_decision. Defined.

Inductive RetentionError : Type :=
| RetentionInvalid (message : string)
| RetentionIo (e : IoError).

Inductive LogError : Type :=
| Retention (e : RetentionError)
| Retired (physical_tail boundary_offset : Z)
| FeedArchive (epoch : Z) (message : string)
| Cancelled
| BadHeader (path : string)
| Locked (path : string)
| CrcMismatch (at_seq : EventSeq) (byte_offset : Z)
| ChainBroken (at_seq : EventSeq) (byte_offset : Z) (expected actual : string)
| SequenceMismatch (byte_offset : Z) (expected actual : EventSeq)
| RawPayloadHashMismatch (at_seq : EventSeq) (byte_offset : Z) (expected actual : string)
| ChainComputation (at_seq : EventSeq) (byte_offset : Z)
| Truncated (at_ : EventSeq) (byte_offset : Z)
| LogIo (e : IoError)
| Serde (message : string)
| EnvelopeDecode (at_seq : EventSeq) (byte_offset : Z) (source : string)
| Compress (message : string)
| Decompress (at_seq : EventSeq) (byte_offset : Z) (message : string)
| Poisoned (reason : PoisonReason)
| SequenceOverflow
| FrameTooLarge (byte_offset len max : Z)
| ExpectedTailMismatch (path : string) (expected_tail actual_tail : Z).

Inductive FrameReadError : Type :=
| FrameTruncated (byte_offset : Z)
| FrameCrcMismatch (byte_offset : Z)
| FrameReadTooLarge (byte_offset len : Z)
| FrameDecompress (message : string)
| FrameIo (e : IoError).

(** ** [frame.rs] *)
Definition MAGIC : list Z := string_bytes "EDGE".
Definition VERSION : Z := 1.
Definition HEADER_LEN : Z := 5.
Definition MAX_FRAME_BYTES : Z := 64 * 1024 * 1024.

Definition file_header : list Z := MAGIC ++ [VERSION].

Definition verify_file_header (path : string) : stm Rd LogError unit :=
  λ r, match read_exact 5 r with
       | (r', Ok buf) =>
           if bool_decide (take 4 buf ≠ MAGIC) || bool_decide (buf !! 4%nat ≠ Some VERSION)
           then (r', Err (BadHeader path)) else (r', Ok tt)
       | (r', Err _) => (r', Err (BadHeader path))
       end.

Section Frames.
Context {ZS : Zstd}.

(** The three writes of [write_frame], after its checks. *)
Definition frame_parts (json_bytes : list Z) : result LogError (list (list Z)) :=
  compressed ← map_err Compress (zstd_encode json_bytes);
  let len := Z.of_nat (length compressed) in
  if U32_MAX <? len then Err (Compress "compressed frame exceeds 4 GiB")
  else if MAX_FRAME_BYTES <? len then Err (FrameTooLarge 0 len MAX_FRAME_BYTES)
  else Ok [le_bytes 4 len; compressed; le_bytes 4 (crc32 compressed)].
(** The bytes of the frame. *)
Definition encode_frame (json_bytes : list Z) : result LogError (list Z) :=
  parts ← frame_parts json_bytes; Ok (concat parts).

Definition complete_zstd_frame_has_trailing_bytes (compressed : list Z) : bool :=
  match zstd_single compressed with
  | Some rest => bool_decide (rest ≠ [])
  | None => false
  end.

Definition read_exact_frame (n : nat) (byte_offset : Z) : stm Rd FrameReadError (list Z) :=
  λ r, let '(r', x) := read_exact n r in
       (r', map_err (λ e, if decide (io_kind e = UnexpectedEof) then FrameTruncated byte_offset
                          else FrameIo e) x).

Definition lift_io {A} (m : stm Rd IoError A) : stm Rd FrameReadError A :=
  λ r, let '(r', x) := m r in (r', map_err FrameIo x).

(** The CRC field of a frame whose body was read completely. *)
Definition read_crc (byte_offset : Z) (compressed : list Z) : stm Rd FrameReadError (list Z) :=
  λ r, match read_exact_frame 4 byte_offset r with
       | (r', Err (FrameTruncated o)) =>
           (r', Err (if complete_zstd_frame_has_trailing_bytes compressed
                     then FrameCrcMismatch byte_offset else FrameTruncated o))
       | other => other
       end.

(** What follows the length field. *)
Definition read_frame_body (byte_offset first : Z) (len_rest : list Z) :
    stm Rd FrameReadError (option (list Z * list Z)) :=
  let len_raw := le_decode (first :: len_rest) in
  if MAX_FRAME_BYTES <? len_raw then stm_fail (FrameReadTooLarge byte_offset len_raw)
  else
    let len := Z.to_nat len_raw in
    compressed ← lift_io (read_up_to len);
    if decide (length compressed < len)%nat then
      stm_fail (if complete_zstd_frame_has_trailing_bytes compressed
                then FrameCrcMismatch byte_offset else FrameTruncated byte_offset)
    else
      crc_buf ← read_crc byte_offset compressed;
      if bool_decide (crc32 compressed ≠ le_decode crc_buf)
      then stm_fail (FrameCrcMismatch byte_offset)
      else
        decompressed ← stm_lift (map_err FrameDecompress (zstd_decode compressed));
        mret (Some (decompressed, (first :: len_rest) ++ compressed ++ crc_buf)).

(** The frame's contents, with the raw bytes handed to the observer. *)
Definition read_frame_observed (byte_offset : Z) :
    stm Rd FrameReadError (option (list Z * list Z)) :=
  first ← lift_io read1;
  match first with
  | None => mret None
  | Some first =>
      len_rest ← read_exact_frame 3 byte_offset;
      read_frame_body byte_offset first len_rest
  end.

End Frames.

(** ** Reading back what was written *)

Section ReaderFacts.
Context {ZS : Zstd}.

Lemma rd_advance_app a b p e :
  rd_advance (length a) {| rd_rest := a ++ b; rd_pos := p; rd_end := e |}
  = {| rd_rest := b; rd_pos := p + Z.of_nat (length a); rd_end := e |}.
Proof. unfold rd_advance. simpl. rewrite drop_app_length, length_app, Nat.min_l by lia. done. Qed.

Lemma read1_cons x l p e :
  read1 {| rd_rest := x :: l; rd_pos := p; rd_end := e |}
  = ({| rd_rest := l; rd_pos := p + 1; rd_end := e |}, Ok (Some x)).
Proof. done. Qed.

Lemma read_exact_app a b p e :
  read_exact (length a) {| rd_rest := a ++ b; rd_pos := p; rd_end := e |}
  = ({| rd_rest := b; rd_pos := p + Z.of_nat (length a); rd_end := e |}, Ok a).
Proof.
  unfold read_exact. rewrite rd_advance_app. simpl. rewrite decide_True by (rewrite length_app; lia).
  by rewrite take_app_length.
Qed.

Lemma read_exact_frame_app n off a b p e : length a = n →
  read_exact_frame n off {| rd_rest := a ++ b; rd_pos := p; rd_end := e |}
  = ({| rd_rest := b; rd_pos := p + Z.of_nat n; rd_end := e |}, Ok a).
Proof. intros <-. unfold read_exact_frame. by rewrite read_exact_app. Qed.

Lemma read_exact_frame_short n off a p : (length a < n)%nat →
  (read_exact_frame n off {| rd_rest := a; rd_pos := p; rd_end := None |}).2
  = Err (FrameTruncated off).
Proof. intros H. unfold read_exact_frame, read_exact. simpl. by rewrite decide_False by lia. Qed.

Lemma read_up_to_app n a b p e : length a = n →
  lift_io (read_up_to n) {| rd_rest := a ++ b; rd_pos := p; rd_end := e |}
  = ({| rd_rest := b; rd_pos := p + Z.of_nat n; rd_end := e |}, Ok a).
Proof.
  intros <-. unfold lift_io, read_up_to. rewrite rd_advance_app. simpl.
  rewrite decide_True by (rewrite length_app; lia). by rewrite take_app_length.
Qed.

Lemma read_up_to_short n a p : (length a < n)%nat →
  (lift_io (read_up_to n) {| rd_rest := a; rd_pos := p; rd_end := None |}).2 = Ok a.
Proof. intros H. unfold lift_io, read_up_to. simpl. by rewrite decide_False by lia. Qed.

Lemma encode_frame_Ok json f : encode_frame json = Ok f →
  ∃ c, zstd_encode json = Ok c ∧ Z.of_nat (length c) ≤ MAX_FRAME_BYTES
    ∧ f = le_bytes 4 (Z.of_nat (length c)) ++ c ++ le_bytes 4 (crc32 c).
Proof.
  unfold encode_frame. intros (ps & H & [= <-])%result_bind_Ok.
  unfold frame_parts in H. apply result_bind_Ok in H as (c & Hc%map_err_Ok & H).
  exists c. split; [done|]. cbv zeta in H. destruct (U32_MAX <? _); [done|].
  destruct (Z.ltb_spec MAX_FRAME_BYTES (Z.of_nat (length c))); [done|]. split; [done|].
  assert (ps = [le_bytes 4 (Z.of_nat (length c)); c; le_bytes 4 (crc32 c)]) as -> by congruence.
  cbn [concat]. by rewrite app_nil_r.
Qed.

(** The four bytes of a length the writer accepted decode to it. *)
Lemma le_decode_frame_length n : Z.of_nat n ≤ MAX_FRAME_BYTES →
  le_decode (le_bytes 4 (Z.of_nat n)) = Z.of_nat n.
Proof. intros H. apply le_decode_bytes. unfold MAX_FRAME_BYTES in H. simpl Z.of_nat. lia. Qed.

(** Reading the length field of a frame, whatever follows it. *)
Lemma read_frame_length off b0 b1 b2 b3 rest p e : 
  read_frame_observed off {| rd_rest := [b0; b1; b2; b3] ++ rest; rd_pos := p; rd_end := e |}
  = read_frame_body off b0 [b1; b2; b3] {| rd_rest := rest; rd_pos := p + 4; rd_end := e |}.
Proof.
  unfold read_frame_observed. rewrite stm_bind_run. unfold lift_io at 1.
  change ([b0; b1; b2; b3] ++ rest) with (b0 :: [b1; b2; b3] ++ rest).
  rewrite read1_cons. cbn [map_err]. rewrite stm_bind_run.
  rewrite (read_exact_frame_app 3 off [b1; b2; b3]) by done.
  by replace (p + 1 + Z.of_nat 3) with (p + 4) by lia.
Qed.

Lemma le_bytes_4 z : ∃ b0 b1 b2 b3, le_bytes 4 z = [b0; b1; b2; b3].
Proof. simpl. eauto. Qed.

(** The bytes of a well-formed frame with the given contents. *)
Definition frame_ok (json raw : list Z) : Prop :=
  ∃ b0 bs c crc, raw = (b0 :: bs) ++ c ++ crc ∧ length bs = 3%nat ∧ length crc = 4%nat
    ∧ Z.to_nat (le_decode (b0 :: bs)) = length c ∧ le_decode (b0 :: bs) ≤ MAX_FRAME_BYTES
    ∧ crc32 c = le_decode crc ∧ zstd_decode c = Ok json.

Lemma frame_ok_length json raw : frame_ok json raw → (8 ≤ length raw)%nat.
Proof. intros (b0 & bs & c & crc & -> & ? & ? & _). simpl. rewrite !length_app. lia. Qed.

Lemma read_frame_ok json raw off p rest e : frame_ok json raw →
  read_frame_observed off {| rd_rest := raw ++ rest; rd_pos := p; rd_end := e |}
  = ({| rd_rest := rest; rd_pos := p + Z.of_nat (length raw); rd_end := e |}, Ok (Some (json, raw))).
Proof.
  intros (b0 & bs & c & crc & -> & Hbs & Hcrc & Hlen & Hmax & Hsum & Hdec).
  destruct bs as [|b1 [|b2 [|b3 [|]]]]; try done.
  rewrite <- !app_assoc, read_frame_length. unfold read_frame_body.
  destruct (Z.ltb_spec MAX_FRAME_BYTES (le_decode [b0; b1; b2; b3])) as [?|_]; [lia|].
  rewrite Hlen, stm_bind_run, read_up_to_app by done.
  rewrite decide_False by lia. rewrite stm_bind_run. unfold read_crc at 1.
  rewrite read_exact_frame_app by done. rewrite bool_decide_eq_false_2 by auto.
  rewrite stm_bind_run. unfold stm_lift. rewrite Hdec. simpl.
  unfold mret, stm_mret. f_equal. f_equal. rewrite length_app. lia.
Qed.

Lemma read_exact_frame_Ok n off r r' a : read_exact_frame n off r = (r', Ok a) →
  length a = n ∧ rd_rest r = a ++ rd_rest r' ∧ rd_pos r' = rd_pos r + Z.of_nat n.
Proof.
  unfold read_exact_frame, read_exact. intros H. injection H as <- H. apply map_err_Ok in H.
  case_decide as Hn; [|done]. injection H as <-. simpl. rewrite length_take, take_drop. split_and!; lia || done.
Qed.

(** A read that succeeds consumed exactly one well-formed frame. *)
Lemma read_frame_inv off r r' json raw : read_frame_observed off r = (r', Ok (Some (json, raw))) →
  frame_ok json raw ∧ rd_rest r = raw ++ rd_rest r' ∧ rd_pos r' = rd_pos r + Z.of_nat (length raw).
Proof.
  unfold read_frame_observed. rewrite stm_bind_run. unfold lift_io at 1.
  destruct r as [[|b0 l] p e]; [by destruct e|]. rewrite read1_cons. cbn [map_err].
  intros (bs & r1 & (Hbs & Hr1 & Hp1)%read_exact_frame_Ok & H)%stm_bind_Ok. simpl in Hr1, Hp1. subst l.
  unfold read_frame_body in H. remember (le_decode (b0 :: bs)) as len eqn:Hlen. cbv zeta in H.
  destruct (Z.ltb_spec MAX_FRAME_BYTES len); [done|].
  apply stm_bind_Ok in H as (c & r2 & Hc & H). case_decide as Hl; [done|].
  apply stm_bind_Ok in H as (crc & r3 & Hcrc & H). case_bool_decide as Hsum; [done|].
  apply stm_bind_Ok in H as (d & r4 & Hd & H). injection Hd as <- Hd. apply map_err_Ok in Hd.
  injection H as <- <- <-.
  assert (read_exact_frame 4 off r2 = (r3, Ok crc)) as (Hcl & Hr3 & Hp3)%read_exact_frame_Ok.
  { unfold read_crc in Hcrc. by destruct (read_exact_frame 4 off r2) as [? [|[]]]. }
  unfold lift_io, read_up_to in Hc. injection Hc as <- Hc. apply map_err_Ok in Hc.
  case_decide as Hle.
  2:{ destruct (rd_end r1); [done|]. injection Hc as <-. simpl in Hl. lia. }
  injection Hc as <-. cbn [rd_advance rd_rest rd_pos] in Hr3, Hp3. rewrite length_take in Hl.
  split_and!.
  - exists b0, bs. do 2 eexists. rewrite <- Hlen. split_and!; [done..| |done| |exact Hd].
    + rewrite length_take. lia.
    + done.
  - simpl. rewrite <- !app_assoc, <- Hr3. by rewrite take_drop.
  - rewrite Hp3, Hp1. simpl length. rewrite !length_app, length_take. simpl rd_pos. lia.
Qed.

Lemma read_frame_eof off r r' : read_frame_observed off r = (r', Ok None) → rd_rest r = [].
Proof.
  unfold read_frame_observed. rewrite stm_bind_run. unfold lift_io at 1.
  destruct r as [[|b0 l] p e]; [done|]. rewrite read1_cons. cbn [map_err].
  intros (bs & r1 & _ & H)%stm_bind_Ok. exfalso.
  unfold read_frame_body in H. destruct (_ <? _) in H; [done|].
  apply stm_bind_Ok in H as (c & r2 & _ & H). case_decide; [done|].
  apply stm_bind_Ok in H as (crc & r3 & _ & H). case_bool_decide; [done|].
  by apply stm_bind_Ok in H as (d & r4 & _ & H).
Qed.

Lemma encode_frame_ok `{!ZstdLaws} json f : encode_frame json = Ok f → frame_ok json f.
Proof.
  intros (c & Hc & Hlen & ->)%encode_frame_Ok.
  pose proof (le_decode_frame_length _ Hlen) as Hd.
  destruct (le_bytes_4 (Z.of_nat (length c))) as (b0 & b1 & b2 & b3 & Hb). rewrite Hb in *.
  exists b0, [b1; b2; b3], c, (le_bytes 4 (crc32 c)).
  split_and!; [done..|by rewrite Hd, Nat2Z.id|lia| |by apply zstd_encode_decode].
  pose proof (crc32_u32 c) as Hcrc. unfold is_u32, U32_MAX in Hcrc.
  by rewrite le_decode_bytes by (simpl; lia).
Qed.

(** A body cut short, and a body without its complete checksum. *)
Lemma read_body_torn `{!ZstdLaws} json c off b0 bs t k p : zstd_encode json = Ok c →
  le_decode (b0 :: bs) = Z.of_nat (length c) → Z.of_nat (length c) ≤ MAX_FRAME_BYTES →
  (∃ q, c = t ++ q ∧ q ≠ [] ∧ k = []) ∨ (t = c ∧ (length k < 4)%nat) →
  (read_frame_body off b0 bs {| rd_rest := t ++ k; rd_pos := p; rd_end := None |}).2
  = Err (FrameTruncated off).
Proof.
  intros Hc Hd Hlen Hcut. unfold read_frame_body. rewrite Hd.
  destruct (Z.ltb_spec MAX_FRAME_BYTES (Z.of_nat (length c))) as [?|_]; [lia|].
  rewrite Nat2Z.id, stm_bind_run. destruct Hcut as [(q & -> & Hq & ->)|[-> Hk]].
  - assert (length t < length (t ++ q))%nat as Hlt.
    { rewrite length_app. destruct q; [done|simpl; lia]. }
    rewrite app_nil_r. pose proof (read_up_to_short _ t p Hlt) as Hr.
    destruct (lift_io _ _) as [r x]. simpl in Hr. subst x.
    rewrite decide_True by done. unfold complete_zstd_frame_has_trailing_bytes.
    by rewrite (zstd_unfinished _ _ t q Hc eq_refl Hq).
  - rewrite read_up_to_app by done. rewrite decide_False by lia. rewrite stm_bind_run.
    unfold read_crc. pose proof (read_exact_frame_short 4 off k (p + Z.of_nat (length c)) Hk) as Hr.
    destruct (read_exact_frame 4 off _) as [r x]. simpl in Hr. subst x.
    unfold complete_zstd_frame_has_trailing_bytes. by rewrite (zstd_encode_single _ _ Hc).
Qed.

Lemma read_frame_torn `{!ZstdLaws} json f off p t q : encode_frame json = Ok f →
  f = t ++ q → t ≠ [] → q ≠ [] →
  (read_frame_observed off {| rd_rest := t; rd_pos := p; rd_end := None |}).2
  = Err (FrameTruncated off).
Proof.
  intros (c & Hc & Hlen & ->)%encode_frame_Ok Hf Ht Hq.
  pose proof (le_decode_frame_length _ Hlen) as Hd.
  destruct (le_bytes_4 (Z.of_nat (length c))) as (b0 & b1 & b2 & b3 & Hb). rewrite Hb in *.
  pose proof (length_le_bytes 4 (crc32 c)) as Hcrc. revert Hcrc Hf.
  generalize (le_bytes 4 (crc32 c)) as crc. intros crc Hcrc Hf.
  destruct t as [|x0 [|x1 [|x2 [|x3 t]]]]; [done|..|].
  1-3: unfold read_frame_observed; rewrite stm_bind_run; unfold lift_io at 1;
    rewrite read1_cons; cbn [map_err]; apply stm_bind_Err_l, read_exact_frame_short; simpl; lia.
  injection Hf as -> -> -> -> Hf.
  change (x0 :: x1 :: x2 :: x3 :: t) with ([x0; x1; x2; x3] ++ t). rewrite read_frame_length.
  apply app_eq_inv in Hf as [(k & -> & Hk)|(k & -> & Hk)].
  - rewrite <- (app_nil_r t). destruct k as [|y k].
    + apply (read_body_torn json (t ++ [])); [done..|]. right. split; [by rewrite app_nil_r|simpl; lia].
    + apply (read_body_torn json (t ++ y :: k)); [done..|]. left. eauto.
  - apply (f_equal length) in Hk as Hl. rewrite length_app in Hl.
    apply (read_body_torn json c); [done..|]. right. split; [done|]. destruct q; [done|simpl in Hl; lia].
Qed.

(** a frame the writer produces is read back exactly: the contents, the raw
    bytes, and nothing beyond the frame; and every cut of it short of its end
    reads as a truncated frame, so a torn write is never taken for data. *)
Theorem frame_roundtrip `{!ZstdLaws} json f off p : encode_frame json = Ok f →
  (∀ rest e, read_frame_observed off {| rd_rest := f ++ rest; rd_pos := p; rd_end := e |}
     = ({| rd_rest := rest; rd_pos := p + Z.of_nat (length f); rd_end := e |}, Ok (Some (json, f))))
  ∧ (∀ t q, f = t ++ q → t ≠ [] → q ≠ [] →
     (read_frame_observed off {| rd_rest := t; rd_pos := p; rd_end := None |}).2
     = Err (FrameTruncated off)).
Proof. eauto using read_frame_ok, encode_frame_ok, read_frame_torn. Qed.

End ReaderFacts.

(** ** Instance: a length-prefixed stand-in for zstd and a byte sum for CRC32 *)

Definition toy_length (c : list Z) : Z := le_decode (take 8 c).
Definition toy_single (c : list Z) : option (list Z) :=
  if decide ((8 ≤ length c)%nat ∧ toy_length c ≤ Z.of_nat (length (drop 8 c)))
  then Some (drop (Z.to_nat (toy_length c)) (drop 8 c)) else None.
#[export] Instance ToyZstd : Zstd := {|
  zstd_encode bs := if Z.of_nat (length bs) <=? U32_MAX
                    then Ok (le_bytes 8 (Z.of_nat (length bs)) ++ bs) else Err "too long";
  zstd_decode c := match toy_single c with Some [] => Ok (drop 8 c) | _ => Err "corrupt" end;
  zstd_single := toy_single;
  crc32 bs := (foldl Z.add 0 bs) mod 4294967296
|}.

Lemma toy_encode_Ok bs c : zstd_encode bs = Ok c →
  c = le_bytes 8 (Z.of_nat (length bs)) ++ bs ∧ toy_length c = Z.of_nat (length bs) ∧ drop 8 c = bs.
Proof.
  unfold zstd_encode, ToyZstd. destruct (Z.leb_spec (Z.of_nat (length bs)) U32_MAX) as [H|]; [|done].
  intros Heq. assert (c = le_bytes 8 (Z.of_nat (length bs)) ++ bs) as -> by congruence. clear Heq.
  pose proof (length_le_bytes 8 (Z.of_nat (length bs))) as Hl. split; [done|]. split.
  - unfold toy_length. rewrite take_app_length' by done. apply le_decode_bytes.
    unfold U32_MAX in H. simpl Z.of_nat. lia.
  - by rewrite drop_app_length' by done.
Qed.

Lemma toy_encode_single bs c : zstd_encode bs = Ok c → toy_single c = Some [].
Proof.
  intros (Hc & Hl & Hd)%toy_encode_Ok. unfold toy_single. rewrite Hl, Hd, decide_True.
  - rewrite Nat2Z.id. by rewrite drop_all.
  - split; [|lia]. rewrite Hc, length_app, length_le_bytes. lia.
Qed.

#[export] Instance ToyZstd_laws : ZstdLaws.
Proof.
  split.
  - intros bs c Hc. cbn [zstd_decode ToyZstd]. rewrite (toy_encode_single _ _ Hc).
    by apply toy_encode_Ok in Hc as (_ & _ & ->).
  - exact toy_encode_single.
  - intros bs c p q (Hc & Hl & Hd)%toy_encode_Ok -> Hq. cbn [zstd_single ToyZstd]. unfold toy_single.
    apply decide_False. intros [H8 Hle]. unfold toy_length in Hl, Hle.
    rewrite take_app_le in Hl by lia. rewrite Hl in Hle.
    rewrite drop_app_le in Hd by lia. apply (f_equal length) in Hd. rewrite length_app in Hd.
    destruct q; [done|simpl in Hd; lia].
  - intros bs. cbn [crc32 ToyZstd]. unfold is_u32, U32_MAX.
    pose proof (Z.mod_pos_bound (foldl Z.add 0 bs) 4294967296). lia.
Qed.

Definition sample_frame : list Z := result_or [] (encode_frame [1; 2; 3]).

Lemma frame_roundtrip_witness :
  read_frame_observed 5 {| rd_rest := sample_frame ++ [9]; rd_pos := 5; rd_end := None |}
  = ({| rd_rest := [9]; rd_pos := 5 + Z.of_nat (length sample_frame); rd_end := None |},
     Ok (Some ([1; 2; 3], sample_frame))).
Proof. apply (frame_roundtrip [1; 2; 3] sample_frame 5 5). reflexivity. Defined.
