(* ===== verification/LogChain.v ===== *)
(** * The hash chain of the event log

    crates/event-log, [envelope.rs] and the part of [scanner.rs] that reads one
    frame.  Every frame carries an envelope chained to the previous one by BLAKE3;
    a verified read checks sequence, payload hash and chain, and separates a torn
    final frame from damage.  serde_json and BLAKE3 are interfaces. *)

From S2P Require Import Prelude CoreTypes Bytes LogFrame.
#[local] Open Scope Z_scope.

(** ** [envelope.rs] *)
Inductive ContentType : Type := JsonContent | MessagePack | Cbor | RawContent.
#[export] Instance ContentType_eq_dec : EqDecision ContentType.
Proof. solve_decision. Defined.

Section Envelopes.
Context `{TO : TimeOps}.

Record EventEnvelope := {
  env_seq : EventSeq;
  env_source_id : string;
  env_schema_version : Z;
  env_parser_version : Z;
  env_observed_at : SourceTimestamp;
  env_received_at : ReceivedAt;
  env_content_type : ContentType;
  env_raw_payload_hash : Hash;
  env_prev_hash : Hash;
  env_this_hash : Hash;
  env_payload : list Z
}.

Record EnvelopeIn := {
  in_source_id : string;
  in_schema_version : Z;
  in_parser_version : Z;
  in_observed_at : SourceTimestamp;
  in_received_at : ReceivedAt;
  in_content_type : ContentType;
  in_payload : list Z
}.

Record HashInput := {
  hi_seq : EventSeq;
  hi_source_id : string;
  hi_schema_version : Z;
  hi_parser_version : Z;
  hi_observed_at : SourceTimestamp;
  hi_received_at : ReceivedAt;
  hi_content_type : ContentType;
  hi_prev_hash : Hash;
  hi_payload : list Z
}.

Record CanonicalFields := {
  cf_content_type : ContentType;
  cf_observed_at : SourceTimestamp;
  cf_parser_version : Z;
  cf_prev_hash : string;
  cf_raw_payload_hash : string;
  cf_received_at : ReceivedAt;
  cf_schema_version : Z;
  cf_seq : Z;
  cf_source_id : string
}.

Inductive ChainError : Type :=
| PrevHashMismatch (expected actual : string)
| ThisHashMismatch (expected actual : string)
| ComputeError.

Definition hash_input_of (e : EventEnvelope) : HashInput := {|
  hi_seq := env_seq e; hi_source_id := env_source_id e;
  hi_schema_version := env_schema_version e; hi_parser_version := env_parser_version e;
  hi_observed_at := env_observed_at e; hi_received_at := env_received_at e;
  hi_content_type := env_content_type e; hi_prev_hash := env_prev_hash e;
  hi_payload := env_payload e
|}.

End Envelopes.

(** serde_json at the types of the log: [canonical_json] is [to_value] followed by
    [to_vec], the sorted compact object. *)
Class LogJson `{TO : TimeOps} := {
  canonical_json : CanonicalFields → result string (list Z);
  envelope_to_vec : EventEnvelope → result string (list Z);
  envelope_from_slice : list Z → result string EventEnvelope
}.
(** An envelope whose hashes are digests. *)
Definition envelope_wf `{TO : TimeOps} (e : EventEnvelope) : Prop :=
  hash_wf (env_raw_payload_hash e) ∧ hash_wf (env_prev_hash e) ∧ hash_wf (env_this_hash e).
(** What the log relies on: a serialized envelope parses back to itself, and a
    JSON object determines its fields and where it ends. *)
Class LogJsonLaws `{TO : TimeOps} {LJ : LogJson} : Prop := {
  envelope_json_roundtrip e bs :
    envelope_wf e → envelope_to_vec e = Ok bs → envelope_from_slice bs = Ok e;
  canonical_json_object f g b c x y :
    canonical_json f = Ok b → canonical_json g = Ok c → b ++ x = c ++ y → f = g
}.

Section Chain.
Context `{TO : TimeOps} {B3 : Blake3} {LJ : LogJson}.

Definition canonical_fields (i : HashInput) : CanonicalFields := {|
  cf_content_type := hi_content_type i; cf_observed_at := hi_observed_at i;
  cf_parser_version := hi_parser_version i; cf_prev_hash := to_hex (hi_prev_hash i);
  cf_raw_payload_hash := to_hex (blake3 (hi_payload i)); cf_received_at := hi_received_at i;
  cf_schema_version := hi_schema_version i; cf_seq := event_seq (hi_seq i);
  cf_source_id := hi_source_id i
|}.

Definition compute_hashes (i : HashInput) : result LogError (Hash * list Z * Hash) :=
  let raw_payload_hash := blake3 (hi_payload i) in
  canonical_bytes ← map_err Serde (canonical_json (canonical_fields i));
  Ok (raw_payload_hash, canonical_bytes,
      blake3 (hash_bytes (hi_prev_hash i) ++ canonical_bytes ++ hi_payload i)).

Definition verify_chain (envelope : EventEnvelope) (expected_prev_hash : Hash) :
    result ChainError unit :=
  if decide (env_prev_hash envelope = expected_prev_hash) then
    match compute_hashes (hash_input_of envelope) with
    | Ok (_, _, expected_this) =>
        if decide (expected_this = env_this_hash envelope) then Ok tt
        else Err (ThisHashMismatch (to_hex expected_this) (to_hex (env_this_hash envelope)))
    | Err _ => Err ComputeError
    end
  else Err (PrevHashMismatch (to_hex expected_prev_hash) (to_hex (env_prev_hash envelope))).

(** ** [scanner.rs]: one frame *)
Record ScanState := { next_sequence : Z; previous_hash : Hash; physical_tail : Z }.

Definition genesis_hash : Hash := {| hash_bytes := replicate 32 0 |}.
Definition after_header : ScanState :=
  {| next_sequence := 0; previous_hash := genesis_hash; physical_tail := HEADER_LEN |}.
Definition at_frame (sequence : EventSeq) (h : Hash) (byte_offset : Z) : ScanState :=
  {| next_sequence := event_seq sequence; previous_hash := h; physical_tail := byte_offset |}.

Record IncompleteTail := { it_byte_offset : Z; it_next_sequence : EventSeq }.

Inductive ScanStep : Type :=
| ScanFrame (envelope : EventEnvelope)
| ScanEof
| ScanIncomplete (tail : IncompleteTail).

Definition verify_envelope (envelope : EventEnvelope) (expected_sequence : EventSeq)
    (previous : Hash) (frame_start : Z) : result LogError unit :=
  if decide (env_seq envelope = expected_sequence) then
    let computed_raw_hash := blake3 (env_payload envelope) in
    if decide (computed_raw_hash = env_raw_payload_hash envelope) then
      match verify_chain envelope previous with
      | Ok _ => Ok tt
      | Err (PrevHashMismatch expected actual) | Err (ThisHashMismatch expected actual) =>
          Err (ChainBroken (env_seq envelope) frame_start expected actual)
      | Err ComputeError => Err (ChainComputation (env_seq envelope) frame_start)
      end
    else Err (RawPayloadHashMismatch (env_seq envelope) frame_start (to_hex computed_raw_hash)
                (to_hex (env_raw_payload_hash envelope)))
  else Err (SequenceMismatch frame_start expected_sequence (env_seq envelope)).

Context {ZS : Zstd}.

(** The mapping of a failed frame read: only a truncation is not an error. *)
Definition frame_error (s : ScanState) (e : FrameReadError) : result LogError ScanStep :=
  let seq := {| event_seq := next_sequence s |} in
  match e with
  | FrameTruncated o => Ok (ScanIncomplete {| it_byte_offset := o; it_next_sequence := seq |})
  | FrameCrcMismatch o => Err (CrcMismatch seq o)
  | FrameReadTooLarge o len => Err (FrameTooLarge o len MAX_FRAME_BYTES)
  | FrameDecompress m => Err (Decompress seq (physical_tail s) m)
  | FrameIo e => Err (LogIo e)
  end.

(** The state after a verified frame that ends at [tail]. *)
Definition after_frame (s : ScanState) (e : EventEnvelope) (tail : Z) : result LogError ScanState :=
  next ← ok_or (checked_add_u64 (next_sequence s) 1) SequenceOverflow;
  Ok {| next_sequence := next; previous_hash := env_this_hash e; physical_tail := tail |}.

(** [read_verified_frame_observed]: the step, the new state and the raw bytes the
    observer was given.  Every caller drops the state when an error is returned. *)
Definition read_verified_frame_observed (s : ScanState) :
    stm Rd LogError (ScanStep * ScanState * list Z) :=
  λ r, match read_frame_observed (physical_tail s) r with
       | (r', Ok (Some (json, raw))) =>
           (r', envelope ← map_err (EnvelopeDecode {| event_seq := next_sequence s |} (physical_tail s))
                             (envelope_from_slice json);
                _ ← verify_envelope envelope {| event_seq := next_sequence s |} (previous_hash s)
                      (physical_tail s);
                s' ← after_frame s envelope (rd_pos r');
                Ok (ScanFrame envelope, s', raw))
       | (r', Ok None) => (r', Ok (ScanEof, s, []))
       | (r', Err e) => (r', step ← frame_error s e; Ok (step, s, []))
       end.

End Chain.
