(* ===== verification/LogScanner.v ===== *)
(** * Walking the event log

    crates/event-log, [scanner.rs] (the walk over a whole file, and the one that
    resumes at a checkpoint and hashes what it reads), [reader.rs] (isolated reads)
    and [retention.rs] (the authority over retired bytes).  A walk is a loop over
    verified frames with fuel, proved never to run out. *)

From S2P Require Import Prelude CoreTypes Bytes LogFrame LogChain.
#[local] Open Scope Z_scope.

(** ** Bindings *)
Record LogTailBinding := {
  tb_path : string;
  tb_physical_tail : Z;
  tb_last_sequence : option EventSeq;
  tb_last_hash : Hash
}.
#[export] Instance LogTailBinding_eq_dec : EqDecision LogTailBinding.
Proof. solve_decision. Defined.

Record ScanOutcome := { verified_tail : LogTailBinding; incomplete_tail : option IncompleteTail }.

Definition last_sequence (s : ScanState) : option EventSeq :=
  (λ n, {| event_seq := n |}) <$> checked_sub_u64 (next_sequence s) 1.

Definition tail_binding (path : string) (s : ScanState) : LogTailBinding := {|
  tb_path := path; tb_physical_tail := physical_tail s;
  tb_last_sequence := last_sequence s; tb_last_hash := previous_hash s
|}.

(** ** [PrefixTracker] *)
Inductive PrefixVerdict : Type := NotRequested | PrefixMatched | PrefixShorter | PrefixMismatch.
#[export] Instance PrefixVerdict_eq_dec : EqDecision PrefixVerdict.
Proof. solve_decision. Defined.

Definition require_match (v : PrefixVerdict) : result LogError unit :=
  match v with
  | NotRequested | PrefixMatched => Ok tt
  | PrefixShorter => Err (LogIo {| io_kind := InvalidData;
      io_message := "event log is shorter than the recorded migration boundary" |})
  | PrefixMismatch => Err (LogIo {| io_kind := InvalidData;
      io_message := "event log does not match the recorded migration boundary" |})
  end.

Definition require_retained (v : PrefixVerdict) : result LogError unit :=
  match v with
  | NotRequested | PrefixMatched => Ok tt
  | PrefixShorter | PrefixMismatch =>
      Err (Retention (RetentionInvalid "event log does not reach its committed retained tail"))
  end.

Record PrefixTracker := {
  pt_expected : option LogTailBinding;
  pt_same_file : bool;
  pt_matched : bool
}.

Definition tracker_new (expected : option LogTailBinding) (resolved_path : string) : PrefixTracker := {|
  pt_expected := expected;
  pt_same_file := match expected with Some e => bool_decide (tb_path e = resolved_path) | None => true end;
  pt_matched := false
|}.

Definition set_matched (b : bool) (t : PrefixTracker) : PrefixTracker :=
  {| pt_expected := pt_expected t; pt_same_file := pt_same_file t; pt_matched := b |}.

Definition observe (t : PrefixTracker) (s : ScanState) : PrefixTracker :=
  match pt_expected t with
  | None => t
  | Some e =>
      if pt_same_file t && bool_decide (physical_tail s = tb_physical_tail e)
         && bool_decide (last_sequence s = tb_last_sequence e)
         && bool_decide (previous_hash s = tb_last_hash e)
      then set_matched true t else t
  end.

Definition verdict (t : PrefixTracker) (final : ScanState) : PrefixVerdict :=
  match pt_expected t with
  | None => NotRequested
  | Some e =>
      if negb (pt_same_file t) then PrefixMismatch
      else if pt_matched t then PrefixMatched
      else if physical_tail final <? tb_physical_tail e then PrefixShorter
      else PrefixMismatch
  end.

Definition verdict_before_read (t : PrefixTracker) (s : ScanState) : option PrefixVerdict :=
  e ← pt_expected t;
  if tb_physical_tail e <=? physical_tail s then Some (verdict t s) else None.

(** ** [retention.rs]: the authority over retired bytes *)
Record RetentionBoundary := { rb_sequence : EventSeq; rb_offset : Z }.
Record RetentionPin := {
  pin_sequence : EventSeq;
  pin_offset : Z;
  pin_hash : Hash;
  pin_predecessor_hash : Hash;
  pin_reducer : bool;
  pin_wallet : option WalletAddress
}.
Record TailBinding := { rt_physical_tail : Z; rt_last_sequence : option EventSeq; rt_last_hash : Hash }.
Record FeedEntry := { fe_epoch : Z; fe_frame_count : Z; fe_length : Z; fe_hash : Hash }.
Record RetentionAuthority := {
  ra_format_version : Z;
  ra_epoch : Z;
  ra_advanced_at : Z;
  ra_boundary : RetentionBoundary;
  ra_chain_head : Hash;
  ra_pins : list RetentionPin;
  ra_retained_tail : TailBinding;
  ra_feed : list FeedEntry
}.
Definition RETENTION_FORMAT_VERSION : Z := 1.

Definition resolve_tail (t : TailBinding) (resolved_path : string) : LogTailBinding := {|
  tb_path := resolved_path; tb_physical_tail := rt_physical_tail t;
  tb_last_sequence := rt_last_sequence t; tb_last_hash := rt_last_hash t
|}.

Definition invalid {A} (message : string) : result RetentionError A := Err (RetentionInvalid message).

Definition validate_pin (a : RetentionAuthority) (previous : option (Z * Z)) (pin : RetentionPin) :
    result RetentionError (option (Z * Z)) :=
  let seq := event_seq (pin_sequence pin) in
  let bseq := event_seq (rb_sequence (ra_boundary a)) in
  if (bseq <=? seq) || (pin_offset pin <? HEADER_LEN) || (rb_offset (ra_boundary a) <=? pin_offset pin)
     || match previous with
        | Some (pseq, poff) => (seq <=? pseq) || (pin_offset pin <=? poff)
        | None => false
        end
     || (bool_decide (is_Some (pin_wallet pin)) && negb (pin_reducer pin))
     || ((seq + 1 =? bseq) && bool_decide (pin_hash pin ≠ ra_chain_head a))
  then invalid "invalid or unsorted pins" else Ok (Some (seq, pin_offset pin)).

Definition validate_feed (a : RetentionAuthority) (previous_epoch : Z) (entry : FeedEntry) :
    result RetentionError Z :=
  if (fe_epoch entry <=? previous_epoch) || (ra_epoch a <? fe_epoch entry)
     || (fe_frame_count entry =? 0) || (fe_length entry =? 0)
  then invalid "invalid or unsorted feed epochs" else Ok (fe_epoch entry).

Definition validate (a : RetentionAuthority) : result RetentionError unit :=
  if negb (ra_format_version a =? RETENTION_FORMAT_VERSION) || (ra_epoch a =? 0)
  then invalid "unsupported version or zero epoch"
  else if (event_seq (rb_sequence (ra_boundary a)) =? 0)
          || (rb_offset (ra_boundary a) <=? HEADER_LEN)
          || (rt_physical_tail (ra_retained_tail a) <=? rb_offset (ra_boundary a))
          || match rt_last_sequence (ra_retained_tail a) with
             | Some seq => event_seq seq <? event_seq (rb_sequence (ra_boundary a))
             | None => true
             end
  then invalid "invalid boundary or retained tail"
  else
    _ ← try_fold (validate_pin a) None (ra_pins a);
    _ ← try_fold (validate_feed a) 0 (ra_feed a);
    Ok tt.

(** [binary_search_by_key] on the strictly sorted pins of a validated authority. *)
Definition find_pin (a : RetentionAuthority) (sequence : EventSeq) : option RetentionPin :=
  List.find (λ p, bool_decide (pin_sequence p = sequence)) (ra_pins a).

(** ** Files

    One state of a log file as the scanner sees it: the configured path, the
    outcome of [canonicalize], the bytes with the way reading them ends, and the
    outcome of [RetentionAuthority::load]. *)
Record LogFile := {
  file_path : string;
  file_resolved : result IoError string;
  file_bytes : list Z;
  file_end : option IoError;
  file_authority : result RetentionError (option RetentionAuthority)
}.
Definition file_len (f : LogFile) : Z := Z.of_nat (length (file_bytes f)).
Definition file_seek (f : LogFile) (p : Z) : Rd := rd_seek (file_bytes f) (file_end f) p.

Inductive WalkBoundary : Type := PhysicalEof | ExpectedPrefix.
#[export] Instance WalkBoundary_eq_dec : EqDecision WalkBoundary.
Proof. solve_decision. Defined.
Record WalkRequest := { expected_prefix : option LogTailBinding; boundary : WalkBoundary }.
Definition until_expected_prefix (b : LogTailBinding) : WalkRequest :=
  {| expected_prefix := Some b; boundary := ExpectedPrefix |}.
Definition until_eof (b : option LogTailBinding) : WalkRequest :=
  {| expected_prefix := b; boundary := PhysicalEof |}.

Definition fresh_state (authority : option RetentionAuthority) : ScanState :=
  match authority with
  | Some a => at_frame (rb_sequence (ra_boundary a)) (ra_chain_head a) (rb_offset (ra_boundary a))
  | None => after_header
  end.

Definition require_retained_length (f : LogFile) (retained : option LogTailBinding) :
    result LogError unit :=
  match retained with
  | Some tail =>
      if file_len f <? tb_physical_tail tail
      then Err (Retention (RetentionInvalid "event log is shorter than its committed retained tail"))
      else Ok tt
  | None => Ok tt
  end.

Section Walk.
Context `{TO : TimeOps} {B3 : Blake3} {LJ : LogJson} {ZS : Zstd}.

(** [Reader::read_at] *)
Definition read_at (f : LogFile) (byte_offset : Z) (expected_sequence : EventSeq)
    (expected_previous_hash : Hash) : result LogError (EventEnvelope * Z) :=
  _ ← (verify_file_header (file_path f) (file_seek f 0)).2;
  let s := at_frame expected_sequence expected_previous_hash byte_offset in
  '(step, s', _) ← (read_verified_frame_observed s (file_seek f byte_offset)).2;
  match step with
  | ScanFrame envelope => Ok (envelope, physical_tail s')
  | ScanEof => Err (Truncated expected_sequence byte_offset)
  | ScanIncomplete t => Err (Truncated (it_next_sequence t) (it_byte_offset t))
  end.

Definition verify_pin (a : RetentionAuthority) (f : LogFile) (pin : RetentionPin) :
    result LogError (EventEnvelope * Z) :=
  '(envelope, end_) ← read_at f (pin_offset pin) (pin_sequence pin) (pin_predecessor_hash pin);
  if bool_decide (env_this_hash envelope ≠ pin_hash pin) || (rb_offset (ra_boundary a) <? end_)
  then Err (Retention (RetentionInvalid "pinned frame mismatch")) else Ok (envelope, end_).

Definition authenticate_binding (a : RetentionAuthority) (f : LogFile) (binding : LogTailBinding) :
    result LogError unit :=
  if rb_offset (ra_boundary a) <? tb_physical_tail binding then Ok tt
  else
    pin ← ok_or (seq ← tb_last_sequence binding; find_pin a seq)
            (Retention (RetentionInvalid "binding is not pinned"));
    resolved ← map_err LogIo (file_resolved f);
    if bool_decide (resolved ≠ tb_path binding) || bool_decide (tb_last_hash binding ≠ pin_hash pin)
    then Err (Retention (RetentionInvalid "pinned binding mismatch"))
    else
      '(_, end_) ← verify_pin a f pin;
      if bool_decide (end_ ≠ tb_physical_tail binding)
      then Err (Retention (RetentionInvalid "pinned binding end offset mismatch")) else Ok tt.

(** What the loop of [walk_locked] starts from. *)
Record WalkStart := {
  ws_resolved : string;
  ws_state : ScanState;
  ws_prefix : PrefixTracker;
  ws_retention : PrefixTracker;
  ws_require_retained : bool
}.

Definition walk_start (f : LogFile) (request : WalkRequest) : result LogError WalkStart :=
  resolved ← map_err LogIo (file_resolved f);
  _ ← (verify_file_header (file_path f) (file_seek f 0)).2;
  authority ← map_err Retention (file_authority f);
  let s := fresh_state authority in
  let prefix := tracker_new (expected_prefix request) resolved in
  prefix ← match authority, expected_prefix request with
           | Some a, Some e =>
               _ ← authenticate_binding a f e;
               Ok (set_matched (tb_physical_tail e <=? rb_offset (ra_boundary a)) prefix)
           | _, _ => Ok prefix
           end;
  let prefix := observe prefix s in
  let retained := (λ a, resolve_tail (ra_retained_tail a) resolved) <$> authority in
  _ ← require_retained_length f retained;
  Ok {| ws_resolved := resolved; ws_state := s; ws_prefix := prefix;
        ws_retention := observe (tracker_new retained resolved) s;
        ws_require_retained :=
          bool_decide (boundary request = PhysicalEof)
          || match retained, expected_prefix request with
             | Some tail, Some e => tb_physical_tail tail <=? tb_physical_tail e
             | _, _ => false
             end |}.

(** Frames handed to the observer, with their offsets, and the outcome. *)
Definition Walked : Type := list (Z * EventEnvelope) * result LogError (ScanOutcome * PrefixVerdict).

Fixpoint walk_loop (fuel : nat) (request : WalkRequest) (resolved : string) (must_retain : bool)
    (r : Rd) (s : ScanState) (prefix retention : PrefixTracker) (seen : list (Z * EventEnvelope)) :
    option Walked :=
  match fuel with
  | O => None
  | S fuel =>
      let finish incomplete v :=
        Some (seen, _ ← (if must_retain then require_retained (verdict retention s) else Ok tt);
                    Ok ({| verified_tail := tail_binding resolved s; incomplete_tail := incomplete |}, v)) in
      match (if decide (boundary request = ExpectedPrefix) then verdict_before_read prefix s else None) with
      | Some v => finish None v
      | None =>
          match read_verified_frame_observed s r with
          | (r', Ok (ScanFrame e, s', _)) =>
              walk_loop fuel request resolved must_retain r' s' (observe prefix s') (observe retention s')
                (seen ++ [(physical_tail s, e)])
          | (_, Ok (ScanEof, _, _)) => finish None (verdict prefix s)
          | (_, Ok (ScanIncomplete t, _, _)) => finish (Some t) (verdict prefix s)
          | (_, Err e) => Some (seen, Err e)
          end
      end
  end.

Definition walk_locked (f : LogFile) (request : WalkRequest) : option Walked :=
  match walk_start f request with
  | Ok w =>
      let r := file_seek f (physical_tail (ws_state w)) in
      walk_loop (S (length (rd_rest r))) request (ws_resolved w) (ws_require_retained w) r (ws_state w)
        (ws_prefix w) (ws_retention w) []
  | Err e => Some ([], Err e)
  end.

(** The [Scanner] entry points that read a whole log. *)
Definition inspect (f : LogFile) : option (result LogError ScanOutcome) :=
  '(_, x) ← walk_locked f (until_eof None); Some ('(outcome, _) ← x; Ok outcome).

Definition require_complete (o : ScanOutcome) : result LogError unit :=
  match incomplete_tail o with
  | None => Ok tt
  | Some t => Err (Truncated (it_next_sequence t) (it_byte_offset t))
  end.

Definition scanner_verify (f : LogFile) : option (result LogError LogTailBinding) :=
  x ← inspect f; Some (o ← x; _ ← require_complete o; Ok (verified_tail o)).

Definition verify_prefix (f : LogFile) (binding : LogTailBinding) : option (result LogError LogTailBinding) :=
  '(_, x) ← walk_locked f (until_eof (Some binding));
  Some ('(o, v) ← x; _ ← require_complete o; _ ← require_match v; Ok (verified_tail o)).

Definition walk_prefix (f : LogFile) (sealed : LogTailBinding) :
    option (list (Z * EventEnvelope) * result LogError (option LogTailBinding)) :=
  match file_authority f with
  | Err e => Some ([], Err (Retention e))
  | Ok authority =>
      let retired := match authority with
                     | Some a => tb_physical_tail sealed <=? rb_offset (ra_boundary a)
                     | None => false
                     end in
      let offset := match authority with Some a => rb_offset (ra_boundary a) | None => 0 end in
      if retired then Some ([], Err (Retired (tb_physical_tail sealed) offset))
      else
        '(seen, x) ← walk_locked f (until_expected_prefix sealed);
        Some (seen, '(o, v) ← x; _ ← require_complete o;
                    Ok (if decide (v = PrefixMatched) then Some (verified_tail o) else None))
  end.

End Walk.

(** ** Every walk ends *)

Section Termination.
Context `{TO : TimeOps} {B3 : Blake3} {LJ : LogJson} {ZS : Zstd}.

(** A read never gives bytes back. *)
Definition shrinks {E A} (m : stm Rd E A) : Prop :=
  ∀ r, (length (rd_rest (m r).1) ≤ length (rd_rest r))%nat.

Lemma shrinks_bind {E A B} (m : stm Rd E A) (f : A → stm Rd E B) :
  shrinks m → (∀ a, shrinks (f a)) → shrinks (m ≫= f).
Proof.
  intros Hm Hf r. rewrite stm_bind_run. specialize (Hm r).
  destruct (m r) as [r' [a|e]]; simpl in *; [|done]. specialize (Hf a r'). lia.
Qed.
Lemma shrinks_advance n r : (length (rd_rest (rd_advance n r)) ≤ length (rd_rest r))%nat.
Proof. unfold rd_advance. simpl. rewrite length_drop. lia. Qed.
Lemma shrinks_pure {E A} (x : result E A) : shrinks (λ r, (r, x)).
Proof. intros r. simpl. lia. Qed.
Lemma shrinks_read_exact_frame n off : shrinks (read_exact_frame n off).
Proof. intros r. apply shrinks_advance. Qed.
Lemma shrinks_read_up_to n : shrinks (lift_io (read_up_to n)).
Proof. intros r. apply shrinks_advance. Qed.
Lemma shrinks_read_crc off c : shrinks (read_crc off c).
Proof.
  intros r. unfold read_crc. pose proof (shrinks_read_exact_frame 4 off r) as H.
  destruct (read_exact_frame 4 off r) as [r' [|[]]]; exact H.
Qed.

Lemma shrinks_body off b bs : shrinks (read_frame_body off b bs).
Proof.
  unfold read_frame_body. case_match; [apply shrinks_pure|].
  apply shrinks_bind; [apply shrinks_read_up_to|]. intros c. case_match; [apply shrinks_pure|].
  apply shrinks_bind; [apply shrinks_read_crc|]. intros crc. case_match; [apply shrinks_pure|].
  apply shrinks_bind; intros; apply shrinks_pure.
Qed.

Lemma read_frame_consumes off r r' x : read_frame_observed off r = (r', Ok (Some x)) →
  (length (rd_rest r') < length (rd_rest r))%nat.
Proof.
  unfold read_frame_observed. rewrite stm_bind_run. unfold lift_io at 1.
  destruct r as [[|b l] p e]; [by destruct e|]. rewrite read1_cons. cbn [map_err]. intros H.
  pose proof (shrinks_bind _ (λ l, read_frame_body off b l) (shrinks_read_exact_frame 3 off) (shrinks_body off b)
    {| rd_rest := l; rd_pos := p + 1; rd_end := e |}) as Hs.
  rewrite H in Hs. simpl in *. lia.
Qed.

Lemma read_verified_consumes s r r' e s' raw :
  read_verified_frame_observed s r = (r', Ok (ScanFrame e, s', raw)) →
  (length (rd_rest r') < length (rd_rest r))%nat.
Proof.
  unfold read_verified_frame_observed. destruct (read_frame_observed _ r) as [r1 [[[json w]|]|e1]] eqn:E.
  - intros [= <- _]. by apply read_frame_consumes in E.
  - done.
  - by destruct e1.
Qed.

Lemma walk_loop_ends fuel request resolved must r s p q seen :
  (length (rd_rest r) < fuel)%nat →
  is_Some (walk_loop fuel request resolved must r s p q seen).
Proof.
  revert r s p q seen. induction fuel as [|fuel IH]; intros r s p q seen Hf; [lia|].
  cbn [walk_loop]. case_match; [done|].
  destruct (read_verified_frame_observed s r) as [r' [[[[e| |t] s'] raw]|e]] eqn:E; try done.
  apply IH. apply read_verified_consumes in E. lia.
Qed.

(** C40: every walk of a log returns: whatever the bytes, the recorded prefix and
    the retention authority, the loop of the scanner ends with an outcome or a
    typed error. *)
Theorem walk_terminates f request : is_Some (walk_locked f request).
Proof. unfold walk_locked. case_match; [|done]. apply walk_loop_ends. lia. Qed.

End Termination.

(** ** What a verified binding pins *)

Section History.
Context `{TO : TimeOps} {B3 : Blake3} {LJ : LogJson} {ZS : Zstd}.

(** [es] verifies frame after frame from state [s] to state [t]. *)
Inductive chained : ScanState → list EventEnvelope → ScanState → Prop :=
| chained_nil s : chained s [] s
| chained_snoc s es t e tail u :
    chained s es t →
    verify_envelope e {| event_seq := next_sequence t |} (previous_hash t) (physical_tail t) = Ok tt →
    after_frame t e tail = Ok u →
    chained s (es ++ [e]) u.

Lemma chained_trans s es t fs u : chained s es t → chained t fs u → chained s (es ++ fs) u.
Proof.
  intros Hs Ht. induction Ht as [|t fs v e tail w _ IH He Hw]; [by rewrite app_nil_r|].
  rewrite app_assoc. econstructor; eauto.
Qed.

Lemma chained_snoc_inv s es e u : chained s (es ++ [e]) u → ∃ t tail, chained s es t
  ∧ verify_envelope e {| event_seq := next_sequence t |} (previous_hash t) (physical_tail t) = Ok tt
  ∧ after_frame t e tail = Ok u.
Proof.
  intros H. remember (es ++ [e]) as l eqn:Hes. destruct H as [s|s es' t e' tail u Hc He Hu].
  - by destruct es.
  - apply app_inj_2 in Hes as [-> [= ->]]; [|done]. eauto.
Qed.

Lemma after_frame_Ok s e tail s' : after_frame s e tail = Ok s' →
  next_sequence s' = next_sequence s + 1 ∧ previous_hash s' = env_this_hash e ∧ physical_tail s' = tail.
Proof.
  unfold after_frame. intros (n & Hn%ok_or_Ok & [= <-])%result_bind_Ok.
  unfold checked_add_u64 in Hn. apply fits_Some in Hn as [-> _]. done.
Qed.

Lemma chained_length s es t : chained s es t → next_sequence t = next_sequence s + Z.of_nat (length es).
Proof.
  induction 1 as [s|s es t e tail u _ IH _ Hu]; [simpl; lia|].
  apply after_frame_Ok in Hu as [-> _]. rewrite length_app. simpl. lia.
Qed.

(** The bytes hashed into an envelope's own hash. *)
Definition chain_input (e : EventEnvelope) : list Z :=
  hash_bytes (env_prev_hash e)
  ++ result_or [] (canonical_json (canonical_fields (hash_input_of e))) ++ env_payload e.

Lemma verify_envelope_Ok e seq prev off : verify_envelope e seq prev off = Ok tt →
  env_seq e = seq ∧ env_raw_payload_hash e = blake3 (env_payload e) ∧ env_prev_hash e = prev
  ∧ is_ok (canonical_json (canonical_fields (hash_input_of e))) = true
  ∧ env_this_hash e = blake3 (chain_input e).
Proof.
  unfold verify_envelope, verify_chain, compute_hashes, chain_input. intros H.
  case_decide as Hs; [|done]. case_decide as Hr; [|done]. case_decide as Hp; [|done].
  destruct (canonical_json _) as [c|]; simpl in *; [|done].
  case_decide as Ht; [|done]. done.
Qed.

Lemma chained_wf `{!Blake3Laws} s es t : hash_wf (previous_hash s) → chained s es t →
  hash_wf (previous_hash t).
Proof.
  intros Hs. induction 1 as [|s es t e tail u _ _ He Hu]; [done|].
  apply after_frame_Ok in Hu as (_ & -> & _). apply verify_envelope_Ok in He as (_ & _ & _ & _ & ->).
  apply blake3_wf.
Qed.

(** Equal chain inputs are equal envelopes. *)
Lemma chain_input_inj `{!LogJsonLaws} e1 e2 seq1 seq2 p1 p2 o1 o2 :
  verify_envelope e1 seq1 p1 o1 = Ok tt → verify_envelope e2 seq2 p2 o2 = Ok tt →
  hash_wf p1 → hash_wf p2 → chain_input e1 = chain_input e2 → e1 = e2.
Proof.
  intros (_ & Hr1 & Hp1 & Hc1 & Ht1)%verify_envelope_Ok (_ & Hr2 & Hp2 & Hc2 & Ht2)%verify_envelope_Ok
    [Hl1 _] [Hl2 _] Hi.
  assert (env_this_hash e1 = env_this_hash e2) as Ht by (by rewrite Ht1, Ht2, Hi).
  unfold chain_input in Hi. subst p1 p2. apply app_inj_1 in Hi as [Hp Hi]; [|by rewrite Hl1, Hl2].
  apply (is_ok_result_or []) in Hc1, Hc2.
  pose proof (canonical_json_object _ _ _ _ _ _ Hc1 Hc2 Hi) as Hf.
  rewrite Hf in Hi. apply app_inv_head in Hi.
  unfold canonical_fields, hash_input_of in Hf. simpl in Hf. injection Hf as Hct Hob Hpv _ _ Hrc Hsv Hsq Hsi.
  destruct e1 as [[q1] ? ? ? ? ? ? ? [] ? ?], e2 as [[q2] ? ? ? ? ? ? ? [] ? ?]; simpl in *. congruence.
Qed.

(** Two chains that end in one hash agree from the end back to the later of their starts. *)
Lemma chained_common `{!Blake3Laws, !LogJsonLaws} s1 s2 es1 t1 es2 t2 :
  hash_wf (previous_hash s1) → hash_wf (previous_hash s2) → chained s1 es1 t1 → chained s2 es2 t2 →
  previous_hash t1 = previous_hash t2 →
  (∃ older1 older2 es, es1 = older1 ++ es ∧ es2 = older2 ++ es ∧ (older1 = [] ∨ older2 = []))
  ∨ ∃ e1 e2, e1 ∈ es1 ∧ e2 ∈ es2 ∧ blake3_collides (chain_input e1) (chain_input e2).
Proof.
  intros Hwf1 Hwf2. revert t1 es2 t2. induction es1 as [|e1 es1 IH] using rev_ind; intros t1 es2 t2 H1 H2 Hh.
  { left. exists [], es2, []. split_and!; [done|by rewrite app_nil_r|by left]. }
  destruct es2 as [|e2 es2 _] using rev_ind.
  { left. exists (es1 ++ [e1]), [], []. split_and!; [by rewrite app_nil_r|done|by right]. }
  apply chained_snoc_inv in H1 as (u1 & tail1 & H1 & Hv1 & Hu1).
  apply chained_snoc_inv in H2 as (u2 & tail2 & H2 & Hv2 & Hu2).
  apply after_frame_Ok in Hu1 as (_ & Hh1 & _). apply after_frame_Ok in Hu2 as (_ & Hh2 & _).
  destruct (verify_envelope_Ok _ _ _ _ Hv1) as (_ & _ & Hp1 & _ & Ht1).
  destruct (verify_envelope_Ok _ _ _ _ Hv2) as (_ & _ & Hp2 & _ & Ht2).
  destruct (decide (chain_input e1 = chain_input e2)) as [Hi|Hne].
  - assert (e1 = e2) as ->.
    { eapply chain_input_inj; [exact Hv1|exact Hv2|..|done]; eauto using chained_wf. }
    destruct (IH u1 es2 u2 H1 H2) as [(older1 & older2 & es & -> & -> & Ho)|(a & b & ? & ? & ?)]; [congruence| |].
    + left. exists older1, older2, (es ++ [e2]). by rewrite !app_assoc.
    + right. exists a, b. set_solver.
  - right. exists e1, e2. split; [set_solver|]. split; [set_solver|]. split; [done|congruence].
Qed.

(** The scan state a binding records. *)
Definition reaches (t : ScanState) (b : LogTailBinding) : Prop :=
  last_sequence t = tb_last_sequence b ∧ previous_hash t = tb_last_hash b
  ∧ physical_tail t = tb_physical_tail b.

(** A tracker that has matched met the binding on the way from [s]. *)
Definition met (p : PrefixTracker) (s : ScanState) (es : list EventEnvelope) : Prop :=
  pt_matched p = true → ∃ b es1 es2 u, pt_expected p = Some b ∧ es = es1 ++ es2
    ∧ chained s es1 u ∧ reaches u b.

Lemma met_observe p s es u : met p s es → chained s es u → met (observe p u) s es.
Proof.
  intros Hp Hu. unfold observe. destruct (pt_expected p) as [b|] eqn:Hb; [|done].
  case_match eqn:Hm; [|done]. intros _. apply andb_true_iff in Hm as [[[_ H1]%andb_true_iff H2]%andb_true_iff H3].
  apply bool_decide_eq_true in H1, H2, H3. exists b, es, [], u. simpl. by rewrite app_nil_r.
Qed.

Lemma met_app p s es fs : met p s es → met p s (es ++ fs).
Proof.
  intros Hp Hm. destruct (Hp Hm) as (b & es1 & es2 & u & Hb & -> & ? & ?).
  exists b, es1, (es2 ++ fs), u. by rewrite app_assoc.
Qed.

Lemma walk_loop_chained s0 fuel request resolved must r s p q seen seen' o v :
  chained s0 seen.*2 s → met p s0 seen.*2 →
  walk_loop fuel request resolved must r s p q seen = Some (seen', Ok (o, v)) →
  ∃ t p', chained s0 seen'.*2 t ∧ met p' s0 seen'.*2 ∧ pt_expected p' = pt_expected p
    ∧ v = verdict p' t ∧ verified_tail o = tail_binding resolved t.
Proof.
  revert r s p q seen. induction fuel as [|fuel IH]; intros r s p q seen Hs Hp; [done|].
  cbn [walk_loop].
  assert (∀ inc w, Some (seen, _ ← (if must then require_retained (verdict q s) else Ok tt);
      Ok ({| verified_tail := tail_binding resolved s; incomplete_tail := inc |}, w))
    = Some (seen', Ok (o, v)) → w = verdict p s →
    ∃ t p', chained s0 seen'.*2 t ∧ met p' s0 seen'.*2 ∧ pt_expected p' = pt_expected p
      ∧ v = verdict p' t ∧ verified_tail o = tail_binding resolved t) as Hfin.
  { intros inc w H ->. injection H as <- Hx. apply result_bind_Ok in Hx as (? & _ & Hx). injection Hx as <- <-. eauto 10. }
  destruct (if decide _ then verdict_before_read p s else None) as [w|] eqn:Hw.
  { intros H. apply (Hfin None w); [exact H|]. case_decide; [|done]. unfold verdict_before_read in Hw.
    apply bind_Some in Hw as (b & _ & Hw). destruct (_ <=? _) in Hw; [by injection Hw|done]. }
  destruct (read_verified_frame_observed s r) as [r' [[[[e| |t] s'] raw]|e]] eqn:E; [|eauto..|done].
  intros H. assert (chained s0 (seen ++ [(physical_tail s, e)]).*2 s') as Hs'.
  { rewrite fmap_app. simpl. unfold read_verified_frame_observed in E.
    destruct (read_frame_observed _ r) as [r1 [[[json w]|]|e1]]; [|done|by destruct e1].
    injection E as -> (x & Hx & ([] & Hv & (s1 & Ha & [= <- <- <-])%result_bind_Ok)%result_bind_Ok)%result_bind_Ok.
    econstructor; eauto. }
  apply IH in H as (t & p' & ? & ? & He & ? & ?); [|done|].
  2:{ apply met_observe; [|done]. rewrite fmap_app. by apply met_app. }
  exists t, p'. split_and!; try done. rewrite He. unfold observe. by repeat case_match.
Qed.

Lemma chained_u64 s es t : is_u64 (next_sequence s) → chained s es t → is_u64 (next_sequence t).
Proof.
  intros Hs. induction 1 as [|s es t e tail u _ IH _ Hu]; [done|]. unfold after_frame in Hu.
  apply result_bind_Ok in Hu as (n & Hn%ok_or_Ok & [= <-]). by apply fits_Some in Hn as [-> ?].
Qed.

(** How many frames a binding covers. *)
Definition binding_length (b : LogTailBinding) : nat :=
  match tb_last_sequence b with Some q => Z.to_nat (event_seq q + 1) | None => 0 end.

Lemma reaches_length s es u b : is_u64 (next_sequence s) → chained s es u → reaches u b →
  next_sequence s + Z.of_nat (length es) = Z.of_nat (binding_length b).
Proof.
  intros Hs Hc [Hl _]. pose proof (chained_length _ _ _ Hc) as Hn. apply chained_u64 in Hc; [|done].
  unfold binding_length. rewrite <- Hl. unfold last_sequence, checked_sub_u64.
  destruct (fits 0 U64_MAX (next_sequence u - 1)) as [n|] eqn:E; simpl.
  - apply fits_Some in E as [-> ?]. lia.
  - apply fits_None in E. unfold is_u64 in *. lia.
Qed.

(** *** The start of a walk

    [RetentionAuthority::load] returns an authority that validates; its fields keep
    their widths.  A walk starts at the boundary of the authority, or after the header. *)
Definition authority_wf (authority : option RetentionAuthority) : Prop :=
  match authority with
  | Some a => validate a = Ok tt ∧ is_u64 (event_seq (rb_sequence (ra_boundary a))) ∧ hash_wf (ra_chain_head a)
  | None => True
  end.
(** The binding lies after the bytes the authority retired. *)
Definition unretired (authority : option RetentionAuthority) (expected : option LogTailBinding) : Prop :=
  match authority, expected with
  | Some a, Some e => rb_offset (ra_boundary a) < tb_physical_tail e
  | _, _ => True
  end.
Lemma genesis_hash_wf : hash_wf genesis_hash.
Proof. split; [done|]. apply Forall_replicate. by unfold is_u8. Qed.
Lemma fresh_state_wf authority : authority_wf authority →
  is_u64 (next_sequence (fresh_state authority)) ∧ hash_wf (previous_hash (fresh_state authority)).
Proof. destruct authority as [a|]; [by intros (_ & ? & ?)|]. intros _. split; [by unfold is_u64|apply genesis_hash_wf]. Qed.
Lemma authority_validated a : validate a = Ok tt →
  HEADER_LEN < rb_offset (ra_boundary a) < rt_physical_tail (ra_retained_tail a).
Proof.
  unfold validate. destruct (_ || _); [done|]. destruct (_ || _) eqn:E; [done|]. intros _.
  apply orb_false_iff in E as [[[_ E1%Z.leb_gt]%orb_false_iff E2%Z.leb_gt]%orb_false_iff _]. lia.
Qed.

Lemma walk_start_fresh f authority request w : file_authority f = Ok authority → walk_start f request = Ok w →
  ws_state w = fresh_state authority ∧ file_resolved f = Ok (ws_resolved w)
  ∧ (unretired authority (expected_prefix request) →
     ws_prefix w = observe (tracker_new (expected_prefix request) (ws_resolved w)) (fresh_state authority)).
Proof.
  unfold walk_start. intros -> H. apply result_bind_Ok in H as (resolved & Hr%map_err_Ok & H).
  apply result_bind_Ok in H as ([] & _ & H). simpl in H. apply result_bind_Ok in H as (prefix & Hp & H).
  apply result_bind_Ok in H as ([] & _ & [= <-]). simpl. split_and!; [done..|].
  destruct authority as [a|]; [destruct (expected_prefix request) as [e|]|]; simplify_eq/=; try done.
  apply result_bind_Ok in Hp as ([] & _ & [= <-]).
  intros Hu. replace (tb_physical_tail e <=? rb_offset (ra_boundary a)) with false by lia. done.
Qed.

Lemma walk_matched f authority request b seen o : file_authority f = Ok authority → expected_prefix request = Some b →
  unretired authority (Some b) → walk_locked f request = Some (seen, Ok (o, PrefixMatched)) →
  ∃ es u, es `prefix_of` seen.*2 ∧ chained (fresh_state authority) es u ∧ reaches u b.
Proof.
  intros Ha Hb Hu H. unfold walk_locked in H. destruct (walk_start f request) as [w|] eqn:Hw; [|done].
  apply (walk_start_fresh _ _ _ _ Ha) in Hw as (Hs & _ & Hp). rewrite Hb in Hp. rewrite Hs, (Hp Hu) in H.
  apply (walk_loop_chained (fresh_state authority)) in H as (t & p' & Hc & Hm & He & Hv & _).
  - assert (pt_expected p' = Some b) as Hb'.
    { rewrite He. unfold observe. simpl. by case_match. }
    symmetry in Hv. unfold verdict in Hv. rewrite Hb' in Hv.
    destruct (pt_same_file p'); [|done]. destruct (pt_matched p') eqn:Hm'; [|simpl in Hv; by case_match].
    destruct (Hm Hm') as (b1 & es1 & es2 & u & Hb1 & Hes & ? & ?).
    exists es1, u. split; [by eexists|]. split; [done|]. congruence.
  - constructor.
  - apply met_observe; [done|constructor].
Qed.

(** C28: a recorded tail binding pins the history before it.  When two scans, of any two files and each
    with or without a retention authority, meet the same binding beyond their retired bytes, the
    envelopes from the later of the two starts (the retention boundary, or the first frame) up to the
    binding are the same in both, the scan that starts earlier showing older ones before them, each as
    many as the binding's sequence says; or the scans exhibit two envelopes whose hash inputs are a
    BLAKE3 collision.  The authorities are as loading leaves them: validated, with fields of their
    widths. *)
Theorem binding_pins_history `{!Blake3Laws, !LogJsonLaws} f1 f2 a1 a2 r1 r2 b seen1 seen2 o1 o2 :
  file_authority f1 = Ok a1 → file_authority f2 = Ok a2 → authority_wf a1 → authority_wf a2 →
  unretired a1 (Some b) → unretired a2 (Some b) → expected_prefix r1 = Some b → expected_prefix r2 = Some b →
  walk_locked f1 r1 = Some (seen1, Ok (o1, PrefixMatched)) →
  walk_locked f2 r2 = Some (seen2, Ok (o2, PrefixMatched)) →
  (∃ older1 older2 es, older1 ++ es `prefix_of` seen1.*2 ∧ older2 ++ es `prefix_of` seen2.*2
     ∧ (older1 = [] ∨ older2 = [])
     ∧ next_sequence (fresh_state a1) + Z.of_nat (length (older1 ++ es)) = Z.of_nat (binding_length b)
     ∧ next_sequence (fresh_state a2) + Z.of_nat (length (older2 ++ es)) = Z.of_nat (binding_length b))
  ∨ ∃ e1 e2, e1 ∈ seen1.*2 ∧ e2 ∈ seen2.*2 ∧ blake3_collides (chain_input e1) (chain_input e2).
Proof.
  intros Ha1 Ha2 [Hn1 Hh1]%fresh_state_wf [Hn2 Hh2]%fresh_state_wf Hu1 Hu2 Hb1 Hb2 H1 H2.
  apply (walk_matched _ a1 _ b) in H1 as (es1 & u1 & Hp1 & Hc1 & Hr1); [|done..].
  apply (walk_matched _ a2 _ b) in H2 as (es2 & u2 & Hp2 & Hc2 & Hr2); [|done..].
  pose proof (reaches_length _ _ _ _ Hn1 Hc1 Hr1) as Hl1. pose proof (reaches_length _ _ _ _ Hn2 Hc2 Hr2) as Hl2.
  destruct (chained_common _ _ es1 u1 es2 u2 Hh1 Hh2 Hc1 Hc2) as [(older1 & older2 & es & -> & -> & Ho)|(e1 & e2 & He1 & He2 & Hx)].
  - destruct Hr1 as (_ & -> & _), Hr2 as (_ & -> & _). done.
  - left. exists older1, older2, es. by split_and!.
  - right. exists e1, e2. split_and!; [..|done]; eapply elem_of_prefix; eauto.
Qed.

End History.

(** ** Scanning what was written *)

Section Written.
Context `{TO : TimeOps} {B3 : Blake3} {LJ : LogJson} {ZS : Zstd}.

(** The frame of an envelope. *)
Definition envelope_frame (e : EventEnvelope) : result LogError (list Z) :=
  json ← map_err Serde (envelope_to_vec e); encode_frame json.

(** The bytes [bs] are frames of [es], which extend the log from [s] to [t]. *)
Inductive written : ScanState → list Z → list EventEnvelope → ScanState → Prop :=
| written_nil s : written s [] [] s
| written_cons s e json frame bs es t u :
    frame_ok json frame → envelope_from_slice json = Ok e →
    verify_envelope e {| event_seq := next_sequence s |} (previous_hash s) (physical_tail s) = Ok tt →
    after_frame s e (physical_tail s + Z.of_nat (length frame)) = Ok t →
    written t bs es u →
    written s (frame ++ bs) (e :: es) u.

Lemma written_app s bs es t bs' es' u : written s bs es t → written t bs' es' u →
  written s (bs ++ bs') (es ++ es') u.
Proof.
  induction 1 as [|s e json frame bs es t v ? ? ? ? _ IH]; [done|]. intros Hu.
  rewrite <- app_assoc. simpl. econstructor; eauto.
Qed.

Lemma written_tail s bs es t : written s bs es t →
  physical_tail t = physical_tail s + Z.of_nat (length bs) ∧ (length es ≤ length bs)%nat.
Proof.
  induction 1 as [|s e json frame bs es t u Hf%frame_ok_length ? ? Ha _ [-> IH]]; [simpl; lia|].
  apply after_frame_Ok in Ha as (_ & _ & ->). rewrite length_app. simpl. lia.
Qed.

Lemma written_chained s bs es t : written s bs es t → chained s es t.
Proof.
  induction 1 as [|s e json frame bs es t u ? ? Hv Ha _ IH]; [constructor|].
  apply (chained_trans s [e] t es u); [|done]. eapply (chained_snoc s [] s e); [constructor|done..].
Qed.

Lemma envelope_frame_ok `{!ZstdLaws, !LogJsonLaws} e frame : envelope_wf e → envelope_frame e = Ok frame →
  ∃ json, frame_ok json frame ∧ envelope_from_slice json = Ok e.
Proof.
  intros Hwf (json & Hj%map_err_Ok & Hf)%result_bind_Ok.
  eauto using encode_frame_ok, envelope_json_roundtrip.
Qed.

Lemma read_written_frame s e json frame t rest fin :
  frame_ok json frame → envelope_from_slice json = Ok e →
  verify_envelope e {| event_seq := next_sequence s |} (previous_hash s) (physical_tail s) = Ok tt →
  after_frame s e (physical_tail s + Z.of_nat (length frame)) = Ok t →
  read_verified_frame_observed s
    {| rd_rest := frame ++ rest; rd_pos := physical_tail s; rd_end := fin |}
  = ({| rd_rest := rest; rd_pos := physical_tail t; rd_end := fin |}, Ok (ScanFrame e, t, frame)).
Proof.
  intros Hf Hj Hv Ha. unfold read_verified_frame_observed. rewrite (read_frame_ok _ _ _ _ _ _ Hf), Hj.
  simpl. rewrite Hv. simpl. rewrite Ha. simpl.
  apply after_frame_Ok in Ha as (_ & _ & ->). done.
Qed.

(** The frames from [s] to [t] pass the state the binding records. *)
Definition passes (b : LogTailBinding) (s : ScanState) (bs : list Z) (es : list EventEnvelope) (t : ScanState) : Prop :=
  ∃ bs1 es1 u bs2 es2, bs = bs1 ++ bs2 ∧ es = es1 ++ es2 ∧ written s bs1 es1 u ∧ written u bs2 es2 t ∧ reaches u b.
Lemma frame_ok_unique json json' frame frame' rest rest' : frame_ok json frame → frame_ok json' frame' →
  frame ++ rest = frame' ++ rest' → frame = frame' ∧ rest = rest'.
Proof.
  intros H%(read_frame_ok _ _ 0 0 rest None) H'%(read_frame_ok _ _ 0 0 rest' None) E. rewrite E, H' in H. by injection H.
Qed.
Lemma passes_cons b s e json frame bs es t u : frame_ok json frame →
  after_frame s e (physical_tail s + Z.of_nat (length frame)) = Ok t →
  passes b s (frame ++ bs) (e :: es) u → reaches s b ∨ passes b t bs es u.
Proof.
  intros Hf Ha (bs1 & es1 & v & bs2 & es2 & Hbs & Hes & H1 & H2 & Hr).
  destruct H1 as [s|s e' json' frame' bs1 es1 t' v Hf' _ _ Ha' H1]; [by left|right].
  injection Hes as -> ->. rewrite <- app_assoc in Hbs.
  destruct (frame_ok_unique _ _ _ _ _ _ Hf Hf' Hbs) as [-> ->]. rewrite Ha in Ha'. injection Ha' as ->.
  by exists bs1, es1, v, bs2, es2.
Qed.

(** Trackers of one binding: a match is kept, and a state once observed needs no
    second look. *)
Lemma observe_keeps p s : pt_expected (observe p s) = pt_expected p
  ∧ pt_same_file (observe p s) = pt_same_file p
  ∧ (pt_matched p = true → pt_matched (observe p s) = true) ∧ observe (observe p s) s = observe p s.
Proof.
  unfold observe. destruct (pt_expected p) as [b|] eqn:Hb; [|by rewrite Hb].
  destruct (_ && _) eqn:Hm; simpl; rewrite Hb; [rewrite Hm|rewrite Hm]; done.
Qed.

Lemma observe_matched p s b : observe p s = p → pt_expected p = Some b → pt_same_file p = true →
  reaches s b → pt_matched p = true.
Proof.
  intros Hp Hb Hs (Hl & Hh & Ht). unfold observe in Hp. rewrite Hb, Hs in Hp.
  rewrite !bool_decide_eq_true_2 in Hp by done. simpl in Hp. by rewrite <- Hp.
Qed.
(** What the frames from [s] to [t] make of a tracker. *)
Record tracked (p p' : PrefixTracker) (s : ScanState) (bs : list Z) (es : list EventEnvelope) (t : ScanState) : Prop := {
  tk_expected : pt_expected p' = pt_expected p;
  tk_same_file : pt_same_file p' = pt_same_file p;
  tk_kept : pt_matched p = true → pt_matched p' = true;
  tk_observed : observe p' t = p';
  tk_matched b : pt_expected p = Some b → pt_same_file p = true → passes b s bs es t → pt_matched p' = true
}.
Lemma tracked_nil p s : observe p s = p → tracked p p s [] [] s.
Proof.
  intros Hp. split; try done. intros b Hb Hf (bs1 & es1 & u & bs2 & es2 & Hbs & _ & H1 & H2 & Hr).
  symmetry in Hbs. apply app_nil in Hbs as [-> ->]. eapply observe_matched; [exact Hp|done|done|].
  inversion H1 as [|? ? ? frame ? ? ? ? Hf1]; subst; [done|]. apply frame_ok_length in Hf1. by destruct frame; simpl in *; [lia|].
Qed.
Lemma tracked_cons p p' s e json frame bs es t u : observe p s = p → frame_ok json frame →
  after_frame s e (physical_tail s + Z.of_nat (length frame)) = Ok t →
  tracked (observe p t) p' t bs es u → tracked p p' s (frame ++ bs) (e :: es) u.
Proof.
  intros Hp Hf Ha [H1 H2 H3 H4 H5]. destruct (observe_keeps p t) as (K1 & K2 & K3 & _).
  split; [congruence|congruence|auto|done|]. intros b Hb Hs Hpass.
  destruct (passes_cons _ _ _ _ _ _ _ _ _ Hf Ha Hpass) as [Hr|Hpass'].
  - apply H3, K3. by eapply observe_matched.
  - apply (H5 b); [congruence|congruence|done].
Qed.

Lemma walk_written s bs es t request resolved must fuel rest fin p q seen :
  written s bs es t → boundary request = PhysicalEof → observe p s = p → observe q s = q →
  ∃ p' q' offs,
    walk_loop (length es + fuel) request resolved must
      {| rd_rest := bs ++ rest; rd_pos := physical_tail s; rd_end := fin |} s p q seen
    = walk_loop fuel request resolved must
        {| rd_rest := rest; rd_pos := physical_tail t; rd_end := fin |} t p' q' (seen ++ zip offs es)
    ∧ length offs = length es ∧ tracked p p' s bs es t ∧ tracked q q' s bs es t.
Proof.
  intros Hw Hb. revert p q seen. induction Hw as [s|s e json frame bs es t u Hf Hj Hv Ha _ IH];
    intros p q seen Hp Hq.
  - exists p, q, []. simpl. rewrite app_nil_r. split_and!; [done..|by apply tracked_nil|by apply tracked_nil].
  - destruct (IH (observe p t) (observe q t) (seen ++ [(physical_tail s, e)])) as (p' & q' & offs & Hrun & Hl & Tp & Tq);
      [apply observe_keeps..|].
    exists p', q', (physical_tail s :: offs). split_and!; [|simpl; congruence|by eapply tracked_cons|by eapply tracked_cons].
    cbn [length Nat.add walk_loop]. rewrite decide_False by (rewrite Hb; done).
    rewrite <- app_assoc, (read_written_frame _ _ _ _ _ _ _ Hf Hj Hv Ha), Hrun. by rewrite <- app_assoc.
Qed.

(** A final write cut short: nothing, or a proper prefix of a frame. *)
Definition torn_tail (t : list Z) : Prop :=
  t = [] ∨ ∃ json frame q, encode_frame json = Ok frame ∧ frame = t ++ q ∧ q ≠ [].

Definition incomplete_at (t : list Z) (s : ScanState) : option IncompleteTail :=
  match t with
  | [] => None
  | _ => Some {| it_byte_offset := physical_tail s;
                 it_next_sequence := {| event_seq := next_sequence s |} |}
  end.

Lemma walk_torn `{!ZstdLaws} fuel request resolved must t s p q seen : torn_tail t →
  boundary request = PhysicalEof → require_retained (verdict q s) = Ok tt →
  walk_loop (S fuel) request resolved must
    {| rd_rest := t; rd_pos := physical_tail s; rd_end := None |} s p q seen
  = Some (seen, Ok ({| verified_tail := tail_binding resolved s; incomplete_tail := incomplete_at t s |},
                    verdict p s)).
Proof.
  intros Ht Hb Hq. cbn [walk_loop]. rewrite decide_False by (rewrite Hb; done). rewrite Hq.
  assert (∃ r', read_verified_frame_observed s
      {| rd_rest := t; rd_pos := physical_tail s; rd_end := None |}
    = (r', Ok (match incomplete_at t s with Some i => ScanIncomplete i | None => ScanEof end, s, [])))
    as [r' ->].
  { unfold read_verified_frame_observed. destruct t as [|x t]; [by eexists|].
    destruct Ht as [?|(json & frame & z & Hf & Hz & Hne)]; [done|].
    pose proof (read_frame_torn json frame (physical_tail s) (physical_tail s) (x :: t) z Hf Hz) as Hr.
    destruct (read_frame_observed _ _) as [r' y]. simpl in Hr. rewrite Hr by done. by eexists. }
  destruct t; by destruct must.
Qed.

(** *** Where the frames of a file begin

    [pre] is what lies before the start of a walk: the header, and under a retention
    authority everything up to its boundary, of which a walk reads the header only. *)
Definition log_base (authority : option RetentionAuthority) (pre : list Z) : Prop :=
  file_header `prefix_of` pre ∧ Z.of_nat (length pre) = physical_tail (fresh_state authority).
Lemma log_base_None pre : log_base None pre ↔ pre = file_header.
Proof.
  split; [|by intros ->]. intros [[more ->] Hl]. rewrite length_app in Hl. change (length file_header) with 5%nat in Hl.
  change (physical_tail (fresh_state None)) with 5 in Hl. destruct more; [by rewrite app_nil_r|simpl in Hl; lia].
Qed.
(** The frames reach the tail the authority committed to. *)
Definition retained_met (authority : option RetentionAuthority) (resolved : string) (bs : list Z) (es : list EventEnvelope)
    (t : ScanState) : Prop :=
  match authority with
  | Some a => passes (resolve_tail (ra_retained_tail a) resolved) (fresh_state authority) bs es t
  | None => True
  end.
Lemma walk_start_at f authority request resolved pre bs es t torn : file_authority f = Ok authority →
  file_resolved f = Ok resolved → log_base authority pre → file_bytes f = pre ++ bs ++ torn →
  unretired authority (expected_prefix request) → retained_met authority resolved bs es t →
  let retained := (λ a, resolve_tail (ra_retained_tail a) resolved) <$> authority in
  ∃ must, walk_start f request = Ok {| ws_resolved := resolved; ws_state := fresh_state authority;
    ws_prefix := observe (tracker_new (expected_prefix request) resolved) (fresh_state authority);
    ws_retention := observe (tracker_new retained resolved) (fresh_state authority);
    ws_require_retained := must |}.
Proof.
  intros Ha Hr [[more Hpre] Hl] Hb Hu Hm. unfold walk_start. rewrite Ha, Hr.
  assert ((verify_file_header (file_path f) (file_seek f 0)).2 = Ok tt) as ->.
  { unfold verify_file_header, file_seek, rd_seek. rewrite Hb, Hpre, <- app_assoc.
    change (drop (Z.to_nat 0) ?l) with l. by rewrite (read_exact_app file_header _). }
  simpl. destruct authority as [a|]; [|by eexists].
  assert ((file_len f <? rt_physical_tail (ra_retained_tail a)) = false) as Hlen.
  { destruct Hm as (bs1 & es1 & u & bs2 & es2 & -> & _ & [Hu1 _]%written_tail & _ & _ & _ & Htl). simpl in Htl.
    apply Z.ltb_ge. unfold file_len. rewrite Hb, !length_app, <- Htl, Hu1. lia. }
  destruct (expected_prefix request) as [e|]; simpl in Hu |- *.
  - assert (authenticate_binding a f e = Ok tt) as ->.
    { unfold authenticate_binding. by replace (rb_offset (ra_boundary a) <? tb_physical_tail e) with true by lia. }
    simpl. rewrite Hlen. replace (tb_physical_tail e <=? rb_offset (ra_boundary a)) with false by lia. by eexists.
  - rewrite Hlen. by eexists.
Qed.

Lemma scan_written `{!ZstdLaws} f authority request resolved pre bs es t torn :
  file_authority f = Ok authority → file_resolved f = Ok resolved → file_end f = None → log_base authority pre →
  written (fresh_state authority) bs es t → torn_tail torn → file_bytes f = pre ++ bs ++ torn →
  boundary request = PhysicalEof → unretired authority (expected_prefix request) → retained_met authority resolved bs es t →
  ∃ offsets p, length offsets = length es
    ∧ walk_locked f request
      = Some (zip offsets es,
              Ok ({| verified_tail := tail_binding resolved t; incomplete_tail := incomplete_at torn t |}, verdict p t))
    ∧ pt_expected p = expected_prefix request
    ∧ (∀ b, expected_prefix request = Some b → tb_path b = resolved → passes b (fresh_state authority) bs es t →
         pt_same_file p = true ∧ pt_matched p = true).
Proof.
  intros Ha Hr He Hbase Hw Ht Hb Hreq Hu Hm. unfold walk_locked.
  destruct (walk_start_at f authority request resolved pre bs es t torn Ha Hr Hbase Hb Hu Hm) as [must ->].
  cbn [ws_state ws_resolved ws_prefix ws_retention ws_require_retained].
  assert (file_seek f (physical_tail (fresh_state authority))
    = {| rd_rest := bs ++ torn; rd_pos := physical_tail (fresh_state authority); rd_end := None |}) as ->.
  { unfold file_seek, rd_seek. rewrite Hb, He. destruct Hbase as [_ <-]. rewrite Nat2Z.id, drop_app_length. done. }
  set (p0 := observe (tracker_new (expected_prefix request) resolved) _). set (q0 := observe (tracker_new (_ <$> _) resolved) _).
  destruct (observe_keeps (tracker_new (expected_prefix request) resolved) (fresh_state authority)) as (Hp0 & Hs0 & _ & Hpo).
  destruct (observe_keeps (tracker_new ((λ a, resolve_tail (ra_retained_tail a) resolved) <$> authority) resolved) (fresh_state authority))
    as (Hq0 & Hqs0 & _ & Hqo). fold p0 in Hp0, Hs0, Hpo. fold q0 in Hq0, Hqs0, Hqo. cbn [rd_rest].
  destruct (written_tail _ _ _ _ Hw) as [_ Hl].
  replace (S (length (bs ++ torn))) with (length es + S (length (bs ++ torn) - length es))%nat by (rewrite !length_app; lia).
  destruct (walk_written _ _ _ _ request resolved must (S (length (bs ++ torn) - length es)) torn None p0 q0 [] Hw Hreq Hpo Hqo)
    as (p & q & offs & -> & Hlo & Tp & Tq).
  rewrite walk_torn; [|done|done|].
  - exists offs, p. split_and!; [done|done|by rewrite (tk_expected _ _ _ _ _ _ Tp), Hp0|]. intros b Hbe Hpath Hpass.
    assert (pt_same_file p0 = true) as Hf0 by (rewrite Hs0; simpl; rewrite Hbe; by apply bool_decide_eq_true_2).
    split; [by rewrite (tk_same_file _ _ _ _ _ _ Tp)|]. apply (tk_matched _ _ _ _ _ _ Tp b); [by rewrite Hp0|done|done].
  - unfold verdict. rewrite (tk_expected _ _ _ _ _ _ Tq), Hq0. destruct authority as [a|]; [|done]. simpl in Hqs0 |- *.
    rewrite (tk_same_file _ _ _ _ _ _ Tq), Hqs0, bool_decide_eq_true_2 by done. simpl.
    by rewrite (tk_matched _ _ _ _ _ _ Tq (resolve_tail (ra_retained_tail a) resolved)); [|by rewrite Hq0|
      rewrite Hqs0; by apply bool_decide_eq_true_2|].
Qed.
(** The same for a file without a retention authority. *)
Lemma scan_plain `{!ZstdLaws} f request resolved bs es t torn :
  file_authority f = Ok None → file_resolved f = Ok resolved → file_end f = None →
  written after_header bs es t → torn_tail torn → file_bytes f = file_header ++ bs ++ torn → boundary request = PhysicalEof →
  ∃ offsets p, length offsets = length es
    ∧ walk_locked f request
      = Some (zip offsets es,
              Ok ({| verified_tail := tail_binding resolved t; incomplete_tail := incomplete_at torn t |}, verdict p t))
    ∧ pt_expected p = expected_prefix request.
Proof.
  intros Ha Hr He Hw Ht Hb Hreq.
  destruct (scan_written f None request resolved file_header bs es t torn) as (offs & p & Hl & Hwalk & Hp & _); try done.
  by exists offs, p.
Qed.

Lemma reaches_tail_binding resolved t : reaches t (tail_binding resolved t).
Proof. done. Qed.

(** Whatever file a walk to the end accepts, what it verified is a written log. *)
Lemma walk_loop_written fuel request resolved must r s p q seen seen' o v :
  boundary request = PhysicalEof → rd_pos r = physical_tail s →
  walk_loop fuel request resolved must r s p q seen = Some (seen', Ok (o, v)) →
  ∃ bs es t rest, rd_rest r = bs ++ rest ∧ written s bs es t
    ∧ verified_tail o = tail_binding resolved t ∧ (incomplete_tail o = None → rest = []).
Proof.
  intros Hb. revert r s p q seen. induction fuel as [|fuel IH]; intros r s p q seen Hpos; [done|].
  cbn [walk_loop]. rewrite decide_False by (rewrite Hb; done).
  unfold read_verified_frame_observed.
  destruct (read_frame_observed (physical_tail s) r) as [r' [[[json raw]|]|e]] eqn:E.
  - apply read_frame_inv in E as (Hok & Hr & Hp). destruct (envelope_from_slice json) as [e|] eqn:Hj; [|done].
    simpl. destruct (verify_envelope e _ _ _) as [[]|] eqn:Hv; [|done]. simpl.
    destruct (after_frame s e (rd_pos r')) as [s'|] eqn:Ha; [|done]. simpl. intros H.
    apply IH in H as (bs & es & t & rest & Hrest & Hw & ? & ?);
      [|by apply after_frame_Ok in Ha as (_ & _ & ->)].
    exists (raw ++ bs), (e :: es), t, rest. split_and!; [|econstructor; eauto|done..].
    + by rewrite Hr, Hrest, app_assoc.
    + by rewrite <- Hpos, <- Hp.
  - apply read_frame_eof in E. intros H. injection H as <- Hx. apply result_bind_Ok in Hx as (? & _ & Hx).
    injection Hx as <- _. exists [], [], s, []. rewrite E. split_and!; [done|constructor|done..].
  - destruct e; simpl; try done. intros H. injection H as <- Hx. apply result_bind_Ok in Hx as (? & _ & Hx).
    injection Hx as <- _. exists [], [], s, (rd_rest r). split_and!; [done|constructor|done..].
Qed.

Lemma verify_header_Ok path bytes fin : (verify_file_header path (rd_seek bytes fin 0)).2 = Ok tt →
  ∃ rest, bytes = file_header ++ rest.
Proof.
  unfold verify_file_header, rd_seek, read_exact. simpl. case_decide as Hl; [|done].
  destruct bytes as [|b0 [|b1 [|b2 [|b3 [|b4 rest]]]]]; simpl in Hl; try lia.
  simpl. destruct (_ || _) eqn:H; [done|]. intros _. apply orb_false_iff in H as [H1 H2].
  apply bool_decide_eq_false, dec_stable in H1. apply bool_decide_eq_false, dec_stable in H2.
  exists rest. injection H1 as -> -> -> ->. injection H2 as ->. done.
Qed.

Lemma base_of_header f authority bytes : file_bytes f = file_header ++ bytes →
  HEADER_LEN ≤ physical_tail (fresh_state authority) ≤ file_len f →
  log_base authority (take (Z.to_nat (physical_tail (fresh_state authority))) (file_bytes f)).
Proof.
  intros Hb Hlen. set (n := Z.to_nat _). unfold HEADER_LEN, file_len in Hlen.
  split; [|rewrite length_take; lia]. exists (take (n - 5) bytes).
  rewrite Hb, take_app_ge by (change (length file_header) with 5%nat; lia). done.
Qed.
Lemma walk_eof_written f authority expected seen o v : file_authority f = Ok authority → authority_wf authority →
  walk_locked f (until_eof expected) = Some (seen, Ok (o, v)) →
  ∃ resolved pre bs es t rest, file_resolved f = Ok resolved ∧ log_base authority pre ∧ file_bytes f = pre ++ bs ++ rest
    ∧ written (fresh_state authority) bs es t ∧ verified_tail o = tail_binding resolved t
    ∧ (incomplete_tail o = None → rest = []).
Proof.
  intros Ha Hwf H. unfold walk_locked in H.
  destruct (walk_start f (until_eof expected)) as [w|] eqn:Hw; [|done].
  destruct (walk_start_fresh _ _ _ _ Ha Hw) as (Hs & Hr & _). rewrite Hs in H.
  assert (∃ rest, file_bytes f = file_header ++ rest) as [bytes Hb].
  { unfold walk_start in Hw. apply result_bind_Ok in Hw as (x & _ & Hw).
    apply result_bind_Ok in Hw as ([] & Hh & _). by apply verify_header_Ok in Hh. }
  apply walk_loop_written in H as (bs & es & t & rest & Hrest & Hwr & Ht & Hi); [|done..].
  assert (HEADER_LEN ≤ physical_tail (fresh_state authority) ≤ file_len f) as Hlen.
  { destruct authority as [a|].
    - destruct Hwf as [Hv%authority_validated _]. simpl. unfold walk_start in Hw. rewrite Hr, Ha in Hw. simpl in Hw.
      apply result_bind_Ok in Hw as ([] & _ & Hw). apply result_bind_Ok in Hw as (prefix & _ & Hw).
      apply result_bind_Ok in Hw as ([] & Hl & _). unfold require_retained_length in Hl.
      simpl in Hl. destruct (Z.ltb_spec (file_len f) (rt_physical_tail (ra_retained_tail a))); [done|]. lia.
    - unfold file_len. rewrite Hb, length_app. simpl. unfold HEADER_LEN. lia. }
  set (n := Z.to_nat (physical_tail (fresh_state authority))).
  exists (ws_resolved w), (take n (file_bytes f)), bs, es, t, rest. split_and!; try done; [by apply (base_of_header _ _ bytes)|].
  rewrite <- Hrest. unfold file_seek, rd_seek. simpl. fold n. by rewrite take_drop.
Qed.

Lemma inspect_walk f x : inspect f = Some (Ok x) → ∃ seen v, walk_locked f (until_eof None) = Some (seen, Ok (x, v)).
Proof.
  unfold inspect. intros ([seen y] & H & Hx)%bind_Some. exists seen.
  injection Hx as ([o v] & -> & [= ->])%result_bind_Ok. eauto.
Qed.

(** C30: a log keeps everything it published.  Scanning a file whose frames a writer wrote, possibly cut
    inside the last write, meets every binding published earlier, reports exactly the written envelopes
    in order, binds the end of the last complete frame, and reports the cut as the only defect.  The
    file's path resolves and its bytes are readable to the end; without a retention authority the
    frames are all those after the header, and with one those after its boundary, provided that they
    reach the tail it committed to and that the binding is not of the retired bytes. *)
Theorem scan_recovers_written `{!ZstdLaws} f authority resolved pre bs1 es1 t1 bs2 es2 t2 torn :
  file_authority f = Ok authority → file_resolved f = Ok resolved → file_end f = None → log_base authority pre →
  written (fresh_state authority) bs1 es1 t1 → written t1 bs2 es2 t2 → torn_tail torn →
  file_bytes f = pre ++ (bs1 ++ bs2) ++ torn →
  unretired authority (Some (tail_binding resolved t1)) → retained_met authority resolved (bs1 ++ bs2) (es1 ++ es2) t2 →
  ∃ offsets, length offsets = length (es1 ++ es2) ∧
    walk_locked f (until_eof (Some (tail_binding resolved t1)))
    = Some (zip offsets (es1 ++ es2),
            Ok ({| verified_tail := tail_binding resolved t2; incomplete_tail := incomplete_at torn t2 |},
                PrefixMatched)).
Proof.
  intros Ha Hr He Hbase H1 H2 Ht Hb Hu Hm.
  destruct (scan_written f authority (until_eof (Some (tail_binding resolved t1))) resolved pre _ _ _ torn
    Ha Hr He Hbase (written_app _ _ _ _ _ _ _ H1 H2) Ht Hb eq_refl Hu Hm) as (offsets & p & Hl & Hwalk & Hp & Hmat).
  exists offsets. split; [done|]. rewrite Hwalk.
  destruct (Hmat _ eq_refl eq_refl) as [Hs Hm']; [by exists bs1, es1, t1, bs2, es2|].
  unfold verdict. by rewrite Hp, Hs, Hm'.
Qed.

End Written.

(** ** [walk_hashed]: the walk that resumes at a checkpoint

    The same loop over verified frames, from a checkpoint's tail or from the start, up to a
    captured bound, with the bytes a digest has absorbed.  No cancellation.  The digest is that of a
    walk that succeeds: when it fails the callers drop it, and the model gives the one before the failing
    frame, or the one the walk was given. *)
Section Hashed.
Context `{TO : TimeOps} {B3 : Blake3} {LJ : LogJson} {ZS : Zstd}.

(** The bytes [hash_open_prefix] feeds the hasher: from the retention boundary, or the
    first byte, to [tail]. *)
Definition hash_open_prefix (f : LogFile) (tail : Z) : result LogError (list Z) :=
  authority ← map_err Retention (file_authority f);
  let offset := match authority with Some a => rb_offset (ra_boundary a) | None => 0 end in
  len ← ok_or (checked_sub_u64 tail offset) (Retired tail offset);
  let r := file_seek f offset in
  let bytes := take (Z.to_nat len) (rd_rest r) in
  if Z.of_nat (length bytes) =? len then Ok bytes
  else Err (LogIo (default {| io_kind := UnexpectedEof; io_message := "checkpoint prefix shortened" |} (rd_end r))).

(** [BoundedReader] *)
Definition bounded_view (bound : option Z) (f : LogFile) : LogFile :=
  match bound with
  | Some n => if n <? file_len f
              then {| file_path := file_path f; file_resolved := file_resolved f; file_bytes := take (Z.to_nat n) (file_bytes f);
                      file_end := None; file_authority := file_authority f |}
              else f
  | None => f
  end.
Definition checkpoint_state (tail : LogTailBinding) : ScanState :=
  at_frame {| event_seq := match tb_last_sequence tail with Some seq => event_seq seq + 1 | None => 0 end |}
    (tb_last_hash tail) (tb_physical_tail tail).
Definition authenticate_resume (authority : option RetentionAuthority) (f : LogFile) (expected resume : option LogTailBinding) :
    result LogError unit :=
  match authority with
  | None => Ok tt
  | Some a =>
      _ ← match expected with Some e => authenticate_binding a f e | None => Ok tt end;
      match resume with
      | Some tail =>
          _ ← authenticate_binding a f tail;
          if tb_physical_tail tail <? rb_offset (ra_boundary a)
          then Err (Retired (tb_physical_tail tail) (rb_offset (ra_boundary a))) else Ok tt
      | None => Ok tt
      end
  end.
Definition resume_state (authority : option RetentionAuthority) (f : LogFile) (resolved : string) (resume : option LogTailBinding)
    (bound : option Z) (digest : list Z) : result LogError (ScanState * list Z) :=
  match resume with
  | Some tail =>
      if default U64_MAX bound <? tb_physical_tail tail
      then Err (LogIo {| io_kind := OtherKind; io_message := "checkpoint exceeds captured source bound" |})
      else if bool_decide (tb_path tail ≠ resolved)
      then Err (LogIo {| io_kind := OtherKind; io_message := "checkpoint path mismatch" |})
      else
        _ ← match tb_last_sequence tail with
            | None => Ok 0
            | Some seq => ok_or (checked_add_u64 (event_seq seq) 1) SequenceOverflow
            end;
        Ok (checkpoint_state tail, digest)
  | None =>
      _ ← (verify_file_header (file_path f) (file_seek (bounded_view bound f) 0)).2;
      Ok (fresh_state authority, match authority with None => MAGIC ++ [VERSION] | Some _ => [] end)
  end.
Definition hashed_start (f : LogFile) (expected resume : option LogTailBinding) (bound : option Z) (digest : list Z) :
    result LogError (WalkStart * list Z) :=
  resolved ← map_err LogIo (file_resolved f);
  authority ← map_err Retention (file_authority f);
  _ ← authenticate_resume authority f expected resume;
  '(s, digest) ← resume_state authority f resolved resume bound digest;
  let prefix := tracker_new expected resolved in
  let retired := match authority, expected with
                 | Some a, Some e => tb_physical_tail e <=? rb_offset (ra_boundary a)
                 | _, _ => false
                 end in
  let prefix := if bool_decide (is_Some resume) || retired then set_matched true prefix else prefix in
  let retained := (λ a, resolve_tail (ra_retained_tail a) resolved) <$> authority in
  _ ← require_retained_length f retained;
  let beyond := match resume, retained with
                | Some tail, Some kept => tb_physical_tail kept <? tb_physical_tail tail
                | _, _ => false
                end in
  let retention := tracker_new retained resolved in
  let retention := if beyond then set_matched true retention else retention in
  Ok ({| ws_resolved := resolved; ws_state := s; ws_prefix := observe prefix s; ws_retention := observe retention s;
         ws_require_retained :=
           match retained, bound with
           | Some kept, Some n => tb_physical_tail kept <=? n
           | Some _, None => true
           | None, _ => false
           end |}, digest).

Fixpoint hashed_loop (fuel : nat) (resolved : string) (must_retain : bool) (r : Rd) (s : ScanState)
    (prefix retention : PrefixTracker) (seen : list (Z * EventEnvelope)) (digest : list Z) : option (list Z * Walked) :=
  match fuel with
  | O => None
  | S fuel =>
      let finish incomplete :=
        Some (digest, (seen, _ ← (if must_retain then require_retained (verdict retention s) else Ok tt);
                             Ok ({| verified_tail := tail_binding resolved s; incomplete_tail := incomplete |},
                                 verdict prefix s))) in
      match read_verified_frame_observed s r with
      | (r', Ok (ScanFrame e, s', raw)) =>
          hashed_loop fuel resolved must_retain r' s' (observe prefix s') (observe retention s')
            (seen ++ [(physical_tail s, e)]) (digest ++ raw)
      | (_, Ok (ScanEof, _, _)) => finish None
      | (_, Ok (ScanIncomplete t, _, _)) => finish (Some t)
      | (_, Err e) => Some (digest, (seen, Err e))
      end
  end.
Definition walk_hashed (f : LogFile) (expected resume : option LogTailBinding) (bound : option Z) (digest : list Z) :
    option (list Z * Walked) :=
  match hashed_start f expected resume bound digest with
  | Ok (w, digest) =>
      let r := file_seek (bounded_view bound f) (physical_tail (ws_state w)) in
      hashed_loop (S (length (rd_rest r))) (ws_resolved w) (ws_require_retained w) r (ws_state w)
        (ws_prefix w) (ws_retention w) [] digest
  | Err e => Some (digest, ([], Err e))
  end.

(** Apart from the digest it is the walk to the end. *)
Lemma hashed_loop_walk fuel expected resolved must r s p q seen digest :
  snd <$> hashed_loop fuel resolved must r s p q seen digest = walk_loop fuel (until_eof expected) resolved must r s p q seen.
Proof.
  revert r s p q seen digest. induction fuel as [|fuel IH]; intros r s p q seen digest; [done|]. cbn [hashed_loop walk_loop].
  rewrite decide_False by done. destruct (read_verified_frame_observed s r) as [r' [[[[e| |t] s'] raw]|e]]; try done.
Qed.
Lemma walk_hashed_ends f expected resume bound digest : is_Some (walk_hashed f expected resume bound digest).
Proof.
  unfold walk_hashed. destruct (hashed_start f expected resume bound digest) as [[w dig]|]; [|done].
  apply (fmap_is_Some snd). rewrite (hashed_loop_walk _ None). apply walk_loop_ends. lia.
Qed.
(** [hashed_start] without a bound. *)
Lemma hashed_start_Ok f authority expected resume digest w digest' : file_authority f = Ok authority → authority_wf authority →
  hashed_start f expected resume None digest = Ok (w, digest') →
  ws_state w = match resume with Some tail => checkpoint_state tail | None => fresh_state authority end
  ∧ match resume with
    | Some tail => match tb_last_sequence tail with Some seq => is_u64 (event_seq seq + 1) | None => True end
    | None => ∃ rest, file_bytes f = file_header ++ rest
    end
  ∧ match authority with
    | Some a => HEADER_LEN < rb_offset (ra_boundary a) ≤ file_len f ∧ ∀ tail, resume = Some tail → rb_offset (ra_boundary a) ≤ tb_physical_tail tail
    | None => True
    end.
Proof.
  intros Ha Hwf. unfold hashed_start. rewrite Ha. intros (resolved & _ & H)%result_bind_Ok. simpl in H.
  apply result_bind_Ok in H as ([] & Hauth & H). apply result_bind_Ok in H as ([s dig] & Hs & H).
  apply result_bind_Ok in H as ([] & Hlen & [= <- <-]). cbn [ws_state]. split; [|split].
  - unfold resume_state in Hs. destruct resume as [tail|].
    + destruct (_ <? _); [done|]. case_bool_decide; [done|]. by apply result_bind_Ok in Hs as (n & _ & [= <- _]).
    + by apply result_bind_Ok in Hs as ([] & _ & [= <- _]).
  - unfold resume_state in Hs. destruct resume as [tail|].
    + destruct (_ <? _); [done|]. case_bool_decide; [done|]. apply result_bind_Ok in Hs as (n & Hn & _).
      destruct (tb_last_sequence tail); [|done]. apply ok_or_Ok in Hn. unfold checked_add_u64 in Hn.
      apply fits_Some in Hn as [-> ?]. done.
    + apply result_bind_Ok in Hs as ([] & Hh & _). by apply verify_header_Ok in Hh.
  - destruct authority as [a|]; [|done]. destruct Hwf as [Hv%authority_validated _]. simpl in Hlen.
    destruct (Z.ltb_spec (file_len f) (rt_physical_tail (ra_retained_tail a))); [done|]. split; [lia|]. intros tail ->.
    unfold authenticate_resume in Hauth. apply result_bind_Ok in Hauth as ([] & _ & Hauth).
    apply result_bind_Ok in Hauth as ([] & _ & Hauth). destruct (Z.ltb_spec (tb_physical_tail tail) (rb_offset (ra_boundary a))); [done|lia].
Qed.
(** What a resumed walk verified is a written log from the checkpoint, or from the start, on. *)
Lemma walk_hashed_written f authority expected resume digest digest' seen o v :
  file_authority f = Ok authority → authority_wf authority →
  match resume with Some tail => 0 ≤ tb_physical_tail tail ≤ file_len f | None => True end →
  walk_hashed f expected resume None digest = Some (digest', (seen, Ok (o, v))) →
  ∃ resolved pre bs es t rest, file_bytes f = pre ++ bs ++ rest
    ∧ match resume with
      | Some tail => Z.of_nat (length pre) = tb_physical_tail tail ∧ is_u64 (next_sequence (checkpoint_state tail))
                     ∧ written (checkpoint_state tail) bs es t
      | None => log_base authority pre ∧ written (fresh_state authority) bs es t
      end
    ∧ verified_tail o = tail_binding resolved t ∧ (incomplete_tail o = None → rest = []).
Proof.
  intros Ha Hwf Hin H. unfold walk_hashed in H.
  destruct (hashed_start f expected resume None digest) as [[w dig]|] eqn:Hst; [|done].
  destruct (hashed_start_Ok _ _ _ _ _ _ _ Ha Hwf Hst) as (Hs & Hfacts & Hlen). cbn [bounded_view] in H.
  pose proof (hashed_loop_walk (S (length (rd_rest (file_seek f (physical_tail (ws_state w)))))) None (ws_resolved w)
    (ws_require_retained w) (file_seek f (physical_tail (ws_state w))) (ws_state w) (ws_prefix w) (ws_retention w) [] dig) as Hwalk.
  rewrite H in Hwalk. symmetry in Hwalk.
  apply walk_loop_written in Hwalk as (bs & es & t & rest & Hrest & Hwr & Ht & Hi); [|done..].
  set (n := Z.to_nat (physical_tail (ws_state w))) in *.
  exists (ws_resolved w), (take n (file_bytes f)), bs, es, t, rest. split_and!; [| |done..].
  { rewrite <- Hrest. unfold file_seek, rd_seek. simpl. fold n. by rewrite take_drop. }
  rewrite Hs in Hwr. destruct resume as [tail|].
  - split_and!; [|unfold checkpoint_state, is_u64 in *; simpl in *; destruct (tb_last_sequence tail); [done|by vm_compute]|done].
    unfold file_len in Hin. rewrite length_take. unfold n. rewrite Hs. simpl. lia.
  - destruct Hfacts as [bytes Hb]. split; [|done]. unfold n. rewrite Hs. clear n Hrest.
    assert (HEADER_LEN ≤ physical_tail (fresh_state authority) ≤ file_len f) as Hl.
    { destruct authority as [a|]; [simpl; lia|]. unfold file_len. rewrite Hb, length_app. simpl. unfold HEADER_LEN. lia. }
    by apply (base_of_header _ _ bytes).
Qed.
End Hashed.

(** ** Instance: a self-delimiting text for envelopes

    A field is the bits of its code, ended by 2; a record is its fields in order. *)
Fixpoint code_text (p : positive) : list Z :=
  match p with
  | xH => [2]
  | xO p => 0 :: code_text p
  | xI p => 1 :: code_text p
  end.
Fixpoint text_code (bs : list Z) : option (positive * list Z) :=
  match bs with
  | 2 :: rest => Some (xH, rest)
  | 0 :: rest => '(p, rest) ← text_code rest; Some (xO p, rest)
  | 1 :: rest => '(p, rest) ← text_code rest; Some (xI p, rest)
  | _ => None
  end.
Definition record_text (ps : list positive) : list Z := mjoin (code_text <$> ps).
Fixpoint text_record (n : nat) (bs : list Z) : option (list positive * list Z) :=
  match n with
  | O => Some ([], bs)
  | S n => '(p, rest) ← text_code bs; '(ps, rest) ← text_record n rest; Some (p :: ps, rest)
  end.

Lemma text_code_app p rest : text_code (code_text p ++ rest) = Some (p, rest).
Proof. revert rest. induction p as [p IH|p IH|]; intros rest; simpl; [by rewrite IH..|done]. Qed.
Lemma text_record_app ps rest : text_record (length ps) (record_text ps ++ rest) = Some (ps, rest).
Proof.
  revert rest. induction ps as [|p ps IH]; intros rest; [done|]. unfold record_text in *. simpl.
  rewrite <- app_assoc, text_code_app. simpl. by rewrite IH.
Qed.

Definition content_code (c : ContentType) : Z :=
  match c with JsonContent => 0 | MessagePack => 1 | Cbor => 2 | RawContent => 3 end.
Definition code_content (z : Z) : ContentType :=
  match z with 0 => JsonContent | 1 => MessagePack | 2 => Cbor | _ => RawContent end.
#[export] Instance ContentType_countable : Countable ContentType.
Proof. refine (inj_countable' content_code code_content _). abstract (by intros []). Defined.

#[local] Abbreviation tz := (λ t : @OffsetDateTime ZTime, t : Z).
Definition canonical_codes (c : @CanonicalFields ZTime) : list positive :=
  [encode (cf_content_type c); encode (tz (source_timestamp (cf_observed_at c)));
   encode (cf_parser_version c); encode (cf_prev_hash c); encode (cf_raw_payload_hash c);
   encode (tz (received_at_time (cf_received_at c))); encode (cf_schema_version c);
   encode (cf_seq c); encode (cf_source_id c)].
Definition envelope_codes (e : @EventEnvelope ZTime) : list positive :=
  [encode (event_seq (env_seq e)); encode (env_source_id e); encode (env_schema_version e);
   encode (env_parser_version e); encode (tz (source_timestamp (env_observed_at e)));
   encode (tz (received_at_time (env_received_at e))); encode (env_content_type e);
   encode (hash_bytes (env_raw_payload_hash e)); encode (hash_bytes (env_prev_hash e));
   encode (hash_bytes (env_this_hash e)); encode (env_payload e)].
Definition decode_envelope (ps : list positive) : option (@EventEnvelope ZTime) :=
  match ps with
  | [q; si; sv; pv; ob; rc; ct; rh; ph; th; pl] =>
      q ← decode q; si ← decode si; sv ← decode sv; pv ← decode pv; ob ← decode ob; rc ← decode rc;
      ct ← decode ct; rh ← decode rh; ph ← decode ph; th ← decode th; pl ← decode pl;
      Some {| env_seq := {| event_seq := q |}; env_source_id := si; env_schema_version := sv;
              env_parser_version := pv;
              env_observed_at := {| source_timestamp := (ob : Z) : @OffsetDateTime ZTime |};
              env_received_at := {| received_at_time := (rc : Z) : @OffsetDateTime ZTime |};
              env_content_type := ct; env_raw_payload_hash := {| hash_bytes := rh |};
              env_prev_hash := {| hash_bytes := ph |}; env_this_hash := {| hash_bytes := th |};
              env_payload := pl |}
  | _ => None
  end.
Lemma decode_envelope_codes e : decode_envelope (envelope_codes e) = Some e.
Proof.
  unfold decode_envelope, envelope_codes. rewrite !decode_encode. simpl.
  by destruct e as [[] ? ? ? [] [] ? [] [] [] ?].
Qed.

#[export] Instance TextJson : @LogJson ZTime := {|
  canonical_json c := Ok (record_text (canonical_codes c));
  envelope_to_vec e := Ok (record_text (envelope_codes e));
  envelope_from_slice bs :=
    ok_or ('(ps, rest) ← text_record 11 bs; match rest with [] => decode_envelope ps | _ => None end)
      "malformed"
|}.
#[export] Instance TextJson_laws : @LogJsonLaws ZTime TextJson.
Proof.
  split.
  - intros e bs _ [= <-]. cbn [envelope_from_slice TextJson]. apply ok_or_Ok.
    rewrite <- (app_nil_r (record_text _)), (text_record_app (envelope_codes e)). simpl mbind.
    apply decode_envelope_codes.
  - intros f g b c x y [= <-] [= <-] H. apply (f_equal (text_record 9)) in H.
    rewrite (text_record_app (canonical_codes f)), (text_record_app (canonical_codes g)) in H.
    injection H as H1 H2 H3 H4 H5 H6 H7 H8 H9 _.
    apply (inj encode) in H1, H2, H3, H4, H5, H6, H7, H8, H9.
    destruct f as [? [] ? ? ? [] ? ? ?], g as [? [] ? ? ? [] ? ? ?]; simpl in *. congruence.
Qed.

(** Two chained envelopes, their frames, and a file cut inside a third write. *)
Definition sample_chain_input (seq : Z) (prev : Hash) (payload : list Z) : @HashInput ZTime := {|
  hi_seq := {| event_seq := seq |}; hi_source_id := "s"; hi_schema_version := 1; hi_parser_version := 1;
  hi_observed_at := {| source_timestamp := (3 : @OffsetDateTime ZTime) |};
  hi_received_at := {| received_at_time := (4 : @OffsetDateTime ZTime) |};
  hi_content_type := JsonContent; hi_prev_hash := prev; hi_payload := payload |}.
Definition sample_envelope (seq : Z) (prev : Hash) (payload : list Z) : @EventEnvelope ZTime :=
  let i := sample_chain_input seq prev payload in
  let h := result_or (genesis_hash, [], genesis_hash) (compute_hashes i) in {|
  env_seq := hi_seq i; env_source_id := hi_source_id i; env_schema_version := 1; env_parser_version := 1;
  env_observed_at := hi_observed_at i; env_received_at := hi_received_at i;
  env_content_type := JsonContent; env_raw_payload_hash := h.1.1; env_prev_hash := prev;
  env_this_hash := h.2; env_payload := payload |}.
Definition sample_e0 : @EventEnvelope ZTime := sample_envelope 0 genesis_hash [1; 2].
Definition sample_e1 : @EventEnvelope ZTime := sample_envelope 1 (env_this_hash sample_e0) [3].
Definition sample_f0 : list Z := result_or [] (envelope_frame sample_e0).
Definition sample_f1 : list Z := result_or [] (envelope_frame sample_e1).
Definition sample_state (e : @EventEnvelope ZTime) (n tail : Z) : ScanState :=
  {| next_sequence := n; previous_hash := env_this_hash e; physical_tail := tail |}.
Definition sample_t0 : ScanState := sample_state sample_e0 1 (5 + Z.of_nat (length sample_f0)).
Definition sample_t1 : ScanState :=
  sample_state sample_e1 2 (physical_tail sample_t0 + Z.of_nat (length sample_f1)).
Definition sample_log (torn : list Z) : LogFile := {|
  file_path := "l"; file_resolved := Ok "/l";
  file_bytes := file_header ++ sample_f0 ++ sample_f1 ++ torn;
  file_end := None; file_authority := Ok None |}.

Lemma sample_envelope_wf seq prev payload : hash_wf prev → envelope_wf (sample_envelope seq prev payload).
Proof. intros Hp. split; [apply blake3_wf|]. split; [done|apply blake3_wf]. Qed.

Lemma sample_written_frame e s frame t : envelope_wf e →
  envelope_frame e = Ok frame →
  verify_envelope e {| event_seq := next_sequence s |} (previous_hash s) (physical_tail s) = Ok tt →
  after_frame s e (physical_tail s + Z.of_nat (length frame)) = Ok t → written s frame [e] t.
Proof.
  intros Hwf Hf Hv Ha. destruct (envelope_frame_ok _ _ Hwf Hf) as (json & Hok & Hj).
  rewrite <- (app_nil_r frame). econstructor; eauto. constructor.
Qed.
Lemma sample_written0 : written after_header sample_f0 [sample_e0] sample_t0.
Proof.
  apply sample_written_frame; [apply sample_envelope_wf, genesis_hash_wf|by vm_compute..].
Qed.
Lemma sample_written1 : written sample_t0 sample_f1 [sample_e1] sample_t1.
Proof. apply sample_written_frame; [apply sample_envelope_wf, blake3_wf|by vm_compute..]. Qed.
Lemma sample_torn : torn_tail (take 9 sample_frame).
Proof.
  right. exists [1; 2; 3], sample_frame, (drop 9 sample_frame).
  split; [by vm_compute|]. by rewrite take_drop.
Qed.

(** The first frame is retired: a walk starts at the second. *)
Definition sample_authority : RetentionAuthority := {|
  ra_format_version := 1; ra_epoch := 1; ra_advanced_at := 0;
  ra_boundary := {| rb_sequence := {| event_seq := 1 |}; rb_offset := physical_tail sample_t0 |};
  ra_chain_head := env_this_hash sample_e0; ra_pins := [];
  ra_retained_tail := {| rt_physical_tail := physical_tail sample_t1; rt_last_sequence := Some {| event_seq := 1 |};
                         rt_last_hash := env_this_hash sample_e1 |};
  ra_feed := [] |}.
Definition retained_log (torn : list Z) : LogFile := {|
  file_path := "l"; file_resolved := Ok "/l"; file_bytes := (file_header ++ sample_f0) ++ (sample_f1 ++ []) ++ torn;
  file_end := None; file_authority := Ok (Some sample_authority) |}.
Lemma sample_authority_wf : authority_wf (Some sample_authority).
Proof. split; [by vm_compute|]. split; [by vm_compute|apply blake3_wf]. Qed.
Lemma sample_base : log_base (Some sample_authority) (file_header ++ sample_f0).
Proof. split; [by exists sample_f0|by vm_compute]. Qed.
Lemma sample_retained : retained_met (Some sample_authority) "/l" (sample_f1 ++ []) ([sample_e1] ++ []) sample_t1.
Proof. exists sample_f1, [sample_e1], sample_t1, [], []. split_and!; [done|done|exact sample_written1|constructor|by vm_compute]. Qed.

Lemma scan_recovers_written_witness : ∃ offsets, length offsets = length [sample_e1] ∧
  walk_locked (retained_log (take 9 sample_frame)) (until_eof (Some (tail_binding "/l" sample_t1)))
  = Some (zip offsets [sample_e1],
          Ok ({| verified_tail := tail_binding "/l" sample_t1;
                 incomplete_tail := incomplete_at (take 9 sample_frame) sample_t1 |}, PrefixMatched)).
Proof.
  apply (scan_recovers_written (retained_log (take 9 sample_frame)) (Some sample_authority) "/l" (file_header ++ sample_f0)
    sample_f1 [sample_e1] sample_t1 [] [] sample_t1 (take 9 sample_frame)); try reflexivity.
  - exact sample_base.
  - exact sample_written1.
  - constructor.
  - exact sample_torn.
  - exact sample_retained.
Defined.

Definition sample_walk : Walked :=
  default ([], Err Cancelled) (walk_locked (sample_log []) (until_eof (Some (tail_binding "/l" sample_t1)))).
Definition sample_outcome : ScanOutcome :=
  {| verified_tail := tail_binding "/l" sample_t1; incomplete_tail := None |}.

Lemma sample_walk_runs :
  walk_locked (sample_log []) (until_eof (Some (tail_binding "/l" sample_t1)))
  = Some (sample_walk.1, Ok (sample_outcome, PrefixMatched)).
Proof. vm_cast_no_check (eq_refl (Some (sample_walk.1, Ok (sample_outcome, PrefixMatched)) : option Walked)). Qed.

Definition retained_walk : Walked :=
  default ([], Err Cancelled) (walk_locked (retained_log []) (until_eof (Some (tail_binding "/l" sample_t1)))).
Lemma retained_walk_runs :
  walk_locked (retained_log []) (until_eof (Some (tail_binding "/l" sample_t1)))
  = Some (retained_walk.1, Ok (sample_outcome, PrefixMatched)).
Proof. vm_cast_no_check (eq_refl (Some (retained_walk.1, Ok (sample_outcome, PrefixMatched)) : option Walked)). Qed.

(** The whole log and its retained part: the second frame is common, the first is older. *)
Lemma binding_pins_history_witness :
  (∃ older1 older2 es, older1 ++ es `prefix_of` sample_walk.1.*2 ∧ older2 ++ es `prefix_of` retained_walk.1.*2
     ∧ (older1 = [] ∨ older2 = [])
     ∧ 0 + Z.of_nat (length (older1 ++ es)) = Z.of_nat (binding_length (tail_binding "/l" sample_t1))
     ∧ 1 + Z.of_nat (length (older2 ++ es)) = Z.of_nat (binding_length (tail_binding "/l" sample_t1)))
  ∨ ∃ e1 e2, e1 ∈ sample_walk.1.*2 ∧ e2 ∈ retained_walk.1.*2
    ∧ blake3_collides (chain_input e1) (chain_input e2).
Proof.
  exact (binding_pins_history (sample_log []) (retained_log []) None (Some sample_authority)
    (until_eof (Some (tail_binding "/l" sample_t1))) (until_eof (Some (tail_binding "/l" sample_t1)))
    (tail_binding "/l" sample_t1) sample_walk.1 retained_walk.1 sample_outcome sample_outcome
    eq_refl eq_refl I sample_authority_wf I eq_refl eq_refl eq_refl sample_walk_runs retained_walk_runs).
Defined.
