(* ===== verification/LogWriter.v ===== *)
(** * The writer of the event log

    crates/event-log, [writer.rs] and [receipt.rs].  A writer owns an exclusively
    locked file through a buffered handle that may fail at every write, flush and
    synchronization.  It repairs a torn tail when it opens, chains every append to
    the last hash, and refuses everything after an operation whose effect on the
    file is uncertain.  It is opened in four ways, one of which resumes at a
    checkpoint, with or without a retention authority.  The file handle is an
    interface with its laws: it has a position, and a write goes there, so that a
    writer appends only because every open leaves the handle at the end.  The model
    starts with the opened handle: creating the file and its errors are outside. *)

From S2P Require Import Prelude CoreTypes Bytes LogFrame LogChain LogScanner.
#[local] Open Scope Z_scope.

(** ** The file behind a writer

    [dev_bytes] is everything the handle accepted, [dev_pos] the position of its next
    write, [dev_flushed] what a reader of the file sees, [dev_durable] what survives a
    crash. *)
Class LogDevice := {
  Device : Type;
  dev_bytes : Device → list Z;
  dev_pos : Device → Z;
  dev_flushed : Device → list Z;
  dev_durable : Device → list Z;
  dev_read_end : Device → option IoError;
  dev_try_lock : Device → result IoError unit;
  dev_len : Device → result IoError Z;
  dev_write_all : list Z → stm Device IoError unit;
  dev_flush : stm Device IoError unit;
  dev_sync : stm Device IoError unit;
  dev_set_len : Z → stm Device IoError unit;
  dev_seek : Z → stm Device IoError unit
}.
(** Bytes written over, or after, what a file holds. *)
Definition write_at (p : Z) (bs l : list Z) : list Z :=
  take (Z.to_nat p) l ++ bs ++ drop (Z.to_nat p + length bs) l.
(** What a success means; a failure promises nothing. *)
Class LogDeviceLaws {DV : LogDevice} : Prop := {
  dev_len_Ok d n : dev_len d = Ok n → n = Z.of_nat (length (dev_flushed d));
  dev_write_Ok bs d d' : dev_write_all bs d = (d', Ok tt) → 0 ≤ dev_pos d ≤ Z.of_nat (length (dev_bytes d)) →
    dev_bytes d' = write_at (dev_pos d) bs (dev_bytes d) ∧ dev_pos d' = dev_pos d + Z.of_nat (length bs);
  dev_flush_Ok d d' : dev_flush d = (d', Ok tt) →
    dev_bytes d' = dev_bytes d ∧ dev_pos d' = dev_pos d ∧ dev_flushed d' = dev_bytes d;
  dev_sync_Ok d d' : dev_sync d = (d', Ok tt) →
    dev_bytes d' = dev_bytes d ∧ dev_pos d' = dev_pos d ∧ dev_flushed d' = dev_flushed d ∧ dev_durable d' = dev_flushed d;
  dev_set_len_Ok n d d' : dev_set_len n d = (d', Ok tt) → dev_flushed d = dev_bytes d →
    0 ≤ n ≤ Z.of_nat (length (dev_bytes d)) →
    dev_bytes d' = take (Z.to_nat n) (dev_bytes d) ∧ dev_flushed d' = take (Z.to_nat n) (dev_bytes d);
  dev_seek_Ok n d d' : dev_seek n d = (d', Ok tt) → 0 ≤ n →
    dev_pos d' = n ∧ dev_bytes d' = dev_bytes d ∧ dev_flushed d' = dev_flushed d ∧ dev_durable d' = dev_durable d
}.
(** The next write appends. *)
Definition at_end {DV : LogDevice} (d : Device) : Prop := dev_pos d = Z.of_nat (length (dev_bytes d)).
Lemma write_end {DV : LogDevice} {DL : LogDeviceLaws} bs d d' : dev_write_all bs d = (d', Ok tt) → at_end d →
  dev_bytes d' = dev_bytes d ++ bs ∧ at_end d'.
Proof.
  unfold at_end. intros H Hp. apply dev_write_Ok in H as [Hb Hp']; [|lia].
  assert (dev_bytes d' = dev_bytes d ++ bs) as ->.
  { rewrite Hb. unfold write_at. rewrite Hp, Nat2Z.id, take_ge, drop_ge, app_nil_r by lia. done. }
  split; [done|]. rewrite Hp', Hp, length_app. lia.
Qed.
(** A handle as opening the file gives it: at its first byte, with nothing buffered. *)
Definition fresh_handle {DV : LogDevice} (d : Device) : Prop := dev_flushed d = dev_bytes d ∧ dev_pos d = 0.

(** The surroundings of one open: the path, what it resolves to, and the loaded
    retention authority. *)
Record LogEnv := {
  le_path : string;
  le_resolved : result IoError string;
  le_authority : result RetentionError (option RetentionAuthority)
}.

Record AppendReceipt := { receipt_sequence : EventSeq; receipt_this_hash : Hash }.
#[export] Instance AppendReceipt_eq_dec : EqDecision AppendReceipt.
Proof. solve_decision. Defined.

Section Writer.
Context `{TO : TimeOps} {B3 : Blake3} {LJ : LogJson} {ZS : Zstd} {DV : LogDevice}.

Record Writer := {
  w_path : string;
  w_inner : Device;
  w_next_seq : Z;
  w_last_hash : Hash;
  w_cursor : Z;
  w_poison_reason : option PoisonReason
}.

Definition from_file (path : string) (d : Device) (next_seq : Z) (last_hash : Hash) (cursor : Z) : Writer := {|
  w_path := path; w_inner := d; w_next_seq := next_seq; w_last_hash := last_hash;
  w_cursor := cursor; w_poison_reason := None
|}.
Definition set_inner (d : Device) (w : Writer) : Writer := {|
  w_path := w_path w; w_inner := d; w_next_seq := w_next_seq w; w_last_hash := w_last_hash w;
  w_cursor := w_cursor w; w_poison_reason := w_poison_reason w
|}.
Definition poison (reason : PoisonReason) (w : Writer) : Writer := {|
  w_path := w_path w; w_inner := w_inner w; w_next_seq := w_next_seq w; w_last_hash := w_last_hash w;
  w_cursor := w_cursor w; w_poison_reason := Some reason
|}.

(** ** Opening *)

Definition lift_dev {A} (m : stm Device IoError A) : stm Device LogError A :=
  λ d, let '(d', x) := m d in (d', map_err LogIo x).

Definition device_file (env : LogEnv) (d : Device) : LogFile := {|
  file_path := le_path env; file_resolved := le_resolved env;
  file_bytes := dev_flushed d; file_end := dev_read_end d; file_authority := le_authority env
|}.

(** The result of a walk, which always has one. *)
Definition walked {A} (x : option (result LogError A)) : result LogError A := default (Err Cancelled) x.

Definition lock_exclusive (env : LogEnv) : stm Device LogError unit :=
  λ d, (d, map_err (λ e, if decide (io_kind e = WouldBlock) then Locked (le_path env) else LogIo e)
             (dev_try_lock d)).

Definition metadata_len : stm Device LogError Z := λ d, (d, map_err LogIo (dev_len d)).

Definition write_file_header : stm Device LogError unit :=
  _ ← lift_dev (dev_write_all MAGIC); lift_dev (dev_write_all [VERSION]).

(** An empty file gets its header. *)
Definition start_log (env : LogEnv) : stm Device LogError Writer :=
  _ ← write_file_header;
  _ ← lift_dev dev_flush;
  _ ← lift_dev dev_sync;
  d ← stm_get;
  mret (from_file (le_path env) d 0 genesis_hash HEADER_LEN).

(** Truncate a torn tail, synchronize the verified prefix and continue after it. *)
Definition truncate_tail (scan : ScanOutcome) : stm Device LogError unit :=
  match incomplete_tail scan with
  | Some _ => lift_dev (dev_set_len (tb_physical_tail (verified_tail scan)))
  | None => mret tt
  end.
Definition resume_log (env : LogEnv) (scan : ScanOutcome) : stm Device LogError Writer :=
  let tail := verified_tail scan in
  _ ← truncate_tail scan;
  _ ← lift_dev dev_sync;
  _ ← lift_dev (dev_seek (tb_physical_tail tail));
  next_seq ← stm_lift match tb_last_sequence tail with
                      | None => Ok 0
                      | Some last => ok_or (checked_add_u64 (event_seq last) 1) SequenceOverflow
                      end;
  d ← stm_get;
  mret (from_file (le_path env) d next_seq (tb_last_hash tail) (tb_physical_tail tail)).

Definition open (env : LogEnv) : stm Device LogError Writer :=
  _ ← lock_exclusive env;
  len ← metadata_len;
  if len =? 0 then
    authority ← stm_lift (map_err Retention (le_authority env));
    match authority with
    | Some _ => stm_fail (BadHeader (le_path env))
    | None => start_log env
    end
  else
    d ← stm_get;
    scan ← stm_lift (walked (inspect (device_file env d)));
    resume_log env scan.

Definition finish_verified_open (env : LogEnv) (scan : ScanOutcome) (v : PrefixVerdict)
    (has_expected_prefix : bool) : stm Device LogError (Writer * LogTailBinding) :=
  _ ← stm_lift match incomplete_tail scan with
               | Some t => if has_expected_prefix && bool_decide (v ≠ PrefixMatched)
                           then Err (Truncated (it_next_sequence t) (it_byte_offset t)) else Ok tt
               | None => Ok tt
               end;
  _ ← stm_lift (require_match v);
  w ← resume_log env scan;
  mret (w, verified_tail scan).

Definition open_verified (env : LogEnv) (expected : option LogTailBinding) :
    stm Device LogError (Writer * LogTailBinding) :=
  _ ← lock_exclusive env;
  len ← metadata_len;
  if len =? 0 then
    _ ← stm_lift (if bool_decide (is_Some expected) then Err (BadHeader (le_path env)) else Ok tt);
    authority ← stm_lift (map_err Retention (le_authority env));
    match authority with
    | Some _ => stm_fail (BadHeader (le_path env))
    | None =>
        w ← start_log env;
        resolved ← stm_lift (map_err LogIo (le_resolved env));
        mret (w, tail_binding resolved after_header)
    end
  else
    d ← stm_get;
    '(scan, v) ← stm_lift (walked (snd <$> walk_locked (device_file env d) (until_eof expected)));
    finish_verified_open env scan v (bool_decide (is_Some expected)).

(** [open_verified_checkpoint]: the raw prefix up to a checkpoint is hashed, or with [Defer]
    not even read; then only the frames after it are verified.  The digest is the list of
    bytes it absorbed. *)
Inductive CheckpointPrefix : Type := CheckpointVerify | CheckpointDefer.
Record CheckpointVerification := { cv_used : bool; cv_deferred : bool }.
Definition checkpoint_resume (env : LogEnv) (d : Device) (authority : option RetentionAuthority) (expected : LogTailBinding)
    (checkpoint : option (LogTailBinding * string)) (deferred_len : option Z) (digest : list Z) :
    option LogTailBinding * list Z :=
  match checkpoint, le_resolved env with
  | Some (tail, expected_hash), Ok resolved =>
      if bool_decide (tb_path tail ≠ resolved) || (tb_physical_tail tail <? tb_physical_tail expected)
         || match authority with Some a => tb_physical_tail tail <? rb_offset (ra_boundary a) | None => false end
      then (None, digest)
      else match deferred_len with
           | Some file_len => (if tb_physical_tail tail <=? file_len then Some tail else None, digest)
           | None =>
               match hash_open_prefix (device_file env d) (tb_physical_tail tail) with
               | Ok bytes => if bool_decide (to_hex (blake3 bytes) ≠ expected_hash) then (None, digest) else (Some tail, bytes)
               | Err _ => (None, digest)
               end
           end
  | _, _ => (None, digest)
  end.
Definition open_verified_checkpoint (env : LogEnv) (expected : LogTailBinding) (checkpoint : option (LogTailBinding * string))
    (prefix_mode : CheckpointPrefix) (digest : list Z) :
    stm Device LogError (Writer * LogTailBinding * CheckpointVerification * list Z) :=
  _ ← lock_exclusive env;
  authority ← stm_lift (map_err Retention (le_authority env));
  d ← stm_get;
  _ ← stm_lift match authority with Some a => authenticate_binding a (device_file env d) expected | None => Ok tt end;
  deferred_len ← match prefix_mode with
                 | CheckpointDefer => len ← metadata_len; mret (Some len)
                 | CheckpointVerify => mret None
                 end;
  let '(resume, digest) := checkpoint_resume env d authority expected checkpoint deferred_len digest in
  let used := bool_decide (is_Some resume) in
  let deferred := used && match prefix_mode with CheckpointDefer => true | CheckpointVerify => false end in
  _ ← stm_lift (if used && negb deferred then (verify_file_header (le_path env) (file_seek (device_file env d) 0)).2 else Ok tt);
  '(digest, (scan, v)) ← stm_lift match walk_hashed (device_file env d) (Some expected) resume None digest with
                                  | Some (digest, (_, x)) => y ← x; Ok (digest, y)
                                  | None => Err Cancelled
                                  end;
  '(w, binding) ← finish_verified_open env scan v true;
  mret (w, binding, {| cv_used := used; cv_deferred := deferred |}, digest).

Definition open_with_expected_tail (env : LogEnv) (expected : LogTailBinding) : stm Device LogError Writer :=
  d ← stm_get;
  authority ← stm_lift (map_err Retention (le_authority env));
  _ ← stm_lift match authority with
               | Some a => authenticate_binding a (device_file env d) expected
               | None => Ok tt
               end;
  scan ← stm_lift (walked (inspect (device_file env d)));
  let tail := verified_tail scan in
  if bool_decide (tb_path tail ≠ tb_path expected) then
    stm_fail (LogIo {| io_kind := InvalidData;
                       io_message := "expected tail binding names a different event log" |})
  else if bool_decide (tb_physical_tail tail ≠ tb_physical_tail expected)
          || bool_decide (tb_last_sequence tail ≠ tb_last_sequence expected)
          || bool_decide (tb_last_hash tail ≠ tb_last_hash expected) then
    stm_fail (ExpectedTailMismatch (le_path env) (tb_physical_tail expected) (tb_physical_tail tail))
  else open env.

(** ** Appending *)

Definition write_frame (json_bytes : list Z) : stm Device LogError Z :=
  parts ← stm_lift (frame_parts json_bytes);
  _ ← stm_for parts (λ p, lift_dev (dev_write_all p));
  mret (Z.of_nat (length (concat parts))).

Definition ensure_healthy : stm Writer LogError unit :=
  λ w, (w, match w_poison_reason w with Some r => Err (Poisoned r) | None => Ok tt end).

Definition append_input (w : Writer) (i : EnvelopeIn) : HashInput := {|
  hi_seq := {| event_seq := w_next_seq w |}; hi_source_id := in_source_id i;
  hi_schema_version := in_schema_version i; hi_parser_version := in_parser_version i;
  hi_observed_at := in_observed_at i; hi_received_at := in_received_at i;
  hi_content_type := in_content_type i; hi_prev_hash := w_last_hash w; hi_payload := in_payload i
|}.
Definition append_envelope (w : Writer) (i : EnvelopeIn) (raw this : Hash) : EventEnvelope := {|
  env_seq := {| event_seq := w_next_seq w |}; env_source_id := in_source_id i;
  env_schema_version := in_schema_version i; env_parser_version := in_parser_version i;
  env_observed_at := in_observed_at i; env_received_at := in_received_at i;
  env_content_type := in_content_type i; env_raw_payload_hash := raw;
  env_prev_hash := w_last_hash w; env_this_hash := this; env_payload := in_payload i
|}.

(** The write of one frame: an I/O error or a cursor overflow poisons the writer. *)
Definition append_frame (json : list Z) (next_seq : Z) (this : Hash) : stm Writer LogError unit :=
  λ w, match write_frame json (w_inner w) with
       | (d, Err e) =>
           let w' := set_inner d w in
           (match e with LogIo _ => poison PoisonAppend w' | _ => w' end, Err e)
       | (d, Ok frame_bytes) =>
           match checked_add_u64 (w_cursor w) frame_bytes with
           | Some cursor =>
               ({| w_path := w_path w; w_inner := d; w_next_seq := next_seq; w_last_hash := this;
                   w_cursor := cursor; w_poison_reason := w_poison_reason w |}, Ok tt)
           | None =>
               (poison PoisonAppend (set_inner d w),
                Err (LogIo {| io_kind := InvalidData; io_message := "event-log byte cursor overflowed" |}))
           end
       end.

Definition append (i : EnvelopeIn) : stm Writer LogError EventSeq :=
  _ ← ensure_healthy;
  w ← stm_get;
  next_seq ← stm_lift (ok_or (checked_add_u64 (w_next_seq w) 1) SequenceOverflow);
  '(raw, _, this) ← stm_lift (compute_hashes (append_input w i));
  json ← stm_lift (map_err Serde (envelope_to_vec (append_envelope w i raw this)));
  _ ← append_frame json next_seq this;
  mret {| event_seq := w_next_seq w |}.

(** A device operation whose failure poisons the writer. *)
Definition or_poison (reason : PoisonReason) (m : stm Device IoError unit) : stm Writer LogError unit :=
  λ w, match m (w_inner w) with
       | (d, Ok _) => (set_inner d w, Ok tt)
       | (d, Err e) => (poison reason (set_inner d w), Err (LogIo e))
       end.

Definition flush : stm Writer LogError unit :=
  _ ← ensure_healthy; or_poison PoisonFlush dev_flush.
Definition sync : stm Writer LogError unit :=
  _ ← flush; or_poison PoisonSynchronize dev_sync.

Definition append_synced (i : EnvelopeIn) : stm Writer LogError AppendReceipt :=
  sequence ← append i;
  w ← stm_get;
  let receipt := {| receipt_sequence := sequence; receipt_this_hash := w_last_hash w |} in
  _ ← sync;
  mret receipt.

Definition writer_verified_tail (resolved : result IoError string) : stm Writer LogError LogTailBinding :=
  _ ← sync;
  w ← stm_get;
  actual_tail ← stm_lift (map_err LogIo (dev_len (w_inner w)));
  if bool_decide (actual_tail ≠ w_cursor w)
  then stm_fail (ExpectedTailMismatch (w_path w) (w_cursor w) actual_tail)
  else
    path ← stm_lift (map_err LogIo resolved);
    mret {| tb_path := path; tb_physical_tail := w_cursor w;
            tb_last_sequence := (λ n, {| event_seq := n |}) <$> checked_sub_u64 (w_next_seq w) 1;
            tb_last_hash := w_last_hash w |}.

End Writer.

(** ** A healthy writer's file is a valid log *)

Section WriterFacts.
Context `{TO : TimeOps} {B3 : Blake3} {LJ : LogJson} {ZS : Zstd} {DV : LogDevice}.
Context {BL : Blake3Laws} {LL : LogJsonLaws} {ZL : ZstdLaws} {DL : LogDeviceLaws}.

(** The scan state the writer believes its file is in. *)
Definition writer_state (w : Writer) : ScanState :=
  {| next_sequence := w_next_seq w; previous_hash := w_last_hash w; physical_tail := w_cursor w |}.

(** Where the verified frames of a writer begin: after the header, at the retention boundary,
    or at a checkpoint. *)
Inductive LogStart : Type :=
| AtAuthority (authority : option RetentionAuthority)
| AtCheckpoint (tail : LogTailBinding).
Definition start_state (start : LogStart) : ScanState :=
  match start with AtAuthority authority => fresh_state authority | AtCheckpoint tail => checkpoint_state tail end.
Definition start_wf (start : LogStart) : Prop :=
  is_u64 (next_sequence (start_state start)) ∧ hash_wf (previous_hash (start_state start)).
(** [pre] is what lies before the start; a checkpoint whose prefix check is deferred says
    nothing of it. *)
Definition start_base (start : LogStart) (pre : list Z) : Prop :=
  Z.of_nat (length pre) = physical_tail (start_state start)
  ∧ match start with AtAuthority _ => file_header `prefix_of` pre | AtCheckpoint _ => True end.
(** Its frames are the ones it counted, and it stands at their end. *)
Definition writer_ok (start : LogStart) (w : Writer) : Prop :=
  ∃ pre bs es, start_base start pre ∧ dev_bytes (w_inner w) = pre ++ bs
    ∧ written (start_state start) bs es (writer_state w) ∧ at_end (w_inner w).
Lemma authority_start authority : authority_wf authority → start_wf (AtAuthority authority).
Proof. apply fresh_state_wf. Qed.
Lemma plain_start : start_wf (AtAuthority None).
Proof. by apply authority_start. Qed.
Lemma authority_base authority pre : log_base authority pre → start_base (AtAuthority authority) pre.
Proof. by intros [? ?]. Qed.

Lemma lift_dev_Ok {A} (m : stm Device IoError A) d d' a : lift_dev m d = (d', Ok a) ↔ m d = (d', Ok a).
Proof. unfold lift_dev. destruct (m d) as [? []]; simpl; naive_solver. Qed.

Lemma written_u64 s bs es t : is_u64 (next_sequence s) → written s bs es t → is_u64 (next_sequence t).
Proof. intros Hs H%written_chained. by eapply chained_u64. Qed.

(** The sequence a writer continues with after the last verified one. *)
Lemma resume_sequence s bs es t : is_u64 (next_sequence s) → written s bs es t →
  match last_sequence t with
  | None => Ok 0
  | Some last => ok_or (checked_add_u64 (event_seq last) 1) SequenceOverflow
  end = Ok (E := LogError) (next_sequence t).
Proof.
  intros Hs H%written_u64; [|done]. unfold last_sequence, checked_sub_u64, checked_add_u64.
  destruct (fits 0 U64_MAX (next_sequence t - 1)) as [n|] eqn:E; simpl.
  - apply fits_Some in E as [-> _]. rewrite Z.sub_add, is_u64_fits by done. done.
  - apply fits_None in E. unfold is_u64 in H. f_equal. lia.
Qed.

Lemma resume_log_Ok env start scan resolved d d' w pre bs es t rest :
  start_wf start → start_base start pre → dev_flushed d = dev_bytes d → dev_bytes d = pre ++ bs ++ rest →
  written (start_state start) bs es t → verified_tail scan = tail_binding resolved t →
  (incomplete_tail scan = None → rest = []) →
  resume_log env scan d = (d', Ok w) →
  w = from_file (le_path env) d' (next_sequence t) (previous_hash t) (physical_tail t)
  ∧ dev_bytes d' = pre ++ bs ∧ dev_flushed d' = pre ++ bs ∧ dev_durable d' = pre ++ bs ∧ at_end d'.
Proof.
  intros [Hu _] [Hbase _] Hfl Hb Hw Ht Hi H. pose proof (written_tail _ _ _ _ Hw) as [Hlen _].
  assert (physical_tail t = Z.of_nat (length (pre ++ bs))) as Htail by (rewrite Hlen, length_app; lia).
  unfold resume_log in H. rewrite Ht in H. cbn [tb_physical_tail tb_last_sequence tb_last_hash tail_binding] in H.
  apply stm_bind_Ok in H as ([] & d1 & H1 & H).
  assert (dev_bytes d1 = pre ++ bs ∧ dev_flushed d1 = pre ++ bs) as [Hb1 Hf1].
  { unfold truncate_tail in H1. rewrite Ht in H1. cbn [tb_physical_tail tail_binding] in H1. destruct (incomplete_tail scan).
    - apply lift_dev_Ok, dev_set_len_Ok in H1 as [H1 H2]; [|done|].
      + by rewrite H1, H2, Hb, Htail, Nat2Z.id, app_assoc, take_app_length.
      + rewrite Htail, Hb, !length_app. lia.
    - injection H1 as <-. by rewrite Hfl, Hb, (Hi eq_refl), app_nil_r. }
  apply stm_bind_Ok in H as ([] & d2 & (Hb2 & _ & Hf2 & Hd2)%lift_dev_Ok%dev_sync_Ok & H).
  apply stm_bind_Ok in H as ([] & d3 & H3%lift_dev_Ok & H).
  apply dev_seek_Ok in H3 as (Hp3 & Hb3 & Hf3 & Hd3); [|lia].
  rewrite (resume_sequence _ _ _ _ Hu Hw) in H. injection H as <- <-. unfold at_end.
  split; [done|]. by rewrite Hp3, Hb3, Hf3, Hd3, Hb2, Hf2, Hd2, Hb1, Hf1, Htail.
Qed.

Lemma start_log_Ok env d d' w : dev_bytes d = [] → dev_pos d = 0 → start_log env d = (d', Ok w) →
  w = from_file (le_path env) d' 0 genesis_hash HEADER_LEN ∧ dev_bytes d' = file_header
  ∧ dev_flushed d' = file_header ∧ dev_durable d' = file_header ∧ at_end d'.
Proof.
  intros Hd Hpos H. unfold start_log in H. apply stm_bind_Ok in H as ([] & d1 & H1 & H).
  assert (at_end d) as Hend by (unfold at_end; by rewrite Hd, Hpos).
  unfold write_file_header in H1. apply stm_bind_Ok in H1 as ([] & d0 & Hw0%lift_dev_Ok & H1).
  apply write_end in Hw0 as [Hw0 Hend0]; [|done]. apply lift_dev_Ok, write_end in H1 as [H1 Hend1]; [|done]. rewrite Hw0, Hd in H1.
  apply stm_bind_Ok in H as ([] & d2 & (Hb2 & Hp2 & Hf2)%lift_dev_Ok%dev_flush_Ok & H).
  apply stm_bind_Ok in H as ([] & d3 & (Hb3 & Hp3 & Hf3 & Hd3)%lift_dev_Ok%dev_sync_Ok & H).
  injection H as <- <-. unfold at_end in *. split; [done|]. by rewrite Hp3, Hp2, Hend1, Hb3, Hf3, Hd3, Hb2, Hf2, H1.
Qed.
Lemma started_ok env d : dev_bytes d = file_header → at_end d →
  writer_ok (AtAuthority None) (from_file (le_path env) d 0 genesis_hash HEADER_LEN).
Proof. intros Hb He. exists file_header, [], []. rewrite app_nil_r. split_and!; [by split|done|constructor|done]. Qed.

(** What every open leaves behind, whatever the file held. *)
Lemma open_Ok env authority d d' w : le_authority env = Ok authority → authority_wf authority → fresh_handle d →
  open env d = (d', Ok w) →
  w_inner w = d' ∧ w_poison_reason w = None ∧ writer_ok (AtAuthority authority) w ∧ dev_durable d' = dev_bytes d'.
Proof.
  intros Ha Hwf [Hfl Hpos] H. unfold open in H.
  apply stm_bind_Ok in H as ([] & d1 & H1 & H). injection H1 as <- _.
  apply stm_bind_Ok in H as (len & d1 & H1 & H). injection H1 as <- Hlen%map_err_Ok%dev_len_Ok.
  destruct (Z.eqb_spec len 0) as [H0|H0].
  - rewrite Ha in H. apply stm_bind_Ok in H as (a & d1 & [= <- <-] & H). destruct authority as [a|]; [done|].
    apply start_log_Ok in H as (-> & Hb & _ & Hd & He); [|rewrite <- Hfl; destruct (dev_flushed d); [done|simpl in Hlen; lia]|done].
    split_and!; [done..|by apply started_ok|by rewrite Hb, Hd].
  - apply stm_bind_Ok in H as (dd & d1 & H1 & H). injection H1 as <- <-.
    apply stm_bind_Ok in H as (scan & d1 & H1 & H). injection H1 as <- Hs. unfold walked in Hs.
    destruct (inspect (device_file env d)) as [[o|]|] eqn:Hi; simplify_eq/=.
    apply inspect_walk in Hi as (seen & v & Hi).
    apply (walk_eof_written _ authority) in Hi as (resolved & pre & bs & es & t & rest & _ & Hpre & Hb & Hw & Ht & Hinc); [|done..].
    simpl in Hb. rewrite Hfl in Hb.
    apply (resume_log_Ok env (AtAuthority authority) scan resolved d d' w pre bs es t rest) in H as (-> & Hb' & _ & Hd' & He);
      [|by apply authority_start|by apply authority_base|done..].
    split_and!; [done..| |by rewrite Hb', Hd']. exists pre, bs, es. split_and!; [by apply authority_base|done|by destruct t|done].
Qed.

Lemma open_verified_Ok env authority expected d d' w b : le_authority env = Ok authority → authority_wf authority →
  fresh_handle d → open_verified env expected d = (d', Ok (w, b)) →
  w_inner w = d' ∧ w_poison_reason w = None ∧ writer_ok (AtAuthority authority) w ∧ dev_durable d' = dev_bytes d'.
Proof.
  intros Ha Hwf [Hfl Hpos] H. unfold open_verified in H.
  apply stm_bind_Ok in H as ([] & d1 & H1 & H). injection H1 as <- _.
  apply stm_bind_Ok in H as (len & d1 & H1 & H). injection H1 as <- Hlen%map_err_Ok%dev_len_Ok.
  destruct (Z.eqb_spec len 0) as [H0|H0].
  - apply stm_bind_Ok in H as ([] & d1 & H1 & H). injection H1 as <- _. rewrite Ha in H.
    apply stm_bind_Ok in H as (a & d1 & H1 & H). injection H1 as <- <-. destruct authority as [a|]; [done|].
    apply stm_bind_Ok in H as (w1 & d1 & H1 & H).
    apply start_log_Ok in H1 as (-> & Hb & _ & Hd & He); [|rewrite <- Hfl; destruct (dev_flushed d); [done|simpl in Hlen; lia]|done].
    apply stm_bind_Ok in H as (path & d2 & H2 & H). injection H2 as <- _. injection H as <- <- _.
    split_and!; [done..|by apply started_ok|by rewrite Hb, Hd].
  - apply stm_bind_Ok in H as (dd & d1 & H1 & H). injection H1 as <- <-.
    apply stm_bind_Ok in H as ([scan v] & d1 & H1 & H). injection H1 as <- Hs. unfold walked in Hs.
    destruct (walk_locked _ _) as [[seen x]|] eqn:Hi; [|done]. simpl in Hs. subst x.
    apply (walk_eof_written _ authority) in Hi as (resolved & pre & bs & es & t & rest & _ & Hpre & Hb & Hw & Ht & Hinc); [|done..].
    simpl in Hb. rewrite Hfl in Hb. unfold finish_verified_open in H.
    apply stm_bind_Ok in H as ([] & d1 & H1 & H). injection H1 as <- _.
    apply stm_bind_Ok in H as ([] & d1 & H1 & H). injection H1 as <- _.
    apply stm_bind_Ok in H as (w1 & d1 & H1 & H). injection H as <- <- _.
    apply (resume_log_Ok env (AtAuthority authority) scan resolved d d1 w1 pre bs es t rest) in H1 as (-> & Hb' & _ & Hd' & He);
      [|by apply authority_start|by apply authority_base|done..].
    split_and!; [done..| |by rewrite Hb', Hd']. exists pre, bs, es. split_and!; [by apply authority_base|done|by destruct t|done].
Qed.

Lemma write_parts_Ok parts d d' : stm_for parts (λ p, lift_dev (dev_write_all p)) d = (d', Ok tt) → at_end d →
  dev_bytes d' = dev_bytes d ++ concat parts ∧ at_end d'.
Proof.
  revert d. induction parts as [|p parts IH]; intros d; simpl; [intros [= <-] ?; by rewrite app_nil_r|].
  intros ([] & d1 & Hp%lift_dev_Ok & H)%stm_bind_Ok He. apply write_end in Hp as [Hp He1]; [|done].
  apply IH in H as [H He']; [|done]. by rewrite H, Hp, app_assoc.
Qed.

Lemma write_frame_Ok json d d' n : write_frame json d = (d', Ok n) → at_end d →
  ∃ f, encode_frame json = Ok f ∧ n = Z.of_nat (length f) ∧ dev_bytes d' = dev_bytes d ++ f ∧ at_end d'.
Proof.
  intros (parts & d1 & H1 & H)%stm_bind_Ok He. injection H1 as <- Hp.
  apply stm_bind_Ok in H as ([] & d2 & Hd & [= <- <-]). apply write_parts_Ok in Hd; [|done].
  exists (concat parts). split; [|done]. unfold encode_frame. by rewrite Hp.
Qed.

(** A frame write fails before touching the file, or with an I/O error. *)
Lemma write_frame_Err json d d' e : write_frame json d = (d', Err e) → d' = d ∨ ∃ io, e = LogIo io.
Proof.
  unfold write_frame. rewrite stm_bind_run. unfold stm_lift at 1.
  destruct (frame_parts json) as [parts|]; [|intros [= <- _]; by left].
  rewrite stm_bind_run. intros H. right.
  assert (∃ io, (stm_for parts (λ p, lift_dev (dev_write_all p)) d).2 = Err (LogIo io)) as [io Hio].
  { destruct (stm_for _ _ d) as [d1 [[]|e1]] eqn:E; [done|]. injection H as <- <-. clear -E.
    revert d E. induction parts as [|p parts IH]; intros d; simpl; [done|].
    rewrite stm_bind_run. unfold lift_dev at 1. destruct (dev_write_all p d) as [d2 [[]|io]]; [apply IH|].
    intros [= _ <-]. by eexists. }
  destruct (stm_for _ _ d) as [d1 x]. simpl in Hio. subst x. injection H as <- <-. by eexists.
Qed.

Lemma append_verifies w i raw c this off : compute_hashes (append_input w i) = Ok (raw, c, this) →
  verify_envelope (append_envelope w i raw this) {| event_seq := w_next_seq w |} (w_last_hash w) off = Ok tt.
Proof.
  intros H. unfold verify_envelope, verify_chain. change (hash_input_of _) with (append_input w i).
  rewrite H. unfold compute_hashes in H. apply result_bind_Ok in H as (b & _ & [= <- _ <-]). simpl.
  by repeat (rewrite decide_True by done).
Qed.

(** The frame of the next envelope extends the log. *)
Lemma frame_extends start i w raw c this next json f : start_wf start → writer_ok start w →
  checked_add_u64 (w_next_seq w) 1 = Some next → compute_hashes (append_input w i) = Ok (raw, c, this) →
  envelope_to_vec (append_envelope w i raw this) = Ok json → encode_frame json = Ok f →
  written (writer_state w) f [append_envelope w i raw this]
    {| next_sequence := next; previous_hash := this; physical_tail := w_cursor w + Z.of_nat (length f) |}.
Proof.
  intros Hauth (pre & bs & es & _ & _ & Hw & _) Hn Hh Hj Hf.
  assert (envelope_wf (append_envelope w i raw this)) as Hwf.
  { apply written_chained in Hw as Hch. apply chained_wf in Hch; [|apply Hauth].
    unfold compute_hashes in Hh. apply result_bind_Ok in Hh as (b & _ & [= <- _ <-]).
    split; [apply blake3_wf|]. split; [exact Hch|apply blake3_wf]. }
  assert (envelope_frame (append_envelope w i raw this) = Ok f) as He by (unfold envelope_frame; by rewrite Hj).
  destruct (envelope_frame_ok _ _ Hwf He) as (json' & Hok & Hj').
  rewrite <- (app_nil_r f) at 1. eapply (written_cons _ _ json' f [] []); [done|done| | |constructor].
  - by eapply append_verifies.
  - unfold after_frame. simpl. by rewrite Hn.
Qed.

(** A successful append: the envelope it wrote and the writer afterwards. *)
Lemma append_Ok start i w w' seq : start_wf start → append i w = (w', Ok seq) → w_poison_reason w = None →
  writer_ok start w →
  writer_ok start w' ∧ w_poison_reason w' = None ∧ seq = {| event_seq := w_next_seq w |}
  ∧ ∃ raw this f, envelope_frame (append_envelope w i raw this) = Ok f
      ∧ dev_bytes (w_inner w') = dev_bytes (w_inner w) ++ f
      ∧ written (writer_state w) f [append_envelope w i raw this] (writer_state w').
Proof.
  intros Hauth H Hp Hok. pose proof Hok as (pre & bs & es & Hpre & Hb & Hw & He). unfold append in H.
  apply stm_bind_Ok in H as ([] & w1 & H1 & H). injection H1 as <- _.
  apply stm_bind_Ok in H as (ww & w1 & H1 & H). injection H1 as <- <-.
  apply stm_bind_Ok in H as (next & w1 & H1 & H). injection H1 as <- Hn.
  apply stm_bind_Ok in H as ([[raw c] this] & w1 & H1 & H). injection H1 as <- Hh.
  apply stm_bind_Ok in H as (json & w1 & H1 & H). injection H1 as <- Hj.
  apply stm_bind_Ok in H as ([] & w1 & H1 & [= <- <-]).
  unfold append_frame in H1. destruct (write_frame json (w_inner w)) as [d [n|]] eqn:Hf; [|done].
  destruct (checked_add_u64 (w_cursor w) n) as [cursor|] eqn:Hc; [|done]. injection H1 as <-.
  apply write_frame_Ok in Hf as (f & Hf & -> & Hd & He'); [|done]. apply fits_Some in Hc as [-> _].
  assert (envelope_frame (append_envelope w i raw this) = Ok f) as Hfr.
  { unfold envelope_frame. rewrite Hj. done. }
  pose proof (frame_extends start i w raw c this next json f Hauth Hok) as Hstep.
  apply ok_or_Ok in Hn. apply map_err_Ok in Hj. specialize (Hstep Hn Hh Hj Hf). set (w' := {| w_path := w_path w |}).
  split_and!; [|done|done|by exists raw, this, f].
  exists pre, (bs ++ f), (es ++ [append_envelope w i raw this]). cbn [w_inner w']. rewrite Hd, Hb, app_assoc.
  split_and!; [done|done|by eapply written_app|done].
Qed.

(** Any error of an append leaves the writer untouched or poisons it. *)
Lemma append_Err i w w' e : append i w = (w', Err e) → w' = w ∨ is_Some (w_poison_reason w').
Proof.
  unfold append. rewrite stm_bind_run. unfold ensure_healthy at 1.
  destruct (w_poison_reason w) as [r|] eqn:Hp; [intros [= <- _]; by left|].
  rewrite stm_bind_run. unfold stm_get at 1. rewrite stm_bind_run. unfold stm_lift at 1.
  destruct (ok_or _ _) as [next|]; [|intros [= <- _]; by left].
  rewrite stm_bind_run. unfold stm_lift at 1.
  destruct (compute_hashes _) as [[[raw c] this]|]; [|intros [= <- _]; by left].
  rewrite stm_bind_run. unfold stm_lift at 1.
  destruct (map_err _ _) as [json|]; [|intros [= <- _]; by left].
  rewrite stm_bind_run. unfold append_frame.
  destruct (write_frame json (w_inner w)) as [d [n|e']] eqn:Hf.
  - destruct (checked_add_u64 _ _); [done|]. intros [= <- _]. right. by eexists.
  - intros [= <- _]. apply write_frame_Err in Hf as [->|[io ->]]; [|right; by eexists].
    destruct e'; try (left; by destruct w). right. by eexists.
Qed.

Lemma or_poison_Ok reason m w w' : or_poison reason m w = (w', Ok tt) →
  ∃ d, m (w_inner w) = (d, Ok tt) ∧ w' = set_inner d w.
Proof. unfold or_poison. destruct (m (w_inner w)) as [d [[]|]]; [|done]. intros [= <-]. by exists d. Qed.

Lemma or_poison_Err reason m w w' e : or_poison reason m w = (w', Err e) → is_Some (w_poison_reason w').
Proof. unfold or_poison. destruct (m (w_inner w)) as [d [[]|]]; [done|]. intros [= <- _]. by eexists. Qed.

Lemma flush_Ok w w' : flush w = (w', Ok tt) → ∃ d, w' = set_inner d w
  ∧ dev_bytes d = dev_bytes (w_inner w) ∧ dev_flushed d = dev_bytes (w_inner w) ∧ dev_pos d = dev_pos (w_inner w).
Proof.
  intros ([] & w1 & H1 & (d & Hd%dev_flush_Ok & ->)%or_poison_Ok)%stm_bind_Ok.
  injection H1 as <- _. exists d. naive_solver.
Qed.

Lemma flush_Err w w' e : flush w = (w', Err e) → is_Some (w_poison_reason w').
Proof.
  unfold flush. rewrite stm_bind_run. unfold ensure_healthy.
  destruct (w_poison_reason w) as [r|] eqn:Hp; [|apply or_poison_Err]. intros [= <- _]. rewrite Hp. by eexists.
Qed.

Lemma sync_Ok w w' : sync w = (w', Ok tt) → ∃ d, w' = set_inner d w ∧ dev_bytes d = dev_bytes (w_inner w)
  ∧ dev_flushed d = dev_bytes (w_inner w) ∧ dev_durable d = dev_bytes (w_inner w) ∧ dev_pos d = dev_pos (w_inner w).
Proof.
  intros ([] & w1 & (d1 & -> & Hb1 & Hf1 & Hp1)%flush_Ok & (d & (Hb & Hp & Hf & Hd)%dev_sync_Ok & ->)%or_poison_Ok)%stm_bind_Ok.
  simpl in *. exists d. split; [done|]. by rewrite Hb, Hf, Hd, Hp, Hb1, Hf1, Hp1.
Qed.

Lemma sync_Err w w' e : sync w = (w', Err e) → is_Some (w_poison_reason w').
Proof.
  unfold sync. rewrite stm_bind_run. destruct (flush w) as [w1 [[]|e1]] eqn:E; [apply or_poison_Err|].
  intros [= <- _]. by apply flush_Err in E.
Qed.

Lemma writer_ok_set_inner start d w : dev_bytes d = dev_bytes (w_inner w) → dev_pos d = dev_pos (w_inner w) →
  writer_ok start w → writer_ok start (set_inner d w).
Proof.
  intros Hd Hp (pre & bs & es & Hpre & Hb & Hw & He). exists pre, bs, es. unfold at_end in *. cbn [set_inner w_inner].
  by rewrite Hd, Hp, <- Hb.
Qed.

(** What every operation keeps. *)
Section Invariant.
Context (start : LogStart) (Hstart : start_wf start).
Definition writer_inv (w : Writer) : Prop := w_poison_reason w = None → writer_ok start w.

Lemma writer_inv_poisoned w : is_Some (w_poison_reason w) → writer_inv w.
Proof. by intros [r Hr] ?; congruence. Qed.

Lemma append_inv i w : writer_inv w → writer_inv (append i w).1.
Proof.
  intros Hw. destruct (append i w) as [w' [seq|e]] eqn:E; simpl.
  - destruct (w_poison_reason w) as [r|] eqn:Hp.
    { unfold append in E. rewrite stm_bind_run in E. unfold ensure_healthy in E. by rewrite Hp in E. }
    intros _. by apply (append_Ok start) in E as (? & _); [|done|done|apply Hw].
  - apply append_Err in E as [->|?]; [done|]. by apply writer_inv_poisoned.
Qed.

Lemma sync_inv w : writer_inv w → writer_inv (sync w).1.
Proof.
  intros Hw. destruct (sync w) as [w' [[]|e]] eqn:E; simpl.
  - apply sync_Ok in E as (d & -> & Hb & _ & _ & Hpos). intros Hp. apply writer_ok_set_inner; [done..|]. by apply Hw.
  - apply writer_inv_poisoned. by apply sync_Err in E.
Qed.

Lemma flush_inv w : writer_inv w → writer_inv (flush w).1.
Proof.
  intros Hw. destruct (flush w) as [w' [[]|e]] eqn:E; simpl.
  - apply flush_Ok in E as (d & -> & Hb & _ & Hpos). intros Hp. apply writer_ok_set_inner; [done..|]. by apply Hw.
  - apply writer_inv_poisoned. by apply flush_Err in E.
Qed.
End Invariant.

Lemma append_synced_state i w : (append_synced i w).1 = (append i w).1
  ∨ (append_synced i w).1 = (sync (append i w).1).1.
Proof.
  unfold append_synced. rewrite stm_bind_run. destruct (append i w) as [w1 [seq|]]; [right|by left].
  rewrite stm_bind_run. unfold stm_get. rewrite stm_bind_run. simpl. by destruct (sync w1) as [? []].
Qed.

Lemma verified_tail_state resolved w : (writer_verified_tail resolved w).1 = (sync w).1.
Proof.
  unfold writer_verified_tail. rewrite stm_bind_run. destruct (sync w) as [w1 [[]|]]; [|done].
  rewrite stm_bind_run. unfold stm_get. rewrite stm_bind_run. unfold stm_lift at 1.
  destruct (map_err _ _); [|done]. case_bool_decide; [done|]. rewrite stm_bind_run. unfold stm_lift.
  by destruct (map_err _ _).
Qed.

(** *** The checkpointed open *)
Definition checkpoint_wf (checkpoint : option (LogTailBinding * string)) : Prop :=
  match checkpoint with Some (tail, _) => is_u64 (tb_physical_tail tail) ∧ hash_wf (tb_last_hash tail) | None => True end.
(** A checkpoint is used only if the file reaches it. *)
Lemma checkpoint_resume_Some env d authority expected checkpoint deferred_len digest tail digest' :
  le_authority env = Ok authority → checkpoint_wf checkpoint →
  (∀ n, deferred_len = Some n → n = Z.of_nat (length (dev_flushed d))) →
  checkpoint_resume env d authority expected checkpoint deferred_len digest = (Some tail, digest') →
  (∃ h, checkpoint = Some (tail, h))
  ∧ (tb_physical_tail tail ≤ Z.of_nat (length (dev_flushed d)) ∨ ∃ a, authority = Some a ∧ tb_physical_tail tail = rb_offset (ra_boundary a)).
Proof.
  intros Ha Hwf Hdef. unfold checkpoint_resume. destruct checkpoint as [[tail' h]|]; [|done].
  destruct (le_resolved env) as [resolved|]; [|done]. destruct (_ || _ || _); [done|]. destruct deferred_len as [n|].
  { destruct (Z.leb_spec (tb_physical_tail tail') n) as [Hle|]; [|done]. intros [= -> _]. split; [by exists h|].
    left. by rewrite <- (Hdef n eq_refl). }
  destruct (hash_open_prefix _ _) as [bytes|] eqn:Hh; [|done]. case_bool_decide; [done|]. intros [= -> _]. split; [by exists h|].
  unfold hash_open_prefix in Hh. simpl in Hh. rewrite Ha in Hh. simpl in Hh.
  apply result_bind_Ok in Hh as (len & Hlen%ok_or_Ok & Hh). unfold checked_sub_u64 in Hlen. apply fits_Some in Hlen as [-> Hlen].
  set (offset := match authority with Some a => rb_offset (ra_boundary a) | None => 0 end) in *.
  destruct (Z.eqb_spec (Z.of_nat (length (take (Z.to_nat (tb_physical_tail tail - offset)) (drop (Z.to_nat offset) (dev_flushed d)))))
              (tb_physical_tail tail - offset)) as [E|] in Hh; [|done].
  rewrite length_take, length_drop in E. destruct (decide (tb_physical_tail tail = offset)) as [Heq|Hne].
  - destruct authority as [a|]; [right; by exists a|left; lia].
  - left. lia.
Qed.
(** Where the verified frames of a checkpointed open begin. *)
Definition checkpoint_start (authority : option RetentionAuthority) (checkpoint : option (LogTailBinding * string))
    (used : bool) : LogStart :=
  match checkpoint with Some (tail, _) => if used then AtCheckpoint tail else AtAuthority authority | None => AtAuthority authority end.
Lemma finish_verified_Ok env start scan resolved v d d' w b pre bs es t rest :
  start_wf start → start_base start pre → dev_flushed d = dev_bytes d → dev_bytes d = pre ++ bs ++ rest →
  written (start_state start) bs es t → verified_tail scan = tail_binding resolved t → (incomplete_tail scan = None → rest = []) →
  finish_verified_open env scan v true d = (d', Ok (w, b)) →
  w_inner w = d' ∧ w_poison_reason w = None ∧ writer_ok start w.
Proof.
  intros Hwf Hpre Hfl Hb Hw Ht Hi H. unfold finish_verified_open in H.
  apply stm_bind_Ok in H as ([] & d1 & H1 & H). injection H1 as <- _.
  apply stm_bind_Ok in H as ([] & d1 & H1 & H). injection H1 as <- _.
  apply stm_bind_Ok in H as (w1 & d1 & H1 & H). injection H as <- <- _.
  apply (resume_log_Ok env start scan resolved d d1 w1 pre bs es t rest) in H1 as (-> & Hb' & _ & Hd' & He); [|done..].
  split_and!; [done..|]. exists pre, bs, es. split_and!; [done|done|by destruct t|done].
Qed.
Lemma deferred_len_Ok prefix_mode d d' n :
  match prefix_mode with
  | CheckpointDefer => len ← metadata_len; mret (Some len)
  | CheckpointVerify => mret None
  end d = (d', Ok n) → d' = d ∧ ∀ m, n = Some m → m = Z.of_nat (length (dev_flushed d)).
Proof.
  destruct prefix_mode; [by intros [= <- <-]|]. intros (len & d1 & H1 & [= <- <-])%stm_bind_Ok.
  injection H1 as <- Hlen%map_err_Ok%dev_len_Ok. split; [done|]. by intros m [= <-].
Qed.
Lemma open_checkpoint_Ok env authority expected checkpoint prefix_mode digest d d' w b cv digest' :
  le_authority env = Ok authority → authority_wf authority → checkpoint_wf checkpoint → fresh_handle d →
  open_verified_checkpoint env expected checkpoint prefix_mode digest d = (d', Ok (w, b, cv, digest')) →
  let start := checkpoint_start authority checkpoint (cv_used cv) in
  start_wf start ∧ w_inner w = d' ∧ w_poison_reason w = None ∧ writer_ok start w.
Proof.
  intros Ha Hwf Hck [Hfl _] H. cbv zeta. unfold open_verified_checkpoint in H.
  apply stm_bind_Ok in H as ([] & d1 & H1 & H). injection H1 as <- _. rewrite Ha in H.
  apply stm_bind_Ok in H as (auth & d1 & H1 & H). injection H1 as <- <-.
  apply stm_bind_Ok in H as (dd & d1 & H1 & H). injection H1 as <- <-.
  apply stm_bind_Ok in H as ([] & d1 & H1 & H). injection H1 as <- _.
  apply stm_bind_Ok in H as (n & d1 & [-> Hn]%deferred_len_Ok & H).
  destruct (checkpoint_resume _ _ _ _ _ _ _) as [resume dig] eqn:Hres.
  apply stm_bind_Ok in H as ([] & d1 & H1 & H). injection H1 as <- _.
  apply stm_bind_Ok in H as ([dig' [scan v]] & d1 & H1 & H). injection H1 as <- Hwalk.
  apply stm_bind_Ok in H as ([w1 b1] & d1 & Hfin & H). injection H as <- <- <- <- <-. cbn [cv_used].
  destruct (walk_hashed _ _ _ _ _) as [[dig2 [seen x]]|] eqn:Hw; [|done]. apply result_bind_Ok in Hwalk as (y & -> & [= <- ->]).
  assert (match resume with Some tail => 0 ≤ tb_physical_tail tail ≤ file_len (device_file env d) | None => True end) as Hin.
  { destruct resume as [tail|]; [|done]. destruct (checkpoint_resume_Some _ _ _ _ _ _ _ _ _ Ha Hck Hn Hres) as [[h ->] Hle].
    destruct Hck as [[Hpos _] _]. split; [done|]. unfold file_len. simpl. destruct Hle as [|(a & -> & Heq)]; [done|].
    unfold walk_hashed in Hw. destruct (hashed_start _ _ _ _ _) as [[ws dig3]|] eqn:Hst; [|done].
    destruct (hashed_start_Ok (device_file env d) _ _ _ _ _ _ Ha Hwf Hst) as (_ & _ & Hoff & _). unfold file_len in Hoff. simpl in Hoff. lia. }
  destruct (walk_hashed_written (device_file env d) _ _ _ _ _ _ _ _ Ha Hwf Hin Hw) as (resolved & pre & bs & es & t & rest & Hb & Hparts & Ht & Hinc).
  simpl in Hb. rewrite Hfl in Hb. destruct resume as [tail|].
  - destruct (checkpoint_resume_Some _ _ _ _ _ _ _ _ _ Ha Hck Hn Hres) as [[h ->] _]. destruct Hck as [_ Hh]. simpl.
    destruct Hparts as (Hpre & Hu & Hwr). assert (start_wf (AtCheckpoint tail)) as Hs by by split.
    split; [done|]. by eapply (finish_verified_Ok env (AtCheckpoint tail)).
  - destruct Hparts as [Hpre Hwr]. rewrite bool_decide_eq_false_2 by (by intros [? [=]]).
    assert (checkpoint_start authority checkpoint false = AtAuthority authority) as -> by (by destruct checkpoint as [[]|]).
    split; [by apply authority_start|]. eapply (finish_verified_Ok env (AtAuthority authority)); [by apply authority_start|by apply authority_base|done..].
Qed.
Lemma open_expected_open env expected d d' w : open_with_expected_tail env expected d = (d', Ok w) → open env d = (d', Ok w).
Proof.
  unfold open_with_expected_tail. intros (dd & d1 & H1 & H)%stm_bind_Ok. injection H1 as <- <-.
  apply stm_bind_Ok in H as (a & d1 & H1 & H). injection H1 as <- _. apply stm_bind_Ok in H as ([] & d1 & H1 & H). injection H1 as <- _.
  apply stm_bind_Ok in H as (scan & d1 & H1 & H). injection H1 as <- _. case_bool_decide; [done|]. by destruct (_ || _).
Qed.

(** ** Every writer the program can hold *)

(** Opened in one of the four ways from a new handle of a file, with whatever retention
    authority was loaded, then driven by its operations, with any outcome. *)
Inductive reachable (env : LogEnv) : LogStart → Writer → Prop :=
| reach_open authority d d' w : le_authority env = Ok authority → authority_wf authority → fresh_handle d →
    open env d = (d', Ok w) → reachable env (AtAuthority authority) w
| reach_open_verified authority expected d d' w b : le_authority env = Ok authority → authority_wf authority → fresh_handle d →
    open_verified env expected d = (d', Ok (w, b)) → reachable env (AtAuthority authority) w
| reach_open_expected authority expected d d' w : le_authority env = Ok authority → authority_wf authority → fresh_handle d →
    open_with_expected_tail env expected d = (d', Ok w) → reachable env (AtAuthority authority) w
| reach_open_checkpoint authority expected checkpoint prefix_mode digest d d' w b cv digest' :
    le_authority env = Ok authority → authority_wf authority → checkpoint_wf checkpoint → fresh_handle d →
    open_verified_checkpoint env expected checkpoint prefix_mode digest d = (d', Ok (w, b, cv, digest')) →
    reachable env (checkpoint_start authority checkpoint (cv_used cv)) w
| reach_append start i w : reachable env start w → reachable env start (append i w).1
| reach_flush start w : reachable env start w → reachable env start (flush w).1
| reach_sync start w : reachable env start w → reachable env start (sync w).1
| reach_append_synced start i w : reachable env start w → reachable env start (append_synced i w).1
| reach_verified_tail start w : reachable env start w → reachable env start (writer_verified_tail (le_resolved env) w).1.

Lemma reachable_inv env start w : reachable env start w → start_wf start ∧ writer_inv start w.
Proof.
  induction 1 as [a d d' w Ha Hwf Hd Ho|a expected d d' w b Ha Hwf Hd Ho|a expected d d' w Ha Hwf Hd Ho
    |a expected checkpoint mode digest d d' w b cv digest' Ha Hwf Hck Hd Ho
    |start i w _ [Hs IH]|start w _ [Hs IH]|start w _ [Hs IH]|start i w _ [Hs IH]|start w _ [Hs IH]].
  - split; [by apply authority_start|]. intros _. by destruct (open_Ok _ _ _ _ _ Ha Hwf Hd Ho) as (_ & _ & ? & _).
  - split; [by apply authority_start|]. intros _. by destruct (open_verified_Ok _ _ _ _ _ _ _ Ha Hwf Hd Ho) as (_ & _ & ? & _).
  - split; [by apply authority_start|]. intros _. apply open_expected_open in Ho.
    by destruct (open_Ok _ _ _ _ _ Ha Hwf Hd Ho) as (_ & _ & ? & _).
  - destruct (open_checkpoint_Ok _ _ _ _ _ _ _ _ _ _ _ _ Ha Hwf Hck Hd Ho) as (? & _ & _ & ?). split; [done|by intros _].
  - split; [done|]. by apply append_inv.
  - split; [done|]. by apply flush_inv.
  - split; [done|]. by apply sync_inv.
  - split; [done|]. destruct (append_synced_state i w) as [->| ->]; [by apply append_inv|]. by apply sync_inv, append_inv.
  - split; [done|]. rewrite verified_tail_state. by apply sync_inv.
Qed.

(** a writer never believes in a tail its file does not have: whatever was
    appended, flushed or failed before, a tail the writer publishes is the one an
    independent scan of the file verifies, with nothing after it, and the whole
    file is durable. *)
Theorem verified_tail_is_scanned env w w' b :
  le_authority env = Ok None → reachable env (AtAuthority None) w →
  writer_verified_tail (le_resolved env) w = (w', Ok b) → dev_read_end (w_inner w') = None →
  inspect (device_file env (w_inner w')) = Some (Ok {| verified_tail := b; incomplete_tail := None |})
  ∧ dev_durable (w_inner w') = dev_bytes (w_inner w').
Proof.
  intros Ha Hr H Hend. apply reachable_inv in Hr as [_ Hr].
  unfold writer_verified_tail in H. apply stm_bind_Ok in H as ([] & w1 & Hs & H).
  assert (w_poison_reason w = None) as Hp.
  { destruct (w_poison_reason w) eqn:Hp; [|done]. unfold sync, flush in Hs.
    rewrite !stm_bind_run in Hs. unfold ensure_healthy in Hs. by rewrite Hp in Hs. }
  apply sync_Ok in Hs as (d & -> & Hb & Hf & Hd & _).
  apply stm_bind_Ok in H as (ww & w2 & H1 & H). injection H1 as <- <-.
  apply stm_bind_Ok in H as (n & w2 & H1 & H). injection H1 as <- _. case_bool_decide; [done|].
  apply stm_bind_Ok in H as (path & w2 & H1 & H). injection H1 as <- Hpath%map_err_Ok.
  injection H as <- <-. cbn [set_inner w_inner] in *.
  destruct (Hr Hp) as (pre & bs & es & [Hl [more ->]] & Hbytes & Hw & _). split; [|by rewrite Hd].
  assert (file_header ++ more = file_header) as Hpre by (by apply log_base_None; split; [exists more|]). rewrite Hpre in Hbytes.
  destruct (scan_plain (device_file env d) (until_eof None) path bs es (writer_state w) [])
    as (offs & p & _ & Hwalk & Hexp); try done; [by left|simpl; by rewrite Hf, Hbytes, app_nil_r|].
  unfold inspect. by rewrite Hwalk.
Qed.

(** C27: a receipt is only returned for a durable event.  For every writer opened by [open],
    [open_verified], [open_with_expected_tail] or [open_verified_checkpoint] from a new handle, with
    whatever retention authority and checkpoint, and driven by any operations with any outcomes: after
    [append_synced] succeeds, what survives a crash is the bytes before the writer's start (the header,
    the retired bytes, or the checkpoint's prefix) and after them a valid log from that start on, whose
    last envelope is the appended event under the receipt's sequence and chain hash. *)
Theorem receipt_is_durable env start w i w' receipt :
  reachable env start w → append_synced i w = (w', Ok receipt) →
  ∃ pre bs es e t, start_base start pre ∧ dev_durable (w_inner w') = pre ++ bs ∧ written (start_state start) bs (es ++ [e]) t
    ∧ env_seq e = receipt_sequence receipt ∧ env_this_hash e = receipt_this_hash receipt
    ∧ env_payload e = in_payload i ∧ env_source_id e = in_source_id i.
Proof.
  intros [Hstart Hr]%reachable_inv H. unfold append_synced in H.
  apply stm_bind_Ok in H as (seq & w1 & Happ & H).
  apply stm_bind_Ok in H as (ww & w2 & H1 & H). injection H1 as <- <-.
  apply stm_bind_Ok in H as ([] & w2 & (d & -> & Hb & Hf & Hd & _)%sync_Ok & H). injection H as <- <-.
  assert (w_poison_reason w = None) as Hp.
  { destruct (w_poison_reason w) eqn:Hp; [|done]. unfold append in Happ.
    rewrite stm_bind_run in Happ. unfold ensure_healthy in Happ. by rewrite Hp in Happ. }
  destruct (append_Ok _ _ _ _ _ Hstart Happ Hp (Hr Hp)) as (_ & _ & -> & raw & this & f & _ & Hbytes & Hstep).
  destruct (Hr Hp) as (pre & bs & es & Hpre & Hw0 & Hw & _).
  exists pre, (bs ++ f), es, (append_envelope w i raw this), (writer_state w1). cbn [w_inner set_inner].
  split; [done|]. split; [by rewrite Hd, Hbytes, Hw0, app_assoc|]. split; [by eapply written_app|]. split_and!; try done.
  apply written_chained in Hstep. destruct (chained_snoc_inv _ [] _ _ Hstep) as (t & tail & _ & _ & Ht).
  by apply after_frame_Ok in Ht as (_ & <- & _).
Qed.

(** no append is half done: an error leaves the writer exactly as it was or
    poisons it, and a poisoned writer refuses every operation without touching
    its file. *)
Theorem errors_leave_or_poison w :
  (∀ i w' e, append i w = (w', Err e) → w' = w ∨ is_Some (w_poison_reason w'))
  ∧ (∀ i w' e, append_synced i w = (w', Err e) → w' = w ∨ is_Some (w_poison_reason w'))
  ∧ (∀ r, w_poison_reason w = Some r →
       (∀ i, append i w = (w, Err (Poisoned r)) ∧ append_synced i w = (w, Err (Poisoned r)))
       ∧ flush w = (w, Err (Poisoned r)) ∧ sync w = (w, Err (Poisoned r))
       ∧ ∀ x, writer_verified_tail x w = (w, Err (Poisoned r))).
Proof.
  split_and!.
  - intros i w' e. apply append_Err.
  - intros i w' e H. unfold append_synced in H. rewrite stm_bind_run in H.
    destruct (append i w) as [w1 [seq|e1]] eqn:Happ.
    + rewrite stm_bind_run in H. unfold stm_get in H. rewrite stm_bind_run in H. simpl in H.
      destruct (sync w1) as [w2 [[]|e2]] eqn:Hs; [done|]. injection H as <- _. right. by apply sync_Err in Hs.
    + injection H as <- _. by apply append_Err in Happ.
  - intros r Hr.
    assert (ensure_healthy w = (w, Err (Poisoned r))) as He by (unfold ensure_healthy; by rewrite Hr).
    assert (∀ i, append i w = (w, Err (Poisoned r))) as Happ
      by (intros i; unfold append; by rewrite stm_bind_run, He).
    assert (flush w = (w, Err (Poisoned r))) as Hf by (unfold flush; by rewrite stm_bind_run, He).
    assert (sync w = (w, Err (Poisoned r))) as Hs by (unfold sync; by rewrite stm_bind_run, Hf).
    split_and!; [|done|done|].
    + intros i. split; [done|]. unfold append_synced. by rewrite stm_bind_run, Happ.
    + intros x. unfold writer_verified_tail. by rewrite stm_bind_run, Hs.
Qed.

Lemma lift_dev_Err {A} (m : stm Device IoError A) d d' e : lift_dev m d = (d', Err e) → ∃ io, e = LogIo io.
Proof. unfold lift_dev. destruct (m d) as [? []]; [done|]. intros [= _ <-]. by eexists. Qed.

(** Resuming a verified log fails only with an I/O error. *)
Lemma resume_log_Err env start scan resolved d d' bs es t e : start_wf start →
  written (start_state start) bs es t → verified_tail scan = tail_binding resolved t →
  resume_log env scan d = (d', Err e) → ∃ io, e = LogIo io.
Proof.
  intros [Hu _] Hw Ht H. unfold resume_log in H. rewrite Ht in H.
  cbn [tb_physical_tail tb_last_sequence tb_last_hash tail_binding] in H.
  rewrite stm_bind_run in H. destruct (truncate_tail scan d) as [d1 [[]|e1]] eqn:E1.
  2:{ injection H as <- <-. unfold truncate_tail in E1.
      destruct (incomplete_tail scan); [by apply lift_dev_Err in E1|done]. }
  rewrite stm_bind_run in H. destruct (lift_dev dev_sync d1) as [d2 [[]|e2]] eqn:E2;
    [|injection H as <- <-; by apply lift_dev_Err in E2].
  rewrite stm_bind_run in H. destruct (lift_dev (dev_seek _) d2) as [d3 [[]|e3]] eqn:E3;
    [|injection H as <- <-; by apply lift_dev_Err in E3].
  by rewrite (resume_sequence _ _ _ _ Hu Hw) in H.
Qed.

Lemma open_torn env authority resolved d pre bs es t torn :
  le_authority env = Ok authority → authority_wf authority → le_resolved env = Ok resolved → dev_read_end d = None →
  dev_flushed d = dev_bytes d → log_base authority pre → written (fresh_state authority) bs es t → torn_tail torn →
  dev_bytes d = pre ++ bs ++ torn → retained_met authority resolved bs es t →
  match open env d with
  | (d', Ok w) =>
      w = from_file (le_path env) d' (next_sequence t) (previous_hash t) (physical_tail t)
      ∧ dev_bytes d' = pre ++ bs ∧ dev_flushed d' = pre ++ bs ∧ dev_durable d' = pre ++ bs ∧ at_end d'
  | (_, Err e) => e = Locked (le_path env) ∨ ∃ io, e = LogIo io
  end.
Proof.
  intros Ha Hwf Hres Hend Hfl Hpre Hw Ht Hb Hmet.
  destruct (scan_written (device_file env d) authority (until_eof None) resolved pre bs es t torn) as (offs & p & _ & Hwalk & _);
    try done; [simpl; by rewrite Hfl, Hb|by destruct authority|].
  assert (inspect (device_file env d) = Some (Ok {| verified_tail := tail_binding resolved t;
    incomplete_tail := incomplete_at torn t |})) as Hi by (unfold inspect; by rewrite Hwalk).
  destruct (open env d) as [d' x] eqn:Ho. unfold open in Ho. rewrite stm_bind_run in Ho.
  unfold lock_exclusive in Ho. destruct (dev_try_lock d) as [[]|io]; simpl in Ho.
  2:{ injection Ho as <- <-. case_decide; [by left|right; by eexists]. }
  rewrite stm_bind_run in Ho. unfold metadata_len in Ho.
  destruct (dev_len d) as [n|io] eqn:Hlen; simpl in Ho; [|injection Ho as <- <-; right; by eexists].
  apply dev_len_Ok in Hlen. destruct (Z.eqb_spec n 0) as [H0|_].
  { destruct Hpre as [[more ->] _]. rewrite Hfl, Hb in Hlen. simpl in Hlen. lia. }
  rewrite stm_bind_run in Ho. cbn [stm_get] in Ho. rewrite stm_bind_run in Ho. unfold stm_lift in Ho.
  rewrite Hi in Ho. cbn [walked default from_option] in Ho. pose proof (authority_start _ Hwf) as Hs.
  destruct x as [w|e]; [|right; by eapply (resume_log_Err _ (AtAuthority authority)) in Ho].
  apply (resume_log_Ok env (AtAuthority authority) _ resolved d d' w pre bs es t torn) in Ho as (-> & ? & ? & ? & ?);
    [|try done..]; [done|by apply authority_base|]. by destruct torn.
Qed.

(** C29: a crash during an append costs only that append.  Opening a log whose last write was cut
    anywhere inside its frame keeps every complete frame, drops the cut, makes the result durable and
    continues from it; the open can fail only on a held lock or an I/O error.  The path resolves,
    and the handle has nothing buffered and is readable to its end; the file has no retention
    authority, or one that validates and whose committed tail the frames reach, in which case the
    bytes before its boundary are kept too. *)
Theorem open_recovers_torn env authority resolved d pre bs es t torn :
  le_authority env = Ok authority → authority_wf authority → le_resolved env = Ok resolved → dev_read_end d = None →
  dev_flushed d = dev_bytes d → log_base authority pre → written (fresh_state authority) bs es t → torn_tail torn →
  dev_bytes d = pre ++ bs ++ torn → retained_met authority resolved bs es t →
  match open env d with
  | (d', Ok w) =>
      w = from_file (le_path env) d' (next_sequence t) (previous_hash t) (physical_tail t)
      ∧ dev_bytes d' = pre ++ bs ∧ dev_durable d' = pre ++ bs ∧ dev_pos d' = Z.of_nat (length (dev_bytes d'))
  | (_, Err e) => e = Locked (le_path env) ∨ ∃ io, e = LogIo io
  end.
Proof.
  intros H1 H2 H3 H4 H5 H6 H7 H8 H9 H10. pose proof (open_torn _ _ _ _ _ _ _ _ _ H1 H2 H3 H4 H5 H6 H7 H8 H9 H10) as H.
  destruct (open env d) as [d' [w|e]]; [|done]. by destruct H as (? & ? & _ & ? & ?).
Qed.

End WriterFacts.

(** ** [receipt.rs]: fixed-width receipt records *)

Definition RECEIPT_RECORD_LEN : Z := 80.
Record ReceiptRecord := {
  rr_receipt : AppendReceipt;
  rr_received_millis : Z;
  rr_byte_offset : option Z
}.
(** [i64::to_le_bytes] and its inverse: two's complement. *)
Definition i64_le_bytes (z : Z) : list Z := le_bytes 8 (z mod 18446744073709551616).
Definition i64_from_le (bs : list Z) : Z :=
  let u := le_decode bs in if u <=? I64_MAX then u else u - 18446744073709551616.

Section Receipts.
Context {B3 : Blake3}.

Definition receipt_body (r : ReceiptRecord) : list Z :=
  hash_bytes (receipt_this_hash (rr_receipt r)) ++ i64_le_bytes (rr_received_millis r)
  ++ le_bytes 8 (default U64_MAX (rr_byte_offset r)).
Definition receipt_encode (r : ReceiptRecord) : list Z :=
  receipt_body r ++ hash_bytes (blake3 (receipt_body r)).

Definition receipt_read (sequence : EventSeq) : stm Rd IoError ReceiptRecord :=
  bytes ← read_exact 80;
  if bool_decide (drop 48 bytes ≠ hash_bytes (blake3 (take 48 bytes)))
  then stm_fail {| io_kind := OtherKind; io_message := "checkpoint receipt checksum mismatch" |}
  else
    let offset := le_decode (take 8 (drop 40 bytes)) in
    mret {| rr_receipt := {| receipt_sequence := sequence;
                             receipt_this_hash := {| hash_bytes := take 32 bytes |} |};
            rr_received_millis := i64_from_le (take 8 (drop 32 bytes));
            rr_byte_offset := if decide (offset = U64_MAX) then None else Some offset |}.

Definition receipt_wf (r : ReceiptRecord) : Prop :=
  hash_wf (receipt_this_hash (rr_receipt r)) ∧ is_i64 (rr_received_millis r)
  ∧ ∀ o, rr_byte_offset r = Some o → is_u64 o.

Lemma i64_roundtrip z : is_i64 z → i64_from_le (i64_le_bytes z) = z.
Proof.
  unfold is_i64, I64_MIN, I64_MAX. intros Hz. unfold i64_from_le, i64_le_bytes, I64_MAX.
  pose proof (Z.mod_pos_bound z 18446744073709551616 ltac:(lia)) as Hm.
  rewrite le_decode_bytes by (simpl Z.of_nat; lia).
  destruct (Z.leb_spec (z mod 18446744073709551616) 9223372036854775807); Z.to_euclidean_division_equations; lia.
Qed.

Lemma receipt_body_parts r : receipt_wf r →
  length (receipt_body r) = 48%nat ∧ take 32 (receipt_body r) = hash_bytes (receipt_this_hash (rr_receipt r))
  ∧ take 8 (drop 32 (receipt_body r)) = i64_le_bytes (rr_received_millis r)
  ∧ take 8 (drop 40 (receipt_body r)) = le_bytes 8 (default U64_MAX (rr_byte_offset r)).
Proof.
  intros ([Hh _] & _ & _). unfold receipt_body.
  pose proof (length_le_bytes 8 (default U64_MAX (rr_byte_offset r))) as Ho. revert Ho.
  generalize (le_bytes 8 (default U64_MAX (rr_byte_offset r))) as off. intros off Ho.
  pose proof (length_le_bytes 8 (rr_received_millis r mod 18446744073709551616)) as Hm.
  fold (i64_le_bytes (rr_received_millis r)) in Hm. revert Hm.
  generalize (i64_le_bytes (rr_received_millis r)) as ms. intros ms Hm.
  split; [rewrite !length_app; lia|]. split; [by rewrite take_app_length'|].
  replace 40%nat with (32 + 8)%nat by lia. rewrite <- drop_drop, drop_app_length' by done.
  split; [by rewrite take_app_length'|]. rewrite drop_app_length' by done. apply take_ge. lia.
Qed.

(** a receipt record read from where it was written is the record: 80 bytes
    are consumed, and hash, receive time and offset are restored, except that an
    offset of [u64::MAX] is the sentinel for none. *)
Theorem receipt_record_roundtrip `{!Blake3Laws} r rest p fin : receipt_wf r →
  receipt_read (receipt_sequence (rr_receipt r))
    {| rd_rest := receipt_encode r ++ rest; rd_pos := p; rd_end := fin |}
  = ({| rd_rest := rest; rd_pos := p + RECEIPT_RECORD_LEN; rd_end := fin |},
     Ok {| rr_receipt := rr_receipt r; rr_received_millis := rr_received_millis r;
           rr_byte_offset := if decide (rr_byte_offset r = Some U64_MAX) then None else rr_byte_offset r |}).
Proof.
  intros Hwf. destruct (receipt_body_parts r Hwf) as (Hl & Hh & Hm & Ho).
  destruct Hwf as (_ & Hi & Hoff). unfold receipt_read. rewrite stm_bind_run.
  assert (length (receipt_encode r) = 80%nat) as Hlen.
  { unfold receipt_encode. rewrite length_app, Hl. destruct (blake3_wf (receipt_body r)) as [-> _]. done. }
  rewrite <- Hlen, read_exact_app, Hlen. unfold receipt_encode.
  rewrite drop_app_length', take_app_length' by done. rewrite bool_decide_eq_false_2 by auto.
  rewrite !drop_app_le, !take_app_le by (rewrite ?length_drop; lia).
  rewrite Hh, Hm, Ho, i64_roundtrip by done. unfold mret, stm_mret. f_equal. f_equal.
  assert (le_decode (le_bytes 8 (default U64_MAX (rr_byte_offset r))) = default U64_MAX (rr_byte_offset r)) as ->.
  { apply le_decode_bytes. unfold is_u64, U64_MAX in *. simpl Z.of_nat.
    destruct (rr_byte_offset r) as [o|]; simpl; [specialize (Hoff o eq_refl)|]; lia. }
  destruct r as [[q [h]] ms [o|]]; simpl; [|done].
  destruct (decide (o = U64_MAX)) as [->|Hne]; [done|]. rewrite decide_False by congruence. done.
Qed.

End Receipts.

(** ** Instance: a disk with limited room *)

Record Disk := { disk_accepted : list Z; disk_at : Z; disk_visible : list Z; disk_safe : list Z; disk_room : nat }.
Definition disk_write (bs : list Z) : stm Disk IoError unit :=
  λ d, let all := write_at (disk_at d) bs (disk_accepted d) in
       ({| disk_accepted := take (disk_room d) all; disk_at := disk_at d + Z.of_nat (length bs);
           disk_visible := disk_visible d; disk_safe := disk_safe d; disk_room := disk_room d |},
        if decide (length all ≤ disk_room d)%nat then Ok tt
        else Err {| io_kind := OtherKind; io_message := "no space left on device" |}).
#[export] Instance DiskDevice : LogDevice := {|
  Device := Disk;
  dev_bytes := disk_accepted;
  dev_pos := disk_at;
  dev_flushed := disk_visible;
  dev_durable := disk_safe;
  dev_read_end := λ _, None;
  dev_try_lock := λ _, Ok tt;
  dev_len := λ d, Ok (Z.of_nat (length (disk_visible d)));
  dev_write_all := disk_write;
  dev_flush := λ d, ({| disk_accepted := disk_accepted d; disk_at := disk_at d; disk_visible := disk_accepted d;
                        disk_safe := disk_safe d; disk_room := disk_room d |}, Ok tt);
  dev_sync := λ d, ({| disk_accepted := disk_accepted d; disk_at := disk_at d; disk_visible := disk_visible d;
                       disk_safe := disk_visible d; disk_room := disk_room d |}, Ok tt);
  dev_set_len := λ n d, ({| disk_accepted := take (Z.to_nat n) (disk_accepted d); disk_at := disk_at d;
                            disk_visible := take (Z.to_nat n) (disk_accepted d);
                            disk_safe := disk_safe d; disk_room := disk_room d |}, Ok tt);
  dev_seek := λ n d, ({| disk_accepted := disk_accepted d; disk_at := n; disk_visible := disk_visible d;
                         disk_safe := disk_safe d; disk_room := disk_room d |}, Ok tt)
|}.
#[export] Instance DiskDevice_laws : LogDeviceLaws.
Proof.
  split; simpl.
  - by intros d n [= <-].
  - intros bs d d' H _. unfold disk_write in H. case_decide; [|done]. injection H as <-. simpl. split; [by apply take_ge|done].
  - by intros d d' [= <-].
  - by intros d d' [= <-].
  - by intros n d d' [= <-] _ _.
  - by intros n d d' [= <-] _.
Qed.

(** ** Sample runs *)

Definition sample_env : LogEnv :=
  {| le_path := "l"; le_resolved := Ok "/l"; le_authority := Ok None |}.
Definition sample_disk (bytes : list Z) : Disk :=
  {| disk_accepted := bytes; disk_at := 0; disk_visible := bytes; disk_safe := []; disk_room := 4999 |}.
Definition sample_writer : Writer :=
  from_file "l" {| disk_accepted := file_header; disk_at := 5; disk_visible := file_header;
                   disk_safe := file_header; disk_room := 4999 |} 0 genesis_hash HEADER_LEN.
Definition sample_event : @EnvelopeIn ZTime := {|
  in_source_id := "s"; in_schema_version := 1; in_parser_version := 1;
  in_observed_at := {| source_timestamp := (3 : @OffsetDateTime ZTime) |};
  in_received_at := {| received_at_time := (4 : @OffsetDateTime ZTime) |};
  in_content_type := JsonContent; in_payload := [1; 2] |}.
Definition sample_synced : Writer := (append_synced sample_event sample_writer).1.
Definition sample_receipt : AppendReceipt :=
  {| receipt_sequence := {| event_seq := 0 |}; receipt_this_hash := w_last_hash sample_synced |}.
Definition sample_tail : LogTailBinding := {|
  tb_path := "/l"; tb_physical_tail := w_cursor sample_synced;
  tb_last_sequence := Some {| event_seq := 0 |}; tb_last_hash := w_last_hash sample_synced |}.

Lemma sample_reachable : reachable sample_env (AtAuthority None) sample_writer.
Proof. eapply (reach_open (DV := DiskDevice) _ None (sample_disk [])); [done|done|done|]. vm_compute. reflexivity. Qed.

Lemma sample_append_runs : append_synced sample_event sample_writer = (sample_synced, Ok sample_receipt).
Proof. vm_cast_no_check (eq_refl (sample_synced, Ok (E := LogError) sample_receipt)). Qed.

Lemma sample_tail_runs : writer_verified_tail (le_resolved sample_env) sample_synced
  = ((writer_verified_tail (le_resolved sample_env) sample_synced).1, Ok sample_tail).
Proof.
  vm_cast_no_check (eq_refl ((writer_verified_tail (Ok "/l") sample_synced).1, Ok (E := LogError) sample_tail)).
Qed.

(** A writer that resumed at a checkpoint of a log whose first frame is retired, the check of
    the prefix deferred. *)
Definition retained_env : LogEnv :=
  {| le_path := "l"; le_resolved := Ok "/l"; le_authority := Ok (Some sample_authority) |}.
Definition retained_disk (torn : list Z) : Disk := sample_disk ((file_header ++ sample_f0) ++ (sample_f1 ++ []) ++ torn).
Definition resumed : Disk * result LogError (Writer * LogTailBinding * CheckpointVerification * list Z) :=
  open_verified_checkpoint retained_env (tail_binding "/l" sample_t1) (Some (tail_binding "/l" sample_t1, "h")) CheckpointDefer []
    (retained_disk []).
Definition resumed_writer : Writer :=
  result_or sample_writer ('(w, _, _, _) ← resumed.2; Ok w).
Lemma resumed_runs : open_verified_checkpoint retained_env (tail_binding "/l" sample_t1) (Some (tail_binding "/l" sample_t1, "h"))
    CheckpointDefer [] (retained_disk [])
  = (resumed.1, Ok (resumed_writer, tail_binding "/l" sample_t1, {| cv_used := true; cv_deferred := true |}, [])).
Proof.
  vm_cast_no_check (eq_refl (resumed.1, Ok (E := LogError) (resumed_writer, tail_binding "/l" sample_t1,
    {| cv_used := true; cv_deferred := true |}, [] : list Z))).
Qed.
Lemma resumed_reachable : reachable retained_env (AtCheckpoint (tail_binding "/l" sample_t1)) resumed_writer.
Proof.
  assert (checkpoint_wf (Some (tail_binding "/l" sample_t1, "h"))) as Hck by (split; [by vm_compute|apply blake3_wf]).
  exact (reach_open_checkpoint (DV := DiskDevice) retained_env (Some sample_authority) (tail_binding "/l" sample_t1)
    (Some (tail_binding "/l" sample_t1, "h")) CheckpointDefer [] (retained_disk []) resumed.1 resumed_writer (tail_binding "/l" sample_t1)
    {| cv_used := true; cv_deferred := true |} [] eq_refl sample_authority_wf Hck (conj eq_refl eq_refl) resumed_runs).
Qed.
Definition resumed_synced : Writer := (append_synced sample_event resumed_writer).1.
Definition resumed_receipt : AppendReceipt :=
  {| receipt_sequence := {| event_seq := 2 |}; receipt_this_hash := w_last_hash resumed_synced |}.
Lemma resumed_append_runs : append_synced sample_event resumed_writer = (resumed_synced, Ok resumed_receipt).
Proof. vm_cast_no_check (eq_refl (resumed_synced, Ok (E := LogError) resumed_receipt)). Qed.

Lemma receipt_is_durable_witness :
  ∃ pre bs es e t, start_base (AtCheckpoint (tail_binding "/l" sample_t1)) pre
    ∧ dev_durable (w_inner resumed_synced) = pre ++ bs
    ∧ written (checkpoint_state (tail_binding "/l" sample_t1)) bs (es ++ [e]) t
    ∧ env_seq e = receipt_sequence resumed_receipt ∧ env_this_hash e = receipt_this_hash resumed_receipt
    ∧ env_payload e = in_payload sample_event ∧ env_source_id e = in_source_id sample_event.
Proof.
  exact (receipt_is_durable retained_env (AtCheckpoint (tail_binding "/l" sample_t1)) resumed_writer sample_event resumed_synced
    resumed_receipt resumed_reachable resumed_append_runs).
Defined.

Lemma verified_tail_is_scanned_witness :
  let w' := (writer_verified_tail (le_resolved sample_env) sample_synced).1 in
  inspect (device_file sample_env (w_inner w'))
  = Some (Ok {| verified_tail := sample_tail; incomplete_tail := None |})
  ∧ dev_durable (w_inner w') = dev_bytes (w_inner w').
Proof.
  exact (verified_tail_is_scanned sample_env sample_synced _ sample_tail eq_refl
    (reach_append_synced sample_env (AtAuthority None) sample_event sample_writer sample_reachable) sample_tail_runs eq_refl).
Defined.

Lemma open_recovers_torn_witness :
  match open retained_env (retained_disk (take 9 sample_frame)) with
  | (d', Ok w) =>
      w = from_file (le_path retained_env) d' (next_sequence sample_t1) (previous_hash sample_t1)
            (physical_tail sample_t1)
      ∧ dev_bytes d' = (file_header ++ sample_f0) ++ sample_f1 ++ []
      ∧ dev_durable d' = (file_header ++ sample_f0) ++ sample_f1 ++ []
      ∧ dev_pos d' = Z.of_nat (length (dev_bytes d'))
  | (_, Err e) => e = Locked (le_path retained_env) ∨ ∃ io, e = LogIo io
  end.
Proof.
  assert (written (fresh_state (Some sample_authority)) (sample_f1 ++ []) [sample_e1] sample_t1) as Hw
    by (rewrite app_nil_r; exact sample_written1).
  exact (open_recovers_torn retained_env (Some sample_authority) "/l" (retained_disk (take 9 sample_frame))
    (file_header ++ sample_f0) (sample_f1 ++ []) [sample_e1] sample_t1
    (take 9 sample_frame) eq_refl sample_authority_wf eq_refl eq_refl eq_refl sample_base Hw sample_torn eq_refl sample_retained).
Defined.

Definition sample_record : ReceiptRecord :=
  {| rr_receipt := {| receipt_sequence := {| event_seq := 3 |}; receipt_this_hash := genesis_hash |};
     rr_received_millis := -5; rr_byte_offset := Some 77 |}.
Lemma receipt_record_roundtrip_witness :
  receipt_read (receipt_sequence (rr_receipt sample_record))
    {| rd_rest := receipt_encode sample_record ++ [9]; rd_pos := 80; rd_end := None |}
  = ({| rd_rest := [9]; rd_pos := 80 + RECEIPT_RECORD_LEN; rd_end := None |}, Ok sample_record).
Proof.
  apply (receipt_record_roundtrip sample_record [9] 80 None). split; [exact genesis_hash_wf|].
  split; [by vm_compute|]. by intros o [= <-].
Defined.
