(* ===== verification/LogReader.v ===== *)
(** * Replaying the event log

    crates/event-log, [reader.rs]: the replay iterator.  A replay verifies the
    whole file before it exposes the first frame and then reads it a second time,
    frame by frame; the file is one state of its contents, as for the scanner.
    Tailing, which waits for a growing file, is not modelled. *)

From S2P Require Import Prelude CoreTypes Bytes LogFrame LogChain LogScanner.
#[local] Open Scope Z_scope.

Section Reader.
Context `{TO : TimeOps} {B3 : Blake3} {LJ : LogJson} {ZS : Zstd}.

(** [ReplayIter] of a replay, whose [poll_interval] is [None]. *)
Record ReplayIter := {
  it_reader : Rd;
  it_state : ScanState;
  it_poisoned : bool;
  it_retained_tail : option LogTailBinding;
  it_reached_retained_tail : bool
}.

(** The retained tail of the authority, [TailBinding::resolve]d. *)
Definition resolved_tail (f : LogFile) (authority : option RetentionAuthority) :
    result LogError (option LogTailBinding) :=
  match authority with
  | None => Ok None
  | Some a =>
      resolved ← map_err LogIo (file_resolved f);
      Ok (Some (resolve_tail (ra_retained_tail a) resolved))
  end.

Definition replay_open (f : LogFile) : result LogError ReplayIter :=
  _ ← (verify_file_header (file_path f) (file_seek f 0)).2;
  authority ← map_err Retention (file_authority f);
  let s := fresh_state authority in
  retained ← resolved_tail f authority;
  _ ← require_retained_length f retained;
  Ok {| it_reader := file_seek f (physical_tail s); it_state := s; it_poisoned := false;
        it_retained_tail := retained;
        it_reached_retained_tail := bool_decide (authority = None) |}.

Definition not_retained {A} : result LogError A :=
  Err (Retention (RetentionInvalid "log did not reach retained tail")).

(** Whether the frame that ends in [s] ends at the retained tail. *)
Definition at_retained_tail (retained : option LogTailBinding) (s : ScanState) : bool :=
  match retained with
  | Some tail =>
      let tracker := observe (tracker_new (Some tail) (tb_path tail)) s in
      bool_decide (verdict tracker s = PrefixMatched)
  | None => false
  end.

(** [Iterator::next]: without a poll interval every branch of its loop returns. *)
Definition next (it : ReplayIter) : ReplayIter * option (result LogError (Z * EventSeq * EventEnvelope)) :=
  if it_poisoned it then (it, None)
  else
    let frame_start := physical_tail (it_state it) in
    let '(r, step) := read_verified_frame_observed (it_state it) (it_reader it) in
    let continue s reached := {| it_reader := r; it_state := s; it_poisoned := false;
      it_retained_tail := it_retained_tail it; it_reached_retained_tail := reached |} in
    let poison := {| it_reader := r; it_state := it_state it; it_poisoned := true;
      it_retained_tail := it_retained_tail it; it_reached_retained_tail := it_reached_retained_tail it |} in
    match step with
    | Ok (ScanFrame envelope, s, _) =>
        (continue s (it_reached_retained_tail it || at_retained_tail (it_retained_tail it) s),
         Some (Ok (frame_start, env_seq envelope, envelope)))
    | Ok (ScanEof, s, _) =>
        if it_reached_retained_tail it then (continue s true, None) else (poison, Some not_retained)
    | Ok (ScanIncomplete t, _, _) =>
        (poison, Some (if it_reached_retained_tail it
                       then Err (Truncated (it_next_sequence t) (it_byte_offset t)) else not_retained))
    | Err e => (poison, Some (Err e))
    end.

(** The items a [for] loop sees. *)
Fixpoint drain (fuel : nat) (it : ReplayIter) : option (list (result LogError (Z * EventSeq * EventEnvelope))) :=
  match fuel with
  | O => None
  | S fuel =>
      match next it with
      | (_, None) => Some []
      | (it', Some x) => cons x <$> drain fuel it'
      end
  end.

(** [Reader::replay_with_offsets] and the frames it then yields: one byte at least
    is consumed for each. *)
Definition replay_with_offsets (f : LogFile) : option (result LogError ReplayIter) :=
  x ← scanner_verify f; Some (_ ← x; replay_open f).
Definition replay_fuel (it : ReplayIter) : nat := S (length (rd_rest (it_reader it))).
Definition replayed (it : ReplayIter) : list (result LogError (Z * EventSeq * EventEnvelope)) :=
  default [] (drain (replay_fuel it) it).

End Reader.
Arguments not_retained {A}.

(** ** The iterator and the scanner see the same frames *)

Section ReaderFacts.
Context `{TO : TimeOps} {B3 : Blake3} {LJ : LogJson} {ZS : Zstd}.

Definition item (x : Z * EventEnvelope) : result LogError (Z * EventSeq * EventEnvelope) :=
  Ok (x.1, env_seq x.2, x.2).

(** The iterator's retained-tail flag is the match of the walk's tracker. *)
Definition tracks (q : PrefixTracker) (it : ReplayIter) : Prop :=
  it_retained_tail it = pt_expected q
  ∧ match pt_expected q with
    | None => it_reached_retained_tail it = true
    | Some _ => pt_same_file q = true ∧ it_reached_retained_tail it = pt_matched q
    end.

Lemma tracks_step q it r s : tracks q it → tracks (observe q s)
  {| it_reader := r; it_state := s; it_poisoned := false; it_retained_tail := it_retained_tail it;
     it_reached_retained_tail := it_reached_retained_tail it || at_retained_tail (it_retained_tail it) s |}.
Proof.
  intros [Hr Hq]. destruct (observe_keeps q s) as (He & Hs & _). split; simpl; [by rewrite He|].
  rewrite He. rewrite Hr. destruct (pt_expected q) as [b|] eqn:Hb; [|by rewrite Hq].
  destruct Hq as [Hsf Hm]. split; [by rewrite Hs|]. rewrite Hm. unfold at_retained_tail, verdict, observe.
  cbn [tracker_new pt_expected pt_same_file]. rewrite Hb, Hsf. rewrite (bool_decide_eq_true_2 (tb_path b = tb_path b)) by done.
  destruct (true && _ && _ && _); simpl; rewrite (bool_decide_eq_true_2 (tb_path b = tb_path b)) by done; simpl.
  { by rewrite orb_true_r. }
  rewrite bool_decide_eq_false_2; [by rewrite orb_false_r|]. by destruct (_ <? _).
Qed.

Lemma tracks_retained q it s : tracks q it → require_retained (verdict q s) = Ok tt →
  it_reached_retained_tail it = true.
Proof.
  intros [_ Hq] H. unfold verdict in H. destruct (pt_expected q); [|done]. destruct Hq as [Hs Hm].
  rewrite Hs in H. rewrite Hm. simpl in H. destruct (pt_matched q); [done|]. by destruct (_ <? _).
Qed.

Lemma walk_drains fuel resolved p q seen seen' o v it : tracks q it → it_poisoned it = false →
  walk_loop fuel (until_eof None) resolved true (it_reader it) (it_state it) p q seen = Some (seen', Ok (o, v)) →
  incomplete_tail o = None →
  ∃ frames, seen' = seen ++ frames ∧ drain fuel it = Some (item <$> frames).
Proof.
  intros Ht Hp H Hi. revert p q seen it Ht Hp H. induction fuel as [|fuel IH]; intros p q seen it Ht Hp H; [done|].
  cbn [walk_loop drain] in *. rewrite decide_False in H by done. unfold next. rewrite Hp.
  destruct (read_verified_frame_observed (it_state it) (it_reader it)) as [r [[[[e| |t] s] raw]|e]] eqn:E.
  - apply (IH _ _ _ {| it_reader := r |}) in H as (frames & -> & ->); [|by apply tracks_step|done].
    exists ((physical_tail (it_state it), e) :: frames). by rewrite <- app_assoc.
  - injection H as <- Hx. apply result_bind_Ok in Hx as ([] & Hr & [= <- <-]).
    rewrite (tracks_retained q it (it_state it) Ht Hr). exists []. by rewrite app_nil_r.
  - injection H as <- Hx. apply result_bind_Ok in Hx as (? & _ & [= <- _]). done.
  - done.
Qed.

(** A loaded authority was validated. *)
Definition authority_valid (f : LogFile) : Prop := ∀ a, file_authority f = Ok (Some a) → validate a = Ok tt.

Lemma validate_tail a : validate a = Ok tt → rb_offset (ra_boundary a) < rt_physical_tail (ra_retained_tail a).
Proof.
  unfold validate. destruct (_ || _); [done|]. destruct (_ || _) eqn:H; [done|]. intros _.
  apply orb_false_iff in H as [[_ H]%orb_false_iff _]. apply Z.leb_gt in H. done.
Qed.

Lemma validate_boundary a : validate a = Ok tt → HEADER_LEN < rb_offset (ra_boundary a).
Proof.
  unfold validate. destruct (_ || _); [done|]. destruct (_ || _) eqn:H; [done|]. intros _.
  apply orb_false_iff in H as [[[_ H]%orb_false_iff _]%orb_false_iff _]. apply Z.leb_gt in H. done.
Qed.

Lemma walk_opens f w : authority_valid f → walk_start f (until_eof None) = Ok w →
  ws_require_retained w = true ∧ ∃ it, replay_open f = Ok it
  ∧ it_reader it = file_seek f (physical_tail (ws_state w)) ∧ it_state it = ws_state w
  ∧ it_poisoned it = false ∧ tracks (ws_retention w) it.
Proof.
  intros Hv H. unfold walk_start in H.
  apply result_bind_Ok in H as (resolved & Hres%map_err_Ok & H).
  apply result_bind_Ok in H as ([] & Hh & H).
  apply result_bind_Ok in H as (authority & Ha%map_err_Ok & H).
  apply result_bind_Ok in H as (prefix & _ & H). apply result_bind_Ok in H as ([] & Hl & [= <-]).
  cbn [ws_require_retained ws_state ws_retention]. split; [done|].
  unfold replay_open. rewrite Hh, Ha. simpl.
  assert (resolved_tail f authority = Ok ((λ a, resolve_tail (ra_retained_tail a) resolved) <$> authority)) as ->.
  { unfold resolved_tail. destruct authority as [a|]; [|done]. by rewrite Hres. }
  simpl. rewrite Hl. simpl. eexists. split; [done|]. cbn [it_reader it_state it_poisoned]. split_and!; try done.
  destruct authority as [a|]; [|done]. pose proof (validate_tail a (Hv a Ha)) as Hb.
  assert (observe (tracker_new (Some (resolve_tail (ra_retained_tail a) resolved)) resolved) (fresh_state (Some a))
          = tracker_new (Some (resolve_tail (ra_retained_tail a) resolved)) resolved) as Ho.
  { unfold observe. cbn [tracker_new pt_expected pt_same_file fresh_state physical_tail at_frame resolve_tail tb_physical_tail].
    rewrite (bool_decide_eq_false_2 (rb_offset _ = _)) by lia. by rewrite andb_false_r. }
  cbn [fmap option_fmap option_map]. rewrite Ho. split; [done|]. simpl. by rewrite !bool_decide_eq_true_2.
Qed.

Lemma walk_returns f request : is_Some (walk_locked f request).
Proof. unfold walk_locked. case_match; [|done]. apply walk_loop_ends. lia. Qed.

Lemma replay_scan f : authority_valid f →
  ∃ x, scanner_verify f = Some x ∧
  match x with
  | Err e => replay_with_offsets f = Some (Err e)
  | Ok tail => ∃ it seen o v, replay_with_offsets f = Some (Ok it)
      ∧ walk_locked f (until_eof None) = Some (seen, Ok (o, v)) ∧ tail = verified_tail o
      ∧ incomplete_tail o = None ∧ drain (replay_fuel it) it = Some (item <$> seen)
  end.
Proof.
  intros Hv. unfold replay_with_offsets, scanner_verify, inspect.
  destruct (walk_returns f (until_eof None)) as [[seen x] Hw]. rewrite Hw. simpl.
  destruct x as [[o v]|e]; simpl; [|by eexists].
  unfold require_complete. destruct (incomplete_tail o) as [t|] eqn:Hi; simpl; [by eexists|].
  eexists. split; [done|]. pose proof Hw as Hw'. unfold walk_locked in Hw. destruct (walk_start f (until_eof None)) as [w|] eqn:Hs; [|done].
  destruct (walk_opens f w Hv Hs) as (Hm & it & Ho & Hr & Hst & Hp & Ht).
  rewrite Hm, <- Hr, <- Hst in Hw. destruct (walk_drains _ _ _ _ _ _ _ _ _ Ht Hp Hw Hi) as (frames & -> & Hd).
  exists it, frames, o, v. by rewrite Ho.
Qed.

(** A replay exposes what the scanner verified, and nothing of a file it refused:
    for any bytes, either verification fails and the replay is refused with the
    same error before it yields anything, or the iterator yields exactly the
    frames of the scan, at their offsets, without an error, and ends. *)
Theorem replay_yields_scan f : authority_valid f →
  ∃ x, scanner_verify f = Some x ∧
  match x with
  | Err e => replay_with_offsets f = Some (Err e)
  | Ok tail => ∃ it seen o v, replay_with_offsets f = Some (Ok it)
      ∧ walk_locked f (until_eof None) = Some (seen, Ok (o, v)) ∧ tail = verified_tail o
      ∧ incomplete_tail o = None ∧ drain (replay_fuel it) it = Some (item <$> seen)
  end.
Proof. apply replay_scan. Qed.

(** *** Isolated reads *)

(** Reading moves along one file. *)
Definition along {E A} (m : stm Rd E A) : Prop := ∀ r, rd_end (m r).1 = rd_end r.
Lemma along_bind {E A B} (m : stm Rd E A) (k : A → stm Rd E B) : along m → (∀ a, along (k a)) → along (m ≫= k).
Proof.
  intros Hm Hk r. rewrite stm_bind_run. specialize (Hm r). destruct (m r) as [r' [a|e]]; [|done].
  simpl in *. by rewrite Hk.
Qed.
Lemma along_read_crc off c : along (read_crc off c).
Proof. intros r. unfold read_crc, read_exact_frame, read_exact. by destruct (map_err _ _) as [|[]]. Qed.
Lemma along_read_frame off : along (read_frame_observed off).
Proof.
  unfold read_frame_observed. apply along_bind; [intros r; unfold lift_io, read1; by destruct (rd_rest r)|].
  intros [first|]; [|done]. apply along_bind; [done|]. intros bs. unfold read_frame_body. case_match; [done|].
  apply along_bind; [done|]. intros c. case_match; [done|]. apply along_bind; [apply along_read_crc|].
  intros crc. case_match; [done|]. by apply along_bind.
Qed.

Lemma read_along f s r r' e s' raw : r = file_seek f (physical_tail s) → 0 ≤ physical_tail s →
  read_verified_frame_observed s r = (r', Ok (ScanFrame e, s', raw)) →
  r' = file_seek f (physical_tail s') ∧ physical_tail s ≤ physical_tail s'
  ∧ s = at_frame (env_seq e) (env_prev_hash e) (physical_tail s).
Proof.
  intros -> Hs H. unfold read_verified_frame_observed in H.
  pose proof (along_read_frame (physical_tail s) (file_seek f (physical_tail s))) as He.
  destruct (read_frame_observed _ _) as [r1 [[[json w]|]|e1]] eqn:E; [|done|by destruct e1].
  injection H as -> (x & Hx & ([] & Hv & (s1 & Ha & [= <- <- <-])%result_bind_Ok)%result_bind_Ok)%result_bind_Ok.
  apply read_frame_inv in E as (_ & Hr & Hp). apply verify_envelope_Ok in Hv as (Hq & _ & Hprev & _).
  apply after_frame_Ok in Ha as (_ & _ & Ht). simpl in *. split_and!.
  - unfold file_seek, rd_seek in *. rewrite Ht. destruct r' as [rest pos fin]. simpl in *. subst fin. f_equal.
    rewrite Hp, Z2Nat.inj_add, <- drop_drop, Hr, Nat2Z.id, drop_app_length by lia. done.
  - rewrite Ht, Hp. lia.
  - rewrite Hq, Hprev. unfold at_frame. by destruct s.
Qed.

Lemma walk_reads_at f fuel resolved must r s p q seen seen' o v :
  (verify_file_header (file_path f) (file_seek f 0)).2 = Ok tt →
  r = file_seek f (physical_tail s) → 0 ≤ physical_tail s →
  let readable x := ∃ next, read_at f x.1 (env_seq x.2) (env_prev_hash x.2) = Ok (x.2, next) in
  Forall readable seen →
  walk_loop fuel (until_eof None) resolved must r s p q seen = Some (seen', Ok (o, v)) → Forall readable seen'.
Proof.
  intros Hh Hr Hs readable. revert r s p q seen Hr Hs. induction fuel as [|fuel IH]; intros r s p q seen Hr Hs Hf H; [done|].
  cbn [walk_loop] in H. rewrite decide_False in H by done.
  destruct (read_verified_frame_observed s r) as [r' [[[[e| |t] s'] raw]|e]] eqn:E; [|by simplify_eq..].
  destruct (read_along f s r r' e s' raw Hr Hs E) as (Hr' & Hle & Hat).
  apply IH in H; [done|done|lia|]. apply Forall_app. split; [done|]. apply Forall_singleton.
  exists (physical_tail s'). unfold read_at. cbn [fst snd]. rewrite Hh, <- Hr, <- Hat, E. done.
Qed.

(** A replayed frame can be read again on its own: for every item of a replay,
    [read_at] with its offset, sequence and preceding hash returns the same
    envelope, so a caller that keeps only those three needs no second scan. *)
Theorem replayed_frame_reads_at f it off seq e : authority_valid f → replay_with_offsets f = Some (Ok it) →
  Ok (off, seq, e) ∈ replayed it → ∃ end_, read_at f off seq (env_prev_hash e) = Ok (e, end_).
Proof.
  intros Hv Hr Hin. destruct (replay_scan f Hv) as (x & Hx & H). destruct x as [tail|]; [|congruence].
  destruct H as (it' & seen & o & v & Hr' & Hw & _ & _ & Hd). simplify_eq.
  unfold replayed in Hin. rewrite Hd in Hin. apply list_elem_of_fmap in Hin as ([off' e'] & [= -> -> ->] & Hin).
  unfold walk_locked in Hw. destruct (walk_start f (until_eof None)) as [w|] eqn:Hs; [|done].
  apply (walk_reads_at f) in Hw; [| |done| |constructor].
  - eapply Forall_forall in Hw; [|exact Hin]. done.
  - unfold walk_start in Hs. apply result_bind_Ok in Hs as (? & _ & Hs). by apply result_bind_Ok in Hs as ([] & ? & _).
  - destruct (walk_opens f w Hv Hs) as (_ & it2 & Ho & _ & <- & _). unfold replay_open in Ho.
    apply result_bind_Ok in Ho as (? & _ & Ho). apply result_bind_Ok in Ho as (a & Ha%map_err_Ok & Ho).
    apply result_bind_Ok in Ho as (? & _ & Ho). apply result_bind_Ok in Ho as (? & _ & [= <-]). simpl.
    destruct a as [a|]; [|done]. simpl. pose proof (validate_boundary a (Hv a Ha)) as Hlt. unfold HEADER_LEN in Hlt. lia.
Qed.

(** *** Replaying what was written *)
Lemma replay_written `{!ZstdLaws} f resolved bs es t torn :
  file_authority f = Ok None → file_resolved f = Ok resolved → file_end f = None →
  written after_header bs es t → torn_tail torn → file_bytes f = file_header ++ bs ++ torn →
  match incomplete_at torn t with
  | Some i => replay_with_offsets f = Some (Err (Truncated (it_next_sequence i) (it_byte_offset i)))
  | None => ∃ it offs, replay_with_offsets f = Some (Ok it) ∧ length offs = length es
      ∧ replayed it = item <$> zip offs es
  end.
Proof.
  intros Ha Hr He Hw Ht Hb.
  destruct (scan_plain f (until_eof None) resolved bs es t torn) as (offs & p & Hl & Hs & _); try done.
  destruct (replay_scan f) as (x & Hx & Hm); [intros a; by rewrite Ha|].
  assert (scanner_verify f = Some (_ ← require_complete {| verified_tail := tail_binding resolved t;
    incomplete_tail := incomplete_at torn t |}; Ok (tail_binding resolved t))) as Hsv.
  { unfold scanner_verify, inspect. rewrite Hs. done. }
  rewrite Hsv in Hx. destruct (incomplete_at torn t) as [i|]; simpl in Hx; injection Hx as <-; [done|].
  destruct Hm as (it & seen & o & v & Hit & Hwalk & _ & _ & Hd). rewrite Hs in Hwalk. injection Hwalk as <- _ _.
  exists it, offs. split_and!; [done..|]. unfold replayed. by rewrite Hd.
Qed.

End ReaderFacts.

Lemma replay_yields_scan_witness :
  replay_with_offsets (sample_log (take 9 sample_frame))
  = Some (Err (Truncated {| event_seq := 2 |} (physical_tail sample_t1)))
  ∧ ∃ it, replay_with_offsets (sample_log []) = Some (Ok it) ∧ length (replayed it) = 2%nat.
Proof.
  assert (∀ torn, authority_valid (sample_log torn)) as Hv by (intros torn a H; discriminate H).
  split.
  - destruct (replay_yields_scan (sample_log (take 9 sample_frame)) (Hv _)) as (x & Hx & H).
    vm_compute in Hx. injection Hx as <-. rewrite H. vm_compute. reflexivity.
  - destruct (replay_yields_scan (sample_log []) (Hv _)) as (x & Hx & H).
    vm_compute in Hx. injection Hx as <-. destruct H as (it & seen & o & v & Hit & Hw & _ & _ & Hd).
    exists it. split; [exact Hit|]. unfold replayed. rewrite Hd.
    assert ((λ y, length y.1) <$> walk_locked (sample_log []) (until_eof None) = Some 2%nat) as Hl
      by vm_cast_no_check (eq_refl (Some 2%nat)).
    rewrite Hw in Hl. injection Hl as Hl. etransitivity; [exact (length_fmap item seen)|exact Hl].
Defined.
