(* ===== verification/LogCrash.v ===== *)
(** * What a crash leaves of an event log

    The journals of execution-core keep their records in an event log and rely on
    one fact: whatever call failed and wherever the last frame was cut, the complete
    frames of the file are the appended ones, with or without the last.  Stated here
    at the level of envelopes, for every journal to decode in its own way. *)

From S2P Require Import Prelude CoreTypes Bytes LogFrame LogChain LogScanner LogWriter LogReader.
#[local] Open Scope Z_scope.

(** What a crash can leave of an append-only file: durable bytes stay, and any
    call, failed or not, makes at most a prefix of what was written visible or
    durable. *)
Definition dev_ordered {DV : LogDevice} (d : Device) : Prop :=
  dev_durable d `prefix_of` dev_flushed d ∧ dev_flushed d `prefix_of` dev_bytes d.
Definition dev_grows {DV : LogDevice} (d d' : Device) (bytes : list Z) : Prop :=
  dev_durable d `prefix_of` dev_durable d' ∧ dev_durable d' `prefix_of` dev_flushed d'
  ∧ dev_flushed d' `prefix_of` bytes.
Class LogDeviceCrashLaws {DV : LogDevice} : Prop := {
  dev_write_grows bs d d' x : dev_ordered d → at_end d → dev_write_all bs d = (d', x) → dev_grows d d' (dev_bytes d ++ bs);
  dev_flush_grows d d' x : dev_ordered d → dev_flush d = (d', x) → dev_grows d d' (dev_bytes d);
  dev_sync_grows d d' x : dev_ordered d → dev_sync d = (d', x) → dev_grows d d' (dev_bytes d)
}.

(** What is found at the path: whether it exists, the metadata without following
    links, and the outcome of creating the file when there is none. *)
Record PathMetadata := { meta_is_symlink : bool; meta_mode : Z }.
Record JournalPath := {
  jp_env : LogEnv;
  jp_exists : bool;
  jp_metadata : result IoError PathMetadata;
  jp_create_new : result IoError unit
}.

(** A file read back without a retention authority. *)
Definition plain_file (bytes : list Z) : LogFile := {|
  file_path := EmptyString; file_resolved := Ok EmptyString; file_bytes := bytes; file_end := None;
  file_authority := Ok None
|}.

Section Crash.
Context `{TO : TimeOps} {B3 : Blake3} {LJ : LogJson} {ZS : Zstd} {DV : LogDevice}.
Context {BL : Blake3Laws} {LL : LogJsonLaws} {ZL : ZstdLaws} {DL : LogDeviceLaws} {CL : LogDeviceCrashLaws}.

Lemma write_parts_grow parts d d' x : dev_ordered d → at_end d →
  stm_for parts (λ p, lift_dev (dev_write_all p)) d = (d', x) → dev_grows d d' (dev_bytes d ++ concat parts).
Proof.
  revert d. induction parts as [|p parts IH]; intros d Ho Hend; simpl.
  { intros [= <- <-]. destruct Ho. rewrite app_nil_r. by split. }
  rewrite stm_bind_run. unfold lift_dev at 1. destruct (dev_write_all p d) as [d1 [[]|e]] eqn:Hw; simpl.
  - destruct (dev_write_grows _ _ _ _ Ho Hend Hw) as (G1 & G2 & G3). destruct (write_end _ _ _ Hw Hend) as [Hb Hend'].
    intros H. apply IH in H as (K1 & K2 & K3); [|split; [done|by rewrite Hb]|done].
    split_and!; [by etrans|done|]. by rewrite Hb, <- app_assoc in K3.
  - intros [= <- <-]. destruct (dev_write_grows _ _ _ _ Ho Hend Hw) as (G1 & G2 & G3). split_and!; [done..|].
    etrans; [exact G3|]. rewrite app_assoc. by apply prefix_app_r.
Qed.

Lemma frame_parts_Err json e : frame_parts json = Err e → ∀ io, e ≠ LogIo io.
Proof.
  unfold frame_parts. destruct (zstd_encode json); simpl; [|by intros [= <-]].
  destruct (_ <? _); [by intros [= <-]|]. destruct (_ <? _); [by intros [= <-]|done].
Qed.

(** An append of a healthy writer does nothing, or writes the next frame, of which
    an error may leave any part. *)
Lemma append_grows i w w' x : writer_ok (AtAuthority None) w → w_poison_reason w = None → dev_ordered (w_inner w) →
  append i w = (w', x) →
  (w' = w ∧ ∃ e, x = Err e) ∨ ∃ raw this json f t,
    encode_frame json = Ok f ∧ written (writer_state w) f [append_envelope w i raw this] t
    ∧ dev_grows (w_inner w) (w_inner w') (dev_bytes (w_inner w) ++ f)
    ∧ match x with
      | Ok _ => t = writer_state w' ∧ w_poison_reason w' = None ∧ dev_bytes (w_inner w') = dev_bytes (w_inner w) ++ f
                ∧ at_end (w_inner w')
      | Err _ => is_Some (w_poison_reason w')
      end.
Proof.
  intros Hok Hp Ho. pose proof Hok as (_ & _ & _ & _ & _ & _ & Hend). unfold append. rewrite stm_bind_run. unfold ensure_healthy at 1. rewrite Hp.
  rewrite stm_bind_run. unfold stm_get at 1. rewrite stm_bind_run. unfold stm_lift at 1.
  destruct (ok_or _ _) as [next|] eqn:Hn; [|intros [= <- <-]; left; eauto]. apply ok_or_Ok in Hn.
  rewrite stm_bind_run. unfold stm_lift at 1.
  destruct (compute_hashes _) as [[[raw c] this]|] eqn:Hh; [|intros [= <- <-]; left; eauto].
  rewrite stm_bind_run. unfold stm_lift at 1.
  destruct (map_err _ _) as [json|] eqn:Hj; [|intros [= <- <-]; left; eauto]. apply map_err_Ok in Hj.
  rewrite stm_bind_run. unfold append_frame, write_frame. rewrite stm_bind_run. unfold stm_lift at 1.
  destruct (frame_parts json) as [parts|e] eqn:Hf.
  2:{ pose proof (frame_parts_Err _ _ Hf) as Hio. intros H. left. destruct e; simplify_eq/=; try (by destruct w; eauto).
      by destruct (Hio e). }
  assert (encode_frame json = Ok (concat parts)) as He by (unfold encode_frame; by rewrite Hf).
  pose proof (frame_extends _ i w raw c this next json _ plain_start Hok Hn Hh Hj He) as Hw.
  rewrite stm_bind_run. destruct (stm_for parts _ (w_inner w)) as [d [[]|e]] eqn:Hs.
  all: pose proof (write_parts_grow _ _ _ _ Ho Hend Hs) as Hg; intros H; right; exists raw, this, json, (concat parts); eexists;
    (split; [exact He|split; [exact Hw|]]).
  - apply write_parts_Ok in Hs as [Hs Hend']; [|done]. unfold mret, stm_mret in H. cbv beta iota in H.
    destruct (checked_add_u64 (w_cursor w) _) as [cursor|] eqn:Hc; injection H as <- <-.
    + apply fits_Some in Hc as [-> _]. done.
    + split; [done|]. by eexists.
  - assert (∃ io, e = LogIo io) as [io ->].
    { clear -Hs. revert Hs. generalize (w_inner w). induction parts as [|p parts IH]; intros d0; simpl; [done|].
      rewrite stm_bind_run. unfold lift_dev at 1. destruct (dev_write_all p d0) as [d2 [[]|io]]; [apply IH|].
      intros [= _ <-]. by eexists. }
    injection H as <- <-. split; [done|]. by eexists.
Qed.

Lemma sync_grows w w' e : dev_ordered (w_inner w) → sync w = (w', Err e) →
  dev_grows (w_inner w) (w_inner w') (dev_bytes (w_inner w)).
Proof.
  intros Ho. unfold sync, flush. rewrite !stm_bind_run. unfold ensure_healthy.
  destruct (w_poison_reason w); [intros [= <- _]; by destruct Ho|]. unfold or_poison at 1.
  destruct (dev_flush (w_inner w)) as [d1 [[]|e1]] eqn:Hf.
  2:{ intros [= <- _]. by apply dev_flush_grows in Hf. }
  destruct (dev_flush_grows _ _ _ Ho Hf) as (G1 & G2 & G3). apply dev_flush_Ok in Hf as (Hb & _).
  unfold or_poison. cbn [w_inner set_inner]. destruct (dev_sync d1) as [d2 [[]|e2]] eqn:Hs; [done|].
  intros [= <- _]. apply dev_sync_grows in Hs as (K1 & K2 & K3); [|split; [done|by rewrite Hb]].
  rewrite Hb in K3. split_and!; [by etrans|done..].
Qed.

(** ** Complete files and cut files *)

(** The bytes hold the envelopes [es] in complete frames; the last write may be cut. *)
Definition holds_log (bytes : list Z) (es : list EventEnvelope) : Prop :=
  ∃ bs t torn, bytes = file_header ++ bs ++ torn ∧ written after_header bs es t ∧ torn_tail torn.
(** The writer's file is complete, visible and durable, and its next write appends. *)
Definition complete_log (w : Writer) (es : list EventEnvelope) : Prop :=
  ∃ bs, (dev_bytes (w_inner w) = file_header ++ bs ∧ at_end (w_inner w)) ∧ dev_flushed (w_inner w) = file_header ++ bs
    ∧ dev_durable (w_inner w) = file_header ++ bs ∧ written after_header bs es (writer_state w).
Definition log_envelopes (bytes : list Z) : list EventEnvelope :=
  match walk_locked (plain_file bytes) (until_eof None) with Some (seen, _) => snd <$> seen | None => [] end.

Lemma complete_log_holds w es : complete_log w es → holds_log (dev_durable (w_inner w)) es.
Proof. intros (bs & _ & _ & Hd & Hw). exists bs, (writer_state w), []. rewrite app_nil_r. split_and!; [done..|by left]. Qed.
Lemma holds_log_envelopes bytes es : holds_log bytes es → log_envelopes bytes = es.
Proof.
  intros (bs & t & torn & -> & Hw & Ht). unfold log_envelopes.
  destruct (scan_plain (plain_file (file_header ++ bs ++ torn)) (until_eof None) EmptyString bs es t torn)
    as (offs & p & Hl & -> & _); try done.
  simpl. apply snd_zip. by rewrite Hl.
Qed.
Lemma complete_log_length w es : complete_log w es → w_next_seq w = Z.of_nat (length es).
Proof. intros (bs & _ & _ & _ & Hw%written_chained). by apply chained_length in Hw. Qed.

(** A cut inside the frame of [e] loses it; the whole frame keeps it. *)
Lemma grown_log bs es s d json f e t : file_header ++ bs `prefix_of` d → d `prefix_of` (file_header ++ bs) ++ f →
  written after_header bs es s → encode_frame json = Ok f → written s f [e] t →
  holds_log d es ∨ holds_log d (es ++ [e]).
Proof.
  intros [p ->] [q Hq] Hw Hf Hw'. rewrite <- (app_assoc (file_header ++ bs) p q) in Hq. apply app_inv_head in Hq.
  destruct q as [|z q].
  - right. rewrite app_nil_r in Hq. subst p. exists (bs ++ f), t, [].
    rewrite app_nil_r, <- app_assoc. split_and!; [done|by eapply written_app|by left].
  - left. exists bs, s, p. rewrite <- app_assoc. split_and!; [done..|]. right. by exists json, f, (z :: q).
Qed.

(** A synchronized append: the receipt names a durable frame; an error leaves the
    writer as it was, or poisons it with the frame on disk, wholly or not. *)
Lemma append_synced_cases i w w' x es : w_poison_reason w = None → complete_log w es → append_synced i w = (w', x) →
  match x with
  | Ok receipt => w_poison_reason w' = None ∧ receipt_sequence receipt = {| event_seq := w_next_seq w |}
      ∧ receipt_this_hash receipt = w_last_hash w'
      ∧ ∃ raw this, complete_log w' (es ++ [append_envelope w i raw this])
  | Err _ => w' = w ∨ (is_Some (w_poison_reason w') ∧ let d := dev_durable (w_inner w') in
      holds_log d es ∨ ∃ raw this, holds_log d (es ++ [append_envelope w i raw this]))
  end.
Proof.
  intros Hp (bs & [Hb Hend] & Hfl & Hd & Hw). unfold append_synced. rewrite stm_bind_run.
  destruct (append i w) as [w1 x1] eqn:Ha. assert (writer_ok (AtAuthority None) w) as Hok by (by exists file_header, bs, es).
  assert (dev_ordered (w_inner w)) as Ho by (split; by rewrite ?Hd, Hfl, ?Hb).
  destruct (append_grows _ _ _ _ Hok Hp Ho Ha) as [[-> [e ->]]|(raw & this & json & f & t & Hf & Hwf & (G1 & G2 & G3) & Hx)].
  { intros [= <- <-]. by left. }
  assert (∀ d, dev_durable (w_inner w1) `prefix_of` d → d `prefix_of` (file_header ++ bs) ++ f →
            holds_log d es ∨ ∃ raw this, holds_log d (es ++ [append_envelope w i raw this])) as Hcut.
  { intros d Hd1 Hd2. destruct (grown_log bs es (writer_state w) d json f (append_envelope w i raw this) t);
      eauto. by rewrite Hd in G1; etrans. }
  rewrite Hb in G3. destruct x1 as [q|e].
  2:{ intros [= <- <-]. right. split; [done|]. apply Hcut; [done|]. by etrans. }
  destruct Hx as (-> & Hp1 & Hb1 & Hend1). rewrite Hb in Hb1. rewrite stm_bind_run. unfold stm_get at 1. rewrite stm_bind_run.
  destruct (sync w1) as [w2 [[]|e]] eqn:Hs; intros [= <- <-].
  - apply sync_Ok in Hs as (d & -> & Sb & Sf & Sd & Sp). cbn [w_poison_reason w_last_hash w_inner set_inner receipt_sequence receipt_this_hash].
    split_and!; [done| |done|].
    + destruct (append_Ok _ _ _ _ _ plain_start Ha Hp Hok) as (_ & _ & -> & _). done.
    + exists raw, this. exists (bs ++ f). unfold at_end in *. cbn [w_inner set_inner]. rewrite Sp, Hend1, Sb, Sf, Sd, Hb1, <- app_assoc.
      split_and!; [done..|]. by eapply written_app.
  - right. split; [by apply sync_Err in Hs|]. apply sync_grows in Hs as (K1 & K2 & K3).
    2:{ split; [done|]. by rewrite Hb1. }
    apply Hcut; [done|]. rewrite Hb1 in K3. by etrans.
Qed.

(** ** Opening *)
(** A file as a new process finds it, without a retention authority, through a handle at
    its first byte. *)
Definition found (env : LogEnv) (bytes : list Z) (d : Device) : Prop :=
  le_authority env = Ok None ∧ is_ok (le_resolved env) = true ∧ dev_read_end d = None
  ∧ dev_bytes d = bytes ∧ dev_flushed d = bytes ∧ dev_pos d = 0.
(** The envelopes [open_verified] shows its observer. *)
Definition observed (env : LogEnv) (d : Device) : list EventEnvelope :=
  match dev_len d with
  | Ok n => if n =? 0 then []
            else match walk_locked (device_file env d) (until_eof None) with Some (seen, _) => snd <$> seen | None => [] end
  | Err _ => []
  end.
Lemma open_verified_holds env bytes d d' w b es : found env bytes d → (bytes = [] ∧ es = []) ∨ holds_log bytes es →
  open_verified env None d = (d', Ok (w, b)) →
  observed env d = es ∧ w_poison_reason w = None ∧ complete_log w es ∧ tb_last_hash b = w_last_hash w.
Proof.
  intros (Ha & Hr & He & Hb & Hf & Hpos) HH H. destruct (le_resolved env) as [resolved|] eqn:Hres; [|done].
  unfold open_verified in H. apply stm_bind_Ok in H as ([] & d1 & H1 & H). injection H1 as <- _.
  apply stm_bind_Ok in H as (len & d1 & H1 & H). injection H1 as <- Hlen%map_err_Ok.
  unfold observed. rewrite Hlen. apply dev_len_Ok in Hlen. rewrite Hf in Hlen.
  destruct HH as [[-> ->]|(bs & t & torn & -> & Hw & Ht)].
  - subst len. cbn [length Z.of_nat Z.eqb] in H |- *. apply stm_bind_Ok in H as ([] & d1 & H1 & H). injection H1 as <-.
    rewrite Ha in H. apply stm_bind_Ok in H as (authority & d1 & H1 & H). injection H1 as <- <-.
    apply stm_bind_Ok in H as (w1 & d1 & H1 & H). apply start_log_Ok in H1 as (-> & Hb' & Hf' & Hd' & Hend); [|done..].
    apply stm_bind_Ok in H as (path & d2 & H2 & H). injection H2 as <- _. injection H as <- <- <-.
    split_and!; try done. exists []. rewrite app_nil_r. split_and!; try done. constructor.
  - destruct (Z.eqb_spec len 0) as [H0|_]; [rewrite Hlen in H0; simpl in H0; lia|].
    destruct (scan_plain (device_file env d) (until_eof None) resolved bs es t torn) as (offs & p & Hl & Hwalk & _); try done.
    rewrite Hwalk. apply stm_bind_Ok in H as (dd & d1 & H1 & H). injection H1 as <- <-.
    apply stm_bind_Ok in H as ([scan v] & d1 & H1 & H). injection H1 as <- Hs. unfold walked in Hs. rewrite Hwalk in Hs.
    simpl in Hs. injection Hs as <- _. unfold finish_verified_open in H.
    apply stm_bind_Ok in H as ([] & d1 & H1 & H). injection H1 as <- _.
    apply stm_bind_Ok in H as ([] & d1 & H1 & H). injection H1 as <- _.
    apply stm_bind_Ok in H as (w1 & d1 & H1 & H). injection H as <- <- <-.
    apply (resume_log_Ok env (AtAuthority None) _ resolved d d1 w1 file_header bs es t torn) in H1 as (-> & Hb' & Hf' & Hd' & Hend);
      [|apply plain_start|try done..].
    + split_and!; try done; [simpl; apply snd_zip; by rewrite Hl|]. exists bs. split_and!; try done. by destruct t.
    + by rewrite Hf, Hb.
    + simpl. by destruct torn.
Qed.
End Crash.

#[export] Instance DiskDevice_crash_laws : LogDeviceCrashLaws.
Proof.
  split; unfold dev_ordered, dev_grows; simpl.
  - intros bs d d' x [H1 H2] _ H. unfold disk_write in H. injection H as <- _. simpl. split_and!; [done..|].
    etrans; [exact H2|]. by apply prefix_app_r.
  - intros d d' x [H1 H2] [= <- _]. simpl. split_and!; [done|by etrans|done].
  - intros d d' x [H1 H2] [= <- _]. by simpl.
Qed.

