(* ===== verification/RiskEngine.v ===== *)
(** * The risk engine (crates/risk-engine)

    Pure risk gates over typed snapshots: the ordinary gate, the fail-closed gate
    of the isolated canary, and the arithmetic that derives their inputs (equity,
    resolution credit, profit and loss in basis points, latency percentiles).
    Exposures are [i32] basis points; where the source adds them unchecked, the
    wrap-around of a release build is written out. *)

From S2P Require Import Prelude CoreTypes.
#[local] Open Scope Z_scope.

(** ** [block.rs], [snapshot.rs] and the constants of [lib.rs] *)
Inductive RiskBlock : Type :=
| LeaderConcentrationExceeded | MarketConcentrationExceeded | FamilyConcentrationExceeded
| TotalCopyExposureExceeded | IntradayDrawdownStop | Rolling7dDrawdownStop | KillSwitchDrawdown
| CopyLatencyKillSwitch | PerTradeSizeExceeded | ResolverNotTradable | AccountStateStale
| VenueReconciliationStale | JurisdictionBlocked | ClosedOnly | PendingReservation
| AllowanceExceeded | InvalidCanaryBankroll | OriginInputsInvalid.
#[export] Instance RiskBlock_eq_dec : EqDecision RiskBlock.
Proof. solve_decision. Defined.

Inductive RiskDecision : Type := Approved | Blocked (reason : RiskBlock).
#[export] Instance RiskDecision_eq_dec : EqDecision RiskDecision.
Proof. solve_decision. Defined.

Inductive TradingMode : Type := LiveTinyCaps | PromotedCaps.

Record ConcentrationCaps := {
  max_leader_bps : Z;
  max_market_bps : Z;
  max_family_bps : Z;
  max_total_copy_bps : Z
}.
Definition CANONICAL : ConcentrationCaps :=
  {| max_leader_bps := 300; max_market_bps := 200; max_family_bps := 800; max_total_copy_bps := 2500 |}.

Inductive DrawdownPolicy : Type := Stops | KillOnly.
#[export] Instance DrawdownPolicy_eq_dec : EqDecision DrawdownPolicy.
Proof. solve_decision. Defined.

Definition CANARY_PER_TRADE_CAP_BPS : BasisPoints := {| bps := 50 |}.
Definition CANARY_MAX_ORDER_DEBIT : CollateralAmount := from_atomic 1000000.
Definition CANARY_MAX_ALLOWANCE : CollateralAmount := from_atomic 8000000.
Definition KILL_SWITCH_DRAWDOWN_BPS : Z := -1000.
Definition KILL_ONLY_DRAWDOWN_BPS : Z := -3000.
Definition INTRADAY_STOP_BPS : Z := -200.
Definition ROLLING_7D_STOP_BPS : Z := -600.

Definition absolute_loss_bps (p : DrawdownPolicy) : Z :=
  match p with Stops => KILL_SWITCH_DRAWDOWN_BPS | KillOnly => KILL_ONLY_DRAWDOWN_BPS end.

Record RiskSnapshot := {
  leader_exposure_bps : BasisPoints;
  market_exposure_bps : BasisPoints;
  family_exposure_bps : BasisPoints;
  total_copy_exposure_bps : BasisPoints;
  intraday_pnl_bps : BasisPoints;
  rolling_7d_pnl_bps : BasisPoints;
  absolute_pnl_bps : BasisPoints;
  copy_latency_kill_switch_active : bool;
  proposed_trade_bps : BasisPoints;
  per_trade_cap_bps : Z;
  drawdown_policy : DrawdownPolicy;
  concentration_caps : option ConcentrationCaps
}.

Record CanaryRiskSnapshot := {
  cr_origin : CanaryOrigin;
  cr_proposed_worst_case_debit : CollateralAmount;
  cr_canary_bankroll : CollateralAmount;
  cr_leader_exposure_bps : option BasisPoints;
  cr_market_exposure_bps : BasisPoints;
  cr_family_exposure_bps : BasisPoints;
  cr_total_copy_exposure_bps : BasisPoints;
  cr_open_exposure_bps : BasisPoints;
  cr_resolver_tradable : bool;
  cr_account_state_fresh : bool;
  cr_venue_reconciliation_fresh : bool;
  cr_geoblock_fresh : bool;
  cr_geoblocked : bool;
  cr_closed_only_fresh : bool;
  cr_closed_only : bool;
  cr_jurisdiction_attestation_valid : bool;
  cr_pending_reservation : bool;
  cr_allowance : CollateralAmount;
  cr_standard_spender_only : bool
}.

(** ** [engine.rs] *)

Definition exceeds_concentration_cap (existing proposed cap : Z) : bool :=
  match checked_add_i32 existing proposed with
  | Some total => cap <? total
  | None => true
  end.

Definition evaluate_risk (s : RiskSnapshot) : RiskDecision :=
  let stops := bool_decide (drawdown_policy s = Stops) in
  if bps (absolute_pnl_bps s) <=? absolute_loss_bps (drawdown_policy s) then Blocked KillSwitchDrawdown
  else if stops && (bps (intraday_pnl_bps s) <=? INTRADAY_STOP_BPS) then Blocked IntradayDrawdownStop
  else if stops && (bps (rolling_7d_pnl_bps s) <=? ROLLING_7D_STOP_BPS) then Blocked Rolling7dDrawdownStop
  else if copy_latency_kill_switch_active s then Blocked CopyLatencyKillSwitch
  else if per_trade_cap_bps s <? bps (proposed_trade_bps s) then Blocked PerTradeSizeExceeded
  else
    match concentration_caps s with
    | Some caps =>
        let proposed := bps (proposed_trade_bps s) in
        if exceeds_concentration_cap (bps (leader_exposure_bps s)) proposed (max_leader_bps caps)
        then Blocked LeaderConcentrationExceeded
        else if exceeds_concentration_cap (bps (market_exposure_bps s)) proposed (max_market_bps caps)
        then Blocked MarketConcentrationExceeded
        else if exceeds_concentration_cap (bps (family_exposure_bps s)) proposed (max_family_bps caps)
        then Blocked FamilyConcentrationExceeded
        else if exceeds_concentration_cap (bps (total_copy_exposure_bps s)) proposed (max_total_copy_bps caps)
        then Blocked TotalCopyExposureExceeded
        else Approved
    | None => Approved
    end.

Definition exposure_bps_ceil (amount bankroll : CollateralAmount) : option BasisPoints :=
  if decide (bankroll = amount_ZERO) then None
  else
    numerator ← checked_mul_u128 (atomic amount) 10000;
    let denominator := atomic bankroll in
    less_one ← checked_sub_u128 denominator 1;
    sum ← checked_add_u128 numerator less_one;
    (λ n, {| bps := n |}) <$> fits I32_MIN I32_MAX (sum / denominator).

Definition evaluate_canary_risk (s : CanaryRiskSnapshot) : RiskDecision :=
  match exposure_bps_ceil (cr_proposed_worst_case_debit s) (cr_canary_bankroll s) with
  | None => Blocked InvalidCanaryBankroll
  | Some proposed =>
      if negb (cr_resolver_tradable s) then Blocked ResolverNotTradable
      else if negb (cr_account_state_fresh s) then Blocked AccountStateStale
      else if negb (cr_venue_reconciliation_fresh s) then Blocked VenueReconciliationStale
      else if negb (cr_geoblock_fresh s) || cr_geoblocked s || negb (cr_jurisdiction_attestation_valid s)
      then Blocked JurisdictionBlocked
      else if negb (cr_closed_only_fresh s) || cr_closed_only s then Blocked ClosedOnly
      else if cr_pending_reservation s then Blocked PendingReservation
      else if negb (cr_standard_spender_only s) || amount_ltb CANARY_MAX_ALLOWANCE (cr_allowance s)
              || amount_ltb (cr_allowance s) (cr_proposed_worst_case_debit s)
      then Blocked AllowanceExceeded
      else if (bps CANARY_PER_TRADE_CAP_BPS <? bps proposed)
              || amount_ltb CANARY_MAX_ORDER_DEBIT (cr_proposed_worst_case_debit s)
      then Blocked PerTradeSizeExceeded
      else
        match match cr_origin s, cr_leader_exposure_bps s with
              | Organic, Some value => Some value
              | OperatorProbe, None => Some {| bps := 0 |}
              | _, _ => None
              end with
        | None => Blocked OriginInputsInvalid
        | Some leader =>
            if 300 <? wrapping_add_i32 (bps leader) (bps proposed)
            then Blocked LeaderConcentrationExceeded
            else if 200 <? wrapping_add_i32 (bps (cr_market_exposure_bps s)) (bps proposed)
            then Blocked MarketConcentrationExceeded
            else if 800 <? wrapping_add_i32 (bps (cr_family_exposure_bps s)) (bps proposed)
            then Blocked FamilyConcentrationExceeded
            else if (2500 <? wrapping_add_i32 (bps (cr_total_copy_exposure_bps s)) (bps proposed))
                    || (2500 <? wrapping_add_i32 (bps (cr_open_exposure_bps s)) (bps proposed))
            then Blocked TotalCopyExposureExceeded
            else Approved
        end
  end.

(** ** [inputs.rs] and the arithmetic of [lib.rs] *)

Inductive RiskHaltCause : Type := IntradayDrawdown | Rolling7dDrawdown | AbsoluteLoss | CopyLatency.
Inductive RiskMathError : Type := RiskEmpty | RiskNonPositive | RiskOverflow.
Inductive ResolutionCreditError : Type :=
| InvalidPayoutVector
| InvalidOutcome (outcome_index : Z)
| CreditOverflow.

Definition COPY_LATENCY_ENGAGE_MS : Z := 3000.
Definition COPY_LATENCY_RELEASE_MS : Z := 2000.

(** Nearest-rank p95: [ceil(95 n / 100)] as a one-based rank.  The [usize] products
    cannot overflow for a list that fits in memory. *)
Definition nearest_rank_p95 (samples_ms : list Z) : option Z :=
  match samples_ms with
  | [] => None
  | _ =>
      let sorted := sort_by Z.leb samples_ms in
      let rank := (Z.of_nat (length sorted) * 95 + 99) / 100 in
      sorted !! Z.to_nat (rank - 1)
  end.

Definition latency_switch (active : bool) (previous_hour latest_hour : option Z) : bool :=
  if active then match latest_hour with Some v => COPY_LATENCY_RELEASE_MS <? v | None => true end
  else match previous_hour with Some v => COPY_LATENCY_ENGAGE_MS <? v | None => false end
       && match latest_hour with Some v => COPY_LATENCY_ENGAGE_MS <? v | None => false end.

Record PnlBps := { intraday : BasisPoints; rolling_7d : BasisPoints; absolute : BasisPoints }.

Definition bps_min (a b : BasisPoints) : BasisPoints := {| bps := Z.min (bps a) (bps b) |}.
Definition worst_owner (inputs : list PnlBps) : option PnlBps :=
  match inputs with
  | [] => None
  | first :: rest =>
      Some (foldl (λ worst input, {| intraday := bps_min (intraday worst) (intraday input);
                                     rolling_7d := bps_min (rolling_7d worst) (rolling_7d input);
                                     absolute := bps_min (absolute worst) (absolute input) |})
              first rest)
  end.

Section RiskInputs.
Context `{DO : DecimalOps}.

Record EquityInputs := { equity_cash : Decimal; equity_positions : list (ShareAmount * Price) }.

Definition current_equity (inputs : EquityInputs) : result RiskMathError Decimal :=
  try_fold (λ equity '(quantity, price),
    ok_or (value ← dec_checked_mul (to_decimal quantity) (price_value price);
           dec_checked_add equity value) RiskOverflow)
    (equity_cash inputs) (equity_positions inputs).

Record BinaryPayout := { payout_0 : Decimal; payout_1 : Decimal }.

Definition dec_unit_interval (d : Decimal) : bool := dec_leb dec_ZERO d && dec_leb d dec_ONE.
Definition BinaryPayout_new (outcome_0 outcome_1 : Decimal) : result ResolutionCreditError BinaryPayout :=
  if negb (dec_unit_interval outcome_0) || negb (dec_unit_interval outcome_1)
     || match dec_checked_add outcome_0 outcome_1 with
        | Some sum => negb (dec_eqb sum dec_ONE)
        | None => true
        end
  then Err InvalidPayoutVector else Ok {| payout_0 := outcome_0; payout_1 := outcome_1 |}.

Definition payout_get (p : BinaryPayout) (outcome : Z) : option Decimal :=
  if outcome =? 0 then Some (payout_0 p) else if outcome =? 1 then Some (payout_1 p) else None.

(** The shares per outcome, in a [BTreeMap<u16, u64>]. *)
Definition add_shares (aggregated : list (Z * Z)) (position : Z * ShareAmount) :
    result ResolutionCreditError (list (Z * Z)) :=
  let '(outcome_index, shares) := position in
  let prior := default 0 (bt_get outcome_index aggregated) in
  total ← ok_or (checked_add_u64 prior (atomic shares)) CreditOverflow;
  Ok (bt_insert outcome_index total aggregated).

Definition add_credit (payout : BinaryPayout) (credit : CollateralAmount) (entry : Z * Z) :
    result ResolutionCreditError CollateralAmount :=
  let '(outcome_index, shares) := entry in
  payout ← ok_or (payout_get payout outcome_index) (InvalidOutcome outcome_index);
  outcome_atomic ← ok_or (value ← dec_checked_mul (dec_from shares) payout;
                          dec_to_u64 (dec_floor value)) CreditOverflow;
  map_err (λ _, CreditOverflow) (collateral_checked_add credit (from_atomic outcome_atomic)).

Definition aggregate_resolution_credit (positions : list (Z * ShareAmount)) (payout : BinaryPayout) :
    result ResolutionCreditError CollateralAmount :=
  shares_by_outcome ← try_fold add_shares [] positions;
  try_fold (add_credit payout) amount_ZERO shares_by_outcome.

Record PnlWindow := {
  starting_bankroll : Decimal;
  preceding_mark_equity : option Decimal;
  window_realized_closes_7d : Decimal
}.

Definition realized_closes_7d (closes : list (Z * Decimal)) (at_unix : Z) : result RiskMathError Decimal :=
  lower_exclusive ← ok_or (fits I64_MIN I64_MAX (at_unix - 7 * 24 * 60 * 60)) RiskOverflow;
  try_fold (λ total '(_, pnl), ok_or (dec_checked_add total pnl) RiskOverflow) dec_ZERO
    (filter (λ '(final_unix, _), lower_exclusive < final_unix ∧ final_unix ≤ at_unix) closes).

Definition ratio_bps (numerator denominator : Decimal) : result RiskMathError BasisPoints :=
  map_err (λ _, RiskOverflow) (from_ratio_floor numerator denominator).

Definition pnl_bps (equity : Decimal) (window : PnlWindow) : result RiskMathError PnlBps :=
  if dec_leb (starting_bankroll window) dec_ZERO then Err RiskNonPositive
  else
    let intraday_baseline := default (starting_bankroll window) (preceding_mark_equity window) in
    intraday_numerator ← ok_or (dec_checked_sub equity intraday_baseline) RiskOverflow;
    absolute_numerator ← ok_or (dec_checked_sub equity (starting_bankroll window)) RiskOverflow;
    i ← ratio_bps intraday_numerator (starting_bankroll window);
    r ← ratio_bps (window_realized_closes_7d window) (starting_bankroll window);
    a ← ratio_bps absolute_numerator (starting_bankroll window);
    Ok {| intraday := i; rolling_7d := r; absolute := a |}.

(** The body of the loop over the equity path: the running peak and the largest
    drawdown so far. *)
Definition drawdown_step (acc : Decimal * Decimal) (value : Decimal) :
    result RiskMathError (Decimal * Decimal) :=
  let '(peak, max_drawdown) := acc in
  if dec_leb value dec_ZERO then Err RiskNonPositive
  else if dec_ltb peak value then Ok (value, max_drawdown)
  else
    drawdown ← ok_or (loss ← dec_checked_sub peak value; dec_checked_div loss peak) RiskOverflow;
    Ok (peak, if dec_ltb max_drawdown drawdown then drawdown else max_drawdown).
Definition max_drawdown_fraction (equity : list Decimal) : result RiskMathError Decimal :=
  match equity with
  | [] => Err RiskEmpty
  | first :: rest =>
      if dec_leb first dec_ZERO then Err RiskNonPositive
      else '(_, max_drawdown) ← try_fold drawdown_step (first, dec_ZERO) rest; Ok max_drawdown
  end.

(** The clamps multiply and divide with the panicking operators: [None] is a panic. *)
Definition clamp_contracts_to_cap (contracts : Z) (price bankroll : Decimal) (cap_bps : Z) : option Z :=
  if (cap_bps <=? 0) || dec_leb bankroll dec_ZERO || dec_leb price dec_ZERO then Some 0
  else
    product ← dec_checked_mul bankroll (dec_from cap_bps);
    cap_usd ← dec_checked_div product (dec_from 10000);
    quotient ← dec_checked_div cap_usd price;
    Some (Z.min contracts (default U64_MAX (dec_to_u64 (dec_floor quotient)))).

Definition clamp_contracts_to_liquidity (contracts : Z)
    (liquidity_usd take_fraction min_required_usd fill_price : Decimal) : option Z :=
  if dec_leb fill_price dec_ZERO then Some 0
  else if dec_leb take_fraction dec_ZERO || dec_ltb liquidity_usd min_required_usd then Some contracts
  else
    max_notional ← dec_checked_mul liquidity_usd take_fraction;
    quotient ← dec_checked_div max_notional fill_price;
    Some (Z.min contracts (default U64_MAX (dec_to_u64 (dec_floor quotient)))).

End RiskInputs.

(** ** The gates *)

Lemma wrapping_add_i32_id a b : is_i32 (a + b) → wrapping_add_i32 a b = a + b.
Proof. unfold is_i32, wrapping_add_i32, I32_MIN, I32_MAX. intros H. rewrite Z.mod_small; lia. Qed.

Lemma exceeds_cap_false existing proposed cap : exceeds_concentration_cap existing proposed cap = false →
  is_i32 (existing + proposed) ∧ existing + proposed ≤ cap.
Proof.
  unfold exceeds_concentration_cap, checked_add_i32.
  destruct (fits _ _ _) as [t|] eqn:E; [|done]. apply fits_Some in E as [-> ?]. by rewrite Z.ltb_ge.
Qed.
Lemma exceeds_cap_intro existing proposed cap : is_i32 (existing + proposed) →
  existing + proposed ≤ cap → exceeds_concentration_cap existing proposed cap = false.
Proof.
  intros Hi Hc. unfold exceeds_concentration_cap, checked_add_i32.
  rewrite (proj2 (fits_Some _ _ _ (existing + proposed))) by done. by rewrite Z.ltb_ge.
Qed.

(** Basis points are rounded outward: the reported exposure is the least whole
    number of basis points of the bankroll that covers the amount, and the
    conversion fails only for an empty bankroll or an exposure above [i32::MAX]. *)
Lemma exposure_bps_ceil_least amount bankroll : amount_wf amount → amount_wf bankroll →
  match exposure_bps_ceil amount bankroll with
  | Some b => 0 < atomic bankroll ∧ is_i32 (bps b) ∧ atomic amount * 10000 ≤ bps b * atomic bankroll
      ∧ ∀ n, atomic amount * 10000 ≤ n * atomic bankroll → bps b ≤ n
  | None => bankroll = amount_ZERO ∨ I32_MAX * atomic bankroll < atomic amount * 10000
  end.
Proof.
  unfold amount_wf, is_u64, U64_MAX. intros Ha Hb. unfold exposure_bps_ceil.
  case_decide as Hz; [by left|].
  assert (0 < atomic bankroll) as Hpos.
  { destruct bankroll as [b]. simpl in *. assert (b ≠ 0) by (intros ->; done). lia. }
  unfold checked_mul_u128, checked_sub_u128, checked_add_u128.
  rewrite (proj2 (fits_Some 0 U128_MAX (atomic amount * 10000) _)) by (unfold U128_MAX; split; [done|lia]).
  simpl. rewrite (proj2 (fits_Some 0 U128_MAX (atomic bankroll - 1) _)) by (unfold U128_MAX; split; [done|lia]).
  simpl. rewrite (proj2 (fits_Some 0 U128_MAX _ (atomic amount * 10000 + (atomic bankroll - 1))))
    by (unfold U128_MAX; split; [done|lia]).
  simpl. set (q := (atomic amount * 10000 + (atomic bankroll - 1)) / atomic bankroll).
  assert (q * atomic bankroll ≤ atomic amount * 10000 + (atomic bankroll - 1)
          < q * atomic bankroll + atomic bankroll) as Hq.
  { unfold q. Z.to_euclidean_division_equations. lia. }
  assert (0 ≤ q) as Hq0 by (apply Z.div_pos; lia).
  destruct (fits I32_MIN I32_MAX q) as [z|] eqn:E; simpl.
  - apply fits_Some in E as [-> ?]. split_and!; [done|done|lia|]. intros n Hn. nia.
  - apply fits_None in E. unfold I32_MIN, I32_MAX in *. right. nia.
Qed.

(** One snapshot is no riskier than another: no larger exposures or proposal, no
    worse results, no latency stop the other lacks, under the same rules. *)
Definition no_riskier (s t : RiskSnapshot) : Prop :=
  bps (leader_exposure_bps s) ≤ bps (leader_exposure_bps t)
  ∧ bps (market_exposure_bps s) ≤ bps (market_exposure_bps t)
  ∧ bps (family_exposure_bps s) ≤ bps (family_exposure_bps t)
  ∧ bps (total_copy_exposure_bps s) ≤ bps (total_copy_exposure_bps t)
  ∧ bps (intraday_pnl_bps t) ≤ bps (intraday_pnl_bps s)
  ∧ bps (rolling_7d_pnl_bps t) ≤ bps (rolling_7d_pnl_bps s)
  ∧ bps (absolute_pnl_bps t) ≤ bps (absolute_pnl_bps s)
  ∧ (copy_latency_kill_switch_active s = true → copy_latency_kill_switch_active t = true)
  ∧ 0 ≤ bps (proposed_trade_bps s) ≤ bps (proposed_trade_bps t)
  ∧ per_trade_cap_bps s = per_trade_cap_bps t ∧ drawdown_policy s = drawdown_policy t
  ∧ concentration_caps s = concentration_caps t.

(** The exposures a snapshot holds are not negative. *)
Definition exposures_nonneg (s : RiskSnapshot) : Prop :=
  0 ≤ bps (leader_exposure_bps s) ∧ 0 ≤ bps (market_exposure_bps s)
  ∧ 0 ≤ bps (family_exposure_bps s) ∧ 0 ≤ bps (total_copy_exposure_bps s).

(** What an approval stands for. *)
Definition within_limits (s : RiskSnapshot) : Prop :=
  absolute_loss_bps (drawdown_policy s) < bps (absolute_pnl_bps s)
  ∧ (drawdown_policy s = Stops →
       INTRADAY_STOP_BPS < bps (intraday_pnl_bps s) ∧ ROLLING_7D_STOP_BPS < bps (rolling_7d_pnl_bps s))
  ∧ copy_latency_kill_switch_active s = false
  ∧ bps (proposed_trade_bps s) ≤ per_trade_cap_bps s
  ∧ ∀ caps, concentration_caps s = Some caps →
      let fit existing cap := is_i32 (existing + bps (proposed_trade_bps s))
                              ∧ existing + bps (proposed_trade_bps s) ≤ cap in
      fit (bps (leader_exposure_bps s)) (max_leader_bps caps)
      ∧ fit (bps (market_exposure_bps s)) (max_market_bps caps)
      ∧ fit (bps (family_exposure_bps s)) (max_family_bps caps)
      ∧ fit (bps (total_copy_exposure_bps s)) (max_total_copy_bps caps).

Lemma evaluate_risk_approved s : evaluate_risk s = Approved ↔ within_limits s.
Proof.
  unfold within_limits, evaluate_risk. split.
  - intros H. destruct (bps (absolute_pnl_bps s) <=? _) eqn:E1; [done|].
    destruct (bool_decide _ && (bps (intraday_pnl_bps s) <=? _)) eqn:E2; [done|].
    destruct (bool_decide _ && (bps (rolling_7d_pnl_bps s) <=? _)) eqn:E3; [done|].
    destruct (copy_latency_kill_switch_active s); [done|].
    destruct (per_trade_cap_bps s <? _) eqn:E5; [done|]. rust. split_and!; try done.
    + intros Hs. destruct E2, E3; try congruence; done.
    + intros caps Hc. rewrite Hc in H.
      repeat match type of H with context [exceeds_concentration_cap ?a ?b ?c] =>
        let E := fresh "E" in destruct (exceeds_concentration_cap a b c) eqn:E; [done|];
        apply exceeds_cap_false in E end.
      done.
  - intros (H1 & H2 & -> & H4 & H5). rewrite (proj2 (Z.leb_gt _ _)) by done.
    assert (∀ x, (drawdown_policy s = Stops → x = false) →
      bool_decide (drawdown_policy s = Stops) && x = false) as Hb.
    { intros x Hx. case_bool_decide; simpl; auto. }
    rewrite !Hb by (intros; apply Z.leb_gt; naive_solver).
    rewrite (proj2 (Z.ltb_ge _ _)) by done. destruct (concentration_caps s) as [caps|]; [|done].
    destruct (H5 caps eq_refl) as ([] & [] & [] & []). by rewrite !exceeds_cap_intro.
Qed.

(** The gate is monotone: a trade that is no riskier than an approved one is
    approved. *)
Theorem evaluate_risk_monotone s t :
  no_riskier s t → exposures_nonneg s → evaluate_risk t = Approved → evaluate_risk s = Approved.
Proof.
  intros (? & ? & ? & ? & ? & ? & ? & Hk & ? & Hcap & Hp & Hc) (? & ? & ? & ?).
  rewrite !evaluate_risk_approved. intros (A1 & A2 & A3 & A4 & A5). unfold within_limits.
  rewrite Hp, Hcap, Hc. split_and!; [lia| |by destruct (copy_latency_kill_switch_active s); [rewrite Hk in A3|]|lia|].
  - intros [??]%A2. lia.
  - intros caps Hcs. destruct (A5 caps Hcs) as ([] & [] & [] & []). unfold is_i32, I32_MIN, I32_MAX in *.
    simpl in *. lia.
Qed.

(** The exposures of a canary snapshot, none of which is close to [i32::MAX]. *)
Definition canary_exposures_ok (s : CanaryRiskSnapshot) : Prop :=
  let ok e := 0 ≤ bps e ≤ I32_MAX - 50 in
  (∀ e, cr_leader_exposure_bps s = Some e → ok e) ∧ ok (cr_market_exposure_bps s)
  ∧ ok (cr_family_exposure_bps s) ∧ ok (cr_total_copy_exposure_bps s) ∧ ok (cr_open_exposure_bps s).

#[local] Opaque wrapping_add_i32.
Lemma canary_approved s : evaluate_canary_risk s = Approved → ∃ proposed,
  exposure_bps_ceil (cr_proposed_worst_case_debit s) (cr_canary_bankroll s) = Some proposed
  ∧ bps proposed ≤ 50 ∧ atomic (cr_proposed_worst_case_debit s) ≤ 1000000
  ∧ atomic (cr_proposed_worst_case_debit s) ≤ atomic (cr_allowance s) ≤ 8000000
  ∧ cr_pending_reservation s = false ∧ cr_resolver_tradable s = true
  ∧ cr_account_state_fresh s = true ∧ cr_venue_reconciliation_fresh s = true
  ∧ cr_geoblocked s = false ∧ cr_closed_only s = false ∧ cr_jurisdiction_attestation_valid s = true
  ∧ ∃ leader, (cr_origin s = Organic ∧ cr_leader_exposure_bps s = Some leader
               ∨ cr_origin s = OperatorProbe ∧ cr_leader_exposure_bps s = None ∧ leader = {| bps := 0 |})
    ∧ wrapping_add_i32 (bps leader) (bps proposed) ≤ 300
    ∧ wrapping_add_i32 (bps (cr_market_exposure_bps s)) (bps proposed) ≤ 200
    ∧ wrapping_add_i32 (bps (cr_family_exposure_bps s)) (bps proposed) ≤ 800
    ∧ wrapping_add_i32 (bps (cr_total_copy_exposure_bps s)) (bps proposed) ≤ 2500
    ∧ wrapping_add_i32 (bps (cr_open_exposure_bps s)) (bps proposed) ≤ 2500.
Proof.
  unfold evaluate_canary_risk. destruct (exposure_bps_ceil _ _) as [proposed|] eqn:E; [|done].
  intros H. exists proposed. split; [done|].
  repeat match type of H with (if ?b then _ else _) = _ => let E := fresh "G" in destruct b eqn:E; [done|] end.
  destruct (match cr_origin s, cr_leader_exposure_bps s with Organic, Some value => Some value
    | OperatorProbe, None => Some {| bps := 0 |} | _, _ => None end) as [leader|] eqn:El; [|done].
  repeat match type of H with (if ?b then _ else _) = _ => let E := fresh "G" in destruct b eqn:E; [done|] end.
  unfold amount_ltb in *. cbn [atomic bps CANARY_MAX_ALLOWANCE CANARY_MAX_ORDER_DEBIT CANARY_PER_TRADE_CAP_BPS] in *.
  rust. destruct_and!. split_and!; try done; try lia.
  exists leader. split; [|split_and!; assumption].
  clear -El. destruct (cr_origin s), (cr_leader_exposure_bps s); simplify_eq; auto.
Qed.

(** what the canary gate lets through: an approved order costs at most one
    dollar, half a percent of the bankroll and the allowance, which is at most
    eight dollars; nothing is pending, geoblocked or close-only; and, unless an
    exposure is within 50 basis points of [i32::MAX], every concentration after
    the order is within its cap. *)
Theorem canary_risk_bounded s :
  evaluate_canary_risk s = Approved → amount_wf (cr_proposed_worst_case_debit s) →
  amount_wf (cr_canary_bankroll s) → canary_exposures_ok s →
  atomic (cr_proposed_worst_case_debit s) ≤ 1000000
  ∧ atomic (cr_proposed_worst_case_debit s) * 200 ≤ atomic (cr_canary_bankroll s)
  ∧ atomic (cr_proposed_worst_case_debit s) ≤ atomic (cr_allowance s) ≤ 8000000
  ∧ cr_pending_reservation s = false ∧ cr_geoblocked s = false ∧ cr_closed_only s = false
  ∧ ∃ proposed, atomic (cr_proposed_worst_case_debit s) * 10000 ≤ proposed * atomic (cr_canary_bankroll s)
    ∧ (∀ e, cr_leader_exposure_bps s = Some e → bps e + proposed ≤ 300)
    ∧ bps (cr_market_exposure_bps s) + proposed ≤ 200 ∧ bps (cr_family_exposure_bps s) + proposed ≤ 800
    ∧ bps (cr_total_copy_exposure_bps s) + proposed ≤ 2500 ∧ bps (cr_open_exposure_bps s) + proposed ≤ 2500.
Proof.
  intros (proposed & Hp & H50 & ? & ? & ? & _ & _ & _ & ? & ? & _ & leader & Hl & W1 & W2 & W3 & W4 & W5)%canary_approved
    Ha Hb (Hle & ? & ? & ? & ?).
  pose proof (exposure_bps_ceil_least _ _ Ha Hb) as Hc. rewrite Hp in Hc. destruct Hc as (Hpos & Hi & Hc & _).
  unfold amount_wf, is_u64 in *.
  assert (0 ≤ bps proposed) as Hnn by nia.
  assert (∀ e, 0 ≤ e ≤ I32_MAX - 50 → wrapping_add_i32 e (bps proposed) = e + bps proposed) as Hw.
  { intros e He. apply wrapping_add_i32_id. unfold is_i32, I32_MIN, I32_MAX in *. lia. }
  rewrite !Hw in * by (done || (destruct Hl as [[_ Hl]|(_ & _ & ->)]; [by apply Hle|by vm_compute])).
  split_and!; try done; try nia. exists (bps proposed). split_and!; try done.
  intros e He. destruct Hl as [[_ Hl]|(_ & Hl & _)]; congruence.
Qed.

#[local] Transparent wrapping_add_i32.

(** The concentration checks of the canary gate add [i32] values unchecked: at
    [i32::MAX] a release build wraps and approves. *)
Definition wrapping_snapshot : CanaryRiskSnapshot := {|
  cr_origin := OperatorProbe; cr_proposed_worst_case_debit := from_atomic 1000000;
  cr_canary_bankroll := from_atomic 200000000; cr_leader_exposure_bps := None;
  cr_market_exposure_bps := {| bps := I32_MAX |}; cr_family_exposure_bps := {| bps := I32_MAX |};
  cr_total_copy_exposure_bps := {| bps := I32_MAX |}; cr_open_exposure_bps := {| bps := I32_MAX |};
  cr_resolver_tradable := true; cr_account_state_fresh := true; cr_venue_reconciliation_fresh := true;
  cr_geoblock_fresh := true; cr_geoblocked := false; cr_closed_only_fresh := true; cr_closed_only := false;
  cr_jurisdiction_attestation_valid := true; cr_pending_reservation := false;
  cr_allowance := from_atomic 8000000; cr_standard_spender_only := true |}.
Lemma canary_risk_wraps : evaluate_canary_risk wrapping_snapshot = Approved.
Proof. reflexivity. Qed.

(** ** Percentiles *)

Lemma sorted_split (l : list Z) k v : StronglySorted (λ a b, Z.leb a b = true) l → l !! k = Some v →
  Forall (λ x, x ≤ v) (take (S k) l) ∧ Forall (λ x, v ≤ x) (drop k l).
Proof.
  intros Hs. revert k. induction Hs as [|a l Hs IH Ha]; intros k Hk; [done|].
  destruct k as [|k]; simpl in Hk |- *.
  - injection Hk as ->. split; [by repeat constructor|]. constructor; [done|].
    eapply Forall_impl; [exact Ha|]. intros x. apply Z.leb_le.
  - destruct (IH k Hk) as [H1 H2]. split; [|done]. constructor; [|done].
    eapply Forall_forall in Ha; [by apply Z.leb_le, Ha|]. by eapply list_elem_of_lookup_2.
Qed.

Lemma count_all {A} (P : A → Prop) `{!∀ x, Decision (P x)} l : Forall P l → length (filter P l) = length l.
Proof.
  induction 1 as [|x l Hx _ IH]; [done|]. rewrite filter_cons_True by done. simpl. by rewrite IH.
Qed.
Lemma count_none {A} (P : A → Prop) `{!∀ x, Decision (P x)} l : Forall (λ x, ¬ P x) l → filter P l = [].
Proof. induction 1 as [|x l Hx _ IH]; [done|]. by rewrite filter_cons_False. Qed.

(** the nearest-rank percentile is one: the reported latency is a sample, at
    least 95 percent of the samples are no larger, and fewer than 95 percent are
    smaller; only an hour without samples has none. *)
Theorem nearest_rank_p95_spec samples :
  match nearest_rank_p95 samples with
  | Some v => v ∈ samples
      ∧ 95 * Z.of_nat (length samples) ≤ 100 * Z.of_nat (length (filter (λ x, x ≤ v) samples))
      ∧ 100 * Z.of_nat (length (filter (λ x, x < v) samples)) < 95 * Z.of_nat (length samples)
  | None => samples = []
  end.
Proof.
  unfold nearest_rank_p95. destruct samples as [|x0 samples0]; [done|].
  set (samples := x0 :: samples0). set (sorted := sort_by Z.leb samples).
  assert (sorted ≡ₚ samples) as Hp by apply sort_by_perm.
  assert (length sorted = S (length samples0)) as Hl by (by rewrite Hp).
  set (rank := (Z.of_nat (length sorted) * 95 + 99) / 100).
  assert (95 * Z.of_nat (length sorted) ≤ 100 * rank < 95 * Z.of_nat (length sorted) + 100) as Hr.
  { unfold rank. Z.to_euclidean_division_equations. lia. }
  destruct (sorted !! Z.to_nat (rank - 1)) as [v|] eqn:Hv.
  2:{ apply lookup_ge_None in Hv. lia. }
  destruct (sorted_split sorted (Z.to_nat (rank - 1)) v) as [H1 H2]; [|done|].
  { apply sort_by_sorted; [intros a b; rewrite !Z.leb_le; lia|intros a b c; rewrite !Z.leb_le; lia]. }
  rewrite <- Hp. split; [by eapply list_elem_of_lookup_2|].
  apply lookup_lt_Some in Hv. split.
  - rewrite <- (take_drop (S (Z.to_nat (rank - 1))) sorted) at 2.
    rewrite filter_app, length_app, (count_all _ _ H1), length_take. lia.
  - rewrite <- (take_drop (Z.to_nat (rank - 1)) sorted) at 1.
    rewrite filter_app, length_app, (count_none _ (drop _ sorted)).
    2:{ eapply Forall_impl; [exact H2|]. simpl. lia. }
    pose proof (length_filter (λ x, x < v) (take (Z.to_nat (rank - 1)) sorted)) as Hf.
    rewrite length_take in Hf. simpl. lia.
Qed.

(** ** Resolution credit *)

Section Credit.
Context `{DL : DecimalLaws}.

(** The shares held in one outcome, and in all. *)
Definition shares_of (o : Z) (positions : list (Z * ShareAmount)) : Z :=
  sum_with (λ p, if decide (p.1 = o) then atomic p.2 else 0) positions.
Definition shares_total (positions : list (Z * ShareAmount)) : Z := sum_with (λ p, atomic p.2) positions.

Lemma shares_of_perm o ps ps' : ps ≡ₚ ps' → shares_of o ps = shares_of o ps'.
Proof. intros Hp. unfold shares_of. by rewrite Hp. Qed.
Lemma shares_of_nonneg o ps : Forall (λ p, amount_wf p.2) ps → 0 ≤ shares_of o ps.
Proof.
  intros H. apply sum_with_nonneg. eapply Forall_impl; [exact H|]. intros [o' a] Ha. simpl.
  unfold amount_wf, is_u64 in Ha. simpl in Ha. case_decide; lia.
Qed.

Definition aggregated_ok (m : list (Z * Z)) (ps : list (Z * ShareAmount)) : Prop :=
  bt_wf m ∧ (∀ o, bt_get o m = if decide (o ∈ ps.*1) then Some (shares_of o ps) else None)
  ∧ sum_with snd m = shares_total ps ∧ Forall is_u64 (bt_values m).

Lemma sum_with_insert (o v : Z) (m : list (Z * Z)) : bt_wf m →
  sum_with snd (bt_insert o v m) = sum_with snd m + v - default 0 (bt_get o m).
Proof.
  unfold bt_wf. induction m as [|[k w] m IH]; [simpl; lia|]. inversion 1 as [|? ? Hs Hf]; subst.
  cbn [bt_insert bt_get]. destruct (cmp o k) eqn:E; simpl; [lia|lia|]. rewrite IH by done. lia.
Qed.
Lemma bt_values_insert (P : Z → Prop) (o v : Z) (m : list (Z * Z)) : P v → Forall P (bt_values m) →
  Forall P (bt_values (bt_insert o v m)).
Proof.
  intros Hv. unfold bt_values. induction m as [|[k w] m IH]; [by repeat constructor|].
  inversion 1; subst. cbn [bt_insert]. destruct (cmp o k); csimpl; constructor; auto.
Qed.

Lemma sum_with_absent w (ps : list (Z * ShareAmount)) : w ∉ ps.*1 →
  sum_with (λ p, if decide (p.1 = w) then atomic p.2 else 0) ps = 0.
Proof.
  induction ps as [|[o a] ps IH]; [done|]. change (((o, a) :: ps).*1) with (o :: ps.*1). rewrite not_elem_of_cons. intros [Hne Hin].
  rewrite sum_with_cons. cbn [fst]. rewrite decide_False, IH by done. done.
Qed.

Lemma add_shares_all ps : Forall (λ p, amount_wf p.2) ps →
  match try_fold add_shares [] ps with
  | Ok m => aggregated_ok m ps
  | Err e => e = CreditOverflow ∧ ∃ o, U64_MAX < shares_of o ps
  end.
Proof.
  induction ps as [|[o a] ps IH] using rev_ind; intros Hps.
  { simpl. split_and!; [constructor|done|done|constructor]. }
  apply Forall_app in Hps as [Hps Ha]. rewrite Forall_singleton in Ha. simpl in Ha. specialize (IH Hps).
  rewrite try_fold_app.
  assert (∀ x, shares_of x (ps ++ [(o, a)]) = shares_of x ps + if decide (o = x) then atomic a else 0) as Hsum.
  { intros x. unfold shares_of. rewrite sum_with_app. f_equal. simpl. lia. }
  destruct (try_fold add_shares [] ps) as [m|e]; simpl.
  2:{ destruct IH as (-> & x & Hx). split; [done|]. exists x. rewrite Hsum.
      unfold amount_wf, is_u64 in Ha. case_decide; lia. }
  destruct IH as (Hwf & Hget & Htot & Hval).
  assert (default 0 (bt_get o m) = shares_of o ps) as Hprior.
  { rewrite Hget. case_decide as Hin; [done|]. symmetry. by apply sum_with_absent. }
  rewrite Hprior. unfold checked_add_u64. destruct (fits 0 U64_MAX _) as [t|] eqn:E; simpl.
  - apply fits_Some in E as [-> Ht]. split_and!.
    + by apply bt_insert_wf.
    + intros x. rewrite bt_get_insert by done. rewrite Hget, Hsum, fmap_app. csimpl.
      destruct (decide (x = o)) as [->|Hne].
      * rewrite decide_True by set_solver. by rewrite decide_True.
      * rewrite (decide_False (P := o = x)) by done. rewrite Z.add_0_r. repeat case_decide; set_solver.
    + rewrite sum_with_insert by done. rewrite Hprior, Htot. unfold shares_total. rewrite sum_with_app.
      cbn [sum_with foldr snd]. lia.
    + by apply bt_values_insert.
  - apply fits_None in E. split; [done|]. exists o. rewrite Hsum, decide_True by done.
    pose proof (shares_of_nonneg o ps Hps). unfold amount_wf, is_u64 in Ha. lia.
Qed.

Lemma sum_with_key (m : list (Z * Z)) w : bt_wf m →
  sum_with (λ e, if decide (e.1 = w) then e.2 else 0) m = default 0 (bt_get w m).
Proof.
  unfold bt_wf. induction m as [|[k v] m IH]; [done|]. inversion 1 as [|? ? Hs Hf]; subst.
  rewrite sum_with_cons, IH by done. cbn [bt_get fst snd]. destruct (decide (k = w)) as [->|Hne].
  - rewrite cmp_refl, bt_get_lt by done. simpl. lia.
  - destruct (cmp w k) eqn:E; [by apply cmp_eq in E|..|done].
    rewrite bt_get_lt; [done|]. eapply Forall_impl; [exact Hf|]. intros b Hb. by eapply cmp_lt_trans.
Qed.
Lemma BinaryPayout_new_Ok d0 d1 p : BinaryPayout_new d0 d1 = Ok p →
  p = {| payout_0 := d0; payout_1 := d1 |}
  ∧ (0 <= dec_value d0 <= 1)%Q ∧ (0 <= dec_value d1 <= 1)%Q.
Proof.
  unfold BinaryPayout_new, dec_unit_interval. destruct (_ || _) eqn:E; [done|]. intros [= <-].
  apply orb_false_iff in E as [[E0 E1]%orb_false_iff _]. apply negb_false_iff in E0, E1.
  apply andb_true_iff in E0 as [A%dec_leb_le B%dec_leb_le], E1 as [C%dec_leb_le D%dec_leb_le].
  rewrite dec_ZERO_value in A, C. rewrite dec_ONE_value in B, D. done.
Qed.

Lemma add_credit_all p : (0 <= dec_value (payout_0 p) <= 1)%Q → (0 <= dec_value (payout_1 p) <= 1)%Q →
  ∀ m c credit, Forall is_u64 (bt_values m) → try_fold (add_credit p) c m = Ok credit →
  (0 ≤ atomic credit - atomic c ≤ sum_with snd m) ∧ Forall (λ o, o = 0 ∨ o = 1) (bt_keys m)
  ∧ ∀ w, (dec_value (payout_0 p) == inject_Z (if w =? 0 then 1 else 0))%Q →
      (dec_value (payout_1 p) == inject_Z (if w =? 0 then 0 else 1))%Q →
      w = 0 ∨ w = 1 → atomic credit - atomic c = sum_with (λ e, if decide (e.1 = w) then e.2 else 0) m.
Proof.
  intros H0 H1 m. induction m as [|[o n] m IH]; intros c credit Hv H.
  { injection H as <-. simpl. split_and!; [lia|lia|constructor|lia]. }
  apply Forall_cons in Hv as [Hn Hv]. apply result_bind_Ok in H as (c' & Hc & H).
  apply (IH _ _ Hv) in H as (Hb & Hk & Hw). clear IH. unfold add_credit in Hc.
  apply result_bind_Ok in Hc as (f & Hf%ok_or_Ok & Hc). apply result_bind_Ok in Hc as (z & Hz%ok_or_Ok & Hc).
  apply bind_Some in Hz as (v & Hm & Hz). apply map_err_Ok in Hc.
  apply amount_checked_add_Ok in Hc as [-> _]. unfold payout_get in Hf. cbn [atomic] in *.
  assert ((o = 0 ∧ f = payout_0 p) ∨ (o = 1 ∧ f = payout_1 p)) as Ho.
  { destruct (Z.eqb_spec o 0); [left; naive_solver|]. destruct (Z.eqb_spec o 1); naive_solver. }
  assert (0 <= dec_value f <= 1)%Q as Hu by (destruct Ho as [[_ ->]|[_ ->]]; done).
  destruct (floor_mul_unit _ _ _ _ Hn Hu Hm Hz) as (Hle & Hone & Hzero).
  rewrite sum_with_cons. cbn [snd] in *. split_and!; [lia|lia|constructor; [|done]; naive_solver|].
  intros w E0 E1 Hw01. specialize (Hw w E0 E1 Hw01). rewrite sum_with_cons. cbn [fst snd].
  assert (z = if decide (o = w) then n else 0) as Hz'; [|lia].
  destruct Ho as [[-> ->]|[-> ->]], Hw01 as [-> | ->]; simpl in E0, E1; case_decide; try lia; auto.
Qed.

(** settlement never credits more than the shares held: it accepts only the two
    outcomes of a binary market, its result does not depend on the order of the
    positions, and when one outcome pays one the credit is exactly the shares of
    that outcome. *)
Theorem resolution_credit_bounded d0 d1 p positions credit :
  BinaryPayout_new d0 d1 = Ok p → Forall (λ q, amount_wf q.2) positions →
  aggregate_resolution_credit positions p = Ok credit →
  0 ≤ atomic credit ≤ shares_total positions
  ∧ Forall (λ q, q.1 = 0 ∨ q.1 = 1) positions
  ∧ ((dec_value d0 == 1)%Q → (dec_value d1 == 0)%Q → atomic credit = shares_of 0 positions)
  ∧ ((dec_value d0 == 0)%Q → (dec_value d1 == 1)%Q → atomic credit = shares_of 1 positions)
  ∧ ∀ positions', positions ≡ₚ positions' → aggregate_resolution_credit positions' p = Ok credit.
Proof.
  intros (-> & H0 & H1)%BinaryPayout_new_Ok Hps H. unfold aggregate_resolution_credit in *.
  pose proof (add_shares_all positions Hps) as Hall.
  destruct (try_fold add_shares [] positions) as [m|]; [|done]. simpl in H.
  destruct Hall as (Hwf & Hget & Htot & Hval).
  pose proof H as (Hb & Hk & Hw)%add_credit_all; [|done..]. simpl in Hb.
  assert (∀ w, sum_with (λ e, if decide (e.1 = w) then e.2 else 0) m = shares_of w positions) as Hsw.
  { intros w. rewrite (sum_with_key m w Hwf), Hget. case_decide as Hin; [done|].
    simpl. unfold shares_of. symmetry. by apply sum_with_absent. }
  split_and!; [lia|lia| | | |].
  - apply Forall_forall. intros [o a] Hin. eapply Forall_forall in Hk; [exact Hk|].
    apply list_elem_of_fmap. exists (o, shares_of o positions). split; [done|]. apply bt_elem_get.
    rewrite Hget, decide_True; [done|]. apply list_elem_of_fmap. by exists (o, a).
  - intros E0 E1. specialize (Hw 0 E0 E1). rewrite Hsw in Hw. simpl in Hw. lia.
  - intros E0 E1. specialize (Hw 1 E0 E1). rewrite Hsw in Hw. simpl in Hw. lia.
  - intros positions' Hp. assert (Forall (λ q, amount_wf q.2) positions') as Hps' by (by rewrite <- Hp).
    pose proof (add_shares_all positions' Hps') as Hall'.
    destruct (try_fold add_shares [] positions') as [m'|e].
    + destruct Hall' as (Hwf' & Hget' & _). simpl. rewrite <- H. f_equal. apply bt_ext; [done|done|].
      intros o. rewrite Hget, Hget', (shares_of_perm o _ _ Hp).
      assert (o ∈ positions.*1 ↔ o ∈ positions'.*1) as Hio by (by rewrite Hp). repeat case_decide; tauto.
    + destruct Hall' as (-> & o & Ho). exfalso. rewrite <- (shares_of_perm o _ _ Hp) in Ho. specialize (Hget o).
      case_decide as Hin.
      * apply bt_elem_get in Hget. eapply Forall_forall in Hval; [|apply list_elem_of_fmap; by exists (o, shares_of o positions)].
        unfold is_u64 in Hval. simpl in Hval. lia.
      * unfold shares_of in Ho. rewrite (sum_with_absent o positions Hin) in Ho. unfold U64_MAX in Ho. lia.
Qed.

End Credit.

(** ** Samples *)

Definition sample_snapshot (existing proposed : Z) : RiskSnapshot := {|
  leader_exposure_bps := {| bps := existing |}; market_exposure_bps := {| bps := existing |};
  family_exposure_bps := {| bps := existing |}; total_copy_exposure_bps := {| bps := existing |};
  intraday_pnl_bps := {| bps := 0 |}; rolling_7d_pnl_bps := {| bps := -5 |};
  absolute_pnl_bps := {| bps := -7 |}; copy_latency_kill_switch_active := false;
  proposed_trade_bps := {| bps := proposed |}; per_trade_cap_bps := 25; drawdown_policy := Stops;
  concentration_caps := Some CANONICAL |}.

Lemma evaluate_risk_monotone_witness :
  evaluate_risk (sample_snapshot 100 20) = Approved ∧ evaluate_risk (sample_snapshot 90 10) = Approved.
Proof.
  split; [reflexivity|]. apply (evaluate_risk_monotone _ (sample_snapshot 100 20)); [|by vm_compute|reflexivity].
  unfold no_riskier. simpl. split_and!; (lia || done).
Defined.

Definition sample_canary : CanaryRiskSnapshot := {|
  cr_origin := OperatorProbe; cr_proposed_worst_case_debit := from_atomic 900000;
  cr_canary_bankroll := from_atomic 200000000; cr_leader_exposure_bps := None;
  cr_market_exposure_bps := {| bps := 10 |}; cr_family_exposure_bps := {| bps := 20 |};
  cr_total_copy_exposure_bps := {| bps := 30 |}; cr_open_exposure_bps := {| bps := 30 |};
  cr_resolver_tradable := true; cr_account_state_fresh := true; cr_venue_reconciliation_fresh := true;
  cr_geoblock_fresh := true; cr_geoblocked := false; cr_closed_only_fresh := true; cr_closed_only := false;
  cr_jurisdiction_attestation_valid := true; cr_pending_reservation := false;
  cr_allowance := from_atomic 8000000; cr_standard_spender_only := true |}.

Lemma canary_risk_bounded_witness :
  evaluate_canary_risk sample_canary = Approved
  ∧ atomic (cr_proposed_worst_case_debit sample_canary) * 200 ≤ atomic (cr_canary_bankroll sample_canary).
Proof.
  split; [reflexivity|]. eapply (canary_risk_bounded sample_canary); [reflexivity|by vm_compute|by vm_compute|].
  unfold canary_exposures_ok. simpl. unfold I32_MAX. split_and!; (lia || done).
Defined.

Lemma resolution_credit_bounded_witness :
  aggregate_resolution_credit (DO := QDecimal) [(1, from_atomic 5); (0, from_atomic 7); (1, from_atomic 2)]
    {| payout_0 := 0%Q; payout_1 := 1%Q |} = Ok (from_atomic 7)
  ∧ 0 ≤ 7 ≤ shares_total [(1, from_atomic 5); (0, from_atomic 7); (1, from_atomic 2)].
Proof.
  split; [reflexivity|].
  apply (@resolution_credit_bounded QDecimal QDecimal_laws 0%Q 1%Q (@Build_BinaryPayout QDecimal 0%Q 1%Q) _
    (from_atomic 7));
    [reflexivity| |reflexivity].
  repeat constructor; by vm_compute.
Defined.
