(* ===== verification/WinnerFollow.v ===== *)
(** * Sizing and the winner-follow strategy
      (crates/kelly-sizer, crates/strategy-winner-follow, crates/venue-core)

    Fractional-Kelly sizing, the strategy that turns a leader signal into an order
    intent behind the risk gate, and the fixed policy of the organic canary.
    Decimal operators that panic on overflow are written with their checked form
    in the [panicking] monad. *)

From S2P Require Import Prelude CoreTypes Bytes SignalEngine RiskEngine.
#[local] Open Scope Z_scope.

Inductive ExecutionMode : Type := Shadow | Paper | LiveTiny | Promoted.
#[export] Instance ExecutionMode_eq_dec : EqDecision ExecutionMode.
Proof. solve_decision. Defined.

Definition to_risk_trading_mode (mode : ExecutionMode) : TradingMode :=
  match mode with
  | Paper | LiveTiny => LiveTinyCaps
  | Promoted => PromotedCaps
  | Shadow => LiveTinyCaps
  end.

Inductive PerTradeCap : Type := ModeDefault | CapBps (n : Z) | Unlimited.
Definition resolve_bps (cap : PerTradeCap) (mode : TradingMode) : Z :=
  match cap with
  | ModeDefault => match mode with LiveTinyCaps => 25 | PromotedCaps => 100 end
  | CapBps n => n
  | Unlimited => 10000
  end.

Definition STRATEGY_ID : string := "winner-follow".
Definition ORDER_VALIDITY_SECONDS : Z := 30.
Definition ORGANIC_CHASE_BPS : Z := 75.

(** ** Idempotency keys *)
Definition side_str (s : Side) : string := match s with Buy => "buy" | Sell => "sell" end.
Definition build_idempotency_key_parts (leader source_trade_id market : string) (outcome : Z) (s : Side)
    (observed_at_bucket : Z) : string :=
  "wf|" +:+ leader +:+ "|" +:+ source_trade_id +:+ "|" +:+ market +:+ "|" +:+ pretty outcome +:+ "|"
  +:+ side_str s +:+ "|" +:+ pretty observed_at_bucket.

(** [serde_json::to_vec] at a type. *)
Class ToVec (A : Type) := to_vec : A → result string (list Z).
(** The hexadecimal BLAKE3 digest of a value's JSON. *)
Definition json_hash `{B3 : Blake3} `{ToVec A} (a : A) : result string string :=
  bytes ← to_vec a; Ok (to_hex (blake3 bytes)).

Section Strategy.
Context `{DO : DecimalOps} `{TO : TimeOps}.

(** ** [kelly-sizer] *)
Definition KELLY_NORMAL : KellyFraction := {| kelly_value := dec_new 25 2 |}.
Definition KELLY_PAPER_BACKTEST : KellyFraction := {| kelly_value := dec_new 10 2 |}.
Definition KELLY_HARD_MAX : KellyFraction := {| kelly_value := dec_new 50 2 |}.

Inductive KellyError : Type :=
| InvalidNetPrice (value : Decimal)
| InvalidProbability (value : Decimal)
| InvalidBankroll (value : Decimal)
| ContractOverflow (value : Decimal).

Record KellyInput := {
  kelly_p : Probability;
  kelly_c : Price;
  kelly_fraction_of : KellyFraction;
  kelly_bankroll : Decimal
}.

Definition size_contracts (input : KellyInput) : panicking KellyError ContractQty :=
  let p := prob_value (kelly_p input) in
  let c := price_value (kelly_c input) in
  let kf := kelly_value (kelly_fraction_of input) in
  let bankroll := kelly_bankroll input in
  if dec_ltb p dec_ZERO || dec_ltb dec_ONE p then throw (InvalidProbability p)
  else if dec_leb c dec_ZERO || dec_leb dec_ONE c then throw (InvalidNetPrice c)
  else if dec_leb bankroll dec_ZERO then throw (InvalidBankroll bankroll)
  else
    edge ← unpanic (dec_checked_sub p c);
    room ← unpanic (dec_checked_sub dec_ONE c);
    f_full ← unpanic (dec_checked_div edge room);
    f_live ← (if dec_leb f_full dec_ZERO then mret dec_ZERO else unpanic (dec_checked_mul f_full kf));
    if dec_leb f_live dec_ZERO then mret {| contract_qty := 0 |}
    else
      stake ← unpanic (dec_checked_mul bankroll f_live);
      raw ← unpanic (dec_checked_div stake c);
      let floored := dec_floor raw in
      if dec_ltb floored dec_ZERO || dec_ltb (dec_from U64_MAX) floored
      then throw (ContractOverflow floored)
      else
        contracts ← throws (ok_or (dec_to_u64 floored) (ContractOverflow floored));
        mret {| contract_qty := contracts |}.

(** ** [config.rs], [error.rs] *)
Inductive SizingMode : Type :=
| SizeKelly
| SizeDollar (usd : Decimal)
| SizeContract (contracts : Z)
| SizeCashFraction (fraction : Decimal).

Record WinnerFollowConfig := {
  flip_human_approved : bool;
  kelly_fraction_above_default_human_approved : bool;
  kelly_fraction_override : option KellyFraction;
  per_trade_cap : PerTradeCap;
  slippage_rate : Decimal;
  sizing_mode : SizingMode
}.
Definition default_slippage_rate : Decimal := dec_new 1 2.
Definition WinnerFollowConfig_default : WinnerFollowConfig := {|
  flip_human_approved := false; kelly_fraction_above_default_human_approved := false;
  kelly_fraction_override := None; per_trade_cap := ModeDefault;
  slippage_rate := default_slippage_rate; sizing_mode := SizeKelly
|}.

Definition cash_fraction_budget (fraction cash start : Decimal) : option Decimal :=
  ratio ← dec_checked_div (dec_from KILL_ONLY_DRAWDOWN_BPS) (dec_from 10000);
  floor_fraction ← dec_checked_add dec_ONE ratio;
  kept ← dec_checked_mul floor_fraction start;
  left_over ← dec_checked_sub cash kept;
  let room := dec_max left_over dec_ZERO in
  share ← dec_checked_mul fraction cash;
  Some (dec_round_down 6 (dec_min share room)).

Inductive WinnerFollowError : Type :=
| ShadowMode
| FlipNotApproved
| NoEdge
| RiskBlocked (reason : RiskBlock)
| RiskInputsUnavailable
| KellySizing (e : KellyError).

Inductive KellyErrorAudit : Type :=
| AuditInvalidProbability (value : Decimal)
| AuditInvalidNetPrice (value : Decimal)
| AuditInvalidBankroll (value : Decimal)
| AuditContractOverflow (value : Decimal).
Inductive WinnerFollowDeclineAudit : Type :=
| DeclineShadowMode
| DeclineFlipNotApproved
| DeclineNoEdge
| DeclineBlocked (reason : RiskBlock)
| DeclineRiskInputsUnavailable
| DeclineKellySizing (e : KellyErrorAudit).
Definition decline_audit (e : WinnerFollowError) : WinnerFollowDeclineAudit :=
  match e with
  | ShadowMode => DeclineShadowMode
  | FlipNotApproved => DeclineFlipNotApproved
  | NoEdge => DeclineNoEdge
  | RiskBlocked reason => DeclineBlocked reason
  | RiskInputsUnavailable => DeclineRiskInputsUnavailable
  | KellySizing error => DeclineKellySizing
      match error with
      | InvalidProbability value => AuditInvalidProbability value
      | InvalidNetPrice value => AuditInvalidNetPrice value
      | InvalidBankroll value => AuditInvalidBankroll value
      | ContractOverflow value => AuditContractOverflow value
      end
  end.

(** [?] on a sizing result. *)
Definition sized {A} (m : panicking KellyError A) : panicking WinnerFollowError A :=
  map_err KellySizing <$> m.

(** ** [venue-core]: order intents *)
Record OrderIntent := {
  strategy_id : string;
  intent_market_id : MarketId;
  intent_outcome_id : OutcomeId;
  intent_side : Side;
  contracts : ContractQty;
  limit_price : Price;
  validity_seconds : Z;
  idempotency_key : string
}.

(** ** [evaluate.rs] *)
Definition build_idempotency_key (signal : LeaderSignal) : string :=
  build_idempotency_key_parts (wallet_to_string (trader_wallet (leader signal)))
    (source_trade_id (signal_source_trade_id signal))
    (venue_market_id (market_id (signal_market_id signal)))
    (outcome_index (signal_outcome_id signal)) (leader_side signal)
    (unix_timestamp (signal_observed_at signal)).

Definition build_order_intent (signal : LeaderSignal) (n : Z) (limit : Price) : OrderIntent := {|
  strategy_id := STRATEGY_ID; intent_market_id := signal_market_id signal;
  intent_outcome_id := signal_outcome_id signal; intent_side := leader_side signal;
  contracts := {| contract_qty := n |}; limit_price := limit;
  validity_seconds := ORDER_VALIDITY_SECONDS; idempotency_key := build_idempotency_key signal
|}.

Definition kelly_fraction (effective_mode : ExecutionMode) (override_ : option KellyFraction) : KellyFraction :=
  match override_ with
  | Some kf => kf
  | None =>
      match effective_mode with
      | Paper => KELLY_PAPER_BACKTEST
      | LiveTiny | Promoted => KELLY_NORMAL
      | Shadow => KELLY_PAPER_BACKTEST
      end
  end.

Definition clamp_contracts_to_policy_cap (n : Z) (price : Price) (bankroll : Decimal) (cap_bps : Z)
    (absolute_cap : option CollateralAmount) : option Z :=
  proportional ← clamp_contracts_to_cap n (price_value price) bankroll cap_bps;
  match absolute_cap with
  | None => Some proportional
  | Some cap =>
      quotient ← dec_checked_div (to_decimal cap) (price_value price);
      Some (Z.min proportional (default 0 (dec_to_u64 (dec_floor quotient))))
  end.

Record OrganicCanaryOrder := {
  organic_intent : OrderIntent;
  organic_kelly_cost : Price;
  organic_maximum_collateral : CollateralAmount;
  organic_shares : ShareAmount
}.

Record OrganicDecisionProof := {
  proof_signal : LeaderSignal;
  proof_probability : Probability;
  proof_idempotency_key : string;
  proof_evidence_hashes : list string
}.
Definition organic_decision_proof_hash `{B3 : Blake3} {V : ToVec OrganicDecisionProof}
    (proof : OrganicDecisionProof) : result string string :=
  json_hash proof.

(** The policy's [evaluate]. *)
Definition organic_evaluate (signal : LeaderSignal) (p : Probability) (canary_bankroll : CollateralAmount)
    (minimum_tick_size : Price) : panicking WinnerFollowError OrganicCanaryOrder :=
  let no_edge {A} (o : option A) : panicking WinnerFollowError A := throws (ok_or o NoEdge) in
  if bool_decide (leader_side signal ≠ Buy) || bool_decide (signal_action signal ≠ Entry) then throw NoEdge
  else if dec_leb (price_value minimum_tick_size) dec_ZERO then throw NoEdge
  else
    chase_rate ← unpanic (dec_checked_div (dec_from ORGANIC_CHASE_BPS) (dec_from 10000));
    chase ← unpanic (dec_checked_add dec_ONE chase_rate);
    unquantized ← unpanic (dec_checked_mul (price_value (leader_price signal)) chase);
    ticks ← unpanic (dec_checked_div unquantized (price_value minimum_tick_size));
    quantized ← unpanic (dec_checked_mul (dec_floor ticks) (price_value minimum_tick_size));
    kelly_cost ← no_edge (result_ok (Price_new quantized));
    n ← sized (size_contracts {| kelly_p := p; kelly_c := kelly_cost; kelly_fraction_of := KELLY_NORMAL;
                                 kelly_bankroll := to_decimal canary_bankroll |});
    n ← unpanic (clamp_contracts_to_policy_cap (contract_qty n) kelly_cost (to_decimal canary_bankroll)
                   (bps CANARY_PER_TRADE_CAP_BPS) (Some CANARY_MAX_ORDER_DEBIT));
    if n =? 0 then throw NoEdge
    else
      cost ← unpanic (dec_checked_mul (dec_from n) (price_value kelly_cost));
      maximum_collateral ← no_edge (result_ok (from_decimal_exact "CollateralAmount" cost));
      shares ← no_edge (checked_mul_u64 n 1000000);
      mret {| organic_intent := build_order_intent signal n kelly_cost; organic_kelly_cost := kelly_cost;
              organic_maximum_collateral := maximum_collateral; organic_shares := from_atomic shares |}.

(** [WinnerFollowStrategy] is its configuration. *)
Definition effective_kelly_fraction (config : WinnerFollowConfig) (mode : ExecutionMode) : KellyFraction :=
  kelly_fraction mode (kelly_fraction_override config).

Definition uncapped_contracts (config : WinnerFollowConfig) (all_in_kelly_price : Price) (p : Probability)
    (bankroll : Decimal) (mode : ExecutionMode) : panicking WinnerFollowError Z :=
  let price := price_value all_in_kelly_price in
  match sizing_mode config with
  | SizeDollar usd =>
      quotient ← unpanic (dec_checked_div usd price);
      throws (ok_or (dec_to_u64 (dec_floor quotient)) NoEdge)
  | SizeCashFraction fraction =>
      throws (ok_or (usd ← dec_checked_mul fraction bankroll;
                     quantity ← dec_checked_div usd price;
                     dec_to_u64 (dec_floor quantity)) NoEdge)
  | SizeContract n => mret n
  | SizeKelly =>
      n ← sized (size_contracts {| kelly_p := p; kelly_c := all_in_kelly_price;
                                   kelly_fraction_of := effective_kelly_fraction config mode;
                                   kelly_bankroll := bankroll |});
      if contract_qty n =? 0 then throw NoEdge else mret (contract_qty n)
  end.

Definition evaluate_at_price_with_limit (config : WinnerFollowConfig) (signal : LeaderSignal)
    (all_in_kelly_price limit : Price) (p : Probability) (snapshot : RiskSnapshot) (bankroll : Decimal)
    (mode : ExecutionMode) : panicking WinnerFollowError OrderIntent :=
  if bool_decide (signal_action signal = Flip) && negb (flip_human_approved config)
  then throw FlipNotApproved
  else if decide (mode = Shadow) then throw ShadowMode
  else if dec_is_zero (price_value all_in_kelly_price) then throw NoEdge
  else
    n ← uncapped_contracts config all_in_kelly_price p bankroll mode;
    if n =? 0 then throw NoEdge
    else
      match evaluate_risk snapshot with
      | Approved => mret (build_order_intent signal n limit)
      | Blocked reason => throw (RiskBlocked reason)
      end.

Definition evaluate_at_price (config : WinnerFollowConfig) (signal : LeaderSignal) (all_in_kelly_price : Price)
    (p : Probability) (snapshot : RiskSnapshot) (bankroll : Decimal) (mode : ExecutionMode) :=
  evaluate_at_price_with_limit config signal all_in_kelly_price (leader_price signal) p snapshot bankroll mode.
Definition evaluate (config : WinnerFollowConfig) (signal : LeaderSignal) (p : Probability)
    (snapshot : RiskSnapshot) (bankroll : Decimal) (mode : ExecutionMode) :=
  evaluate_at_price config signal (leader_price signal) p snapshot bankroll mode.

End Strategy.

(** ** Facts about sizing *)

Lemma unpanic_bind_Ok {E A B} (o : option A) (k : A → panicking E B) b :
  unpanic o ≫= k = Some (Ok b) → ∃ a, o = Some a ∧ k a = Some (Ok b).
Proof. intros (a & Ha & Hk)%panicking_bind_Ok. exists a. split; [exact (proj1 (unpanic_Ok o a) Ha)|done]. Qed.

Lemma result_ok_Some {E A} (r : result E A) a : result_ok r = Some a → r = Ok a.
Proof. destruct r; simpl; naive_solver. Qed.

#[export] Instance representable_proper : Proper (Qeq ==> iff) representable.
Proof. intros x y Hxy. unfold representable. by setoid_rewrite Hxy. Qed.

(** Fixed-point numbers of at most nine decimals. *)
Lemma representable_nano k : Z.abs k < 2 ^ 96 → representable (inject_Z k / inject_Z (10 ^ 9)).
Proof. intros Hk. by exists k, 9. Qed.

(** The largest mantissa of a number in [0, 1] at scale 28. *)
Lemma representable_unit_scale q : representable q → (0 <= q <= 1)%Q →
  ∃ m, 0 ≤ m ≤ 10 ^ 28 ∧ (q == inject_Z m / inject_Z (10 ^ 28))%Q.
Proof.
  intros (m & s & Hm & Hs & Hq) [H0 H1]. exists (m * 10 ^ (28 - s)).
  assert (10 ^ 28 = 10 ^ s * 10 ^ (28 - s)) as Hsplit by (rewrite <- Z.pow_add_r by lia; f_equal; lia).
  assert (0 < 10 ^ s ∧ 0 < 10 ^ (28 - s)) as [P1 P2] by (split; apply Z.pow_pos_nonneg; lia).
  assert (0 < inject_Z (10 ^ s))%Q as Q1 by (by rewrite <- (Zlt_Qlt 0)).
  assert (0 < inject_Z (10 ^ (28 - s)))%Q as Q2 by (by rewrite <- (Zlt_Qlt 0)).
  assert (0 ≤ m ≤ 10 ^ s) as Hms.
  { rewrite Hq in H0, H1. split.
    - rewrite (Zle_Qle 0). apply (Qmult_le_compat_r _ _ (inject_Z (10 ^ s))) in H0; [|lra].
      rewrite Qmult_0_l in H0. assert (inject_Z m / inject_Z (10 ^ s) * inject_Z (10 ^ s) == inject_Z m)%Q
        as E by (field; lra). by rewrite E in H0.
    - rewrite Zle_Qle. apply (Qmult_le_compat_r _ _ (inject_Z (10 ^ s))) in H1; [|lra].
      rewrite Qmult_1_l in H1. assert (inject_Z m / inject_Z (10 ^ s) * inject_Z (10 ^ s) == inject_Z m)%Q
        as E by (field; lra). by rewrite E in H1. }
  rewrite Hsplit. split; [nia|]. rewrite Hq, !inject_Z_mult. field. lra.
Qed.

Lemma representable_unit_sub p c : representable p → representable c →
  (0 <= p <= 1)%Q → (0 <= c <= 1)%Q → representable (p - c).
Proof.
  intros Hp Hc Hp1 Hc1. destruct (representable_unit_scale p Hp Hp1) as (m & Hm & Em).
  destruct (representable_unit_scale c Hc Hc1) as (k & Hk & Ek).
  exists (m - k), 28. split_and!; [lia|lia|lia|]. rewrite Em, Ek.
  unfold Z.sub. rewrite inject_Z_plus, inject_Z_opp. field. discriminate.
Qed.

Section SizingFacts.
Context `{DL : DecimalLaws}.

(** Flooring a rounded quotient buys at most what the dividend pays for, up to a
    billionth of the price. *)
Lemma floor_quotient_cost x c q n : is_u64 n → (0 < dec_value c)%Q →
  dec_checked_div x c = Some q → n ≤ Qfloor (dec_value q) →
  (inject_Z n * dec_value c < dec_value x + dec_value c / inject_Z (10 ^ 9))%Q.
Proof.
  intros Hn Hc [_ Hq]%dec_checked_div_rounds Hfl.
  destruct (Qlt_le_dec (inject_Z n * dec_value c) (dec_value x + dec_value c / inject_Z (10 ^ 9))) as [|Hge];
    [done|]. exfalso.
  set (r := (inject_Z (n * 10 ^ 9 - 1) / inject_Z (10 ^ 9))%Q).
  assert (r == inject_Z n - 1 / inject_Z (10 ^ 9))%Q as Hr.
  { unfold r. unfold Z.sub. rewrite inject_Z_plus, inject_Z_mult. change (inject_Z (-(1))) with (-(1))%Q.
    field. discriminate. }
  assert (dec_value q <= r)%Q as Hqr.
  { eapply rounds_to_le; [done| |].
    - apply representable_nano. unfold is_u64, U64_MAX in Hn. lia.
    - rewrite Hr. apply Qle_shift_div_r; [done|].
      assert ((inject_Z n - 1 / inject_Z (10 ^ 9)) * dec_value c
              == inject_Z n * dec_value c - dec_value c / inject_Z (10 ^ 9))%Q as -> by (field; discriminate).
      lra. }
  apply Qfloor_resp_le in Hqr. assert (Qfloor r < n); [|lia].
  rewrite Zlt_Qlt. eapply Qle_lt_trans; [apply Qfloor_le|]. rewrite Hr.
  assert (0 < 1 / inject_Z (10 ^ 9))%Q by reflexivity. lra.
Qed.

Lemma dec_to_u64_floor a n : dec_to_u64 (dec_floor a) = Some n → n = Qfloor (dec_value a) ∧ is_u64 n.
Proof.
  rewrite (dec_to_u64_value _ _ (dec_floor_value a)). intros [-> ?]%fits_Some. done.
Qed.

(** An exact conversion of a decimal of at most [k] billionths. *)
Lemma from_decimal_exact_le field d a k : from_decimal_exact field d = Ok a →
  (dec_value d <= inject_Z k / inject_Z (10 ^ 9))%Q → 0 ≤ k < 2 ^ 90 → 1000 * atomic a ≤ k.
Proof.
  unfold from_decimal_exact. intros H Hd Hk. destruct (dec_is_sign_negative d); [done|].
  apply result_bind_Ok in H as (v & Hv%ok_or_Ok & H). case_bool_decide as Hf; [done|].
  apply ok_or_Ok, fmap_Some in H as (z & Hz & ->). apply dec_checked_mul_rounds in Hv.
  assert (dec_value v <= inject_Z k / inject_Z 1000)%Q as Hle.
  { eapply rounds_to_le; [done| |].
    - exists k, 3. split_and!; [lia|lia|lia|done].
    - rewrite dec_from_value. apply (Qmult_le_compat_r _ _ (inject_Z ATOMIC_SCALE)) in Hd; [|done].
      eapply Qle_trans; [exact Hd|]. apply Qle_lteq. right.
      change (inject_Z (10 ^ 9)) with (inject_Z 1000 * inject_Z ATOMIC_SCALE)%Q. field; discriminate. }
  assert (∃ w, dec_value v == inject_Z w)%Q as [w Hw].
  { apply dec_fract_value. destruct (dec_cmp (dec_fract v) dec_ZERO) eqn:E; [|done..].
    rewrite dec_cmp_value, dec_ZERO_value in E. by apply Qeq_alt. }
  rewrite (dec_to_u64_value _ _ Hw) in Hz. apply fits_Some in Hz as [-> _]. simpl.
  rewrite Zle_Qle, inject_Z_mult. rewrite Hw in Hle. unfold Qle in *. simpl in *. lia.
Qed.

Context `{TO : TimeOps}.

Lemma Price_new_Ok d c : Price_new d = Ok c → price_value c = d ∧ (0 <= dec_value d <= 1)%Q.
Proof.
  unfold Price_new. destruct (dec_ltb d dec_ZERO) eqn:E1; [done|]. destruct (dec_ltb dec_ONE d) eqn:E2; [done|].
  apply dec_ltb_ge in E1, E2. rewrite dec_ZERO_value in E1. rewrite dec_ONE_value in E2. by intros [= <-].
Qed.

(** The guards of [size_contracts] and the bound its floor gives. *)
Lemma size_contracts_Ok input n : size_contracts input = Some (Ok n) →
  let p := dec_value (prob_value (kelly_p input)) in
  let c := dec_value (price_value (kelly_c input)) in
  (0 <= p <= 1 ∧ 0 < c < 1 ∧ 0 < dec_value (kelly_bankroll input))%Q ∧ is_u64 (contract_qty n).
Proof.
  intros H p c. unfold size_contracts in H. subst p c.
  destruct (_ || _) eqn:E1 in H; [done|]. destruct (_ || _) eqn:E2 in H; [done|].
  destruct (dec_leb (kelly_bankroll input) dec_ZERO) eqn:E3 in H; [done|].
  apply orb_false_iff in E1 as [E1a E1b], E2 as [E2a E2b].
  apply dec_ltb_ge in E1a, E1b. apply dec_leb_gt in E2a, E2b, E3.
  rewrite dec_ZERO_value in *. rewrite dec_ONE_value in *. split; [done|].
  repeat match type of H with
  | unpanic _ ≫= _ = _ => apply unpanic_bind_Ok in H as (? & ? & H)
  end.
  apply panicking_bind_Ok in H as (f & _ & H).
  destruct (dec_leb f dec_ZERO); [injection H as <-; by vm_compute|].
  repeat match type of H with
  | unpanic _ ≫= _ = _ => apply unpanic_bind_Ok in H as (? & ? & H)
  end.
  destruct (_ || _) in H; [done|]. apply panicking_bind_Ok in H as (z & Hz & H). injection H as <-.
  injection Hz as Hz. apply ok_or_Ok in Hz. by apply dec_to_u64_floor in Hz as [_ ?].
Qed.

(** The chain of operations behind a positive size. *)
Lemma size_contracts_chain input n : size_contracts input = Some (Ok n) → 0 < contract_qty n →
  ∃ edge room f_full f_live stake raw,
    dec_checked_sub (prob_value (kelly_p input)) (price_value (kelly_c input)) = Some edge
    ∧ dec_checked_sub dec_ONE (price_value (kelly_c input)) = Some room
    ∧ dec_checked_div edge room = Some f_full
    ∧ dec_checked_mul f_full (kelly_value (kelly_fraction_of input)) = Some f_live
    ∧ dec_checked_mul (kelly_bankroll input) f_live = Some stake
    ∧ dec_checked_div stake (price_value (kelly_c input)) = Some raw
    ∧ (0 < dec_value f_full ∧ 0 < dec_value f_live)%Q
    ∧ contract_qty n = Qfloor (dec_value raw).
Proof.
  intros H Hn. unfold size_contracts in H.
  do 2 (destruct (_ || _) in H; [done|]). destruct (dec_leb (kelly_bankroll input) dec_ZERO) in H; [done|].
  apply unpanic_bind_Ok in H as (edge & He & H). apply unpanic_bind_Ok in H as (room & Hr & H).
  apply unpanic_bind_Ok in H as (full & Hf & H). apply panicking_bind_Ok in H as (live & Hl & H).
  destruct (dec_leb live dec_ZERO) eqn:E1; [injection H as <-; simpl in Hn; lia|].
  apply dec_leb_gt in E1. rewrite dec_ZERO_value in E1.
  destruct (dec_leb full dec_ZERO) eqn:E2.
  { injection Hl as <-. rewrite dec_ZERO_value in E1. by apply Qlt_irrefl in E1. }
  apply dec_leb_gt in E2. rewrite dec_ZERO_value in E2. apply (proj1 (unpanic_Ok _ _)) in Hl.
  apply unpanic_bind_Ok in H as (stake & Hs & H). apply unpanic_bind_Ok in H as (raw & Hw & H).
  destruct (_ || _) in H; [done|]. apply panicking_bind_Ok in H as (z & Hz & H). injection H as <-.
  injection Hz as Hz. apply ok_or_Ok in Hz. apply dec_to_u64_floor in Hz as [-> _].
  exists edge, room, full, live, stake, raw. done.
Qed.

(** Fractional Kelly sizes only a positive edge and never stakes more than the
    bankroll: when the sizer returns a positive number of contracts, the win
    probability exceeds the price, and the contracts at that price cost at most
    the bankroll, up to a billionth of one contract's price. *)
Theorem kelly_stake_bounded input n :
  representable (dec_value (prob_value (kelly_p input))) →
  representable (dec_value (price_value (kelly_c input))) →
  representable (dec_value (kelly_bankroll input)) →
  (0 <= dec_value (kelly_value (kelly_fraction_of input)) <= 1)%Q →
  size_contracts input = Some (Ok n) → 0 < contract_qty n →
  (dec_value (price_value (kelly_c input)) < dec_value (prob_value (kelly_p input)))%Q
  ∧ (inject_Z (contract_qty n) * dec_value (price_value (kelly_c input))
     < dec_value (kelly_bankroll input) + dec_value (price_value (kelly_c input)) / inject_Z (10 ^ 9))%Q.
Proof.
  intros Rp Rc Rb [K0 K1] Hs Hn. destruct (size_contracts_Ok input n Hs) as [([P0 P1] & [C0 C1] & B0) Hu].
  destruct (size_contracts_chain input n Hs Hn)
    as (edge & room & full & live & stake & raw & He & Hr & Hf & Hl & Hk & Hw & [F0 L0] & Hq).
  set (p := dec_value (prob_value _)) in *. set (c := dec_value (price_value _)) in *.
  set (b := dec_value (kelly_bankroll _)) in *.
  apply dec_checked_sub_rounds, rounds_to_eq in He;
    [|fold p c; apply representable_unit_sub; [done|done|split; lra|split; lra]].
  assert (representable 1) as R1 by (by apply (representable_Z 1)).
  apply dec_checked_sub_rounds, rounds_to_eq in Hr;
    [|rewrite dec_ONE_value; fold c; apply representable_unit_sub; [done|done|split; lra|split; lra]].
  fold p c in He. rewrite dec_ONE_value in Hr. fold c in Hr. apply dec_checked_div_rounds in Hf as [_ Hf].
  assert (c < p)%Q as Hcp.
  { destruct (Qlt_le_dec c p) as [|Hle]; [done|]. exfalso. apply (Qlt_irrefl 0). eapply Qlt_le_trans; [exact F0|].
    eapply rounds_to_le; [exact Hf|by apply (representable_Z 0)|].
    apply Qle_shift_div_r; [rewrite Hr; lra|]. rewrite He. lra. }
  assert (dec_value full <= 1)%Q as F1.
  { eapply rounds_to_le; [exact Hf|done|]. apply Qle_shift_div_r; [rewrite Hr; lra|]. rewrite He, Hr. lra. }
  assert (dec_value live <= 1)%Q as L1.
  { eapply rounds_to_le; [by apply dec_checked_mul_rounds|done|]. nra. }
  assert (dec_value stake <= b)%Q as Sb.
  { eapply rounds_to_le; [by apply dec_checked_mul_rounds|done|]. fold b. nra. }
  split; [done|]. pose proof (floor_quotient_cost stake _ raw _ Hu C0 Hw (Z.eq_le_incl _ _ Hq)) as Hb.
  fold c in Hb. lra.
Qed.

(** A clamp by a floored quotient, with the default taken when it does not fit. *)
Lemma floored_quotient_min x c q n m : is_u64 n → (0 < dec_value c)%Q → (0 <= dec_value x)%Q →
  dec_checked_div x c = Some q → 0 ≤ m ≤ n → m ≤ default U64_MAX (dec_to_u64 (dec_floor q)) →
  m ≤ Qfloor (dec_value q).
Proof.
  intros Hn Hc Hx Hq Hm Hle. rewrite (dec_to_u64_value _ _ (dec_floor_value q)) in Hle.
  destruct (fits _ _ _) as [z|] eqn:E; simpl in Hle; [by apply fits_Some in E as [-> _]|].
  apply fits_None in E. destruct Hn as [N0 N1].
  assert (0 <= dec_value q)%Q as Hq0.
  { apply dec_checked_div_rounds in Hq as [_ Hq]. eapply rounds_to_ge; [exact Hq|by apply (representable_Z 0)|].
    by apply Qle_shift_div_l; [|rewrite Qmult_0_l]. }
  apply Qfloor_resp_le in Hq0. change (Qfloor 0) with 0 in Hq0. lia.
Qed.

(** Fifty basis points of a bankroll are exact. *)
Lemma canary_cap_exact bankroll product cap : amount_wf bankroll →
  dec_checked_mul (to_decimal bankroll) (dec_from (bps CANARY_PER_TRADE_CAP_BPS)) = Some product →
  dec_checked_div product (dec_from 10000) = Some cap →
  (dec_value cap == inject_Z (5 * atomic bankroll) / inject_Z (10 ^ 9))%Q.
Proof.
  intros Hb Hprod Hcap. destruct (to_decimal_spec bankroll Hb) as [Hbv _]. destruct Hb as [B0 B1].
  unfold U64_MAX in B1. change (bps CANARY_PER_TRADE_CAP_BPS) with 50 in Hprod.
  apply dec_checked_mul_rounds, rounds_to_eq in Hprod; rewrite Hbv, dec_from_value in *.
  2:{ exists (50 * atomic bankroll), 6. split_and!; [lia|lia|lia|].
      rewrite inject_Z_mult. change (10 ^ 6) with ATOMIC_SCALE. field. discriminate. }
  assert (dec_value product / dec_value (dec_from 10000)
          == inject_Z (5 * atomic bankroll) / inject_Z (10 ^ 9))%Q as Hd.
  { rewrite Hprod, dec_from_value, inject_Z_mult.
    change (inject_Z (10 ^ 9)) with (inject_Z 5 * inject_Z 200 * inject_Z ATOMIC_SCALE)%Q.
    change (inject_Z 10000) with (inject_Z 50 * inject_Z 200)%Q. field. repeat split; discriminate. }
  apply dec_checked_div_rounds in Hcap as [_ Hcap%rounds_to_eq]; rewrite Hd in *; [done|].
  by apply representable_nano; lia.
Qed.

(** The two caps of the policy, on the cost of the clamped contracts. *)
Lemma clamp_policy_cost n price bankroll m : amount_wf bankroll → is_u64 n →
  (0 < dec_value (price_value price) <= 1)%Q →
  clamp_contracts_to_policy_cap n price (to_decimal bankroll) (bps CANARY_PER_TRADE_CAP_BPS)
    (Some CANARY_MAX_ORDER_DEBIT) = Some m → m ≠ 0 →
  is_u64 m
  ∧ (inject_Z m * dec_value (price_value price) <= inject_Z (10 ^ 9 + 1) / inject_Z (10 ^ 9))%Q
  ∧ (inject_Z m * dec_value (price_value price)
     <= inject_Z (5 * atomic bankroll + 1) / inject_Z (10 ^ 9))%Q.
Proof.
  intros Hb Hn [P0 P1] H Hm. unfold clamp_contracts_to_policy_cap in H.
  apply bind_Some in H as (prop & Hp & H). apply bind_Some in H as (q & Hq & [= <-]).
  set (d := default 0 (dec_to_u64 (dec_floor q))) in *.
  assert (0 ≤ d ∧ d ≤ Z.max 0 (Qfloor (dec_value q))) as [D0 D1].
  { unfold d. destruct (dec_to_u64 _) as [z|] eqn:E; simpl; [|lia].
    apply dec_to_u64_floor in E as [-> [? ?]]. lia. }
  unfold clamp_contracts_to_cap in Hp. destruct (_ || _) in Hp; [injection Hp as <-; lia|].
  apply bind_Some in Hp as (product & Hprod & Hp). apply bind_Some in Hp as (cap & Hcap & Hp).
  apply bind_Some in Hp as (q' & Hq' & [= <-]).
  pose proof (canary_cap_exact _ _ _ Hb Hprod Hcap) as Hv.
  destruct (to_decimal_spec CANARY_MAX_ORDER_DEBIT) as [H1v _]; [by vm_compute|].
  set (u := default U64_MAX (dec_to_u64 (dec_floor q'))) in *. set (m := Z.min _ d) in *.
  assert (0 ≤ u) as U0.
  { unfold u. destruct (dec_to_u64 (dec_floor q')) as [z|] eqn:E; simpl; [|done].
    by apply dec_to_u64_floor in E as [_ [? ?]]. }
  pose proof Hn as [N0 N1]. assert (0 ≤ m ≤ n) as Hmn by lia.
  assert (is_u64 m) as Hum by (unfold is_u64; lia).
  assert (dec_value (price_value price) / inject_Z (10 ^ 9) <= 1 / inject_Z (10 ^ 9))%Q as Hpp.
  { apply Qmult_le_compat_r; [done|discriminate]. }
  assert (∀ k x, (x == inject_Z k / inject_Z (10 ^ 9))%Q →
            (inject_Z m * dec_value (price_value price)
             < x + dec_value (price_value price) / inject_Z (10 ^ 9))%Q →
            (inject_Z m * dec_value (price_value price) <= inject_Z (k + 1) / inject_Z (10 ^ 9))%Q) as Hclose.
  { intros k x -> Hlt. assert (inject_Z (k + 1) / inject_Z (10 ^ 9)
      == inject_Z k / inject_Z (10 ^ 9) + 1 / inject_Z (10 ^ 9))%Q as ->; [|lra].
    rewrite inject_Z_plus. field. discriminate. }
  split_and!; [done|..].
  - apply (Hclose (10 ^ 9) (dec_value (to_decimal CANARY_MAX_ORDER_DEBIT))); [by rewrite H1v|].
    eapply floor_quotient_cost; [done|done|exact Hq|lia].
  - apply (Hclose _ _ Hv). eapply floor_quotient_cost; [done|done|exact Hq'|].
    eapply (floored_quotient_min cap _ q' n); [done|done| |done|done|fold u; lia].
    rewrite Hv. destruct Hb as [B0 _]. apply Qle_shift_div_l; [done|]. rewrite Qmult_0_l.
    rewrite <- (Zle_Qle 0). lia.
Qed.

(** An organic canary order is only ever a copied entry buy, and its maximum
    collateral is within both caps to the last atomic unit: at most one dollar,
    and at most fifty basis points of the campaign's bankroll, however the decimal
    arithmetic rounds.  Its shares are the sized contracts and its limit price is
    the price the size was computed at. *)
Theorem organic_order_bounded signal p bankroll tick order : amount_wf bankroll →
  organic_evaluate signal p bankroll tick = Some (Ok order) →
  leader_side signal = Buy ∧ signal_action signal = Entry
  ∧ atomic (organic_maximum_collateral order) ≤ 1000000
  ∧ 200 * atomic (organic_maximum_collateral order) ≤ atomic bankroll
  ∧ 0 < contract_qty (contracts (organic_intent order))
  ∧ atomic (organic_shares order) = contract_qty (contracts (organic_intent order)) * 1000000
  ∧ limit_price (organic_intent order) = organic_kelly_cost order
  ∧ (dec_value (price_value (organic_kelly_cost order)) < 1)%Q.
Proof.
  intros Hb H. unfold organic_evaluate in H. destruct (_ || _) eqn:E1 in H; [done|].
  apply orb_false_iff in E1 as [E1%bool_decide_eq_false E2%bool_decide_eq_false].
  destruct (dec_leb (price_value tick) dec_ZERO); [done|].
  do 5 apply unpanic_bind_Ok in H as (? & _ & H).
  apply panicking_bind_Ok in H as (cost & Hc & H). injection Hc as Hc. apply ok_or_Ok, result_ok_Some in Hc.
  apply Price_new_Ok in Hc as [<- [_ _]].
  apply panicking_bind_Ok in H as (n & Hn & H). unfold sized in Hn. apply fmap_Some in Hn as (r & Hn & Hr).
  symmetry in Hr. apply map_err_Ok in Hr as ->.
  destruct (size_contracts_Ok _ _ Hn) as [(_ & [C0 C1] & _) Hu]. simpl in C0, C1.
  apply unpanic_bind_Ok in H as (m & Hm & H). destruct (Z.eqb_spec m 0) as [|Hm0]; [done|].
  destruct (clamp_policy_cost _ _ _ _ Hb Hu (conj C0 (Qlt_le_weak _ _ C1)) Hm Hm0) as (Hum & Hd & Hp).
  apply unpanic_bind_Ok in H as (total & Ht & H). apply dec_checked_mul_rounds in Ht.
  apply panicking_bind_Ok in H as (coll & Hcoll & H). injection Hcoll as Hcoll.
  apply ok_or_Ok, result_ok_Some in Hcoll. apply panicking_bind_Ok in H as (sh & Hsh & H).
  injection Hsh as Hsh. apply ok_or_Ok, fits_Some in Hsh as [-> _]. injection H as <-. simpl.
  destruct Hum as [M0 M1], Hb as [B0 B1]. unfold U64_MAX in *.
  assert (∀ k, 0 ≤ k < 2 ^ 90 → (inject_Z m * dec_value (price_value cost) <= inject_Z k / inject_Z (10 ^ 9))%Q →
            1000 * atomic coll ≤ k) as Hcap.
  { intros k Hk Hle. eapply from_decimal_exact_le; [exact Hcoll| |done].
    eapply rounds_to_le; [exact Ht|apply representable_nano; lia|by rewrite dec_from_value]. }
  apply Hcap in Hd; [|lia]. apply Hcap in Hp; [|lia].
  split_and!; [by apply dec_stable|by apply dec_stable|lia|lia|lia|done|done|done].
Qed.

End SizingFacts.

(** ** Idempotency keys *)

Definition no_bar (s : string) : Prop := Forall (λ b, b ≠ 124) (string_bytes s).

Lemma string_bytes_app s t : string_bytes (s +:+ t) = string_bytes s ++ string_bytes t.
Proof.
  induction s as [|c s IH]; [done|]. change (String c s +:+ t) with (String c (s +:+ t)). simpl. by rewrite IH.
Qed.

(** A bar delimits a field that has none. *)
Lemma bar_split_bytes x y s t : Forall (λ b, b ≠ 124) x → Forall (λ b, b ≠ 124) y →
  x ++ 124 :: s = y ++ 124 :: t → x = y ∧ s = t.
Proof.
  intros Hx. revert y. induction Hx as [|b x Hb Hx IH]; intros [|c y] Hy H; simpl in H; simplify_eq.
  - done.
  - by inversion Hy.
  - inversion Hy. by destruct (IH y) as [-> ->].
Qed.
Lemma bar_split x y s t : no_bar x → no_bar y → x +:+ "|" +:+ s = y +:+ "|" +:+ t → x = y ∧ s = t.
Proof.
  intros Hx Hy H%(f_equal string_bytes). rewrite !string_bytes_app in H.
  apply bar_split_bytes in H as [->%string_bytes_inj ->%string_bytes_inj]; done.
Qed.

Lemma hex_digit_no_bar n : 0 ≤ n < 16 → ascii_byte (hex_digit n) ≠ 124.
Proof. intros H%hex_nibble_digit E. by rewrite E in H. Qed.
Lemma wallet_no_bar w : wallet_wf w → no_bar (wallet_to_string w).
Proof.
  intros [_ Hw]. unfold no_bar, wallet_to_string. rewrite string_bytes_app. apply Forall_app.
  split; [by repeat constructor|]. induction Hw as [|b bs Hb Hbs IH]; simpl; [constructor|].
  destruct (nibbles_byte b Hb) as (H1 & H2 & _). repeat constructor; auto using hex_digit_no_bar.
Qed.
Lemma pretty_N_go_no_bar x s : no_bar s → no_bar (pretty_N_go x s).
Proof.
  revert s. induction (N.lt_wf_0 x) as [x _ IH]; intros s Hs.
  destruct (decide (x = 0)%N) as [->|Hx]; [done|]. assert (0 < x)%N by lia.
  rewrite pretty_N_go_step by done. apply IH; [by apply N.div_lt|]. constructor; [|done].
  unfold pretty_N_char. by repeat case_match.
Qed.
Lemma pretty_N_no_bar (x : N) : no_bar (pretty x).
Proof.
  unfold pretty, pretty_N. case_decide; [by repeat constructor|]. apply pretty_N_go_no_bar. constructor.
Qed.
Lemma pretty_Z_no_bar (z : Z) : no_bar (pretty z).
Proof.
  destruct z as [|x|x]; [by repeat constructor|apply (pretty_N_no_bar (N.pos x))|].
  constructor; [done|apply (pretty_N_no_bar (N.pos x))].
Qed.
Lemma side_no_bar s : no_bar (side_str s).
Proof. unfold no_bar. by destruct s; repeat constructor. Qed.

Section Keys.
Context `{DO : DecimalOps} `{TO : TimeOps}.

(** The idempotency key of an order identifies the copied trade: two signals
    with the same key have the same leader, source trade, market, outcome, side
    and second, provided the two textual identifiers contain no field separator. *)
Theorem idempotency_key_injective s1 s2 :
  Forall (λ s, wallet_wf (trader_wallet (leader s)) ∧ no_bar (source_trade_id (signal_source_trade_id s))
    ∧ no_bar (market_to_string (signal_market_id s))) [s1; s2] →
  build_idempotency_key s1 = build_idempotency_key s2 →
  trader_wallet (leader s1) = trader_wallet (leader s2)
  ∧ source_trade_id (signal_source_trade_id s1) = source_trade_id (signal_source_trade_id s2)
  ∧ signal_market_id s1 = signal_market_id s2 ∧ signal_outcome_id s1 = signal_outcome_id s2
  ∧ leader_side s1 = leader_side s2
  ∧ unix_timestamp (signal_observed_at s1) = unix_timestamp (signal_observed_at s2).
Proof.
  rewrite Forall_cons, Forall_singleton. intros [(W1 & S1 & M1) (W2 & S2 & M2)] H.
  unfold build_idempotency_key, build_idempotency_key_parts in H. apply (string_app_inj "wf|") in H.
  apply bar_split in H as [Hw H]; [|by apply wallet_no_bar..]. apply wallet_to_string_inj in Hw; [|done..].
  apply bar_split in H as [Hs H]; [|done..]. apply bar_split in H as [Hm H]; [|done..].
  apply bar_split in H as [Ho H]; [|apply pretty_Z_no_bar..]. apply (inj pretty) in Ho.
  apply bar_split in H as [Hd H%(inj pretty)]; [|apply side_no_bar..].
  split_and!; try done.
  - destruct (signal_market_id s1) as [[]], (signal_market_id s2) as [[]]. by simpl in *; subst.
  - destruct (signal_outcome_id s1), (signal_outcome_id s2). by simpl in *; subst.
  - by destruct (leader_side s1), (leader_side s2).
Qed.
End Keys.

(** ** A signal to evaluate at *)
Definition sample_signal : @LeaderSignal QDecimal ZTime :=
  @Build_LeaderSignal QDecimal ZTime {| trader_wallet := {| wallet_bytes := replicate 20 17 |} |} polymarket
    {| market_id := {| venue_market_id := "0xcondition" |} |} {| outcome_index := 0 |} Entry Buy
    (@Build_Price QDecimal (1 # 2)%Q) (from_atomic 10000000) 0 0 {| quality := 100 |}
    {| source_trade_id := "trade" |} 1000000.
Definition sample_organic (bankroll : Z) : panicking (@WinnerFollowError QDecimal) (@OrganicCanaryOrder QDecimal) :=
  @organic_evaluate QDecimal ZTime sample_signal (@Build_Probability QDecimal (9 # 10)%Q) (from_atomic bankroll)
    (@Build_Price QDecimal (1 # 100)%Q).
Definition sample_order : @OrganicCanaryOrder QDecimal :=
  Eval vm_compute in
  match sample_organic 200000000 with
  | Some (Ok o) => o
  | _ => @Build_OrganicCanaryOrder QDecimal (@build_order_intent QDecimal ZTime sample_signal 0 (@Build_Price QDecimal 0%Q))
           (@Build_Price QDecimal 0%Q) (from_atomic 0) (from_atomic 0)
  end.

Example organic_two_contracts :
  (λ r, match r with
        | Ok o => Some (contract_qty (contracts (organic_intent o)), atomic (organic_maximum_collateral o))
        | Err _ => None
        end) <$> sample_organic 200000000 = Some (Some (2, 1000000))
  ∧ (λ r, match r with
          | Ok o => Some (contract_qty (contracts (organic_intent o)), atomic (organic_maximum_collateral o))
          | Err _ => None
          end) <$> sample_organic 199000000 = Some (Some (1, 500000)).
Proof. by vm_compute. Qed.

Lemma organic_order_bounded_witness :
  200 * atomic (organic_maximum_collateral sample_order) ≤ 200000000.
Proof.
  assert (@organic_evaluate QDecimal ZTime sample_signal (@Build_Probability QDecimal (9 # 10)%Q)
            (from_atomic 200000000) (@Build_Price QDecimal (1 # 100)%Q) = Some (Ok sample_order)) as E
    by vm_cast_no_check (eq_refl (Some (Ok (E := @WinnerFollowError QDecimal) sample_order))).
  assert (amount_wf (from_atomic 200000000)) as W by (split; discriminate).
  destruct (@organic_order_bounded QDecimal QDecimal_laws ZTime _ _ _ _ _ W E) as (_ & _ & _ & H & _).
  exact H.
Defined.

Definition sample_kelly : @KellyInput QDecimal :=
  @Build_KellyInput QDecimal (@Build_Probability QDecimal (9 # 10)%Q) (@Build_Price QDecimal (1 # 2)%Q)
    (@KELLY_NORMAL QDecimal) (inject_Z 200).
Lemma kelly_stake_bounded_witness :
  @size_contracts QDecimal sample_kelly = Some (Ok {| contract_qty := 80 |}) ∧ (1 # 2 < 9 # 10)%Q.
Proof.
  assert (@size_contracts QDecimal sample_kelly = Some (Ok {| contract_qty := 80 |})) as E
    by vm_cast_no_check (eq_refl (Some (Ok (E := @KellyError QDecimal) {| contract_qty := 80 |}))).
  split; [exact E|].
  apply (@kelly_stake_bounded QDecimal QDecimal_laws sample_kelly {| contract_qty := 80 |});
    [by exists 9, 1|by exists 5, 1|by exists 200, 0|split; discriminate|exact E|done].
Defined.

Lemma idempotency_key_injective_witness :
  signal_market_id sample_signal = signal_market_id sample_signal.
Proof.
  apply (@idempotency_key_injective QDecimal ZTime sample_signal sample_signal); [|done].
  repeat constructor; vm_compute; try discriminate; by repeat constructor.
Defined.
