(* ===== verification/Fee.v ===== *)
(** * Exact fee economics (crates/venue-polymarket/src/fee.rs)

    The taker fee of an order, the reserve held for it, and the principal that a
    budget leaves once the reserve is set aside.  Decimal arithmetic rounds as the
    laws of [DecimalLaws] say; the theorems account for every rounding. *)

From S2P Require Import Prelude CoreTypes WinnerFollow.
#[local] Open Scope Z_scope.

Inductive FeeError : Type := FeeArithmetic | FeeBand.
#[export] Instance FeeError_eq_dec : EqDecision FeeError.
Proof. solve_decision. Defined.

Section FeeModel.
Context `{DO : DecimalOps}.

Inductive CompactFeeSchedule : Type :=
| ZeroFee
| Taker (rate : Decimal).

Definition validate_band (floor ceiling : Price) : result FeeError unit :=
  if price_ltb ceiling floor then Err FeeBand else Ok tt.

Definition validated_rate (schedule : CompactFeeSchedule) : result FeeError (option Decimal) :=
  match schedule with
  | ZeroFee => Ok None
  | Taker rate => if dec_leb dec_ZERO rate && dec_ltb rate dec_ONE then Ok (Some rate) else Err FeeArithmetic
  end.

Definition collateral_exact (d : Decimal) : result FeeError CollateralAmount :=
  map_err (λ _, FeeArithmetic) (from_decimal_exact "CollateralAmount" d).

Definition taker_fee (schedule : CompactFeeSchedule) (shares : ShareAmount) (price : Price) :
    result FeeError CollateralAmount :=
  r ← validated_rate schedule;
  match r with
  | None => Ok amount_ZERO
  | Some rate =>
      fee ← ok_or (a ← dec_checked_mul (to_decimal shares) rate;
                   b ← dec_checked_mul a (price_value price);
                   room ← dec_checked_sub dec_ONE (price_value price);
                   dec_checked_mul b room) FeeArithmetic;
      collateral_exact (dec_round_down 5 fee)
  end.

Definition signed_price (maker_collateral : CollateralAmount) (taker_shares : ShareAmount) : result FeeError Price :=
  if bool_decide (maker_collateral = amount_ZERO) || bool_decide (taker_shares = amount_ZERO) then Err FeeArithmetic
  else
    ratio ← ok_or (dec_checked_div (to_decimal maker_collateral) (to_decimal taker_shares)) FeeArithmetic;
    map_err (λ _, FeeArithmetic) (Price_new ratio).

Definition principal_implied_shares (principal : CollateralAmount) (limit_price : Price) : result FeeError Decimal :=
  if price_eqb limit_price Price_ZERO then Err FeeArithmetic
  else ok_or (dec_checked_div (to_decimal principal) (price_value limit_price)) FeeArithmetic.

Definition maximum_curve_price (floor ceiling : Price) : Decimal :=
  let half := dec_new 5 1 in
  if dec_leb (price_value floor) half && dec_leb half (price_value ceiling) then half
  else if dec_ltb (price_value ceiling) half then price_value ceiling
  else price_value floor.

Definition fee_reserve (schedule : CompactFeeSchedule) (principal : CollateralAmount) (best_ask limit_price : Price) :
    result FeeError CollateralAmount :=
  _ ← validate_band best_ask limit_price;
  r ← validated_rate schedule;
  match r with
  | None => Ok amount_ZERO
  | Some rate =>
      if decide (principal = amount_ZERO) then Ok amount_ZERO
      else
        minimum_shares ← principal_implied_shares principal limit_price;
        let curve_price := maximum_curve_price best_ask limit_price in
        room ← ok_or (dec_checked_sub dec_ONE curve_price) FeeArithmetic;
        curve ← ok_or (dec_checked_mul curve_price room) FeeArithmetic;
        reserve ← ok_or (a ← dec_checked_mul minimum_shares rate; dec_checked_mul a curve) FeeArithmetic;
        collateral_exact (dec_round_ceil 5 reserve)
  end.

Definition all_in_reserve (schedule : CompactFeeSchedule) (principal : CollateralAmount) (floor ceiling : Price) :
    result FeeError CollateralAmount :=
  r ← validated_rate schedule;
  match r with
  | None => Ok principal
  | Some rate =>
      reserve ← ok_or (a ← dec_checked_mul (to_decimal principal) rate;
                       room ← dec_checked_sub dec_ONE (price_value floor);
                       dec_checked_mul a room) FeeArithmetic;
      exact ← collateral_exact (dec_round_ceil 5 reserve);
      map_err (λ _, FeeArithmetic) (collateral_checked_add principal exact)
  end.

(** What remains of the principal when its reserve overshoots the budget. *)
Definition reduce_principal (principal rechecked budget : CollateralAmount) : result FeeError CollateralAmount :=
  if amount_ltb budget rechecked then
    excess ← map_err (λ _, FeeArithmetic) (collateral_checked_sub rechecked budget);
    if amount_leb principal excess then Ok amount_ZERO
    else map_err (λ _, FeeArithmetic) (collateral_checked_sub principal excess)
  else Ok principal.

Definition principal_for_budget (schedule : CompactFeeSchedule) (budget : CollateralAmount) (floor ceiling : Price) :
    result FeeError CollateralAmount :=
  _ ← validate_band floor ceiling;
  r ← validated_rate schedule;
  match r with
  | None => Ok budget
  | Some rate =>
      room ← ok_or (dec_checked_sub dec_ONE (price_value floor)) FeeArithmetic;
      fee_ratio ← ok_or (dec_checked_mul rate room) FeeArithmetic;
      divisor ← ok_or (dec_checked_add dec_ONE fee_ratio) FeeArithmetic;
      raw ← ok_or (dec_checked_div (to_decimal budget) divisor) FeeArithmetic;
      principal ← collateral_exact (dec_round_floor 6 raw);
      rechecked ← all_in_reserve schedule principal floor ceiling;
      principal ← reduce_principal principal rechecked budget;
      final ← all_in_reserve schedule principal floor ceiling;
      if amount_ltb budget final then Err FeeArithmetic else Ok principal
  end.

Definition fee_within_reserve (fee reserve : CollateralAmount) : bool :=
  amount_leb fee reserve && (atomic fee mod 10 =? 0).

End FeeModel.

(** ** Roundings *)

Section FeeFacts.
Context `{DL : DecimalLaws}.
#[local] Open Scope Q_scope.

(** The value of an amount in whole units, and of a price. *)
Definition units (a : ExactAmount) : Q := inject_Z (atomic a) / inject_Z ATOMIC_SCALE.
Definition pv (p : Price) : Q := dec_value (price_value p).

Lemma to_decimal_units a : amount_wf a → dec_value (to_decimal a) == units a.
Proof. intros Ha. by destruct (to_decimal_spec a Ha). Qed.
Lemma units_atomic a : units a * inject_Z ATOMIC_SCALE == inject_Z (atomic a).
Proof. unfold units. field. discriminate. Qed.
Lemma units_bounds a : amount_wf a → 0 <= units a <= inject_Z (2 * 10 ^ 13).
Proof.
  unfold amount_wf, is_u64, U64_MAX. intros [H0 H1]. split.
  - apply Qle_shift_div_l; [done|]. rewrite Qmult_0_l, <- (Zle_Qle 0). done.
  - apply Qle_shift_div_r; [done|]. rewrite <- inject_Z_mult, <- Zle_Qle. unfold ATOMIC_SCALE. lia.
Qed.
Lemma units_le a b : units a <= units b ↔ (atomic a ≤ atomic b)%Z.
Proof.
  rewrite Zle_Qle, <- !units_atomic. assert (0 < inject_Z ATOMIC_SCALE) as Hs by done.
  by rewrite (Qmult_le_r _ _ _ Hs).
Qed.

Definition eps (s : Z) : Q := 1 / inject_Z (10 ^ s).

Ltac q_closed := repeat split; vm_compute; first [reflexivity | discriminate].
Lemma eps_pos s : (0 ≤ s)%Z → 0 < eps s.
Proof.
  intros Hs. unfold eps. apply Qlt_shift_div_l; [|by rewrite Qmult_0_l].
  rewrite <- (Zlt_Qlt 0). by apply Z.pow_pos_nonneg.
Qed.

(** Products and quotients with one rounding, for factors in the range of money. *)
Lemma mul_within a b c s : dec_checked_mul a b = Some c → (0 ≤ s ≤ 28)%Z →
  Qabs (dec_value a * dec_value b) * inject_Z (10 ^ s) <= inject_Z (2 ^ 95) →
  dec_value a * dec_value b - eps s <= dec_value c <= dec_value a * dec_value b + eps s.
Proof. intros H%dec_checked_mul_rounds. by apply rounds_within. Qed.
Lemma div_within a b c s : dec_checked_div a b = Some c → (0 ≤ s ≤ 28)%Z →
  Qabs (dec_value a / dec_value b) * inject_Z (10 ^ s) <= inject_Z (2 ^ 95) →
  dec_value a / dec_value b - eps s <= dec_value c <= dec_value a / dec_value b + eps s.
Proof. intros [_ H]%dec_checked_div_rounds. by apply rounds_within. Qed.
Lemma room_within p c : dec_checked_sub dec_ONE p = Some c → 0 <= dec_value p <= 1 →
  1 - dec_value p - eps 28 <= dec_value c <= 1 - dec_value p + eps 28 ∧ 0 <= dec_value c <= 1.
Proof.
  intros H%dec_checked_sub_rounds Hp. rewrite dec_ONE_value in H. split.
  - apply rounds_within; [done|done|]. rewrite Qabs_pos by lra.
    eapply Qle_trans; [apply (Qmult_le_compat_r _ 1); [lra|done]|]. rewrite Qmult_1_l, <- Zle_Qle. lia.
  - split; [eapply rounds_to_ge|eapply rounds_to_le]; try exact H; try lra; by apply representable_Z.
Qed.

(** Five decimals up or down: a difference below one unit is lost by rounding the
    smaller up and the larger down. *)
Lemma round_five x y a b : 0 <= dec_value x → dec_value x < dec_value y + eps 5 →
  collateral_exact (dec_round_down 5 x) = Ok a → collateral_exact (dec_round_ceil 5 y) = Ok b →
  (atomic a ≤ atomic b ∧ atomic a mod 10 = 0)%Z.
Proof.
  intros Hx Hxy Ha%map_err_Ok Hb%map_err_Ok.
  apply (from_decimal_exact_whole _ _ _ (10 * Qfloor (dec_value x * inject_Z (10 ^ 5)))) in Ha as [-> _].
  2:{ rewrite dec_round_down_value by done. rewrite inject_Z_mult. change (inject_Z ATOMIC_SCALE) with (inject_Z 10 * inject_Z (10 ^ 5)).
      field. discriminate. }
  apply (from_decimal_exact_whole _ _ _ (10 * Qceiling (dec_value y * inject_Z (10 ^ 5)))) in Hb as [-> _].
  2:{ rewrite dec_round_ceil_value by done. rewrite inject_Z_mult. change (inject_Z ATOMIC_SCALE) with (inject_Z 10 * inject_Z (10 ^ 5)).
      field. discriminate. }
  cbn [atomic]. split; [|by rewrite Z.mul_comm, Z_mod_mult].
  cut (Qfloor (dec_value x * inject_Z (10 ^ 5)) < Qceiling (dec_value y * inject_Z (10 ^ 5)) + 1)%Z; [lia|].
  rewrite Zlt_Qlt, inject_Z_plus. change (inject_Z 1) with 1.
  pose proof (Qfloor_le (dec_value x * inject_Z (10 ^ 5))). pose proof (Qle_ceiling (dec_value y * inject_Z (10 ^ 5))).
  assert (dec_value x * inject_Z (10 ^ 5) < dec_value y * inject_Z (10 ^ 5) + 1); [|lra].
  assert (dec_value y * inject_Z (10 ^ 5) + 1 == (dec_value y + eps 5) * inject_Z (10 ^ 5)) as -> by (unfold eps; field; discriminate).
  by apply Qmult_lt_r.
Qed.
(** A product of an amount and a fraction. *)
Lemma unit_mul a b c : dec_checked_mul a b = Some c → 0 <= dec_value a <= inject_Z (3 * 10 ^ 13) →
  0 <= dec_value b <= 1 →
  0 <= dec_value c ∧ dec_value a * dec_value b - eps 15 <= dec_value c <= dec_value a * dec_value b + eps 15.
Proof.
  intros H [A0 A1] [B0 B1]. assert (0 <= dec_value a * dec_value b) as H0 by (by apply Qmult_le_0_compat). split.
  - apply dec_checked_mul_rounds in H. eapply rounds_to_ge; [exact H|by apply (representable_Z 0)|done].
  - apply mul_within; [done|done|]. rewrite Qabs_pos by done.
    eapply Qle_trans; [apply Qmult_le_compat_r; [|done]|].
    + instantiate (1 := inject_Z (3 * 10 ^ 13)). nra.
    + rewrite <- inject_Z_mult, <- Zle_Qle. lia.
Qed.

Lemma validated_rate_Ok schedule r : validated_rate schedule = Ok r →
  (schedule = ZeroFee ∧ r = None) ∨ ∃ rate, schedule = Taker rate ∧ r = Some rate ∧ 0 <= dec_value rate <= 1.
Proof.
  destruct schedule as [|rate]; simpl; [intros [= <-]; by left|].
  destruct (dec_leb _ _) eqn:H0; [|done]. destruct (dec_ltb _ _) eqn:H1; [|done]. intros [= <-]. right.
  exists rate. apply dec_leb_le in H0. apply dec_ltb_lt in H1. rewrite dec_ZERO_value in H0. rewrite dec_ONE_value in H1.
  split_and!; [done..|lra].
Qed.

(** The fee before truncation. *)
Lemma taker_fee_Ok rate shares price fee : taker_fee (Taker rate) shares price = Ok fee →
  amount_wf shares → 0 <= pv price <= 1 → 0 <= dec_value rate <= 1 →
  ∃ x, collateral_exact (dec_round_down 5 x) = Ok fee ∧ 0 <= dec_value x
    ∧ dec_value x <= units shares * dec_value rate * pv price * (1 - pv price) + eps 9.
Proof.
  intros H Hs Hp Hr. unfold taker_fee in H. apply result_bind_Ok in H as (r & Hrate & H).
  apply validated_rate_Ok in Hrate as [[? _]|(rate' & [= <-] & -> & _)]; [done|].
  apply result_bind_Ok in H as (x & Hx%ok_or_Ok & H). apply bind_Some in Hx as (a & Ha & Hx).
  apply bind_Some in Hx as (b & Hb & Hx). apply bind_Some in Hx as (room & Hroom & Hx).
  destruct (units_bounds shares Hs) as [S0 S1]. pose proof (to_decimal_units shares Hs) as Hu.
  assert (inject_Z (3 * 10 ^ 13) == inject_Z (2 * 10 ^ 13) + inject_Z (10 ^ 13)) as Hbig by q_closed.
  assert (0 < eps 15 ∧ eps 15 <= 1 ∧ 9 <= inject_Z (10 ^ 13)) as (E0 & E1 & E2) by q_closed.
  set (S := units shares) in *. set (p := pv price) in *. set (t := dec_value rate) in *.
  destruct (unit_mul _ _ _ Ha) as (A0 & A1 & A2); [rewrite Hu; lra|done|]. rewrite Hu in A1, A2. fold t in A1, A2.
  assert (S * t <= S) as St by nra. assert (0 <= S * t) as St0 by nra.
  destruct (unit_mul _ _ _ Hb) as (B0 & B1 & B2); [lra|done|]. fold (pv price) in B1, B2. fold p in B1, B2.
  destruct (room_within _ _ Hroom Hp) as [[R1 R2] [R3 R4]]. fold (pv price) in R1, R2. fold p in R1, R2.
  assert (dec_value a * p <= (S * t + eps 15) * p) as Hap by (apply Qmult_le_compat_r; lra).
  assert (eps 15 * p <= eps 15) by nra. assert (0 <= S * t * p <= S * t) as [] by nra.
  assert (dec_value b <= S * t * p + 2 * eps 15) as Bb by lra.
  destruct (unit_mul _ _ _ Hx) as (X0 & X1 & X2); [lra|done|].
  exists x. split_and!; [done..|].
  assert (dec_value b * dec_value room <= (S * t * p + 2 * eps 15) * (1 - p + eps 28)) as Hbr.
  { eapply Qle_trans; [apply Qmult_le_compat_r; [exact Bb|lra]|]. rewrite !(Qmult_comm (_ + 2 * _)).
    apply Qmult_le_compat_r; lra. }
  assert (S * t * p * eps 28 <= inject_Z (2 * 10 ^ 13) * eps 28) by (apply Qmult_le_compat_r; [lra|by apply Qlt_le_weak, eps_pos]).
  assert (inject_Z (2 * 10 ^ 13) * eps 28 + 5 * eps 15 <= eps 9) by q_closed.
  assert (0 < eps 28 ∧ eps 28 <= 1) as [] by q_closed.
  assert (2 * eps 15 * (1 - p + eps 28) <= 4 * eps 15) by nra. lra.
Qed.

Lemma Qsquare_nonneg x : 0 <= x * x.
Proof. destruct (Qlt_le_dec x 0); nra. Qed.

(** The principal of a budget is a well-formed amount. *)
Lemma principal_for_budget_wf schedule budget floor ceiling P : principal_for_budget schedule budget floor ceiling = Ok P →
  amount_wf budget → amount_wf P.
Proof.
  unfold principal_for_budget. intros H Hb. apply result_bind_Ok in H as ([] & _ & H). apply result_bind_Ok in H as ([rate|] & _ & H).
  2:{ by injection H as <-. }
  do 3 (apply result_bind_Ok in H as (? & _ & H)). apply result_bind_Ok in H as (raw & _ & H). apply result_bind_Ok in H as (p & Hp%map_err_Ok & H).
  apply result_bind_Ok in H as (? & _ & H). apply result_bind_Ok in H as (p' & Hp' & H).
  apply result_bind_Ok in H as (? & _ & H). destruct (amount_ltb _ _); [done|]. injection H as <-.
  unfold reduce_principal in Hp'. destruct (amount_ltb _ _).
  - apply result_bind_Ok in Hp' as (e & _ & Hp'). destruct (amount_leb _ _); [by injection Hp' as <-|].
    apply map_err_Ok, amount_checked_sub_Ok in Hp' as [-> ?]. done.
  - injection Hp' as <-. apply (from_decimal_exact_whole _ _ _ (Qfloor (dec_value raw * inject_Z (10 ^ 6)))) in Hp as [-> ?]; [done|].
    rewrite dec_round_floor_value by done. change ATOMIC_SCALE with (10 ^ 6)%Z. field. discriminate.
Qed.

(** The price at which the curve is taken is the maximizer over the band. *)
Lemma maximum_curve_bounds best limit : 0 <= pv best <= 1 → 0 <= pv limit <= 1 →
  0 <= dec_value (maximum_curve_price best limit) <= 1.
Proof.
  intros Hb Hl. unfold maximum_curve_price.
  assert (dec_value (dec_new 5 1) == 1 # 2) as Hh by (rewrite dec_new_value by done; done).
  destruct (_ && _); [rewrite Hh; lra|]. by destruct (dec_ltb _ _).
Qed.
Lemma maximum_curve_max best limit e : pv best <= pv limit → pv best <= e <= pv limit →
  let m := dec_value (maximum_curve_price best limit) in e * (1 - e) <= m * (1 - m).
Proof.
  intros Hb He. unfold maximum_curve_price.
  assert (dec_value (dec_new 5 1) == 1 # 2) as Hh by (rewrite dec_new_value by done; done).
  destruct (dec_leb (price_value best) _) eqn:E1; simpl.
  - destruct (dec_leb (dec_new 5 1) _) eqn:E2; simpl.
    + rewrite Hh. pose proof (Qsquare_nonneg (e - (1 # 2))). lra.
    + apply dec_leb_gt in E2. pose proof (proj2 (dec_ltb_lt _ _) E2) as ->. unfold pv in *. rewrite Hh in E2. nra.
  - apply dec_leb_gt in E1. rewrite Hh in E1. assert (dec_ltb (price_value limit) (dec_new 5 1) = false) as ->.
    { apply dec_ltb_ge. rewrite Hh. unfold pv in *. lra. }
    unfold pv in *. nra.
Qed.

(** The reserve before rounding up. *)
Lemma fee_reserve_Ok rate principal best limit reserve q : fee_reserve (Taker rate) principal best limit = Ok reserve →
  principal ≠ amount_ZERO → 0 <= pv best <= 1 → 0 <= pv limit <= 1 → 0 <= dec_value rate <= 1 →
  principal_implied_shares principal limit = Ok q → 0 <= dec_value q <= inject_Z (2 * 10 ^ 13) + 1 →
  pv best <= pv limit ∧
  let m := dec_value (maximum_curve_price best limit) in
  ∃ y, collateral_exact (dec_round_ceil 5 y) = Ok reserve
    ∧ dec_value q * dec_value rate * (m * (1 - m)) - eps 9 <= dec_value y.
Proof.
  intros H Hne Hb Hl Hr Hq Hqb. unfold fee_reserve in H. apply result_bind_Ok in H as ([] & Hband & H).
  unfold validate_band in Hband. destruct (price_ltb limit best) eqn:Hlt; [done|]. apply dec_ltb_ge in Hlt.
  apply result_bind_Ok in H as (r & Hrate & H).
  apply validated_rate_Ok in Hrate as [[? _]|(rate' & [= <-] & -> & _)]; [done|].
  rewrite decide_False in H by done. rewrite Hq in H. simpl in H.
  apply result_bind_Ok in H as (room & Hroom%ok_or_Ok & H). apply result_bind_Ok in H as (curve & Hcurve%ok_or_Ok & H).
  apply result_bind_Ok in H as (y & Hy%ok_or_Ok & H). apply bind_Some in Hy as (a & Ha & Hy).
  split; [done|]. intros m. exists y. split; [done|].
  pose proof (maximum_curve_bounds best limit Hb Hl) as Hm. fold m in Hm.
  destruct (room_within _ _ Hroom Hm) as [[R1 R2] [R3 R4]]. fold m in R1, R2.
  assert (0 <= m * dec_value room <= 1) as Hmr by (split; nra).
  assert (m * dec_value room - eps 28 <= dec_value curve) as C1.
  { apply (mul_within _ _ _ 28) in Hcurve as [? _]; [done|done|]. fold m. rewrite Qabs_pos by apply Hmr.
    eapply Qle_trans; [apply (Qmult_le_compat_r _ 1); [apply Hmr|done]|]. rewrite Qmult_1_l, <- Zle_Qle. lia. }
  assert (0 <= dec_value curve <= 1) as Hc.
  { apply dec_checked_mul_rounds in Hcurve. fold m in Hcurve.
    split; [eapply rounds_to_ge|eapply rounds_to_le]; try exact Hcurve; try apply Hmr; by apply representable_Z. }
  assert (0 < eps 15 ∧ eps 15 <= 1 ∧ 0 < eps 28 ∧ eps 28 <= 1) as (E1 & E2 & E3 & E4) by q_closed.
  assert (inject_Z (2 * 10 ^ 13) + 9 <= inject_Z (3 * 10 ^ 13)) as Hbig by q_closed.
  set (t := dec_value rate) in *. set (Q := dec_value q) in *.
  destruct (unit_mul _ _ _ Ha) as (A0 & A1 & A2); [fold Q; lra|done|]. fold Q in A1, A2. fold t in A1, A2.
  assert (0 <= Q * t <= Q) as [Qt0 Qt1] by (split; nra).
  destruct (unit_mul _ _ _ Hy) as (_ & Y1 & _); [lra|done|].
  assert ((Q * t - eps 15) * dec_value curve <= dec_value a * dec_value curve) as Hac by (apply Qmult_le_compat_r; lra).
  assert (eps 15 * dec_value curve <= eps 15) by nra.
  assert (m * (1 - m) - 2 * eps 28 <= dec_value curve) as C2.
  { assert (m * (1 - m - eps 28) <= m * dec_value room) by (rewrite !(Qmult_comm m); apply Qmult_le_compat_r; lra). nra. }
  assert (Q * t * (m * (1 - m) - 2 * eps 28) <= Q * t * dec_value curve)
    by (rewrite !(Qmult_comm (Q * t)); apply Qmult_le_compat_r; lra).
  assert (Q * t * eps 28 <= (inject_Z (2 * 10 ^ 13) + 1) * eps 28) by (apply Qmult_le_compat_r; lra).
  assert (2 * ((inject_Z (2 * 10 ^ 13) + 1) * eps 28) + 2 * eps 15 <= eps 9) by q_closed.
  lra.
Qed.

(** The exact price of a signed order. *)
Lemma signed_price_Ok principal shares p : signed_price principal shares = Ok p → amount_wf principal → amount_wf shares →
  0 < units shares ∧ 0 <= pv p <= 1 ∧ units shares * pv p <= units principal + eps 14
  ∧ units principal <= units shares * pv p + eps 14.
Proof.
  unfold signed_price. intros H HP HS. destruct (_ || _) eqn:E; [done|]. apply orb_false_iff in E as [_ E%bool_decide_eq_false].
  apply result_bind_Ok in H as (ratio & Hr%ok_or_Ok & H). apply map_err_Ok, Price_new_Ok in H as [Hv Hp].
  assert (0 < units shares) as HS0.
  { destruct (units_bounds shares HS) as [H0 _]. apply Qle_lteq in H0 as [?|H0]; [done|]. exfalso. apply E.
    pose proof (units_atomic shares) as Ha. rewrite <- H0, Qmult_0_l in Ha.
    rewrite <- (amount_eta shares). unfold amount_ZERO. f_equal. apply inject_Z_injective. by rewrite <- Ha. }
  unfold pv. rewrite Hv. split; [done|]. split; [done|].
  pose proof (dec_checked_div_rounds _ _ _ Hr) as [_ Hround]. rewrite (to_decimal_units _ HP), (to_decimal_units _ HS) in Hround.
  set (P := units principal) in *. set (S := units shares) in *. destruct (units_bounds shares HS) as [_ HS1]. fold S in HS1.
  destruct (units_bounds principal HP) as [HP0 _]. fold P in HP0.
  assert (0 <= P / S) as H0 by (apply Qle_shift_div_l; [done|lra]).
  assert (P / S <= 2) as H2.
  { destruct (Qlt_le_dec 2 (P / S)) as [Hgt|]; [|done].
    pose proof (rounds_to_ge _ _ 2 Hround ltac:(by apply (representable_Z 2))). lra. }
  apply (rounds_within _ _ 28) in Hround as [R1 R2]; [|done|].
  2:{ rewrite Qabs_pos by done. eapply Qle_trans; [apply (Qmult_le_compat_r _ 2); [done|done]|].
      change 2 with (inject_Z 2). rewrite <- inject_Z_mult, <- Zle_Qle. lia. }
  fold (eps 28) in R1, R2. assert (S * (P / S) == P) as HSP by (field; lra).
  assert (S * eps 28 <= inject_Z (2 * 10 ^ 13) * eps 28) by (apply Qmult_le_compat_r; [done|by apply Qlt_le_weak, eps_pos]).
  assert (inject_Z (2 * 10 ^ 13) * eps 28 <= eps 14) by q_closed.
  split.
  - apply (Qmult_le_l _ _ S) in R2; [|done]. lra.
  - apply (Qmult_le_l _ _ S) in R1; [|done]. lra.
Qed.

(** The exact quotient behind the reserve. *)
Lemma implied_shares_Ok principal limit q : principal_implied_shares principal limit = Ok q → amount_wf principal →
  0 <= pv limit → dec_value q <= inject_Z (2 * 10 ^ 13) + 1 →
  0 < pv limit ∧ 0 <= dec_value q
  ∧ units principal <= pv limit * dec_value q + pv limit * eps 15.
Proof.
  unfold principal_implied_shares. intros H HP Hl Hq. destruct (price_eqb limit Price_ZERO) eqn:E; [done|].
  apply ok_or_Ok, dec_checked_div_rounds in H as [_ Hround]. rewrite (to_decimal_units _ HP) in Hround. fold (pv limit) in Hround.
  assert (0 < pv limit) as HL.
  { apply Qle_lteq in Hl as [?|Hl]; [done|]. exfalso. apply not_true_iff_false in E. apply E, dec_eqb_eq.
    symmetry in Hl. unfold pv in Hl. rewrite Hl. simpl. by rewrite dec_ZERO_value. }
  destruct (units_bounds principal HP) as [HP0 _]. set (P := units principal) in *. set (L := pv limit) in *.
  assert (0 <= P / L) as H0 by (apply Qle_shift_div_l; [done|lra]).
  assert (P / L <= inject_Z (3 * 10 ^ 13)) as H2.
  { destruct (Qlt_le_dec (inject_Z (3 * 10 ^ 13)) (P / L)) as [Hgt|]; [|done].
    pose proof (rounds_to_ge _ _ (inject_Z (3 * 10 ^ 13)) Hround ltac:(by apply representable_Z) ltac:(lra)).
    assert (inject_Z (2 * 10 ^ 13) + 1 < inject_Z (3 * 10 ^ 13)) by q_closed. lra. }
  split; [done|]. split.
  { eapply rounds_to_ge; [exact Hround|by apply (representable_Z 0)|done]. }
  apply (rounds_within _ _ 15) in Hround as [R1 _]; [|done|].
  2:{ rewrite Qabs_pos by done. eapply Qle_trans; [apply Qmult_le_compat_r; [exact H2|done]|].
      rewrite <- inject_Z_mult, <- Zle_Qle. lia. }
  fold (eps 15) in R1. assert (L * (P / L) == P) as HLP by (field; lra).
  apply (Qmult_le_l _ _ L) in R1; [|done]. lra.
Qed.

(** At a signed price [e] of at least [L] the shares pay for [P], which [Q] shares at
    [L] exceed. *)
Lemma signed_curve S t e P L Q m : 0 <= t <= 1 → 0 <= e <= 1 → 0 <= L <= e → 0 <= P → 0 <= Q →
  S * e <= P + eps 14 → P <= L * Q + L * eps 15 → L * (1 - L) <= m * (1 - m) →
  S * t * e * (1 - e) <= Q * t * (m * (1 - m)) + eps 9.
Proof.
  intros Ht He HL HP HQ Hup Hlo Hcurve.
  assert (0 < eps 14 ∧ 0 < eps 15 ∧ eps 14 + eps 15 <= eps 9) as (E1 & E2 & E3) by q_closed.
  assert (0 <= t * (1 - e) <= 1) as [] by (split; nra). assert (0 <= t * (1 - L) <= 1) as [] by (split; nra).
  assert ((S * e) * (t * (1 - e)) <= (P + eps 14) * (t * (1 - e))) by (by apply Qmult_le_compat_r).
  assert (eps 14 * (t * (1 - e)) <= eps 14) by nra.
  assert (P * t * (1 - e) <= P * t * (1 - L)) by (rewrite !(Qmult_comm (P * t)); apply Qmult_le_compat_r; nra).
  assert (P * (t * (1 - L)) <= (L * Q + L * eps 15) * (t * (1 - L))) by (by apply Qmult_le_compat_r).
  assert (Q * t * (L * (1 - L)) <= Q * t * (m * (1 - m))) by (rewrite !(Qmult_comm (Q * t)); apply Qmult_le_compat_r; [done|nra]).
  assert (L * (t * (1 - L)) * eps 15 <= 1 * eps 15) by (apply Qmult_le_compat_r; nra).
  lra.
Qed.

(** The reserve covers the fee.  When the signed shares are the floor of what the
    principal buys at the worst accepted ask, the platform fee on those shares, at
    any price of the walked band or at the exact price of the signed order, is
    within the reserve and on the five-decimal grid, so the finality check on a
    charged fee accepts it.  Every decimal rounding on both sides is accounted for. *)
Theorem reserve_covers_fee schedule principal shares best limit price fee reserve q :
  amount_wf principal → amount_wf shares → principal ≠ amount_ZERO →
  0 <= pv best <= 1 → 0 <= pv limit <= 1 → 0 <= pv price <= 1 →
  principal_implied_shares principal limit = Ok q →
  units shares <= dec_value q <= units shares + 1 →
  (pv best <= pv price <= pv limit ∨ (signed_price principal shares = Ok price ∧ pv limit <= pv price)) →
  taker_fee schedule shares price = Ok fee → fee_reserve schedule principal best limit = Ok reserve →
  fee_within_reserve fee reserve = true.
Proof.
  intros HP HS Hne Hb Hl Hp Hq Hfl Hprice Hfee Hres.
  cut ((atomic fee ≤ atomic reserve ∧ atomic fee mod 10 = 0)%Z).
  { intros [H1 H2]. unfold fee_within_reserve, amount_leb. apply andb_true_iff. split; [by apply Z.leb_le|by apply Z.eqb_eq]. }
  destruct schedule as [|rate].
  { simpl in Hfee. injection Hfee as <-. unfold fee_reserve in Hres. apply result_bind_Ok in Hres as ([] & _ & Hres).
    simpl in Hres. by injection Hres as <-. }
  assert (0 <= dec_value rate <= 1) as Hr.
  { unfold taker_fee in Hfee. apply result_bind_Ok in Hfee as (r & Hrate & _).
    by apply validated_rate_Ok in Hrate as [[? _]|(? & [= <-] & _ & ?)]. }
  destruct (units_bounds shares HS) as [HS0 HS1].
  destruct (implied_shares_Ok _ _ _ Hq HP (proj1 Hl)) as (HL & HQ0 & HQ); [lra|].
  destruct (taker_fee_Ok _ _ _ _ Hfee HS Hp Hr) as (x & Hx & X0 & X1).
  destruct (fee_reserve_Ok _ _ _ _ _ _ Hres Hne Hb Hl Hr Hq) as (Hband & y & Hy & Y1); [lra|].
  pose proof (maximum_curve_bounds best limit Hb Hl) as Hm. pose proof (maximum_curve_max best limit) as Hmax.
  set (m := dec_value (maximum_curve_price best limit)) in *. set (t := dec_value rate) in *.
  apply (round_five x y); [done| |done..].
  cut (units shares * t * pv price * (1 - pv price) <= dec_value q * t * (m * (1 - m)) + eps 9).
  { assert (3 * eps 9 < eps 5) by q_closed. intros. lra. }
  set (S := units shares) in *. set (Q := dec_value q) in *. set (e := pv price) in *. set (L := pv limit) in *.
  assert (0 <= m * (1 - m)) by nra. assert (0 <= t * (m * (1 - m))) by nra.
  destruct Hprice as [He|[Hsp HLe]].
  - pose proof (Hmax e Hband He) as Hcurve. cbv zeta in Hcurve. fold m in Hcurve.
    assert (S * t * (e * (1 - e)) <= S * t * (m * (1 - m))).
    { rewrite !(Qmult_comm (S * t)). apply Qmult_le_compat_r; [done|nra]. }
    assert (S * (t * (m * (1 - m))) <= Q * (t * (m * (1 - m)))) by (apply Qmult_le_compat_r; lra).
    assert (0 < eps 9) by q_closed. lra.
  - destruct (signed_price_Ok _ _ _ Hsp HP HS) as (_ & _ & Hup & _).
    apply (signed_curve S t e (units principal) L Q); try done; [lra|apply units_bounds, HP|].
    apply (Hmax L Hband). split; [done|apply Qle_refl].
Qed.
End FeeFacts.
