(* ===== verification/Ladder.v ===== *)
(** * The executable-ask planner (crates/venue-polymarket/src/ladder.rs)

    One walk over the ask side of a book decides how much of an order is planned,
    at which worst price, and with which reserve.  The loops over the levels are
    recursive functions on the list of levels; [break] returns the accumulator. *)

From stdpp Require Import sorting.
From S2P Require Import Prelude CoreTypes WinnerFollow Fee.
#[local] Open Scope Z_scope.

Inductive LadderError : Type :=
| BelowBandAsk | InsufficientDepth | NothingAffordable | BelowMinimum | CapExceeded | NoKellyEdge | KellySizing
| LadderFee (e : FeeError)
| LadderAmount.
#[export] Instance LadderError_eq_dec : EqDecision LadderError.
Proof. solve_decision. Defined.

Section LadderModel.
Context `{DO : DecimalOps}.

Definition ATOMICS_PER_SHARE : Z := 1000000.
Definition LADDER_MAX_AGE_MS : Z := 2000.
Definition ladder_is_stale (now_ms observed_ms : Z) : bool :=
  (now_ms <? observed_ms) || (LADDER_MAX_AGE_MS <? now_ms - observed_ms).

Record AskLevel := { ask_price : Price; ask_shares : ShareAmount }.

Record LadderPlan := {
  used_asks : list AskLevel;
  best_ask : Price;
  plan_limit_price : Price;
  plan_shares : ShareAmount;
  worst_case_debit : CollateralAmount
}.

Definition amount_of {A} (r : result Error A) : result LadderError A := map_err (λ _, LadderAmount) r.
Definition fee_of {A} (r : result FeeError A) : result LadderError A := map_err LadderFee r.
Definition decimal_of (o : option Decimal) : result LadderError Decimal := ok_or o LadderAmount.

Definition collateral_floor (value : Decimal) : result LadderError CollateralAmount :=
  amount_of (from_decimal_exact "CollateralAmount" (dec_round_floor 6 value)).
Definition decimal_to_atomic_shares (value : Decimal) : result LadderError ShareAmount :=
  amount_of (from_decimal_exact "ShareAmount" (dec_round_floor 6 value)).
Definition whole_shares (value : Z) : result LadderError ShareAmount :=
  ok_or (from_atomic <$> checked_mul_u64 value ATOMICS_PER_SHARE) LadderAmount.
Definition shares_for_principal (principal : CollateralAmount) (price : Price) (scale : Z) : result LadderError ShareAmount :=
  if price_eqb price Price_ZERO then Err LadderAmount
  else
    q ← map_err (λ _, LadderAmount) (principal_implied_shares principal price);
    amount_of (from_decimal_exact "ShareAmount" (dec_round_floor scale q)).

Definition expected_spend_decimal (asks : list AskLevel) : result LadderError Decimal :=
  try_fold (λ total ask,
    decimal_of (cost ← dec_checked_mul (to_decimal (ask_shares ask)) (price_value (ask_price ask));
                dec_checked_add total cost)) dec_ZERO asks.

(** *** [LadderPlan] *)
Definition plan_signed_price (plan : LadderPlan) : result LadderError Price :=
  fee_of (signed_price (worst_case_debit plan) (plan_shares plan)).
Definition expected_shares (plan : LadderPlan) : result LadderError ShareAmount :=
  try_fold (λ total ask, amount_of (share_checked_add total (ask_shares ask))) amount_ZERO (used_asks plan).
Definition expected_spend (plan : LadderPlan) : result LadderError CollateralAmount :=
  d ← expected_spend_decimal (used_asks plan); collateral_floor d.
Definition vwap (plan : LadderPlan) : option Price :=
  shares ← result_ok (expected_shares plan);
  if dec_leb (to_decimal shares) dec_ZERO then None
  else
    spend ← result_ok (expected_spend plan);
    ratio ← dec_checked_div (to_decimal spend) (to_decimal shares);
    result_ok (Price_new ratio).
Definition signed_share_contracts (shares : ShareAmount) : result LadderError ContractQty :=
  ok_or ((λ n, {| contract_qty := n |}) <$> dec_to_u64 (dec_floor (to_decimal shares))) LadderAmount.

Inductive BuySizing : Type :=
| Dollar (budget : CollateralAmount)
| DollarUpTo (budget : CollateralAmount)
| Contract (contracts : Z)
| Kelly (allocate : Price → result LadderError ShareAmount) (slippage_rate : Decimal).

Record SizedBuyPlan := { ladder : LadderPlan; plan_budget : CollateralAmount; plan_reserve : CollateralAmount }.
Definition worst_case_all_in_debit (plan : SizedBuyPlan) : result LadderError CollateralAmount :=
  amount_of (collateral_checked_add (worst_case_debit (ladder plan)) (plan_reserve plan)).

Definition validate_level_order (used : list AskLevel) (next : AskLevel) : result LadderError unit :=
  match last used with
  | Some prior => if price_ltb (ask_price next) (ask_price prior) then Err LadderAmount else Ok tt
  | None => Ok tt
  end.

(** ** The walks *)

Section Walks.
Context (minimum_price maximum_price_exclusive : Price).

(** Out of the band above: the walk stops. *)
Definition above_band (ceiling : Price) (level : AskLevel) : bool :=
  price_leb maximum_price_exclusive (ask_price level) || price_ltb ceiling (ask_price level).
Definition empty_level (level : AskLevel) : bool :=
  price_eqb (ask_price level) Price_ZERO || bool_decide (ask_shares level = amount_ZERO).

Record WalkState := {
  ws_remaining : Decimal;
  ws_used : list AskLevel;
  ws_capacity : Decimal;
  ws_best : option Price;
  ws_limit : option Price
}.
Fixpoint walk_principal_loop (ceiling : Price) (asks : list AskLevel) (w : WalkState) : result LadderError WalkState :=
  match asks with
  | [] => Ok w
  | level :: asks =>
      _ ← validate_level_order (ws_used w) level;
      if price_ltb (ask_price level) minimum_price then Err BelowBandAsk
      else if above_band ceiling level then Ok w
      else if empty_level level then Err LadderAmount
      else
        let best := Some (default (ask_price level) (ws_best w)) in
        level_cost ← decimal_of (dec_checked_mul (to_decimal (ask_shares level)) (price_value (ask_price level)));
        capacity ← decimal_of (dec_checked_add (ws_capacity w) level_cost);
        if dec_leb level_cost (ws_remaining w) then
          remaining ← decimal_of (dec_checked_sub (ws_remaining w) level_cost);
          let w := {| ws_remaining := remaining; ws_used := ws_used w ++ [level]; ws_capacity := capacity;
                      ws_best := best; ws_limit := Some (ask_price level) |} in
          if dec_eqb remaining dec_ZERO then Ok w else walk_principal_loop ceiling asks w
        else
          quotient ← decimal_of (dec_checked_div (ws_remaining w) (price_value (ask_price level)));
          shares ← decimal_to_atomic_shares quotient;
          let used := if decide (shares = amount_ZERO) then ws_used w
                      else ws_used w ++ [{| ask_price := ask_price level; ask_shares := shares |}] in
          Ok {| ws_remaining := ws_remaining w; ws_used := used; ws_capacity := capacity;
                ws_best := best; ws_limit := Some (ask_price level) |}
  end.

Record PrincipalWalk := {
  pw_principal : CollateralAmount;
  pw_used_asks : list AskLevel;
  pw_best_ask : Price;
  pw_limit_price : Price
}.
Definition walk_principal (asks : list AskLevel) (principal : CollateralAmount) (accept_partial : bool) (ceiling : Price) :
    result LadderError PrincipalWalk :=
  w ← walk_principal_loop ceiling asks
        {| ws_remaining := to_decimal principal; ws_used := []; ws_capacity := dec_ZERO; ws_best := None; ws_limit := None |};
  if negb accept_partial && dec_ltb (ws_capacity w) (to_decimal principal) then Err InsufficientDepth
  else
    principal ← if accept_partial then c ← collateral_floor (ws_capacity w); Ok (amount_min principal c) else Ok principal;
    best ← ok_or (ws_best w) NothingAffordable;
    limit ← ok_or (ws_limit w) NothingAffordable;
    Ok {| pw_principal := principal; pw_used_asks := ws_used w; pw_best_ask := best; pw_limit_price := limit |}.

Fixpoint walk_shares (ceiling : Price) (asks : list AskLevel) (remaining : Z) (used_asks : list AskLevel) :
    result LadderError (list AskLevel) :=
  match asks with
  | [] => Err InsufficientDepth
  | level :: asks =>
      _ ← validate_level_order used_asks level;
      if price_ltb (ask_price level) minimum_price then Err BelowBandAsk
      else if above_band ceiling level then Err InsufficientDepth
      else if empty_level level then Err LadderAmount
      else
        let used := Z.min remaining (atomic (ask_shares level)) in
        '(remaining, used_asks) ←
          (if decide (used = 0) then Ok (remaining, used_asks)
           else
             rest ← ok_or (checked_sub_u64 remaining used) LadderAmount;
             Ok (rest, used_asks ++ [{| ask_price := ask_price level; ask_shares := from_atomic used |}]));
        if decide (remaining = 0) then Ok used_asks else walk_shares ceiling asks remaining used_asks
  end.

Definition first_eligible_ask (asks : list AskLevel) (ceiling : Price) : result LadderError Price :=
  match asks with
  | [] => Err InsufficientDepth
  | first :: _ =>
      if price_ltb (ask_price first) minimum_price then Err BelowBandAsk
      else if above_band ceiling first then Err InsufficientDepth
      else Ok (ask_price first)
  end.

(** [plan_exact_shares] and [plan_requested_shares], the canary's entry point. *)
Definition plan_exact_shares (asks : list AskLevel) (requested_shares : ShareAmount) (origin_ceiling : Price) :
    result LadderError LadderPlan :=
  if decide (requested_shares = amount_ZERO) then Err NothingAffordable
  else
    used ← walk_shares origin_ceiling asks (atomic requested_shares) [];
    best ← ok_or (ask_price <$> head used) InsufficientDepth;
    limit ← ok_or (ask_price <$> last used) InsufficientDepth;
    cost ← decimal_of (dec_checked_mul (to_decimal requested_shares) (price_value limit));
    principal ← amount_of (from_decimal_exact "CollateralAmount" cost);
    Ok {| used_asks := used; best_ask := best; plan_limit_price := limit; plan_shares := requested_shares;
          worst_case_debit := principal |}.

(** ** Plans *)
Context (chase_ceiling impact_ceiling : Price).
Definition plan_ceiling : Price := price_min chase_ceiling impact_ceiling.

Definition plan_principal_buy_with_scale (asks : list AskLevel) (principal : CollateralAmount) (signed_share_scale : Z)
    (partial_minimum : option ShareAmount) : result LadderError LadderPlan :=
  if decide (principal = amount_ZERO) then Err NothingAffordable
  else
    walked ← walk_principal asks principal (bool_decide (is_Some partial_minimum)) plan_ceiling;
    shares ← shares_for_principal (pw_principal walked) (pw_limit_price walked) signed_share_scale;
    if match partial_minimum with Some minimum => amount_ltb shares minimum | None => false end then Err BelowMinimum
    else if decide (shares = amount_ZERO) then Err NothingAffordable
    else
      let plan := {| used_asks := pw_used_asks walked; best_ask := pw_best_ask walked;
                     plan_limit_price := pw_limit_price walked; plan_shares := shares;
                     worst_case_debit := pw_principal walked |} in
      signed ← plan_signed_price plan;
      if price_ltb signed (plan_limit_price plan) then Err LadderAmount else Ok plan.

(** The loop of [plan_share_buy]: the principal that buys the requested shares at
    the first level whose depth covers it. *)
Fixpoint share_principal (requested : ShareAmount) (asks : list AskLevel) (available_principal : Decimal)
    (prior_price : option Price) : result LadderError (option CollateralAmount) :=
  match asks with
  | [] => Ok None
  | level :: asks =>
      if match prior_price with Some prior => price_ltb (ask_price level) prior | None => false end then Err LadderAmount
      else if price_ltb (ask_price level) minimum_price then Err BelowBandAsk
      else if above_band plan_ceiling level then Ok None
      else if empty_level level then Err LadderAmount
      else
        cost ← decimal_of (dec_checked_mul (to_decimal (ask_shares level)) (price_value (ask_price level)));
        available_principal ← decimal_of (dec_checked_add available_principal cost);
        required ← decimal_of (dec_checked_mul (to_decimal requested) (price_value (ask_price level)));
        if dec_leb required available_principal
        then principal ← amount_of (from_decimal_exact "CollateralAmount" required); Ok (Some principal)
        else share_principal requested asks available_principal (Some (ask_price level))
  end.
Definition plan_share_buy (asks : list AskLevel) (requested : ShareAmount) (signed_share_scale : Z)
    (minimum_order_size : ShareAmount) : result LadderError LadderPlan :=
  if amount_ltb requested minimum_order_size then Err BelowMinimum
  else
    signed_principal ← share_principal requested asks dec_ZERO None;
    signed_principal ← ok_or signed_principal InsufficientDepth;
    plan_principal_buy_with_scale asks signed_principal signed_share_scale None.
Definition plan_contract_buy (asks : list AskLevel) (contracts signed_share_scale : Z)
    (minimum_order_size : ShareAmount) : result LadderError LadderPlan :=
  requested ← whole_shares contracts;
  plan_share_buy asks requested signed_share_scale minimum_order_size.

Definition aggregate_all_in_price (plan : LadderPlan) (schedule : CompactFeeSchedule) (slippage_rate : Decimal) :
    result LadderError Price :=
  signed ← plan_signed_price plan;
  fee ← fee_of (taker_fee schedule (plan_shares plan) signed);
  debit ← amount_of (collateral_checked_add (worst_case_debit plan) fee);
  all_in ← decimal_of (price ← dec_checked_div (to_decimal debit) (to_decimal (plan_shares plan));
                       slip ← dec_checked_add dec_ONE slippage_rate;
                       dec_checked_mul price slip);
  map_err (λ _, NoKellyEdge) (Price_new all_in).

Definition plan_kelly_buy (asks : list AskLevel) (schedule : CompactFeeSchedule)
    (allocate : Price → result LadderError ShareAmount) (slippage_rate : Decimal) (signed_share_scale : Z)
    (minimum_order_size : ShareAmount) : result LadderError LadderPlan :=
  if dec_ltb slippage_rate dec_ZERO then Err NoKellyEdge
  else
    one ← whole_shares 1;
    one_share_plan ← plan_share_buy asks one signed_share_scale amount_ZERO;
    first_price ← aggregate_all_in_price one_share_plan schedule slippage_rate;
    first ← allocate first_price;
    if decide (first = amount_ZERO) then Err NoKellyEdge
    else
      candidate ← plan_share_buy asks first signed_share_scale minimum_order_size;
      aggregate_price ← aggregate_all_in_price candidate schedule slippage_rate;
      second ← allocate aggregate_price;
      let accepted := amount_min first second in
      if decide (accepted = amount_ZERO) then Err NoKellyEdge
      else if decide (accepted = first) then Ok candidate
      else plan_share_buy asks accepted signed_share_scale minimum_order_size.

(** The principal of a dollar budget; dust below the venue minimum is reported as such. *)
Definition plan_dollar_buy (asks : list AskLevel) (schedule : CompactFeeSchedule) (budget : CollateralAmount)
    (partial : bool) (best_ask : Price) (signed_share_scale : Z) (minimum_order_size : ShareAmount) :
    result LadderError LadderPlan :=
  principal ← fee_of (principal_for_budget schedule budget best_ask plan_ceiling);
  map_err (λ e, if bool_decide (e = NothingAffordable) && bool_decide (minimum_order_size ≠ amount_ZERO)
                then BelowMinimum else e)
    (plan_principal_buy_with_scale asks principal signed_share_scale
       (if partial then Some minimum_order_size else None)).

Definition smallest_cap (monetary_caps : list CollateralAmount) : CollateralAmount :=
  match monetary_caps with
  | [] => from_atomic U64_MAX
  | cap :: caps => foldl amount_min cap caps
  end.

Definition plan_sized_buy (asks : list AskLevel) (schedule : CompactFeeSchedule) (sizing : BuySizing)
    (monetary_caps : list CollateralAmount) (minimum_order_size : ShareAmount) (minimum_tick_size : Price) :
    result LadderError SizedBuyPlan :=
  signed_share_scale ← ok_or (scale ← checked_add_u32 (dec_normal_scale (price_value minimum_tick_size)) 2;
                              if scale <=? 6 then Some scale else None) LadderAmount;
  if price_eqb minimum_tick_size Price_ZERO then Err LadderAmount
  else
    best ← first_eligible_ask asks plan_ceiling;
    '(budget, ladder) ←
      match sizing with
      | Dollar budget =>
          plan ← plan_dollar_buy asks schedule budget false best signed_share_scale minimum_order_size; Ok (budget, plan)
      | DollarUpTo budget =>
          plan ← plan_dollar_buy asks schedule budget true best signed_share_scale minimum_order_size; Ok (budget, plan)
      | Contract contracts =>
          plan ← plan_contract_buy asks contracts signed_share_scale minimum_order_size; Ok (smallest_cap monetary_caps, plan)
      | Kelly allocate slippage_rate =>
          plan ← plan_kelly_buy asks schedule allocate slippage_rate signed_share_scale minimum_order_size;
          Ok (smallest_cap monetary_caps, plan)
      end;
    reserve ← fee_of (fee_reserve schedule (worst_case_debit ladder) (best_ask ladder) (plan_limit_price ladder));
    all_in ← amount_of (collateral_checked_add (worst_case_debit ladder) reserve);
    if amount_ltb budget all_in || existsb (λ cap, amount_ltb cap all_in) monetary_caps then Err CapExceeded
    else if amount_ltb (plan_shares ladder) minimum_order_size then Err BelowMinimum
    else Ok {| ladder := ladder; plan_budget := budget; plan_reserve := reserve |}.

End Walks.
End LadderModel.

(** ** Integers behind the decimals

    Book prices have at most six decimals.  On that grid every cost is a whole
    number of 10^-12 and the planner's decimal arithmetic is exact. *)

Section LadderFacts.
Context `{DL : DecimalLaws}.

Definition ticks (p : Price) : Z := Qfloor (pv p * inject_Z (10 ^ 6)).
Definition on_grid (p : Price) : Prop := (pv p == inject_Z (ticks p) / inject_Z (10 ^ 6))%Q ∧ 0 ≤ ticks p ≤ 10 ^ 6.
Definition level_ok (a : AskLevel) : Prop := amount_wf (ask_shares a) ∧ on_grid (ask_price a).
(** Shares and cost of some levels, in atomic units and in 10^-12. *)
Definition quantity (used : list AskLevel) : Z := sum_with (λ a, atomic (ask_shares a)) used.
Definition cost (used : list AskLevel) : Z := sum_with (λ a, atomic (ask_shares a) * ticks (ask_price a)) used.

(** [n] in units of 10^-12. *)
Definition pico (n : Z) : Q := inject_Z n / inject_Z (10 ^ 12).
Lemma pico_add m n : (pico m + pico n == pico (m + n))%Q.
Proof. unfold pico. rewrite inject_Z_plus. field. discriminate. Qed.
Lemma pico_sub m n : (pico m - pico n == pico (m - n))%Q.
Proof. unfold pico, Z.sub. rewrite inject_Z_plus, inject_Z_opp. field. discriminate. Qed.
Lemma pico_le m n : (pico m <= pico n)%Q ↔ m ≤ n.
Proof.
  rewrite (Zle_Qle m n). unfold pico, Qdiv. apply Qmult_le_r. by vm_compute.
Qed.
Lemma pico_lt m n : (pico m < pico n)%Q ↔ m < n.
Proof. rewrite <- Z.nle_gt, <- pico_le. split; [apply Qlt_not_le|apply Qnot_le_lt]. Qed.

Lemma representable_pico n : Z.abs n < 2 ^ 96 → representable (pico n).
Proof. intros Hn. by exists n, 12. Qed.
Lemma units_pico a : (units a == pico (atomic a * 10 ^ 6))%Q.
Proof.
  unfold units, pico. rewrite inject_Z_mult. change (inject_Z (10 ^ 12)) with (inject_Z ATOMIC_SCALE * inject_Z (10 ^ 6))%Q.
  field. split; discriminate.
Qed.
Lemma on_grid_pico p : on_grid p → (pv p == pico (ticks p * 10 ^ 6))%Q.
Proof.
  intros [-> _]. unfold pico. rewrite inject_Z_mult. change (inject_Z (10 ^ 12)) with (inject_Z (10 ^ 6) * inject_Z (10 ^ 6))%Q.
  field. discriminate.
Qed.

(** Exact operations on the grid. *)
Lemma cost_exact a p c : amount_wf a → on_grid p → dec_checked_mul (to_decimal a) (price_value p) = Some c →
  (dec_value c == pico (atomic a * ticks p))%Q.
Proof.
  intros Ha [Hp Hb] H%dec_checked_mul_rounds.
  assert (dec_value (to_decimal a) * dec_value (price_value p) == pico (atomic a * ticks p))%Q as Hv.
  { fold (pv p). rewrite (to_decimal_units a Ha), Hp. unfold units, pico. rewrite inject_Z_mult.
    change (inject_Z (10 ^ 12)) with (inject_Z ATOMIC_SCALE * inject_Z (10 ^ 6))%Q. field. split; discriminate. }
  rewrite Hv in H. apply rounds_to_eq in H; [done|]. apply representable_pico.
  unfold amount_wf, is_u64, U64_MAX in Ha. nia.
Qed.
Lemma add_exact a b c m n : dec_checked_add a b = Some c → (dec_value a == pico m)%Q → (dec_value b == pico n)%Q →
  Z.abs (m + n) < 2 ^ 96 → (dec_value c == pico (m + n))%Q.
Proof.
  intros H%dec_checked_add_rounds Ha Hb Hn. rewrite Ha, Hb, pico_add in H.
  apply rounds_to_eq in H; [done|]. by apply representable_pico.
Qed.
Lemma sub_exact a b c m n : dec_checked_sub a b = Some c → (dec_value a == pico m)%Q → (dec_value b == pico n)%Q →
  Z.abs (m - n) < 2 ^ 96 → (dec_value c == pico (m - n))%Q.
Proof.
  intros H%dec_checked_sub_rounds Ha Hb Hn. rewrite Ha, Hb, pico_sub in H.
  apply rounds_to_eq in H; [done|]. by apply representable_pico.
Qed.

(** Flooring a rounded quotient of grid numbers is integer division. *)
Lemma quotient_floor (q : Q) R z s : rounds_to (pico R / (inject_Z z / inject_Z (10 ^ 6))) q →
  0 < z ≤ 10 ^ 6 → 0 ≤ R → R / z < 10 ^ 22 → 0 ≤ s ≤ 6 →
  Qfloor (q * inject_Z (10 ^ s)) = R / z / 10 ^ (6 - s).
Proof.
  intros Hq Hz HR Hb Hs. set (k := R / z) in *. set (w := 10 ^ (6 - s)).
  assert (10 ^ 6 = 10 ^ s * w ∧ 0 < w ∧ 0 < 10 ^ s) as (Hw & Hw0 & Hs0).
  { unfold w. split_and!; [rewrite <- Z.pow_add_r by lia; f_equal; lia|apply Z.pow_pos_nonneg; lia..]. }
  assert (0 < inject_Z z)%Q as Hzq by (rewrite <- (Zlt_Qlt 0); lia).
  set (x := (pico R / (inject_Z z / inject_Z (10 ^ 6)))%Q) in *.
  assert (x * inject_Z z == pico (R * 10 ^ 6))%Q as Hx.
  { unfold x, pico. rewrite inject_Z_mult. field. split_and!; first [lra | discriminate]. }
  assert (k * z ≤ R < (k + 1) * z) as [Hk1 Hk2].
  { unfold k. pose proof (Z.div_mod R z). pose proof (Z.mod_pos_bound R z). lia. }
  assert (0 ≤ k) as Hk0 by (apply Z.div_pos; lia).
  assert (pico (k * 10 ^ 6) <= q)%Q as Hlo.
  { eapply rounds_to_ge; [exact Hq|apply representable_pico; lia|]. apply (Qmult_le_r _ _ (inject_Z z)); [done|]. rewrite Hx.
    assert (pico (k * 10 ^ 6) * inject_Z z == pico (k * z * 10 ^ 6))%Q as -> by (unfold pico; rewrite !inject_Z_mult; field; discriminate).
    apply pico_le. lia. }
  assert (q <= pico ((k + 1) * 10 ^ 6 - 1))%Q as Hhi.
  { eapply rounds_to_le; [exact Hq|apply representable_pico; lia|]. apply (Qmult_le_r _ _ (inject_Z z)); [done|]. rewrite Hx.
    assert (pico ((k + 1) * 10 ^ 6 - 1) * inject_Z z == pico (((k + 1) * 10 ^ 6 - 1) * z))%Q as ->
      by (unfold pico; rewrite !inject_Z_mult; field; discriminate).
    apply pico_le. nia. }
  assert (0 < inject_Z (10 ^ s))%Q as Hsq by (by rewrite <- (Zlt_Qlt 0)).
  assert (0 < inject_Z (w * 10 ^ 6))%Q as Hwq by (rewrite <- (Zlt_Qlt 0); lia).
  assert (∀ n, pico n * inject_Z (10 ^ s) == inject_Z n / inject_Z (w * 10 ^ 6))%Q as Hscale.
  { intros n. unfold pico. assert (inject_Z (10 ^ 12) == inject_Z (10 ^ s) * inject_Z (w * 10 ^ 6))%Q as ->.
    { rewrite <- inject_Z_mult. apply inject_Z_injective. change (10 ^ 12) with (10 ^ 6 * 10 ^ 6). rewrite Hw at 1. ring. }
    field. split; intros E; lra. }
  pose proof (Z.div_mod k w) as Hdm. pose proof (Z.mod_pos_bound k w) as Hmb.
  apply Z.le_antisymm.
  - cut (Qfloor (q * inject_Z (10 ^ s)) < k / w + 1); [lia|]. rewrite Zlt_Qlt.
    eapply Qle_lt_trans; [apply Qfloor_le|]. eapply Qle_lt_trans; [apply Qmult_le_compat_r; [exact Hhi|lra]|].
    rewrite Hscale. apply Qlt_shift_div_r; [done|]. rewrite <- inject_Z_mult, <- Zlt_Qlt. nia.
  - rewrite <- (Qfloor_Z (k / w)). apply Qfloor_resp_le.
    eapply Qle_trans; [|apply Qmult_le_compat_r; [exact Hlo|lra]]. rewrite Hscale.
    apply Qle_shift_div_l; [done|]. rewrite <- inject_Z_mult, <- Zle_Qle. nia.
Qed.

(** A quotient of grid numbers floored to [s] decimals is a whole number of atomic
    units, the integer quotient cut to its grid. *)
Lemma floored_quotient field q R z s a : from_decimal_exact field (dec_round_floor s q) = Ok a →
  rounds_to (pico R / (inject_Z z / inject_Z (10 ^ 6))) (dec_value q) → 0 < z ≤ 10 ^ 6 → 0 ≤ R → 0 ≤ s ≤ 6 →
  amount_wf a ∧ R / z < 10 ^ 22 ∧ atomic a = 10 ^ (6 - s) * (R / z / 10 ^ (6 - s))
  ∧ (units a <= dec_value q <= units a + 1)%Q.
Proof.
  intros Ha Hq Hz HR Hs. set (w := 10 ^ (6 - s)).
  assert (10 ^ 6 = 10 ^ s * w ∧ 0 < w ≤ 10 ^ 6 ∧ 0 < 10 ^ s) as (Hw & Hw0 & Hs0).
  { unfold w. split_and!; [rewrite <- Z.pow_add_r by lia; f_equal; lia|apply Z.pow_pos_nonneg; lia| |apply Z.pow_pos_nonneg; lia].
    apply Z.pow_le_mono_r; lia. }
  set (fl := Qfloor (dec_value q * inject_Z (10 ^ s))).
  assert (0 < inject_Z (10 ^ s) ∧ 0 < inject_Z w)%Q as [Hsq Hwq] by (rewrite <- !(Zlt_Qlt 0); lia).
  apply (from_decimal_exact_whole _ _ _ (w * fl)) in Ha as [-> Hu].
  2:{ rewrite dec_round_floor_value by lia. fold fl. change ATOMIC_SCALE with (10 ^ 6). rewrite Hw, !inject_Z_mult. field.
      split_and?; intros E; lra. }
  assert (R / z < 10 ^ 22) as Hb.
  { destruct (decide (R / z < 10 ^ 22)) as [|Hn]; [done|]. exfalso.
    assert (inject_Z (10 ^ 16) <= dec_value q)%Q as Hlo.
    { eapply rounds_to_ge; [exact Hq|apply representable_Z; lia|].
      assert (0 < inject_Z z)%Q as Hzq by (rewrite <- (Zlt_Qlt 0); lia).
      apply (Qmult_le_r _ _ (inject_Z z)); [done|].
      assert (pico R / (inject_Z z / inject_Z (10 ^ 6)) * inject_Z z == pico (R * 10 ^ 6))%Q as ->.
      { unfold pico. rewrite inject_Z_mult. field. split_and!; first [lra | discriminate]. }
      assert (inject_Z (10 ^ 16) * inject_Z z == pico (10 ^ 28 * z))%Q as ->.
      { unfold pico. rewrite inject_Z_mult. change (10 ^ 28) with (10 ^ 16 * 10 ^ 12). rewrite inject_Z_mult. field. discriminate. }
      apply pico_le. pose proof (Z.div_mod R z). pose proof (Z.mod_pos_bound R z). nia. }
    assert (10 ^ 16 * 10 ^ s ≤ fl).
    { unfold fl. rewrite <- (Qfloor_Z (_ * _)). apply Qfloor_resp_le. rewrite inject_Z_mult. apply Qmult_le_compat_r; [done|lra]. }
    unfold is_u64, U64_MAX in Hu. nia. }
  pose proof (quotient_floor _ R z s Hq Hz HR Hb Hs) as Hfl. fold fl in Hfl. fold w in Hfl.
  split_and!; [done|done|cbn [atomic]; by rewrite Hfl| |].
  - unfold units. cbn [atomic]. apply Qle_shift_div_r; [done|]. change ATOMIC_SCALE with (10 ^ 6). rewrite Hw, !inject_Z_mult.
    pose proof (Qfloor_le (dec_value q * inject_Z (10 ^ s))) as Hle. fold fl in Hle.
    assert (0 <= inject_Z w)%Q by (rewrite <- (Zle_Qle 0); lia).
    apply (Qmult_le_compat_r _ _ (inject_Z w)) in Hle; [|done]. lra.
  - pose proof (Qlt_floor (dec_value q * inject_Z (10 ^ s))) as Hlt. fold fl in Hlt. rewrite inject_Z_plus in Hlt.
    change (inject_Z 1) with 1%Q in Hlt. apply (Qmult_le_r _ _ (inject_Z (10 ^ s))); [done|].
    assert (units (from_atomic (w * fl)) * inject_Z (10 ^ s) == inject_Z fl)%Q as E.
    { unfold units. cbn [atomic]. change ATOMIC_SCALE with (10 ^ 6). rewrite Hw, !inject_Z_mult. field.
      split_and?; intros E; lra. }
    assert (1 <= inject_Z (10 ^ s))%Q by (rewrite <- (Zle_Qle 1); lia). lra.
Qed.
(** An exact conversion of a grid cost: the cost has no sub-atomic part. *)
Lemma exact_pico field d a n : from_decimal_exact field d = Ok a → (dec_value d == pico n)%Q → 0 ≤ n < 2 ^ 94 →
  amount_wf a ∧ atomic a * 10 ^ 6 = n.
Proof.
  intros H Hd Hn. assert (Hq := H). unfold from_decimal_exact in Hq. destruct (dec_is_sign_negative d); [done|].
  apply result_bind_Ok in Hq as (v & Hv%ok_or_Ok & Hq). case_bool_decide as Hf; [done|].
  apply dec_checked_mul_rounds in Hv. rewrite Hd, dec_from_value in Hv.
  assert (pico n * inject_Z ATOMIC_SCALE == inject_Z n / inject_Z (10 ^ 6))%Q as Hs.
  { unfold pico. change (inject_Z (10 ^ 12)) with (inject_Z ATOMIC_SCALE * inject_Z (10 ^ 6))%Q. field. split; discriminate. }
  rewrite Hs in Hv. apply rounds_to_eq in Hv; [|exists n, 6; split_and!; [lia|lia|lia|done]].
  assert (∃ k, dec_value v == inject_Z k)%Q as [k Hk].
  { apply dec_fract_value. destruct (dec_cmp (dec_fract v) dec_ZERO) eqn:E; [|done..].
    rewrite dec_cmp_value, dec_ZERO_value in E. by apply Qeq_alt. }
  assert (n = k * 10 ^ 6) as ->.
  { apply inject_Z_injective. rewrite inject_Z_mult, <- Hk, Hv. field. discriminate. }
  destruct (from_decimal_exact_whole _ _ _ k H) as [-> Hu]; [|done].
  rewrite Hd, Hs, inject_Z_mult. field. discriminate.
Qed.

(** *** Comparisons on the grid *)
Lemma grid_le p p' : on_grid p → on_grid p' → (pv p <= pv p')%Q ↔ ticks p ≤ ticks p'.
Proof. intros Hp Hp'. rewrite (on_grid_pico p Hp), (on_grid_pico p' Hp'), pico_le. lia. Qed.
Lemma price_ltb_grid p p' : on_grid p → on_grid p' → price_ltb p p' = false ↔ ticks p' ≤ ticks p.
Proof. intros Hp Hp'. unfold price_ltb. rewrite dec_ltb_ge. by apply grid_le. Qed.
Lemma price_zero_grid p : on_grid p → price_eqb p Price_ZERO = false → 0 < ticks p.
Proof.
  intros Hp H. destruct (decide (ticks p = 0)) as [E|]; [|destruct Hp; lia]. exfalso. apply not_true_iff_false in H. apply H.
  unfold price_eqb. apply dec_eqb_eq. fold (pv p). rewrite (proj1 Hp), E. simpl. rewrite dec_ZERO_value. done.
Qed.
Lemma amount_positive a : amount_wf a → a ≠ amount_ZERO → 0 < atomic a.
Proof.
  intros [Ha _] Hne. destruct (decide (atomic a = 0)) as [E|]; [|lia]. exfalso. apply Hne. by rewrite <- (amount_eta a), E.
Qed.
Lemma empty_level_false a : level_ok a → empty_level a = false → 0 < ticks (ask_price a) ∧ 0 < atomic (ask_shares a).
Proof.
  intros [Ha Hp] [H1 H2%bool_decide_eq_false]%orb_false_iff. split; [by apply price_zero_grid|].
  by apply amount_positive.
Qed.

Lemma cost_app l1 l2 : cost (l1 ++ l2) = cost l1 + cost l2.
Proof. apply sum_with_app. Qed.
Lemma cost_nonneg l : Forall level_ok l → 0 ≤ cost l.
Proof.
  intros H. apply sum_with_nonneg. eapply Forall_impl; [exact H|]. intros a [Ha Hp]. destruct Ha, Hp. nia.
Qed.

(** *** What a walk visits *)

(** Levels of the band, in price order and not empty. *)
Definition eligible (minimum_price maximum_price_exclusive ceiling : Price) (a : AskLevel) : Prop :=
  level_ok a ∧ price_ltb (ask_price a) minimum_price = false
  ∧ above_band maximum_price_exclusive ceiling a = false ∧ empty_level a = false.
Definition price_order (a b : AskLevel) : Prop := ticks (ask_price a) ≤ ticks (ask_price b).

(** [used] fills the visited levels, the last of them possibly in part. *)
Definition fills (used visited : list AskLevel) : Prop :=
  used = visited ∨ ∃ pre level a, visited = pre ++ [level] ∧ 0 ≤ atomic a < atomic (ask_shares level)
    ∧ used = pre ++ (if decide (a = amount_ZERO) then [] else [{| ask_price := ask_price level; ask_shares := a |}]).

Section WalkFacts.
Context (minimum_price maximum_price_exclusive ceiling : Price).
#[local] Abbreviation eligible := (eligible minimum_price maximum_price_exclusive ceiling).
#[local] Abbreviation loop := (walk_principal_loop minimum_price maximum_price_exclusive ceiling).

(** The state of the walk after the levels [pre] were used up. *)
Record at_level (D : Z) (pre : list AskLevel) (w : WalkState) : Prop := {
  al_used : ws_used w = pre;
  al_remaining : (dec_value (ws_remaining w) == pico (D - cost pre))%Q;
  al_capacity : (dec_value (ws_capacity w) == pico (cost pre))%Q;
  al_best : ws_best w = ask_price <$> head pre;
  al_limit : ws_limit w = ask_price <$> last pre
}.
(** A finished walk for [D] (in 10^-12). *)
Definition walked (D : Z) (asks : list AskLevel) (w : WalkState) : Prop :=
  ∃ visited, visited `prefix_of` asks ∧ Forall eligible visited ∧ StronglySorted price_order visited
    ∧ fills (ws_used w) visited
    ∧ (dec_value (ws_capacity w) == pico (cost visited))%Q
    ∧ ws_best w = ask_price <$> head visited ∧ ws_limit w = ask_price <$> last visited
    ∧ cost (ws_used w) ≤ D ∧ (∀ pre l, visited = pre ++ [l] → cost pre < D)
    ∧ ((ws_used w = visited ∧ cost visited ≤ D)
       ∨ (D ≤ cost visited ∧ ∃ l, last visited = Some l ∧ D < cost (ws_used w) + ticks (ask_price l))).

Lemma head_snoc {A} (l : list A) x : head (l ++ [x]) = Some (default x (head l)).
Proof. by destruct l. Qed.

Lemma order_snoc used level : Forall eligible used → level_ok level → StronglySorted price_order used →
  validate_level_order used level = Ok tt → StronglySorted price_order (used ++ [level]).
Proof.
  intros Hu Hl Hs Hv. apply StronglySorted_app_2; [|done|by repeat constructor]. intros a b Ha ->%list_elem_of_singleton.
  unfold validate_level_order in Hv. destruct (last used) as [prior|] eqn:E.
  2:{ apply last_None in E. subst used. set_solver. }
  destruct (price_ltb _ _) eqn:Hp; [done|].
  apply last_Some in E as [l' ->]. rewrite Forall_app, Forall_singleton in Hu. destruct Hu as [_ ((_ & Hg) & _)].
  apply price_ltb_grid in Hp; [|apply Hl|done]. unfold price_order.
  apply elem_of_app in Ha as [Ha| ->%list_elem_of_singleton]; [|done].
  apply StronglySorted_app in Hs as (Hs & _ & _). specialize (Hs a prior Ha ltac:(by left)). unfold price_order in Hs. lia.
Qed.

(** One whole level: the state moves on. *)
Lemma at_level_snoc D pre w level c rem cap : at_level D pre w → level_ok level →
  dec_checked_mul (to_decimal (ask_shares level)) (price_value (ask_price level)) = Some c →
  dec_checked_add (ws_capacity w) c = Some cap → dec_checked_sub (ws_remaining w) c = Some rem →
  Forall level_ok pre → cost pre ≤ D < 2 ^ 94 → 
  at_level D (pre ++ [level])
    {| ws_remaining := rem; ws_used := ws_used w ++ [level]; ws_capacity := cap;
       ws_best := Some (default (ask_price level) (ws_best w)); ws_limit := Some (ask_price level) |}.
Proof.
  intros [Hu Hr Hc Hb Hl] [Ha Hg] Hm Hadd Hsub Hpre Hcost.
  pose proof (cost_exact _ _ _ Ha Hg Hm) as Hmv. pose proof (cost_nonneg _ Hpre).
  assert (0 ≤ atomic (ask_shares level) * ticks (ask_price level) < 2 ^ 94) as Hn.
  { destruct Hg as [_ Hg]. unfold amount_wf, is_u64, U64_MAX in Ha. nia. }
  assert (cost (pre ++ [level]) = cost pre + atomic (ask_shares level) * ticks (ask_price level)) as Hs.
  { rewrite cost_app. unfold cost at 2. simpl. lia. }
  split; simpl; [by rewrite Hu| | |by rewrite Hb, head_snoc; destruct (head pre)|by rewrite last_snoc].
  - rewrite (sub_exact _ _ _ _ _ Hsub Hr Hmv) by lia. by rewrite Hs, Z.sub_add_distr.
  - rewrite (add_exact _ _ _ _ _ Hadd Hc Hmv) by lia. by rewrite Hs.
Qed.

(** The last level, bought in part. *)
Lemma partial_level D pre w level q a : at_level D pre w → level_ok level → 0 < ticks (ask_price level) →
  dec_checked_div (ws_remaining w) (price_value (ask_price level)) = Some q → decimal_to_atomic_shares q = Ok a →
  cost pre ≤ D → D - cost pre < atomic (ask_shares level) * ticks (ask_price level) →
  0 ≤ atomic a < atomic (ask_shares level)
  ∧ atomic a * ticks (ask_price level) ≤ D - cost pre < (atomic a + 1) * ticks (ask_price level).
Proof.
  intros [_ Hr _ _ _] [Ha Hg] Hz Hdiv Hq%map_err_Ok Hle Hlt.
  apply dec_checked_div_rounds in Hdiv as [_ Hdiv]. rewrite Hr in Hdiv. fold (pv (ask_price level)) in Hdiv. rewrite (proj1 Hg) in Hdiv.
  apply (floored_quotient _ _ _ _ _ _ Hq) in Hdiv as (_ & _ & Hat & _); [|destruct Hg; lia|lia|lia].
  change (10 ^ (6 - 6)) with 1 in Hat. rewrite Z.div_1_r, Z.mul_1_l in Hat. rewrite Hat.
  set (z := ticks (ask_price level)) in *. set (R := D - cost pre) in *.
  pose proof (Z.div_mod R z). pose proof (Z.mod_pos_bound R z). assert (0 ≤ R / z) by (apply Z.div_pos; lia). nia.
Qed.

(** A walk that stops between levels. *)
Lemma cost_snoc_lt l a : eligible a → cost l < cost (l ++ [a]).
Proof. intros (Hk & _ & _ & He). destruct (empty_level_false _ Hk He). rewrite cost_app. unfold cost at 3. simpl. nia. Qed.
Lemma at_level_walked D pre w asks : at_level D pre w → cost pre ≤ D → Forall eligible pre →
  StronglySorted price_order pre → walked D (pre ++ asks) w.
Proof.
  intros [Hu Hr Hc Hb Hl] HD Hel Hs. exists pre. rewrite Hu.
  split_and!; try done; [by apply prefix_app_r|by left| |by left].
  intros pre' l ->. rewrite Forall_app, Forall_singleton in Hel. pose proof (cost_snoc_lt pre' l (proj2 Hel)). lia.
Qed.

(** The walk: it visits a prefix of the book in the band and in price order, and
    fills it as far as the principal reaches. *)
Lemma loop_walked D asks pre w w' : at_level D pre w → cost pre < D < 2 ^ 94 → Forall eligible pre →
  StronglySorted price_order pre → Forall level_ok asks → loop asks w = Ok w' → walked D (pre ++ asks) w'.
Proof.
  revert pre w. induction asks as [|level asks IH]; intros pre w Hat HD Hel Hs Hok H.
  - injection H as <-. rewrite app_nil_r. rewrite <- (app_nil_r pre); apply at_level_walked; try done; lia.
  - inversion_clear Hok as [|? ? Hlv Hok']. assert (Forall level_ok pre) as Hpre by (eapply Forall_impl; [exact Hel|by intros ? []]).
    cbn [walk_principal_loop] in H. apply result_bind_Ok in H as ([] & Hord & H).
    destruct (price_ltb _ _) eqn:Hmin; [done|]. destruct (above_band _ _ _) eqn:Hab.
    { injection H as <-. apply at_level_walked; try done. lia. }
    destruct (empty_level level) eqn:Hem; [done|].
    apply result_bind_Ok in H as (c & Hc%ok_or_Ok & H). apply result_bind_Ok in H as (cap & Hcap%ok_or_Ok & H).
    destruct (empty_level_false _ Hlv Hem) as [Hz Hsh].
    assert (StronglySorted price_order (pre ++ [level])) as Hs'.
    { apply order_snoc; try done. by rewrite <- (al_used _ _ _ Hat). }
    assert (Forall eligible (pre ++ [level])) as Hel' by (apply Forall_app; split; [done|by apply Forall_singleton]).
    pose proof (cost_exact _ _ _ (proj1 Hlv) (proj2 Hlv) Hc) as Hcv.
    assert (cost (pre ++ [level]) = cost pre + atomic (ask_shares level) * ticks (ask_price level)) as Hcs.
    { rewrite cost_app. unfold cost at 2. simpl. lia. }
    destruct (dec_leb c (ws_remaining w)) eqn:Hle.
    + apply result_bind_Ok in H as (rem & Hrem%ok_or_Ok & H).
      apply dec_leb_le in Hle. rewrite Hcv, (al_remaining _ _ _ Hat), pico_le in Hle.
      pose proof (at_level_snoc _ _ _ _ _ _ _ Hat Hlv Hc Hcap Hrem Hpre ltac:(lia)) as Hat'.
      rewrite cons_middle, app_assoc. destruct (dec_eqb rem dec_ZERO) eqn:Hz0.
      * injection H as <-. apply at_level_walked; try done. lia.
      * apply (IH _ _ Hat'); try done. destruct (decide (cost (pre ++ [level]) = D)) as [E|]; [|lia].
        exfalso. apply not_true_iff_false in Hz0. apply Hz0, dec_eqb_eq. pose proof (al_remaining _ _ _ Hat') as Hr.
        cbn [ws_remaining] in Hr. rewrite Hr, E, Z.sub_diag, dec_ZERO_value. done.
    + apply result_bind_Ok in H as (q & Hq%ok_or_Ok & H). apply result_bind_Ok in H as (a & Ha & H). injection H as <-.
      apply dec_leb_gt in Hle. rewrite Hcv, (al_remaining _ _ _ Hat), pico_lt in Hle.
      destruct (partial_level _ _ _ _ _ _ Hat Hlv Hz Hq Ha) as ([A0 A1] & A2 & A3); [lia..|].
      assert (Hat2 := Hat). destruct Hat2 as [Hu Hr Hcp Hb Hl].
      set (used := if decide (a = amount_ZERO) then ws_used w else _).
      assert (used = pre ++ (if decide (a = amount_ZERO) then [] else [{| ask_price := ask_price level; ask_shares := a |}])) as Hused.
      { unfold used. rewrite Hu. destruct (decide _); [by rewrite app_nil_r|done]. }
      assert (cost used = cost pre + atomic a * ticks (ask_price level)) as Hcu.
      { rewrite Hused, cost_app. f_equal. destruct (decide (a = amount_ZERO)) as [->|]; unfold cost; simpl; lia. }
      exists (pre ++ [level]). cbn [ws_used ws_capacity ws_best ws_limit].
      split_and!; [exists asks; by rewrite <- app_assoc|done|done| | | | |lia| |].
      * right. exists pre, level, a. by split_and!.
      * rewrite (add_exact _ _ _ _ _ Hcap Hcp Hcv); [by rewrite Hcs|].
        destruct Hlv as [Hlv [_ Hg]]. unfold amount_wf, is_u64, U64_MAX in Hlv. pose proof (cost_nonneg _ Hpre). nia.
      * rewrite Hb, head_snoc. by destruct (head pre).
      * by rewrite last_snoc.
      * intros pre' l [-> _]%app_inj_2; [lia|done].
      * right. split; [lia|]. exists level. rewrite last_snoc. split; [done|]. lia.
Qed.

Lemma start_at_level P : amount_wf P →
  at_level (atomic P * 10 ^ 6) []
    {| ws_remaining := to_decimal P; ws_used := []; ws_capacity := dec_ZERO; ws_best := None; ws_limit := None |}.
Proof.
  intros HP. split; simpl; [done| | |done|done].
  - rewrite (to_decimal_units P HP), units_pico. unfold cost. simpl. by rewrite Z.sub_0_r.
  - rewrite dec_ZERO_value. by unfold cost, pico.
Qed.
Lemma floor_pico n : Qfloor (pico n * inject_Z (10 ^ 6)) = n / 10 ^ 6.
Proof.
  unfold pico. change (10 ^ 12) with (10 ^ 6 * 10 ^ 6). rewrite inject_Z_mult.
  assert (inject_Z n / (inject_Z (10 ^ 6) * inject_Z (10 ^ 6)) * inject_Z (10 ^ 6) == n # 1000000)%Q as ->; [|done].
  rewrite (Qmake_Qdiv n 1000000). change (Zpos 1000000) with (10 ^ 6). field. discriminate.
Qed.
Lemma collateral_floor_pico d a n : collateral_floor d = Ok a → (dec_value d == pico n)%Q → a = from_atomic (n / 10 ^ 6) ∧ amount_wf a.
Proof.
  intros H%map_err_Ok Hd. apply (from_decimal_exact_whole _ _ _ (n / 10 ^ 6)) in H as [-> ?]; [done|].
  rewrite dec_round_floor_value, Hd, floor_pico by done. change ATOMIC_SCALE with (10 ^ 6). field. discriminate.
Qed.

(** What [walk_principal] returns for [P]: the principal the visited levels offer,
    within [P], of which less than one tick stays unspent. *)
Record walk_result (asks : list AskLevel) (P : CollateralAmount) (pw : PrincipalWalk) (visited : list AskLevel) : Prop := {
  wr_prefix : visited `prefix_of` asks;
  wr_eligible : Forall eligible visited;
  wr_order : StronglySorted price_order visited;
  wr_fills : fills (pw_used_asks pw) visited;
  wr_best : ask_price <$> head visited = Some (pw_best_ask pw);
  wr_limit : ask_price <$> last visited = Some (pw_limit_price pw);
  wr_wf : amount_wf (pw_principal pw);
  wr_principal : atomic (pw_principal pw) ≤ atomic P;
  wr_depth : atomic (pw_principal pw) * 10 ^ 6 ≤ cost visited;
  wr_spend : cost (pw_used_asks pw) / 10 ^ 6 ≤ atomic (pw_principal pw);
  wr_unspent : atomic (pw_principal pw) * 10 ^ 6 < cost (pw_used_asks pw) + ticks (pw_limit_price pw);
  wr_minimal : ∀ pre l, visited = pre ++ [l] → cost pre < atomic P * 10 ^ 6
}.
Lemma walk_principal_Ok asks P partial pw : amount_wf P → P ≠ amount_ZERO → Forall level_ok asks →
  walk_principal minimum_price maximum_price_exclusive asks P partial ceiling = Ok pw →
  ∃ visited, walk_result asks P pw visited.
Proof.
  intros HP Hne Hok H. unfold walk_principal in H. apply result_bind_Ok in H as (w & Hw & H).
  set (D := atomic P * 10 ^ 6). pose proof (amount_positive P HP Hne).
  assert (0 < D < 2 ^ 94) as HD by (unfold D; unfold amount_wf, is_u64, U64_MAX in HP; lia).
  destruct (loop_walked D asks [] _ w (start_at_level P HP) HD (Forall_nil_2 _) (SSorted_nil _) Hok Hw)
    as (v & Hpre & Hel & Hord & Hfill & Hcap & Hb & Hl & Hspend & Hmin & Hend).
  destruct (negb partial && _) eqn:Hdepth; [done|].
  apply result_bind_Ok in H as (P' & HP' & H). apply result_bind_Ok in H as (best & Hbest%ok_or_Ok & H).
  apply result_bind_Ok in H as (limit & Hlimit%ok_or_Ok & H). injection H as <-. exists v.
  rewrite Hb in Hbest. rewrite Hl in Hlimit. apply fmap_Some in Hlimit as (lv & Hlv & ->).
  assert (0 < ticks (ask_price lv)) as Hz.
  { apply last_Some in Hlv as [v' ->]. rewrite Forall_app, Forall_singleton in Hel. destruct Hel as [_ (Hk & _ & _ & He)].
    by apply empty_level_false. }
  assert (amount_wf P' ∧ atomic P' ≤ atomic P ∧ atomic P' * 10 ^ 6 ≤ cost v ∧ (P' = P ∨ atomic P' = cost v / 10 ^ 6)) as (Q1 & Q2 & Q3 & Q4).
  { destruct partial.
    - apply result_bind_Ok in HP' as (c & Hc & HP'). injection HP' as <-.
      apply (collateral_floor_pico _ _ _ Hc) in Hcap as [-> Hcw].
      unfold amount_wf, is_u64, amount_min in *. cbn [atomic] in *. pose proof (Z.div_mod (cost v) (10 ^ 6)).
      pose proof (Z.mod_pos_bound (cost v) (10 ^ 6)). split_and!; try lia.
      destruct (Z.min_spec (atomic P) (cost v / 10 ^ 6)) as [[_ E]|[_ E]]; rewrite E; [left; apply amount_eta|by right].
    - injection HP' as <-. cbn [negb andb] in Hdepth. apply dec_ltb_ge in Hdepth.
      rewrite (to_decimal_units P HP), units_pico, Hcap, pico_le in Hdepth. split_and!; [done|lia|done|by left]. }
  pose proof (Z.div_mod (cost v) (10 ^ 6)). pose proof (Z.mod_pos_bound (cost v) (10 ^ 6)).
  pose proof (Z.div_le_mono (cost (ws_used w)) D (10 ^ 6) eq_refl Hspend) as Hsp. unfold D in Hsp. rewrite Z.div_mul in Hsp by done.
  split; cbn [pw_used_asks pw_best_ask pw_limit_price pw_principal]; try done.
  - by rewrite Hlv.
  - destruct Q4 as [->|Q4]; [done|]. destruct Hend as [[Hu _]|[Hc _]]; [by rewrite Hu, Q4|].
    apply (Z.div_le_mono _ _ (10 ^ 6) eq_refl) in Hc. unfold D in Hc. rewrite Z.div_mul in Hc by done. lia.
  - destruct Hend as [[Hu _]|(_ & l & Hl' & Hlt)]; [rewrite Hu; lia|]. rewrite Hlv in Hl'. injection Hl' as <-. unfold D in Hlt. lia.
Qed.
End WalkFacts.

(** Every used ask is at most at the price of the last level visited. *)
Lemma sorted_last l x : StronglySorted price_order (l ++ [x]) → Forall (λ a, price_order a x) l.
Proof.
  intros Hs. apply StronglySorted_app in Hs as (Hs & _ & _). apply Forall_forall. intros a Ha. apply Hs; [done|by left].
Qed.
Lemma fills_below used visited l : fills used visited → StronglySorted price_order visited → last visited = Some l →
  Forall (λ a, 0 ≤ atomic (ask_shares a)) visited →
  Forall (λ a, 0 ≤ atomic (ask_shares a) ∧ ticks (ask_price a) ≤ ticks (ask_price l)) used.
Proof.
  intros Hf Hs [v' ->]%last_Some Hnn. apply Forall_app in Hnn as [Hn Hn']. apply sorted_last in Hs as Hle.
  assert (Forall (λ a, 0 ≤ atomic (ask_shares a) ∧ ticks (ask_price a) ≤ ticks (ask_price l)) v') as Hv.
  { apply Forall_and. by split. }
  destruct Hf as [->|(pre & lv & a & E & Ha & ->)].
  - apply Forall_app. split; [done|]. inversion_clear Hn'. by repeat constructor.
  - apply app_inj_2 in E as [<- [= <-]]; [|done]. apply Forall_app. split; [done|].
    destruct (decide _); repeat constructor; simpl; lia.
Qed.
Lemma cost_below used z : Forall (λ a, 0 ≤ atomic (ask_shares a) ∧ ticks (ask_price a) ≤ z) used → cost used ≤ quantity used * z.
Proof. unfold cost, quantity. induction 1 as [|a l [? ?] _ IH]; simpl; [lia|]. nia. Qed.

Section Plans.
Context (minimum_price maximum_price_exclusive chase_ceiling impact_ceiling : Price).
#[local] Abbreviation ceiling := (plan_ceiling chase_ceiling impact_ceiling).
#[local] Abbreviation eligible := (eligible minimum_price maximum_price_exclusive ceiling).

(** A plan over [asks] for the principal [P] which visits [visited]. *)
Record planned (scale : Z) (asks : list AskLevel) (P : CollateralAmount) (plan : LadderPlan) (visited : list AskLevel) : Prop := {
  pl_prefix : visited `prefix_of` asks;
  pl_eligible : Forall eligible visited;
  pl_order : StronglySorted price_order visited;
  pl_fills : fills (used_asks plan) visited;
  pl_best : ask_price <$> head visited = Some (best_ask plan);
  pl_limit : ask_price <$> last visited = Some (plan_limit_price plan);
  pl_debit_wf : amount_wf (worst_case_debit plan);
  pl_shares_wf : amount_wf (plan_shares plan);
  pl_positive : 0 < atomic (plan_shares plan) ∧ 0 < atomic (worst_case_debit plan);
  pl_cost : atomic (plan_shares plan) * ticks (plan_limit_price plan) ≤ atomic (worst_case_debit plan) * 10 ^ 6;
  pl_depth : atomic (worst_case_debit plan) * 10 ^ 6 ≤ cost visited;
  pl_spend : cost (used_asks plan) / 10 ^ 6 ≤ atomic (worst_case_debit plan);
  pl_unspent : atomic (worst_case_debit plan) * 10 ^ 6 < cost (used_asks plan) + ticks (plan_limit_price plan);
  pl_covers : atomic (plan_shares plan) ≤ quantity (used_asks plan);
  pl_minimal : ∀ pre l, visited = pre ++ [l] → cost pre < atomic P * 10 ^ 6;
  pl_exact : let w := 10 ^ (6 - scale) in
    atomic (plan_shares plan) = w * (atomic (worst_case_debit plan) * 10 ^ 6 / ticks (plan_limit_price plan) / w);
  pl_quotient : ∃ q, principal_implied_shares (worst_case_debit plan) (plan_limit_price plan) = Ok q
    ∧ (units (plan_shares plan) <= dec_value q <= units (plan_shares plan) + 1)%Q;
  pl_signed : ∃ p, plan_signed_price plan = Ok p ∧ (pv (plan_limit_price plan) <= pv p)%Q
}.

Lemma shares_for_principal_Ok P limit scale a : shares_for_principal P limit scale = Ok a → amount_wf P → on_grid limit →
  0 ≤ scale ≤ 6 →
  amount_wf a ∧ 0 < ticks limit
  ∧ atomic a * ticks limit ≤ atomic P * 10 ^ 6
  ∧ atomic a ≤ atomic P * 10 ^ 6 / ticks limit
  ∧ (let w := 10 ^ (6 - scale) in atomic a = w * (atomic P * 10 ^ 6 / ticks limit / w))
  ∧ ∃ q, principal_implied_shares P limit = Ok q ∧ (units a <= dec_value q <= units a + 1)%Q.
Proof.
  unfold shares_for_principal. intros H HP Hg Hs. destruct (price_eqb limit Price_ZERO) eqn:Hz; [done|].
  apply result_bind_Ok in H as (q & Hq%map_err_Ok & H%map_err_Ok). pose proof (price_zero_grid _ Hg Hz) as Ht.
  assert (Hq' := Hq). unfold principal_implied_shares in Hq'. rewrite Hz in Hq'.
  apply ok_or_Ok, dec_checked_div_rounds in Hq' as [_ Hq']. rewrite (to_decimal_units P HP), units_pico in Hq'.
  fold (pv limit) in Hq'. rewrite (proj1 Hg) in Hq'.
  apply (floored_quotient _ _ _ _ _ _ H) in Hq' as (Hw & _ & Hat & Hu); [|destruct Hg; lia|destruct HP; lia|done].
  set (R := atomic P * 10 ^ 6) in *. set (z := ticks limit) in *.
  assert (0 < 10 ^ (6 - scale)) as Hp by (apply Z.pow_pos_nonneg; lia).
  pose proof (Z.mul_div_le (R / z) _ Hp). pose proof (Z.mul_div_le R z Ht).
  split_and!; [done|done|nia|lia|done|by exists q].
Qed.

Lemma plan_principal_Ok asks P scale partial plan :
  plan_principal_buy_with_scale minimum_price maximum_price_exclusive chase_ceiling impact_ceiling asks P scale partial = Ok plan →
  amount_wf P → Forall level_ok asks → 0 ≤ scale ≤ 6 →
  (∃ visited, planned scale asks P plan visited) ∧ atomic (worst_case_debit plan) ≤ atomic P
  ∧ match partial with Some m => atomic m ≤ atomic (plan_shares plan) | None => worst_case_debit plan = P end.
Proof.
  unfold plan_principal_buy_with_scale. intros H HP Hok Hs. destruct (decide (P = amount_ZERO)) as [|HPne]; [done|].
  apply result_bind_Ok in H as (pw & Hw & H). apply result_bind_Ok in H as (a & Ha & H).
  destruct (match partial with Some m => amount_ltb a m | None => false end) eqn:Hmin; [done|].
  destruct (decide (a = amount_ZERO)) as [|Hne]; [done|].
  apply result_bind_Ok in H as (p & Hp & H). destruct (price_ltb p _) eqn:Hlt; [done|]. injection H as <-.
  destruct (walk_principal_Ok _ _ _ _ _ _ _ HP HPne Hok Hw) as [v []]. cbn [plan_limit_price worst_case_debit plan_shares] in *.
  assert (Hl := wr_limit0). apply fmap_Some in Hl as (l & Hl & El).
  assert (Forall level_ok v) as Hv by (eapply Forall_impl; [exact wr_eligible0|by intros ? []]).
  assert (on_grid (pw_limit_price pw)) as Hg.
  { rewrite El. apply last_Some in Hl as [v' ->]. rewrite Forall_app, Forall_singleton in Hv. apply Hv. }
  destruct (shares_for_principal_Ok _ _ _ _ Ha wr_wf0 Hg Hs) as (A1 & A2 & A3 & A4 & A5 & A6).
  pose proof (amount_positive a A1 Hne) as Ha0.
  split; [|split; [done|]].
  - exists v. split; cbn [plan_limit_price worst_case_debit plan_shares used_asks best_ask]; try done.
    + split; [done|]. nia.
    + eapply Z.le_trans; [exact A4|].
      assert (cost (pw_used_asks pw) ≤ quantity (pw_used_asks pw) * ticks (pw_limit_price pw)) as Hc.
      { apply cost_below. rewrite El. eapply fills_below; try done. eapply Forall_impl; [exact Hv|]. by intros ? [[] _]. }
      cut (atomic (pw_principal pw) * 10 ^ 6 / ticks (pw_limit_price pw) < quantity (pw_used_asks pw) + 1); [lia|].
      apply Z.div_lt_upper_bound; lia.
    + exists p. split; [done|]. by apply dec_ltb_ge in Hlt.
  - destruct partial as [m|]; [by apply Z.ltb_ge in Hmin|].
    unfold walk_principal in Hw. apply result_bind_Ok in Hw as (w & _ & Hw). simpl in Hw.
    destruct (dec_ltb _ _); [done|]. apply result_bind_Ok in Hw as (? & _ & Hw). apply result_bind_Ok in Hw as (? & _ & Hw).
    by injection Hw as <-.
Qed.

(** ** The principal of a share order *)

Lemma share_principal_Ok requested asks pre available prior P :
  share_principal minimum_price maximum_price_exclusive chase_ceiling impact_ceiling requested asks available prior = Ok (Some P) →
  amount_wf requested → Forall level_ok (pre ++ asks) → (dec_value available == pico (cost pre))%Q →
  prior = ask_price <$> last pre → 0 ≤ cost pre < 2 ^ 94 →
  (∀ l, last pre = Some l → cost pre < atomic requested * ticks (ask_price l)) →
  amount_wf P ∧ ∃ v level, (v ++ [level]) `prefix_of` (pre ++ asks) ∧ atomic P * 10 ^ 6 = atomic requested * ticks (ask_price level)
    ∧ (v = [] ∨ cost v < atomic P * 10 ^ 6) ∧ atomic P * 10 ^ 6 ≤ cost (v ++ [level]) ∧ 0 < ticks (ask_price level).
Proof.
  intros H Hr. revert pre available prior H. induction asks as [|level asks IH]; intros pre available prior H Hok Hav Hprior Hcost Hlast; [done|].
  cbn [share_principal] in H. destruct (match prior with Some _ => _ | None => _ end) eqn:Hord; [done|].
  destruct (price_ltb _ minimum_price); [done|]. destruct (above_band _ _ _); [done|]. destruct (empty_level level) eqn:Hem; [done|].
  apply result_bind_Ok in H as (c & Hc%ok_or_Ok & H). apply result_bind_Ok in H as (av & Hadd%ok_or_Ok & H).
  apply result_bind_Ok in H as (rq & Hrq%ok_or_Ok & H).
  assert (Hok2 := Hok). apply Forall_app in Hok2 as [Hpre Hok2]. inversion_clear Hok2 as [|? ? Hlv _].
  destruct (empty_level_false _ Hlv Hem) as [Hz Hsh]. destruct Hlv as [Hla Hlg].
  pose proof (cost_exact _ _ _ Hla Hlg Hc) as Hcv. pose proof (cost_exact _ _ _ Hr Hlg Hrq) as Hrv.
  assert (0 ≤ atomic (ask_shares level) * ticks (ask_price level) < 2 ^ 94 ∧ 0 ≤ atomic requested * ticks (ask_price level) < 2 ^ 94) as [Hn Hn'].
  { destruct Hlg as [_ Hg]. unfold amount_wf, is_u64, U64_MAX in Hla, Hr. nia. }
  pose proof (add_exact _ _ _ _ _ Hadd Hav Hcv ltac:(lia)) as Havv.
  assert (cost (pre ++ [level]) = cost pre + atomic (ask_shares level) * ticks (ask_price level)) as Hcs.
  { rewrite cost_app. unfold cost at 2. simpl. lia. }
  rewrite <- Hcs in Havv. destruct (dec_leb rq av) eqn:Hle.
  - apply result_bind_Ok in H as (P' & HP%map_err_Ok & H). injection H as ->.
    apply dec_leb_le in Hle. rewrite Hrv, Havv, pico_le in Hle.
    assert (amount_wf P ∧ atomic P * 10 ^ 6 = atomic requested * ticks (ask_price level)) as [HPw HPv].
    { by apply (exact_pico _ _ _ _ HP). }
    split; [done|]. exists pre, level. split_and!; [exists asks; by rewrite <- app_assoc|done| |lia|done].
    destruct (last pre) as [l|] eqn:E; [|left; by apply last_None]. right. rewrite HPv.
    eapply Z.lt_le_trans; [by apply Hlast|]. apply Z.mul_le_mono_nonneg_l; [apply Hr|]. subst prior. simpl in Hord.
    apply last_Some in E as [v' ->]. rewrite Forall_app, Forall_singleton in Hpre. by apply (price_ltb_grid _ _ Hlg (proj2 (proj2 Hpre))).
  - apply dec_leb_gt in Hle. rewrite Hrv, Havv, pico_lt in Hle. rewrite cons_middle, app_assoc in Hok |- *.
    eapply (IH _ _ _ H Hok Havv); [by rewrite last_snoc|lia|]. intros l. rewrite last_snoc. intros [= <-]. lia.
Qed.

(** ** Every accepted plan comes from one principal walk *)
#[local] Abbreviation plan_principal := (plan_principal_buy_with_scale minimum_price maximum_price_exclusive chase_ceiling impact_ceiling).
Definition principal_plan (asks : list AskLevel) (scale : Z) (plan : LadderPlan) : Prop :=
  ∃ P partial, amount_wf P ∧ plan_principal asks P scale partial = Ok plan.

Lemma plan_share_buy_Ok asks requested scale minimum plan :
  plan_share_buy minimum_price maximum_price_exclusive chase_ceiling impact_ceiling asks requested scale minimum = Ok plan →
  amount_wf requested → Forall level_ok asks →
  ∃ P, amount_wf P ∧ plan_principal asks P scale None = Ok plan
    ∧ ∃ v level, (v ++ [level]) `prefix_of` asks ∧ atomic P * 10 ^ 6 = atomic requested * ticks (ask_price level)
      ∧ (v = [] ∨ cost v < atomic P * 10 ^ 6) ∧ atomic P * 10 ^ 6 ≤ cost (v ++ [level]) ∧ 0 < ticks (ask_price level).
Proof.
  unfold plan_share_buy. intros H Hr Hok. destruct (amount_ltb _ _); [done|].
  apply result_bind_Ok in H as (o & Ho & H). apply result_bind_Ok in H as (P & ->%ok_or_Ok & H).
  exists P. apply (share_principal_Ok _ _ []) in Ho as [? ?]; try done.
  by rewrite dec_ZERO_value.
Qed.
(** Two prefixes of a book of positive costs that just reach the same principal. *)
Lemma prefix_cost l1 l2 : l1 `prefix_of` l2 → Forall level_ok l2 → cost l1 ≤ cost l2.
Proof. intros [k ->] H. rewrite Forall_app in H. rewrite cost_app. pose proof (cost_nonneg k (proj2 H)). lia. Qed.
Lemma just_reached asks v1 l1 v2 l2 D : v1 ++ [l1] `prefix_of` asks → v2 ++ [l2] `prefix_of` asks → Forall level_ok asks →
  D ≤ cost (v1 ++ [l1]) → D ≤ cost (v2 ++ [l2]) → cost v1 < D → cost v2 < D → l1 = l2.
Proof.
  intros H1 H2 Hok C1 C2 D1 D2.
  assert (∀ v l, v ++ [l] `prefix_of` asks → Forall level_ok v) as Hpre.
  { intros v l [k ->]. rewrite !Forall_app in Hok. apply Hok. }
  destruct (prefix_weak_total _ _ _ H1 H2) as [Hp|Hp]; apply prefix_snoc in Hp as [Hp|E].
  - apply prefix_cost in Hp; [lia|by eapply Hpre].
  - by apply app_inj_2 in E as [_ [= ?]].
  - apply prefix_cost in Hp; [lia|by eapply Hpre].
  - by apply app_inj_2 in E as [_ [= ?]].
Qed.

(** A share order signs the requested shares, cut to the grid of the scale. *)
Lemma share_buy_exact asks requested scale minimum plan :
  plan_share_buy minimum_price maximum_price_exclusive chase_ceiling impact_ceiling asks requested scale minimum = Ok plan →
  amount_wf requested → Forall level_ok asks → 0 ≤ scale ≤ 6 →
  atomic (plan_shares plan) = 10 ^ (6 - scale) * (atomic requested / 10 ^ (6 - scale)).
Proof.
  intros H Hr Hok Hs. destruct (plan_share_buy_Ok _ _ _ _ _ H Hr Hok) as (P & HP & Hp & v & l & Hpre & HPv & Hv & Hd & Hz).
  destruct (plan_principal_Ok _ _ _ _ _ Hp HP Hok Hs) as ([v' Hpl] & _ & HdP). destruct Hpl.
  apply fmap_Some in pl_limit0 as (l' & Hl' & El). apply last_Some in Hl' as [w ->].
  rewrite HdP in *. assert (l = l') as <-.
  { eapply (just_reached asks v l w l'); try done; [|by apply (pl_minimal0 w l')]. destruct Hv as [->|]; [|done]. unfold cost. simpl. lia. }
  rewrite pl_exact0, El, HPv. by rewrite Z.div_mul by lia.
Qed.
Lemma share_plan asks requested scale minimum plan :
  plan_share_buy minimum_price maximum_price_exclusive chase_ceiling impact_ceiling asks requested scale minimum = Ok plan →
  amount_wf requested → Forall level_ok asks → principal_plan asks scale plan.
Proof. intros H Hr Hok. destruct (plan_share_buy_Ok _ _ _ _ _ H Hr Hok) as (P & HP & Hp & _). by exists P, None. Qed.

Lemma whole_shares_Ok n a : whole_shares n = Ok a → a = from_atomic (n * 10 ^ 6) ∧ amount_wf a.
Proof. unfold whole_shares. intros H%ok_or_Ok. apply fmap_Some in H as (z & Hz & ->). by apply fits_Some in Hz as [-> ?]. Qed.

Definition allocates_wf (allocate : Price → result LadderError ShareAmount) : Prop := ∀ p a, allocate p = Ok a → amount_wf a.
Lemma amount_min_wf a b : amount_wf a → amount_wf b → amount_wf (amount_min a b).
Proof. unfold amount_wf, is_u64, amount_min. simpl. lia. Qed.
Lemma kelly_plan asks schedule allocate slippage scale minimum plan :
  plan_kelly_buy minimum_price maximum_price_exclusive chase_ceiling impact_ceiling asks schedule allocate slippage scale minimum = Ok plan →
  allocates_wf allocate → Forall level_ok asks → principal_plan asks scale plan.
Proof.
  unfold plan_kelly_buy. intros H Hal Hok. destruct (dec_ltb _ _); [done|].
  apply result_bind_Ok in H as (one & _ & H). apply result_bind_Ok in H as (one_plan & _ & H).
  apply result_bind_Ok in H as (p1 & _ & H). apply result_bind_Ok in H as (first & Hf & H). destruct (decide _); [done|].
  apply result_bind_Ok in H as (candidate & Hcand & H). apply result_bind_Ok in H as (p2 & _ & H).
  apply result_bind_Ok in H as (second & Hsec & H). cbv zeta in H. destruct (decide _); [done|].
  destruct (decide _); [injection H as <-; eapply share_plan; eauto|]. eapply share_plan; [done|apply amount_min_wf; eauto|done].
Qed.
Lemma dollar_plan asks schedule budget partial best scale minimum plan :
  plan_dollar_buy minimum_price maximum_price_exclusive chase_ceiling impact_ceiling asks schedule budget partial best scale minimum = Ok plan →
  amount_wf budget → principal_plan asks scale plan.
Proof.
  unfold plan_dollar_buy. intros H Hb. apply result_bind_Ok in H as (P & HP%map_err_Ok & H%map_err_Ok).
  exists P, (if partial then Some minimum else None). split; [|done]. by eapply principal_for_budget_wf.
Qed.

(** The widths of what a sizing mode carries. *)
Definition sizing_wf (sizing : BuySizing) : Prop :=
  match sizing with
  | Dollar budget | DollarUpTo budget => amount_wf budget
  | Contract contracts => is_u64 contracts
  | Kelly allocate _ => allocates_wf allocate
  end.
Definition sizing_budget (sizing : BuySizing) (caps : list CollateralAmount) : CollateralAmount :=
  match sizing with Dollar budget | DollarUpTo budget => budget | _ => smallest_cap caps end.

#[local] Abbreviation sized := (plan_sized_buy minimum_price maximum_price_exclusive chase_ceiling impact_ceiling).
(** What the planner checked before it returned the plan, for any book. *)
Lemma sized_checked asks schedule sizing caps minimum tick plan : sized asks schedule sizing caps minimum tick = Ok plan →
  (∃ scale, 0 ≤ scale ≤ 6 ∧ (Forall level_ok asks → sizing_wf sizing → principal_plan asks scale (ladder plan)))
  ∧ plan_budget plan = sizing_budget sizing caps
  ∧ fee_reserve schedule (worst_case_debit (ladder plan)) (best_ask (ladder plan)) (plan_limit_price (ladder plan)) = Ok (plan_reserve plan)
  ∧ atomic (worst_case_debit (ladder plan)) + atomic (plan_reserve plan) ≤ atomic (plan_budget plan)
  ∧ Forall (λ cap, atomic (worst_case_debit (ladder plan)) + atomic (plan_reserve plan) ≤ atomic cap) caps
  ∧ atomic minimum ≤ atomic (plan_shares (ladder plan)).
Proof.
  unfold plan_sized_buy. intros H. apply result_bind_Ok in H as (scale & Hscale%ok_or_Ok & H).
  apply bind_Some in Hscale as (sc & [-> Hsc]%fits_Some & Hscale). destruct (_ <=? 6) eqn:Hs6; [|done]. injection Hscale as <-.
  apply Z.leb_le in Hs6. destruct (price_eqb tick _); [done|]. apply result_bind_Ok in H as (best & _ & H).
  apply result_bind_Ok in H as ([budget l] & Hpl & H). apply result_bind_Ok in H as (reserve & Hres%map_err_Ok & H).
  apply result_bind_Ok in H as (all_in & Hall%map_err_Ok & H).
  destruct (amount_ltb budget all_in || _) eqn:Hcap; [done|]. destruct (amount_ltb (plan_shares l) minimum) eqn:Hmin; [done|].
  injection H as <-. cbn [ladder plan_budget plan_reserve]. apply amount_checked_add_Ok in Hall as [-> _].
  apply orb_false_iff in Hcap as [Hbud%Z.ltb_ge Hcap]. cbn [atomic] in Hbud. apply Z.ltb_ge in Hmin.
  assert ((Forall level_ok asks → sizing_wf sizing → principal_plan asks (dec_normal_scale (price_value tick) + 2) l)
          ∧ budget = sizing_budget sizing caps) as [Hplan ->].
  { destruct sizing as [b|b|n|al slip]; apply result_bind_Ok in Hpl as (pl & Hpl & E); injection E as <- <-;
      (split; [intros Hok Hsz|done]).
    - by eapply dollar_plan.
    - by eapply dollar_plan.
    - unfold plan_contract_buy in Hpl. apply result_bind_Ok in Hpl as (rq & [_ Hrq]%whole_shares_Ok & Hpl). by eapply share_plan.
    - by eapply kelly_plan. }
  split_and!; try done.
  - exists (dec_normal_scale (price_value tick) + 2). split; [lia|done].
  - apply Forall_forall. intros cap Hin. apply not_true_iff_false in Hcap. destruct (decide (atomic (worst_case_debit l) + atomic reserve ≤ atomic cap)) as [|Hn]; [done|].
    exfalso. apply Hcap, existsb_exists. exists cap. split; [by apply list_elem_of_In|]. apply Z.ltb_lt. cbn [atomic]. lia.
Qed.
Lemma sized_planned asks schedule sizing caps minimum tick plan : sized asks schedule sizing caps minimum tick = Ok plan →
  Forall level_ok asks → sizing_wf sizing → ∃ scale P visited, 0 ≤ scale ≤ 6 ∧ planned scale asks P (ladder plan) visited.
Proof.
  intros ((scale & Hs & Hplan) & _)%sized_checked Hok Hsz. destruct (Hplan Hok Hsz) as (P & partial & HP & Hp).
  destruct (plan_principal_Ok _ _ _ _ _ Hp HP Hok) as ([v Hv] & _); [lia|]. by exists scale, P, v.
Qed.

Lemma planned_limit scale asks P plan v : planned scale asks P plan v →
  (0 <= pv (best_ask plan))%Q ∧ (pv (plan_limit_price plan) <= 1)%Q ∧ (pv (best_ask plan) <= pv (plan_limit_price plan))%Q
  ∧ on_grid (plan_limit_price plan).
Proof.
  intros []. assert (Forall level_ok v) as Hv by (eapply Forall_impl; [exact pl_eligible0|by intros ? []]).
  apply fmap_Some in pl_best0 as (b & Hb & ->). apply fmap_Some in pl_limit0 as (l & Hl & ->).
  destruct v as [|b' v]; [done|]. injection Hb as ->.
  assert (level_ok l) as [_ Hlg].
  { apply last_Some in Hl as [v' E]. rewrite E, Forall_app, Forall_singleton in Hv. apply Hv. }
  inversion_clear Hv as [|? ? [_ Hbg] _].
  assert (ticks (ask_price b) ≤ ticks (ask_price l)) as Hle.
  { apply last_Some in Hl as [v' E]. destruct v' as [|x v'].
    - by injection E as -> ->.
    - injection E as <- ->. apply (sorted_last (b :: v')) in pl_order0. by inversion_clear pl_order0. }
  split_and!; [| |by apply grid_le|done].
  - destruct Hbg as [-> Hb]. apply Qle_shift_div_l; [done|]. rewrite Qmult_0_l. rewrite <- (Zle_Qle 0). lia.
  - destruct Hlg as [-> Hl']. apply Qle_shift_div_r; [done|]. rewrite Qmult_1_l, <- Zle_Qle. lia.
Qed.

(** The fee of a planned order is within its reserve. *)
Lemma planned_fee scale asks P plan v schedule reserve price fee : planned scale asks P plan v →
  fee_reserve schedule (worst_case_debit plan) (best_ask plan) (plan_limit_price plan) = Ok reserve →
  (pv (best_ask plan) <= pv price <= pv (plan_limit_price plan))%Q ∨ plan_signed_price plan = Ok price →
  taker_fee schedule (plan_shares plan) price = Ok fee → fee_within_reserve fee reserve = true.
Proof.
  intros Hpl Hres Hprice Hfee. destruct (planned_limit _ _ _ _ _ Hpl) as (Hb & Hl & Hbl & _). destruct Hpl.
  destruct pl_quotient0 as (q & Hq & Hqu). destruct pl_signed0 as (p & Hp & Hpp).
  assert (0 <= pv price <= 1)%Q as Hpr.
  { destruct Hprice as [?|Hs%map_err_Ok]; [lra|]. by apply signed_price_Ok in Hs as (_ & ? & _). }
  apply (reserve_covers_fee schedule (worst_case_debit plan) (plan_shares plan) (best_ask plan) (plan_limit_price plan) price fee reserve q);
    try done; try (split; lra).
  - intros E. rewrite E in pl_positive0. destruct pl_positive0 as [_ [=]].
  - destruct Hprice as [?|Hs]; [by left|right]. rewrite Hs in Hp. injection Hp as <-. by apply map_err_Ok in Hs.
Qed.

Lemma expected_shares_sum used total e :
  try_fold (λ total ask, amount_of (share_checked_add total (ask_shares ask))) total used = Ok e →
  atomic e = atomic total + quantity used.
Proof.
  revert total. induction used as [|a used IH]; intros total H; [injection H as <-; unfold quantity; simpl; lia|].
  cbn [try_fold] in H. apply result_bind_Ok in H as (t & Ht%map_err_Ok & H). apply amount_checked_add_Ok in Ht as [-> _].
  apply IH in H. unfold quantity in *. simpl in *. lia.
Qed.
Lemma expected_spend_sum used total n e : Forall level_ok used → (dec_value total == pico n)%Q → 0 ≤ n → n + cost used < 2 ^ 94 →
  try_fold (λ total ask, decimal_of (cost ← dec_checked_mul (to_decimal (ask_shares ask)) (price_value (ask_price ask));
                                     dec_checked_add total cost)) total used = Ok e →
  (dec_value e == pico (n + cost used))%Q.
Proof.
  intros Hok. revert total n. induction Hok as [|a used [Ha Hg] Hok IH]; intros total n Ht Hn Hb H.
  - injection H as <-. rewrite Ht. unfold cost. simpl. by rewrite Z.add_0_r.
  - cbn [try_fold] in H. apply result_bind_Ok in H as (t & Ht'%ok_or_Ok & H). apply bind_Some in Ht' as (c & Hc & Hadd).
    assert (cost (a :: used) = atomic (ask_shares a) * ticks (ask_price a) + cost used) as E by done. rewrite E in Hb |- *.
    pose proof (cost_nonneg _ Hok). assert (0 ≤ atomic (ask_shares a) * ticks (ask_price a)) by (destruct Ha, Hg; nia).
    pose proof (add_exact _ _ _ _ _ Hadd Ht (cost_exact _ _ _ Ha Hg Hc) ltac:(lia)) as Hv.
    rewrite (IH _ _ Hv ltac:(lia) ltac:(lia) H). by rewrite Z.add_assoc.
Qed.
Lemma fills_level_ok used visited : fills used visited → Forall level_ok visited → Forall level_ok used.
Proof.
  intros [->|(pre & l & a & -> & Ha & ->)] Hv; [done|]. rewrite Forall_app, Forall_singleton in Hv. destruct Hv as [Hv [[Hl Hl'] Hg]].
  apply Forall_app. split; [done|]. destruct (decide _); [done|]. apply Forall_singleton. split; [|done]. unfold amount_wf, is_u64. simpl. lia.
Qed.

(** ** What the planner promises *)

(** C36: An accepted buy plan is bounded and reserved for.  For every sizing mode and any book the
    worst debit plus the reserve is within the budget and within every monetary cap, and the signed
    shares reach the venue minimum.  When moreover the asks are priced on the six-decimal grid, which
    holds the venue's ticks and which neither the planner nor the book parser enforces, the signed
    shares cost at most the debit at the worst accepted ask, and the platform fee on them, at any
    price of the visited band or at the signed price, is within the reserve and on the fee grid. *)
Theorem sized_buy_bounded asks schedule sizing caps minimum tick plan :
  sized asks schedule sizing caps minimum tick = Ok plan →
  let order := ladder plan in
  plan_budget plan = sizing_budget sizing caps
  ∧ atomic (worst_case_debit order) + atomic (plan_reserve plan) ≤ atomic (plan_budget plan)
  ∧ Forall (λ cap, atomic (worst_case_debit order) + atomic (plan_reserve plan) ≤ atomic cap) caps
  ∧ atomic minimum ≤ atomic (plan_shares order)
  ∧ (Forall level_ok asks → sizing_wf sizing →
     0 < atomic (plan_shares order) * ticks (plan_limit_price order) ≤ atomic (worst_case_debit order) * 10 ^ 6
     ∧ ∀ price fee,
         (pv (best_ask order) <= pv price <= pv (plan_limit_price order))%Q ∨ plan_signed_price order = Ok price →
         taker_fee schedule (plan_shares order) price = Ok fee → fee_within_reserve fee (plan_reserve plan) = true).
Proof.
  intros H order. destruct (sized_checked _ _ _ _ _ _ _ H) as (_ & Hb & Hres & Hall & Hcaps & Hmin).
  fold order in Hres, Hall, Hcaps, Hmin. split_and!; try done. intros Hok Hsz.
  destruct (sized_planned _ _ _ _ _ _ _ H Hok Hsz) as (scale & P & v & Hs & Hpl). fold order in Hpl. split_and!.
  - apply Z.mul_pos_pos; [apply (pl_positive _ _ _ _ _ Hpl)|]. destruct (proj1 (fmap_Some _ _ _) (pl_limit _ _ _ _ _ Hpl)) as (l & Hl & ->).
    pose proof (pl_eligible _ _ _ _ _ Hpl) as Hel. apply last_Some in Hl as [v' E]. rewrite E, Forall_app, Forall_singleton in Hel.
    destruct Hel as [_ (Hk & _ & _ & He)]. by apply empty_level_false.
  - apply (pl_cost _ _ _ _ _ Hpl).
  - intros price fee Hp Hf. by eapply planned_fee.
Qed.

(** The planned fill covers the signed order.  The levels a plan uses fill a
    prefix of the book that lies in the accepted band and in price order, the last
    visited level possibly in part; the best and the worst price of the plan are
    those of the first and the last level visited; the filled shares reach the
    signed shares, and what they cost is within the worst debit. *)
Theorem planned_fill_covers_order asks schedule sizing caps minimum tick plan :
  sized asks schedule sizing caps minimum tick = Ok plan → Forall level_ok asks → sizing_wf sizing →
  let order := ladder plan in
  ∃ visited, visited `prefix_of` asks ∧ Forall eligible visited ∧ StronglySorted price_order visited
    ∧ fills (used_asks order) visited
    ∧ ask_price <$> head visited = Some (best_ask order) ∧ ask_price <$> last visited = Some (plan_limit_price order)
    ∧ (∀ shares, expected_shares order = Ok shares → atomic (plan_shares order) ≤ atomic shares)
    ∧ (∀ spend, expected_spend order = Ok spend → atomic spend ≤ atomic (worst_case_debit order) ∧
         atomic (worst_case_debit order) * 10 ^ 6 < (atomic spend + 1) * 10 ^ 6 + ticks (plan_limit_price order)).
Proof.
  intros H Hok Hsz order. destruct (sized_planned _ _ _ _ _ _ _ H Hok Hsz) as (scale & P & v & Hs & Hpl).
  fold order in Hpl. destruct Hpl. exists v. split_and!; try done.
  - intros e He%expected_shares_sum. simpl in He. lia.
  - intros e He. unfold expected_spend in He. apply result_bind_Ok in He as (d & Hd & He).
    assert (Forall level_ok v) as Hv by (eapply Forall_impl; [exact pl_eligible0|by intros ? []]).
    pose proof (fills_level_ok _ _ pl_fills0 Hv) as Hu. pose proof (cost_nonneg _ Hu).
    unfold amount_wf, is_u64, U64_MAX in pl_debit_wf0. pose proof (Z.div_mod (cost (used_asks order)) (10 ^ 6)).
    pose proof (Z.mod_pos_bound (cost (used_asks order)) (10 ^ 6)).
    apply (expected_spend_sum _ _ 0) in Hd; [|done|by rewrite dec_ZERO_value|lia|lia].
    apply (collateral_floor_pico _ _ _ He) in Hd as [-> _]. cbn [atomic]. rewrite Z.add_0_l. lia.
Qed.

(** A contract order signs exactly the contracts it asks for: the walk of the
    principal that the requested shares cost at the first level with enough depth
    ends at that level, and flooring loses nothing. *)
Theorem contract_buy_exact asks schedule contracts caps minimum tick plan :
  sized asks schedule (Contract contracts) caps minimum tick = Ok plan → Forall level_ok asks → is_u64 contracts →
  plan_shares (ladder plan) = from_atomic (contracts * 10 ^ 6).
Proof.
  intros H Hok Hc. unfold plan_sized_buy in H. apply result_bind_Ok in H as (scale & Hscale%ok_or_Ok & H).
  apply bind_Some in Hscale as (sc & [-> Hsc]%fits_Some & Hscale). destruct (_ <=? 6) eqn:Hs6; [|done]. injection Hscale as <-.
  apply Z.leb_le in Hs6. destruct (price_eqb tick _); [done|]. apply result_bind_Ok in H as (best & _ & H).
  apply result_bind_Ok in H as ([budget l] & Hpl & H). apply result_bind_Ok in H as (reserve & _ & H).
  apply result_bind_Ok in H as (all_in & _ & H). destruct (_ || _); [done|]. destruct (amount_ltb _ _); [done|].
  injection H as <-. cbn [ladder]. apply result_bind_Ok in Hpl as (pl & Hpl & E). injection E as _ <-.
  unfold plan_contract_buy in Hpl. apply result_bind_Ok in Hpl as (rq & [-> Hrq]%whole_shares_Ok & Hpl).
  rewrite <- (amount_eta (plan_shares pl)). f_equal.
  assert (atomic (plan_shares pl) = 10 ^ (6 - (dec_normal_scale (price_value tick) + 2))
            * (contracts * 10 ^ 6 / 10 ^ (6 - (dec_normal_scale (price_value tick) + 2)))) as ->.
  { rewrite (share_buy_exact _ _ _ _ _ Hpl Hrq Hok ltac:(lia)). done. }
  set (e := 6 - _). rewrite <- Z_div_exact_full_2; [done|apply Z.pow_nonzero; lia|].
  apply Z.mod_divide; [apply Z.pow_nonzero; lia|]. exists (contracts * 10 ^ (6 - e)).
  rewrite <- Z.mul_assoc, <- Z.pow_add_r by lia. do 2 f_equal. lia.
Qed.
End Plans.
End LadderFacts.

(** ** A book, and orders on it *)
Module SampleBook.
Definition price (q : Q) : @Price QDecimal := @Build_Price QDecimal q.
Definition ask (q : Q) (shares : Z) : @AskLevel QDecimal := @Build_AskLevel QDecimal (price q) (from_atomic shares).
Definition book : list (@AskLevel QDecimal) := [ask (1 # 2) 10000000; ask (13 # 25) 10000000; ask (9 # 10) 5000000].
Definition schedule : @CompactFeeSchedule QDecimal := @Taker QDecimal (1 # 20)%Q.
#[local] Abbreviation sized sizing caps := (plan_sized_buy (DO := QDecimal)
  (price (1 # 10)) (price (99 # 100)) (price (3 # 5)) (price (11 # 20)) book schedule sizing caps
    (from_atomic 5000000) (price (1 # 100))).
(** Eight dollars reach into the second level; twelve contracts as well. *)
Definition dollars : @BuySizing QDecimal := Dollar (from_atomic 8000000).
Definition contracts : @BuySizing QDecimal := Contract 12.
Definition caps : list CollateralAmount := [from_atomic 9000000].
Definition dollar_plan : @SizedBuyPlan QDecimal := @Build_SizedBuyPlan QDecimal
  (@Build_LadderPlan QDecimal [ask (1 # 2) 10000000; ask (13 # 25) 5393980] (price (1 # 2)) (price (13 # 25))
     (from_atomic 15009300) (from_atomic 7804870)) (from_atomic 8000000) (from_atomic 187620).
Definition contract_plan : @SizedBuyPlan QDecimal := @Build_SizedBuyPlan QDecimal
  (@Build_LadderPlan QDecimal [ask (1 # 2) 10000000; ask (13 # 25) 2384615] (price (1 # 2)) (price (13 # 25))
     (from_atomic 12000000) (from_atomic 6240000)) (from_atomic 9000000) (from_atomic 150000).
Lemma dollar_accepted : sized dollars caps = Ok dollar_plan.
Proof. vm_cast_no_check (eq_refl (Ok (E := LadderError) dollar_plan)). Qed.
Lemma contract_accepted : sized contracts caps = Ok contract_plan.
Proof. vm_cast_no_check (eq_refl (Ok (E := LadderError) contract_plan)). Qed.
Lemma dollar_fills : expected_shares (ladder dollar_plan) = Ok (from_atomic 15393980).
Proof. reflexivity. Qed.
Lemma fee_at_limit : taker_fee schedule (plan_shares (ladder dollar_plan)) (price (13 # 25)) = Ok (from_atomic 187310).
Proof. vm_cast_no_check (eq_refl (Ok (E := FeeError) (from_atomic 187310))). Qed.
Lemma book_ok : Forall level_ok book.
Proof.
  repeat (apply Forall_cons_2); try apply Forall_nil_2; (split; [by split|split; [reflexivity|by split]]).
Qed.
End SampleBook.

Lemma sized_buy_bounded_witness :
  fee_within_reserve (from_atomic 187310) (plan_reserve SampleBook.dollar_plan) = true.
Proof.
  assert (sizing_wf SampleBook.dollars) as Hs by (by split).
  destruct (sized_buy_bounded _ _ _ _ _ _ _ _ _ _ _ SampleBook.dollar_accepted) as (_ & _ & _ & _ & H).
  destruct (H SampleBook.book_ok Hs) as [_ Hfee].
  apply (Hfee (SampleBook.price (13 # 25)) _); [|exact SampleBook.fee_at_limit]. left. split; discriminate.
Defined.
Lemma planned_fill_covers_order_witness :
  atomic (plan_shares (ladder SampleBook.dollar_plan)) ≤ 15393980.
Proof.
  assert (sizing_wf SampleBook.dollars) as Hs by (by split).
  destruct (planned_fill_covers_order _ _ _ _ _ _ _ _ _ _ _ SampleBook.dollar_accepted SampleBook.book_ok Hs)
    as (v & _ & _ & _ & _ & _ & _ & H & _).
  exact (H _ SampleBook.dollar_fills).
Defined.
Lemma contract_buy_exact_witness : plan_shares (ladder SampleBook.contract_plan) = from_atomic (12 * 10 ^ 6).
Proof. apply (contract_buy_exact _ _ _ _ _ _ _ _ _ _ _ SampleBook.contract_accepted SampleBook.book_ok). by split. Defined.
