(* ===== verification/CanaryTypes.v ===== *)
(** * Data of the live canary campaign
      (crates/execution-core canary.rs, with the venue's and the core's types it stores)

    Evidence observations and their content hashes, the authorities an operator
    signs, the quote, admission and reconciliation records, the campaign state, its
    events and its errors.  Record fields carry a short prefix of their type. *)

From S2P Require Import Prelude CoreTypes Bytes SignalEngine RiskEngine WinnerFollow LogFrame.
#[local] Open Scope Z_scope.

Definition CAMPAIGN_START_COLLATERAL : CollateralAmount := from_atomic 200000000.
Definition CAMPAIGN_MAX_COMMITMENT : CollateralAmount := from_atomic 8000000.
Definition PROBE_POST_LIMIT : Z := 3.
Definition ORGANIC_POST_LIMIT : Z := 5.
Definition CAMPAIGN_MAX_DURATION_SECS : Z := 7 * 24 * 60 * 60.

(** ** Enumerations and small records *)
Inductive TransportErrorClass : Type := Timeout | Connect | BodyRead | RequestBuild | Cancelled | OtherTransport.
Inductive CampaignStage : Type := Inactive | ProbesArmed | OrganicReady | OrganicArmed | ClosedObserving | Closed.
Inductive AttemptPhase : Type := Reserved | PostInFlightPhase | Review.
Inductive ClosureReason : Type :=
| Killed | Expired | ExhaustedReason | ProbeFailed | OrganicAttemptFailed | VenueAmbiguous
| UnexpectedOrderState | CancellationFailed | AccountingDrift | AuthorizationInvalidated
| ExternalActivity | Geoblocked | JurisdictionInvalidated | AccountClosedOnly.
Inductive MarketFamily : Type :=
| Weather | CryptoBenchmarkWindow | CryptoSpotPath | SportsOfficial | MacroRelease | ChartRanking
| Documents | EventFeed | PoliticsElections | OtherFamily.
Record VenueOrderId := { venue_order_id : string }.
Record CommandReceipt := { command_id : string; command_hash : string }.

#[export] Instance CampaignStage_eq_dec : EqDecision CampaignStage.
Proof. solve_decision. Defined.
#[export] Instance AttemptPhase_eq_dec : EqDecision AttemptPhase.
Proof. solve_decision. Defined.
#[export] Instance ClosureReason_eq_dec : EqDecision ClosureReason.
Proof. solve_decision. Defined.
#[export] Instance MarketFamily_eq_dec : EqDecision MarketFamily.
Proof. solve_decision. Defined.
#[export] Instance VenueOrderId_eq_dec : EqDecision VenueOrderId.
Proof. solve_decision. Defined.
#[export] Instance CommandReceipt_eq_dec : EqDecision CommandReceipt.
Proof. solve_decision. Defined.

(** ** [venue-core]: exact execution reports *)
Record VenueFill := {
  fill_trade_id : string;
  fill_collateral_debit : CollateralAmount;
  fill_shares : ShareAmount;
  fill_fee : CollateralAmount
}.
Record ExactExecutionReport := {
  rep_venue_order_id : option VenueOrderId;
  rep_requested_collateral : CollateralAmount;
  rep_requested_shares : ShareAmount;
  rep_filled_collateral : CollateralAmount;
  rep_filled_shares : ShareAmount;
  rep_fees : CollateralAmount;
  rep_fills : list VenueFill
}.

(** ** Attempts, positions and resolutions *)
Record AttemptAttribution := {
  attr_leader : option string;
  attr_condition_id : PolymarketConditionId;
  attr_outcome_id : OutcomeId;
  attr_family : MarketFamily
}.
Record CanaryResolution := { res_condition_id : PolymarketConditionId; res_winner : OutcomeId }.
Record CanaryPosition := {
  pos_condition_id : PolymarketConditionId;
  pos_outcome_id : OutcomeId;
  pos_shares : ShareAmount
}.
Record PendingAttempt := {
  pend_identity : string;
  pend_origin : CanaryOrigin;
  pend_worst_case_debit : CollateralAmount;
  pend_requested_shares : ShareAmount;
  pend_order_hash : string;
  pend_prepared_body_hash : string;
  pend_venue_order_id : option VenueOrderId;
  pend_post_success : option bool;
  pend_phase : AttemptPhase
}.
Record CampaignAttemptRecord := {
  att_identity : string;
  att_origin : CanaryOrigin;
  att_attribution : AttemptAttribution;
  att_shares : ShareAmount;
  att_open_debit : CollateralAmount
}.
Record CanaryExposureAmounts := {
  exp_leader : CollateralAmount;
  exp_market : CollateralAmount;
  exp_family : CollateralAmount;
  exp_total : CollateralAmount
}.
Definition CanaryExposureAmounts_default : CanaryExposureAmounts :=
  {| exp_leader := amount_ZERO; exp_market := amount_ZERO; exp_family := amount_ZERO; exp_total := amount_ZERO |}.

#[export] Instance rebuild_pending : Rebuild PendingAttempt := λ r, {|
  pend_identity := pend_identity r; pend_origin := pend_origin r;
  pend_worst_case_debit := pend_worst_case_debit r; pend_requested_shares := pend_requested_shares r;
  pend_order_hash := pend_order_hash r; pend_prepared_body_hash := pend_prepared_body_hash r;
  pend_venue_order_id := pend_venue_order_id r; pend_post_success := pend_post_success r;
  pend_phase := pend_phase r |}.
#[export] Instance rebuild_attempt : Rebuild CampaignAttemptRecord := λ r, {|
  att_identity := att_identity r; att_origin := att_origin r; att_attribution := att_attribution r;
  att_shares := att_shares r; att_open_debit := att_open_debit r |}.
#[export] Instance rebuild_exposure : Rebuild CanaryExposureAmounts := λ r, {|
  exp_leader := exp_leader r; exp_market := exp_market r; exp_family := exp_family r; exp_total := exp_total r |}.

(** ** Errors *)
Inductive CanaryStateError : Type :=
| AuthorityMismatch
| InvalidStage (stage : CampaignStage)
| InvalidAttempt
| AdmissionMismatch
| CanaryRiskBlocked
| PendingAttemptExists
| Exhausted
| Arithmetic
| EventLogError (e : LogError)
| Encoding (e : string)
| UnknownSchema (version : Z)
| UnexpectedJournalEnvelope
| InsecureJournalPermissions
| JournalIo (e : IoError).

Section CanaryData.
Context `{TO : TimeOps}.

(** ** [http_evidence.rs] *)
Record RawHttpResponse := {
  rsp_source_id : string;
  rsp_endpoint_kind : string;
  rsp_method : string;
  rsp_path : string;
  rsp_ordered_query : list (string * string);
  rsp_status : Z;
  rsp_headers : list (string * string);
  rsp_body : list Z;
  rsp_attempt_ordinal : Z;
  rsp_source_at : option OffsetDateTime;
  rsp_observed_at : OffsetDateTime;
  rsp_received_at : OffsetDateTime;
  rsp_schema_version : Z;
  rsp_parser_version : Z;
  rsp_adapter_version : string
}.
Record RawTransportFailure := {
  tf_source_id : string;
  tf_endpoint_kind : string;
  tf_method : string;
  tf_path : string;
  tf_ordered_query : list (string * string);
  tf_attempt_ordinal : Z;
  tf_observed_at : OffsetDateTime;
  tf_received_at : OffsetDateTime;
  tf_error_class : TransportErrorClass;
  tf_schema_version : Z;
  tf_parser_version : Z;
  tf_adapter_version : string
}.
Record RawArtifactObservation := {
  art_source_id : string;
  art_artifact_kind : string;
  art_path : string;
  art_body : list Z;
  art_observed_at : OffsetDateTime;
  art_received_at : OffsetDateTime;
  art_schema_version : Z;
  art_parser_version : Z;
  art_adapter_version : string
}.
Inductive RawEvidence : Type :=
| HttpResponse (response : RawHttpResponse)
| HttpTransportFailure (failure : RawTransportFailure)
| Artifact (artifact : RawArtifactObservation).

(** ** Content hashes of evidence *)
Record EvidenceCommitment := {
  ec_domain : string;
  ec_source_id : string;
  ec_endpoint_kind : string;
  ec_method : string;
  ec_path : string;
  ec_ordered_query : list (string * string);
  ec_status : Z;
  ec_headers : list (string * string);
  ec_attempt_ordinal : Z;
  ec_source_at : option OffsetDateTime;
  ec_observed_at : OffsetDateTime;
  ec_received_at : OffsetDateTime;
  ec_schema_version : Z;
  ec_parser_version : Z;
  ec_adapter_version : string;
  ec_body_hash : string
}.
Record ArtifactCommitment := {
  ac_domain : string;
  ac_source_id : string;
  ac_artifact_kind : string;
  ac_path : string;
  ac_observed_at : OffsetDateTime;
  ac_received_at : OffsetDateTime;
  ac_schema_version : Z;
  ac_parser_version : Z;
  ac_adapter_version : string;
  ac_body_hash : string
}.

Section Hashes.
Context {B3 : Blake3} {V1 : ToVec EvidenceCommitment} {V2 : ToVec ArtifactCommitment}.

Definition evidence_commitment (response : RawHttpResponse) : EvidenceCommitment := {|
  ec_domain := "prediction-edge/http-response-evidence/v1";
  ec_source_id := rsp_source_id response; ec_endpoint_kind := rsp_endpoint_kind response;
  ec_method := rsp_method response; ec_path := rsp_path response;
  ec_ordered_query := rsp_ordered_query response; ec_status := rsp_status response;
  ec_headers := rsp_headers response; ec_attempt_ordinal := rsp_attempt_ordinal response;
  ec_source_at := rsp_source_at response; ec_observed_at := rsp_observed_at response;
  ec_received_at := rsp_received_at response; ec_schema_version := rsp_schema_version response;
  ec_parser_version := rsp_parser_version response; ec_adapter_version := rsp_adapter_version response;
  ec_body_hash := to_hex (blake3 (rsp_body response))
|}.
Definition response_evidence_hash (response : RawHttpResponse) : result string string :=
  json_hash (evidence_commitment response).

Definition artifact_commitment (artifact : RawArtifactObservation) : ArtifactCommitment := {|
  ac_domain := "prediction-edge/artifact-evidence/v1";
  ac_source_id := art_source_id artifact; ac_artifact_kind := art_artifact_kind artifact;
  ac_path := art_path artifact; ac_observed_at := art_observed_at artifact;
  ac_received_at := art_received_at artifact; ac_schema_version := art_schema_version artifact;
  ac_parser_version := art_parser_version artifact; ac_adapter_version := art_adapter_version artifact;
  ac_body_hash := to_hex (blake3 (art_body artifact))
|}.
Definition artifact_evidence_hash (artifact : RawArtifactObservation) : result string string :=
  json_hash (artifact_commitment artifact).

Definition raw_evidence_hash (evidence : RawEvidence) : result string (option string) :=
  match evidence with
  | HttpResponse response => h ← response_evidence_hash response; Ok (Some h)
  | Artifact artifact => h ← artifact_evidence_hash artifact; Ok (Some h)
  | HttpTransportFailure _ => Ok None
  end.
End Hashes.

(** ** Authorities *)
Record CampaignAuthorization := {
  ca_schema_version : Z;
  ca_campaign_id : string;
  ca_implementation_commit : string;
  ca_binary_hash : string;
  ca_config_hash : string;
  ca_resolver_inventory_hash : string;
  ca_sdk_archive_sha256 : string;
  ca_sdk_effective_vendor_tree_sha256 : string;
  ca_wallet : string;
  ca_owner_signer : string;
  ca_spender : string;
  ca_jurisdiction : string;
  ca_jurisdiction_attestation_hash : string;
  ca_account_attestation_hash : string;
  ca_issued_at : OffsetDateTime;
  ca_expires_at : OffsetDateTime;
  ca_starting_collateral : CollateralAmount;
  ca_allowance : CollateralAmount;
  ca_commitment_cap : CollateralAmount;
  ca_probe_slots : Z;
  ca_organic_slots : Z
}.

(** [CampaignAuthorization::validate] *)
Definition validate_authorization (a : CampaignAuthorization) (now : OffsetDateTime) :
    result CanaryStateError unit :=
  let duration := odt_seconds_between (ca_expires_at a) (ca_issued_at a) in
  if negb (ca_schema_version a =? 1)
     || is_blank (ca_campaign_id a)
     || is_blank (ca_implementation_commit a)
     || is_blank (ca_binary_hash a)
     || is_blank (ca_config_hash a)
     || is_blank (ca_resolver_inventory_hash a)
     || is_blank (ca_sdk_archive_sha256 a)
     || is_blank (ca_sdk_effective_vendor_tree_sha256 a)
     || is_blank (ca_wallet a)
     || is_blank (ca_owner_signer a)
     || is_blank (ca_spender a)
     || is_blank (ca_jurisdiction a)
     || is_blank (ca_jurisdiction_attestation_hash a)
     || is_blank (ca_account_attestation_hash a)
     || bool_decide (ca_starting_collateral a ≠ CAMPAIGN_START_COLLATERAL)
     || amount_ltb CANARY_MAX_ALLOWANCE (ca_allowance a)
     || bool_decide (ca_commitment_cap a ≠ CAMPAIGN_MAX_COMMITMENT)
     || negb (ca_probe_slots a =? PROBE_POST_LIMIT)
     || negb (ca_organic_slots a =? ORGANIC_POST_LIMIT)
     || (duration <=? 0)
     || (CAMPAIGN_MAX_DURATION_SECS <? duration)
     || odt_ltb now (ca_issued_at a)
     || negb (odt_ltb now (ca_expires_at a))
  then Err AuthorityMismatch else Ok tt.

Record OrganicStageAuthorization := {
  os_schema_version : Z;
  os_campaign_id : string;
  os_campaign_authorization_hash : string;
  os_reviewed_probe_count : Z;
  os_implementation_commit : string;
  os_evidence_bundle_hash : string;
  os_expires_at : OffsetDateTime
}.

Record CanaryReconciliation := {
  rec_observed_at : OffsetDateTime;
  rec_geoblocked : bool;
  rec_closed_only : bool;
  rec_free_collateral : CollateralAmount;
  rec_allowance : CollateralAmount;
  rec_standard_spender_only : bool;
  rec_open_order_ids : list string;
  rec_all_trade_ids : list string;
  rec_position_count : Z;
  rec_positions : list CanaryPosition;
  rec_resolutions : list CanaryResolution;
  rec_unexpected_activity : bool;
  rec_execution_report : option ExactExecutionReport;
  rec_evidence_hashes : list string
}.

(** ** The campaign state *)
Record CanaryCampaignState := {
  st_campaign_id : option string;
  st_campaign_authorization_hash : option string;
  st_stage : CampaignStage;
  st_expires_at : option OffsetDateTime;
  st_implementation_commit : option string;
  st_binary_hash : option string;
  st_config_hash : option string;
  st_resolver_inventory_hash : option string;
  st_wallet : option string;
  st_owner_signer : option string;
  st_spender : option string;
  st_sdk_archive_sha256 : option string;
  st_sdk_effective_vendor_tree_sha256 : option string;
  st_starting_collateral : CollateralAmount;
  st_free_collateral : CollateralAmount;
  st_canary_bankroll : CollateralAmount;
  st_allowance : CollateralAmount;
  st_committed_debit : CollateralAmount;
  st_probe_posts : Z;
  st_organic_posts : Z;
  st_pending : option PendingAttempt;
  st_attempts : list CampaignAttemptRecord;
  st_reviewed_probe_hashes : list string;
  st_kill_latched : bool;
  st_terminal_reason : option ClosureReason;
  st_last_reconciliation_at : option OffsetDateTime;
  st_reconciliation_failed : bool;
  st_recovery_unresolved : bool;
  st_shutdown_reconciliation_designated : bool;
  st_shutdown_reconciliation_succeeded : bool;
  st_known_trade_ids : list string;
  st_last_reconciliation : option CanaryReconciliation;
  st_command_receipts : list CommandReceipt
}.
Definition CanaryCampaignState_default : CanaryCampaignState := {|
  st_campaign_id := None; st_campaign_authorization_hash := None; st_stage := Inactive;
  st_expires_at := None; st_implementation_commit := None; st_binary_hash := None; st_config_hash := None;
  st_resolver_inventory_hash := None; st_wallet := None; st_owner_signer := None; st_spender := None;
  st_sdk_archive_sha256 := None; st_sdk_effective_vendor_tree_sha256 := None;
  st_starting_collateral := amount_ZERO; st_free_collateral := amount_ZERO; st_canary_bankroll := amount_ZERO;
  st_allowance := amount_ZERO; st_committed_debit := amount_ZERO; st_probe_posts := 0; st_organic_posts := 0;
  st_pending := None; st_attempts := []; st_reviewed_probe_hashes := []; st_kill_latched := false;
  st_terminal_reason := None; st_last_reconciliation_at := None; st_reconciliation_failed := false;
  st_recovery_unresolved := false; st_shutdown_reconciliation_designated := false;
  st_shutdown_reconciliation_succeeded := false; st_known_trade_ids := []; st_last_reconciliation := None;
  st_command_receipts := []
|}.

#[global] Instance rebuild_campaign : Rebuild CanaryCampaignState := λ s, {|
  st_campaign_id := st_campaign_id s; st_campaign_authorization_hash := st_campaign_authorization_hash s;
  st_stage := st_stage s; st_expires_at := st_expires_at s; st_implementation_commit := st_implementation_commit s;
  st_binary_hash := st_binary_hash s; st_config_hash := st_config_hash s;
  st_resolver_inventory_hash := st_resolver_inventory_hash s; st_wallet := st_wallet s;
  st_owner_signer := st_owner_signer s; st_spender := st_spender s;
  st_sdk_archive_sha256 := st_sdk_archive_sha256 s;
  st_sdk_effective_vendor_tree_sha256 := st_sdk_effective_vendor_tree_sha256 s;
  st_starting_collateral := st_starting_collateral s; st_free_collateral := st_free_collateral s;
  st_canary_bankroll := st_canary_bankroll s; st_allowance := st_allowance s;
  st_committed_debit := st_committed_debit s; st_probe_posts := st_probe_posts s;
  st_organic_posts := st_organic_posts s; st_pending := st_pending s; st_attempts := st_attempts s;
  st_reviewed_probe_hashes := st_reviewed_probe_hashes s; st_kill_latched := st_kill_latched s;
  st_terminal_reason := st_terminal_reason s; st_last_reconciliation_at := st_last_reconciliation_at s;
  st_reconciliation_failed := st_reconciliation_failed s; st_recovery_unresolved := st_recovery_unresolved s;
  st_shutdown_reconciliation_designated := st_shutdown_reconciliation_designated s;
  st_shutdown_reconciliation_succeeded := st_shutdown_reconciliation_succeeded s;
  st_known_trade_ids := st_known_trade_ids s; st_last_reconciliation := st_last_reconciliation s;
  st_command_receipts := st_command_receipts s
|}.

(** ** Prices: quotes, admissions, prepared orders and events *)
Context `{DO : DecimalOps}.

Record ProbeAuthorization := {
  pa_schema_version : Z;
  pa_campaign_id : string;
  pa_campaign_authorization_hash : string;
  pa_probe_ordinal : Z;
  pa_condition_id : PolymarketConditionId;
  pa_outcome_id : OutcomeId;
  pa_token_id : PolymarketTokenId;
  pa_shares : ShareAmount;
  pa_worst_price : Price;
  pa_maximum_collateral : CollateralAmount;
  pa_resolver_card_hash : string;
  pa_authority_hash : string;
  pa_expires_at : OffsetDateTime
}.

Record CanaryQuote := {
  q_origin : CanaryOrigin;
  q_request_identity : string;
  q_snapshot_raw_hash : string;
  q_snapshot_observed_at_ms : Z;
  q_condition_id : PolymarketConditionId;
  q_outcome_id : OutcomeId;
  q_token_id : PolymarketTokenId;
  q_full_ask_ladder_hash : string;
  q_best_ask : Price;
  q_executable_ask : Price;
  q_origin_price_ceiling : Price;
  q_kelly_cost : option Price;
  q_minimum_fill_price : Price;
  q_maximum_fill_price_exclusive : Price;
  q_minimum_tick_size : Price;
  q_minimum_order_size : ShareAmount;
  q_shares : ShareAmount;
  q_maximum_collateral : CollateralAmount;
  q_metadata_hashes : list string;
  q_expires_at : OffsetDateTime
}.

Record CanaryAdmission := {
  adm_identity : string;
  adm_campaign_id : string;
  adm_origin : CanaryOrigin;
  adm_neutral_request_hash : string;
  adm_resolver_card_hash : string;
  adm_quote : CanaryQuote;
  adm_risk : CanaryRiskSnapshot;
  adm_attribution : AttemptAttribution;
  adm_probe_authorization : option ProbeAuthorization;
  adm_organic_decision_proof : option OrganicDecisionProof
}.

(** venue-polymarket [v2.rs] *)
Record PreparedPolymarketBuy := {
  pb_condition_id : PolymarketConditionId;
  pb_outcome_id : OutcomeId;
  pb_token_id : PolymarketTokenId;
  pb_maker : string;
  pb_signer : string;
  pb_funder : string;
  pb_verifying_contract : string;
  pb_spender : string;
  pb_exchange_domain_version : Z;
  pb_neg_risk : bool;
  pb_side : string;
  pb_salt : string;
  pb_timestamp_ms : Z;
  pb_expiration : string;
  pb_maker_collateral : CollateralAmount;
  pb_taker_shares : ShareAmount;
  pb_limit_price : Price;
  pb_minimum_tick_size : Price;
  pb_signature_type : Z;
  pb_order_type : string;
  pb_post_only : bool;
  pb_defer_exec : bool;
  pb_metadata : string;
  pb_builder : string;
  pb_order_hash : string;
  pb_post_body_hash : string;
  pb_sdk_version : string;
  pb_sdk_archive_sha256 : string;
  pb_metadata_hashes : list string;
  pb_worst_case_debit : CollateralAmount
}.

Inductive CanaryEvent : Type :=
| CampaignArmed (authorization : CampaignAuthorization) (receipt : CommandReceipt)
| ProbeReviewAccepted (campaign_id : string) (reviewed_probe_ordinal : Z) (reviewed_probe_hash : string)
    (receipt : CommandReceipt)
| OrganicStageArmed (authorization : OrganicStageAuthorization) (receipt : CommandReceipt)
| PreReservationSkipped (identity reason : string) (evidence_hashes : list string) (receipt : CommandReceipt)
| AttemptReserved (admission : CanaryAdmission) (prepared : PreparedPolymarketBuy) (receipt : CommandReceipt)
| PostInFlight (identity order_hash post_body_hash : string)
| HttpResponseCaptured (identity source_id endpoint_kind method path : string)
    (ordered_query : list (string * string)) (attempt_ordinal status : Z) (headers : list (string * string))
    (source_at : option OffsetDateTime) (observed_at received_at : OffsetDateTime)
    (schema_version parser_version : Z) (adapter_version raw_body_hash : string) (raw_body : list Z)
| HttpTransportFailed (identity source_id endpoint_kind method path : string)
    (ordered_query : list (string * string)) (attempt_ordinal : Z) (observed_at received_at : OffsetDateTime)
    (error_class : TransportErrorClass) (schema_version parser_version : Z) (adapter_version : string)
| ArtifactCaptured (identity source_id artifact_kind path : string) (observed_at received_at : OffsetDateTime)
    (schema_version parser_version : Z) (adapter_version raw_body_hash : string) (raw_body : list Z)
| ReconciliationRecorded (context : string) (snapshot : CanaryReconciliation)
    (receipt : option CommandReceipt) (final_for_shutdown : bool)
| ReconciliationFailed (context error_class : string) (final_for_shutdown : bool)
| PostReturned (identity : string) (success definitive : bool) (order_id : string)
    (error_message : option string)
| AdmissionClosed (reason : ClosureReason) (receipt : option CommandReceipt)
| RecoveryRequired (reason : ClosureReason)
| CampaignClosed.

(** ** Commitments of authorities *)
Definition probe_payload : Type :=
  (Z * string * string * Z * PolymarketConditionId * OutcomeId * PolymarketTokenId * ShareAmount * Price
   * CollateralAmount * string * OffsetDateTime)%type.

Section AuthorityHashes.
Context {B3 : Blake3} {V3 : ToVec probe_payload} {V4 : ToVec CampaignAuthorization} {V5 : ToVec (list string)}.

Definition probe_authority_hash (a : ProbeAuthorization) : result CanaryStateError string :=
  map_err Encoding (json_hash (A := probe_payload)
    (pa_schema_version a, pa_campaign_id a, pa_campaign_authorization_hash a, pa_probe_ordinal a,
     pa_condition_id a, pa_outcome_id a, pa_token_id a, pa_shares a, pa_worst_price a,
     pa_maximum_collateral a, pa_resolver_card_hash a, pa_expires_at a)).
Definition campaign_authorization_hash (a : CampaignAuthorization) : result CanaryStateError string :=
  map_err Encoding (json_hash a).
Definition organic_evidence_bundle_hash (reviewed_probe_hashes : list string) : result CanaryStateError string :=
  map_err Encoding (json_hash reviewed_probe_hashes).
End AuthorityHashes.

End CanaryData.
