(* ===== verification/LiveTypes.v ===== *)
(** * Records of the ordinary live journal
      (crates/execution-core/src/live_journal.rs, with the types of economic.rs,
      resolver-card and source-polymarket-public it stores)

    Everything an account's live order leaves behind, in the order it happens: the
    control observation that lets it pass, the evaluated admission with its
    economics and account evidence, the prepared order, its POST, reconciliations,
    and finality; beside them the redemption records and portfolio marks.  Equality
    of records that carry decimals is by value, as the derived [PartialEq] is:
    [rust_eq], built field by field. *)

From S2P Require Import Prelude CoreTypes Bytes LogFrame LogChain LogScanner LogWriter RiskEngine WinnerFollow Fee Ladder CanaryTypes.
#[local] Open Scope Z_scope.

(** ** [PartialEq] *)
Class PartialEq (A : Type) := rust_eq : A → A → bool.
#[export] Instance partial_eq_dec {A} `{EqDecision A} : PartialEq A | 50 := λ a b, bool_decide (a = b).
#[export] Instance partial_eq_option {A} `{PartialEq A} : PartialEq (option A) | 10 := λ a b,
  match a, b with Some a, Some b => rust_eq a b | None, None => true | _, _ => false end.
#[export] Instance partial_eq_list {A} `{PartialEq A} : PartialEq (list A) | 10 :=
  fix eq a b := match a, b with
                | [], [] => true
                | x :: a, y :: b => rust_eq x y && eq a b
                | _, _ => false
                end.
#[export] Instance partial_eq_decimal `{DO : DecimalOps} : PartialEq Decimal | 1 := dec_eqb.
#[export] Instance partial_eq_price `{DO : DecimalOps} : PartialEq Price | 1 := price_eqb.

#[export] Instance PolymarketConditionId_eq_dec : EqDecision PolymarketConditionId.
Proof. solve_decision. Defined.
#[export] Instance PolymarketTokenId_eq_dec : EqDecision PolymarketTokenId.
Proof. solve_decision. Defined.

(** ** serde_json values, as retained and inspected

    Objects list their members in the order the map iterates; a number keeps the
    text [to_string] prints. *)
#[local] Set Warnings "-register-all".
Inductive JsonValue : Type :=
| JNull
| JBool (b : bool)
| JNumber (text : string)
| JString (s : string)
| JArray (items : list JsonValue)
| JObject (members : list (string * JsonValue)).
Definition member (key : string) (members : list (string * JsonValue)) : option JsonValue :=
  snd <$> (snd <$> list_find (λ m, m.1 = key) members).
Definition json_get (key : string) (v : JsonValue) : option JsonValue :=
  match v with JObject members => member key members | _ => None end.
Definition as_bool (v : JsonValue) : option bool := match v with JBool b => Some b | _ => None end.
Definition as_str (v : JsonValue) : option string := match v with JString s => Some s | _ => None end.
Definition as_object (v : JsonValue) : option (list (string * JsonValue)) := match v with JObject m => Some m | _ => None end.

(** ** Identities *)
Record CredentialBindingIdentity := { cb_version : Z; cb_key_id : string }.
#[export] Instance CredentialBindingIdentity_eq_dec : EqDecision CredentialBindingIdentity.
Proof. solve_decision. Defined.

Record SanitizedHttpRequestDescriptor := {
  rd_account_id : string;
  rd_credential_fingerprint : string;
  rd_custody_wallet : string;
  rd_method : string;
  rd_path : string;
  rd_partition : string;
  rd_offset : Z;
  rd_ordered_query : list (string * string)
}.

Record LiveAccountBindingAudit := {
  ab_account_id : AccountId;
  ab_credential : CredentialBindingIdentity;
  ab_custody_wallet : string;
  ab_credential_fingerprint : string
}.
Definition LiveAccountBindingAudit_new (account_id : AccountId) (credential : CredentialBindingIdentity)
    (custody_wallet : WalletAddress) (credential_fingerprint : string) : LiveAccountBindingAudit := {|
  ab_account_id := account_id; ab_credential := credential;
  ab_custody_wallet := wallet_to_string custody_wallet; ab_credential_fingerprint := credential_fingerprint
|}.
(** The wallet text is canonical, and the fingerprint is 64 lower-case hex digits. *)
Definition is_valid_for (b : LiveAccountBindingAudit) (account_id : AccountId) : bool :=
  bool_decide (ab_account_id b = account_id)
  && match from_hex (ab_custody_wallet b) with
     | Ok wallet => bool_decide (wallet_to_string wallet = ab_custody_wallet b)
     | Err _ => false
     end
  && (Z.of_nat (length (string_bytes (ab_credential_fingerprint b))) =? 64)
  && forallb is_lower_hex (string_bytes (ab_credential_fingerprint b)).
Definition is_valid_for_frozen_credential (b : LiveAccountBindingAudit) (account_id : AccountId)
    (frozen_credential : CredentialBindingIdentity) : bool :=
  is_valid_for b account_id && bool_decide (ab_credential b = frozen_credential).
Definition request_descriptor (b : LiveAccountBindingAudit) (method path partition : string) (offset : Z)
    (ordered_query : list (string * string)) : SanitizedHttpRequestDescriptor := {|
  rd_account_id := account_slug (ab_account_id b); rd_credential_fingerprint := ab_credential_fingerprint b;
  rd_custody_wallet := ab_custody_wallet b; rd_method := method; rd_path := path; rd_partition := partition;
  rd_offset := offset; rd_ordered_query := ordered_query
|}.

Record LiveFillProjectionIdentity := {
  fp_leader_wallet : string;
  fp_source_trade_id : option string;
  fp_market_id : string;
  fp_outcome_id : Z;
  fp_side : string
}.
#[export] Instance LiveFillProjectionIdentity_eq_dec : EqDecision LiveFillProjectionIdentity.
Proof. solve_decision. Defined.
Record LiveOrderIdentity := {
  oi_dispatch_id : string;
  oi_idempotency_key : string;
  oi_quote_id : string;
  oi_config_hash : string;
  oi_decision_hash : string;
  oi_evidence_hashes : list string;
  oi_fill_projection : option LiveFillProjectionIdentity;
  oi_schema_version : Z;
  oi_parser_version : Z
}.
#[export] Instance LiveOrderIdentity_eq_dec : EqDecision LiveOrderIdentity.
Proof. solve_decision. Defined.
Definition idempotency_key_for (dispatch_id : string) (account_id : AccountId) : string :=
  dispatch_id +:+ ":" +:+ account_slug account_id.

Inductive LiveControlMode : Type := ModeOff | LiveTiny.
#[export] Instance LiveControlMode_eq_dec : EqDecision LiveControlMode.
Proof. solve_decision. Defined.

(** ** Venue settlement (crates/resolver-card/src/venue_settlement.rs) *)
Definition VENUE_SETTLEMENT_SCHEMA_VERSION : Z := 1.
Inductive VenueResolutionStatus : Type := Unresolved | ResolvedWinner (outcome_index : Z) | ResolvedAmbiguous.
#[export] Instance VenueResolutionStatus_eq_dec : EqDecision VenueResolutionStatus.
Proof. solve_decision. Defined.
Record VenueSettlementRecord := {
  vs_schema_version : Z;
  vs_condition_id : PolymarketConditionId;
  vs_status : VenueResolutionStatus;
  vs_raw_evidence_hash : string;
  vs_source_timestamp_unix : option Z;
  vs_observed_at_unix : Z;
  vs_parser_version : Z;
  vs_freshness_window_secs : Z
}.
#[export] Instance VenueSettlementRecord_eq_dec : EqDecision VenueSettlementRecord.
Proof. solve_decision. Defined.
Inductive VenueSettlementError : Type :=
| SettlementSchema (version : Z) | SettlementStale | AlreadyResolved | SettlementAmbiguousError.

(** ** Receipts of sources *)
Record AdmissionReceipts := {
  receipt_gamma : AppendReceipt;
  receipt_clob_long : AppendReceipt;
  receipt_clob_compact : AppendReceipt
}.
#[export] Instance AdmissionReceipts_eq_dec : EqDecision AdmissionReceipts.
Proof. solve_decision. Defined.

(** ** Redemption requests *)
Record RedemptionAttemptIdentity := {
  account_id : AccountId;
  id_condition : PolymarketConditionId;
  adapter : string;
  id_custody_wallet : string
}.
#[export] Instance RedemptionAttemptIdentity_eq_dec : EqDecision RedemptionAttemptIdentity.
Proof. solve_decision. Defined.
Definition identity_code (i : RedemptionAttemptIdentity) : string * string * string * string :=
  (account_slug (account_id i), condition_id_str (id_condition i), adapter i, id_custody_wallet i).
Definition identity_decode (c : string * string * string * string) : RedemptionAttemptIdentity :=
  {| account_id := {| account_slug := c.1.1.1 |}; id_condition := {| condition_id_str := c.1.1.2 |};
     adapter := c.1.2; id_custody_wallet := c.2 |}.
#[export] Instance RedemptionAttemptIdentity_countable : Countable RedemptionAttemptIdentity.
Proof. refine (inj_countable' identity_code identity_decode _). abstract (by intros [[] []]). Defined.

Inductive CustodyKind : Type := DepositWallet | ProxyWallet | SafeWallet | Eoa.
Inductive RedemptionCustodyAudit : Type :=
| AuditDepositWallet | AuditProxy | AuditSafe | AuditEoa.

Record RedemptionRequestAudit := {
  audit_call_to : string;
  audit_calldata : list Z;
  audit_condition_id : PolymarketConditionId;
  audit_neg_risk : bool;
  audit_custody : RedemptionCustodyAudit;
  audit_signer_address : string;
  audit_custody_wallet : string;
  audit_deadline_unix : option Z;
  audit_metadata_hash : string;
  audit_request_hash : string;
  audit_schema_version : Z;
  audit_parser_version : Z;
  audit_adapter_version : string
}.

Inductive RedemptionReceiptStatusAudit : Type :=
| ReceiptPending | ReceiptConfirmed | ReceiptTerminalFailure | ReceiptAmbiguous.

Record RedemptionRequestedAudit := {
  req_identity : RedemptionAttemptIdentity;
  req_attempt_count : Z;
  req_redeemable_balance : CollateralAmount;
  req_request : RedemptionRequestAudit
}.

(** ** Positions, modes and marks *)
Inductive LiveModeTransitionReason : Type :=
| ReasonArmed | OperatorKill | CredentialInvalidated | PromotionInvalidated | ReasonClosedOnly.
Record LiveModeTransitionAudit := {
  mt_requested : LiveControlMode;
  mt_previous_effective : LiveControlMode;
  mt_new_effective : LiveControlMode;
  mt_reason : LiveModeTransitionReason
}.
Record CanonicalPositionAudit := {
  cp_condition_id : PolymarketConditionId;
  cp_outcome_index : Z;
  cp_token_id : PolymarketTokenId;
  cp_size : ShareAmount;
  cp_redeemable : bool
}.
Record LivePositionPageAudit := { pp_request_identity : string; pp_receipt : AppendReceipt }.
Record LivePositionEvidenceAudit := { pe_requested_wallet : string; pe_pages : list LivePositionPageAudit }.
Record ResolutionFinalizedAudit := {
  rf_condition_id : PolymarketConditionId;
  rf_payout_by_outcome_index_json : string;
  rf_source_append_receipt : AppendReceipt
}.
Inductive MarkKind : Type := Baseline | Daily.
#[export] Instance MarkKind_eq_dec : EqDecision MarkKind.
Proof. solve_decision. Defined.

(** [i64] subtraction in a build without overflow checks. *)
Definition wrapping_sub_i64 (a b : Z) : Z := (a - b + 2 ^ 63) mod 2 ^ 64 - 2 ^ 63.

(** ** The errors of the journal, [Poisoned] aside: no call panics inside the mutex *)
Inductive LiveJournalError : Type :=
| InvalidControlEvidence
| InsecurePermissions
| LiveIo (e : IoError)
| LiveEventLog (e : LogError)
| LiveEncoding (e : string)
| UnexpectedEnvelope
| SequenceMismatch
| OrderFactConflict
| RequestBinding
| InvalidFinalityEvidence
| Unpublished.

Section LiveData.
Context `{TO : TimeOps} `{DO : DecimalOps}.

Definition validate_fresh_for_entry (r : VenueSettlementRecord) (now : OffsetDateTime) : result VenueSettlementError unit :=
  if negb (vs_schema_version r =? VENUE_SETTLEMENT_SCHEMA_VERSION) then Err (SettlementSchema (vs_schema_version r))
  else
    let age := wrapping_sub_i64 (unix_timestamp now) (vs_observed_at_unix r) in
    if (age <? 0) || (vs_freshness_window_secs r <? age) then Err SettlementStale
    else match vs_status r with
         | Unresolved => Ok tt
         | ResolvedWinner _ => Err AlreadyResolved
         | ResolvedAmbiguous => Err SettlementAmbiguousError
         end.

(** ** Market evidence (crates/source-polymarket-public/src/live_admission.rs) *)
Definition LIVE_MARKET_SCHEMA_VERSION : Z := 1.
Definition LIVE_MARKET_PARSER_VERSION : Z := 1.
Record LiveMarketEvidence := {
  me_condition_id : PolymarketConditionId;
  me_ordered_outcome_token_ids : PolymarketTokenId * PolymarketTokenId;
  me_neg_risk : bool;
  me_neg_risk_market_id : option string;
  me_series_recurrence : option string;
  me_minimum_tick_size : Price;
  me_minimum_order_size : ShareAmount;
  me_scheduled_end_unix : option Z;
  me_observed_at_unix : Z;
  me_schema_version : Z;
  me_parser_version : Z;
  me_freshness_window_secs : Z
}.
(** The errors [validate_fresh] can give. *)
Inductive LiveMarketError : Type := FutureObservation | MarketStale.
Definition validate_fresh (observed_at_unix freshness_window_secs now_unix : Z) : result LiveMarketError unit :=
  age ← ok_or (fits I64_MIN I64_MAX (now_unix - observed_at_unix)) FutureObservation;
  if age <? 0 then Err FutureObservation
  else if freshness_window_secs <? age then Err MarketStale else Ok tt.

Record LiveMarketEvidenceAudit := {
  ma_condition_id : PolymarketConditionId;
  ma_ordered_outcome_token_ids : PolymarketTokenId * PolymarketTokenId;
  ma_neg_risk : bool;
  ma_minimum_tick_size : Price;
  ma_minimum_order_size : ShareAmount;
  ma_observed_at_unix : Z;
  ma_schema_version : Z;
  ma_parser_version : Z;
  ma_freshness_window_secs : Z
}.
Definition market_audit (value : LiveMarketEvidence) : LiveMarketEvidenceAudit := {|
  ma_condition_id := me_condition_id value; ma_ordered_outcome_token_ids := me_ordered_outcome_token_ids value;
  ma_neg_risk := me_neg_risk value; ma_minimum_tick_size := me_minimum_tick_size value;
  ma_minimum_order_size := me_minimum_order_size value; ma_observed_at_unix := me_observed_at_unix value;
  ma_schema_version := me_schema_version value; ma_parser_version := me_parser_version value;
  ma_freshness_window_secs := me_freshness_window_secs value
|}.
(** [ordered_outcome_token_ids.get(index)] *)
Definition token_at (tokens : PolymarketTokenId * PolymarketTokenId) (index : Z) : option PolymarketTokenId :=
  [tokens.1; tokens.2] !! Z.to_nat index.
#[export] Instance partial_eq_market : PartialEq LiveMarketEvidenceAudit := λ a b,
  rust_eq (ma_condition_id a) (ma_condition_id b)
  && rust_eq (ma_ordered_outcome_token_ids a) (ma_ordered_outcome_token_ids b)
  && rust_eq (ma_neg_risk a) (ma_neg_risk b) && rust_eq (ma_minimum_tick_size a) (ma_minimum_tick_size b)
  && rust_eq (ma_minimum_order_size a) (ma_minimum_order_size b)
  && rust_eq (ma_observed_at_unix a) (ma_observed_at_unix b) && rust_eq (ma_schema_version a) (ma_schema_version b)
  && rust_eq (ma_parser_version a) (ma_parser_version b)
  && rust_eq (ma_freshness_window_secs a) (ma_freshness_window_secs b).

#[export] Instance partial_eq_schedule : PartialEq CompactFeeSchedule := λ a b,
  match a, b with
  | ZeroFee, ZeroFee => true
  | Taker r, Taker r' => rust_eq r r'
  | _, _ => false
  end.
Record LiveAdmissionArtifactAudit := {
  aa_market : LiveMarketEvidenceAudit;
  aa_settlement : VenueSettlementRecord;
  aa_fee_schedule : CompactFeeSchedule;
  aa_scheduled_end_unix : option Z;
  aa_receipts : AdmissionReceipts
}.
Definition LiveAdmissionArtifactAudit_new (market : LiveMarketEvidence) (settlement : VenueSettlementRecord)
    (fee_schedule : CompactFeeSchedule) (receipts : AdmissionReceipts) : LiveAdmissionArtifactAudit := {|
  aa_market := market_audit market; aa_settlement := settlement; aa_fee_schedule := fee_schedule;
  aa_scheduled_end_unix := me_scheduled_end_unix market; aa_receipts := receipts
|}.
#[export] Instance partial_eq_artifact : PartialEq LiveAdmissionArtifactAudit := λ a b,
  rust_eq (aa_market a) (aa_market b) && rust_eq (aa_settlement a) (aa_settlement b)
  && rust_eq (aa_fee_schedule a) (aa_fee_schedule b) && rust_eq (aa_scheduled_end_unix a) (aa_scheduled_end_unix b)
  && rust_eq (aa_receipts a) (aa_receipts b).

(** ** The audited ladder *)
Record LadderAskAudit := { la_price : Price; la_shares : ShareAmount }.
Record LadderPlanAudit := {
  lp_used_asks : list LadderAskAudit;
  lp_best_ask : Price;
  lp_limit_price : Price;
  lp_minimum_shares : ShareAmount;
  lp_principal : CollateralAmount
}.
#[export] Instance partial_eq_ask : PartialEq LadderAskAudit := λ a b,
  rust_eq (la_price a) (la_price b) && rust_eq (la_shares a) (la_shares b).
#[export] Instance partial_eq_ladder : PartialEq LadderPlanAudit := λ a b,
  rust_eq (lp_used_asks a) (lp_used_asks b) && rust_eq (lp_best_ask a) (lp_best_ask b)
  && rust_eq (lp_limit_price a) (lp_limit_price b) && rust_eq (lp_minimum_shares a) (lp_minimum_shares b)
  && rust_eq (lp_principal a) (lp_principal b).
Definition ask_audit (ask : AskLevel) : LadderAskAudit := {| la_price := ask_price ask; la_shares := ask_shares ask |}.
Definition LadderPlanAudit_new (plan : LadderPlan) : LadderPlanAudit := {|
  lp_used_asks := ask_audit <$> used_asks plan; lp_best_ask := best_ask plan;
  lp_limit_price := plan_limit_price plan; lp_minimum_shares := plan_shares plan;
  lp_principal := worst_case_debit plan
|}.
Definition audit_expected_shares (plan : LadderPlanAudit) : result Error ShareAmount :=
  try_fold (λ total ask, share_checked_add total (la_shares ask)) amount_ZERO (lp_used_asks plan).
Definition audit_expected_spend (plan : LadderPlanAudit) : result Error CollateralAmount :=
  spend ← try_fold (λ total ask,
            ok_or (value ← dec_checked_mul (to_decimal (la_shares ask)) (price_value (la_price ask));
                   dec_checked_add total value) (OutOfRange "LadderPlanAudit.expected_spend"))
            dec_ZERO (lp_used_asks plan);
  from_decimal_exact "CollateralAmount" (dec_round_floor 6 spend).
Definition audit_expected_vwap (plan : LadderPlanAudit) : option Price :=
  shares ← result_ok (audit_expected_shares plan);
  if dec_leb (to_decimal shares) dec_ZERO then None
  else
    spend ← result_ok (audit_expected_spend plan);
    ratio ← dec_checked_div (to_decimal spend) (to_decimal shares);
    result_ok (Price_new ratio).

(** ** Economics (crates/execution-core/src/economic.rs) *)
Record MarketSelection := {
  ms_condition_id : PolymarketConditionId;
  ms_outcome_index : Z;
  ms_token_id : PolymarketTokenId;
  ms_side : Side;
  ms_market_id : string
}.
#[export] Instance MarketSelection_eq_dec : EqDecision MarketSelection.
Proof. solve_decision. Defined.
Inductive SizingModeAudit : Type :=
| KellyMode (fraction : KellyFraction) (probability : Probability)
| DollarMode (usd : Decimal)
| ContractMode (contracts : Z).
#[export] Instance partial_eq_mode : PartialEq SizingModeAudit := λ a b,
  match a, b with
  | KellyMode f p, KellyMode f' p' => rust_eq (kelly_value f) (kelly_value f') && rust_eq (prob_value p) (prob_value p')
  | DollarMode usd, DollarMode usd' => rust_eq usd usd'
  | ContractMode n, ContractMode n' => rust_eq n n'
  | _, _ => false
  end.
Record SizingAudit := {
  sz_mode : SizingModeAudit;
  sz_budget : CollateralAmount;
  sz_principal : CollateralAmount;
  sz_minimum_shares : ShareAmount;
  sz_expected_shares : ShareAmount;
  sz_expected_vwap : Price;
  sz_all_in_price : Price;
  sz_slippage_rate : Decimal
}.
#[export] Instance partial_eq_sizing : PartialEq SizingAudit := λ a b,
  rust_eq (sz_mode a) (sz_mode b) && rust_eq (sz_budget a) (sz_budget b) && rust_eq (sz_principal a) (sz_principal b)
  && rust_eq (sz_minimum_shares a) (sz_minimum_shares b) && rust_eq (sz_expected_shares a) (sz_expected_shares b)
  && rust_eq (sz_expected_vwap a) (sz_expected_vwap b) && rust_eq (sz_all_in_price a) (sz_all_in_price b)
  && rust_eq (sz_slippage_rate a) (sz_slippage_rate b).
Record FeeAudit := { fa_schedule : CompactFeeSchedule; fa_expected_fee : CollateralAmount; fa_reserve : CollateralAmount }.
#[export] Instance partial_eq_fee : PartialEq FeeAudit := λ a b,
  rust_eq (fa_schedule a) (fa_schedule b) && rust_eq (fa_expected_fee a) (fa_expected_fee b)
  && rust_eq (fa_reserve a) (fa_reserve b).
(** [RiskDecisionAudit] mirrors [RiskDecision]. *)
Record RiskAudit := {
  ra_financial_prefix : AppendReceipt;
  ra_snapshot : RiskSnapshot;
  ra_decision : RiskDecision;
  ra_price_receipts : list AppendReceipt;
  ra_evaluated_at_unix_ms : Z
}.
#[export] Instance ConcentrationCaps_eq_dec : EqDecision ConcentrationCaps.
Proof. solve_decision. Defined.
#[export] Instance RiskSnapshot_eq_dec : EqDecision RiskSnapshot.
Proof. solve_decision. Defined.
#[export] Instance RiskAudit_eq_dec : EqDecision RiskAudit.
Proof. solve_decision. Defined.
Record BalanceAudit := {
  ba_cash_before : CollateralAmount;
  ba_worst_case_debit : CollateralAmount;
  ba_price_impact_cap_bps : Z;
  ba_chase_ceiling : Price;
  ba_band_floor : Price;
  ba_band_ceiling_exclusive : Price
}.
#[export] Instance partial_eq_balance : PartialEq BalanceAudit := λ a b,
  rust_eq (ba_cash_before a) (ba_cash_before b) && rust_eq (ba_worst_case_debit a) (ba_worst_case_debit b)
  && rust_eq (ba_price_impact_cap_bps a) (ba_price_impact_cap_bps b)
  && rust_eq (ba_chase_ceiling a) (ba_chase_ceiling b) && rust_eq (ba_band_floor a) (ba_band_floor b)
  && rust_eq (ba_band_ceiling_exclusive a) (ba_band_ceiling_exclusive b).
Record ObservationEvidence := {
  oe_source_receipt : AppendReceipt;
  oe_complete_bound_receipt : AppendReceipt;
  oe_observed_unix_ms : Z;
  oe_provenance : string
}.
#[export] Instance ObservationEvidence_eq_dec : EqDecision ObservationEvidence.
Proof. solve_decision. Defined.
Record EconomicPrepared := {
  eco_version : Z;
  eco_market : MarketSelection;
  eco_admission : LiveAdmissionArtifactAudit;
  eco_ladder : LadderPlanAudit;
  eco_book_receipt : AppendReceipt;
  eco_observation : option ObservationEvidence;
  eco_sizing : SizingAudit;
  eco_fee : FeeAudit;
  eco_risk : RiskAudit;
  eco_balance : BalanceAudit;
  eco_applied_configuration_hash : string
}.
#[export] Instance partial_eq_economic : PartialEq EconomicPrepared := λ a b,
  rust_eq (eco_version a) (eco_version b) && rust_eq (eco_market a) (eco_market b)
  && rust_eq (eco_admission a) (eco_admission b) && rust_eq (eco_ladder a) (eco_ladder b)
  && rust_eq (eco_book_receipt a) (eco_book_receipt b) && rust_eq (eco_observation a) (eco_observation b)
  && rust_eq (eco_sizing a) (eco_sizing b) && rust_eq (eco_fee a) (eco_fee b) && rust_eq (eco_risk a) (eco_risk b)
  && rust_eq (eco_balance a) (eco_balance b)
  && rust_eq (eco_applied_configuration_hash a) (eco_applied_configuration_hash b).
Definition eco_worst_case_all_in_debit (e : EconomicPrepared) : result Error CollateralAmount :=
  collateral_checked_add (sz_principal (eco_sizing e)) (fa_reserve (eco_fee e)).
Definition eco_all_in_debit (e : EconomicPrepared) : result Error CollateralAmount :=
  collateral_checked_add (sz_principal (eco_sizing e)) (fa_expected_fee (eco_fee e)).

(** ** Captured HTTP traffic *)
Inductive RawHttpAttempt : Type :=
| Response (r : RawHttpResponse)
| TransportFailure (f : RawTransportFailure).
#[export] Instance TransportErrorClass_eq_dec : EqDecision TransportErrorClass.
Proof. solve_decision. Defined.
#[export] Instance RawHttpResponse_eq_dec : EqDecision RawHttpResponse.
Proof. solve_decision. Defined.
#[export] Instance RawTransportFailure_eq_dec : EqDecision RawTransportFailure.
Proof. solve_decision. Defined.
#[export] Instance RawHttpAttempt_eq_dec : EqDecision RawHttpAttempt.
Proof. solve_decision. Defined.
Inductive RawPostAttempt : Type :=
| Attempted (response : RawHttpResponse)
| NotAttempted (checked_at : OffsetDateTime).

Definition request_descriptor_for_attempt (b : LiveAccountBindingAudit) (attempt : RawHttpAttempt) :
    SanitizedHttpRequestDescriptor :=
  match attempt with
  | Response r => request_descriptor b (rsp_method r) (rsp_path r) (rsp_endpoint_kind r) 0 (rsp_ordered_query r)
  | TransportFailure f => request_descriptor b (tf_method f) (tf_path f) (tf_endpoint_kind f) 0 (tf_ordered_query f)
  end.

(** ** Admission *)
Inductive LiveAccountReadFailure : Type := ReadTransport | ReadAuthentication | ReadProtocol | ReadStale.
#[export] Instance LiveAccountReadFailure_eq_dec : EqDecision LiveAccountReadFailure.
Proof. solve_decision. Defined.
Record LiveAccountStateAudit := {
  as_observed_at : OffsetDateTime;
  as_closed_only : bool;
  as_geoblocked : bool;
  as_selected_spender : string;
  as_collateral_balance : CollateralAmount;
  as_allowance : CollateralAmount;
  as_reconciled_free_collateral : CollateralAmount;
  as_schema_version : Z;
  as_parser_version : Z;
  as_evidence : list RawHttpAttempt;
  as_request_descriptor_hashes : list string;
  as_evidence_hashes : list string
}.
#[export] Instance LiveAccountStateAudit_eq_dec : EqDecision LiveAccountStateAudit.
Proof. solve_decision. Defined.

Inductive LiveAdmissionRefusal : Type :=
| ModeNotArmed | CredentialVersionChanged | MarketEvidenceStale | MarketEvidenceInvalid | SettlementEvidenceStale
| MarketAlreadyResolved | SettlementAmbiguous | ArtifactIdentityMismatch | LadderInvalid
| AccountStateUnavailable (kind : LiveAccountReadFailure)
| RefusedClosedOnly | RefusedGeoblocked
| InsufficientBalance (required available : CollateralAmount)
| InsufficientAllowance (required available : CollateralAmount)
| WorstCaseDebitExceedsFreeCollateral (required available : CollateralAmount).
#[export] Instance LiveAdmissionRefusal_eq_dec : EqDecision LiveAdmissionRefusal.
Proof. solve_decision. Defined.
Inductive LiveAdmissionVerdict : Type := VerdictApproved | Refused (reason : LiveAdmissionRefusal).
#[export] Instance LiveAdmissionVerdict_eq_dec : EqDecision LiveAdmissionVerdict.
Proof. solve_decision. Defined.
Record LiveAdmissionEvaluationAudit := {
  ae_identity : LiveOrderIdentity;
  ae_frozen_binding : CredentialBindingIdentity;
  ae_current_binding : CredentialBindingIdentity;
  ae_requested_mode : LiveControlMode;
  ae_effective_mode : LiveControlMode;
  ae_economic : EconomicPrepared;
  ae_account_state : option LiveAccountStateAudit;
  ae_failure_evidence : list RawHttpAttempt;
  ae_failure_request_descriptor_hashes : list string;
  ae_failure_evidence_hashes : list string;
  ae_verdict : LiveAdmissionVerdict
}.

Inductive LiveOrderPreparationFailure : Type :=
| PreparationVenue | PreparedAuditMismatch | RecoveryCredentialChanged | RecoveryAdmissionExpired
| PrePostRiskDayChanged | PrePostRiskPriceExpired | PrePostLadderExpired | PrePostCopyExpired | PrePostScopeDropped
| PrePostAdmissionExpired | PrePostMarkUnavailable | PrePostNotArmed | PrePostControlUnavailable.
#[export] Instance LiveOrderPreparationFailure_eq_dec : EqDecision LiveOrderPreparationFailure.
Proof. solve_decision. Defined.
Definition preparation_terminal_reason (f : LiveOrderPreparationFailure) (has_control : bool) : string :=
  match f with
  | RecoveryCredentialChanged => "recovery_credential_changed"
  | RecoveryAdmissionExpired => if has_control then "recovery_account_not_armed" else "recovery_admission_expired"
  | PrePostRiskDayChanged | PrePostRiskPriceExpired => "recovery_risk_evidence_expired"
  | PrePostLadderExpired => "recovery_ladder_expired"
  | PrePostCopyExpired => "copy_expired_before_post"
  | PrePostScopeDropped => "scope_dropped_before_post"
  | PrePostNotArmed => "not_armed"
  | PrePostControlUnavailable => "control_unavailable"
  | PreparationVenue | PreparedAuditMismatch | PrePostAdmissionExpired | PrePostMarkUnavailable => "rejected"
  end.

(** ** Control observations *)
Inductive LiveControlAvailability : Type := ControlFresh | ControlFailedRead | ControlStale.
#[export] Instance LiveControlAvailability_eq_dec : EqDecision LiveControlAvailability.
Proof. solve_decision. Defined.
Record LiveControlObservation := {
  lc_decided_at_unix : Z;
  lc_last_successful_read_unix : option Z;
  lc_stale_after_secs : Z;
  lc_availability : LiveControlAvailability;
  lc_account_present : bool;
  lc_requested_mode : option LiveControlMode;
  lc_effective_mode : option LiveControlMode;
  lc_credential_version_available : bool;
  lc_bundle_version : option Z
}.
#[export] Instance LiveControlObservation_eq_dec : EqDecision LiveControlObservation.
Proof. solve_decision. Defined.
Definition fresh_time (c : LiveControlObservation) : bool :=
  match read ← lc_last_successful_read_unix c; fits I64_MIN I64_MAX (lc_decided_at_unix c - read) with
  | Some age => (0 <=? age) && (age <? lc_stale_after_secs c)
  | None => false
  end.
Definition valid_shape (c : LiveControlObservation) : bool :=
  if (lc_stale_after_secs c <=? 0)
     || negb (eqb (lc_account_present c) (bool_decide (is_Some (lc_requested_mode c))))
     || negb (eqb (lc_account_present c) (bool_decide (is_Some (lc_effective_mode c))))
     || (negb (lc_account_present c)
         && (bool_decide (is_Some (lc_bundle_version c)) || lc_credential_version_available c))
     || (negb (lc_credential_version_available c) && bool_decide (is_Some (lc_bundle_version c)))
  then false
  else match lc_availability c with
       | ControlFresh | ControlFailedRead => fresh_time c
       | ControlStale => negb (fresh_time c)
       end.
Definition permits_mode (c : LiveControlObservation) : bool :=
  valid_shape c && bool_decide (lc_availability c = ControlFresh)
  && bool_decide (lc_requested_mode c = Some LiveTiny) && bool_decide (lc_effective_mode c = Some LiveTiny).
Definition control_not_armed (c : LiveControlObservation) : bool :=
  valid_shape c && bool_decide (lc_availability c = ControlFresh) && negb (permits_mode c).
Definition control_unavailable (c : LiveControlObservation) : bool :=
  valid_shape c && bool_decide (lc_availability c ≠ ControlFresh).

Record LiveStagedTargetControlAudit := {
  st_account : AccountId;
  st_exec_rank : Z;
  st_is_primary : bool;
  st_execution_order : Z;
  st_control : LiveControlObservation;
  st_observed_credential_key_id : string;
  st_frozen_binding : CredentialBindingIdentity
}.
Record LiveStagedDispatchControlAudit := {
  sd_dispatch_id : string;
  sd_targets : list LiveStagedTargetControlAudit
}.
(** The derived order of [(!is_primary, execution_order, account)]. *)
Definition target_before (l r : LiveStagedTargetControlAudit) : bool :=
  match Bool.compare (negb (st_is_primary l)) (negb (st_is_primary r)) with
  | Lt => true
  | Gt => false
  | Eq => match Z.compare (st_execution_order l) (st_execution_order r) with
          | Lt => true
          | Gt => false
          | Eq => bool_decide (cmp (account_slug (st_account l)) (account_slug (st_account r)) = Lt)
          end
  end.
(** [slice::windows(2)] *)
Fixpoint windows_all {A} (ok : A → A → bool) (l : list A) : bool :=
  match l with
  | a :: (b :: _) as rest => ok a b && windows_all ok rest
  | _ => true
  end.
Definition staged_target_valid (rank : nat) (t : LiveStagedTargetControlAudit) : bool :=
  (Z.of_nat rank =? st_exec_rank t) && permits_mode (st_control t) && lc_credential_version_available (st_control t)
  && bool_decide (lc_bundle_version (st_control t) = Some (cb_version (st_frozen_binding t)))
  && bool_decide (st_observed_credential_key_id t = cb_key_id (st_frozen_binding t)).
Definition staged_dispatch_valid (s : LiveStagedDispatchControlAudit) : bool :=
  bool_decide (sd_dispatch_id s ≠ EmptyString) && bool_decide (sd_targets s ≠ [])
  && forallb id (imap staged_target_valid (sd_targets s)) && windows_all target_before (sd_targets s).

Inductive LiveTargetControlOutcome : Type := ControlPause | ControlNotArmed.
#[export] Instance LiveTargetControlOutcome_eq_dec : EqDecision LiveTargetControlOutcome.
Proof. solve_decision. Defined.
Record LiveTargetControlAudit := {
  tc_dispatch_id : string;
  tc_account_id : AccountId;
  tc_exec_rank : Z;
  tc_control : LiveControlObservation;
  tc_outcome : LiveTargetControlOutcome
}.
Definition target_control_valid (t : LiveTargetControlAudit) : bool :=
  bool_decide (tc_dispatch_id t ≠ EmptyString)
  && match tc_outcome t with
     | ControlPause => control_unavailable (tc_control t)
     | ControlNotArmed => control_not_armed (tc_control t)
     end.

(** ** Orders *)
Record LiveOrderPreparationFailedAudit := {
  pf_identity : LiveOrderIdentity;
  pf_failure : LiveOrderPreparationFailure;
  pf_control : option LiveControlObservation
}.
Record LiveOrderPreparedAudit := {
  op_identity : LiveOrderIdentity;
  op_frozen_binding : CredentialBindingIdentity;
  op_economic : EconomicPrepared;
  op_account_state : LiveAccountStateAudit;
  op_prepared : PreparedPolymarketBuy
}.
Record LiveOrderPostAudit := {
  po_identity : LiveOrderIdentity;
  po_order_hash : string;
  po_evidence : RawHttpAttempt;
  po_evidence_hash : string
}.
Inductive LiveOrderRejectKind : Type := VenueRejected | InvalidResponse | PreparationFailed.
#[export] Instance LiveOrderRejectKind_eq_dec : EqDecision LiveOrderRejectKind.
Proof. solve_decision. Defined.
Inductive LiveOrderAmbiguityKind : Type :=
| AmbiguousTransport | AmbiguousTimeout | UnexpectedResponse | ReconciliationUnavailable | ReconciliationPending.
#[export] Instance LiveOrderAmbiguityKind_eq_dec : EqDecision LiveOrderAmbiguityKind.
Proof. solve_decision. Defined.
Record LiveExecutedAmounts := { ea_making_amount : Decimal; ea_taking_amount : Decimal }.
Inductive LiveJournalOrderOutcome : Type :=
| OutcomeMatched (venue_order_id : string) (transaction_hashes : list string) (executed : option LiveExecutedAmounts)
| OutcomeKilled (venue_order_id : option string)
| OutcomeRejected (venue_order_id : option string) (kind : LiveOrderRejectKind)
| OutcomeAmbiguous (kind : LiveOrderAmbiguityKind)
| FinalityPending (reason : string)
| FinalityConflict (reason : string).
#[export] Instance partial_eq_executed : PartialEq LiveExecutedAmounts := λ a b,
  rust_eq (ea_making_amount a) (ea_making_amount b) && rust_eq (ea_taking_amount a) (ea_taking_amount b).
#[export] Instance partial_eq_outcome : PartialEq LiveJournalOrderOutcome := λ a b,
  match a, b with
  | OutcomeMatched v h e, OutcomeMatched v' h' e' => rust_eq v v' && rust_eq h h' && rust_eq e e'
  | OutcomeKilled v, OutcomeKilled v' => rust_eq v v'
  | OutcomeRejected v k, OutcomeRejected v' k' => rust_eq v v' && rust_eq k k'
  | OutcomeAmbiguous k, OutcomeAmbiguous k' => rust_eq k k'
  | FinalityPending r, FinalityPending r' => rust_eq r r'
  | FinalityConflict r, FinalityConflict r' => rust_eq r r'
  | _, _ => false
  end.
Inductive LiveReconciliationSource : Type := PostResponse | OrderHashLookupAndCancel | PolygonFinality.
#[export] Instance LiveReconciliationSource_eq_dec : EqDecision LiveReconciliationSource.
Proof. solve_decision. Defined.
Record LiveOrderReconciliationAudit := {
  or_identity : LiveOrderIdentity;
  or_order_hash : string;
  or_source : LiveReconciliationSource;
  or_outcome : LiveJournalOrderOutcome;
  or_evidence : list RawHttpAttempt;
  or_evidence_hashes : list string
}.
#[export] Instance partial_eq_reconciliation : PartialEq LiveOrderReconciliationAudit := λ a b,
  rust_eq (or_identity a) (or_identity b) && rust_eq (or_order_hash a) (or_order_hash b)
  && rust_eq (or_source a) (or_source b) && rust_eq (or_outcome a) (or_outcome b)
  && rust_eq (or_evidence a) (or_evidence b) && rust_eq (or_evidence_hashes a) (or_evidence_hashes b).
Record MatchedLogIdentity := { ml_transaction_hash : string; ml_log_index : Z }.
#[export] Instance MatchedLogIdentity_eq_dec : EqDecision MatchedLogIdentity.
Proof. solve_decision. Defined.
Record OrderFillFinalizedAudit := {
  of_identity : LiveOrderIdentity;
  of_prepared_journal_seq : Z;
  of_principal : CollateralAmount;
  of_quantity : ShareAmount;
  of_fee : CollateralAmount;
  of_matched_logs : list MatchedLogIdentity;
  of_chain_id : Z;
  of_finalized_head : Z;
  of_receipts : list RawHttpAttempt;
  of_blocks : list RawHttpAttempt
}.

(** ** Redemptions *)
Record RedemptionTransactionAudit := {
  tx_identity : RedemptionAttemptIdentity;
  tx_attempt_count : Z;
  tx_transaction_id : string;
  tx_submit_body_hash : string;
  tx_evidence : list RawHttpAttempt;
  tx_evidence_hashes : list string
}.
Record RedemptionReceiptAudit := {
  rc_identity : RedemptionAttemptIdentity;
  rc_attempt_count : Z;
  rc_transaction_id : string;
  rc_transaction_hash : option string;
  rc_status : RedemptionReceiptStatusAudit;
  rc_evidence : list RawHttpAttempt;
  rc_evidence_hashes : list string
}.

(** ** Modes, positions and marks *)
Record RedemptionCustodyReconciledAudit := {
  rr_identity : RedemptionAttemptIdentity;
  rr_account_state : LiveAccountStateAudit;
  rr_venue_positions : list CanonicalPositionAudit;
  rr_venue_position_receipts : list AppendReceipt
}.
Record MarkPrice := {
  mp_condition_id : PolymarketConditionId;
  mp_outcome_index : Z;
  mp_price : Price;
  mp_receipt : AppendReceipt;
  mp_observed_unix : Z
}.
Record AccountPortfolioMarkedAudit := {
  pm_kind : MarkKind;
  pm_cutoff_unix : Z;
  pm_account_binding : LiveAccountBindingAudit;
  pm_account_state : LiveAccountStateAudit;
  pm_venue_positions : list CanonicalPositionAudit;
  pm_venue_position_evidence : LivePositionEvidenceAudit;
  pm_marked_positions : list CanonicalPositionAudit;
  pm_prices : list MarkPrice;
  pm_equity : CollateralAmount
}.
Record CollateralCreditedAudit := {
  cc_account_binding : LiveAccountBindingAudit;
  cc_account_state : LiveAccountStateAudit;
  cc_venue_positions : list CanonicalPositionAudit;
  cc_venue_position_evidence : LivePositionEvidenceAudit;
  cc_credited : CollateralAmount
}.

(** ** The payload of a record *)
Inductive LiveJournalPayload : Type :=
| StagedDispatchControl (audit : LiveStagedDispatchControlAudit)
| PendingTargetControl (audit : LiveTargetControlAudit)
| ApprovedRecoveryControlPause (audit : LiveTargetControlAudit)
| AdmissionEvaluated (audit : LiveAdmissionEvaluationAudit)
| OrderPreparationFailed (audit : LiveOrderPreparationFailedAudit)
| OrderPrepared (audit : LiveOrderPreparedAudit)
| OrderPosted (audit : LiveOrderPostAudit)
| OrderReconciled (audit : LiveOrderReconciliationAudit)
| RedemptionRequested (audit : RedemptionRequestedAudit)
| RedemptionTransactionIdentified (audit : RedemptionTransactionAudit)
| RedemptionReceiptTransition (audit : RedemptionReceiptAudit)
| OrderFillFinalized (audit : OrderFillFinalizedAudit)
| ResolutionFinalized (audit : ResolutionFinalizedAudit)
| RedemptionCustodyReconciled (audit : RedemptionCustodyReconciledAudit)
| AccountPortfolioMarked (audit : AccountPortfolioMarkedAudit)
| CollateralCredited (audit : CollateralCreditedAudit)
| CredentialBindingMismatch (frozen current : CredentialBindingIdentity)
| ModeTransitionApplied (audit : LiveModeTransitionAudit)
| LegacyV1 (raw : JsonValue).

Record LiveJournalEvent := {
  ev_account_id : AccountId;
  ev_seq : Z;
  ev_timestamp : OffsetDateTime;
  ev_payload : LiveJournalPayload
}.
End LiveData.
