(* ===== verification/LiveAdmission.v ===== *)
(** * Ordinary live admission (crates/execution-core/src/live_executor.rs)

    The pure, ordered gates a live order must pass, the reading of an account from
    captured HTTP responses, and the re-evaluation of a journaled admission from its
    own evidence.  Decimal operators that panic make the classifier partial. *)

From S2P Require Import Prelude CoreTypes Bytes LogFrame LogChain LogScanner LogWriter RiskEngine WinnerFollow Fee Ladder CanaryTypes LiveTypes.
#[local] Open Scope Z_scope.

(** ** Numbers in text *)

(** [str::parse::<u64>]: an optional plus sign and decimal digits, without overflow. *)
Fixpoint digits_value (acc : Z) (bs : list Z) : option Z :=
  match bs with
  | [] => Some acc
  | b :: bs =>
      if is_ascii_digit b then acc ← fits 0 U64_MAX (10 * acc + (b - 48)); digits_value acc bs else None
  end.
Definition parse_u64 (s : string) : option Z :=
  match string_bytes s with
  | 43 :: ((_ :: _) as digits) => digits_value 0 digits
  | (_ :: _) as digits => digits_value 0 digits
  | [] => None
  end.

(** The JSON parser, and the spenders the venue's SDK is configured with. *)
Class AccountVenue := {
  json_from_slice : list Z → option JsonValue;
  standard_spender : result unit string;
  negrisk_spender : result unit string
}.
Definition SDK_VERSION : string := "0.7.0".

Section Classifier.
Context `{TO : TimeOps} `{DO : DecimalOps}.

Inductive LiveAdmissionAccountEvidence : Type :=
| NotRead
| AccountState (account : LiveAccountStateAudit)
| ReadFailure (kind : LiveAccountReadFailure).
Record LiveAdmissionClassificationInput := {
  ci_evaluated_at : OffsetDateTime;
  ci_requested_mode : LiveControlMode;
  ci_effective_mode : LiveControlMode;
  ci_frozen_binding : CredentialBindingIdentity;
  ci_current_binding : CredentialBindingIdentity;
  ci_identity : LiveOrderIdentity;
  ci_condition_id : PolymarketConditionId;
  ci_outcome_id : OutcomeId;
  ci_token_id : PolymarketTokenId;
  ci_admission : LiveAdmissionArtifactAudit;
  ci_ladder : LadderPlanAudit;
  ci_economic : EconomicPrepared;
  ci_account : LiveAdmissionAccountEvidence
}.

(** *** [validate_ladder] *)
Record LadderSums := { ls_shares : ShareAmount; ls_spend : Decimal; ls_previous : option Price }.
Definition ladder_step (sums : LadderSums) (ask : LadderAskAudit) : panicking LiveAdmissionRefusal LadderSums :=
  if price_eqb (la_price ask) Price_ZERO || bool_decide (la_shares ask = amount_ZERO)
     || match ls_previous sums with Some price => price_ltb (la_price ask) price | None => false end
  then throw LadderInvalid
  else
    shares ← throws (map_err (λ _, LadderInvalid) (share_checked_add (ls_shares sums) (la_shares ask)));
    cost ← unpanic (dec_checked_mul (to_decimal (la_shares ask)) (price_value (la_price ask)));
    spend ← throws (ok_or (dec_checked_add (ls_spend sums) cost) LadderInvalid);
    mret {| ls_shares := shares; ls_spend := spend; ls_previous := Some (la_price ask) |}.
Fixpoint ladder_sums (sums : LadderSums) (asks : list LadderAskAudit) : panicking LiveAdmissionRefusal LadderSums :=
  match asks with
  | [] => mret sums
  | ask :: asks => sums ← ladder_step sums ask; ladder_sums sums asks
  end.
Definition ask_at (ask : option LadderAskAudit) (price : Price) : bool :=
  match ask with Some a => price_eqb price (la_price a) | None => false end.
Definition validate_ladder (plan : LadderPlanAudit) (minimum_tick_size : Price) (minimum_order_size : ShareAmount) :
    panicking LiveAdmissionRefusal unit :=
  if bool_decide (lp_used_asks plan = []) || amount_ltb (lp_minimum_shares plan) minimum_order_size
     || price_eqb (lp_best_ask plan) Price_ZERO || price_eqb (lp_limit_price plan) Price_ZERO
     || price_ltb (lp_limit_price plan) (lp_best_ask plan)
  then throw LadderInvalid
  else
    remainder ← unpanic (dec_checked_rem (price_value (lp_limit_price plan)) (price_value minimum_tick_size));
    if negb (dec_eqb remainder dec_ZERO) then throw LadderInvalid
    else
      sums ← ladder_sums {| ls_shares := amount_ZERO; ls_spend := dec_ZERO; ls_previous := None |} (lp_used_asks plan);
      expected_spend ← throws (map_err (λ _, LadderInvalid)
                          (from_decimal_exact "CollateralAmount" (dec_round_floor 6 (ls_spend sums))));
      if amount_ltb (ls_shares sums) (lp_minimum_shares plan) || amount_ltb (lp_principal plan) expected_spend
         || negb (ask_at (head (lp_used_asks plan)) (lp_best_ask plan))
         || negb (ask_at (last (lp_used_asks plan)) (lp_limit_price plan))
      then throw LadderInvalid
      else mret tt.

(** *** [validate_artifact_and_ladder] *)
Definition market_refusal (e : LiveMarketError) : LiveAdmissionRefusal :=
  match e with MarketStale | FutureObservation => MarketEvidenceStale end.
Definition settlement_refusal (e : VenueSettlementError) : LiveAdmissionRefusal :=
  match e with
  | SettlementStale | SettlementSchema _ => SettlementEvidenceStale
  | AlreadyResolved => MarketAlreadyResolved
  | SettlementAmbiguousError => SettlementAmbiguous
  end.
Definition blank (s : string) : bool := is_blank_bytes (string_bytes s).
Definition identity_mismatch (i : LiveAdmissionClassificationInput) : bool :=
  let market := aa_market (ci_admission i) in
  let selected := eco_market (ci_economic i) in
  blank (oi_dispatch_id (ci_identity i)) || blank (oi_idempotency_key (ci_identity i))
  || blank (oi_quote_id (ci_identity i)) || blank (oi_config_hash (ci_identity i))
  || blank (oi_decision_hash (ci_identity i)) || bool_decide (oi_evidence_hashes (ci_identity i) = [])
  || (oi_schema_version (ci_identity i) =? 0) || (oi_parser_version (ci_identity i) =? 0)
  || negb (rust_eq (ci_admission i) (eco_admission (ci_economic i)))
  || bool_decide (ms_condition_id selected ≠ ci_condition_id i)
  || negb (ms_outcome_index selected =? outcome_index (ci_outcome_id i))
  || bool_decide (ms_token_id selected ≠ ci_token_id i)
  || bool_decide (ms_side selected ≠ Buy)
  || bool_decide (ma_condition_id market ≠ ci_condition_id i)
  || bool_decide (vs_condition_id (aa_settlement (ci_admission i)) ≠ ci_condition_id i)
  || bool_decide (token_at (ma_ordered_outcome_token_ids market) (outcome_index (ci_outcome_id i)) ≠ Some (ci_token_id i)).
Definition validate_artifact_and_ladder (i : LiveAdmissionClassificationInput) :
    panicking LiveAdmissionRefusal CollateralAmount :=
  let market := aa_market (ci_admission i) in
  if negb (ma_schema_version market =? LIVE_MARKET_SCHEMA_VERSION)
     || negb (ma_parser_version market =? LIVE_MARKET_PARSER_VERSION)
     || price_eqb (ma_minimum_tick_size market) Price_ZERO || bool_decide (ma_minimum_order_size market = amount_ZERO)
  then throw MarketEvidenceInvalid
  else
    _ ← throws (map_err market_refusal (validate_fresh (ma_observed_at_unix market) (ma_freshness_window_secs market)
                                          (unix_timestamp (ci_evaluated_at i))));
    _ ← throws (map_err settlement_refusal
                  (validate_fresh_for_entry (aa_settlement (ci_admission i)) (ci_evaluated_at i)));
    if identity_mismatch i then throw ArtifactIdentityMismatch
    else
      _ ← validate_ladder (ci_ladder i) (ma_minimum_tick_size market) (ma_minimum_order_size market);
      if negb (rust_eq (ci_ladder i) (eco_ladder (ci_economic i))) then throw ArtifactIdentityMismatch
      else
        required ← throws (map_err (λ _, LadderInvalid) (eco_worst_case_all_in_debit (ci_economic i)));
        if bool_decide (ba_worst_case_debit (eco_balance (ci_economic i)) ≠ required) then throw LadderInvalid
        else mret required.

(** *** [classify_live_admission]; the error asks for the account's state. *)
Inductive LiveAdmissionNeedsAccountState : Type := NeedsAccountState.
Definition account_gates (required : CollateralAmount) (account : LiveAccountStateAudit) : LiveAdmissionVerdict :=
  if as_closed_only account then Refused RefusedClosedOnly
  else if as_geoblocked account then Refused RefusedGeoblocked
  else if amount_ltb (as_collateral_balance account) required
  then Refused (InsufficientBalance required (as_collateral_balance account))
  else if amount_ltb (as_allowance account) required
  then Refused (InsufficientAllowance required (as_allowance account))
  else if amount_ltb (as_reconciled_free_collateral account) required
  then Refused (WorstCaseDebitExceedsFreeCollateral required (as_reconciled_free_collateral account))
  else VerdictApproved.
Definition classify_live_admission (i : LiveAdmissionClassificationInput) :
    panicking LiveAdmissionNeedsAccountState LiveAdmissionVerdict :=
  if bool_decide (ci_requested_mode i ≠ LiveTiny) || bool_decide (ci_effective_mode i ≠ LiveTiny)
  then mret (Refused ModeNotArmed)
  else if bool_decide (ci_frozen_binding i ≠ ci_current_binding i) then mret (Refused CredentialVersionChanged)
  else match validate_artifact_and_ladder i with
       | None => None
       | Some (Err reason) => mret (Refused reason)
       | Some (Ok required) =>
           match ci_account i with
           | NotRead => throw NeedsAccountState
           | ReadFailure kind => mret (Refused (AccountStateUnavailable kind))
           | AccountState account => mret (account_gates required account)
           end
       end.
End Classifier.

(** ** Reading an account from its responses *)
Section Accounts.
Context `{TO : TimeOps} `{DO : DecimalOps} {B3 : Blake3} {AV : AccountVenue}.
Context {VD : ToVec (string * SanitizedHttpRequestDescriptor)} {VA : ToVec (string * RawHttpAttempt)}.

Definition request_descriptor_hash (d : SanitizedHttpRequestDescriptor) : result LiveJournalError string :=
  map_err LiveEncoding (json_hash ("prediction-edge/live-http-request-descriptor/v1", d)).
Definition verify_http_response_request (d : SanitizedHttpRequestDescriptor) (retained : string) : result LiveJournalError unit :=
  hash ← request_descriptor_hash d;
  if bool_decide (hash ≠ retained) then Err RequestBinding else Ok tt.
Definition http_attempt_hash (attempt : RawHttpAttempt) : result LiveJournalError string :=
  map_err LiveEncoding (json_hash ("prediction-edge/live-http-attempt/v1", attempt)).
Definition http_attempt_hashes (attempts : list RawHttpAttempt) : result LiveJournalError (list string) :=
  try_map http_attempt_hash attempts.

Record LiveVenueAccountState := {
  va_observed_at : OffsetDateTime;
  va_closed_only : bool;
  va_geoblocked : bool;
  va_selected_spender : string;
  va_collateral_balance : CollateralAmount;
  va_allowance : CollateralAmount;
  va_reconciled_free_collateral : CollateralAmount;
  va_schema_version : Z;
  va_parser_version : Z;
  va_evidence : list RawHttpAttempt;
  va_request_descriptor_hashes : list string
}.
Definition account_audit (a : LiveVenueAccountState) : result LiveJournalError LiveAccountStateAudit :=
  hashes ← http_attempt_hashes (va_evidence a);
  Ok {| as_observed_at := va_observed_at a; as_closed_only := va_closed_only a; as_geoblocked := va_geoblocked a;
        as_selected_spender := va_selected_spender a; as_collateral_balance := va_collateral_balance a;
        as_allowance := va_allowance a; as_reconciled_free_collateral := va_reconciled_free_collateral a;
        as_schema_version := va_schema_version a; as_parser_version := va_parser_version a;
        as_evidence := va_evidence a; as_request_descriptor_hashes := va_request_descriptor_hashes a;
        as_evidence_hashes := hashes |}.
Record LiveVenueAccountReadError := {
  re_kind : LiveAccountReadFailure;
  re_evidence : list RawHttpAttempt;
  re_request_descriptor_hashes : list string
}.
Inductive LiveAccountResponseClassification : Type :=
| ClassifiedState (state : LiveVenueAccountState)
| ClassifiedFailure (failure : LiveVenueAccountReadError).

(** The only response of a kind. *)
Definition account_response_by_kind (evidence : list RawHttpAttempt) (endpoint_kind : string) : option RawHttpResponse :=
  match omap (λ a, match a with
                   | Response r => if decide (rsp_endpoint_kind r = endpoint_kind) then Some r else None
                   | TransportFailure _ => None
                   end) evidence with
  | [r] => Some r
  | _ => None
  end.
Definition is_known_account_spender (selected : string) : bool :=
  existsb (λ r : result unit string, match r with Ok s => bool_decide (s = selected) | Err _ => false end)
    [standard_spender; negrisk_spender].
Definition status_ok (r : RawHttpResponse) : bool := (200 <=? rsp_status r) && (rsp_status r <? 300).
Definition valid_account_response (r : RawHttpResponse) (endpoint_kind path : string) (ordered_query : list (string * string)) : bool :=
  bool_decide (rsp_source_id r = "polymarket-clob-v2") && bool_decide (rsp_endpoint_kind r = endpoint_kind)
  && bool_decide (rsp_method r = "GET") && bool_decide (rsp_path r = path)
  && bool_decide (rsp_ordered_query r = ordered_query) && status_ok r && (rsp_attempt_ordinal r =? 1)
  && negb (odt_ltb (rsp_received_at r) (rsp_observed_at r)) && (rsp_schema_version r =? 1)
  && (rsp_parser_version r =? 1) && bool_decide (rsp_adapter_version r = SDK_VERSION).
Definition account_response_json (r : RawHttpResponse) : option JsonValue :=
  if status_ok r then json_from_slice (rsp_body r) else None.

(** [value.as_str()], or the text of the value; only a number's text is an integer. *)
Definition encoded_amount (v : JsonValue) : option string :=
  match v with JString s => Some s | JNumber text => Some text | _ => None end.
Definition account_atomic_amount (v : option JsonValue) : option CollateralAmount :=
  v ← v; s ← encoded_amount v; from_atomic <$> parse_u64 s.
Definition UINT256_MAX_DECIMAL : string :=
  "115792089237316195423570985008687907853269984665640564039457584007913129639935".
Fixpoint trim_start_zeros (s : string) : string :=
  match s with String c rest => if decide (c = "0"%char) then trim_start_zeros rest else s | EmptyString => s end.
Definition account_allowance_amount (v : JsonValue) : option CollateralAmount :=
  match account_atomic_amount (Some v) with
  | Some amount => Some amount
  | None =>
      digits ← as_str v;
      let significant := trim_start_zeros digits in
      let within_uint256 :=
        (length (string_bytes significant) <? length (string_bytes UINT256_MAX_DECIMAL))%nat
        || ((length (string_bytes significant) =? length (string_bytes UINT256_MAX_DECIMAL))%nat
            && bool_decide (cmp significant UINT256_MAX_DECIMAL ≠ Gt)) in
      if bool_decide (digits ≠ EmptyString) && forallb is_ascii_digit (string_bytes digits) && within_uint256
      then Some (from_atomic U64_MAX) else None
  end.

Definition is_transport_failure (a : RawHttpAttempt) : bool := match a with TransportFailure _ => true | Response _ => false end.
Definition unauthorized (r : RawHttpResponse) : bool := (rsp_status r =? 401) || (rsp_status r =? 403).
(** The earlier of two observations; [Iterator::min] keeps the first on a tie. *)
Definition earlier (a b : OffsetDateTime) : OffsetDateTime := if odt_ltb b a then b else a.
Definition ALLOWED_COUNTRIES : list string := ["IE"; "JP"; "MT"; "NL"].

(** The body of [classify_raw_account_responses]; the caller wraps the failure kind. *)
Definition read_account (evidence : list RawHttpAttempt) (selected_spender : string) (descriptors : list string) :
    result LiveAccountReadFailure LiveVenueAccountState :=
  if existsb is_transport_failure evidence then Err ReadTransport
  else if negb (length evidence =? 3)%nat || negb (is_known_account_spender selected_spender) then Err ReadProtocol
  else
    geoblock ← ok_or (account_response_by_kind evidence "geoblock") ReadProtocol;
    closed ← ok_or (account_response_by_kind evidence "closed-only") ReadProtocol;
    balance ← ok_or (account_response_by_kind evidence "balance-allowance") ReadProtocol;
    if existsb unauthorized [geoblock; closed; balance] then Err ReadAuthentication
    else if negb (valid_account_response geoblock "geoblock" "/api/geoblock" [])
            || negb (valid_account_response closed "closed-only" "/auth/ban-status/closed-only" [])
            || negb (valid_account_response balance "balance-allowance" "/balance-allowance"
                       [("asset_type", "COLLATERAL"); ("signature_type", "3")])
    then Err ReadProtocol
    else
      geoblock_json ← ok_or (account_response_json geoblock) ReadProtocol;
      closed_json ← ok_or (account_response_json closed) ReadProtocol;
      balance_json ← ok_or (account_response_json balance) ReadProtocol;
      blocked ← ok_or (json_get "blocked" geoblock_json ≫= as_bool) ReadProtocol;
      country ← ok_or (json_get "country" geoblock_json ≫= as_str) ReadProtocol;
      closed_only ← ok_or (json_get "closed_only" closed_json ≫= as_bool) ReadProtocol;
      collateral_balance ← ok_or (account_atomic_amount (json_get "balance" balance_json)) ReadProtocol;
      allowances ← ok_or (json_get "allowances" balance_json ≫= as_object) ReadProtocol;
      allowance ← match list_find (λ m, eq_ignore_ascii_case m.1 selected_spender = true) allowances with
                  | Some (_, (_, value)) => ok_or (account_allowance_amount value) ReadProtocol
                  | None => Ok amount_ZERO
                  end;
      Ok {| va_observed_at := earlier (earlier (rsp_observed_at geoblock) (rsp_observed_at closed)) (rsp_observed_at balance);
            va_closed_only := closed_only; va_geoblocked := blocked && negb (bool_decide (country ∈ ALLOWED_COUNTRIES));
            va_selected_spender := selected_spender; va_collateral_balance := collateral_balance;
            va_allowance := allowance; va_reconciled_free_collateral := collateral_balance;
            va_schema_version := 1; va_parser_version := 1; va_evidence := evidence;
            va_request_descriptor_hashes := descriptors |}.
Definition classify_raw_account_responses (evidence : list RawHttpAttempt) (selected_spender : string)
    (descriptors : list string) : result LiveVenueAccountReadError LiveVenueAccountState :=
  map_err (λ kind, {| re_kind := kind; re_evidence := evidence; re_request_descriptor_hashes := descriptors |})
    (read_account evidence selected_spender descriptors).

(** Every attempt is bound to its request before it is classified. *)
Fixpoint verify_descriptors (b : LiveAccountBindingAudit) (evidence : list RawHttpAttempt) (hashes : list string) :
    result LiveJournalError unit :=
  match evidence, hashes with
  | attempt :: evidence, retained :: hashes =>
      _ ← verify_http_response_request (request_descriptor_for_attempt b attempt) retained;
      verify_descriptors b evidence hashes
  | _, _ => Ok tt
  end.
Definition classify_live_account_responses (evidence : list RawHttpAttempt) (selected_spender : string)
    (descriptors : list string) (evidence_hashes : option (list string)) (b : LiveAccountBindingAudit) :
    result LiveJournalError LiveAccountResponseClassification :=
  if bool_decide (evidence = []) || negb (is_valid_for b (ab_account_id b))
     || negb (length evidence =? length descriptors)%nat
  then Err RequestBinding
  else
    _ ← verify_descriptors b evidence descriptors;
    _ ← match evidence_hashes with
        | Some retained =>
            hashes ← http_attempt_hashes evidence;
            if bool_decide (hashes ≠ retained) then Err RequestBinding else Ok tt
        | None => Ok tt
        end;
    Ok match classify_raw_account_responses evidence selected_spender descriptors with
       | Ok state => ClassifiedState state
       | Err error => ClassifiedFailure error
       end.

(** ** Re-evaluating a journaled admission *)
Inductive LiveAdmissionEvaluationError : Type :=
| InvalidRiskDecision | InvalidAccountEvidence | EvaluationJournal (e : LiveJournalError).
Definition from_journal {A} (r : result LiveJournalError A) : panicking LiveAdmissionEvaluationError A :=
  throws (map_err EvaluationJournal r).
Definition admission_input (a : LiveAdmissionEvaluationAudit) (evaluated_at : OffsetDateTime)
    (account : LiveAdmissionAccountEvidence) : LiveAdmissionClassificationInput := {|
  ci_evaluated_at := evaluated_at; ci_requested_mode := ae_requested_mode a; ci_effective_mode := ae_effective_mode a;
  ci_frozen_binding := ae_frozen_binding a; ci_current_binding := ae_current_binding a; ci_identity := ae_identity a;
  ci_condition_id := ms_condition_id (eco_market (ae_economic a));
  ci_outcome_id := {| outcome_index := ms_outcome_index (eco_market (ae_economic a)) |};
  ci_token_id := ms_token_id (eco_market (ae_economic a)); ci_admission := eco_admission (ae_economic a);
  ci_ladder := eco_ladder (ae_economic a); ci_economic := ae_economic a; ci_account := account
|}.
Definition has_failure_evidence (a : LiveAdmissionEvaluationAudit) : bool :=
  bool_decide (ae_failure_evidence a ≠ []) || bool_decide (ae_failure_request_descriptor_hashes a ≠ [])
  || bool_decide (ae_failure_evidence_hashes a ≠ []).
(** The verdict the evidence supports, once the pre-I/O gates have passed. *)
Definition evidence_verdict (a : LiveAdmissionEvaluationAudit) (evaluated_at : OffsetDateTime) (b : LiveAccountBindingAudit)
    (selected_spender : string) : panicking LiveAdmissionEvaluationError LiveAdmissionVerdict :=
  account ← match ae_account_state a with
            | Some account =>
                classified ← from_journal (classify_live_account_responses (as_evidence account) selected_spender
                               (as_request_descriptor_hashes account) (Some (as_evidence_hashes account)) b);
                match classified with
                | ClassifiedFailure _ => throw InvalidAccountEvidence
                | ClassifiedState state =>
                    derived ← from_journal (account_audit state);
                    if bool_decide (account ≠ derived) then throw InvalidAccountEvidence else mret (AccountState derived)
                end
            | None =>
                classified ← from_journal (classify_live_account_responses (ae_failure_evidence a) selected_spender
                               (ae_failure_request_descriptor_hashes a) (Some (ae_failure_evidence_hashes a)) b);
                match classified with
                | ClassifiedState _ => throw InvalidAccountEvidence
                | ClassifiedFailure failure => mret (ReadFailure (re_kind failure))
                end
            end;
  match classify_live_admission (admission_input a evaluated_at account) with
  | None => None
  | Some (Ok verdict) => mret verdict
  | Some (Err NeedsAccountState) => throw InvalidAccountEvidence
  end.
Definition verify_live_admission_evaluation (a : LiveAdmissionEvaluationAudit) (evaluated_at : OffsetDateTime)
    (binding : option LiveAccountBindingAudit) : panicking LiveAdmissionEvaluationError unit :=
  b ← throws (ok_or binding InvalidAccountEvidence);
  if bool_decide (oi_idempotency_key (ae_identity a) ≠ idempotency_key_for (oi_dispatch_id (ae_identity a)) (ab_account_id b))
  then throw InvalidAccountEvidence
  else
    let risk_decision := evaluate_risk (ra_snapshot (eco_risk (ae_economic a))) in
    if bool_decide (ra_decision (eco_risk (ae_economic a)) ≠ risk_decision)
       || (bool_decide (ae_verdict a = VerdictApproved) && bool_decide (risk_decision ≠ Approved))
    then throw InvalidRiskDecision
    else match classify_live_admission (admission_input a evaluated_at NotRead) with
         | None => None
         | Some (Ok expected) =>
             if bool_decide (is_Some (ae_account_state a)) || has_failure_evidence a || bool_decide (ae_verdict a ≠ expected)
             then throw InvalidAccountEvidence else mret tt
         | Some (Err NeedsAccountState) =>
             if negb (is_valid_for_frozen_credential b (ab_account_id b) (ae_frozen_binding a))
                || bool_decide (ae_current_binding a ≠ ab_credential b)
                || eqb (bool_decide (is_Some (ae_account_state a))) (has_failure_evidence a)
             then throw InvalidAccountEvidence
             else
               selected_spender ← throws (map_err (λ _, InvalidAccountEvidence)
                 (if ma_neg_risk (aa_market (eco_admission (ae_economic a))) then negrisk_spender else standard_spender));
               expected ← evidence_verdict a evaluated_at b selected_spender;
               if bool_decide (expected ≠ ae_verdict a) then throw InvalidAccountEvidence else mret tt
         end.
End Accounts.

(** ** What an approval means *)
Section AdmissionFacts.
Context `{TO : TimeOps} `{DO : DecimalOps} {B3 : Blake3} {AV : AccountVenue}.
Context {VD : ToVec (string * SanitizedHttpRequestDescriptor)} {VA : ToVec (string * RawHttpAttempt)}.

(** The worst debit of an order with its fee reserve, in atomic units. *)
Definition worst_debit (e : EconomicPrepared) : Z := atomic (sz_principal (eco_sizing e)) + atomic (fa_reserve (eco_fee e)).
Definition audited_shares (plan : LadderPlanAudit) : Z := sum_with (λ a, atomic (la_shares a)) (lp_used_asks plan).

Lemma throws_Ok {E A} (r : result E A) a : throws r = Some (Ok a) ↔ r = Ok a.
Proof. unfold throws. naive_solver. Qed.
Lemma ladder_sums_Ok asks sums sums' : ladder_sums sums asks = Some (Ok sums') →
  atomic (ls_shares sums') = atomic (ls_shares sums) + sum_with (λ a, atomic (la_shares a)) asks.
Proof.
  revert sums. induction asks as [|ask asks IH]; intros sums; simpl; [intros [= <-]; lia|].
  intros (s1 & Hs & H%IH)%panicking_bind_Ok. rewrite H. unfold ladder_step in Hs. destruct (_ || _); [done|].
  apply panicking_bind_Ok in Hs as (shares & Hsh%throws_Ok%map_err_Ok & Hs). apply amount_checked_add_Ok in Hsh as [-> _].
  apply panicking_bind_Ok in Hs as (cost & _ & Hs). apply panicking_bind_Ok in Hs as (spend & _ & Hs).
  injection Hs as <-. simpl. lia.
Qed.
Lemma validate_ladder_Ok plan tick minimum : validate_ladder plan tick minimum = Some (Ok tt) →
  atomic minimum ≤ atomic (lp_minimum_shares plan) ≤ audited_shares plan.
Proof.
  unfold validate_ladder. destruct (_ || _) eqn:E; [done|]. repeat (apply orb_false_iff in E as [E ?]).
  intros (rem & _ & K)%panicking_bind_Ok. destruct (negb _); [done|].
  apply panicking_bind_Ok in K as (sums & Hs%ladder_sums_Ok & K).
  apply panicking_bind_Ok in K as (spend & _ & K). destruct (_ || _) eqn:E2; [done|].
  repeat (apply orb_false_iff in E2 as [E2 ?]).
  repeat match goal with H : amount_ltb _ _ = false |- _ => apply Z.ltb_ge in H end. simpl in Hs.
  unfold audited_shares. lia.
Qed.

(** What [validate_artifact_and_ladder] has checked. *)
Record artifact_ok (i : LiveAdmissionClassificationInput) (required : CollateralAmount) : Prop := {
  ao_required : atomic required = worst_debit (ci_economic i);
  ao_recorded : ba_worst_case_debit (eco_balance (ci_economic i)) = required;
  ao_market_age : 0 ≤ unix_timestamp (ci_evaluated_at i) - ma_observed_at_unix (aa_market (ci_admission i))
                    ≤ ma_freshness_window_secs (aa_market (ci_admission i));
  ao_unresolved : vs_status (aa_settlement (ci_admission i)) = Unresolved;
  ao_side : ms_side (eco_market (ci_economic i)) = Buy;
  ao_token : token_at (ma_ordered_outcome_token_ids (aa_market (ci_admission i))) (outcome_index (ci_outcome_id i))
               = Some (ci_token_id i) ∧ ms_token_id (eco_market (ci_economic i)) = ci_token_id i;
  ao_shares : atomic (ma_minimum_order_size (aa_market (ci_admission i))) ≤ atomic (lp_minimum_shares (ci_ladder i))
                ≤ audited_shares (ci_ladder i)
}.
Lemma validate_fresh_Ok observed window now : validate_fresh observed window now = Ok tt → 0 ≤ now - observed ≤ window.
Proof.
  unfold validate_fresh. intros (age & [-> _]%ok_or_Ok%fits_Some & H)%result_bind_Ok.
  destruct (Z.ltb_spec (now - observed) 0); [done|]. destruct (Z.ltb_spec window (now - observed)); [done|lia].
Qed.
Lemma validate_fresh_for_entry_Ok r now : validate_fresh_for_entry r now = Ok tt → vs_status r = Unresolved.
Proof. unfold validate_fresh_for_entry. destruct (negb _); [done|]. destruct (_ || _); [done|]. by destruct (vs_status r). Qed.

Lemma validate_artifact_Ok i required : validate_artifact_and_ladder i = Some (Ok required) → artifact_ok i required.
Proof.
  unfold validate_artifact_and_ladder. destruct (_ || _); [done|].
  intros ([] & Hm%throws_Ok%map_err_Ok%validate_fresh_Ok & H)%panicking_bind_Ok.
  apply panicking_bind_Ok in H as ([] & Hs%throws_Ok%map_err_Ok%validate_fresh_for_entry_Ok & H).
  destruct (identity_mismatch i) eqn:Hid; [done|]. unfold identity_mismatch in Hid.
  repeat (apply orb_false_iff in Hid as [Hid ?]).
  apply panicking_bind_Ok in H as ([] & Hl%validate_ladder_Ok & H).
  destruct (rust_eq (ci_ladder i) _); cbn [negb] in H; [|done].
  apply panicking_bind_Ok in H as (r & Hr%throws_Ok%map_err_Ok & H). case_bool_decide as Hw; [done|]. injection H as <-.
  apply amount_checked_add_Ok in Hr as [-> _].
  repeat match goal with H : bool_decide (_ ≠ _) = false |- _ => apply bool_decide_eq_false, dec_stable in H end.
  split; try done.
Qed.
Lemma account_gates_approved required account : account_gates required account = VerdictApproved →
  as_closed_only account = false ∧ as_geoblocked account = false
  ∧ atomic required ≤ atomic (as_collateral_balance account) ∧ atomic required ≤ atomic (as_allowance account)
  ∧ atomic required ≤ atomic (as_reconciled_free_collateral account).
Proof.
  unfold account_gates, amount_ltb. destruct (as_closed_only _); [done|]. destruct (as_geoblocked _); [done|].
  repeat (case_match; [done|]). intros _. split_and!; [done..| | |]; by apply Z.ltb_ge.
Qed.
Lemma classify_approved i : classify_live_admission i = Some (Ok VerdictApproved) →
  ci_requested_mode i = LiveTiny ∧ ci_effective_mode i = LiveTiny ∧ ci_frozen_binding i = ci_current_binding i
  ∧ ∃ account required, ci_account i = AccountState account ∧ artifact_ok i required
    ∧ account_gates required account = VerdictApproved.
Proof.
  unfold classify_live_admission. destruct (_ || _) eqn:Hm; [done|].
  apply orb_false_iff in Hm as [Hr%bool_decide_eq_false%dec_stable He%bool_decide_eq_false%dec_stable].
  case_bool_decide as Hb; [done|]. destruct (validate_artifact_and_ladder i) as [[required|]|] eqn:Hv; [|done..].
  destruct (ci_account i) as [|account|]; [done| |done]. intros [= H]. split_and!; [done..|].
  exists account, required. split_and!; [done| |done]. by apply validate_artifact_Ok.
Qed.

(** Every captured attempt carries the hash of the request it answers. *)
Definition bound_request (b : LiveAccountBindingAudit) (attempt : RawHttpAttempt) (retained : string) : Prop :=
  request_descriptor_hash (request_descriptor_for_attempt b attempt) = Ok retained.
Lemma verify_descriptors_Ok b evidence hashes : length evidence = length hashes →
  verify_descriptors b evidence hashes = Ok tt → Forall2 (bound_request b) evidence hashes.
Proof.
  revert hashes. induction evidence as [|x evidence IH]; intros [|h hashes]; try done.
  intros [= Hl]. cbn [verify_descriptors]. intros ([] & Hv & H)%result_bind_Ok. constructor; [|by apply IH].
  unfold verify_http_response_request in Hv. apply result_bind_Ok in Hv as (hash & Hh & Hv).
  case_bool_decide as Heq; [done|]. unfold bound_request. by subst.
Qed.
Lemma classify_responses_state evidence spender descriptors hashes b state :
  classify_live_account_responses evidence spender descriptors (Some hashes) b = Ok (ClassifiedState state) →
  is_valid_for b (ab_account_id b) = true ∧ Forall2 (bound_request b) evidence descriptors
  ∧ http_attempt_hashes evidence = Ok hashes ∧ read_account evidence spender descriptors = Ok state.
Proof.
  unfold classify_live_account_responses. destruct (_ || _) eqn:E; [done|].
  apply orb_false_iff in E as [[_ Hv%negb_false_iff]%orb_false_iff Hl%negb_false_iff%Nat.eqb_eq].
  intros ([] & Hd & H)%result_bind_Ok. apply result_bind_Ok in H as ([] & Hh & H).
  apply result_bind_Ok in Hh as (hs & Hh & Hc). case_bool_decide as Heq; [done|]. subst.
  unfold classify_raw_account_responses in H. destruct (read_account _ _ _) as [st|] eqn:Hr; [|done]. injection H as ->.
  split_and!; [done| |done..]. by apply verify_descriptors_Ok.
Qed.

(** What the journal must show for an approved admission. *)
Record approval_evidence (a : LiveAdmissionEvaluationAudit) (b : LiveAccountBindingAudit)
    (account : LiveAccountStateAudit) (spender : string) (state : LiveVenueAccountState) : Prop := {
  pe_account : ae_account_state a = Some account;
  pe_spender : (if ma_neg_risk (aa_market (eco_admission (ae_economic a))) then negrisk_spender else standard_spender) = Ok spender;
  pe_bound : Forall2 (bound_request b) (as_evidence account) (as_request_descriptor_hashes account);
  pe_hashes : http_attempt_hashes (as_evidence account) = Ok (as_evidence_hashes account);
  pe_read : read_account (as_evidence account) spender (as_request_descriptor_hashes account) = Ok state;
  pe_derived : account_audit state = Ok account
}.
Lemma evidence_verdict_approved a at_ b spender : evidence_verdict a at_ b spender = Some (Ok VerdictApproved) →
  ∃ account state,
    ae_account_state a = Some account
    ∧ Forall2 (bound_request b) (as_evidence account) (as_request_descriptor_hashes account)
    ∧ http_attempt_hashes (as_evidence account) = Ok (as_evidence_hashes account)
    ∧ read_account (as_evidence account) spender (as_request_descriptor_hashes account) = Ok state
    ∧ account_audit state = Ok account
    ∧ classify_live_admission (admission_input a at_ (AccountState account)) = Some (Ok VerdictApproved).
Proof.
  unfold evidence_verdict, from_journal. intros (evidence & He & H)%panicking_bind_Ok.
  destruct (classify_live_admission _) as [[verdict|[]]|] eqn:Hc; [|done..]. injection H as ->.
  destruct (ae_account_state a) as [account|].
  - apply panicking_bind_Ok in He as (c & Hr%throws_Ok%map_err_Ok & He). destruct c as [state|]; [|done].
    apply panicking_bind_Ok in He as (derived & Hd%throws_Ok%map_err_Ok & He).
    case_bool_decide as Heq; [done|]. subst. injection He as <-.
    destruct (classify_responses_state _ _ _ _ _ _ Hr) as (_ & Hb & Hh & Hs). by exists derived, state.
  - apply panicking_bind_Ok in He as (c & _ & He). destruct c as [|failure]; [done|]. injection He as <-.
    destruct (classify_approved _ Hc) as (_ & _ & _ & account & required & Ha & _). done.
Qed.

(** What an approval that re-evaluates was worth. *)
Record affordable (a : LiveAdmissionEvaluationAudit) (at_ : OffsetDateTime) (b : LiveAccountBindingAudit) : Prop := {
  af_armed : ae_requested_mode a = LiveTiny ∧ ae_effective_mode a = LiveTiny;
  af_bound : ae_frozen_binding a = ab_credential b ∧ ae_current_binding a = ab_credential b
             ∧ is_valid_for b (ab_account_id b) = true;
  af_key : oi_idempotency_key (ae_identity a) = idempotency_key_for (oi_dispatch_id (ae_identity a)) (ab_account_id b);
  af_risk : evaluate_risk (ra_snapshot (eco_risk (ae_economic a))) = Approved;
  af_account : ∃ account spender state, approval_evidence a b account spender state
    ∧ as_closed_only account = false ∧ as_geoblocked account = false
    ∧ worst_debit (ae_economic a) ≤ atomic (as_collateral_balance account)
    ∧ worst_debit (ae_economic a) ≤ atomic (as_allowance account)
    ∧ worst_debit (ae_economic a) ≤ atomic (as_reconciled_free_collateral account)
    ∧ artifact_ok (admission_input a at_ NotRead) (from_atomic (worst_debit (ae_economic a)))
}.
Lemma verified_approval a at_ b :
  verify_live_admission_evaluation a at_ (Some b) = Some (Ok tt) → ae_verdict a = VerdictApproved → affordable a at_ b.
Proof.
  unfold verify_live_admission_evaluation. cbn [ok_or]. intros (b' & [= <-]%throws_Ok & H)%panicking_bind_Ok Hv.
  case_bool_decide as Hk; [done|]. destruct (_ || _) eqn:Hr; [done|].
  apply orb_false_iff in Hr as [_ Hr]. rewrite Hv, bool_decide_eq_true_2, andb_true_l in Hr by done.
  apply bool_decide_eq_false, dec_stable in Hr.
  destruct (classify_live_admission (admission_input a at_ NotRead)) as [[expected|[]]|] eqn:Hn; [|clear Hn|done].
  - destruct (_ || _) eqn:E; [done|]. apply orb_false_iff in E as [_ E%bool_decide_eq_false%dec_stable]. rewrite Hv in E.
    subst. destruct (classify_approved _ Hn) as (_ & _ & _ & account & required & Ha & _). done.
  - destruct (_ || _ || _) eqn:E; [done|]. apply orb_false_iff in E as [[Hf%negb_false_iff Hc%bool_decide_eq_false%dec_stable]%orb_false_iff _].
    apply andb_true_iff in Hf as [Hvalid Hf%bool_decide_eq_true].
    apply panicking_bind_Ok in H as (spender & Hs%throws_Ok%map_err_Ok & H).
    apply panicking_bind_Ok in H as (expected & He & H). case_bool_decide as Heq; [done|].
    rewrite Hv in Heq. subst expected.
    destruct (evidence_verdict_approved _ _ _ _ He) as (account & state & Ha & Hb & Hh & Hread & Hd & Hcl).
    destruct (classify_approved _ Hcl) as (Hm & Hm' & _ & ac & required & [= <-] & Hart & Hg).
    destruct (account_gates_approved _ _ Hg) as (? & ? & Hg1 & Hg2 & Hg3).
    rewrite (ao_required _ _ Hart) in Hg1, Hg2, Hg3. split; try done.
    exists account, spender, state. split; [by split|]. split_and!; [done..|].
    destruct Hart as [Q1 Q2 Q3 Q4 Q5 Q6 Q7]. simpl in Q1. split; try done. rewrite <- Q1. by destruct required.
Qed.

(** C16: A journaled admission that says Approved and passes re-evaluation was affordable on its own
    evidence: it is armed, its credentials and idempotency key are the binding's, risk approves its
    snapshot, the account it cites is the one its captured responses give through requests of that
    binding, neither closed-only nor geoblocked, with the principal and fee reserve of the order
    within its balance, its allowance and its free collateral; the market evidence is fresh,
    unresolved and names the bought token, and the ladder holds at least the market's minimum. *)
Theorem verified_admission_affordable a at_ b :
  verify_live_admission_evaluation a at_ (Some b) = Some (Ok tt) → ae_verdict a = VerdictApproved →
  let input := admission_input a at_ NotRead in
  ae_requested_mode a = LiveTiny ∧ ae_effective_mode a = LiveTiny
  ∧ ae_frozen_binding a = ab_credential b ∧ ae_current_binding a = ab_credential b
  ∧ is_valid_for b (ab_account_id b) = true
  ∧ oi_idempotency_key (ae_identity a) = idempotency_key_for (oi_dispatch_id (ae_identity a)) (ab_account_id b)
  ∧ evaluate_risk (ra_snapshot (eco_risk (ae_economic a))) = Approved
  ∧ ∃ account spender state, approval_evidence a b account spender state
    ∧ as_closed_only account = false ∧ as_geoblocked account = false
    ∧ worst_debit (ae_economic a) ≤ atomic (as_collateral_balance account)
    ∧ worst_debit (ae_economic a) ≤ atomic (as_allowance account)
    ∧ worst_debit (ae_economic a) ≤ atomic (as_reconciled_free_collateral account)
    ∧ artifact_ok input (from_atomic (worst_debit (ae_economic a))).
Proof.
  intros Hv Ha. destruct (verified_approval a at_ b Hv Ha) as [[? ?] (? & ? & ?) ? ? ?]. done.
Qed.
End AdmissionFacts.

(** ** An admission that re-evaluates

    Ten shares at fifty cents with a quarter-dollar fee reserve, on an account of
    twenty dollars read from three captured responses. *)
Module SampleOrder.
Definition text (l : list string) : result string (list Z) := Ok (l ≫= λ s, string_bytes s ++ [0]).
#[export] Instance vec_descriptor : ToVec (string * SanitizedHttpRequestDescriptor) := λ '(_, d), text [rd_partition d].
#[export] Instance vec_attempt : ToVec (string * @RawHttpAttempt ZTime) := λ '(_, a),
  match a with Response r => text ["response"; rsp_endpoint_kind r] | TransportFailure f => text ["failure"; tf_endpoint_kind f] end.
(** The parser reads a body of one byte as one of three values. *)
#[export] Instance venue : AccountVenue := {|
  json_from_slice := λ body, match body with
    | [1] => Some (JObject [("blocked", JBool false); ("country", JString "IE")])
    | [2] => Some (JObject [("closed_only", JBool false)])
    | [3] => Some (JObject [("balance", JString "20000000"); ("allowances", JObject [("0xAB", JString "+20000000")])])
    | _ => None
    end;
  standard_spender := Ok "0xab"; negrisk_spender := Err tt
|}.
Definition half : @Price QDecimal := @Build_Price QDecimal (1 # 2)%Q.
Definition cent : @Price QDecimal := @Build_Price QDecimal (1 # 100)%Q.
Definition second (n : Z) : @OffsetDateTime ZTime := n * 1000000000.
Definition condition : PolymarketConditionId := {| condition_id_str := "0xcondition" |}.
Definition token (n : string) : PolymarketTokenId := {| token_id_str := n |}.
Definition receipt (n : Z) : AppendReceipt := {| receipt_sequence := {| event_seq := n |}; receipt_this_hash := {| hash_bytes := [] |} |}.
Definition account : AccountId := {| account_slug := "main" |}.
Definition credential : CredentialBindingIdentity := {| cb_version := 1; cb_key_id := "key" |}.
Definition binding : LiveAccountBindingAudit := {|
  ab_account_id := account; ab_credential := credential; ab_custody_wallet := "0x00000000000000000000000000000000000000ab";
  ab_credential_fingerprint := "0000000000000000000000000000000000000000000000000000000000000000"
|}.
Definition response (kind path : string) (query : list (string * string)) (body : Z) : @RawHttpResponse ZTime := {|
  rsp_source_id := "polymarket-clob-v2"; rsp_endpoint_kind := kind; rsp_method := "GET"; rsp_path := path;
  rsp_ordered_query := query; rsp_status := 200; rsp_headers := []; rsp_body := [body]; rsp_attempt_ordinal := 1;
  rsp_source_at := None; rsp_observed_at := second 100; rsp_received_at := second 101; rsp_schema_version := 1;
  rsp_parser_version := 1; rsp_adapter_version := SDK_VERSION
|}.
Definition evidence : list (@RawHttpAttempt ZTime) := Response <$> [
  response "geoblock" "/api/geoblock" [] 1; response "closed-only" "/auth/ban-status/closed-only" [] 2;
  response "balance-allowance" "/balance-allowance" [("asset_type", "COLLATERAL"); ("signature_type", "3")] 3].
Definition hashes {A} (r : result LiveJournalError A) (d : A) : A := match r with Ok a => a | Err _ => d end.
Definition descriptors : list string :=
  hashes (try_map (λ a, request_descriptor_hash (request_descriptor_for_attempt binding a)) evidence) [].
Definition account_state : @LiveAccountStateAudit ZTime := {|
  as_observed_at := second 100; as_closed_only := false; as_geoblocked := false; as_selected_spender := "0xab";
  as_collateral_balance := from_atomic 20000000; as_allowance := from_atomic 20000000;
  as_reconciled_free_collateral := from_atomic 20000000; as_schema_version := 1; as_parser_version := 1;
  as_evidence := evidence; as_request_descriptor_hashes := descriptors;
  as_evidence_hashes := hashes (http_attempt_hashes evidence) []
|}.
Definition market : @LiveMarketEvidenceAudit QDecimal := @Build_LiveMarketEvidenceAudit QDecimal
  condition (token "7", token "8") false cent (from_atomic 5000000) 90 1 1 60.
Definition settlement : VenueSettlementRecord := {|
  vs_schema_version := 1; vs_condition_id := condition; vs_status := Unresolved; vs_raw_evidence_hash := "raw";
  vs_source_timestamp_unix := None; vs_observed_at_unix := 90; vs_parser_version := 1; vs_freshness_window_secs := 60
|}.
Definition artifact : @LiveAdmissionArtifactAudit QDecimal := @Build_LiveAdmissionArtifactAudit QDecimal
  market settlement (@Taker QDecimal (1 # 20)%Q) None
  {| receipt_gamma := receipt 1; receipt_clob_long := receipt 2; receipt_clob_compact := receipt 3 |}.
Definition ladder : @LadderPlanAudit QDecimal := @Build_LadderPlanAudit QDecimal
  [@Build_LadderAskAudit QDecimal half (from_atomic 10000000)] half half (from_atomic 10000000) (from_atomic 5000000).
Definition economic : @EconomicPrepared QDecimal := @Build_EconomicPrepared QDecimal
  1 {| ms_condition_id := condition; ms_outcome_index := 0; ms_token_id := token "7"; ms_side := Buy; ms_market_id := "m" |}
  artifact ladder (receipt 4) None
  (@Build_SizingAudit QDecimal (@DollarMode QDecimal (21 # 4)%Q) (from_atomic 5250000) (from_atomic 5000000)
     (from_atomic 10000000) (from_atomic 10000000) half half (0 # 1)%Q)
  (@Build_FeeAudit QDecimal (@Taker QDecimal (1 # 20)%Q) (from_atomic 125000) (from_atomic 250000))
  {| ra_financial_prefix := receipt 5; ra_snapshot := sample_snapshot 100 20; ra_decision := Approved;
     ra_price_receipts := []; ra_evaluated_at_unix_ms := 100000 |}
  (@Build_BalanceAudit QDecimal (from_atomic 20000000) (from_atomic 5250000) 100 half cent (@Build_Price QDecimal (99 # 100)%Q))
  "cfg".
Definition identity : LiveOrderIdentity := {|
  oi_dispatch_id := "d1"; oi_idempotency_key := "d1:main"; oi_quote_id := "q"; oi_config_hash := "cfg";
  oi_decision_hash := "dec"; oi_evidence_hashes := ["e"]; oi_fill_projection := None; oi_schema_version := 1;
  oi_parser_version := 1
|}.
Definition admission : @LiveAdmissionEvaluationAudit ZTime QDecimal := {|
  ae_identity := identity; ae_frozen_binding := credential; ae_current_binding := credential;
  ae_requested_mode := LiveTiny; ae_effective_mode := LiveTiny; ae_economic := economic;
  ae_account_state := Some account_state; ae_failure_evidence := []; ae_failure_request_descriptor_hashes := [];
  ae_failure_evidence_hashes := []; ae_verdict := VerdictApproved
|}.
Lemma verified : verify_live_admission_evaluation (DO := QDecimal) admission (second 120) (Some binding) = Some (Ok tt).
Proof. vm_cast_no_check (eq_refl (Some (Ok (E := LiveAdmissionEvaluationError) tt))). Qed.
End SampleOrder.

Lemma verified_admission_affordable_witness :
  ae_verdict SampleOrder.admission = VerdictApproved ∧ worst_debit SampleOrder.economic = 5250000
  ∧ ∃ account, ae_account_state SampleOrder.admission = Some account ∧ 5250000 ≤ atomic (as_collateral_balance account).
Proof.
  split_and!; [reflexivity..|].
  destruct (verified_admission_affordable _ _ _ SampleOrder.verified eq_refl)
    as (_ & _ & _ & _ & _ & _ & _ & account & spender & state & He & _ & _ & Hb & _).
  exists account. split; [exact (pe_account _ _ _ _ _ He)|exact Hb].
Defined.
