(* ===== verification/Polygon.v ===== *)
(** * Polygon finality of a live order
      (crates/venue-polymarket/src/receipt.rs, and the finality section of
      crates/execution-core/src/live_journal.rs)

    Retained JSON-RPC responses are parsed into a chain identity, blocks and
    receipts; a receipt's logs are decoded against the signed order; the
    classification decides whether the fills are final; and the two verifiers
    re-execute a journaled pending, conflicting or final fact from its raw evidence.
    The theorems say what a verified final fill is worth. *)

From S2P Require Import Prelude CoreTypes Bytes LogFrame LogChain LogScanner LogWriter RiskEngine WinnerFollow Fee Ladder CanaryTypes LiveTypes LiveAdmission.
#[local] Open Scope Z_scope.

(** ** alloy_primitives: hexadecimal words and addresses, and 256-bit numbers *)
Class Alloy := {
  b256_from_str : string → option (list Z);
  address_from_str : string → option (list Z);
  u256_from_str : string → option Z
}.

(** ** Integers in text and bytes *)
Definition be_decode (bs : list Z) : Z := le_decode (reverse bs).
(** [u64::from_str_radix(_, 16)]: an optional plus sign and digits, without overflow. *)
Fixpoint radix16_value (acc : Z) (bs : list Z) : option Z :=
  match bs with
  | [] => Some acc
  | b :: bs => d ← hex_nibble b; acc ← fits 0 U64_MAX (16 * acc + d); radix16_value acc bs
  end.
Definition u64_from_radix16 (s : string) : option Z :=
  match string_bytes s with
  | 43 :: ((_ :: _) as digits) => radix16_value 0 digits
  | (_ :: _) as digits => radix16_value 0 digits
  | [] => None
  end.
(** [format!("0x{n:x}")] of a [u64] *)
Definition hex_quantity (n : Z) : string :=
  "0x" +:+ match trim_start_zeros (hex_string (be_bytes 8 n)) with EmptyString => "0" | digits => digits end.

(** ** [Value] equality and strict structures

    The parameters compared here are arrays of strings and booleans. *)
Fixpoint json_eqb (a b : JsonValue) : bool :=
  match a, b with
  | JNull, JNull => true
  | JBool x, JBool y => eqb x y
  | JNumber x, JNumber y | JString x, JString y => bool_decide (x = y)
  | JArray xs, JArray ys =>
      (fix go xs ys := match xs, ys with
                       | [], [] => true
                       | x :: xs, y :: ys => json_eqb x y && go xs ys
                       | _, _ => false
                       end) xs ys
  | JObject xs, JObject ys =>
      (fix go xs ys := match xs, ys with
                       | [], [] => true
                       | (k, x) :: xs, (k', y) :: ys => bool_decide (k = k') && json_eqb x y && go xs ys
                       | _, _ => false
                       end) xs ys
  | _, _ => false
  end.
Definition is_null (v : JsonValue) : bool := match v with JNull => true | _ => false end.
Definition as_array (v : JsonValue) : option (list JsonValue) := match v with JArray items => Some items | _ => None end.
(** A derived [Deserialize] of a structure takes an object with its fields, others
    ignored, or an array of exactly its fields. *)
Definition wire_fields (names : list string) (v : JsonValue) : option (list JsonValue) :=
  match v with
  | JObject members => mapM (λ n, member n members) names
  | JArray items => if (length items =? length names)%nat then Some items else None
  | _ => None
  end.

(** ** receipt.rs *)
Definition FINALIZED_CHAIN_ID : Z := 137.
Definition hex_bytes (s : string) : list Z := default [] (result_ok (from_hex_chunks 0 (string_bytes s))).
Definition CTF_EXCHANGE_V2 : list Z := hex_bytes "E111180000d2663C0091e4f400237545B87B996B".
Definition NEG_RISK_CTF_EXCHANGE_V2 : list Z := hex_bytes "e2222d279d744050d28e00520010520000310F59".
Definition TOPIC_ORDER_FILLED_V2 : list Z :=
  hex_bytes "d543adfd945773f1a62f74f0ee55a5e3b9b1a28262980ba90b1a89f2ea84d8ee".
Definition B256_ZERO : list Z := replicate 32 0.

Record FinalizedBlock := { fb_number : Z; fb_hash : string }.
#[export] Instance FinalizedBlock_eq_dec : EqDecision FinalizedBlock.
Proof. solve_decision. Defined.
Record ReceiptLog := {
  rl_transaction_hash : string;
  rl_block_number : Z;
  rl_block_hash : string;
  rl_log_index : Z;
  rl_address : list Z;
  rl_topics : list (list Z);
  rl_data : string;
  rl_removed : bool;
  rl_raw_hash : string
}.
#[export] Instance ReceiptLog_eq_dec : EqDecision ReceiptLog.
Proof. solve_decision. Defined.
Record MatchedReceipt := {
  mr_transaction_hash : string;
  mr_block_number : Z;
  mr_block_hash : string;
  mr_logs : list ReceiptLog
}.
#[export] Instance MatchedReceipt_eq_dec : EqDecision MatchedReceipt.
Proof. solve_decision. Defined.
Record DecodedOrderFill := {
  df_transaction_hash : string;
  df_log_index : Z;
  df_principal : CollateralAmount;
  df_quantity : ShareAmount;
  df_fee : CollateralAmount;
  df_raw_log_hash : string
}.
#[export] Instance DecodedOrderFill_eq_dec : EqDecision DecodedOrderFill.
Proof. solve_decision. Defined.

Inductive ReceiptError : Type :=
| MalformedRpc | RpcError | MissingResult | UnsupportedFinalizedTag | MalformedHex | TransactionMismatch | Reverted
| BlockIdentityMismatch | LogIdentityConflict | RemovedLog | MalformedOrderFilled | OrderIdentityMismatch | AmountOverflow.
#[export] Instance ReceiptError_eq_dec : EqDecision ReceiptError.
Proof. solve_decision. Defined.
Definition receipt_error_text (e : ReceiptError) : string :=
  match e with
  | MalformedRpc => "malformed JSON-RPC response"
  | RpcError => "JSON-RPC returned an error"
  | MissingResult => "JSON-RPC result is missing"
  | UnsupportedFinalizedTag => "the finalized block tag is unsupported"
  | MalformedHex => "hexadecimal quantity or identity is malformed"
  | TransactionMismatch => "JSON-RPC transaction identity disagrees with the request"
  | Reverted => "receipt reports a reverted transaction"
  | BlockIdentityMismatch => "receipt or log block identity is inconsistent"
  | LogIdentityConflict => "a receipt log identity is reused with different raw content"
  | RemovedLog => "an OrderFilled log was removed"
  | MalformedOrderFilled => "an OrderFilled log has a malformed ABI shape"
  | OrderIdentityMismatch => "an OrderFilled log conflicts with the prepared order"
  | AmountOverflow => "an OrderFilled amount exceeds the exact six-decimal representation"
  end.

Record WireReceipt := {
  wr_transaction_hash : string;
  wr_block_number : string;
  wr_block_hash : string;
  wr_status : string;
  wr_logs : list JsonValue
}.
Definition wire_receipt (v : JsonValue) : option WireReceipt :=
  fields ← wire_fields ["transactionHash"; "blockNumber"; "blockHash"; "status"; "logs"] v;
  match fields with
  | [tx; number; hash; status; logs] =>
      tx ← as_str tx; number ← as_str number; hash ← as_str hash; status ← as_str status; logs ← as_array logs;
      Some {| wr_transaction_hash := tx; wr_block_number := number; wr_block_hash := hash; wr_status := status;
              wr_logs := logs |}
  | _ => None
  end.
Record WireLog := {
  wl_transaction_hash : string;
  wl_block_number : string;
  wl_block_hash : string;
  wl_log_index : string;
  wl_address : string;
  wl_topics : list string;
  wl_data : string;
  wl_removed : bool
}.
Definition wire_log (v : JsonValue) : option WireLog :=
  fields ← wire_fields ["transactionHash"; "blockNumber"; "blockHash"; "logIndex"; "address"; "topics"; "data"; "removed"] v;
  match fields with
  | [tx; number; hash; index; address; topics; data; removed] =>
      tx ← as_str tx; number ← as_str number; hash ← as_str hash; index ← as_str index; address ← as_str address;
      topics ← as_array topics; topics ← mapM as_str topics; data ← as_str data; removed ← as_bool removed;
      Some {| wl_transaction_hash := tx; wl_block_number := number; wl_block_hash := hash; wl_log_index := index;
              wl_address := address; wl_topics := topics; wl_data := data; wl_removed := removed |}
  | _ => None
  end.

Section Receipts.
Context {B3 : Blake3} {AV : AccountVenue} {AL : Alloy} {TJ : ToVec JsonValue}.

(** *** Parsing *)
Definition rpc_result (bytes : list Z) : result ReceiptError JsonValue :=
  value ← ok_or (json_from_slice bytes) MalformedRpc;
  object ← ok_or (as_object value) MalformedRpc;
  if bool_decide ((member "jsonrpc" object ≫= as_str) ≠ Some "2.0") then Err MalformedRpc
  else if match member "error" object with Some e => negb (is_null e) | None => false end then Err RpcError
  else ok_or (member "result" object) MissingResult.
Definition parse_quantity (raw : string) : result ReceiptError Z :=
  digits ← ok_or (strip_prefix "0x" raw) MalformedHex;
  let bytes := string_bytes digits in
  if bool_decide (bytes = []) || (16 <? length bytes)%nat || negb (forallb is_ascii_hexdigit bytes) then Err MalformedHex
  else ok_or (u64_from_radix16 digits) MalformedHex.
Definition canonical_b256 (raw : string) : result ReceiptError string :=
  value ← ok_or (b256_from_str raw) MalformedHex; Ok ("0x" +:+ hex_string value).
Definition parse_block (value : JsonValue) : result ReceiptError FinalizedBlock :=
  object ← ok_or (as_object value) MalformedRpc;
  number ← (text ← ok_or (member "number" object ≫= as_str) MalformedRpc; parse_quantity text);
  hash ← (text ← ok_or (member "hash" object ≫= as_str) MalformedRpc; canonical_b256 text);
  Ok {| fb_number := number; fb_hash := hash |}.
Definition parse_chain_id_response (bytes : list Z) : result ReceiptError Z :=
  value ← rpc_result bytes; raw ← ok_or (as_str value) MalformedRpc; parse_quantity raw.
Definition parse_finalized_block_response (bytes : list Z) : result ReceiptError FinalizedBlock :=
  value ← rpc_result bytes; if is_null value then Err UnsupportedFinalizedTag else parse_block value.
Definition canonical_block_matches (bytes : list Z) (expected_number : Z) (expected_hash : string) :
    result ReceiptError FinalizedBlock :=
  value ← rpc_result bytes;
  if is_null value then Err MissingResult
  else
    block ← parse_block value;
    if negb (fb_number block =? expected_number) then Err BlockIdentityMismatch
    else
      hash ← canonical_b256 expected_hash;
      if bool_decide (fb_hash block ≠ hash) then Err BlockIdentityMismatch else Ok block.

Definition LogIdentities : Type := list (string * Z * string).
(** One log; an identity seen before must have the same raw content. *)
Definition parse_log (tx : string) (number : Z) (hash : string) (state : list ReceiptLog * LogIdentities) (raw : JsonValue) :
    result ReceiptError (list ReceiptLog * LogIdentities) :=
  let '(logs, identities) := state in
  raw_bytes ← map_err (λ _, MalformedRpc) (to_vec raw);
  let raw_hash := to_hex (blake3 raw_bytes) in
  item ← ok_or (wire_log raw) MalformedRpc;
  log_tx ← canonical_b256 (wl_transaction_hash item);
  log_number ← parse_quantity (wl_block_number item);
  log_hash ← canonical_b256 (wl_block_hash item);
  log_index ← parse_quantity (wl_log_index item);
  if bool_decide (log_tx ≠ tx) || negb (log_number =? number) || bool_decide (log_hash ≠ hash) then Err BlockIdentityMismatch
  else
    identities ← match bt_get (log_tx, log_index) identities with
                 | Some existing => if bool_decide (existing ≠ raw_hash) then Err LogIdentityConflict else Ok identities
                 | None => Ok (bt_insert (log_tx, log_index) raw_hash identities)
                 end;
    address ← ok_or (address_from_str (wl_address item)) MalformedHex;
    topics ← try_map (λ topic, ok_or (b256_from_str topic) MalformedHex) (wl_topics item);
    Ok (logs ++ [{| rl_transaction_hash := log_tx; rl_block_number := log_number; rl_block_hash := log_hash;
                    rl_log_index := log_index; rl_address := address; rl_topics := topics; rl_data := wl_data item;
                    rl_removed := wl_removed item; rl_raw_hash := raw_hash |}], identities).
Definition parse_receipt_response (bytes : list Z) (requested_transaction_hash : string) :
    result ReceiptError (option MatchedReceipt) :=
  value ← rpc_result bytes;
  if is_null value then Ok None
  else
    wire ← ok_or (wire_receipt value) MalformedRpc;
    tx ← canonical_b256 (wr_transaction_hash wire);
    requested ← canonical_b256 requested_transaction_hash;
    if bool_decide (tx ≠ requested) then Err TransactionMismatch
    else
      status ← parse_quantity (wr_status wire);
      if negb (status =? 1) then Err Reverted
      else
        number ← parse_quantity (wr_block_number wire);
        hash ← canonical_b256 (wr_block_hash wire);
        '(logs, _) ← try_fold (parse_log tx number hash) ([], []) (wr_logs wire);
        Ok (Some {| mr_transaction_hash := tx; mr_block_number := number; mr_block_hash := hash; mr_logs := logs |}).

(** *** Decoding the fills of an order *)
Definition topic_address (word : list Z) : result ReceiptError (list Z) :=
  if existsb (λ b, negb (b =? 0)) (take 12 word) then Err MalformedOrderFilled else Ok (drop 12 word).
(** [chunks_exact(32)] of seven words *)
Definition words_of (bytes : list Z) : list (list Z) := (λ i, take 32 (drop (32 * i) bytes)) <$> seq 0 7.
Definition data_words (data : string) : result ReceiptError (list (list Z)) :=
  digits ← ok_or (strip_prefix "0x" data) MalformedOrderFilled;
  let bytes := string_bytes digits in
  if negb (length bytes =? 7 * 64)%nat || negb (forallb is_ascii_hexdigit bytes) then Err MalformedOrderFilled
  else decoded ← map_err (λ _, MalformedOrderFilled) (from_hex_chunks 0 bytes); Ok (words_of decoded).
Definition word_u64 (word : list Z) : result ReceiptError Z :=
  if negb (length word =? 32)%nat || existsb (λ b, negb (b =? 0)) (take 24 word) then Err AmountOverflow
  else Ok (be_decode (drop 24 word)).

Record ExpectedOrder := {
  xo_exchange : list Z;
  xo_order_hash : list Z;
  xo_maker : list Z;
  xo_token : Z;
  xo_builder : list Z;
  xo_metadata : list Z
}.
Context `{DO : DecimalOps}.
Definition expected_order (prepared : PreparedPolymarketBuy) : result ReceiptError ExpectedOrder :=
  exchange ← ok_or (address_from_str (pb_verifying_contract prepared)) OrderIdentityMismatch;
  let supported := if pb_neg_risk prepared then NEG_RISK_CTF_EXCHANGE_V2 else CTF_EXCHANGE_V2 in
  if negb (pb_exchange_domain_version prepared =? 2) || bool_decide (exchange ≠ supported)
     || bool_decide (pb_side prepared ≠ "BUY")
  then Err OrderIdentityMismatch
  else
    order_hash ← ok_or (b256_from_str (pb_order_hash prepared)) OrderIdentityMismatch;
    maker ← ok_or (address_from_str (pb_maker prepared)) OrderIdentityMismatch;
    token ← ok_or (u256_from_str (token_id_str (pb_token_id prepared))) OrderIdentityMismatch;
    builder ← ok_or (b256_from_str (pb_builder prepared)) OrderIdentityMismatch;
    metadata ← ok_or (b256_from_str (pb_metadata prepared)) OrderIdentityMismatch;
    if bool_decide (builder ≠ B256_ZERO) then Err OrderIdentityMismatch
    else Ok {| xo_exchange := exchange; xo_order_hash := order_hash; xo_maker := maker; xo_token := token;
               xo_builder := builder; xo_metadata := metadata |}.
(** A log of the exchange about this order; all others are skipped. *)
Definition about_order (x : ExpectedOrder) (log : ReceiptLog) : bool :=
  bool_decide (rl_address log = xo_exchange x) && bool_decide (rl_topics log !! 0%nat = Some TOPIC_ORDER_FILLED_V2)
  && bool_decide (rl_topics log !! 1%nat = Some (xo_order_hash x)).
Definition word (words : list (list Z)) (i : nat) : list Z := default [] (words !! i).
Definition decode_log (x : ExpectedOrder) (log : ReceiptLog) : result ReceiptError DecodedOrderFill :=
  if rl_removed log then Err RemovedLog
  else if negb (length (rl_topics log) =? 4)%nat then Err OrderIdentityMismatch
  else
    maker ← topic_address (word (rl_topics log) 2);
    if bool_decide (maker ≠ xo_maker x) then Err OrderIdentityMismatch
    else
      words ← data_words (rl_data log);
      side ← word_u64 (word words 0);
      if negb (side =? 0) || negb (be_decode (word words 1) =? xo_token x)
         || bool_decide (word words 5 ≠ xo_builder x) || bool_decide (word words 6 ≠ xo_metadata x)
      then Err OrderIdentityMismatch
      else
        principal ← word_u64 (word words 2);
        quantity ← word_u64 (word words 3);
        fee ← word_u64 (word words 4);
        Ok {| df_transaction_hash := rl_transaction_hash log; df_log_index := rl_log_index log;
              df_principal := from_atomic principal; df_quantity := from_atomic quantity; df_fee := from_atomic fee;
              df_raw_log_hash := rl_raw_hash log |}.
Definition decode_order_fills (receipt : MatchedReceipt) (prepared : PreparedPolymarketBuy) :
    result ReceiptError (list DecodedOrderFill) :=
  x ← expected_order prepared;
  try_map (decode_log x) (filter (λ log, about_order x log = true) (mr_logs receipt)).
End Receipts.

(** ** live_journal.rs: classification *)
Inductive PolygonFinalityClassification : Type :=
| PolygonPending (reason : string)
| PolygonConflict (reason : string)
| PolygonFinalized (principal : CollateralAmount) (quantity : ShareAmount) (fee : CollateralAmount)
    (matched_logs : list MatchedLogIdentity) (chain_id finalized_head : Z).
#[export] Instance PolygonFinalityClassification_eq_dec : EqDecision PolygonFinalityClassification.
Proof. solve_decision. Defined.
Definition unavailable_polygon_error (e : ReceiptError) : bool :=
  match e with MalformedRpc | RpcError | MissingResult | UnsupportedFinalizedTag => true | _ => false end.
(** [BTreeSet::from_iter], iterated *)
Definition btree_set {K} `{Ord K} (l : list K) : list K := bt_keys (foldl (λ m k, bt_insert k tt m) [] l).

Definition Fills : Type := list (string * Z * DecodedOrderFill).
Definition Receipts : Type := list (string * MatchedReceipt).
Definition ReceiptObservations : Type := list (string * result ReceiptError (option MatchedReceipt)).
Definition BlockObservations : Type := list (Z * result ReceiptError FinalizedBlock).
(** An early return of the classification *)
#[local] Abbreviation early := (result PolygonFinalityClassification).
Definition pending {A} (reason : string) : early A := Err (PolygonPending reason).
Definition conflict {A} (reason : string) : early A := Err (PolygonConflict reason).

Section Finality.
Context `{TO : TimeOps} `{DO : DecimalOps} {B3 : Blake3} {AV : AccountVenue} {AL : Alloy} {TJ : ToVec JsonValue}.

Definition fill_key (fill : DecodedOrderFill) : string * Z := (df_transaction_hash fill, df_log_index fill).
Definition add_fill (fills : Fills) (fill : DecodedOrderFill) : early Fills :=
  match bt_get (fill_key fill) fills with
  | Some existing => if bool_decide (existing = fill) then Ok fills
                     else conflict "OrderFilled log identity was reused with different content"
  | None => Ok (bt_insert (fill_key fill) fill fills)
  end.
(** The block a receipt is in must be the finalized head or canonical below it. *)
Definition check_canonical (head : FinalizedBlock) (blocks : BlockObservations) (receipt : MatchedReceipt) : early unit :=
  if mr_block_number receipt =? fb_number head
  then if bool_decide (mr_block_hash receipt ≠ fb_hash head) then conflict "receipt block hash conflicts with finalized head"
       else Ok tt
  else match bt_get (mr_block_number receipt) blocks with
       | None => conflict "canonical lower block evidence is missing"
       | Some (Ok canonical) => if bool_decide (fb_hash canonical = mr_block_hash receipt) then Ok tt
                                else conflict "receipt block hash is not canonical"
       | Some (Err error) => if unavailable_polygon_error error
                             then pending ("canonical block unavailable: " +:+ receipt_error_text error)
                             else conflict ("canonical block conflict: " +:+ receipt_error_text error)
       end.
Definition classify_receipt (prepared : LiveOrderPreparedAudit) (head : FinalizedBlock) (receipts : ReceiptObservations)
    (blocks : BlockObservations) (immutable : Receipts) (state : Fills * bool) (hash : string) : early (Fills * bool) :=
  let '(fills, has_unfinalized) := state in
  match bt_get hash receipts with
  | None => conflict ("receipt request missing for authenticated transaction " +:+ hash)
  | Some (Ok None) => Ok (fills, true)
  | Some (Err error) => if unavailable_polygon_error error
                        then pending ("transaction receipt unavailable: " +:+ receipt_error_text error)
                        else conflict ("transaction receipt conflict: " +:+ receipt_error_text error)
  | Some (Ok (Some receipt)) =>
      if match bt_get hash immutable with Some prior => bool_decide (prior ≠ receipt) | None => false end
      then conflict "transaction receipt changed after becoming an immutable observation"
      else if fb_number head <? mr_block_number receipt then Ok (fills, true)
      else
        _ ← check_canonical head blocks receipt;
        match decode_order_fills receipt (op_prepared prepared) with
        | Err error => conflict ("OrderFilled conflict: " +:+ receipt_error_text error)
        | Ok decoded => fills ← try_fold add_fill fills decoded; Ok (fills, has_unfinalized)
        end
  end.
Definition add_amounts (totals : CollateralAmount * ShareAmount * CollateralAmount) (fill : DecodedOrderFill) :
    result Error (CollateralAmount * ShareAmount * CollateralAmount) :=
  let '(principal, quantity, fee) := totals in
  principal ← collateral_checked_add principal (df_principal fill);
  quantity ← share_checked_add quantity (df_quantity fill);
  fee ← collateral_checked_add fee (df_fee fill);
  Ok (principal, quantity, fee).
(** The checks on the totals once every transaction is final. *)
Definition settle_fills (prepared : LiveOrderPreparedAudit) (chain_id : Z) (head : FinalizedBlock) (fills : Fills) :
    PolygonFinalityClassification :=
  match try_fold add_amounts (amount_ZERO, amount_ZERO, amount_ZERO) (bt_values fills) with
  | Err _ => PolygonConflict "finalized fill aggregation overflow"
  | Ok (principal, quantity, fee) =>
      let signed := op_prepared prepared in
      let economic := op_economic prepared in
      if bool_decide (sz_principal (eco_sizing economic) ≠ pb_maker_collateral signed)
         || bool_decide (lp_minimum_shares (eco_ladder economic) ≠ pb_taker_shares signed)
      then PolygonConflict "prepared economics disagree with the signed order"
      else if amount_ltb principal (pb_maker_collateral signed)
      then PolygonPending "finalized principal remains below the signed principal"
      else if amount_ltb (pb_maker_collateral signed) principal
      then PolygonConflict "finalized principal exceeds the signed principal"
      else if amount_ltb quantity (lp_minimum_shares (eco_ladder economic))
      then PolygonConflict "full-principal finalized quantity is below the signed minimum"
      else if negb (fee_within_reserve fee (fa_reserve (eco_fee economic)))
      then PolygonConflict "finalized fee exceeds the prepared reserve"
      else PolygonFinalized principal quantity fee
             ((λ k, {| ml_transaction_hash := k.1; ml_log_index := k.2 |}) <$> bt_keys fills) chain_id (fb_number head)
  end.
Definition classify_polygon_finality (prepared : LiveOrderPreparedAudit) (transaction_hashes : list string)
    (chain_id : result ReceiptError Z) (head : result ReceiptError FinalizedBlock) (receipts : ReceiptObservations)
    (blocks : BlockObservations) (immutable : Receipts) : PolygonFinalityClassification :=
  match chain_id with
  | Err _ => PolygonPending "polygon chain identity unavailable or not 137"
  | Ok chain_id =>
      if negb (chain_id =? FINALIZED_CHAIN_ID) then PolygonPending "polygon chain identity unavailable or not 137"
      else match head with
      | Err _ => PolygonPending "polygon finalized head unavailable"
      | Ok head =>
          if bool_decide (transaction_hashes = []) then PolygonPending "authenticated match has no nonzero transaction hash yet"
          else match try_fold (classify_receipt prepared head receipts blocks immutable) ([], false) transaction_hashes with
               | Err classification => classification
               | Ok (fills, has_unfinalized) =>
                   if (has_unfinalized : bool)
                   then PolygonPending "one or more authenticated transactions are not finalized"
                   else if bool_decide (fills = [])
                   then PolygonConflict "finalized receipts contain zero matching OrderFilled logs"
                   else settle_fills prepared chain_id head fills
               end
      end
  end.

(** ** Retained RPC attempts *)
Definition valid_rpc_query (method : string) (params : JsonValue) (query : list (string * string)) : bool :=
  match query with
  | [(name, m); (name', p)] =>
      bool_decide (name = "rpc_method") && bool_decide (m = method) && bool_decide (name' = "rpc_params")
      && match json_from_slice (string_bytes p) with Some actual => json_eqb actual params | None => false end
  | _ => false
  end.
Definition verified_rpc_body (attempt : RawHttpAttempt) (endpoint_kind method : string) (params : JsonValue) :
    result LiveJournalError (option (list Z)) :=
  match attempt with
  | Response r =>
      if bool_decide (rsp_source_id r ≠ "polygon-receipt-rpc") || bool_decide (rsp_endpoint_kind r ≠ endpoint_kind)
         || bool_decide (rsp_method r ≠ "POST") || bool_decide (rsp_path r = "")
         || negb (valid_rpc_query method params (rsp_ordered_query r)) || negb (rsp_attempt_ordinal r =? 1)
         || odt_ltb (rsp_received_at r) (rsp_observed_at r) || negb (rsp_schema_version r =? 1)
         || negb (rsp_parser_version r =? 1) || bool_decide (rsp_adapter_version r = "")
      then Err InvalidFinalityEvidence
      else Ok (if status_ok r then Some (rsp_body r) else None)
  | TransportFailure f =>
      if bool_decide (tf_source_id f ≠ "polygon-receipt-rpc") || bool_decide (tf_endpoint_kind f ≠ endpoint_kind)
         || bool_decide (tf_method f ≠ "POST") || bool_decide (tf_path f = "")
         || negb (valid_rpc_query method params (tf_ordered_query f)) || negb (tf_attempt_ordinal f =? 1)
         || odt_ltb (tf_received_at f) (tf_observed_at f) || negb (tf_schema_version f =? 1)
         || negb (tf_parser_version f =? 1) || bool_decide (tf_adapter_version f = "")
      then Err InvalidFinalityEvidence
      else Ok None
  end.
(** A body is parsed; a missing one counts as a malformed response. *)
Definition parsed_body {A} (body : option (list Z)) (parse : list Z → result ReceiptError A) : result ReceiptError A :=
  match body with Some bytes => parse bytes | None => Err MalformedRpc end.
Definition params_chain : JsonValue := JArray [].
Definition params_receipt (hash : string) : JsonValue := JArray [JString hash].
Definition params_head : JsonValue := JArray [JString "finalized"; JBool false].
Definition params_block (height : Z) : JsonValue := JArray [JString (hex_quantity height); JBool false].

(** *** Pending and conflicting facts *)
#[local] Abbreviation attempts_state := (stm (list RawHttpAttempt) LiveJournalError).
Definition next_attempt : attempts_state RawHttpAttempt :=
  λ attempts, match attempts with a :: rest => (rest, Ok a) | [] => ([], Err InvalidFinalityEvidence) end.
Definition next_body (endpoint_kind method : string) (params : JsonValue) : attempts_state (option (list Z)) :=
  attempt ← next_attempt; stm_lift (verified_rpc_body attempt endpoint_kind method params).
Definition receipt_attempt (hash : string) : attempts_state (result ReceiptError (option MatchedReceipt)) :=
  body ← next_body "polygon-transaction-receipt" "eth_getTransactionReceipt" (params_receipt hash);
  mret (parsed_body body (λ bytes, parse_receipt_response bytes hash)).
Fixpoint receipt_attempts (hashes : list string) (receipts : ReceiptObservations) : attempts_state ReceiptObservations :=
  match hashes with
  | [] => mret receipts
  | hash :: hashes => parsed ← receipt_attempt hash; receipt_attempts hashes (bt_insert hash parsed receipts)
  end.
Definition observed_receipt (r : result ReceiptError (option MatchedReceipt)) : option MatchedReceipt :=
  match r with Ok (Some receipt) => Some receipt | _ => None end.
Definition below (head : FinalizedBlock) (receipts : list MatchedReceipt) : list Z :=
  btree_set (omap (λ r, if mr_block_number r <? fb_number head then Some (mr_block_number r) else None) receipts).
Definition hash_at (height : Z) (receipts : list MatchedReceipt) : option string :=
  mr_block_hash <$> (snd <$> list_find (λ r, mr_block_number r = height) receipts).
Fixpoint block_attempts (receipts : list MatchedReceipt) (heights : list Z) (blocks : BlockObservations) :
    attempts_state BlockObservations :=
  match heights with
  | [] => mret blocks
  | height :: heights =>
      expected_hash ← stm_lift (ok_or (hash_at height receipts) InvalidFinalityEvidence);
      body ← next_body "polygon-canonical-block" "eth_getBlockByNumber" (params_block height);
      block_attempts receipts heights
        (bt_insert height (parsed_body body (λ bytes, canonical_block_matches bytes height expected_hash)) blocks)
  end.
Record PolygonEvidence := {
  pv_chain_id : result ReceiptError Z;
  pv_receipts : ReceiptObservations;
  pv_head : result ReceiptError FinalizedBlock;
  pv_blocks : BlockObservations
}.
Definition read_evidence (hashes : list string) : attempts_state PolygonEvidence :=
  chain_body ← next_body "polygon-chain-id" "eth_chainId" params_chain;
  receipts ← receipt_attempts hashes [];
  head_body ← next_body "polygon-finalized-block" "eth_getBlockByNumber" params_head;
  let head := parsed_body head_body parse_finalized_block_response in
  let observed := omap observed_receipt (bt_values receipts) in
  blocks ← block_attempts observed (match head with Ok head => below head observed | Err _ => [] end) [];
  attempts ← stm_get;
  if bool_decide (attempts = [])
  then mret {| pv_chain_id := parsed_body chain_body parse_chain_id_response; pv_receipts := receipts; pv_head := head;
               pv_blocks := blocks |}
  else stm_fail InvalidFinalityEvidence.
Definition is_canonical (head : FinalizedBlock) (blocks : BlockObservations) (receipt : MatchedReceipt) : bool :=
  if fb_number head <? mr_block_number receipt then false
  else if mr_block_number receipt =? fb_number head then bool_decide (mr_block_hash receipt = fb_hash head)
  else match bt_get (mr_block_number receipt) blocks with
       | Some (Ok block) => bool_decide (fb_hash block = mr_block_hash receipt)
       | _ => false
       end.
Definition canonical_receipts (v : PolygonEvidence) : Receipts :=
  match pv_head v with
  | Ok head =>
      if bool_decide (pv_chain_id v = Ok FINALIZED_CHAIN_ID)
      then omap (λ '(hash, r), receipt ← observed_receipt r;
                   if is_canonical head (pv_blocks v) receipt then Some (hash, receipt) else None) (pv_receipts v)
      else []
  | Err _ => []
  end.
Context {VA : ToVec (string * RawHttpAttempt)}.
Definition verify_polygon_reconciliation (prepared : LiveOrderPreparedAudit) (transaction_hashes : list string)
    (reconciled : LiveOrderReconciliationAudit) (immutable : Receipts) : result LiveJournalError Receipts :=
  if bool_decide (or_source reconciled ≠ PolygonFinality) then Err InvalidFinalityEvidence
  else
    hashes ← http_attempt_hashes (or_evidence reconciled);
    if bool_decide (hashes ≠ or_evidence_hashes reconciled) then Err InvalidFinalityEvidence
    else
      let ordered := btree_set transaction_hashes in
      if negb (length ordered =? length transaction_hashes)%nat then Err InvalidFinalityEvidence
      else
        v ← (read_evidence ordered (or_evidence reconciled)).2;
        expected ← match or_outcome reconciled with
                   | FinalityPending reason => Ok (PolygonPending reason)
                   | FinalityConflict reason => Ok (PolygonConflict reason)
                   | _ => Err InvalidFinalityEvidence
                   end;
        let derived := classify_polygon_finality prepared ordered (pv_chain_id v) (pv_head v) (pv_receipts v) (pv_blocks v)
                         immutable in
        if bool_decide (derived ≠ expected) then Err InvalidFinalityEvidence else Ok (canonical_receipts v).

(** *** Final facts *)
Definition strict_rpc_params (attempt : RawHttpAttempt) : result LiveJournalError JsonValue :=
  match attempt with
  | Response r =>
      match rsp_ordered_query r with
      | [(name, _); (name', p)] =>
          if bool_decide (name ≠ "rpc_method") || bool_decide (name' ≠ "rpc_params") then Err InvalidFinalityEvidence
          else ok_or (json_from_slice (string_bytes p)) InvalidFinalityEvidence
      | _ => Err InvalidFinalityEvidence
      end
  | TransportFailure _ => Err InvalidFinalityEvidence
  end.
(** A verified body that must be there and parse. *)
Definition strict_body {A} (attempt : RawHttpAttempt) (endpoint_kind method : string) (params : JsonValue)
    (parse : list Z → result ReceiptError A) : result LiveJournalError A :=
  body ← verified_rpc_body attempt endpoint_kind method params;
  bytes ← ok_or body InvalidFinalityEvidence;
  map_err (λ _, InvalidFinalityEvidence) (parse bytes).
Definition final_receipt (state : option Z * Receipts) (attempt : RawHttpAttempt) : result LiveJournalError (option Z * Receipts) :=
  let '(chain_id, receipts) := state in
  match attempt with
  | TransportFailure _ => Err InvalidFinalityEvidence
  | Response r =>
      if decide (rsp_endpoint_kind r = "polygon-chain-id") then
        parsed ← strict_body attempt "polygon-chain-id" "eth_chainId" params_chain parse_chain_id_response;
        if bool_decide (is_Some chain_id) then Err InvalidFinalityEvidence else Ok (Some parsed, receipts)
      else if decide (rsp_endpoint_kind r = "polygon-transaction-receipt") then
        params ← strict_rpc_params attempt;
        hash ← ok_or (match params with JArray [item] => as_str item | _ => None end) InvalidFinalityEvidence;
        parsed ← strict_body attempt "polygon-transaction-receipt" "eth_getTransactionReceipt" (params_receipt hash)
                   (λ bytes, parse_receipt_response bytes hash);
        receipt ← ok_or parsed InvalidFinalityEvidence;
        if bool_decide (is_Some (bt_get hash receipts)) then Err InvalidFinalityEvidence
        else Ok (chain_id, bt_insert hash receipt receipts)
      else Err InvalidFinalityEvidence
  end.
Definition final_block (receipts : Receipts) (state : option FinalizedBlock * BlockObservations) (attempt : RawHttpAttempt) :
    result LiveJournalError (option FinalizedBlock * BlockObservations) :=
  let '(head, blocks) := state in
  match attempt with
  | TransportFailure _ => Err InvalidFinalityEvidence
  | Response r =>
      if decide (rsp_endpoint_kind r = "polygon-finalized-block") then
        parsed ← strict_body attempt "polygon-finalized-block" "eth_getBlockByNumber" params_head
                   parse_finalized_block_response;
        if bool_decide (is_Some head) then Err InvalidFinalityEvidence else Ok (Some parsed, blocks)
      else if decide (rsp_endpoint_kind r = "polygon-canonical-block") then
        params ← strict_rpc_params attempt;
        number ← ok_or (match params with
                        | JArray [item; JBool false] => raw ← as_str item; digits ← strip_prefix "0x" raw; u64_from_radix16 digits
                        | _ => None
                        end) InvalidFinalityEvidence;
        expected_hash ← ok_or (hash_at number (bt_values receipts)) InvalidFinalityEvidence;
        block ← strict_body attempt "polygon-canonical-block" "eth_getBlockByNumber" (params_block number)
                  (λ bytes, canonical_block_matches bytes number expected_hash);
        if bool_decide (is_Some (bt_get number blocks)) then Err InvalidFinalityEvidence
        else Ok (head, bt_insert number (Ok block) blocks)
      else Err InvalidFinalityEvidence
  end.
Definition final_audit_matches (finalized : OrderFillFinalizedAudit) (derived : PolygonFinalityClassification) : bool :=
  match derived with
  | PolygonFinalized principal quantity fee matched_logs chain_id finalized_head =>
      bool_decide (of_principal finalized = principal) && bool_decide (of_quantity finalized = quantity)
      && bool_decide (of_fee finalized = fee) && bool_decide (of_matched_logs finalized = matched_logs)
      && (of_chain_id finalized =? chain_id) && (of_finalized_head finalized =? finalized_head)
  | _ => false
  end.
Definition verify_polygon_finalized (prepared : LiveOrderPreparedAudit) (authenticated : list string)
    (finalized : OrderFillFinalizedAudit) (immutable : Receipts) : result LiveJournalError unit :=
  '(chain_id, receipts) ← try_fold final_receipt (None, []) (of_receipts finalized);
  chain_id ← ok_or chain_id InvalidFinalityEvidence;
  if bool_decide (authenticated = []) || negb (length receipts =? length authenticated)%nat
     || negb (forallb (λ hash, bool_decide (hash ∈ authenticated)) (bt_keys receipts))
     || negb (forallb (λ hash, bool_decide (is_Some (bt_get hash receipts))) (bt_keys immutable))
  then Err InvalidFinalityEvidence
  else
    '(head, blocks) ← try_fold (final_block receipts) (None, []) (of_blocks finalized);
    head ← ok_or head InvalidFinalityEvidence;
    if bool_decide (bt_keys blocks ≠ below head (bt_values receipts)) then Err InvalidFinalityEvidence
    else
      let observations := (λ '(hash, receipt), (hash, Ok (Some receipt))) <$> receipts in
      let derived := classify_polygon_finality prepared authenticated (Ok chain_id) (Ok head) observations blocks immutable in
      if final_audit_matches finalized derived then Ok tt else Err InvalidFinalityEvidence.
End Finality.

(** ** What a verified final fill is worth *)
Section FinalityFacts.
Context `{TO : TimeOps} `{DO : DecimalOps} {B3 : Blake3} {AV : AccountVenue} {AL : Alloy} {TJ : ToVec JsonValue}.
Context {VA : ToVec (string * RawHttpAttempt)}.

(** *** One fill *)

(** The log is of the order's own exchange, about the signed order and its maker,
    was not removed, and carries the token and no builder. *)
Record genuine_fill (p : PreparedPolymarketBuy) (log : ReceiptLog) (fill : DecodedOrderFill) : Prop := {
  gf_exchange : address_from_str (pb_verifying_contract p) = Some (rl_address log)
                ∧ rl_address log = if pb_neg_risk p then NEG_RISK_CTF_EXCHANGE_V2 else CTF_EXCHANGE_V2;
  gf_topics : ∃ order_hash maker_topic maker taker, rl_topics log = [TOPIC_ORDER_FILLED_V2; order_hash; maker_topic; taker]
                ∧ b256_from_str (pb_order_hash p) = Some order_hash
                ∧ topic_address maker_topic = Ok maker ∧ address_from_str (pb_maker p) = Some maker;
  gf_kept : rl_removed log = false;
  gf_words : ∃ words, data_words (rl_data log) = Ok words
                ∧ word_u64 (word words 0) = Ok 0 ∧ u256_from_str (token_id_str (pb_token_id p)) = Some (be_decode (word words 1))
                ∧ word_u64 (word words 2) = Ok (atomic (df_principal fill))
                ∧ word_u64 (word words 3) = Ok (atomic (df_quantity fill))
                ∧ word_u64 (word words 4) = Ok (atomic (df_fee fill))
                ∧ word words 5 = B256_ZERO;
  gf_key : fill_key fill = (rl_transaction_hash log, rl_log_index log) ∧ df_raw_log_hash fill = rl_raw_hash log
}.
Lemma expected_order_Ok p x : expected_order p = Ok x →
  address_from_str (pb_verifying_contract p) = Some (xo_exchange x)
  ∧ xo_exchange x = (if pb_neg_risk p then NEG_RISK_CTF_EXCHANGE_V2 else CTF_EXCHANGE_V2)
  ∧ b256_from_str (pb_order_hash p) = Some (xo_order_hash x) ∧ address_from_str (pb_maker p) = Some (xo_maker x)
  ∧ u256_from_str (token_id_str (pb_token_id p)) = Some (xo_token x) ∧ xo_builder x = B256_ZERO.
Proof.
  unfold expected_order. intros (exchange & He%ok_or_Ok & H)%result_bind_Ok. destruct (_ || _) eqn:E; [done|].
  apply orb_false_iff in E as [[_ Ex%bool_decide_eq_false%dec_stable]%orb_false_iff _].
  inv_bind. case_bool_decide as Hb; [done|]. simplify_eq/=. done.
Qed.
Lemma decode_log_genuine p x log fill : expected_order p = Ok x → about_order x log = true → decode_log x log = Ok fill →
  genuine_fill p log fill.
Proof.
  intros (Hx1 & Hx2 & Hx3 & Hx4 & Hx5 & Hx6)%expected_order_Ok Ha H.
  apply andb_true_iff in Ha as [[A1%bool_decide_eq_true A2%bool_decide_eq_true]%andb_true_iff A3%bool_decide_eq_true].
  unfold decode_log in H. destruct (rl_removed log) eqn:Hr; [done|]. destruct (negb _) eqn:Hl; [done|].
  apply negb_false_iff, Nat.eqb_eq in Hl. apply result_bind_Ok in H as (maker & Hm & H). case_bool_decide as Hmk; [done|].
  apply result_bind_Ok in H as (words & Hw & H). apply result_bind_Ok in H as (side & Hs & H).
  destruct (_ || _) eqn:E; [done|]. repeat (apply orb_false_iff in E as [E ?]).
  apply negb_false_iff, Z.eqb_eq in E as ->.
  repeat match goal with
         | K : negb (_ =? _) = false |- _ => apply negb_false_iff, Z.eqb_eq in K
         | K : bool_decide _ = false |- _ => apply bool_decide_eq_false, dec_stable in K
         end.
  inv_bind. destruct (rl_topics log) as [|t0 [|t1 [|t2 [|t3 [|]]]]] eqn:Ht; try done. simplify_eq/=.
  split; simpl; try done; [by rewrite A1| |].
  - rewrite Ht. by exists (xo_order_hash x), t2, (xo_maker x), t3.
  - exists words. split_and!; try done; congruence.
Qed.
Lemma genuine_fill_unique p log f f' : genuine_fill p log f → genuine_fill p log f' → f = f'.
Proof.
  intros [_ _ _ (w & Hw & _ & _ & W2 & W3 & W4 & _) [Hk Hr]] [_ _ _ (w' & Hw' & _ & _ & W2' & W3' & W4' & _) [Hk' Hr']].
  rewrite Hw in Hw'. injection Hw' as <-. rewrite W2 in W2'. rewrite W3 in W3'. rewrite W4 in W4'.
  injection W2' as W2'. injection W3' as W3'. injection W4' as W4'. rewrite <- Hk' in Hk. rewrite <- Hr' in Hr.
  unfold fill_key in Hk. injection Hk as K1 K2.
  destruct f as [? ? [] [] [] ?], f' as [? ? [] [] [] ?]. simpl in *. by subst.
Qed.
Lemma genuine_about p x log f : expected_order p = Ok x → genuine_fill p log f → about_order x log = true.
Proof.
  intros (Hx1 & _ & Hx3 & _)%expected_order_Ok [[G1 _] (oh & mt & mk & tk & Ht & Ho & _) _ _ _].
  rewrite Hx1 in G1. injection G1 as G1. rewrite Hx3 in Ho. injection Ho as Ho.
  unfold about_order. rewrite Ht, !bool_decide_eq_true_2; simpl; congruence.
Qed.
Lemma decode_order_fills_exact receipt p fills : decode_order_fills receipt p = Ok fills →
  ∀ f, f ∈ fills ↔ ∃ log, log ∈ mr_logs receipt ∧ genuine_fill p log f.
Proof.
  unfold decode_order_fills. intros (x & Hx & H%try_map_Ok)%result_bind_Ok f. split.
  - intros (i & Hi)%list_elem_of_lookup. destruct (Forall2_lookup_r _ _ _ _ _ H Hi) as (log & Hl & Hd).
    apply list_elem_of_lookup_2, list_elem_of_filter in Hl as [Ha Hin]. exists log. split; [done|].
    by eapply decode_log_genuine.
  - intros (log & Hin & Hg). pose proof (genuine_about _ _ _ _ Hx Hg) as Ha.
    destruct (list_elem_of_lookup_1 (filter (λ log, about_order x log = true) (mr_logs receipt)) log) as [i Hi];
      [by apply list_elem_of_filter|].
    destruct (Forall2_lookup_l _ _ _ _ _ H Hi) as (f' & Hl & Hd).
    rewrite (genuine_fill_unique p log f f'); [by eapply list_elem_of_lookup_2|done|by eapply decode_log_genuine].
Qed.

(** *** Collecting fills *)
Definition keyed (fills : Fills) : Prop := bt_wf fills ∧ ∀ k f, (k, f) ∈ fills → k = fill_key f.
Lemma keyed_nil : keyed [].
Proof. split; [constructor|]. set_solver. Qed.
Lemma add_fill_Ok fills fill fills' : keyed fills → add_fill fills fill = Ok fills' →
  keyed fills' ∧ ∀ k f, (k, f) ∈ fills' ↔ (k, f) ∈ fills ∨ (k = fill_key fill ∧ f = fill).
Proof.
  intros [Hw Hk]. unfold add_fill. destruct (bt_get _ _) as [f0|] eqn:E.
  - case_bool_decide; [|done]. intros [= <-]. subst f0. split; [done|]. intros k f. split; [tauto|].
    intros [|[-> ->]]; [done|]. by apply bt_elem_get.
  - intros [= <-]. pose proof (bt_insert_wf (fill_key fill) fill fills Hw) as Hw'.
    assert (∀ k f, (k, f) ∈ bt_insert (fill_key fill) fill fills ↔ (k, f) ∈ fills ∨ (k = fill_key fill ∧ f = fill)) as He.
    { intros k f. split.
      - intros H%bt_get_elem; [|done]. rewrite bt_get_insert in H by done. case_decide; simplify_eq; [by right|].
        left. by apply bt_elem_get.
      - intros H. apply bt_elem_get. rewrite bt_get_insert by done. destruct H as [H|[-> ->]]; [|by rewrite decide_True].
        rewrite decide_False; [by apply bt_get_elem|]. intros ->. by rewrite (bt_get_elem _ _ _ Hw H) in E. }
    split; [|done]. split; [done|]. intros k f [H|[-> ->]]%He; [by apply Hk|done].
Qed.
Lemma add_fills_Ok l fills fills' : keyed fills → try_fold add_fill fills l = Ok fills' →
  keyed fills' ∧ ∀ k f, (k, f) ∈ fills' ↔ (k, f) ∈ fills ∨ (k = fill_key f ∧ f ∈ l).
Proof.
  revert fills. induction l as [|x l IH]; intros fills Hk; simpl.
  { intros [= <-]. split; [done|]. set_solver. }
  intros (f1 & H1 & H)%result_bind_Ok. destruct (add_fill_Ok _ _ _ Hk H1) as [Hk1 He1].
  destruct (IH _ Hk1 H) as [Hk' He']. split; [done|]. intros k f. rewrite He', He1, elem_of_cons. naive_solver.
Qed.
Lemma add_amounts_Ok l t t' : try_fold add_amounts t l = Ok t' →
  atomic t'.1.1 = atomic t.1.1 + sum_with (λ f, atomic (df_principal f)) l
  ∧ atomic t'.1.2 = atomic t.1.2 + sum_with (λ f, atomic (df_quantity f)) l
  ∧ atomic t'.2 = atomic t.2 + sum_with (λ f, atomic (df_fee f)) l.
Proof.
  revert t. induction l as [|x l IH]; intros t; simpl; [intros [= <-]; lia|].
  intros (t1 & H1 & (Ha & Hb & Hc)%IH)%result_bind_Ok. rewrite Ha, Hb, Hc. clear Ha Hb Hc.
  destruct t as [[p q] e]. simpl in H1. inv_bind.
  repeat match goal with K : _ = Ok _ |- _ => apply amount_checked_add_Ok in K as [-> _] end. simpl. lia.
Qed.

(** *** Final transactions *)
Definition final_transaction (prepared : LiveOrderPreparedAudit) (head : FinalizedBlock) (receipts : ReceiptObservations)
    (blocks : BlockObservations) (immutable : Receipts) (hash : string) (decoded : list DecodedOrderFill) : Prop :=
  ∃ receipt, bt_get hash receipts = Some (Ok (Some receipt))
    ∧ (∀ prior, bt_get hash immutable = Some prior → prior = receipt)
    ∧ is_canonical head blocks receipt = true
    ∧ decode_order_fills receipt (op_prepared prepared) = Ok decoded.
Lemma check_canonical_Ok head blocks receipt : mr_block_number receipt ≤ fb_number head →
  check_canonical head blocks receipt = Ok tt → is_canonical head blocks receipt = true.
Proof.
  intros Hle. unfold check_canonical, is_canonical. rewrite (proj2 (Z.ltb_ge _ _)) by done.
  destruct (_ =? _); [by case_bool_decide as E; [|intros _; apply bool_decide_eq_true]|].
  destruct (bt_get _ blocks) as [[b|e]|]; [|by destruct (unavailable_polygon_error e)|done].
  by case_bool_decide.
Qed.
Lemma classify_receipts_Ok prepared head receipts blocks immutable l fills0 unfinal0 fills :
  try_fold (classify_receipt prepared head receipts blocks immutable) (fills0, unfinal0) l = Ok (fills, false) →
  unfinal0 = false
  ∧ ∃ ds, Forall2 (final_transaction prepared head receipts blocks immutable) l ds
      ∧ try_fold add_fill fills0 (concat ds) = Ok fills.
Proof.
  revert fills0 unfinal0. induction l as [|hash l IH]; intros fills0 unfinal0; simpl.
  { intros [= -> ->]. split; [done|]. exists []. split; [constructor|done]. }
  intros ([fills1 u1] & H1 & (-> & ds & Hds & Hf)%IH)%result_bind_Ok.
  unfold classify_receipt in H1. destruct (bt_get hash receipts) as [[[receipt|]|e]|] eqn:Hr; try done.
  2:{ by destruct (unavailable_polygon_error e). }
  destruct (match bt_get hash immutable with Some _ => _ | None => _ end) eqn:Hi; [done|].
  destruct (Z.ltb_spec (fb_number head) (mr_block_number receipt)) as [|Hle]; [done|].
  apply result_bind_Ok in H1 as ([] & Hc%check_canonical_Ok & H1); [|done].
  destruct (decode_order_fills _ _) as [decoded|e] eqn:Hd; [|done].
  apply result_bind_Ok in H1 as (f1 & Ha & [= -> ->]). split; [done|]. exists (decoded :: ds). split.
  - constructor; [|done]. exists receipt. split_and!; [done| |done|done].
    intros prior Hp. rewrite Hp in Hi. by apply bool_decide_eq_false, dec_stable in Hi.
  - simpl. by rewrite try_fold_app, Ha.
Qed.
(** An early return is never final. *)
Definition not_final (c : PolygonFinalityClassification) : Prop :=
  match c with PolygonFinalized _ _ _ _ _ _ => False | _ => True end.
Lemma try_fold_Err {E S A} (P : E → Prop) (f : S → A → result E S) :
  (∀ s a e, f s a = Err e → P e) → ∀ l s e, try_fold f s l = Err e → P e.
Proof.
  intros Hf l. induction l as [|a l IH]; intros s e; simpl; [done|].
  destruct (f s a) as [s'|e'] eqn:E'; simpl; [apply IH|]. intros [= <-]. by eapply Hf.
Qed.
Lemma add_fill_early s a e : add_fill s a = Err e → not_final e.
Proof. unfold add_fill. destruct (bt_get _ _); [|done]. case_bool_decide; [done|]. by intros [= <-]. Qed.
Lemma classify_receipt_early prepared head receipts blocks immutable state hash e :
  classify_receipt prepared head receipts blocks immutable state hash = Err e → not_final e.
Proof.
  unfold classify_receipt, check_canonical, pending, conflict. destruct state as [fills unfinal].
  destruct (bt_get hash receipts) as [[[receipt|]|er]|]; try done; [| |by intros [= <-]].
  2:{ destruct (unavailable_polygon_error er); by intros [= <-]. }
  destruct (match bt_get hash immutable with Some _ => _ | None => _ end); [by intros [= <-]|].
  destruct (_ <? _); [done|]. destruct (_ =? _).
  2: destruct (bt_get _ blocks) as [[b|er]|]; [|destruct (unavailable_polygon_error er); by intros [= <-]|by intros [= <-]].
  all: case_bool_decide; simpl; try by intros [= <-].
  all: destruct (decode_order_fills _ _); [|by intros [= <-]]; destruct (try_fold _ _ _) eqn:E; [done|]; intros [= <-].
  all: exact (try_fold_Err not_final _ add_fill_early _ _ _ E).
Qed.

(** What a final classification has established. *)
Record final_fills (prepared : LiveOrderPreparedAudit) (principal : CollateralAmount) (quantity : ShareAmount)
    (fee : CollateralAmount) (fills : Fills) : Prop := {
  ff_keyed : keyed fills;
  ff_some : fills ≠ [];
  ff_principal : atomic principal = sum_with (λ f, atomic (df_principal f)) (bt_values fills);
  ff_quantity : atomic quantity = sum_with (λ f, atomic (df_quantity f)) (bt_values fills);
  ff_fee : atomic fee = sum_with (λ f, atomic (df_fee f)) (bt_values fills);
  ff_signed : principal = pb_maker_collateral (op_prepared prepared)
              ∧ principal = sz_principal (eco_sizing (op_economic prepared));
  ff_minimum : atomic (pb_taker_shares (op_prepared prepared)) ≤ atomic quantity;
  ff_reserve : atomic fee ≤ atomic (fa_reserve (eco_fee (op_economic prepared))) ∧ atomic fee mod 10 = 0
}.
Definition log_identities (fills : Fills) : list MatchedLogIdentity :=
  (λ k, {| ml_transaction_hash := k.1; ml_log_index := k.2 |}) <$> bt_keys fills.
Lemma settle_fills_final prepared chain_id head fills principal quantity fee logs chain_id' number :
  keyed fills → fills ≠ [] →
  settle_fills prepared chain_id head fills = PolygonFinalized principal quantity fee logs chain_id' number →
  final_fills prepared principal quantity fee fills ∧ logs = log_identities fills ∧ chain_id' = chain_id
  ∧ number = fb_number head.
Proof.
  intros Hk Hn. unfold settle_fills. destruct (try_fold _ _ _) as [[[p q] f]|] eqn:E; [|done].
  apply add_amounts_Ok in E as (Hp & Hq & Hf). simpl in Hp, Hq, Hf.
  destruct (_ || _) eqn:Eq; [done|].
  apply orb_false_iff in Eq as [E1%bool_decide_eq_false%dec_stable E2%bool_decide_eq_false%dec_stable].
  unfold amount_ltb. destruct (Z.ltb_spec (atomic p) (atomic (pb_maker_collateral (op_prepared prepared)))); [done|].
  destruct (Z.ltb_spec (atomic (pb_maker_collateral (op_prepared prepared))) (atomic p)); [done|].
  destruct (Z.ltb_spec (atomic q) (atomic (lp_minimum_shares (eco_ladder (op_economic prepared))))) as [|Hmin]; [done|].
  destruct (negb _) eqn:Er; [done|]. apply negb_false_iff, andb_true_iff in Er as [R1%Z.leb_le R2%Z.eqb_eq].
  intros [= <- <- <- <- <- <-]. split_and!; [|done..].
  assert (p = pb_maker_collateral (op_prepared prepared)) as -> by (rewrite <- (amount_eta p), <- (amount_eta (pb_maker_collateral _)); f_equal; lia).
  split; try done. by rewrite <- E2.
Qed.
Lemma classify_final prepared hashes chain_id head receipts blocks immutable principal quantity fee logs chain_id' number :
  classify_polygon_finality prepared hashes (Ok chain_id) (Ok head) receipts blocks immutable
    = PolygonFinalized principal quantity fee logs chain_id' number →
  ∃ fills ds, final_fills prepared principal quantity fee fills ∧ logs = log_identities fills
    ∧ chain_id = FINALIZED_CHAIN_ID ∧ chain_id' = chain_id ∧ number = fb_number head
    ∧ Forall2 (final_transaction prepared head receipts blocks immutable) hashes ds
    ∧ ∀ k f, (k, f) ∈ fills ↔ k = fill_key f ∧ f ∈ concat ds.
Proof.
  unfold classify_polygon_finality. destruct (negb _) eqn:Hc; [done|]. apply negb_false_iff, Z.eqb_eq in Hc.
  case_bool_decide; [done|]. destruct (try_fold _ _ hashes) as [[fills unfinal]|e] eqn:E.
  2:{ intros ->. by apply (try_fold_Err not_final) in E; [|apply classify_receipt_early]. }
  destruct unfinal; [done|]. case_bool_decide as Hn; [done|]. intros Hs.
  apply classify_receipts_Ok in E as (_ & ds & Hds & Hf). destruct (add_fills_Ok _ _ _ keyed_nil Hf) as [Hk He].
  destruct (settle_fills_final _ _ _ _ _ _ _ _ _ _ Hk Hn Hs) as (? & ? & ? & ?).
  exists fills, ds. split_and!; try done. intros k f. rewrite He. set_solver.
Qed.

(** *** Evidence *)

(** A retained attempt answers the request, and its body parses to the value. *)
Definition answered {A} (attempts : list RawHttpAttempt) (endpoint_kind method : string) (params : JsonValue)
    (parse : list Z → result ReceiptError A) (a : A) : Prop :=
  ∃ attempt bytes, attempt ∈ attempts ∧ verified_rpc_body attempt endpoint_kind method params = Ok (Some bytes)
    ∧ parse bytes = Ok a.
(** A receipt that names the requested transaction and reports its success. *)
Definition shows_success (bytes : list Z) (hash : string) : Prop :=
  ∃ value wire, rpc_result bytes = Ok value ∧ wire_receipt value = Some wire
    ∧ canonical_b256 (wr_transaction_hash wire) = canonical_b256 hash ∧ parse_quantity (wr_status wire) = Ok 1.
Definition receipt_answered (attempts : list RawHttpAttempt) (hash : string) (receipt : MatchedReceipt) : Prop :=
  ∃ attempt bytes, attempt ∈ attempts
    ∧ verified_rpc_body attempt "polygon-transaction-receipt" "eth_getTransactionReceipt" (JArray [JString hash]) = Ok (Some bytes)
    ∧ parse_receipt_response bytes hash = Ok (Some receipt) ∧ shows_success bytes hash.
Lemma parsed_receipt_succeeded bytes hash receipt :
  parse_receipt_response bytes hash = Ok (Some receipt) → shows_success bytes hash.
Proof.
  unfold parse_receipt_response. intros (value & Hv & H)%result_bind_Ok. destruct (is_null value); [done|].
  apply result_bind_Ok in H as (wire & Hw%ok_or_Ok & H). apply result_bind_Ok in H as (tx & Htx & H).
  apply result_bind_Ok in H as (requested & Hq & H). case_bool_decide as E; [done|].
  apply result_bind_Ok in H as (status & Hs & H). destruct (Z.eqb_spec status 1) as [->|]; [|done].
  exists value, wire. by rewrite Htx, Hq, E.
Qed.
(** The node named the chain, and its last finalized block. *)
Definition chain_answered (attempts : list RawHttpAttempt) (chain_id : Z) : Prop :=
  answered attempts "polygon-chain-id" "eth_chainId" (JArray []) parse_chain_id_response chain_id.
Definition head_answered (attempts : list RawHttpAttempt) (head : FinalizedBlock) : Prop :=
  answered attempts "polygon-finalized-block" "eth_getBlockByNumber" (JArray [JString "finalized"; JBool false])
    parse_finalized_block_response head.
Definition block_answered (attempts : list RawHttpAttempt) (number : Z) (hash : string) : Prop :=
  ∃ expected block, fb_hash block = hash
    ∧ answered attempts "polygon-canonical-block" "eth_getBlockByNumber" (JArray [JString (hex_quantity number); JBool false])
        (λ bytes, canonical_block_matches bytes number expected) block.
Lemma strict_body_Ok {A} attempt kind method params (parse : list Z → result ReceiptError A) a attempts :
  strict_body attempt kind method params parse = Ok a → attempt ∈ attempts → answered attempts kind method params parse a.
Proof. unfold strict_body. intros H ?. inv_bind. by eexists _, _. Qed.
Lemma receipt_body_Ok attempt hash receipt attempts :
  strict_body attempt "polygon-transaction-receipt" "eth_getTransactionReceipt" (JArray [JString hash])
    (λ bytes, parse_receipt_response bytes hash) = Ok (Some receipt) →
  attempt ∈ attempts → receipt_answered attempts hash receipt.
Proof.
  intros H Hin. destruct (strict_body_Ok _ _ _ _ _ _ _ H Hin) as (a & bytes & ? & ? & Hp). exists a, bytes.
  split_and!; [done..|]. by eapply parsed_receipt_succeeded.
Qed.
Lemma answered_weaken {A} l l' kind method params (parse : list Z → result ReceiptError A) a : l ⊆ l' →
  answered l kind method params parse a → answered l' kind method params parse a.
Proof. intros Hl (attempt & bytes & ? & ?). exists attempt, bytes. split; [by apply Hl|done]. Qed.

Lemma final_receipts_Ok attempts chain_id receipts : try_fold final_receipt (None, []) attempts = Ok (chain_id, receipts) →
  bt_wf receipts ∧ (∀ hash receipt, (hash, receipt) ∈ receipts → receipt_answered attempts hash receipt)
  ∧ ∀ c, chain_id = Some c → chain_answered attempts c.
Proof.
  intros H. refine (try_fold_inv (λ st, bt_wf st.2 ∧ (∀ h r, (h, r) ∈ st.2 → receipt_answered attempts h r)
    ∧ ∀ c, st.1 = Some c → chain_answered attempts c) final_receipt attempts _ _ _ _ H); [|split_and!; [constructor|set_solver|done]].
  intros [c rs] s' attempt Hin (Hw & Hr & Hc). unfold final_receipt. destruct attempt as [r|]; [|done].
  case_decide; [|case_decide; [|done]].
  - intros (parsed & Hp & K)%result_bind_Ok. case_bool_decide; [done|]. injection K as <-. split_and!; [done..|].
    intros c' [= <-]. by eapply strict_body_Ok.
  - intros (params & _ & K)%result_bind_Ok. apply result_bind_Ok in K as (hash & _ & K).
    apply result_bind_Ok in K as (parsed & Hp & K). apply result_bind_Ok in K as (receipt & ->%ok_or_Ok & K).
    case_bool_decide; [done|]. injection K as <-. cbn [fst snd] in *. split_and!; [by apply bt_insert_wf| |done].
    intros h r' Hh. apply bt_get_elem in Hh; [|by apply bt_insert_wf]. rewrite bt_get_insert in Hh by done.
    case_decide; simplify_eq; [by eapply receipt_body_Ok|]. apply Hr. by apply bt_elem_get.
Qed.
Lemma final_blocks_Ok receipts attempts head blocks : try_fold (final_block receipts) (None, []) attempts = Ok (head, blocks) →
  bt_wf blocks
  ∧ (∀ number block, (number, block) ∈ blocks → ∃ b, block = Ok b ∧ block_answered attempts number (fb_hash b))
  ∧ ∀ b, head = Some b → head_answered attempts b.
Proof.
  intros H. refine (try_fold_inv (λ st, bt_wf st.2
    ∧ (∀ n b, (n, b) ∈ st.2 → ∃ b', b = Ok b' ∧ block_answered attempts n (fb_hash b'))
    ∧ ∀ b, st.1 = Some b → head_answered attempts b) (final_block receipts) attempts _ _ _ _ H);
    [|split_and!; [constructor|set_solver|done]].
  intros [c rs] s' attempt Hin (Hw & Hr & Hc). unfold final_block. destruct attempt as [r|]; [|done].
  case_decide; [|case_decide; [|done]].
  - intros (parsed & Hp & K)%result_bind_Ok. case_bool_decide; [done|]. injection K as <-. split_and!; [done..|].
    intros c' [= <-]. by eapply strict_body_Ok.
  - intros (params & _ & K)%result_bind_Ok. apply result_bind_Ok in K as (number & _ & K).
    apply result_bind_Ok in K as (expected & _ & K). apply result_bind_Ok in K as (block & Hp & K).
    case_bool_decide; [done|]. injection K as <-. cbn [fst snd] in *. split_and!; [by apply bt_insert_wf| |done].
    intros n b Hn. apply bt_get_elem in Hn; [|by apply bt_insert_wf]. rewrite bt_get_insert in Hn by done.
    case_decide; simplify_eq; [|apply Hr; by apply bt_elem_get].
    exists block. split; [done|]. exists expected, block. split; [done|]. by eapply strict_body_Ok.
Qed.
Lemma elem_of_concat {A} (x : A) ls : x ∈ concat ls ↔ ∃ l, x ∈ l ∧ l ∈ ls.
Proof. induction ls as [|l ls IH]; simpl; [set_solver|]. rewrite elem_of_app, IH. set_solver. Qed.
Lemma bt_get_fmap {K V W} `{Ord K} (f : V → W) k (m : list (K * V)) :
  bt_get k ((λ '(k, v), (k, f v)) <$> m) = f <$> bt_get k m.
Proof. induction m as [|[k' v] m IH]; simpl; [done|]. by destruct (cmp k k'). Qed.

(** The receipt's block is the finalized head, or lies below it and a retained
    response shows the same hash at its height. *)
Definition block_final (finalized : OrderFillFinalizedAudit) (head : FinalizedBlock) (r : MatchedReceipt) : Prop :=
  (mr_block_number r = fb_number head ∧ mr_block_hash r = fb_hash head)
  ∨ (mr_block_number r < fb_number head ∧ block_answered (of_blocks finalized) (mr_block_number r) (mr_block_hash r)).

(** What the final verifier rebuilt from its evidence. *)
Record rebuilt (prepared : LiveOrderPreparedAudit) (hashes : list string) (finalized : OrderFillFinalizedAudit)
    (immutable : Receipts) (receipts : Receipts) (head : FinalizedBlock) (blocks : BlockObservations) : Prop := {
  rb_receipts : bt_wf receipts ∧ ∀ h r, (h, r) ∈ receipts → h ∈ hashes ∧ receipt_answered (of_receipts finalized) h r;
  rb_blocks : ∀ number block, (number, block) ∈ blocks →
    ∃ b, block = Ok b ∧ block_answered (of_blocks finalized) number (fb_hash b);
  rb_head : head_answered (of_blocks finalized) head;
  rb_immutable : ∀ h prior, bt_get h immutable = Some prior → ∃ r, (h, r) ∈ receipts;
  rb_classified : ∃ chain_id, chain_answered (of_receipts finalized) chain_id ∧
    classify_polygon_finality prepared hashes (Ok chain_id) (Ok head)
      ((λ '(hash, receipt), (hash, Ok (Some receipt))) <$> receipts) blocks immutable
    = PolygonFinalized (of_principal finalized) (of_quantity finalized) (of_fee finalized) (of_matched_logs finalized)
        (of_chain_id finalized) (of_finalized_head finalized)
}.
Lemma final_audit_matches_true finalized derived : final_audit_matches finalized derived = true →
  derived = PolygonFinalized (of_principal finalized) (of_quantity finalized) (of_fee finalized) (of_matched_logs finalized)
              (of_chain_id finalized) (of_finalized_head finalized).
Proof.
  destruct derived as [| |p q f logs c n]; try done. cbn. intros Hm. repeat (apply andb_true_iff in Hm as [Hm ?]).
  repeat match goal with
         | K : bool_decide _ = true |- _ => apply bool_decide_eq_true in K
         | K : (_ =? _) = true |- _ => apply Z.eqb_eq in K
         end. by subst.
Qed.
Lemma verify_polygon_finalized_Ok prepared hashes finalized immutable :
  verify_polygon_finalized prepared hashes finalized immutable = Ok tt →
  ∃ receipts head blocks, rebuilt prepared hashes finalized immutable receipts head blocks.
Proof.
  unfold verify_polygon_finalized. intros ([chain receipts] & Hr & H)%result_bind_Ok.
  apply result_bind_Ok in H as (chain_id & ->%ok_or_Ok & H). destruct (_ || _) eqn:E; [done|].
  apply orb_false_iff in E as [[_ Hkeys%negb_false_iff]%orb_false_iff Hprior%negb_false_iff].
  apply result_bind_Ok in H as ([head blocks] & Hb & H). apply result_bind_Ok in H as (hd & ->%ok_or_Ok & H).
  case_bool_decide as Hheights; [done|]. destruct (final_audit_matches _ _) eqn:Hm; [|done].
  apply final_audit_matches_true in Hm.
  destruct (final_receipts_Ok _ _ _ Hr) as (Hwr & Hra & Hca). destruct (final_blocks_Ok _ _ _ _ Hb) as (Hwb & Hba & Hha).
  apply Is_true_eq_left in Hkeys, Hprior. rewrite forallb_True, Forall_forall in Hkeys, Hprior.
  exists receipts, hd, blocks. split; [|done|by apply Hha| |exists chain_id; split; [by apply Hca|done]].
  - split; [done|]. intros h r Hin. split; [|by apply Hra]. apply (bool_decide_unpack (h ∈ hashes)), Hkeys.
    apply list_elem_of_fmap. by exists (h, r).
  - intros h prior Hin. destruct (bool_decide_unpack (is_Some (bt_get h receipts)) (Hprior h ltac:(apply list_elem_of_fmap;
      exists (h, prior); split; [done|by apply bt_elem_get]))) as [r Hg]. exists r. by apply bt_elem_get.
Qed.
Lemma is_canonical_final finalized head blocks r :
  (∀ number block, (number, block) ∈ blocks → ∃ b, block = Ok b ∧ block_answered (of_blocks finalized) number (fb_hash b)) →
  is_canonical head blocks r = true → block_final finalized head r.
Proof.
  intros Hba. unfold is_canonical. destruct (Z.ltb_spec (fb_number head) (mr_block_number r)) as [|Hle]; [done|].
  destruct (Z.eqb_spec (mr_block_number r) (fb_number head)) as [|Hne]; [intros ?%bool_decide_eq_true; by left|].
  destruct (bt_get _ blocks) as [[b|]|] eqn:Hbg; try done. intros Hh%bool_decide_eq_true. right. split; [lia|].
  apply bt_elem_get, Hba in Hbg as (b' & [= <-] & Hans). by rewrite <- Hh.
Qed.

(** C15: A journaled final fill that verifies is worth exactly what the chain shows.  Its retained
    responses name chain 137 and the node's last block finalized, and hold one receipt, which reports
    success, for each authenticated transaction and no other; every receipt is in that finalized block
    or in a canonical one below it; every receipt recorded as immutable before is among them,
    unchanged; the matched
    logs are exactly the fills of the signed order in those receipts, each counted once; the recorded
    principal, quantity and fee are their exact sums; and the principal is the signed one, the quantity
    at least the signed minimum, the fee within the reserve. *)
Theorem verified_fill_exact prepared hashes finalized immutable :
  verify_polygon_finalized prepared hashes finalized immutable = Ok tt →
  ∃ (receipts : Receipts) (head : FinalizedBlock) (fills : Fills),
    (∀ h, h ∈ hashes ↔ ∃ r, (h, r) ∈ receipts)
    ∧ (∀ h r, (h, r) ∈ receipts → receipt_answered (of_receipts finalized) h r ∧ block_final finalized head r)
    ∧ (∀ h prior, bt_get h immutable = Some prior → (h, prior) ∈ receipts)
    ∧ of_chain_id finalized = 137 ∧ chain_answered (of_receipts finalized) 137
    ∧ of_finalized_head finalized = fb_number head ∧ head_answered (of_blocks finalized) head
    ∧ of_matched_logs finalized = log_identities fills
    ∧ final_fills prepared (of_principal finalized) (of_quantity finalized) (of_fee finalized) fills
    ∧ ∀ k f, (k, f) ∈ fills ↔ k = fill_key f
        ∧ ∃ h r log, (h, r) ∈ receipts ∧ log ∈ mr_logs r ∧ genuine_fill (op_prepared prepared) log f.
Proof.
  intros (receipts & head & blocks & [[Hwr Hra] Hba Hhead Hprior (chain_id & Hans & Hc)])%verify_polygon_finalized_Ok.
  apply classify_final in Hc as (fills & ds & Hff & Hlogs & H137 & Hch & Hn & Hds & Hfills).
  assert (∀ h d, (∃ i, hashes !! i = Some h ∧ ds !! i = Some d) → ∃ r, (h, r) ∈ receipts
            ∧ (∀ prior, bt_get h immutable = Some prior → prior = r) ∧ is_canonical head blocks r = true
            ∧ decode_order_fills r (op_prepared prepared) = Ok d) as Hall.
  { intros h d (i & Hi & Hd). destruct (Forall2_lookup_lr _ _ _ _ _ _ Hds Hi Hd) as (r' & Hg & Him & Hca & Hde).
    rewrite bt_get_fmap in Hg. apply fmap_Some in Hg as (r & Hg%bt_elem_get & [= ->]). by exists r. }
  assert (∀ h, h ∈ hashes → ∃ d, d ∈ ds ∧ ∃ i, hashes !! i = Some h ∧ ds !! i = Some d) as Hds1.
  { intros h (i & Hi)%list_elem_of_lookup. destruct (Forall2_lookup_l _ _ _ _ _ Hds Hi) as (d & Hd & _).
    exists d. split; [by eapply list_elem_of_lookup_2|eauto]. }
  assert (∀ h r, (h, r) ∈ receipts → ∃ d, d ∈ ds
            ∧ (∀ prior, bt_get h immutable = Some prior → prior = r) ∧ is_canonical head blocks r = true
            ∧ decode_order_fills r (op_prepared prepared) = Ok d) as Hrec.
  { intros h r Hin. destruct (Hra _ _ Hin) as [(d & Hd & Hi)%Hds1 _]. destruct (Hall _ _ Hi) as (r' & Hin' & ?).
    apply (bt_get_elem _ _ _ Hwr) in Hin, Hin'. simplify_eq. by exists d. }
  exists receipts, head, fills. split_and!; [ | | |by rewrite Hch, H137|by rewrite H137 in Hans|done|done|done|done|].
  - intros h. split; [intros (d & _ & (r & ? & _)%Hall)%Hds1; eauto|]. by intros (r & [? _]%Hra).
  - intros h r Hin. destruct (Hrec _ _ Hin) as (d & _ & Him & Hca & _).
    split_and!; [by apply Hra|by eapply is_canonical_final].
  - intros h prior Hg. destruct (Hprior _ _ Hg) as [r Hin]. destruct (Hrec _ _ Hin) as (d & _ & Him & _). by rewrite (Him _ Hg).
  - intros k f. rewrite Hfills, elem_of_concat. apply and_iff_compat_l. split.
    + intros (d & Hf & (i & Hi)%list_elem_of_lookup). destruct (Forall2_lookup_r _ _ _ _ _ Hds Hi) as (h & Hh & _).
      destruct (Hall h d) as (r & Hin & _ & _ & Hde); [eauto|].
      apply (decode_order_fills_exact _ _ _ Hde) in Hf as (log & ? & ?). by exists h, r, log.
    + intros (h & r & log & Hin & Hl & Hg). destruct (Hrec _ _ Hin) as (d & Hd & _ & _ & Hde). exists d.
      split; [|done]. apply (decode_order_fills_exact _ _ _ Hde). by exists log.
Qed.
End FinalityFacts.

(** ** Sample: one order filled in one transaction below the finalized head *)
Module SampleChain.
Definition digits (n : Z) : string := "0x" +:+ hex_string (be_bytes 32 n).
Definition address (bytes : list Z) : string := "0x" +:+ hex_string bytes.
Definition bytes_from (n : nat) (s : string) : option (list Z) :=
  hex ← strip_prefix "0x" s;
  if (String.length hex =? 2 * n)%nat then result_ok (from_hex_chunks 0 (string_bytes hex)) else None.
#[export] Instance alloy : Alloy := {|
  b256_from_str := bytes_from 32; address_from_str := bytes_from 20; u256_from_str := parse_u64
|}.
#[export] Existing Instance SampleOrder.vec_attempt.
#[export] Instance vec_json : ToVec JsonValue := λ _, Ok [].
Definition transaction : string := digits 171.
Definition later : string := digits 172.
Definition maker : list Z := replicate 19 0 ++ [205].
Definition rpc (v : JsonValue) : option JsonValue := Some (JObject [("jsonrpc", JString "2.0"); ("result", v)]).
Definition fill_log (transaction : string) : JsonValue := JObject [
  ("transactionHash", JString transaction); ("blockNumber", JString "0x9"); ("blockHash", JString (digits 9));
  ("logIndex", JString "0x1"); ("address", JString (address CTF_EXCHANGE_V2));
  ("topics", JArray (JString <$> ["0x" +:+ hex_string TOPIC_ORDER_FILLED_V2; digits 66; digits 205; digits 0]));
  ("data", JString ("0x" +:+ hex_string (mjoin (be_bytes 32 <$> [0; 7; 5000000; 10000000; 100000; 0; 0]))));
  ("removed", JBool false)].
Definition wire (transaction : string) : JsonValue := JObject [
  ("transactionHash", JString transaction); ("blockNumber", JString "0x9"); ("blockHash", JString (digits 9));
  ("status", JString "0x1"); ("logs", JArray [fill_log transaction])].
(** Bodies and parameters of one byte each. *)
#[export] Instance node : AccountVenue := {|
  json_from_slice := λ body, match body with
    | [10] => rpc (JString "0x89")
    | [11] => rpc (wire transaction)
    | [12] => rpc (JObject [("number", JString "0xa"); ("hash", JString (digits 10))])
    | [13] => rpc (JObject [("number", JString "0x9"); ("hash", JString (digits 9))])
    | [14] => rpc (wire later)
    | [48] => Some params_chain
    | [49] => Some (params_receipt transaction)
    | [50] => Some params_head
    | [51] => Some (params_block 9)
    | [52] => Some (params_receipt later)
    | _ => @json_from_slice SampleOrder.venue body
    end;
  standard_spender := Ok "0xab"; negrisk_spender := Err tt
|}.
Definition response (kind method params : string) (body : Z) : @RawHttpAttempt ZTime := Response {|
  rsp_source_id := "polygon-receipt-rpc"; rsp_endpoint_kind := kind; rsp_method := "POST"; rsp_path := "/";
  rsp_ordered_query := [("rpc_method", method); ("rpc_params", params)]; rsp_status := 200; rsp_headers := [];
  rsp_body := [body]; rsp_attempt_ordinal := 1; rsp_source_at := None; rsp_observed_at := SampleOrder.second 130;
  rsp_received_at := SampleOrder.second 130; rsp_schema_version := 1; rsp_parser_version := 1; rsp_adapter_version := "1"
|}.
Definition chain_response := response "polygon-chain-id" "eth_chainId" "0" 10.
Definition receipt_response := response "polygon-transaction-receipt" "eth_getTransactionReceipt" "1" 11.
Definition head_response := response "polygon-finalized-block" "eth_getBlockByNumber" "2" 12.
Definition block_response := response "polygon-canonical-block" "eth_getBlockByNumber" "3" 13.
Definition signed : @PreparedPolymarketBuy QDecimal := @Build_PreparedPolymarketBuy QDecimal
  SampleOrder.condition {| outcome_index := 0 |} (SampleOrder.token "7") (address maker) "signer" "funder"
  (address CTF_EXCHANGE_V2) "0xab" 2 false "BUY" "salt" 120000 "0" (from_atomic 5000000) (from_atomic 10000000)
  SampleOrder.half SampleOrder.cent 3 "FOK" false false (digits 0) (digits 0) (digits 66) "body" "sdk" "sha" ["e"]
  (from_atomic 5250000).
Definition prepared : @LiveOrderPreparedAudit ZTime QDecimal := {|
  op_identity := SampleOrder.identity; op_frozen_binding := SampleOrder.credential; op_economic := SampleOrder.economic;
  op_account_state := SampleOrder.account_state; op_prepared := signed
|}.
Definition finalized : @OrderFillFinalizedAudit ZTime := {|
  of_identity := SampleOrder.identity; of_prepared_journal_seq := 2; of_principal := from_atomic 5000000;
  of_quantity := from_atomic 10000000; of_fee := from_atomic 100000;
  of_matched_logs := [{| ml_transaction_hash := transaction; ml_log_index := 1 |}]; of_chain_id := 137;
  of_finalized_head := 10; of_receipts := [chain_response; receipt_response]; of_blocks := [head_response; block_response]
|}.
Lemma final_verifies : verify_polygon_finalized (DO := QDecimal) prepared [transaction] finalized [] = Ok tt.
Proof. vm_cast_no_check (eq_refl (Ok (E := LiveJournalError) tt)). Qed.

(** The receipt of the first transaction is unavailable while that of the later one
    has changed since it was recorded. *)
Definition unavailable : @RawHttpAttempt ZTime := TransportFailure {|
  tf_source_id := "polygon-receipt-rpc"; tf_endpoint_kind := "polygon-transaction-receipt"; tf_method := "POST"; tf_path := "/";
  tf_ordered_query := [("rpc_method", "eth_getTransactionReceipt"); ("rpc_params", "1")]; tf_attempt_ordinal := 1;
  tf_observed_at := SampleOrder.second 130; tf_received_at := SampleOrder.second 130; tf_error_class := Timeout;
  tf_schema_version := 1; tf_parser_version := 1; tf_adapter_version := "1"
|}.
Definition attempts : list (@RawHttpAttempt ZTime) :=
  [chain_response; unavailable; response "polygon-transaction-receipt" "eth_getTransactionReceipt" "4" 14; head_response;
   block_response].
Definition pending_reason : string := "transaction receipt unavailable: malformed JSON-RPC response".
Definition reconciled : @LiveOrderReconciliationAudit ZTime QDecimal := {|
  or_identity := SampleOrder.identity; or_order_hash := digits 66; or_source := PolygonFinality;
  or_outcome := @FinalityPending QDecimal pending_reason; or_evidence := attempts;
  or_evidence_hashes := SampleOrder.hashes (http_attempt_hashes attempts) []
|}.
Definition prior : MatchedReceipt := {|
  mr_transaction_hash := later; mr_block_number := 8; mr_block_hash := digits 8; mr_logs := []
|}.
Definition replaced : option MatchedReceipt :=
  result_ok (verify_polygon_reconciliation (DO := QDecimal) prepared [transaction; later] reconciled [(later, prior)])
    ≫= bt_get later.
Lemma replaced_elsewhere : (mr_block_number <$> replaced) = Some 9.
Proof. vm_cast_no_check (eq_refl (Some 9)). Qed.
End SampleChain.

Lemma verified_fill_exact_witness : ∃ fills, final_fills SampleChain.prepared (from_atomic 5000000) (from_atomic 10000000)
  (from_atomic 100000) fills.
Proof.
  destruct (verified_fill_exact _ _ _ _ SampleChain.final_verifies) as (_ & _ & fills & _ & _ & _ & _ & _ & _ & _ & _ & H & _).
  exists fills. exact H.
Defined.

#[local] Existing Instances SampleChain.alloy SampleChain.vec_json SampleChain.node SampleOrder.vec_attempt.
(** A receipt that changed after it was recorded as immutable is a conflict only if the loop over the
    transactions reaches it: when an earlier transaction's receipt is unavailable the fact verifies as
    pending, and the receipts to record from it replace the one recorded before. *)
Lemma changed_receipt_verifies_pending : ∃ receipts receipt,
  verify_polygon_reconciliation (DO := QDecimal) SampleChain.prepared [SampleChain.transaction; SampleChain.later]
    SampleChain.reconciled [(SampleChain.later, SampleChain.prior)] = Ok receipts
  ∧ bt_get SampleChain.later receipts = Some receipt ∧ receipt ≠ SampleChain.prior.
Proof.
  pose proof SampleChain.replaced_elsewhere as H. unfold SampleChain.replaced in H.
  destruct (verify_polygon_reconciliation _ _ _ _) as [receipts|] eqn:E; [|discriminate H]. simpl in H.
  destruct (bt_get SampleChain.later receipts) as [receipt|] eqn:Hg; [|discriminate H].
  exists receipts, receipt. split_and!; [reflexivity|exact Hg|]. intros ->. discriminate H.
Qed.
