(* ===== verification/Economic.v ===== *)
(** * The economic record of an order (crates/execution-core/src/economic.rs)

    One composer turns a sized ladder, its fees, the risk audit and the admission
    artifact into the record that paper and live orders share. *)

From S2P Require Import Prelude CoreTypes Bytes LogFrame LogChain LogScanner LogWriter RiskEngine WinnerFollow Fee Ladder CanaryTypes LiveTypes LiveAdmission.
#[local] Open Scope Z_scope.

Definition ECONOMIC_PREPARED_VERSION : Z := 1.
Definition PAPER_ECONOMIC_PREPARED_VERSION : Z := 2.

Section Composer.
Context `{TO : TimeOps} `{DO : DecimalOps}.

(** [LiveAdmissionArtifact] *)
Record LiveAdmissionArtifact := {
  art_market : LiveMarketEvidence;
  art_settlement : VenueSettlementRecord;
  art_fee_schedule : CompactFeeSchedule;
  art_receipts : AdmissionReceipts
}.
Record EconomicInputs := {
  in_market : MarketSelection;
  in_admission : LiveAdmissionArtifact;
  in_plan : LadderPlan;
  in_book_receipt : AppendReceipt;
  in_observation : option ObservationEvidence;
  in_sizing_mode : SizingModeAudit;
  in_budget : CollateralAmount;
  in_slippage_rate : Decimal;
  in_risk : RiskAudit;
  in_cash_before : CollateralAmount;
  in_price_impact_cap_bps : Z;
  in_chase_ceiling : Price;
  in_band_floor : Price;
  in_band_ceiling_exclusive : Price;
  in_applied_configuration_hash : string
}.
Inductive EconomicError : Type :=
| EconomicFee (e : FeeError)
| EconomicArithmetic (e : Error)
| InvalidLadderAudit | InvalidMarketIdentity | InvalidEconomicRisk | MissingBookReceipt
| InvalidCurrentBookChase | InvalidCurrentBookImpact.

(** *** [current_book_impact_ceiling] *)
Definition current_book_impact_ceiling (best_ask : Price) (cap_bps : Z) : result EconomicError Price :=
  cap ← ok_or (cap ← fits 0 U32_MAX cap_bps; if (1 <=? cap) && (cap <=? 10000) then Some cap else None)
          InvalidCurrentBookImpact;
  numerator ← ok_or (fits 0 U32_MAX (10000 + cap)) InvalidCurrentBookImpact;
  multiplier ← ok_or (dec_checked_div (dec_from numerator) (dec_from 10000)) InvalidCurrentBookImpact;
  raw ← ok_or (dec_checked_mul (price_value best_ask) multiplier) InvalidCurrentBookImpact;
  map_err EconomicArithmetic (Price_new (dec_min raw dec_ONE)).

(** *** [EconomicPrepared::compose] *)
Definition market_bound (m : MarketSelection) (evidence : LiveMarketEvidence) : bool :=
  bool_decide (ms_side m = Buy) && bool_decide (ms_condition_id m = me_condition_id evidence)
  && bool_decide (ms_market_id m = condition_id_str (me_condition_id evidence))
  && bool_decide (token_at (me_ordered_outcome_token_ids evidence) (ms_outcome_index m) = Some (ms_token_id m)).
Definition endpoint (ask : option AskLevel) (price : Price) : bool :=
  match ask with Some a => price_eqb (ask_price a) price && bool_decide (ask_shares a ≠ amount_ZERO) | None => false end.
Definition endpoints_match (plan : LadderPlan) : bool :=
  endpoint (head (used_asks plan)) (best_ask plan) && endpoint (last (used_asks plan)) (plan_limit_price plan).
Definition ordered_pair (a b : AskLevel) : bool :=
  price_leb (ask_price a) (ask_price b)
  && negb (price_eqb (ask_price a) Price_ZERO) && negb (price_eqb (ask_price b) Price_ZERO)
  && bool_decide (ask_shares a ≠ amount_ZERO) && bool_decide (ask_shares b ≠ amount_ZERO).
Definition asks_are_ordered (plan : LadderPlan) : bool := windows_all ordered_pair (used_asks plan).
Definition ZERO_HASH : Hash := {| hash_bytes := repeat 0 32 |}.

(** The amounts read off the ladder, checked against the plan's own. *)
Record LadderFigures := {
  lf_shares : ShareAmount;
  lf_vwap : Price;
  lf_signed : Price
}.
Definition ladder_figures (plan : LadderPlan) : result EconomicError LadderFigures :=
  let ladder := LadderPlanAudit_new plan in
  shares ← map_err EconomicArithmetic (audit_expected_shares ladder);
  average ← ok_or (audit_expected_vwap ladder) InvalidLadderAudit;
  spend ← map_err EconomicArithmetic (audit_expected_spend ladder);
  plan_shares' ← map_err (λ _, InvalidLadderAudit) (expected_shares plan);
  plan_spend ← map_err (λ _, InvalidLadderAudit) (expected_spend plan);
  plan_vwap ← ok_or (vwap plan) InvalidLadderAudit;
  signed ← map_err EconomicFee (signed_price (worst_case_debit plan) (plan_shares plan));
  if negb (endpoints_match plan) || negb (asks_are_ordered plan) || bool_decide (shares ≠ plan_shares')
     || bool_decide (spend ≠ plan_spend) || negb (price_eqb average plan_vwap)
     || amount_ltb shares (plan_shares plan) || amount_ltb (worst_case_debit plan) spend
     || price_ltb signed (plan_limit_price plan)
  then Err InvalidLadderAudit
  else Ok {| lf_shares := shares; lf_vwap := average; lf_signed := signed |}.
Definition compose (i : EconomicInputs) : result EconomicError EconomicPrepared :=
  let plan := in_plan i in
  let evidence := art_market (in_admission i) in
  let schedule := art_fee_schedule (in_admission i) in
  if bool_decide (ra_decision (in_risk i) ≠ evaluate_risk (ra_snapshot (in_risk i))) then Err InvalidEconomicRisk
  else if bool_decide (receipt_this_hash (in_book_receipt i) = ZERO_HASH) then Err MissingBookReceipt
  else if negb (market_bound (in_market i) evidence) then Err InvalidMarketIdentity
  else
    figures ← ladder_figures plan;
    expected_fee ← map_err EconomicFee (taker_fee schedule (plan_shares plan) (lf_signed figures));
    reserve ← map_err EconomicFee (fee_reserve schedule (worst_case_debit plan) (best_ask plan) (plan_limit_price plan));
    expected_debit ← map_err EconomicArithmetic (collateral_checked_add (worst_case_debit plan) expected_fee);
    slippage_multiplier ← ok_or (dec_checked_add dec_ONE (in_slippage_rate i))
                            (EconomicArithmetic (OutOfRange "EconomicInputs.slippage_rate"));
    raw ← ok_or (price ← dec_checked_div (to_decimal expected_debit) (to_decimal (plan_shares plan));
                 dec_checked_mul price slippage_multiplier)
            (EconomicArithmetic (OutOfRange "EconomicPrepared.all_in_price"));
    all_in_price ← map_err EconomicArithmetic (Price_new raw);
    worst ← map_err EconomicArithmetic (collateral_checked_add (worst_case_debit plan) reserve);
    Ok {| eco_version := ECONOMIC_PREPARED_VERSION; eco_market := in_market i;
          eco_admission := LiveAdmissionArtifactAudit_new evidence (art_settlement (in_admission i)) schedule
                             (art_receipts (in_admission i));
          eco_ladder := LadderPlanAudit_new plan; eco_book_receipt := in_book_receipt i;
          eco_observation := in_observation i;
          eco_sizing := {| sz_mode := in_sizing_mode i; sz_budget := in_budget i; sz_principal := worst_case_debit plan;
                           sz_minimum_shares := plan_shares plan; sz_expected_shares := lf_shares figures;
                           sz_expected_vwap := lf_vwap figures; sz_all_in_price := all_in_price;
                           sz_slippage_rate := in_slippage_rate i |};
          eco_fee := {| fa_schedule := schedule; fa_expected_fee := expected_fee; fa_reserve := reserve |};
          eco_risk := in_risk i;
          eco_balance := {| ba_cash_before := in_cash_before i; ba_worst_case_debit := worst;
                            ba_price_impact_cap_bps := in_price_impact_cap_bps i; ba_chase_ceiling := in_chase_ceiling i;
                            ba_band_floor := in_band_floor i;
                            ba_band_ceiling_exclusive := in_band_ceiling_exclusive i |};
          eco_applied_configuration_hash := in_applied_configuration_hash i |}.
Definition with_version (version : Z) (e : EconomicPrepared) : EconomicPrepared := {|
  eco_version := version; eco_market := eco_market e; eco_admission := eco_admission e; eco_ladder := eco_ladder e;
  eco_book_receipt := eco_book_receipt e; eco_observation := eco_observation e; eco_sizing := eco_sizing e;
  eco_fee := eco_fee e; eco_risk := eco_risk e; eco_balance := eco_balance e;
  eco_applied_configuration_hash := eco_applied_configuration_hash e
|}.
Definition compose_wire_two (i : EconomicInputs) : result EconomicError EconomicPrepared :=
  if negb (price_eqb (in_chase_ceiling i) Price_ONE) then Err InvalidCurrentBookChase
  else with_version PAPER_ECONOMIC_PREPARED_VERSION <$> compose i.
End Composer.

(** ** Records equal themselves *)
Class EqReflexive (A : Type) `{PartialEq A} : Prop := rust_eq_refl (a : A) : rust_eq a a = true.
#[export] Instance eq_refl_dec {A} `{EqDecision A} : EqReflexive A | 50.
Proof. intros a. by apply bool_decide_eq_true_2. Qed.
#[export] Instance eq_refl_option {A} `{EqReflexive A} : EqReflexive (option A) | 10.
Proof. intros [a|]; [|done]. apply (rust_eq_refl a). Qed.
#[export] Instance eq_refl_list {A} `{EqReflexive A} : EqReflexive (list A) | 10.
Proof. intros l. induction l as [|a l IH]; [done|]. change (rust_eq a a && rust_eq l l = true). by rewrite rust_eq_refl, IH. Qed.

Section ComposerFacts.
Context `{TO : TimeOps} `{DL : DecimalLaws}.

#[export] Instance eq_refl_decimal : EqReflexive Decimal | 1.
Proof. intros d. by apply dec_eqb_eq. Qed.
#[export] Instance eq_refl_price : EqReflexive Price | 1.
Proof. intros p. by apply dec_eqb_eq. Qed.
#[export] Instance eq_refl_market : EqReflexive LiveMarketEvidenceAudit.
Proof. intros m. unfold rust_eq, partial_eq_market. by rewrite !rust_eq_refl. Qed.
#[export] Instance eq_refl_schedule : EqReflexive CompactFeeSchedule.
Proof. intros [|r]; [done|]. apply (rust_eq_refl r). Qed.
#[export] Instance eq_refl_artifact : EqReflexive LiveAdmissionArtifactAudit.
Proof. intros m. unfold rust_eq, partial_eq_artifact. by rewrite !rust_eq_refl. Qed.
#[export] Instance eq_refl_ask : EqReflexive LadderAskAudit.
Proof. intros m. unfold rust_eq, partial_eq_ask. by rewrite !rust_eq_refl. Qed.
#[export] Instance eq_refl_ladder : EqReflexive LadderPlanAudit.
Proof. intros m. unfold rust_eq, partial_eq_ladder. by rewrite !rust_eq_refl. Qed.
#[export] Instance eq_refl_mode : EqReflexive SizingModeAudit.
Proof. intros [f p|usd|n]; unfold rust_eq, partial_eq_mode; by rewrite !rust_eq_refl. Qed.
#[export] Instance eq_refl_sizing : EqReflexive SizingAudit.
Proof. intros m. unfold rust_eq, partial_eq_sizing. by rewrite !rust_eq_refl. Qed.
#[export] Instance eq_refl_fee : EqReflexive FeeAudit.
Proof. intros m. unfold rust_eq, partial_eq_fee. by rewrite !rust_eq_refl. Qed.
#[export] Instance eq_refl_balance : EqReflexive BalanceAudit.
Proof. intros m. unfold rust_eq, partial_eq_balance. by rewrite !rust_eq_refl. Qed.
#[export] Instance eq_refl_economic : EqReflexive EconomicPrepared.
Proof. intros m. unfold rust_eq, partial_eq_economic. by rewrite !rust_eq_refl. Qed.

(** ** From the composer to the admission *)
Lemma price_eqb_sym p q : price_eqb p q = price_eqb q p.
Proof.
  unfold price_eqb. destruct (dec_eqb (price_value q) (price_value p)) eqn:E.
  - apply dec_eqb_eq. by apply dec_eqb_eq in E.
  - apply not_true_iff_false. intros H%dec_eqb_eq. apply not_true_iff_false in E. by apply E, dec_eqb_eq.
Qed.
Lemma price_eqb_zero p q : price_eqb p q = true → price_eqb q Price_ZERO = false → price_eqb p Price_ZERO = false.
Proof.
  unfold price_eqb. intros Hpq%dec_eqb_eq Hq. apply not_true_iff_false. intros Hp%dec_eqb_eq.
  apply not_true_iff_false in Hq. apply Hq, dec_eqb_eq. by rewrite <- Hpq.
Qed.

(** The level the next one is compared with. *)
Definition after (previous : option Price) (used : list AskLevel) : Prop :=
  match used with
  | [] => True
  | a :: _ => price_eqb (ask_price a) Price_ZERO = false ∧ ask_shares a ≠ amount_ZERO
              ∧ ∀ p, previous = Some p → price_ltb (ask_price a) p = false
  end.
Definition spend_step (total : Decimal) (ask : LadderAskAudit) : result Error Decimal :=
  ok_or (value ← dec_checked_mul (to_decimal (la_shares ask)) (price_value (la_price ask));
         dec_checked_add total value) (OutOfRange "LadderPlanAudit.expected_spend").
Lemma ladder_sums_complete used s d previous s' d' :
  windows_all ordered_pair used = true → after previous used →
  try_fold (λ total ask, share_checked_add total (la_shares ask)) s (ask_audit <$> used) = Ok s' →
  try_fold spend_step d (ask_audit <$> used) = Ok d' →
  ∃ final, ladder_sums {| ls_shares := s; ls_spend := d; ls_previous := previous |} (ask_audit <$> used)
           = Some (Ok {| ls_shares := s'; ls_spend := d'; ls_previous := final |}).
Proof.
  revert s d previous. induction used as [|a used IH]; intros s d previous Hw Ha Hs Hd.
  { injection Hs as <-. injection Hd as <-. by exists previous. }
  destruct Ha as (Hz & Hsh & Hp). cbn [fmap list_fmap try_fold] in Hs, Hd.
  apply result_bind_Ok in Hs as (s1 & Hs1 & Hs). apply result_bind_Ok in Hd as (d1 & Hd1 & Hd).
  unfold spend_step in Hd1. apply ok_or_Ok, bind_Some in Hd1 as (c & Hc & Hd1).
  assert (windows_all ordered_pair used = true ∧ after (Some (ask_price a)) used) as [Hw' Ha'].
  { destruct used as [|b used]; [done|]. apply andb_true_iff in Hw as [Hpair Hw]. split; [done|].
    unfold ordered_pair in Hpair. repeat (apply andb_true_iff in Hpair as [Hpair ?]).
    repeat match goal with H : negb _ = true |- _ => apply negb_true_iff in H end.
    split_and!; [done|by eapply bool_decide_eq_true_1|]. intros p [= <-]. by apply negb_true_iff in Hpair. }
  destruct (IH s1 d1 (Some (ask_price a)) Hw' Ha' Hs Hd) as [final IH']. exists final.
  cbn [fmap list_fmap ladder_sums]. unfold ladder_step. cbn [ask_audit la_price la_shares ls_shares ls_spend ls_previous].
  rewrite Hz, bool_decide_eq_false_2 by done.
  replace (match previous with Some price => price_ltb (ask_price a) price | None => false end) with false
    by (destruct previous as [p|]; [by rewrite (Hp p)|done]).
  cbn [ask_audit la_price la_shares] in Hs1, Hc. unfold throws, unpanic, share_checked_add in *.
  cbn [orb]. rewrite Hs1. simpl. rewrite Hc. simpl. rewrite Hd1. simpl. exact IH'.
Qed.

(** What the composer has checked of the ladder. *)
Record figures_ok (plan : LadderPlan) (f : LadderFigures) : Prop := {
  fo_endpoints : endpoints_match plan = true;
  fo_ordered : asks_are_ordered plan = true;
  fo_shares : audit_expected_shares (LadderPlanAudit_new plan) = Ok (lf_shares f);
  fo_spend : ∃ spend, audit_expected_spend (LadderPlanAudit_new plan) = Ok spend
                      ∧ atomic spend ≤ atomic (worst_case_debit plan);
  fo_covers : atomic (plan_shares plan) ≤ atomic (lf_shares f);
  fo_signed : signed_price (worst_case_debit plan) (plan_shares plan) = Ok (lf_signed f)
}.
Lemma ladder_figures_Ok plan f : ladder_figures plan = Ok f → figures_ok plan f.
Proof.
  unfold ladder_figures. intros (shares & Hs%map_err_Ok & H)%result_bind_Ok. apply result_bind_Ok in H as (average & _ & H).
  apply result_bind_Ok in H as (spend & Hsp%map_err_Ok & H). apply result_bind_Ok in H as (ps & _ & H).
  apply result_bind_Ok in H as (pspend & _ & H). apply result_bind_Ok in H as (pv & _ & H).
  apply result_bind_Ok in H as (signed & Hsg%map_err_Ok & H). destruct (_ || _) eqn:E; [done|]. injection H as <-.
  repeat (apply orb_false_iff in E as [E ?]).
  repeat match goal with
         | H : negb _ = false |- _ => apply negb_false_iff in H
         | H : amount_ltb _ _ = false |- _ => apply Z.ltb_ge in H
         end.
  split; try done. by exists spend.
Qed.

(** What the composer's record is made of. *)
Record composed_of (i : EconomicInputs) (e : EconomicPrepared) : Prop := {
  co_figures : ∃ f, figures_ok (in_plan i) f
    ∧ taker_fee (art_fee_schedule (in_admission i)) (plan_shares (in_plan i)) (lf_signed f) = Ok (fa_expected_fee (eco_fee e));
  co_reserve : fee_reserve (art_fee_schedule (in_admission i)) (worst_case_debit (in_plan i)) (best_ask (in_plan i))
                 (plan_limit_price (in_plan i)) = Ok (fa_reserve (eco_fee e));
  co_market : eco_market e = in_market i ∧ market_bound (in_market i) (art_market (in_admission i)) = true;
  co_admission : eco_admission e = LiveAdmissionArtifactAudit_new (art_market (in_admission i)) (art_settlement (in_admission i))
                   (art_fee_schedule (in_admission i)) (art_receipts (in_admission i));
  co_ladder : eco_ladder e = LadderPlanAudit_new (in_plan i);
  co_principal : sz_principal (eco_sizing e) = worst_case_debit (in_plan i);
  co_worst : eco_worst_case_all_in_debit e = Ok (ba_worst_case_debit (eco_balance e));
  co_risk : eco_risk e = in_risk i ∧ ra_decision (in_risk i) = evaluate_risk (ra_snapshot (in_risk i))
}.
Lemma compose_Ok i e : compose i = Ok e → composed_of i e.
Proof.
  unfold compose. case_bool_decide as Hr; [done|]. case_bool_decide; [done|]. destruct (market_bound _ _) eqn:Hm; [|done].
  cbn [negb]. intros (f & Hf%ladder_figures_Ok & H')%result_bind_Ok.
  apply result_bind_Ok in H' as (fee & Hfee%map_err_Ok & H'). apply result_bind_Ok in H' as (reserve & Hres%map_err_Ok & H').
  apply result_bind_Ok in H' as (debit & _ & H'). apply result_bind_Ok in H' as (mult & _ & H').
  apply result_bind_Ok in H' as (raw & _ & H'). apply result_bind_Ok in H' as (price & _ & H').
  apply result_bind_Ok in H' as (worst & Hw%map_err_Ok & H'). injection H' as <-. split; try done. by exists f.
Qed.

Section Admissible.
Context (minimum_price maximum_price_exclusive chase_ceiling impact_ceiling : Price).
#[local] Abbreviation sized := (plan_sized_buy minimum_price maximum_price_exclusive chase_ceiling impact_ceiling).

Lemma planned_endpoints scale asks P plan visited :
  planned minimum_price maximum_price_exclusive chase_ceiling impact_ceiling scale asks P plan visited →
  price_eqb (best_ask plan) Price_ZERO = false ∧ price_eqb (plan_limit_price plan) Price_ZERO = false
  ∧ price_ltb (plan_limit_price plan) (best_ask plan) = false.
Proof.
  intros Hpl. destruct (planned_limit _ _ _ _ _ _ _ _ _ Hpl) as (_ & _ & Hle & _).
  assert (∀ a, a ∈ visited → price_eqb (ask_price a) Price_ZERO = false) as Hz.
  { intros a Ha. destruct (proj1 (Forall_forall _ _) (pl_eligible _ _ _ _ _ _ _ _ _ Hpl) a Ha) as (_ & _ & _ & He).
    unfold empty_level in He. by apply orb_false_iff in He as [He _]. }
  destruct (proj1 (fmap_Some _ _ _) (pl_best _ _ _ _ _ _ _ _ _ Hpl)) as (b & Hb & Eb).
  destruct (proj1 (fmap_Some _ _ _) (pl_limit _ _ _ _ _ _ _ _ _ Hpl)) as (l & Hl & El). split_and!.
  - rewrite Eb. apply Hz. destruct visited as [|x v]; [done|]. injection Hb as ->. by left.
  - rewrite El. apply Hz. apply last_Some in Hl as [v ->]. apply elem_of_app. right. by apply list_elem_of_singleton.
  - by apply dec_ltb_ge.
Qed.

(** The ladder of a composed plan passes the admission's checks. *)
Lemma composed_ladder_valid plan f scale asks P visited tick minimum r :
  planned minimum_price maximum_price_exclusive chase_ceiling impact_ceiling scale asks P plan visited →
  figures_ok plan f → atomic minimum ≤ atomic (plan_shares plan) →
  dec_checked_rem (price_value (plan_limit_price plan)) (price_value tick) = Some r → dec_eqb r dec_ZERO = true →
  validate_ladder (LadderPlanAudit_new plan) tick minimum = Some (Ok tt).
Proof.
  intros Hpl Hf Hmin Hr Hr0. destruct (planned_endpoints _ _ _ _ _ Hpl) as (Hb & Hl & Hbl).
  destruct Hf as [Hend Hord Hsh (spend & Hsp & Hle) Hcov _].
  apply andb_true_iff in Hend as [Hhead Hlast]. unfold endpoint in Hhead, Hlast.
  destruct (head (used_asks plan)) as [a|] eqn:Ea; [|done]. destruct (last (used_asks plan)) as [z|] eqn:Ez; [|done].
  apply andb_true_iff in Hhead as [Hhead Ha0%bool_decide_eq_true_1]. apply andb_true_iff in Hlast as [Hlast _].
  unfold audit_expected_spend in Hsp. apply result_bind_Ok in Hsp as (d & Hd & Hsp).
  destruct (ladder_sums_complete (used_asks plan) amount_ZERO dec_ZERO None (lf_shares f) d Hord) as [final Hsums].
  { destruct (used_asks plan) as [|x rest]; [done|]. injection Ea as ->. split_and!; [|done|done]. by eapply price_eqb_zero. }
  { exact Hsh. }
  { exact Hd. }
  unfold validate_ladder. cbn [LadderPlanAudit_new lp_used_asks lp_minimum_shares lp_best_ask lp_limit_price lp_principal].
  rewrite bool_decide_eq_false_2 by (by destruct (used_asks plan)).
  unfold amount_ltb at 1. rewrite (proj2 (Z.ltb_ge _ _) Hmin), Hb, Hl, Hbl. cbn [orb].
  apply panicking_bind_Ok. exists r. split; [by apply unpanic_Ok|]. rewrite Hr0. cbn [negb].
  apply panicking_bind_Ok. eexists. split; [exact Hsums|]. cbn [ls_spend ls_shares].
  apply panicking_bind_Ok. exists spend. split; [by rewrite Hsp|].
  unfold amount_ltb. rewrite (proj2 (Z.ltb_ge _ _) Hcov), (proj2 (Z.ltb_ge _ _) Hle).
  rewrite fmap_last, Ez. replace (head (ask_audit <$> used_asks plan)) with (Some (ask_audit a))
    by (destruct (used_asks plan) as [|x rest]; [done|by injection Ea as ->]). unfold ask_at. cbn [fmap option_fmap option_map ask_audit la_price].
  by rewrite price_eqb_sym, Hhead, price_eqb_sym, Hlast.
Qed.

(** What remains for the clock and the operator: armed, unchanged credentials, named
    identities, fresh and unresolved evidence of the current schema, and a limit on
    the market's tick. *)
Record ready (a : LiveAdmissionEvaluationAudit) (evaluated_at : OffsetDateTime) : Prop := {
  rd_armed : ae_requested_mode a = LiveTiny ∧ ae_effective_mode a = LiveTiny;
  rd_binding : ae_frozen_binding a = ae_current_binding a;
  rd_named : Forall (λ s, blank s = false)
    [oi_dispatch_id (ae_identity a); oi_idempotency_key (ae_identity a); oi_quote_id (ae_identity a);
     oi_config_hash (ae_identity a); oi_decision_hash (ae_identity a)];
  rd_evidence : oi_evidence_hashes (ae_identity a) ≠ [];
  rd_versions : oi_schema_version (ae_identity a) ≠ 0 ∧ oi_parser_version (ae_identity a) ≠ 0;
  rd_market : let market := aa_market (eco_admission (ae_economic a)) in
    ma_schema_version market = LIVE_MARKET_SCHEMA_VERSION ∧ ma_parser_version market = LIVE_MARKET_PARSER_VERSION
    ∧ price_eqb (ma_minimum_tick_size market) Price_ZERO = false ∧ ma_minimum_order_size market ≠ amount_ZERO
    ∧ validate_fresh (ma_observed_at_unix market) (ma_freshness_window_secs market) (unix_timestamp evaluated_at) = Ok tt;
  rd_settlement : let settlement := aa_settlement (eco_admission (ae_economic a)) in
    vs_condition_id settlement = ms_condition_id (eco_market (ae_economic a))
    ∧ validate_fresh_for_entry settlement evaluated_at = Ok tt;
  rd_tick : ∃ r, dec_checked_rem (price_value (lp_limit_price (eco_ladder (ae_economic a))))
                   (price_value (ma_minimum_tick_size (aa_market (eco_admission (ae_economic a))))) = Some r
                 ∧ dec_eqb r dec_ZERO = true
}.
Lemma composed_identity i a evaluated_at account : composed_of i (ae_economic a) → ready a evaluated_at →
  identity_mismatch (admission_input a evaluated_at account) = false.
Proof.
  intros Hc Hr. destruct (co_market _ _ Hc) as [Em Hm]. destruct Hr as [_ _ Hn He [Hv1 Hv2] _ [Hs _] _].
  unfold market_bound in Hm. repeat (apply andb_true_iff in Hm as [Hm ?]).
  repeat match goal with H : bool_decide _ = true |- _ => apply bool_decide_eq_true_1 in H end.
  rewrite !Forall_cons in Hn. destruct Hn as (N1 & N2 & N3 & N4 & N5 & _).
  unfold identity_mismatch.
  cbn [admission_input ci_identity ci_admission ci_economic ci_condition_id ci_outcome_id ci_token_id outcome_index].
  rewrite N1, N2, N3, N4, N5, rust_eq_refl, Z.eqb_refl, Hs. rewrite (co_admission _ _ Hc), Em.
  cbn [LiveAdmissionArtifactAudit_new aa_market market_audit ma_condition_id ma_ordered_outcome_token_ids].
  rewrite !bool_decide_eq_false_2 by (rewrite ?Em; first [done|congruence]).
  apply Z.eqb_neq in Hv1, Hv2. by rewrite Hv1, Hv2.
Qed.

(** C17: An order that was sized by the planner and composed is affordable as recorded.  For any book
    the recorded reserve is the planner's, and the recorded worst debit is the planner's debit and
    reserve, within the budget and every cap.  When the asks are priced on the six-decimal grid, the
    recorded expected fee is within the reserve; and once the order is [ready] (armed in both modes,
    credentials unchanged, identity fields not blank and with evidence, current schema and parser
    versions, a nonzero tick and minimum size, a limit on the tick, fresh market evidence, and fresh
    unresolved settlement evidence of the same condition) its admission depends on the account alone:
    none of the artifact, settlement, identity and ladder checks refuses what the planner sized. *)
Theorem sized_order_admissible asks sizing caps plan i a evaluated_at account :
  let market := art_market (in_admission i) in
  sized asks (art_fee_schedule (in_admission i)) sizing caps (me_minimum_order_size market) (me_minimum_tick_size market) = Ok plan →
  in_plan i = ladder plan → compose i = Ok (ae_economic a) →
  fa_reserve (eco_fee (ae_economic a)) = plan_reserve plan
  ∧ ba_worst_case_debit (eco_balance (ae_economic a)) = from_atomic (worst_debit (ae_economic a))
  ∧ worst_debit (ae_economic a) ≤ atomic (plan_budget plan)
  ∧ Forall (λ cap, worst_debit (ae_economic a) ≤ atomic cap) caps
  ∧ (Forall level_ok asks → sizing_wf sizing →
     fee_within_reserve (fa_expected_fee (eco_fee (ae_economic a))) (fa_reserve (eco_fee (ae_economic a))) = true
     ∧ (ready a evaluated_at →
        classify_live_admission (admission_input a evaluated_at (AccountState account))
        = Some (Ok (account_gates (from_atomic (worst_debit (ae_economic a))) account)))).
Proof.
  intros market Hsz Hplan Hc%compose_Ok.
  destruct (sized_checked _ _ _ _ _ _ _ _ _ _ _ Hsz) as (_ & _ & Hres & Hbud & Hcaps & Hmin).
  destruct (co_figures _ _ Hc) as (f & Hf & Hfee). pose proof (co_reserve _ _ Hc) as Hr. rewrite Hplan in Hf, Hfee, Hr.
  rewrite Hres in Hr. injection Hr as Hr. pose proof (co_worst _ _ Hc) as Hw. unfold eco_worst_case_all_in_debit in Hw.
  apply amount_checked_add_Ok in Hw as [Hw _].
  assert (worst_debit (ae_economic a) = atomic (worst_case_debit (ladder plan)) + atomic (plan_reserve plan)) as Hd.
  { unfold worst_debit. by rewrite (co_principal _ _ Hc), Hplan, Hr. }
  rewrite Hd. split_and!; try done; [by rewrite Hw, <- Hd|]. intros Hok Hwf.
  destruct (sized_planned _ _ _ _ _ _ _ _ _ _ _ Hsz Hok Hwf) as (scale & P & v & _ & Hpl). split.
  - rewrite <- Hr. eapply planned_fee; [exact Hpl|exact Hres| |exact Hfee]. right. unfold plan_signed_price.
    by rewrite (fo_signed _ _ Hf).
  - rewrite <- Hd. intros Hready. pose proof (composed_identity _ _ _ (AccountState account) Hc Hready) as Hid.
    destruct Hready as [[H1 H2] H3 _ _ _ (M1 & M2 & M3 & M4 & M5) [_ S2] (r & Hr1 & Hr2)].
    unfold classify_live_admission. rewrite !bool_decide_eq_false_2 by (simpl; congruence). cbn [orb].
    enough (validate_artifact_and_ladder (admission_input a evaluated_at (AccountState account))
            = Some (Ok (from_atomic (worst_debit (ae_economic a))))) as -> by done.
    unfold validate_artifact_and_ladder. cbn [admission_input ci_admission ci_evaluated_at ci_ladder ci_economic].
    rewrite M1, M2, M3, bool_decide_eq_false_2 by done. cbn [Z.eqb Pos.eqb negb orb LIVE_MARKET_SCHEMA_VERSION LIVE_MARKET_PARSER_VERSION].
    rewrite M5, S2. cbn [map_err throws mbind panicking_mbind]. fold (admission_input a evaluated_at (AccountState account)).
    rewrite Hid. rewrite (co_ladder _ _ Hc), (co_admission _ _ Hc), Hplan in *.
    apply panicking_bind_Ok. exists tt.
    split; [exact (composed_ladder_valid (ladder plan) f scale asks P v _ _ r Hpl Hf Hmin Hr1 Hr2)|]. rewrite rust_eq_refl. cbn [negb].
    rewrite (co_worst _ _ Hc). cbn [map_err].
    rewrite bool_decide_eq_false_2 by naive_solver. by rewrite Hw.
Qed.
End Admissible.
End ComposerFacts.

(** ** A composed order, and dust that reaches a level it cannot buy *)
Module SampleEconomic.
Definition artifact (schedule : @CompactFeeSchedule QDecimal) : @LiveAdmissionArtifact QDecimal := @Build_LiveAdmissionArtifact QDecimal
  (@Build_LiveMarketEvidence QDecimal SampleOrder.condition (SampleOrder.token "7", SampleOrder.token "8")
     false None None (SampleBook.price (1 # 100)) (from_atomic 5000000) None 90 1 1 60)
  SampleOrder.settlement schedule
  {| receipt_gamma := SampleOrder.receipt 1; receipt_clob_long := SampleOrder.receipt 2;
     receipt_clob_compact := SampleOrder.receipt 3 |}.
Definition inputs (schedule : @CompactFeeSchedule QDecimal) (plan : @LadderPlan QDecimal) : @EconomicInputs QDecimal :=
  @Build_EconomicInputs QDecimal
  {| ms_condition_id := SampleOrder.condition; ms_outcome_index := 0; ms_token_id := SampleOrder.token "7";
     ms_side := Buy; ms_market_id := "0xcondition" |}
  (artifact schedule) plan (SampleOrder.receipt 4) None (@DollarMode QDecimal (8 # 1)%Q) (from_atomic 8000000) (0 # 1)%Q
  {| ra_financial_prefix := SampleOrder.receipt 5; ra_snapshot := sample_snapshot 100 20; ra_decision := Approved;
     ra_price_receipts := []; ra_evaluated_at_unix_ms := 100000 |}
  (from_atomic 20000000) 100 (SampleBook.price (3 # 5)) (SampleBook.price (1 # 10)) (SampleBook.price (99 # 100)) "cfg".
Definition order : @EconomicInputs QDecimal := inputs SampleBook.schedule (ladder SampleBook.dollar_plan).
Definition economic : @EconomicPrepared QDecimal := @Build_EconomicPrepared QDecimal
  1 (in_market order)
  (LiveAdmissionArtifactAudit_new (art_market (in_admission order)) SampleOrder.settlement SampleBook.schedule
     (art_receipts (in_admission order)))
  (LadderPlanAudit_new (ladder SampleBook.dollar_plan)) (SampleOrder.receipt 4) None
  (@Build_SizingAudit QDecimal (@DollarMode QDecimal (8 # 1)%Q) (from_atomic 8000000) (from_atomic 7804870)
     (from_atomic 15009300) (from_atomic 15393980) (SampleBook.price (7804869 # 15393980)) (SampleBook.price (44401 # 83385)) (0 # 1)%Q)
  (@Build_FeeAudit QDecimal SampleBook.schedule (from_atomic 187310) (from_atomic 187620))
  (in_risk order)
  (@Build_BalanceAudit QDecimal (from_atomic 20000000) (from_atomic 7992490) 100 (SampleBook.price (3 # 5))
     (SampleBook.price (1 # 10)) (SampleBook.price (99 # 100)))
  "cfg".
Definition admission : @LiveAdmissionEvaluationAudit ZTime QDecimal := {|
  ae_identity := SampleOrder.identity; ae_frozen_binding := SampleOrder.credential;
  ae_current_binding := SampleOrder.credential; ae_requested_mode := LiveTiny; ae_effective_mode := LiveTiny;
  ae_economic := economic; ae_account_state := None; ae_failure_evidence := [];
  ae_failure_request_descriptor_hashes := []; ae_failure_evidence_hashes := []; ae_verdict := VerdictApproved
|}.
Lemma composed : compose order = Ok (ae_economic admission).
Proof. vm_cast_no_check (eq_refl (Ok (E := EconomicError) economic)). Qed.
Lemma sample_ready : ready admission (SampleOrder.second 120).
Proof.
  split; [done|done|by repeat constructor|done|done| |done|].
  - split_and!; [done|done|vm_cast_no_check (eq_refl false)|done|reflexivity].
  - exists (0 # 1)%Q. split; [vm_cast_no_check (eq_refl (Some (0 # 1)%Q))|vm_cast_no_check (eq_refl true)].
Qed.
(** Sixty-six cents and one atomic unit buy out the first level; the dust left over
    buys nothing of the next, which still becomes the limit. *)
Definition dust_book : list (@AskLevel QDecimal) := [SampleBook.ask (33 # 100) 2000001; SampleBook.ask (9 # 10) 5000000].
Definition dust_plan : @SizedBuyPlan QDecimal := @Build_SizedBuyPlan QDecimal
  (@Build_LadderPlan QDecimal [SampleBook.ask (33 # 100) 2000001] (SampleBook.price (33 # 100)) (SampleBook.price (9 # 10))
     (from_atomic 733300) (from_atomic 660001)) (from_atomic 660001) (from_atomic 0).
End SampleEconomic.

Lemma sized_order_admissible_witness :
  classify_live_admission (admission_input SampleEconomic.admission (SampleOrder.second 120)
    (AccountState SampleOrder.account_state)) = Some (Ok VerdictApproved).
Proof.
  assert (sizing_wf SampleBook.dollars) as Hs by (by split).
  destruct (sized_order_admissible _ _ _ _ _ _ _ _ SampleEconomic.order SampleEconomic.admission (SampleOrder.second 120)
              SampleOrder.account_state SampleBook.dollar_accepted eq_refl SampleEconomic.composed)
    as (_ & _ & _ & _ & H).
  destruct (H SampleBook.book_ok Hs) as [_ Hready]. exact (Hready SampleEconomic.sample_ready).
Defined.

(** A plan whose leftover dust cannot buy one atomic share of the next level takes that
    level's price as its limit without using it, and the composer refuses the plan. *)
Lemma dust_level_refused :
  plan_sized_buy (DO := QDecimal) (SampleBook.price (1 # 10)) (SampleBook.price (99 # 100)) (SampleBook.price 1) (SampleBook.price 1)
    SampleEconomic.dust_book (@ZeroFee QDecimal) (Dollar (from_atomic 660001)) [] (from_atomic 100000) (SampleBook.price (1 # 100))
  = Ok SampleEconomic.dust_plan
  ∧ compose (SampleEconomic.inputs (@ZeroFee QDecimal) (ladder SampleEconomic.dust_plan)) = Err InvalidLadderAudit.
Proof.
  split; [vm_cast_no_check (eq_refl (Ok (E := LadderError) SampleEconomic.dust_plan))|].
  vm_cast_no_check (eq_refl (Err (A := EconomicPrepared) InvalidLadderAudit)).
Qed.
