(* ===== verification/RedemptionMachine.v ===== *)
(** * The redemption state machine (crates/execution-core, [redemption_machine.rs])

    The durable state of one redemption family, its reducer [advance], the
    reconstruction of that state from the live journal, and the driver that runs
    at most one external call per pass.  The journal and the venue are interfaces:
    [LiveJournalOps] states what an append does to the published records, and the
    transport and the status reader are arguments of the driver. *)

From S2P Require Import Prelude CoreTypes Bytes CanaryTypes LiveTypes.
#[local] Open Scope Z_scope.

Definition LIVE_REDEMPTION_SURFACE_AFTER_ATTEMPTS : Z := 3.
Definition REDEMPTION_SCHEMA_VERSION : Z := 1.
Definition REDEMPTION_PARSER_VERSION : Z := 1.
Definition REDEMPTION_ADAPTER_VERSION : string := "polymarket-redemption-v1".

Inductive RedemptionFailureKind : Type :=
| Authentication | Rejected | TransportFailed | ProtocolFailed | TerminalFailed | InvalidRequest.
#[export] Instance RedemptionFailureKind_eq_dec : EqDecision RedemptionFailureKind.
Proof. solve_decision. Defined.

Section Journal.
Context `{TO : TimeOps} `{DO : DecimalOps}.

(** ** The attempt state *)

Inductive RedemptionAttemptState : Type :=
| Idle (attempt_count : Z)
| SubmissionReserved (attempt_count : Z) (redeemable_balance : CollateralAmount)
    (request_hash : string) (deadline_unix : option Z)
| InFlight (attempt_count : Z) (transaction_id submit_body_hash : string)
| Ambiguous (attempt_count : Z) (transaction_id : option string) (submit_body_hash : string)
| Failed (attempt_count : Z) (retry_not_before : OffsetDateTime) (failure : RedemptionFailureKind)
| ConfirmedAwaitingBalance (attempt_count : Z) (transaction_id transaction_hash : string)
    (confirmed_at : OffsetDateTime)
| Complete (attempt_count : Z) (transaction_id transaction_hash : string)
    (reconciled_at : OffsetDateTime) (remaining_redeemable : CollateralAmount).

Definition state_default : RedemptionAttemptState := Idle 0.

Definition attempt_count (s : RedemptionAttemptState) : Z :=
  match s with
  | Idle n | SubmissionReserved n _ _ _ | InFlight n _ _ | Ambiguous n _ _ | Failed n _ _
  | ConfirmedAwaitingBalance n _ _ _ | Complete n _ _ _ _ => n
  end.

Definition submission_deadline_passed (s : RedemptionAttemptState) (now : OffsetDateTime) : bool :=
  match s with
  | SubmissionReserved _ _ _ (Some deadline) =>
      (0 <=? unix_timestamp now) && (deadline <? unix_timestamp now)
  | _ => false
  end.

Record RedemptionAttempt := {
  attempt_identity : RedemptionAttemptIdentity;
  attempt_state : RedemptionAttemptState
}.

(** ** Reconstruction from the journal *)

Abbreviation RedemptionAttempts := (gmap RedemptionAttemptIdentity RedemptionAttempt).

Definition put_attempt (i : RedemptionAttemptIdentity) (s : RedemptionAttemptState)
    (m : RedemptionAttempts) : RedemptionAttempts :=
  <[i := {| attempt_identity := i; attempt_state := s |}]> m.

Definition receipt_state (prior : RedemptionAttemptState) (audit : RedemptionReceiptAudit)
    (timestamp : OffsetDateTime) : RedemptionAttemptState :=
  let submit_body_hash :=
    match prior with
    | InFlight _ _ h | Ambiguous _ _ h => h
    | _ => EmptyString
    end in
  let n := rc_attempt_count audit in
  let tid := rc_transaction_id audit in
  match rc_status audit with
  | ReceiptPending => InFlight n tid submit_body_hash
  | ReceiptAmbiguous => Ambiguous n (Some tid) submit_body_hash
  | ReceiptConfirmed =>
      match rc_transaction_hash audit with
      | Some hash =>
          if is_blank hash then Ambiguous n (Some tid) submit_body_hash
          else ConfirmedAwaitingBalance n tid hash timestamp
      | None => Ambiguous n (Some tid) submit_body_hash
      end
  | ReceiptTerminalFailure => Failed n timestamp TerminalFailed
  end.

Definition apply_event (attempts : RedemptionAttempts) (event : LiveJournalEvent) :
    RedemptionAttempts :=
  match ev_payload event with
  | RedemptionRequested audit =>
      put_attempt (req_identity audit)
        (SubmissionReserved (req_attempt_count audit) (req_redeemable_balance audit)
           (audit_request_hash (req_request audit)) (audit_deadline_unix (req_request audit)))
        attempts
  | RedemptionTransactionIdentified audit =>
      put_attempt (tx_identity audit)
        (InFlight (tx_attempt_count audit) (tx_transaction_id audit) (tx_submit_body_hash audit))
        attempts
  | RedemptionReceiptTransition audit =>
      match attempts !! rc_identity audit with
      | None => attempts
      | Some prior =>
          put_attempt (rc_identity audit)
            (receipt_state (attempt_state prior) audit (ev_timestamp event)) attempts
      end
  | RedemptionCustodyReconciled audit =>
      match attempts !! rr_identity audit with
      | Some {| attempt_state := ConfirmedAwaitingBalance n tid hash _ |} =>
          put_attempt (rr_identity audit) (Complete n tid hash (ev_timestamp event) amount_ZERO) attempts
      | _ => attempts
      end
  | _ => attempts
  end.

Definition reconstruct_redemption_attempts (events : list LiveJournalEvent) : RedemptionAttempts :=
  foldl apply_event ∅ events.

(** ** Events and actions *)

Inductive RedemptionEvent : Type :=
| ResolvedWinnerBalanceObserved (now : OffsetDateTime) (redeemable_balance : CollateralAmount)
    (request_hash : string)
| SubmissionAccepted (transaction_id submit_body_hash : string)
| SubmissionConfirmed (transaction_id transaction_hash : string) (confirmed_at : OffsetDateTime)
| SubmissionAmbiguous (transaction_id : option string) (submit_body_hash : string)
| SubmissionFailed (retry_not_before : OffsetDateTime) (failure : RedemptionFailureKind)
| ReconciliationPending
| ReconciliationConfirmed (transaction_hash : string) (confirmed_at : OffsetDateTime)
| ReconciliationAmbiguous
| ReconciliationFailed (retry_not_before : OffsetDateTime) (failure : RedemptionFailureKind)
| BalanceReconciled (reconciled_at : OffsetDateTime)
    (credited_collateral remaining_redeemable : CollateralAmount).

Inductive RedemptionAction : Type :=
| SubmitOnce (request_hash : string)
| ReconcileExisting (transaction_id : string)
| WaitForBackoff (retry_not_before : OffsetDateTime)
| AwaitTransactionIdentity
| ReconcileBalance
| ProceedsSpendable (credited_collateral : CollateralAmount).

Definition reserve_submission (n : Z) (balance : CollateralAmount) (request_hash : string) :
    RedemptionAttemptState * list RedemptionAction :=
  let n := saturating_add_u32 n 1 in
  (SubmissionReserved n balance request_hash None, [SubmitOnce request_hash]).

Definition transaction_id_of (s : RedemptionAttemptState) : option string :=
  match s with
  | InFlight _ tid _ => Some tid
  | Ambiguous _ (Some tid) _ => Some tid
  | _ => None
  end.

(** ** The reducer *)
Definition advance (s : RedemptionAttemptState) (e : RedemptionEvent) :
    RedemptionAttemptState * list RedemptionAction :=
  match s, e with
  | (Idle n | Complete n _ _ _ _), ResolvedWinnerBalanceObserved _ balance hash =>
      if amount_ltb amount_ZERO balance then reserve_submission n balance hash else (s, [])
  | Failed n retry failure, ResolvedWinnerBalanceObserved now balance hash =>
      if odt_ltb now retry then (Failed n retry failure, [WaitForBackoff retry])
      else reserve_submission n balance hash
  | SubmissionReserved _ _ _ _, ResolvedWinnerBalanceObserved now balance hash =>
      if submission_deadline_passed s now then reserve_submission (attempt_count s) balance hash
      else (s, [AwaitTransactionIdentity])
  | InFlight n tid h, ResolvedWinnerBalanceObserved _ _ _ =>
      (InFlight n tid h, [ReconcileExisting tid])
  | Ambiguous n (Some tid) h, ResolvedWinnerBalanceObserved _ _ _ =>
      (Ambiguous n (Some tid) h, [ReconcileExisting tid])
  | Ambiguous _ None _, ResolvedWinnerBalanceObserved _ _ _ => (s, [AwaitTransactionIdentity])
  | ConfirmedAwaitingBalance _ _ _ _, ResolvedWinnerBalanceObserved _ _ _ => (s, [ReconcileBalance])
  | SubmissionReserved n _ _ _, SubmissionAccepted tid h => (InFlight n tid h, [])
  | (SubmissionReserved _ _ _ _ | InFlight _ _ _ | Ambiguous _ _ _),
      SubmissionConfirmed tid hash confirmed_at =>
      (ConfirmedAwaitingBalance (attempt_count s) tid hash confirmed_at, [ReconcileBalance])
  | SubmissionReserved n _ _ _, SubmissionAmbiguous tid h =>
      (Ambiguous n tid h,
       match tid with Some tid => [ReconcileExisting tid] | None => [AwaitTransactionIdentity] end)
  | SubmissionReserved n _ _ _, SubmissionFailed retry failure =>
      (Failed n retry failure, [WaitForBackoff retry])
  | (InFlight n tid h | Ambiguous n (Some tid) h), ReconciliationPending => (InFlight n tid h, [])
  | (InFlight _ _ _ | Ambiguous _ (Some _) _), ReconciliationConfirmed hash confirmed_at =>
      (ConfirmedAwaitingBalance (attempt_count s) (default EmptyString (transaction_id_of s)) hash
         confirmed_at, [ReconcileBalance])
  | (InFlight n tid h | Ambiguous n (Some tid) h), ReconciliationAmbiguous =>
      (Ambiguous n (Some tid) h, [])
  | (InFlight _ _ _ | Ambiguous _ _ _), ReconciliationFailed retry failure =>
      (Failed (attempt_count s) retry failure, [WaitForBackoff retry])
  | ConfirmedAwaitingBalance n tid hash _, BalanceReconciled at_ credited remaining =>
      (Complete n tid hash at_ remaining,
       if amount_ltb amount_ZERO credited then [ProceedsSpendable credited] else [])
  | _, _ => (s, [])
  end.

(** ** Posture *)
Record RedemptionPosture := {
  closes_new_buy_admission : bool;
  surface_prominently : bool
}.
Definition redemption_posture (s : RedemptionAttemptState) : RedemptionPosture :=
  let closes :=
    match s with
    | SubmissionReserved _ _ _ _ | InFlight _ _ _ | Ambiguous _ _ _ | Failed _ _ _
    | ConfirmedAwaitingBalance _ _ _ _ => true
    | _ => false
    end in
  let unresolved :=
    match s with
    | SubmissionReserved _ _ _ _ | InFlight _ _ _ | Ambiguous _ _ _ | Failed _ _ _ => true
    | _ => false
    end in
  {| closes_new_buy_admission := closes;
     surface_prominently := unresolved && (LIVE_REDEMPTION_SURFACE_AFTER_ATTEMPTS <=? attempt_count s) |}.

End Journal.

(** ** The journal as the driver uses it

    [append] publishes exactly one record, with the given account, timestamp and
    payload and the next sequence number, or publishes none and reports an error. *)
Class LiveJournalOps `{TO : TimeOps} `{DO : DecimalOps} := {
  Journal : Type;
  JournalError : Type;
  journal_events : Journal → list LiveJournalEvent;
  journal_append : AccountId → OffsetDateTime → LiveJournalPayload →
    stm Journal JournalError LiveJournalEvent;
  http_attempt_hashes : list RawHttpAttempt → result JournalError (list string)
}.
Class LiveJournalLaws `{TO : TimeOps} `{DO : DecimalOps} {JO : LiveJournalOps} : Prop := {
  journal_append_Ok a t p j j' ev : journal_append a t p j = (j', Ok ev) →
    ev = {| ev_account_id := a; ev_seq := Z.of_nat (length (journal_events j));
            ev_timestamp := t; ev_payload := p |}
    ∧ journal_events j' = journal_events j ++ [ev];
  journal_append_Err a t p j j' e : journal_append a t p j = (j', Err e) →
    journal_events j' = journal_events j
}.

(** ** The driver *)
Section Driver.
Context `{TO : TimeOps} `{DO : DecimalOps} {B3 : Blake3} {JO : LiveJournalOps}.

Record RedemptionCall := {
  call_to : string;
  call_calldata : list Z;
  call_condition_id : PolymarketConditionId;
  call_neg_risk : bool
}.
Record SignedRedemptionRequest := {
  sr_call : RedemptionCall;
  sr_custody : CustodyKind;
  sr_signer_address : string;
  sr_custody_wallet : string;
  sr_nonce : string;
  sr_signature : string;
  sr_deadline_unix : option Z;
  sr_metadata : string
}.
Record ConfirmedRedemption := {
  cf_transaction_id : string;
  cf_transaction_hash : string;
  cf_submit_body_hash : string;
  cf_evidence : list RawHttpResponse
}.
Inductive RedemptionTransportError : Type :=
| TErrConfiguration (message : string)
| TErrUnsupportedCustody
| TErrRequest (message : string)
| TErrAuthentication (phase : string) (status : Z) (response_body_hash : string)
| TErrRejected (phase : string) (status : Z) (response_body_hash : string)
| TErrTransport (phase message : string)
| TErrAmbiguousAfterSubmit (transaction_id : option string) (submit_body_hash : string)
    (evidence : list RawHttpResponse) (reason : string)
| TErrTerminalFailure (transaction_id : string) (error_message : option string)
    (evidence : list RawHttpResponse)
| TErrProtocol (phase message : string) (evidence : list RawHttpResponse).

Inductive RedemptionStatusObservation : Type :=
| StatusPending (evidence : list RawHttpAttempt)
| StatusConfirmed (transaction_hash : string) (evidence : list RawHttpAttempt)
| StatusTerminalFailure (evidence : list RawHttpAttempt)
| StatusAmbiguous (evidence : list RawHttpAttempt).
(** [RedemptionStatusReadError] carries its evidence. *)
Definition RedemptionStatusReadError : Type := list RawHttpAttempt.

(** The venue: what the relayer answers to a submission and to a status query. *)
Record Venue := {
  submit_and_confirm : SignedRedemptionRequest → result RedemptionTransportError ConfirmedRedemption;
  reconcile_transaction : string → result RedemptionStatusReadError RedemptionStatusObservation
}.

Record RedemptionPassInput := {
  in_attempt : RedemptionAttempt;
  in_now : OffsetDateTime;
  in_resolved_winner_redeemable : CollateralAmount;
  in_signed_request : option SignedRedemptionRequest;
  in_request_hash : option string;
  in_retry_not_before_on_failure : OffsetDateTime
}.
Record RedemptionPassResult := {
  out_attempt : RedemptionAttempt;
  out_actions : list RedemptionAction;
  out_failure : option RedemptionFailureKind
}.
Inductive RedemptionDriverError : Type :=
| DriverJournal (e : JournalError)
| MissingRequest
| IdentityMismatch.

(** An external call, with the published journal at the moment it is made. *)
Inductive ExternalCall : Type :=
| SubmitCall (request : SignedRedemptionRequest) (published : list LiveJournalEvent)
| StatusCall (transaction_id : string) (published : list LiveJournalEvent).
Record World := { w_journal : Journal; w_calls : list ExternalCall }.

Abbreviation driver := (stm World RedemptionDriverError).

Definition driver_append (a : AccountId) (t : OffsetDateTime) (p : LiveJournalPayload) : driver unit :=
  λ w, let '(j, r) := journal_append a t p (w_journal w) in
       ({| w_journal := j; w_calls := w_calls w |},
        match r with Ok _ => Ok tt | Err e => Err (DriverJournal e) end).
Definition driver_hashes (evidence : list RawHttpAttempt) : driver (list string) :=
  stm_lift (map_err DriverJournal (http_attempt_hashes evidence)).
Definition call_submit (v : Venue) (request : SignedRedemptionRequest) :
    driver (result RedemptionTransportError ConfirmedRedemption) :=
  λ w, ({| w_journal := w_journal w;
           w_calls := w_calls w ++ [SubmitCall request (journal_events (w_journal w))] |},
        Ok (submit_and_confirm v request)).
Definition call_status (v : Venue) (tid : string) :
    driver (result RedemptionStatusReadError RedemptionStatusObservation) :=
  λ w, ({| w_journal := w_journal w;
           w_calls := w_calls w ++ [StatusCall tid (journal_events (w_journal w))] |},
        Ok (reconcile_transaction v tid)).

Definition validate_request_identity (identity : RedemptionAttemptIdentity)
    (request : SignedRedemptionRequest) : result RedemptionDriverError unit :=
  if bool_decide (id_condition identity ≠ call_condition_id (sr_call request))
     || negb (eq_ignore_ascii_case (adapter identity) (call_to (sr_call request)))
     || negb (eq_ignore_ascii_case (id_custody_wallet identity) (sr_custody_wallet request))
  then Err IdentityMismatch
  else Ok tt.

Definition redemption_request_audit (request : SignedRedemptionRequest) (request_hash : string) :
    RedemptionRequestAudit := {|
  audit_call_to := call_to (sr_call request);
  audit_calldata := call_calldata (sr_call request);
  audit_condition_id := call_condition_id (sr_call request);
  audit_neg_risk := call_neg_risk (sr_call request);
  audit_custody := match sr_custody request with
                   | DepositWallet => AuditDepositWallet
                   | ProxyWallet => AuditProxy
                   | SafeWallet => AuditSafe
                   | Eoa => AuditEoa
                   end;
  audit_signer_address := sr_signer_address request;
  audit_custody_wallet := sr_custody_wallet request;
  audit_deadline_unix := sr_deadline_unix request;
  audit_metadata_hash := to_hex (blake3 (string_bytes (sr_metadata request)));
  audit_request_hash := request_hash;
  audit_schema_version := REDEMPTION_SCHEMA_VERSION;
  audit_parser_version := REDEMPTION_PARSER_VERSION;
  audit_adapter_version := REDEMPTION_ADAPTER_VERSION
|}.

Definition journal_transaction (attempt : RedemptionAttempt) (now : OffsetDateTime)
    (tid submit_body_hash : string) (evidence : list RawHttpAttempt) : driver unit :=
  hashes ← driver_hashes evidence;
  driver_append (account_id (attempt_identity attempt)) now
    (RedemptionTransactionIdentified {|
       tx_identity := attempt_identity attempt;
       tx_attempt_count := attempt_count (attempt_state attempt);
       tx_transaction_id := tid; tx_submit_body_hash := submit_body_hash;
       tx_evidence := evidence; tx_evidence_hashes := hashes |}).

Definition journal_receipt (attempt : RedemptionAttempt) (now : OffsetDateTime) (tid : string)
    (transaction_hash : option string) (status : RedemptionReceiptStatusAudit)
    (evidence : list RawHttpAttempt) : driver unit :=
  hashes ← driver_hashes evidence;
  driver_append (account_id (attempt_identity attempt)) now
    (RedemptionReceiptTransition {|
       rc_identity := attempt_identity attempt;
       rc_attempt_count := attempt_count (attempt_state attempt);
       rc_transaction_id := tid; rc_transaction_hash := transaction_hash; rc_status := status;
       rc_evidence := evidence; rc_evidence_hashes := hashes |}).

(** [advance] the attempt and report the pass. *)
Definition pass_with (attempt : RedemptionAttempt) (e : RedemptionEvent)
    (failure : option RedemptionFailureKind) : RedemptionPassResult :=
  let '(s, actions) := advance (attempt_state attempt) e in
  {| out_attempt := {| attempt_identity := attempt_identity attempt; attempt_state := s |};
     out_actions := actions; out_failure := failure |}.

Definition fail_attempt (attempt : RedemptionAttempt) (retry : OffsetDateTime)
    (failure : RedemptionFailureKind) : driver RedemptionPassResult :=
  mret (pass_with attempt (SubmissionFailed retry failure) (Some failure)).

Definition handle_submission_error (attempt : RedemptionAttempt) (input : RedemptionPassInput)
    (error : RedemptionTransportError) : driver RedemptionPassResult :=
  let now := in_now input in
  let retry := in_retry_not_before_on_failure input in
  match error with
  | TErrAmbiguousAfterSubmit tid body_hash responses _ =>
      let evidence := Response <$> responses in
      _ ← match tid with
          | Some tid =>
              _ ← journal_transaction attempt now tid body_hash evidence;
              journal_receipt attempt now tid None ReceiptAmbiguous evidence
          | None => mret tt
          end;
      mret (pass_with attempt (SubmissionAmbiguous tid body_hash) (Some TransportFailed))
  | TErrTerminalFailure tid _ responses =>
      let evidence := Response <$> responses in
      _ ← journal_transaction attempt now tid "terminal-failure" evidence;
      _ ← journal_receipt attempt now tid None ReceiptTerminalFailure evidence;
      fail_attempt attempt retry TerminalFailed
  | TErrAuthentication _ _ _ => fail_attempt attempt retry Authentication
  | TErrRejected _ _ _ => fail_attempt attempt retry Rejected
  | TErrTransport _ _ => fail_attempt attempt retry TransportFailed
  | TErrProtocol _ _ _ => fail_attempt attempt retry ProtocolFailed
  | TErrConfiguration _ | TErrUnsupportedCustody | TErrRequest _ =>
      fail_attempt attempt retry InvalidRequest
  end.

Definition handle_status_observation (attempt : RedemptionAttempt) (input : RedemptionPassInput)
    (tid : string) (observation : result RedemptionStatusReadError RedemptionStatusObservation) :
    driver RedemptionPassResult :=
  let '(event, status, hash, evidence, failure) :=
    match observation with
    | Ok (StatusPending evidence) => (ReconciliationPending, ReceiptPending, None, evidence, None)
    | Ok (StatusConfirmed hash evidence) =>
        (ReconciliationConfirmed hash (in_now input), ReceiptConfirmed, Some hash, evidence, None)
    | Ok (StatusTerminalFailure evidence) =>
        (ReconciliationFailed (in_retry_not_before_on_failure input) TerminalFailed,
         ReceiptTerminalFailure, None, evidence, Some TerminalFailed)
    | Ok (StatusAmbiguous evidence) =>
        (ReconciliationAmbiguous, ReceiptAmbiguous, None, evidence, Some TransportFailed)
    | Err evidence =>
        (ReconciliationAmbiguous, ReceiptAmbiguous, None, evidence, Some TransportFailed)
    end in
  _ ← journal_receipt attempt (in_now input) tid hash status evidence;
  mret (pass_with attempt event failure).

(** The [SubmitOnce] arm. *)
Definition submit_pass (v : Venue) (attempt : RedemptionAttempt) (input : RedemptionPassInput)
    (request_hash : string) : driver RedemptionPassResult :=
  request ← stm_lift (ok_or (in_signed_request input) MissingRequest);
  if decide (request_hash = EmptyString) then stm_fail MissingRequest
  else
    _ ← stm_lift (validate_request_identity (attempt_identity attempt) request);
    _ ← driver_append (account_id (attempt_identity attempt)) (in_now input)
          (RedemptionRequested {|
             req_identity := attempt_identity attempt;
             req_attempt_count := attempt_count (attempt_state attempt);
             req_redeemable_balance := in_resolved_winner_redeemable input;
             req_request := redemption_request_audit request request_hash |});
    answer ← call_submit v request;
    match answer with
    | Ok confirmed =>
        let evidence := Response <$> cf_evidence confirmed in
        let tid := cf_transaction_id confirmed in
        _ ← journal_transaction attempt (in_now input) tid (cf_submit_body_hash confirmed) evidence;
        _ ← journal_receipt attempt (in_now input) tid (Some (cf_transaction_hash confirmed))
              ReceiptConfirmed evidence;
        mret (pass_with attempt
                (SubmissionConfirmed tid (cf_transaction_hash confirmed) (in_now input)) None)
    | Err error => handle_submission_error attempt input error
    end.

Definition run_redemption_pass (v : Venue) (input : RedemptionPassInput) :
    driver RedemptionPassResult :=
  let request_hash := default EmptyString (in_request_hash input) in
  let '(s, actions) :=
    advance (attempt_state (in_attempt input))
      (ResolvedWinnerBalanceObserved (in_now input) (in_resolved_winner_redeemable input)
         request_hash) in
  let attempt := {| attempt_identity := attempt_identity (in_attempt input); attempt_state := s |} in
  let idle := {| out_attempt := attempt; out_actions := actions; out_failure := None |} in
  match actions with
  | [] => mret idle
  | SubmitOnce request_hash :: _ => submit_pass v attempt input request_hash
  | ReconcileExisting tid :: _ =>
      observation ← call_status v tid;
      handle_status_observation attempt input tid observation
  | _ :: _ => mret idle
  end.

End Driver.

(** ** The reducer never submits twice *)
Section Reducer.
Context `{TO : TimeOps} `{DO : DecimalOps}.

(** When the reducer may start a submission. *)
Definition may_submit (s : RedemptionAttemptState) (now : OffsetDateTime) (balance : CollateralAmount) :
    Prop :=
  match s with
  | Idle _ | Complete _ _ _ _ _ => 0 < atomic balance
  | Failed _ retry _ => odt_ltb now retry = false
  | SubmissionReserved _ _ _ (Some deadline) => 0 ≤ unix_timestamp now ∧ deadline < unix_timestamp now
  | _ => False
  end.

Lemma advance_submit s e s' acts h : advance s e = (s', acts) → SubmitOnce h ∈ acts →
  ∃ now balance, e = ResolvedWinnerBalanceObserved now balance h ∧ may_submit s now balance
    ∧ s' = SubmissionReserved (saturating_add_u32 (attempt_count s) 1) balance h None
    ∧ acts = [SubmitOnce h].
Proof.
  intros Ha Hin. destruct s, e; simpl in Ha; try (case_hyp Ha; simplify_eq/=; set_solver).
  all: unfold reserve_submission in Ha; case_hyp Ha; simplify_eq/=;
    try (by set_unfold; naive_solver).
  all: apply list_elem_of_singleton in Hin as [= ->]; do 2 eexists; split_and!; try done.
  all: unfold amount_ltb, amount_ZERO in *; simpl in *; rust.
  destruct deadline_unix as [deadline|]; [|done].
  by apply andb_true_iff in Heqb as [?%Z.leb_le ?%Z.ltb_lt].
Qed.

(** the reducer asks for a submission only when the family is free: it never
    started and something is redeemable, it is complete and something is
    redeemable again, it failed and its backoff has run out, or its unidentified
    request can no longer execute.  It then holds a reservation, with the attempt
    counted, and asks for nothing else. *)
Theorem submit_only_when_free s e s' acts h :
  advance s e = (s', acts) → SubmitOnce h ∈ acts →
  ∃ now balance, e = ResolvedWinnerBalanceObserved now balance h ∧ may_submit s now balance
    ∧ s' = SubmissionReserved (saturating_add_u32 (attempt_count s) 1) balance h None
    ∧ acts = [SubmitOnce h].
Proof. apply advance_submit. Qed.


(** A request is outstanding: it may have executed, or may still execute. *)
Definition outstanding (s : RedemptionAttemptState) : Prop :=
  match s with
  | SubmissionReserved _ _ _ _ | InFlight _ _ _ | Ambiguous _ _ _
  | ConfirmedAwaitingBalance _ _ _ _ => True
  | _ => False
  end.
(** Evidence that an outstanding request is over: it failed, or its proceeds are
    in custody. *)
Definition closes_attempt (e : RedemptionEvent) : bool :=
  match e with
  | SubmissionFailed _ _ | ReconciliationFailed _ _ | BalanceReconciled _ _ _ => true
  | _ => false
  end.

Fixpoint advance_all (s : RedemptionAttemptState) (es : list RedemptionEvent) :
    RedemptionAttemptState * list RedemptionAction :=
  match es with
  | [] => (s, [])
  | e :: es =>
      let '(s', acts) := advance s e in
      let '(s'', acts') := advance_all s' es in
      (s'', acts ++ acts')
  end.

(** The event observes a balance after the signed deadline of a request that never got a
    transaction identity: that request can no longer execute. *)
Definition lapsed (s : RedemptionAttemptState) (e : RedemptionEvent) : bool :=
  match e with ResolvedWinnerBalanceObserved now _ _ => submission_deadline_passed s now | _ => false end.
Lemma outstanding_step s e : outstanding s → closes_attempt e = false → lapsed s e = false → outstanding (advance s e).1.
Proof.
  intros Ho Hc Hl. destruct s as [| | | ? [] ?| | |], e; try done. cbn [lapsed advance] in *. by rewrite Hl.
Qed.
Lemma advance_all_cons s e es : (advance_all s (e :: es)).1 = (advance_all (advance s e).1 es).1.
Proof. simpl. destruct (advance s e) as [s1 acts]. simpl. by destruct (advance_all s1 es). Qed.

(** C24: no double submission.  While a request is outstanding (reserved, in flight, ambiguous or
    confirmed and not yet in custody), no sequence of events makes the reducer submit again, and the
    family keeps refusing new buys, as long as no event is evidence that the request failed or that its
    proceeds were reconciled, and no balance is observed after the signed deadline of a request that at
    that moment still has no transaction identity. *)
Theorem no_submission_while_outstanding s es : outstanding s →
  Forall (λ e, closes_attempt e = false) es →
  (∀ earlier e later, es = earlier ++ e :: later → lapsed (advance_all s earlier).1 e = false) →
  outstanding (advance_all s es).1
  ∧ (∀ h, SubmitOnce h ∉ (advance_all s es).2)
  ∧ closes_new_buy_admission (redemption_posture (advance_all s es).1) = true.
Proof.
  intros Ho Hes. revert s Ho. induction Hes as [|e es He _ IH]; intros s Ho Hin; simpl.
  { split_and!; [done|set_solver|]. by destruct s. }
  pose proof (Hin [] e es eq_refl) as Hl. pose proof (outstanding_step s e Ho He Hl) as Ho'.
  assert (∀ earlier e' later, es = earlier ++ e' :: later → lapsed (advance_all (advance s e).1 earlier).1 e' = false) as Hin'
    by (intros earlier e' later ->; rewrite <- advance_all_cons; by eapply Hin).
  destruct (advance s e) as [s1 acts] eqn:Ea. cbn [fst] in *.
  destruct (IH s1 Ho' Hin') as (I1 & I2 & I3). destruct (advance_all s1 es) as [s2 acts'].
  simpl in *. split_and!; [done| |done]. intros h [Hh|Hh]%elem_of_app; [|by eapply I2].
  destruct (advance_submit s e s1 acts h Ea Hh) as (now & b & -> & Hm & _). destruct s as [|? ? ? [d|]| | | | |]; try done.
  destruct Hm as [?%Z.leb_le ?%Z.ltb_lt]. simpl in Hl. by apply andb_false_iff in Hl as [?|?]; congruence.
Qed.

(** new buys reopen in one way only: the confirmed redemption's balance is
    reconciled; and proceeds become spendable only at that step. *)
Theorem admission_reopens_only_on_reconciliation s e s' acts :
  advance s e = (s', acts) →
  closes_new_buy_admission (redemption_posture s) = true →
  (closes_new_buy_admission (redemption_posture s') = false →
   ∃ n tid hash t at_ credited remaining,
     s = ConfirmedAwaitingBalance n tid hash t ∧ e = BalanceReconciled at_ credited remaining
     ∧ s' = Complete n tid hash at_ remaining)
  ∧ (∀ c, ProceedsSpendable c ∈ acts → closes_new_buy_admission (redemption_posture s') = false
                                       ∧ 0 < atomic c).
Proof.
  intros Ha Hc. destruct s, e; simpl in Ha; case_hyp Ha; simplify_eq/=; try done.
  all: unfold reserve_submission in *; case_hyp Ha; simplify_eq/=.
  all: split; [try done; intros _; by repeat eexists|].
  all: intros c Hin; try (by set_unfold; naive_solver).
  all: unfold amount_ltb, amount_ZERO in *; simpl in *;
    apply list_elem_of_singleton in Hin as [= ->]; split; [done|rust].
Qed.

Lemma advance_single s e : (length (advance s e).2 ≤ 1)%nat.
Proof.
  destruct s, e; simpl; unfold reserve_submission; case_goal; simpl; lia.
Qed.

(** attempts are counted: a submission adds one, saturating at [u32::MAX], and
    no other step changes the count, so it never decreases. *)
Theorem attempts_counted s e s' acts :
  advance s e = (s', acts) → is_u32 (attempt_count s) →
  is_u32 (attempt_count s') ∧ attempt_count s ≤ attempt_count s'
  ∧ (∀ h, SubmitOnce h ∈ acts → attempt_count s' = Z.min (attempt_count s + 1) U32_MAX)
  ∧ ((∀ h, SubmitOnce h ∉ acts) → attempt_count s' = attempt_count s).
Proof.
  intros Ha Hn.
  assert (∀ h, SubmitOnce h ∈ acts → attempt_count s' = Z.min (attempt_count s + 1) U32_MAX) as H1.
  { intros h Hin. by destruct (advance_submit s e s' acts h Ha Hin) as (? & ? & _ & _ & -> & _). }
  assert ((∀ h, SubmitOnce h ∉ acts) → attempt_count s' = attempt_count s) as H2.
  { intros Hno. destruct s, e; simpl in Ha; unfold reserve_submission in Ha; case_hyp Ha;
      simplify_eq/=; try done; exfalso; eapply Hno; apply list_elem_of_singleton; reflexivity. }
  assert ((∃ h, SubmitOnce h ∈ acts) ∨ ∀ h, SubmitOnce h ∉ acts) as [[h Hh]|Hno].
  { pose proof (advance_single s e) as Hl. rewrite Ha in Hl.
    destruct acts as [|a [|]]; simpl in Hl; [right; set_solver| |lia].
    destruct a; [left; eexists; apply list_elem_of_here|right; set_solver..]. }
  - rewrite (H1 h Hh). unfold is_u32, U32_MAX in *.
    split; [lia|]. split; [lia|]. split; [done|]. intros Hno. by destruct (Hno h).
  - rewrite H2 by done. split; [done|]. split; [done|]. split; [|done].
    intros h' Hh'. by destruct (Hno h').
Qed.

End Reducer.

(** ** The driver *)
Section DriverFacts.
Context `{TO : TimeOps} `{DO : DecimalOps} {B3 : Blake3} {JO : LiveJournalOps} {JL : LiveJournalLaws}.

Abbreviation driver := (stm World RedemptionDriverError).

(** *** Which external calls a pass makes *)

Definition keeps_calls {A} (m : driver A) : Prop := ∀ w, w_calls (m w).1 = w_calls w.

Lemma keeps_calls_bind {A B} (m : driver A) (f : A → driver B) :
  keeps_calls m → (∀ a, keeps_calls (f a)) → keeps_calls (m ≫= f).
Proof.
  intros Hm Hf w. unfold mbind, stm_mbind. specialize (Hm w).
  destruct (m w) as [w1 [a|e]]; simpl in *; [|done]. by rewrite Hf.
Qed.
Lemma keeps_calls_ret {A} (a : A) : keeps_calls (mret a).
Proof. done. Qed.
Lemma keeps_calls_append a t p : keeps_calls (driver_append a t p).
Proof. intros w. unfold driver_append. by destruct (journal_append _ _ _ _). Qed.
Lemma keeps_calls_transaction a now tid h ev : keeps_calls (journal_transaction a now tid h ev).
Proof. apply keeps_calls_bind; [done|]. intros. apply keeps_calls_append. Qed.
Lemma keeps_calls_receipt a now tid h st ev : keeps_calls (journal_receipt a now tid h st ev).
Proof. apply keeps_calls_bind; [done|]. intros. apply keeps_calls_append. Qed.
#[local] Hint Resolve keeps_calls_bind keeps_calls_ret keeps_calls_transaction keeps_calls_receipt : core.

Lemma keeps_calls_error a input e : keeps_calls (handle_submission_error a input e).
Proof.
  unfold handle_submission_error, fail_attempt. destruct e as [| | | | | |[] | |]; auto.
Qed.

Lemma keeps_calls_observation a input tid o : keeps_calls (handle_status_observation a input tid o).
Proof. unfold handle_status_observation. case_goal; auto. Qed.

Lemma driver_append_Ok a t p w w' : driver_append a t p w = (w', Ok tt) →
  ∃ ev, ev_timestamp ev = t ∧ ev_payload ev = p
    ∧ journal_events (w_journal w') = journal_events (w_journal w) ++ [ev].
Proof.
  unfold driver_append. destruct (journal_append a t p (w_journal w)) as [j [ev|e]] eqn:E; [|done].
  intros [= <-]. apply journal_append_Ok in E as [Hev Hj]. exists ev. split_and!; [by rewrite Hev..|done].
Qed.

(** What a submission call must see: its own request, published last. *)
Definition request_published (identity : RedemptionAttemptIdentity) (n : Z)
    (request : SignedRedemptionRequest) (published : list LiveJournalEvent) : Prop :=
  ∃ before ev audit, published = before ++ [ev] ∧ ev_payload ev = RedemptionRequested audit
    ∧ req_identity audit = identity ∧ req_attempt_count audit = n
    ∧ audit_request_hash (req_request audit) ≠ EmptyString
    ∧ req_request audit = redemption_request_audit request (audit_request_hash (req_request audit))
    ∧ validate_request_identity identity request = Ok tt.

Lemma submit_pass_calls v a input h w : ∃ new,
  w_calls (submit_pass v a input h w).1 = w_calls w ++ new
  ∧ (new = [] ∨ ∃ request published, new = [SubmitCall request published]
       ∧ request_published (attempt_identity a) (attempt_count (attempt_state a)) request published).
Proof.
  unfold submit_pass. rewrite stm_bind_run. unfold stm_lift at 1.
  destruct (in_signed_request input) as [request|]; cbn [ok_or]; [|exists []; rewrite app_nil_r; eauto].
  case_decide as Hh; [exists []; rewrite app_nil_r; eauto|]. rewrite stm_bind_run. unfold stm_lift at 1.
  destruct (validate_request_identity _ request) as [[]|] eqn:Hv; [|exists []; rewrite app_nil_r; eauto].
  rewrite stm_bind_run. set (p := RedemptionRequested _).
  destruct (driver_append _ _ p w) as [w1 [[]|e]] eqn:Happ.
  2:{ exists []. rewrite app_nil_r. pose proof (keeps_calls_append
        (account_id (attempt_identity a)) (in_now input) p w) as Hk. rewrite Happ in Hk. eauto. }
  pose proof (keeps_calls_append (account_id (attempt_identity a)) (in_now input) p w) as Hk.
  rewrite Happ in Hk. simpl in Hk.
  apply driver_append_Ok in Happ as (ev & _ & Hp & Hev).
  exists [SubmitCall request (journal_events (w_journal w1))]. split.
  2:{ right. do 2 eexists. split; [done|]. rewrite Hev. do 3 eexists. split; [done|].
      split; [exact Hp|]. by split_and!. }
  rewrite stm_bind_run. unfold call_submit at 1. rewrite <- Hk.
  set (w2 := {| w_journal := _ |}).
  assert (∀ m : driver RedemptionPassResult, keeps_calls m →
    w_calls (m w2).1 = w_calls w1 ++ [SubmitCall request (journal_events (w_journal w1))]) as Hend
    by (intros m Hm; by rewrite Hm).
  destruct (submit_and_confirm v request) as [confirmed|e]; apply Hend; auto using keeps_calls_error.
Qed.

(** C25: a pass makes at most one external call, whatever the journal and the venue
    answer; a submission call is made only after its request, with the attempt it
    belongs to, is the last published journal record, and only when the reducer
    was free to submit. *)
Theorem submission_follows_its_record v input w : ∃ new,
  w_calls (run_redemption_pass v input w).1 = w_calls w ++ new
  ∧ (length new ≤ 1)%nat
  ∧ ∀ request published, SubmitCall request published ∈ new →
      may_submit (attempt_state (in_attempt input)) (in_now input) (in_resolved_winner_redeemable input)
      ∧ request_published (attempt_identity (in_attempt input))
          (saturating_add_u32 (attempt_count (attempt_state (in_attempt input))) 1) request published.
Proof.
  unfold run_redemption_pass.
  set (ev := ResolvedWinnerBalanceObserved _ _ _).
  destruct (advance (attempt_state (in_attempt input)) ev) as [s acts] eqn:Ea.
  destruct acts as [|act acts]; [exists []; rewrite app_nil_r; split_and!; [done|simpl; lia|set_solver]|].
  destruct act as [h|tid| | | |];
    try (exists []; rewrite app_nil_r; split_and!; [done|simpl; lia|set_solver]).
  - destruct (submit_pass_calls v {| attempt_identity := attempt_identity (in_attempt input);
      attempt_state := s |} input h w) as (new & Hc & Hnew).
    exists new. split; [exact Hc|].
    destruct (advance_submit _ _ _ _ h Ea) as (now & b & [= <- <- _] & Hm & -> & _); [set_solver|].
    destruct Hnew as [->|(request & published & -> & Hpub)]; [split; [simpl; lia|set_solver]|].
    split; [simpl; lia|]. intros r p [= -> ->]%list_elem_of_singleton. split; [done|]. exact Hpub.
  - exists [StatusCall tid (journal_events (w_journal w))].
    split; [|split; [simpl; lia|intros r p Hin; apply list_elem_of_singleton in Hin; done]].
    rewrite stm_bind_run. unfold call_status at 1. by rewrite keeps_calls_observation.
Qed.

(** *** Replaying the journal *)

(** The state a restart would read for one family. *)
Definition replayed (w : World) (i : RedemptionAttemptIdentity) : option RedemptionAttemptState :=
  attempt_state <$> reconstruct_redemption_attempts (journal_events (w_journal w)) !! i.

(** A replayed state that stands for the in-memory one: the same stage, count and
    transaction.  A request whose outcome left no transaction identity replays as
    its reservation; a failure's backoff instant is not durable; a confirmation with a
    blank transaction hash replays as ambiguous, so that the transaction is asked for again. *)
Definition replay_stands_for (s : RedemptionAttemptState) (r : option RedemptionAttemptState) : Prop :=
  match s with
  | Idle _ => r = None
  | SubmissionReserved n b h _ => ∃ d, r = Some (SubmissionReserved n b h d)
  | InFlight n tid h => r = Some (InFlight n tid h)
  | Ambiguous n (Some tid) h => r = Some (Ambiguous n (Some tid) h)
  | Ambiguous n None _ => ∃ b h d, r = Some (SubmissionReserved n b h d)
  | Failed n _ _ =>
      (∃ b h d, r = Some (SubmissionReserved n b h d)) ∨ (∃ t, r = Some (Failed n t TerminalFailed))
  | ConfirmedAwaitingBalance n tid hash t =>
      if is_blank hash then ∃ h, r = Some (Ambiguous n (Some tid) h) else r = Some (ConfirmedAwaitingBalance n tid hash t)
  | Complete n tid hash _ _ => ∃ t, r = Some (Complete n tid hash t amount_ZERO)
  end.

Lemma replayed_append a t p w w' i : driver_append a t p w = (w', Ok tt) →
  ∃ ev, ev_timestamp ev = t ∧ ev_payload ev = p
    ∧ replayed w' i = attempt_state <$>
        apply_event (reconstruct_redemption_attempts (journal_events (w_journal w))) ev !! i.
Proof.
  intros (ev & Ht & Hp & Hev)%driver_append_Ok. exists ev. split_and!; [done|done|].
  unfold replayed, reconstruct_redemption_attempts. by rewrite Hev, foldl_app.
Qed.

Lemma replayed_transaction a now tid h evidence w w' :
  journal_transaction a now tid h evidence w = (w', Ok tt) →
  replayed w' (attempt_identity a) = Some (InFlight (attempt_count (attempt_state a)) tid h).
Proof.
  unfold journal_transaction, driver_hashes. intros H.
  apply stm_bind_Ok in H as (hashes & w0 & [= <- _] & H0).
  apply (replayed_append _ _ _ _ _ (attempt_identity a)) in H0 as (ev & _ & Hp & ->).
  unfold apply_event, put_attempt. rewrite Hp. simpl. by rewrite lookup_insert_eq.
Qed.

Lemma replayed_receipt a now tid hash st evidence w w' prior :
  replayed w (attempt_identity a) = Some prior →
  journal_receipt a now tid hash st evidence w = (w', Ok tt) →
  ∃ audit, rc_attempt_count audit = attempt_count (attempt_state a) ∧ rc_transaction_id audit = tid
    ∧ rc_transaction_hash audit = hash ∧ rc_status audit = st
    ∧ replayed w' (attempt_identity a) = Some (receipt_state prior audit now).
Proof.
  unfold journal_receipt, driver_hashes. intros Hprior H.
  apply stm_bind_Ok in H as (hashes & w0 & [= <- _] & H0).
  apply (replayed_append _ _ _ _ _ (attempt_identity a)) in H0 as (ev & Ht & Hp & Hr).
  unfold apply_event in Hr. rewrite Hp in Hr. simpl in Hr. unfold replayed in Hprior.
  apply fmap_Some in Hprior as (at_ & Hat & ->). rewrite Hat in Hr.
  unfold put_attempt in Hr. rewrite lookup_insert_eq in Hr. simpl in Hr.
  eexists {| rc_identity := _ |}. split_and!; [..|by rewrite Hr, Ht]; done.
Qed.

Lemma replayed_request a now audit w w' :
  driver_append (account_id (attempt_identity a)) now (RedemptionRequested audit) w = (w', Ok tt) →
  req_identity audit = attempt_identity a →
  replayed w' (attempt_identity a)
  = Some (SubmissionReserved (req_attempt_count audit) (req_redeemable_balance audit)
            (audit_request_hash (req_request audit)) (audit_deadline_unix (req_request audit))).
Proof.
  intros H Hi. apply (replayed_append _ _ _ _ _ (attempt_identity a)) in H as (ev & _ & Hp & ->).
  unfold apply_event, put_attempt. rewrite Hp, Hi. simpl. by rewrite lookup_insert_eq.
Qed.

(** The two journal records of an identified transaction. *)
Lemma replayed_identified a now tid h hash st evidence w w1 w2 :
  journal_transaction a now tid h evidence w = (w1, Ok tt) →
  journal_receipt a now tid hash st evidence w1 = (w2, Ok tt) →
  ∃ audit, rc_attempt_count audit = attempt_count (attempt_state a) ∧ rc_transaction_id audit = tid
    ∧ rc_transaction_hash audit = hash ∧ rc_status audit = st
    ∧ replayed w2 (attempt_identity a)
      = Some (receipt_state (InFlight (attempt_count (attempt_state a)) tid h) audit now).
Proof. intros H1%replayed_transaction H2. by eapply replayed_receipt in H2. Qed.

Lemma handle_submission_error_replay n b h a input e w w' out :
  attempt_state a = SubmissionReserved n b h None →
  (∃ d, replayed w (attempt_identity a) = Some (SubmissionReserved n b h d)) →
  handle_submission_error a input e w = (w', Ok out) →
  replay_stands_for (attempt_state (out_attempt out)) (replayed w' (attempt_identity a)).
Proof.
  intros Ha [d Hr] H. unfold handle_submission_error, fail_attempt, pass_with in H. rewrite Ha in H.
  destruct e as [| | | | | |[tid|] body ev why|tid msg ev|]; try (injection H as <- <-; simpl; by eauto 10).
  - apply stm_bind_Ok in H as ([] & w2 & H & [= <- <-]).
    apply stm_bind_Ok in H as ([] & w1 & H1 & H2).
    destruct (replayed_identified _ _ _ _ _ _ _ _ _ _ H1 H2) as (audit & E1 & E2 & E3 & E4 & ->).
    unfold receipt_state. rewrite E1, E2, E4, Ha. done.
  - apply stm_bind_Ok in H as ([] & w1 & H1 & H). apply stm_bind_Ok in H as ([] & w2 & H2 & [= <- <-]).
    destruct (replayed_identified _ _ _ _ _ _ _ _ _ _ H1 H2) as (audit & E1 & E2 & E3 & E4 & ->).
    unfold receipt_state. rewrite E1, E4, Ha. simpl. right. by eexists.
Qed.

Lemma submit_pass_replay v n b h a input w w' out :
  attempt_state a = SubmissionReserved n b h None → b = in_resolved_winner_redeemable input →
  submit_pass v a input h w = (w', Ok out) →
  replay_stands_for (attempt_state (out_attempt out)) (replayed w' (attempt_identity a)).
Proof.
  intros Ha Hb H. unfold submit_pass in H. apply stm_bind_Ok in H as (request & w0 & [= <- Hreq] & H).
  case_decide as Hh; [done|]. apply stm_bind_Ok in H as (u & w1 & [= <- Hval] & H).
  apply stm_bind_Ok in H as ([] & w2 & Happ & H). apply replayed_request in Happ; [|done].
  apply stm_bind_Ok in H as (answer & w3 & [= <- <-] & H).
  set (w3 := {| w_journal := _ |}) in H.
  assert (replayed w3 (attempt_identity a) = replayed w2 (attempt_identity a)) as Hw3 by done.
  rewrite Happ, Ha in Hw3. simpl in Hw3.
  destruct (submit_and_confirm v request) as [c|e] eqn:Hans.
  - apply stm_bind_Ok in H as ([] & w4 & H1 & H). apply stm_bind_Ok in H as ([] & w5 & H2 & [= <- <-]).
    destruct (replayed_identified _ _ _ _ _ _ _ _ _ _ H1 H2) as (audit & E1 & E2 & E3 & E4 & ->).
    unfold receipt_state, pass_with. rewrite E1, E2, E3, E4, Ha. simpl. destruct (is_blank (cf_transaction_hash c)); by eauto.
  - eapply handle_submission_error_replay; [exact Ha| |exact H]. rewrite Hw3, <- Hb. eauto.
Qed.

Lemma status_pass_replay v a input tid w w' out :
  transaction_id_of (attempt_state a) = Some tid →
  replay_stands_for (attempt_state a) (replayed w (attempt_identity a)) →
  handle_status_observation a input tid (reconcile_transaction v tid) w = (w', Ok out) →
  replay_stands_for (attempt_state (out_attempt out)) (replayed w' (attempt_identity a)).
Proof.
  intros Htid Hr H.
  assert (∃ prior, replayed w (attempt_identity a) = Some prior ∧
    (match prior with InFlight _ _ h | Ambiguous _ _ h => h | _ => EmptyString end)
    = match attempt_state a with InFlight _ _ h | Ambiguous _ _ h => h | _ => EmptyString end)
    as (prior & Hprior & Hh).
  { destruct (attempt_state a) as [| |n t h|n [t|] h| | |]; simplify_eq/=; eauto. }
  destruct (reconcile_transaction v tid) as [[ev|hash ev|ev|ev]|ev] eqn:Hobs;
    unfold handle_status_observation in H; apply stm_bind_Ok in H as ([] & w1 & Hj & [= <- <-]);
    destruct (replayed_receipt _ _ _ _ _ _ _ _ _ Hprior Hj) as (audit & E1 & E2 & E3 & E4 & ->);
    unfold receipt_state, pass_with; rewrite ?E3, E4, E1, ?E2, ?Hh; try destruct (is_blank hash) eqn:Hblank;
    destruct (attempt_state a) as [| |n t h|n [t|] h| | |]; simplify_eq/=; rewrite ?Hblank; eauto.
Qed.

Lemma advance_observe s now b h s' acts :
  advance s (ResolvedWinnerBalanceObserved now b h) = (s', acts) →
  acts = [SubmitOnce h] ∨ (s' = s ∧ ∀ tid rest, acts = ReconcileExisting tid :: rest →
                                     transaction_id_of s = Some tid).
Proof.
  intros Ha. destruct s as [| | |? []| | |]; simpl in Ha; unfold reserve_submission in Ha; case_hyp Ha;
    simplify_eq/=; try (by left); right; (split; [done|]); intros tid rest; by intros [= <-].
Qed.

(** A pass reports on the family it was given. *)
Definition reports (i : RedemptionAttemptIdentity) (m : driver RedemptionPassResult) : Prop :=
  ∀ w w' out, m w = (w', Ok out) → attempt_identity (out_attempt out) = i.

Lemma reports_bind {A} i (m : driver A) f : (∀ a, reports i (f a)) → reports i (m ≫= f).
Proof. intros Hf w w' out (a & w1 & _ & H)%stm_bind_Ok. by eapply Hf. Qed.
Lemma reports_fail i e : reports i (stm_fail e).
Proof. done. Qed.
Lemma reports_pass a e f : reports (attempt_identity a) (mret (pass_with a e f)).
Proof. intros w w' out [= _ <-]. unfold pass_with. by destruct (advance _ _). Qed.
#[local] Hint Resolve reports_bind reports_fail reports_pass : core.

Lemma reports_error a input e : reports (attempt_identity a) (handle_submission_error a input e).
Proof. unfold handle_submission_error, fail_attempt. destruct e; auto. Qed.
Lemma reports_observation a input tid o :
  reports (attempt_identity a) (handle_status_observation a input tid o).
Proof. unfold handle_status_observation. case_goal; auto. Qed.
Lemma reports_submit v a input h : reports (attempt_identity a) (submit_pass v a input h).
Proof.
  unfold submit_pass. apply reports_bind. intros request. case_decide; [auto|].
  repeat (apply reports_bind; intros). case_goal; auto using reports_error.
Qed.

(** C26: a restart resumes where the pass left off: if the replayed journal stands
    for the in-memory attempt before a pass, it stands for it after every pass
    that succeeds, whatever the venue answered.  The replayed attempt has the same stage,
    count and transaction, but for three cases: a request without a transaction identity
    replays as its reservation, a failure replays as its reservation or as a terminal failure
    with another backoff instant, and a confirmation with a blank transaction hash replays
    as ambiguous. *)
Theorem pass_replay_consistent v input w w' out :
  replay_stands_for (attempt_state (in_attempt input)) (replayed w (attempt_identity (in_attempt input))) →
  run_redemption_pass v input w = (w', Ok out) →
  attempt_identity (out_attempt out) = attempt_identity (in_attempt input)
  ∧ replay_stands_for (attempt_state (out_attempt out))
      (replayed w' (attempt_identity (in_attempt input))).
Proof.
  intros Hr H. unfold run_redemption_pass in H.
  set (ev := ResolvedWinnerBalanceObserved _ _ _) in H.
  destruct (advance (attempt_state (in_attempt input)) ev) as [s acts] eqn:Ea.
  set (a := {| attempt_identity := attempt_identity (in_attempt input); attempt_state := s |}) in H.
  destruct (advance_observe _ _ _ _ _ _ Ea) as [->|[-> Htid]].
  - destruct (advance_submit _ _ _ _ (default EmptyString (in_request_hash input)) Ea)
      as (now & b & [= <- <-] & _ & -> & _); [set_solver|].
    split; [by eapply (reports_submit v a)|by eapply (submit_pass_replay v _ _ _ a)].
  - destruct acts as [|[h|tid| | | |] acts]; try (injection H as <- <-; done).
    + destruct (advance_submit _ _ _ _ h Ea) as (now & b & _ & Hm & Hs & _); [set_solver|].
      by rewrite Hs in Hm.
    + apply stm_bind_Ok in H as (o & w1 & [= <- <-] & H).
      split; [by eapply (reports_observation a)|].
      eapply (status_pass_replay v a); [by eapply Htid| |exact H]. exact Hr.
Qed.

End DriverFacts.

(** ** Instances *)

(** A journal of bounded capacity: appends fail once it is full. *)
Definition bounded_append (a : AccountId) (t : @OffsetDateTime ZTime) (p : LiveJournalPayload) :
    stm (nat * list LiveJournalEvent) string LiveJournalEvent :=
  λ '(room, evs),
    match room with
    | O => ((O, evs), Err "full")
    | S room =>
        let ev := {| ev_account_id := a; ev_seq := Z.of_nat (length evs); ev_timestamp := t;
                     ev_payload := p |} in
        ((room, evs ++ [ev]), Ok ev)
    end.
#[export] Instance BoundedJournal : @LiveJournalOps ZTime QDecimal := {|
  Journal := nat * list LiveJournalEvent;
  JournalError := string;
  journal_events := snd;
  journal_append := bounded_append;
  http_attempt_hashes := λ evidence, Ok ((λ _, "h") <$> evidence)
|}.
#[export] Instance BoundedJournal_laws : @LiveJournalLaws ZTime QDecimal BoundedJournal.
Proof. split; intros a t p [[|room] evs] j' x; simpl; intros [= <- <-]; done. Qed.

Definition sample_identity : RedemptionAttemptIdentity := {|
  account_id := {| account_slug := "a" |}; id_condition := {| condition_id_str := "0xc" |};
  adapter := "0xAD"; id_custody_wallet := "0xCW" |}.
Definition sample_request : SignedRedemptionRequest := {|
  sr_call := {| call_to := "0xad"; call_calldata := [1; 2]; call_neg_risk := false;
                call_condition_id := {| condition_id_str := "0xc" |} |};
  sr_custody := DepositWallet; sr_signer_address := "0xs"; sr_custody_wallet := "0xcw";
  sr_nonce := "1"; sr_signature := "sig"; sr_deadline_unix := Some 100; sr_metadata := "m" |}.
Definition sample_venue : @Venue ZTime := {|
  submit_and_confirm := λ _, Err (TErrAmbiguousAfterSubmit (Some "tx") "body" [] "timeout");
  reconcile_transaction := λ _, Ok (StatusConfirmed "0xhash" []) |}.
Definition sample_input (s : @RedemptionAttemptState ZTime) : RedemptionPassInput := {|
  in_attempt := {| attempt_identity := sample_identity; attempt_state := s |};
  in_now := (5 : @OffsetDateTime ZTime); in_resolved_winner_redeemable := from_atomic 7;
  in_signed_request := Some sample_request; in_request_hash := Some "rh";
  in_retry_not_before_on_failure := (9 : @OffsetDateTime ZTime) |}.
Definition sample_world : @World ZTime QDecimal BoundedJournal :=
  {| w_journal := (10%nat, []); w_calls := [] |}.
Definition sample_pass : World * result RedemptionDriverError RedemptionPassResult :=
  run_redemption_pass sample_venue (sample_input (Idle 0)) sample_world.

Lemma submit_only_when_free_witness :
  ∃ now balance, @ResolvedWinnerBalanceObserved ZTime 5 (from_atomic 7) "rh"
    = ResolvedWinnerBalanceObserved now balance "rh" ∧ may_submit (Idle 0) now balance
    ∧ SubmissionReserved 1 (from_atomic 7) "rh" None
      = SubmissionReserved (saturating_add_u32 (@attempt_count ZTime (Idle 0)) 1) balance "rh" None
    ∧ [@SubmitOnce ZTime "rh"] = [SubmitOnce "rh"].
Proof.
  apply (submit_only_when_free (Idle 0) (ResolvedWinnerBalanceObserved (5 : @OffsetDateTime ZTime)
    (from_atomic 7) "rh")); [reflexivity|apply list_elem_of_here].
Defined.

Lemma no_submission_while_outstanding_witness :
  let r := advance_all (@SubmissionReserved ZTime 1 (from_atomic 7) "rh" (Some 100))
    [ResolvedWinnerBalanceObserved (99 : @OffsetDateTime ZTime) (from_atomic 7) "rh"; SubmissionAmbiguous (Some "tx") "body";
     ResolvedWinnerBalanceObserved (101 : @OffsetDateTime ZTime) (from_atomic 7) "rh"] in
  outstanding r.1 ∧ (∀ h, SubmitOnce h ∉ r.2)
  ∧ closes_new_buy_admission (redemption_posture r.1) = true.
Proof.
  apply (no_submission_while_outstanding (@SubmissionReserved ZTime 1 (from_atomic 7) "rh" (Some 100))).
  - exact I.
  - repeat (apply Forall_cons_2; [reflexivity|]). apply Forall_nil_2.
  - intros [|e1 [|e2 [|e3 [|e4 earlier]]]] e later Heq; inversion Heq; subst; reflexivity.
Defined.

Lemma admission_reopens_only_on_reconciliation_witness :
  closes_new_buy_admission (redemption_posture (Complete 1 "tx" "0xh" (6 : @OffsetDateTime ZTime)
    (from_atomic 0))) = false ∧ 0 < atomic (from_atomic 3).
Proof.
  destruct (admission_reopens_only_on_reconciliation
    (ConfirmedAwaitingBalance 1 "tx" "0xh" (5 : @OffsetDateTime ZTime))
    (BalanceReconciled (6 : @OffsetDateTime ZTime) (from_atomic 3) (from_atomic 0))
    _ _ eq_refl eq_refl) as [_ H]. apply (H (from_atomic 3)). apply list_elem_of_here.
Defined.

Lemma attempts_counted_witness :
  attempt_count (advance (@Idle ZTime U32_MAX) (ResolvedWinnerBalanceObserved
    (5 : @OffsetDateTime ZTime) (from_atomic 7) "rh")).1 = U32_MAX.
Proof.
  destruct (attempts_counted (@Idle ZTime U32_MAX) (ResolvedWinnerBalanceObserved
    (5 : @OffsetDateTime ZTime) (from_atomic 7) "rh") _ _ (surjective_pairing _)) as (_ & _ & H & _);
    [by vm_compute|]. rewrite (H "rh"); [reflexivity|apply list_elem_of_here].
Defined.

Lemma submission_follows_its_record_witness :
  w_calls sample_pass.1 ≠ []
  ∧ ∀ request published, SubmitCall request published ∈ w_calls sample_pass.1 →
      request_published sample_identity 1 request published.
Proof.
  split; [done|].
  destruct (submission_follows_its_record sample_venue (sample_input (Idle 0)) sample_world)
    as (new & Hc & _ & H).
  change (w_calls sample_pass.1 = [] ++ new) in Hc. rewrite app_nil_l in Hc. rewrite Hc.
  intros r p Hin. apply (H r p Hin).
Defined.

(** A confirmation with a blank hash is confirmed in memory, and ambiguous after a restart. *)
Definition blank_venue : @Venue ZTime := {|
  submit_and_confirm := λ _, Ok {| cf_transaction_id := "tx"; cf_transaction_hash := " "; cf_submit_body_hash := "body"; cf_evidence := [] |};
  reconcile_transaction := λ _, Ok (StatusPending []) |}.
Lemma blank_hash_replays_ambiguous :
  let '(w, r) := run_redemption_pass blank_venue (sample_input (Idle 0)) sample_world in
  (∃ out, r = Ok out ∧ attempt_state (out_attempt out) = ConfirmedAwaitingBalance 1 "tx" " " (5 : @OffsetDateTime ZTime))
  ∧ replayed w sample_identity = Some (Ambiguous 1 (Some "tx") "body").
Proof. cbn. split; [eexists; split; reflexivity|reflexivity]. Qed.

Lemma pass_replay_consistent_witness :
  replay_stands_for (Ambiguous 1 (Some "tx") "body") (replayed sample_pass.1 sample_identity).
Proof.
  destruct (pass_replay_consistent sample_venue (sample_input (Idle 0)) sample_world sample_pass.1
    {| out_attempt := {| attempt_identity := sample_identity;
                         attempt_state := Ambiguous 1 (Some "tx") "body" |};
       out_actions := [ReconcileExisting "tx"]; out_failure := Some TransportFailed |})
    as [_ H]; [reflexivity|reflexivity|exact H].
Defined.
