(* ===== verification/LiveJournal.v ===== *)
(** * The ordinary live journal (crates/execution-core/src/live_journal.rs, [LiveJournal])

    One event log carries the records of every live account.  The journal in memory
    publishes a record only after its frame is durable and decodes the way a replay
    would decode it; from a failed append on it refuses every call until a verified
    reopen.  Records of the first schema are converted, two kinds of them kept raw.
    The mutex around the journal makes its calls sequential. *)

From S2P Require Import Prelude CoreTypes Bytes LogFrame LogChain LogScanner LogWriter LogReader LogCrash RiskEngine WinnerFollow Fee Ladder CanaryTypes LiveTypes LiveAdmission RedemptionMachine.
#[local] Open Scope Z_scope.

Definition LIVE_JOURNAL_SOURCE : string := "ordinary-live-execution".
Definition LIVE_JOURNAL_SCHEMA_VERSION : Z := 2.
Definition LIVE_JOURNAL_PARSER_VERSION : Z := 1.

(** ** Schema one ([legacy_v1]) *)
Record LiveFeeEvidenceAuditV1 := {
  fv_gamma_fees_enabled : option JsonValue;
  fv_gamma_fee_schedule : option JsonValue;
  fv_gamma_maker_base_fee_bps : option JsonValue;
  fv_gamma_taker_base_fee_bps : option JsonValue;
  fv_clob_maker_base_fee_bps : option JsonValue;
  fv_clob_taker_base_fee_bps : option JsonValue
}.

Section Legacy.
Context `{TO : TimeOps} `{DO : DecimalOps}.

Record LiveAccountStateAuditV1 := {
  asv_observed_at : OffsetDateTime;
  asv_closed_only : bool;
  asv_geoblocked : bool;
  asv_selected_spender : string;
  asv_collateral_balance : CollateralAmount;
  asv_allowance : CollateralAmount;
  asv_reconciled_free_collateral : CollateralAmount;
  asv_schema_version : Z;
  asv_parser_version : Z;
  asv_evidence : list RawHttpAttempt;
  asv_evidence_hashes : list string
}.
Record LiveMarketEvidenceAuditV1 := {
  mav_condition_id : PolymarketConditionId;
  mav_ordered_outcome_token_ids : PolymarketTokenId * PolymarketTokenId;
  mav_neg_risk : bool;
  mav_minimum_tick_size : Price;
  mav_minimum_order_size : ShareAmount;
  mav_fee_evidence : LiveFeeEvidenceAuditV1;
  mav_raw_gamma_market_hash : string;
  mav_raw_clob_market_hash : string;
  mav_observed_at_unix : Z;
  mav_schema_version : Z;
  mav_parser_version : Z;
  mav_freshness_window_secs : Z
}.
Record LiveAdmissionArtifactAuditV1 := {
  aav_market : LiveMarketEvidenceAuditV1;
  aav_settlement : VenueSettlementRecord;
  aav_artifact_bundle_hash : string
}.
Record LadderPlanAuditV1 := {
  lpv_used_asks : list LadderAskAudit;
  lpv_best_ask : Price;
  lpv_limit_price : Price;
  lpv_shares : ShareAmount;
  lpv_estimated_ladder_spend : CollateralAmount;
  lpv_worst_case_debit : CollateralAmount;
  lpv_plan_hash : string
}.
Record LiveAdmissionEvaluationAuditV1 := {
  aev_identity : LiveOrderIdentity;
  aev_frozen_binding : CredentialBindingIdentity;
  aev_current_binding : CredentialBindingIdentity;
  aev_requested_mode : LiveControlMode;
  aev_effective_mode : LiveControlMode;
  aev_artifact : LiveAdmissionArtifactAuditV1;
  aev_ladder : LadderPlanAuditV1;
  aev_account_state : option LiveAccountStateAuditV1;
  aev_account_read_failure_evidence : list RawHttpAttempt;
  aev_account_read_failure_evidence_hashes : list string;
  aev_verdict : LiveAdmissionVerdict
}.
Record LiveOrderPreparedAuditV1 := {
  opv_identity : LiveOrderIdentity;
  opv_frozen_binding : CredentialBindingIdentity;
  opv_admission : LiveAdmissionArtifactAuditV1;
  opv_account_state : LiveAccountStateAuditV1;
  opv_ladder : LadderPlanAuditV1;
  opv_prepared : PreparedPolymarketBuy;
  opv_prepared_audit_hash : string
}.
Inductive LiveJournalPayloadV1 : Type :=
| AdmissionEvaluatedV1 (audit : LiveAdmissionEvaluationAuditV1)
| OrderPreparationFailedV1 (audit : LiveOrderPreparationFailedAudit)
| OrderPreparedV1 (audit : LiveOrderPreparedAuditV1)
| OrderPostedV1 (audit : LiveOrderPostAudit)
| OrderReconciledV1 (audit : LiveOrderReconciliationAudit)
| RedemptionRequestedV1 (audit : RedemptionRequestedAudit)
| RedemptionTransactionIdentifiedV1 (audit : RedemptionTransactionAudit)
| RedemptionReceiptTransitionV1 (audit : RedemptionReceiptAudit)
| CredentialBindingMismatchV1 (frozen current : CredentialBindingIdentity)
| ModeTransitionAppliedV1 (audit : LiveModeTransitionAudit).
Record LiveJournalEventV1 := {
  evv_account_id : AccountId;
  evv_seq : Z;
  evv_timestamp : OffsetDateTime;
  evv_payload : LiveJournalPayloadV1
}.

Definition convert_payload (p : LiveJournalPayloadV1) (raw_event : JsonValue) : LiveJournalPayload :=
  match p with
  | AdmissionEvaluatedV1 _ | OrderPreparedV1 _ => LegacyV1 raw_event
  | OrderPreparationFailedV1 value => OrderPreparationFailed value
  | OrderPostedV1 value => OrderPosted value
  | OrderReconciledV1 value => OrderReconciled value
  | RedemptionRequestedV1 value => RedemptionRequested value
  | RedemptionTransactionIdentifiedV1 value => RedemptionTransactionIdentified value
  | RedemptionReceiptTransitionV1 value => RedemptionReceiptTransition value
  | CredentialBindingMismatchV1 frozen current => CredentialBindingMismatch frozen current
  | ModeTransitionAppliedV1 value => ModeTransitionApplied value
  end.
Definition convert (event : LiveJournalEventV1) (raw_event : JsonValue) : LiveJournalEvent := {|
  ev_account_id := evv_account_id event; ev_seq := evv_seq event; ev_timestamp := evv_timestamp event;
  ev_payload := convert_payload (evv_payload event) raw_event
|}.
End Legacy.

(** serde_json at the types of the journal. *)
Class LiveJson `{TO : TimeOps} `{DO : DecimalOps} := {
  live_to_vec : LiveJournalEvent → result string (list Z);
  live_from_slice : list Z → result string LiveJournalEvent;
  legacy_from_slice : list Z → result string LiveJournalEventV1;
  legacy_from_value : JsonValue → result string LiveJournalEventV1;
  value_from_slice : list Z → result string JsonValue
}.
Class LiveJsonLaws `{TO : TimeOps} `{DO : DecimalOps} {EJ : LiveJson} : Prop := {
  live_json_roundtrip e bs : live_to_vec e = Ok bs → live_from_slice bs = Ok e
}.

Section Decoding.
Context `{TO : TimeOps} `{DO : DecimalOps} {EJ : LiveJson}.

(** [legacy_v1::prepared_order] *)
Definition prepared_order (raw_event : JsonValue) : result string (option (LiveOrderIdentity * string)) :=
  event ← legacy_from_value raw_event;
  Ok match evv_payload event with
     | OrderPreparedV1 prepared => Some (opv_identity prepared, pb_order_hash (opv_prepared prepared))
     | _ => None
     end.

(** *** [validate_control_event] *)
Definition decided_at (control : LiveControlObservation) (event : LiveJournalEvent) : bool :=
  lc_decided_at_unix control =? unix_timestamp (ev_timestamp event).
Definition opt_all {A} (f : A → bool) (o : option A) : bool := match o with Some a => f a | None => true end.
Definition opt_some {A} (f : A → bool) (o : option A) : bool := match o with Some a => f a | None => false end.
Definition failed_control_valid (failed : LiveOrderPreparationFailedAudit) : bool :=
  match pf_failure failed with
  | PrePostNotArmed => opt_some control_not_armed (pf_control failed)
  | PrePostControlUnavailable => opt_some control_unavailable (pf_control failed)
  | RecoveryAdmissionExpired => if decide (pf_control failed = None) then true else opt_some control_not_armed (pf_control failed)
  | _ => bool_decide (pf_control failed = None)
  end.
Definition control_event_valid (event : LiveJournalEvent) : bool :=
  match ev_payload event with
  | StagedDispatchControl staged =>
      staged_dispatch_valid staged
      && opt_some (λ first, bool_decide (st_account first = ev_account_id event)) (head (sd_targets staged))
      && forallb (λ target, decided_at (st_control target) event) (sd_targets staged)
  | PendingTargetControl target =>
      target_control_valid target && bool_decide (tc_account_id target = ev_account_id event)
      && decided_at (tc_control target) event
  | ApprovedRecoveryControlPause target =>
      target_control_valid target && bool_decide (tc_outcome target = ControlPause)
      && bool_decide (tc_account_id target = ev_account_id event) && decided_at (tc_control target) event
  | OrderPreparationFailed failed =>
      failed_control_valid failed && opt_all (λ control, decided_at control event) (pf_control failed)
  | _ => true
  end.
Definition validate_control_event (event : LiveJournalEvent) : result LiveJournalError unit :=
  if control_event_valid event then Ok tt else Err InvalidControlEvidence.

(** *** [decode_record] *)
Definition record_envelope (e : EventEnvelope) : bool :=
  bool_decide (env_source_id e = LIVE_JOURNAL_SOURCE)
  && ((env_schema_version e =? 1) || (env_schema_version e =? LIVE_JOURNAL_SCHEMA_VERSION))
  && (env_parser_version e =? LIVE_JOURNAL_PARSER_VERSION) && bool_decide (env_content_type e = JsonContent).
Definition decode_payload (e : EventEnvelope) : result LiveJournalError LiveJournalEvent :=
  map_err LiveEncoding
    (if env_schema_version e =? 1 then
       raw_event ← value_from_slice (env_payload e);
       legacy ← legacy_from_slice (env_payload e);
       Ok (convert legacy raw_event)
     else live_from_slice (env_payload e)).
Definition decode_record (e : EventEnvelope) (expected : Z) : result LiveJournalError LiveJournalEvent :=
  if negb (record_envelope e) then Err UnexpectedEnvelope
  else
    event ← decode_payload e;
    if negb (event_seq (env_seq e) =? expected) || negb (ev_seq event =? expected)
       || bool_decide (ev_timestamp event ≠ source_timestamp (env_observed_at e))
    then Err SequenceMismatch
    else _ ← validate_control_event event; Ok event.
Fixpoint decode_from (expected : Z) (es : list EventEnvelope) : result LiveJournalError (list LiveJournalEvent) :=
  match es with
  | [] => Ok []
  | e :: es => event ← decode_record e expected; events ← decode_from (expected + 1) es; Ok (event :: events)
  end.
End Decoding.

Section Storage.
Context `{TO : TimeOps} `{DO : DecimalOps} {B3 : Blake3} {LJ : LogJson} {ZS : Zstd} {DV : LogDevice} {EJ : LiveJson}.

(** ** The journal in memory *)
Record LiveJournalInner := {
  li_writer : Writer;
  li_last_hash : Hash;
  li_records : list LiveJournalEvent;
  li_pending_controls : gmap (string * string) (list nat);
  li_approved_pauses : gmap (string * string) (list nat);
  li_unpublished : bool
}.
Definition control_key (account : AccountId) (dispatch_id : string) : string * string := (account_slug account, dispatch_id).
Definition push_index (k : string * string) (n : nat) (m : gmap (string * string) (list nat)) : gmap (string * string) (list nat) :=
  <[k := default [] (m !! k) ++ [n]]> m.
Definition publish (record : LiveJournalEvent) (s : LiveJournalInner) : LiveJournalInner :=
  let index := length (li_records s) in
  {| li_writer := li_writer s; li_last_hash := li_last_hash s; li_records := li_records s ++ [record];
     li_pending_controls :=
       match ev_payload record with
       | PendingTargetControl audit =>
           push_index (control_key (ev_account_id record) (tc_dispatch_id audit)) index (li_pending_controls s)
       | _ => li_pending_controls s
       end;
     li_approved_pauses :=
       match ev_payload record with
       | ApprovedRecoveryControlPause audit =>
           push_index (control_key (ev_account_id record) (tc_dispatch_id audit)) index (li_approved_pauses s)
       | _ => li_approved_pauses s
       end;
     li_unpublished := li_unpublished s |}.
Definition control_audit (event : LiveJournalEvent) : option LiveTargetControlAudit :=
  match ev_payload event with
  | PendingTargetControl audit | ApprovedRecoveryControlPause audit => Some audit
  | _ => None
  end.
Definition control_audits (s : LiveJournalInner) (index : option (list nat)) : list LiveTargetControlAudit :=
  omap (λ n, li_records s !! n ≫= control_audit) (default [] index).

(** ** Opening *)
Definition live_path_secure (p : JournalPath) : result LiveJournalError unit :=
  match jp_metadata p with
  | Ok m => if meta_is_symlink m || negb (Z.land (meta_mode m) 511 =? 384) then Err InsecurePermissions else Ok tt
  | Err e => map_err LiveIo (if decide (io_kind e = NotFound) then jp_create_new p else Err e)
  end.
Definition live_log {S A} (m : stm S LogError A) : stm S LiveJournalError A :=
  λ s, let '(s', x) := m s in (s', map_err LiveEventLog x).
Definition fresh_inner (w : Writer) (last_hash : Hash) : LiveJournalInner := {|
  li_writer := w; li_last_hash := last_hash; li_records := []; li_pending_controls := ∅; li_approved_pauses := ∅;
  li_unpublished := false
|}.
(** The scan of the open shows every verified frame to the decoder; a decoding error
    is returned only after the writer opened. *)
Definition live_open (p : JournalPath) : stm Device LiveJournalError LiveJournalInner :=
  _ ← stm_lift (live_path_secure p);
  d ← stm_get;
  '(writer, binding) ← live_log (open_verified (jp_env p) None);
  records ← stm_lift (decode_from 0 (observed (jp_env p) d));
  mret (foldl (λ s r, publish r s) (fresh_inner writer (tb_last_hash binding)) records).

(** ** Calls *)
Definition with_published {A} (f : stm LiveJournalInner LiveJournalError A) : stm LiveJournalInner LiveJournalError A :=
  λ s, match w_poison_reason (li_writer s) with
       | Some reason => (s, Err (LiveEventLog (Poisoned reason)))
       | None => if li_unpublished s then (s, Err Unpublished) else f s
       end.
Definition reads {A} (f : LiveJournalInner → A) : stm LiveJournalInner LiveJournalError A := λ s, (s, Ok (f s)).
Definition records_from (next : Z) : stm LiveJournalInner LiveJournalError (list LiveJournalEvent) :=
  with_published (reads (λ s, drop (Z.to_nat next) (li_records s))).
Definition staged_for (dispatch_id : string) (event : LiveJournalEvent) : option LiveStagedDispatchControlAudit :=
  match ev_payload event with
  | StagedDispatchControl audit => if decide (sd_dispatch_id audit = dispatch_id) then Some audit else None
  | _ => None
  end.
Definition staged_dispatch_control (seq : Z) (dispatch_id : string) :
    stm LiveJournalInner LiveJournalError (option LiveStagedDispatchControlAudit) :=
  with_published (reads (λ s, li_records s !! Z.to_nat seq ≫= staged_for dispatch_id)).
Definition pending_target_controls (account_id : AccountId) (dispatch_id : string) :
    stm LiveJournalInner LiveJournalError (list LiveTargetControlAudit) :=
  with_published (reads (λ s, control_audits s (li_pending_controls s !! control_key account_id dispatch_id))).
Definition last_approved_recovery_pause (account_id : AccountId) (dispatch_id : string) :
    stm LiveJournalInner LiveJournalError (option LiveTargetControlAudit) :=
  with_published (reads (λ s, last (control_audits s (li_approved_pauses s !! control_key account_id dispatch_id)))).
Definition poisoned : stm LiveJournalInner LiveJournalError (option PoisonReason) :=
  λ s, (s, match w_poison_reason (li_writer s) with
           | Some reason => Ok (Some reason)
           | None => if li_unpublished s then Err Unpublished else Ok None
           end).

(** *** [append] *)
Definition record_in (timestamp : OffsetDateTime) (payload : list Z) : EnvelopeIn := {|
  in_source_id := LIVE_JOURNAL_SOURCE; in_schema_version := LIVE_JOURNAL_SCHEMA_VERSION;
  in_parser_version := LIVE_JOURNAL_PARSER_VERSION; in_observed_at := {| source_timestamp := timestamp |};
  in_received_at := {| received_at_time := timestamp |}; in_content_type := JsonContent; in_payload := payload
|}.
Definition written_record (s : LiveJournalInner) (timestamp : OffsetDateTime) (payload : list Z) (receipt : AppendReceipt) :
    EventEnvelope := {|
  env_seq := receipt_sequence receipt; env_source_id := LIVE_JOURNAL_SOURCE;
  env_schema_version := LIVE_JOURNAL_SCHEMA_VERSION; env_parser_version := LIVE_JOURNAL_PARSER_VERSION;
  env_observed_at := {| source_timestamp := timestamp |}; env_received_at := {| received_at_time := timestamp |};
  env_content_type := JsonContent; env_raw_payload_hash := blake3 payload; env_prev_hash := li_last_hash s;
  env_this_hash := receipt_this_hash receipt; env_payload := payload
|}.
Definition with_writer (w : Writer) (last_hash : Hash) (unpublished : bool) (s : LiveJournalInner) : LiveJournalInner := {|
  li_writer := w; li_last_hash := last_hash; li_records := li_records s; li_pending_controls := li_pending_controls s;
  li_approved_pauses := li_approved_pauses s; li_unpublished := unpublished
|}.
(** [unpublished] is set before the write and cleared only once the record is published. *)
Definition append_record (timestamp : OffsetDateTime) (payload : list Z) : stm LiveJournalInner LiveJournalError LiveJournalEvent :=
  λ s, match append_synced (record_in timestamp payload) (li_writer s) with
       | (w, Err e) => (with_writer w (li_last_hash s) true s, Err (LiveEventLog e))
       | (w, Ok receipt) =>
           match decode_record (written_record s timestamp payload receipt) (Z.of_nat (length (li_records s))) with
           | Err e => (with_writer w (li_last_hash s) true s, Err e)
           | Ok decoded => (with_writer w (receipt_this_hash receipt) false (publish decoded s), Ok decoded)
           end
       end.
Definition live_append (account_id : AccountId) (timestamp : OffsetDateTime) (payload : LiveJournalPayload) :
    stm LiveJournalInner LiveJournalError LiveJournalEvent :=
  with_published (λ s,
    let event := {| ev_account_id := account_id; ev_seq := Z.of_nat (length (li_records s)); ev_timestamp := timestamp;
                    ev_payload := payload |} in
    match live_to_vec event with
    | Err e => (s, Err (LiveEncoding e))
    | Ok bytes => append_record timestamp bytes s
    end).

(** ** Replays of the file

    The option is the fuel of the scan, which never runs out. *)
Abbreviation Replayed := (list (LiveJournalEvent * AppendReceipt)).
Fixpoint replay_items (last_sequence : option EventSeq) (events : Replayed)
    (items : list (result LogError (Z * EventSeq * EventEnvelope))) : result LiveJournalError Replayed :=
  match items with
  | [] => Ok events
  | x :: items =>
      '(_, seq, envelope) ← map_err LiveEventLog x;
      if opt_some (λ last, event_seq last <? event_seq seq) last_sequence then Ok events
      else if bool_decide (seq ≠ env_seq envelope) then Err SequenceMismatch
      else
        event ← decode_record envelope (Z.of_nat (length events));
        replay_items last_sequence
          (events ++ [(event, {| receipt_sequence := seq; receipt_this_hash := env_this_hash envelope |})]) items
  end.
Definition last_receipt (events : Replayed) : option AppendReceipt := snd <$> last events.
Definition replay_with_receipts (f : LogFile) (last_sequence : option EventSeq) : option (result LiveJournalError Replayed) :=
  x ← replay_with_offsets f;
  Some (it ← map_err LiveEventLog x;
        events ← replay_items last_sequence [] (LogReader.replayed it);
        if opt_some (λ last, bool_decide (receipt_sequence <$> last_receipt events ≠ Some last)) last_sequence
        then Err SequenceMismatch else Ok events).
Definition on_events {A B} (f : A → B) (r : result LiveJournalError A) : result LiveJournalError B := a ← r; Ok (f a).
Definition replay_all (f : LogFile) : option (result LiveJournalError (list LiveJournalEvent)) :=
  on_events (λ events : Replayed, events.*1) <$> replay_with_receipts f None.
Definition replay_prefix (f : LogFile) (last_sequence : EventSeq) : option (result LiveJournalError (list LiveJournalEvent)) :=
  on_events (λ events : Replayed, events.*1) <$> replay_with_receipts f (Some last_sequence).
Definition replay_account (f : LogFile) (account_id : AccountId) : option (result LiveJournalError (list LiveJournalEvent)) :=
  on_events (filter (λ event, ev_account_id event = account_id)) <$> replay_all f.
Definition staged_dispatch_control_at (f : LogFile) (seq : Z) (dispatch_id : string) :
    option (result LiveJournalError (option LiveStagedDispatchControlAudit)) :=
  on_events (λ events, (list_find (λ event, ev_seq event = seq) events) ≫= λ x, staged_for dispatch_id x.2) <$> replay_all f.
Definition verified_tail_of (f : LogFile) : option (result LiveJournalError LogTailBinding) :=
  events ← replay_all f;
  binding ← scanner_verify f;
  Some (events ← events;
        binding ← map_err LiveEventLog binding;
        actual ← match tb_last_sequence binding with
                 | None => Ok 0
                 | Some sequence => ok_or (checked_add_u64 (event_seq sequence) 1) SequenceMismatch
                 end;
        if negb (Z.of_nat (length events) =? actual) then Err SequenceMismatch else Ok binding).

(** *** Account tails *)
Record LiveJournalTail := {
  lt_last_sequence : option EventSeq;
  lt_last_hash : Hash;
  lt_scanned_prefix_last_sequence : option EventSeq;
  lt_scanned_prefix_last_hash : Hash
}.
Definition receipt_pair (r : option AppendReceipt) : option EventSeq * Hash :=
  match r with Some r => (Some (receipt_sequence r), receipt_this_hash r) | None => (None, genesis_hash) end.
Definition account_receipt (account_id : AccountId) (events : Replayed) : option AppendReceipt :=
  last_receipt (filter (λ x, ev_account_id x.1 = account_id) events).
Definition replay_account_with_tail (f : LogFile) (account_id : AccountId) :
    option (result LiveJournalError (list LiveJournalEvent * LiveJournalTail)) :=
  on_events (λ events : Replayed,
    (filter (λ event, ev_account_id event = account_id) events.*1,
     {| lt_last_sequence := (receipt_pair (account_receipt account_id events)).1;
        lt_last_hash := (receipt_pair (account_receipt account_id events)).2;
        lt_scanned_prefix_last_sequence := (receipt_pair (last_receipt events)).1;
        lt_scanned_prefix_last_hash := (receipt_pair (last_receipt events)).2 |}))
  <$> replay_with_receipts f None.
(** The length of the recorded prefix. *)
Definition checkpoint_prefix (events : Replayed) (checkpoint : LiveJournalTail) : result LiveJournalError nat :=
  match lt_scanned_prefix_last_sequence checkpoint with
  | None => if bool_decide (lt_scanned_prefix_last_hash checkpoint ≠ genesis_hash) then Err SequenceMismatch else Ok O
  | Some last_sequence =>
      prefix_len ← ok_or (checked_add_u64 (event_seq last_sequence) 1) SequenceMismatch;
      '(_, receipt) ← ok_or (events !! Z.to_nat (prefix_len - 1)) SequenceMismatch;
      if bool_decide (receipt_sequence receipt ≠ last_sequence)
         || bool_decide (receipt_this_hash receipt ≠ lt_scanned_prefix_last_hash checkpoint)
      then Err SequenceMismatch else Ok (Z.to_nat prefix_len)
  end.
Definition verify_account_tail_checkpoint (f : LogFile) (account_id : AccountId) (checkpoint : LiveJournalTail) :
    option (result LiveJournalError unit) :=
  events ← replay_with_receipts f None;
  Some (events ← events;
        prefix_len ← checkpoint_prefix events checkpoint;
        if (length events <? prefix_len)%nat then Err SequenceMismatch
        else if bool_decide (receipt_pair (account_receipt account_id (take prefix_len events))
                             ≠ (lt_last_sequence checkpoint, lt_last_hash checkpoint))
        then Err SequenceMismatch else Ok tt).
End Storage.

(** ** Facts *)
Section StorageFacts.
Context `{TO : TimeOps} `{DO : DecimalOps} {B3 : Blake3} {LJ : LogJson} {ZS : Zstd} {DV : LogDevice} {EJ : LiveJson}.
Context {BL : Blake3Laws} {LL : LogJsonLaws} {ZL : ZstdLaws} {DL : LogDeviceLaws} {CL : LogDeviceCrashLaws} {JL : LiveJsonLaws}.

(** *** Decoding *)
Lemma decode_from_app n es e l : decode_from n es = Ok l →
  decode_from n (es ++ [e]) = (ev ← decode_record e (n + Z.of_nat (length es)); Ok (l ++ [ev])).
Proof.
  revert n l. induction es as [|e' es IH]; intros n l; cbn [decode_from app length].
  { intros [= <-]. rewrite Z.add_0_r. by destruct (decode_record e n). }
  intros (ev & -> & H)%result_bind_Ok. apply result_bind_Ok in H as (evs & Hes & [= <-]).
  cbn [mbind result_mbind]. rewrite (IH _ _ Hes). replace (n + 1 + Z.of_nat (length es)) with (n + Z.of_nat (S (length es))) by lia.
  by destruct (decode_record e _).
Qed.
Lemma decode_from_length n es l : decode_from n es = Ok l → length l = length es.
Proof.
  revert n l. induction es as [|e es IH]; intros n l; cbn [decode_from]; [by intros [= <-]|].
  intros (ev & _ & H)%result_bind_Ok. apply result_bind_Ok in H as (evs & Hes%IH & [= <-]). simpl. by rewrite Hes.
Qed.
Lemma decode_record_seq e n ev : decode_record e n = Ok ev → ev_seq ev = n ∧ event_seq (env_seq e) = n.
Proof.
  unfold decode_record. destruct (negb _); [done|]. intros (ev' & _ & H)%result_bind_Ok. destruct (_ || _) eqn:E; [done|].
  apply result_bind_Ok in H as ([] & _ & [= <-]). apply orb_false_iff in E as [[E1 E2]%orb_false_iff _].
  apply negb_false_iff, Z.eqb_eq in E1, E2. done.
Qed.
Lemma decode_from_lookup n es l k ev : decode_from n es = Ok l → l !! k = Some ev → ev_seq ev = n + Z.of_nat k.
Proof.
  revert n l k. induction es as [|e es IH]; intros n l k; cbn [decode_from]; [by intros [= <-]|].
  intros (ev' & He & H)%result_bind_Ok. apply result_bind_Ok in H as (evs & Hes & [= <-]).
  destruct k as [|k]; simpl.
  - intros [= <-]. apply decode_record_seq in He as [-> _]. lia.
  - intros Hk. rewrite (IH _ _ _ Hes Hk). lia.
Qed.

(** A record the journal wrote decodes to itself when its control facts are valid. *)
Lemma decode_written event bytes e : live_to_vec event = Ok bytes → env_payload e = bytes →
  env_source_id e = LIVE_JOURNAL_SOURCE → env_schema_version e = LIVE_JOURNAL_SCHEMA_VERSION →
  env_parser_version e = LIVE_JOURNAL_PARSER_VERSION → env_content_type e = JsonContent →
  source_timestamp (env_observed_at e) = ev_timestamp event → event_seq (env_seq e) = ev_seq event →
  decode_record e (ev_seq event) = if control_event_valid event then Ok event else Err InvalidControlEvidence.
Proof.
  intros Hv%live_json_roundtrip Hp Hs Hsv Hpv Hc Ht Hq. unfold decode_record, record_envelope, decode_payload.
  rewrite Hs, Hsv, Hpv, Hc, Hp, Hv, Ht, Hq, Z.eqb_refl. rewrite !bool_decide_eq_true_2 by done. simpl.
  rewrite Z.eqb_refl, bool_decide_eq_false_2 by naive_solver. simpl. unfold validate_control_event.
  by destruct (control_event_valid event).
Qed.

(** *** Indexes *)
Definition pending_control (event : LiveJournalEvent) : option LiveTargetControlAudit :=
  match ev_payload event with PendingTargetControl audit => Some audit | _ => None end.
Definition approved_pause (event : LiveJournalEvent) : option LiveTargetControlAudit :=
  match ev_payload event with ApprovedRecoveryControlPause audit => Some audit | _ => None end.
(** The audits of one account and dispatch, read off the records. *)
Definition select (sel : LiveJournalEvent → option LiveTargetControlAudit) (k : string * string) (event : LiveJournalEvent) :
    option LiveTargetControlAudit :=
  audit ← sel event; if decide (control_key (ev_account_id event) (tc_dispatch_id audit) = k) then Some audit else None.
Definition index_of (sel : LiveJournalEvent → option LiveTargetControlAudit) (m : gmap (string * string) (list nat))
    (records : list LiveJournalEvent) : Prop :=
  ∀ k, Forall (λ n, (n < length records)%nat) (default [] (m !! k))
       ∧ omap (λ n, records !! n ≫= control_audit) (default [] (m !! k)) = omap (select sel k) records.

Lemma omap_snoc_lookup (records : list LiveJournalEvent) event (ns : list nat) :
  Forall (λ n, (n < length records)%nat) ns →
  omap (λ n, (records ++ [event]) !! n ≫= control_audit) ns = omap (λ n, records !! n ≫= control_audit) ns.
Proof.
  induction 1 as [|n ns Hn _ IH]; [done|]. cbn [omap list_omap]. rewrite lookup_app_l by done.
  destruct (records !! n ≫= control_audit); by rewrite IH.
Qed.
Lemma index_of_snoc sel m records event :
  (∀ audit, sel event = Some audit → control_audit event = Some audit) → index_of sel m records →
  index_of sel (match sel event with
                | Some audit => push_index (control_key (ev_account_id event) (tc_dispatch_id audit)) (length records) m
                | None => m
                end) (records ++ [event]).
Proof.
  intros Hsel Hm k. destruct (Hm k) as [Hlt Heq]. rewrite omap_app. cbn [omap list_omap]. unfold select at 2.
  assert (Forall (λ n, (n < length (records ++ [event]))%nat) (default [] (m !! k))) as Hlt'.
  { eapply Forall_impl; [exact Hlt|]. intros n Hn. rewrite length_app. simpl in *. lia. }
  destruct (sel event) as [audit|] eqn:Hs; simpl.
  2:{ rewrite app_nil_r. split; [done|]. by rewrite omap_snoc_lookup. }
  unfold push_index. case_decide as Hk.
  - subst k. rewrite lookup_insert_eq. simpl. split.
    + apply Forall_app. split; [done|]. rewrite Forall_singleton, length_app. simpl. lia.
    + rewrite omap_app, omap_snoc_lookup, Heq by done. f_equal. cbn [omap list_omap].
      rewrite lookup_app_r, Nat.sub_diag by done. simpl. by rewrite (Hsel _ eq_refl).
  - rewrite lookup_insert_ne by done. rewrite app_nil_r. split; [done|]. by rewrite omap_snoc_lookup.
Qed.

(** *** The invariant *)
Definition accepting (s : LiveJournalInner) : bool :=
  bool_decide (w_poison_reason (li_writer s) = None) && negb (li_unpublished s).
Definition durable_log (s : LiveJournalInner) : list Z := dev_durable (w_inner (li_writer s)).
Record live_inv (s : LiveJournalInner) : Prop := {
  inv_pending : index_of pending_control (li_pending_controls s) (li_records s);
  inv_pauses : index_of approved_pause (li_approved_pauses s) (li_records s);
  inv_log : if accepting s
    then ∃ es, complete_log (li_writer s) es ∧ decode_from 0 es = Ok (li_records s)
    else ∃ es extra, holds_log (durable_log s) (es ++ extra) ∧ decode_from 0 es = Ok (li_records s)
                     ∧ (length extra ≤ 1)%nat
}.
Lemma publish_indexes event s :
  index_of pending_control (li_pending_controls s) (li_records s) →
  index_of approved_pause (li_approved_pauses s) (li_records s) →
  index_of pending_control (li_pending_controls (publish event s)) (li_records (publish event s))
  ∧ index_of approved_pause (li_approved_pauses (publish event s)) (li_records (publish event s)).
Proof.
  intros Hp Ha. pose proof (λ h, index_of_snoc pending_control _ _ event h Hp) as H1.
  pose proof (λ h, index_of_snoc approved_pause _ _ event h Ha) as H2.
  cbn [publish li_pending_controls li_approved_pauses li_records].
  unfold pending_control, approved_pause, control_audit in *. cbv beta in H1, H2.
  destruct (ev_payload event) eqn:E; (split; [apply H1|apply H2]); congruence.
Qed.

Lemma blocked_call {A} (f : stm LiveJournalInner LiveJournalError A) s : accepting s = false →
  ∃ e, with_published f s = (s, Err e).
Proof.
  unfold accepting, with_published. destruct (w_poison_reason _) eqn:Hp; [by eexists|].
  rewrite bool_decide_eq_true_2 by done. destruct (li_unpublished s); [by eexists|done].
Qed.
Lemma accepting_call {A} (f : stm LiveJournalInner LiveJournalError A) s : accepting s = true → with_published f s = f s.
Proof.
  unfold accepting, with_published. intros [Hp%bool_decide_eq_true Hu%negb_true_iff]%andb_true_iff. by rewrite Hp, Hu.
Qed.

(** *** Appending *)
Definition new_event (s : LiveJournalInner) (account_id : AccountId) (timestamp : OffsetDateTime) (payload : LiveJournalPayload) :
    LiveJournalEvent := {|
  ev_account_id := account_id; ev_seq := Z.of_nat (length (li_records s)); ev_timestamp := timestamp; ev_payload := payload
|}.
Lemma inv_accepting s : live_inv s → accepting s = true → ∃ es, complete_log (li_writer s) es ∧ decode_from 0 es = Ok (li_records s).
Proof. intros [_ _ H] Ha. by rewrite Ha in H. Qed.
Lemma accepting_healthy s : accepting s = true → w_poison_reason (li_writer s) = None.
Proof. by intros [H%bool_decide_eq_true _]%andb_true_iff. Qed.
Lemma blocked_with w h s : accepting (with_writer w h true s) = false.
Proof. unfold accepting. simpl. by rewrite andb_false_r. Qed.

(** What a failed append leaves. *)
Definition left_by (event : LiveJournalEvent) (records : list LiveJournalEvent) (bytes : list Z) : Prop :=
  ∃ es extra, holds_log bytes (es ++ extra) ∧ decode_from 0 es = Ok records
    ∧ (extra = [] ∨ ∃ e, extra = [e]
         ∧ decode_record e (ev_seq event) = if control_event_valid event then Ok event else Err InvalidControlEvidence).
Lemma blocked_state w event s : live_inv s → accepting s = true →
  left_by event (li_records s) (dev_durable (w_inner w)) →
  let s' := with_writer w (li_last_hash s) true s in
  live_inv s' ∧ accepting s' = false ∧ li_records s' = li_records s ∧ left_by event (li_records s) (durable_log s').
Proof.
  intros Hi _ H s'. split; [|split_and!; [apply blocked_with|done|done]]. split; [apply Hi..|]. unfold s'. rewrite blocked_with.
  destruct H as (es & extra & Hh & Hd & He). exists es, extra. split_and!; [done|done|].
  destruct He as [->|(e & -> & _)]; simpl; lia.
Qed.

(** The outcomes of an append of an accepting journal. *)
Lemma append_record_cases s event bytes s' x : live_inv s → accepting s = true →
  event = new_event s (ev_account_id event) (ev_timestamp event) (ev_payload event) → live_to_vec event = Ok bytes →
  append_record (ev_timestamp event) bytes s = (s', x) →
  live_inv s' ∧
  match x with
  | Ok ev => ev = event ∧ control_event_valid event = true ∧ accepting s' = true ∧ li_records s' = li_records s ++ [event]
  | Err _ => accepting s' = false ∧ li_records s' = li_records s ∧ left_by event (li_records s) (durable_log s')
  end.
Proof.
  intros Hi Ha Hev Hv. destruct (inv_accepting s Hi Ha) as (es & Hc & Hd). pose proof (accepting_healthy s Ha) as Hp.
  pose proof (decode_from_length _ _ _ Hd) as Hlen. pose proof (complete_log_length _ _ Hc) as Hseq.
  assert (ev_seq event = Z.of_nat (length es)) as Hq by (rewrite Hev; simpl; by rewrite Hlen).
  unfold append_record. destruct (append_synced _ _) as [w1 x1] eqn:E.
  pose proof (append_synced_cases _ _ _ _ _ Hp Hc E) as H. clear E.
  assert (∀ raw this, decode_record (append_envelope (li_writer s) (record_in (ev_timestamp event) bytes) raw this) (ev_seq event)
            = if control_event_valid event then Ok event else Err InvalidControlEvidence) as Hdec.
  { intros raw this. eapply decode_written; try done. simpl. by rewrite Hseq, Hq. }
  destruct x1 as [receipt|e].
  - destruct H as (Hp1 & Hrs & Hrh & raw & this & Hc').
    assert (decode_record (written_record s (ev_timestamp event) bytes receipt) (Z.of_nat (length (li_records s)))
            = if control_event_valid event then Ok event else Err InvalidControlEvidence) as ->.
    { rewrite Hlen, <- Hq. eapply decode_written; try done. simpl. by rewrite Hrs, Hq, Hseq. }
    destruct (control_event_valid event) eqn:Hvalid; intros [= <- <-].
    + assert (accepting (with_writer w1 (receipt_this_hash receipt) false (publish event s)) = true) as Hacc
        by (unfold accepting; simpl; by rewrite bool_decide_eq_true_2).
      split; [|done]. destruct (publish_indexes event s (inv_pending _ Hi) (inv_pauses _ Hi)) as [I1 I2].
      split; [done..|]. rewrite Hacc. eexists. split; [exact Hc'|].
      rewrite (decode_from_app _ _ _ _ Hd), Z.add_0_l, <- Hq, Hdec. done.
    + apply blocked_state; [done|done|]. exists es, [append_envelope (li_writer s) (record_in (ev_timestamp event) bytes) raw this].
      split_and!; [by apply complete_log_holds|done|]. right. eexists. split; [done|]. by rewrite Hvalid, Hdec.
  - intros [= <- <-]. apply blocked_state; [done|done|].
    destruct H as [-> |[_ [H|(raw & this & H)]]].
    + exists es, []. rewrite app_nil_r. split_and!; [by apply complete_log_holds|done|by left].
    + exists es, []. rewrite app_nil_r. split_and!; [done|done|by left].
    + eexists es, [_]. split_and!; [done|done|]. right. eexists. split; [done|]. apply Hdec.
Qed.
Lemma live_append_cases account timestamp payload s s' x : live_inv s → live_append account timestamp payload s = (s', x) →
  live_inv s' ∧
  match x with
  | Ok ev => ev = new_event s account timestamp payload ∧ control_event_valid ev = true ∧ accepting s = true
             ∧ accepting s' = true ∧ li_records s' = li_records s ++ [ev]
  | Err _ => li_records s' = li_records s
             ∧ (s' = s ∨ (accepting s' = false
                          ∧ left_by (new_event s account timestamp payload) (li_records s) (durable_log s')))
  end.
Proof.
  intros Hi H. unfold live_append in H. destruct (accepting s) eqn:Ha.
  2:{ match type of H with with_published ?f s = _ => destruct (blocked_call f s Ha) as [e He] end.
      rewrite He in H. injection H as <- <-. split; [done|]. split; [done|by left]. }
  rewrite accepting_call in H by done. fold (new_event s account timestamp payload) in H.
  destruct (live_to_vec _) as [bytes|e] eqn:Hv; [|injection H as <- <-; split; [done|split; [done|by left]]].
  destruct (append_record_cases s (new_event s account timestamp payload) bytes s' x Hi Ha eq_refl Hv H) as [Hi' Hx].
  split; [done|]. destruct x as [ev|e].
  - destruct Hx as (-> & ? & ? & ?). done.
  - destruct Hx as (? & ? & ?). split; [done|by right].
Qed.

(** C6: An append publishes exactly what is durable.  A returned record carries the given account,
    time and payload under the next sequence, has valid control facts, and is published with its frame
    durable; an append that fails publishes nothing and either changed nothing at all or leaves the
    journal refusing every call.  Whatever happens, the file's complete frames decode to the published
    records, with at most one undecoded or unpublished frame after them. *)
Theorem append_publishes_durable account timestamp payload s s' x : live_inv s →
  live_append account timestamp payload s = (s', x) →
  live_inv s'
  ∧ match x with
    | Ok ev => ev = new_event s account timestamp payload ∧ control_event_valid ev = true
               ∧ li_records s' = li_records s ++ [ev] ∧ accepting s' = true
               ∧ decode_from 0 (log_envelopes (durable_log s')) = Ok (li_records s ++ [ev])
    | Err _ => li_records s' = li_records s
               ∧ (s' = s ∨ ∀ A (f : stm LiveJournalInner LiveJournalError A), ∃ e, with_published f s' = (s', Err e))
    end
  ∧ ∃ es extra, log_envelopes (durable_log s') = es ++ extra ∧ decode_from 0 es = Ok (li_records s') ∧ (length extra ≤ 1)%nat.
Proof.
  intros Hi H. destruct (live_append_cases _ _ _ _ _ _ Hi H) as [Hi' Hx]. split; [done|]. split.
  - destruct x as [ev|e].
    + destruct Hx as (-> & Hv & Ha & Ha' & Hr). split_and!; try done.
      destruct (inv_accepting s' Hi' Ha') as (es & Hc & Hd). rewrite Hr in Hd.
      rewrite (holds_log_envelopes _ es); [done|]. by apply complete_log_holds.
    + destruct Hx as [Hr [->|[Ha _]]]; split; try done; [by left|]. right. intros A f. by apply blocked_call.
  - pose proof (inv_log _ Hi') as Hl. destruct (accepting s').
    + destruct Hl as (es & Hc & Hd). exists es, []. rewrite app_nil_r. split_and!; [|done|simpl; lia].
      by apply holds_log_envelopes, complete_log_holds.
    + destruct Hl as (es & extra & Hh & Hd & Hle). exists es, extra. split_and!; [by apply holds_log_envelopes|done|done].
Qed.

(** *** Opening *)
Lemma foldl_publish records s :
  index_of pending_control (li_pending_controls s) (li_records s) →
  index_of approved_pause (li_approved_pauses s) (li_records s) →
  let s' := foldl (λ s r, publish r s) s records in
  li_records s' = li_records s ++ records ∧ li_writer s' = li_writer s ∧ li_unpublished s' = li_unpublished s
  ∧ index_of pending_control (li_pending_controls s') (li_records s')
  ∧ index_of approved_pause (li_approved_pauses s') (li_records s').
Proof.
  revert s. induction records as [|r records IH]; intros s H1 H2 s'.
  { unfold s'. simpl. by rewrite app_nil_r. }
  destruct (publish_indexes r s H1 H2) as [P1 P2]. destruct (IH (publish r s) P1 P2) as (I1 & I2 & I3 & I4 & I5).
  split_and!; try done. unfold s'. cbn [foldl]. rewrite I1. simpl. by rewrite <- app_assoc.
Qed.
Lemma live_open_holds p bytes es d d' s : found (jp_env p) bytes d → (bytes = [] ∧ es = []) ∨ holds_log bytes es →
  live_open p d = (d', Ok s) → live_inv s ∧ accepting s = true ∧ decode_from 0 es = Ok (li_records s).
Proof.
  intros Hf HH H. unfold live_open in H. apply stm_bind_Ok in H as ([] & d1 & H1 & H). injection H1 as <- _.
  apply stm_bind_Ok in H as (dd & d1 & H1 & H). injection H1 as <- <-.
  apply stm_bind_Ok in H as ([w b] & d1 & H1 & H). unfold live_log in H1.
  destruct (open_verified (jp_env p) None d) as [d2 [[w' b']|]] eqn:Ho; [|done]. simpl in H1. injection H1 as <- <- <-.
  destruct (open_verified_holds _ _ _ _ _ _ _ Hf HH Ho) as (Hobs & Hp & Hc & _). rewrite Hobs in H.
  apply stm_bind_Ok in H as (records & d3 & H1 & H). injection H1 as <- Hd. injection H as <- <-.
  assert (∀ sel, index_of sel ∅ []) as H0 by (intros sel k; rewrite lookup_empty; done).
  destruct (foldl_publish records (fresh_inner w' (tb_last_hash b')) (H0 _) (H0 _)) as (I1 & I2 & I3 & I4 & I5).
  simpl in I1, I2, I3.
  assert (accepting (foldl (λ s r, publish r s) (fresh_inner w' (tb_last_hash b')) records) = true) as Ha
    by (unfold accepting; by rewrite I2, I3, bool_decide_eq_true_2).
  split; [|by rewrite I1]. split; [done..|]. rewrite Ha. exists es. by rewrite I1, I2.
Qed.

(** C7: A verified reopen resumes the published records.  Opening what a journal left on disk after an
    append publishes the same records again, with the new one when the append had returned; when it had
    failed, with or without that one record; and when the record's control facts are invalid, never with
    it. *)
Theorem reopen_resumes p account timestamp payload s s' x d d' s'' : live_inv s → accepting s = true →
  live_append account timestamp payload s = (s', x) → found (jp_env p) (durable_log s') d →
  live_open p d = (d', Ok s'') →
  live_inv s'' ∧ accepting s'' = true
  ∧ match x with
    | Ok ev => li_records s'' = li_records s ++ [ev]
    | Err _ => li_records s'' = li_records s
               ∨ (li_records s'' = li_records s ++ [new_event s account timestamp payload]
                  ∧ control_event_valid (new_event s account timestamp payload) = true)
    end.
Proof.
  intros Hi Ha H Hf Ho. destruct (live_append_cases _ _ _ _ _ _ Hi H) as [Hi' Hx].
  assert (accepting s' = true → live_inv s'' ∧ accepting s'' = true ∧ li_records s'' = li_records s') as Hsame.
  { intros Ha'. destruct (inv_accepting s' Hi' Ha') as (es & Hc & Hd).
    destruct (live_open_holds p _ es d d' s'' Hf (or_intror (complete_log_holds _ _ Hc)) Ho) as (? & ? & H3).
    rewrite Hd in H3. injection H3 as H3. done. }
  destruct x as [ev|e].
  { destruct Hx as (_ & _ & _ & Ha' & <-). by apply Hsame. }
  destruct Hx as [Hr [->|[_ (es & extra & Hh & Hd & He)]]].
  { destruct (Hsame Ha) as (? & ? & ?). split_and!; [done..|by left]. }
  destruct (live_open_holds p _ _ d d' s'' Hf (or_intror Hh) Ho) as (? & ? & H3). split_and!; [done..|].
  destruct He as [->|(e' & -> & Hdec)].
  - left. rewrite app_nil_r, Hd in H3. by injection H3.
  - right. rewrite (decode_from_app _ _ _ _ Hd), Z.add_0_l, <- (decode_from_length _ _ _ Hd) in H3.
    change (Z.of_nat (length (li_records s))) with (ev_seq (new_event s account timestamp payload)) in H3. rewrite Hdec in H3.
    destruct (control_event_valid _); [|done]. by injection H3.
Qed.

(** The control facts of a record are validated only once its frame is durable: after an append of
    invalid facts whose write succeeded, no reopen of the file succeeds either. *)
Lemma invalid_control_unopenable p account timestamp payload s bytes w receipt d d' s'' : live_inv s → accepting s = true →
  control_event_valid (new_event s account timestamp payload) = false →
  live_to_vec (new_event s account timestamp payload) = Ok bytes →
  append_synced (record_in timestamp bytes) (li_writer s) = (w, Ok receipt) →
  (live_append account timestamp payload s).2 = Err InvalidControlEvidence
  ∧ (found (jp_env p) (durable_log (live_append account timestamp payload s).1) d → live_open p d ≠ (d', Ok s'')).
Proof.
  intros Hi Ha Hbad Hv Hs. pose proof (accepting_healthy s Ha) as Hp. destruct (inv_accepting s Hi Ha) as (es & Hc & Hd).
  pose proof (append_synced_cases _ _ _ _ _ Hp Hc Hs) as (_ & Hrs & _ & raw & this & Hc').
  pose proof (decode_from_length _ _ _ Hd) as Hlen. pose proof (complete_log_length _ _ Hc) as Hseq.
  unfold live_append. rewrite accepting_call by done. fold (new_event s account timestamp payload). rewrite Hv.
  unfold append_record. rewrite Hs.
  assert (∀ e, env_payload e = bytes → env_source_id e = LIVE_JOURNAL_SOURCE → env_schema_version e = LIVE_JOURNAL_SCHEMA_VERSION →
    env_parser_version e = LIVE_JOURNAL_PARSER_VERSION → env_content_type e = JsonContent →
    source_timestamp (env_observed_at e) = timestamp → event_seq (env_seq e) = Z.of_nat (length (li_records s)) →
    decode_record e (Z.of_nat (length (li_records s))) = Err InvalidControlEvidence) as Hdec.
  { intros e H1 H2 H3 H4 H5 H6 H7.
    pose proof (decode_written (new_event s account timestamp payload) bytes e Hv H1 H2 H3 H4 H5 H6 H7) as H. by rewrite Hbad in H. }
  rewrite Hdec; try done; [|simpl; by rewrite Hrs, Hseq, Hlen]. split; [done|]. intros Hf Ho.
  pose proof (complete_log_holds _ _ Hc') as Hh.
  destruct (live_open_holds p _ _ d d' s'' Hf (or_intror Hh) Ho) as (_ & _ & H3).
  rewrite (decode_from_app _ _ _ _ Hd), Z.add_0_l, <- Hlen in H3. rewrite Hdec in H3; try done. simpl. by rewrite Hseq, Hlen.
Qed.

(** *** Replaying the file *)
Definition receipt_of (e : EventEnvelope) : AppendReceipt :=
  {| receipt_sequence := env_seq e; receipt_this_hash := env_this_hash e |}.
Lemma replay_items_all es : ∀ acc (offs : list Z), length offs = length es →
  replay_items None acc (item <$> zip offs es)
  = (l ← decode_from (Z.of_nat (length acc)) es; Ok (acc ++ zip l (receipt_of <$> es))).
Proof.
  induction es as [|e es IH]; intros acc [|off offs] Hl; simplify_eq/=; [by rewrite app_nil_r|].
  change (replay_items None acc (item (off, e) :: (item <$> zip offs es))
    = (l ← event ← decode_record e (Z.of_nat (length acc)); events ← decode_from (Z.of_nat (length acc) + 1) es; Ok (event :: events);
       Ok (acc ++ zip l (receipt_of e :: (receipt_of <$> es))))).
  cbn [replay_items item map_err mbind result_mbind opt_some fst snd]. rewrite bool_decide_eq_false_2 by naive_solver.
  destruct (decode_record e (Z.of_nat (length acc))) as [event|]; [|done]. cbn [mbind result_mbind]. rewrite IH by done.
  rewrite length_app. cbn [length]. replace (Z.of_nat (length acc + 1)) with (Z.of_nat (length acc) + 1) by lia.
  destruct (decode_from _ es) as [l|]; [|done]. cbn [mbind result_mbind]. by rewrite <- app_assoc.
Qed.
(** A file without an authority, readable to its end. *)
Definition plain (f : LogFile) (bytes : list Z) : Prop :=
  file_authority f = Ok None ∧ is_ok (file_resolved f) = true ∧ file_end f = None ∧ file_bytes f = bytes.
Lemma replay_complete f bs es t l : plain f (file_header ++ bs) → written after_header bs es t → decode_from 0 es = Ok l →
  replay_with_receipts f None = Some (Ok (zip l (receipt_of <$> es)))
  ∧ ∃ resolved, scanner_verify f = Some (Ok (tail_binding resolved t)).
Proof.
  intros (Ha & Hr & He & Hb) Hw Hd. destruct (file_resolved f) as [resolved|] eqn:Hres; [|done].
  pose proof (replay_written f resolved bs es t [] Ha Hres He Hw (or_introl eq_refl)) as H. rewrite app_nil_r in H.
  destruct (H Hb) as (it & offs & Hit & Hl & Hrep). split.
  - unfold replay_with_receipts. rewrite Hit. cbn [mbind option_bind map_err result_mbind]. rewrite Hrep, replay_items_all by done.
    change (decode_from _ es) with (decode_from 0 es). by rewrite Hd.
  - exists resolved. destruct (scan_plain f (until_eof None) resolved bs es t [])
      as (offs' & p & _ & Hs & _); try done; [by left|by rewrite app_nil_r|].
    unfold scanner_verify, inspect. by rewrite Hs.
Qed.

Lemma replay_all_records s f : live_inv s → accepting s = true → plain f (durable_log s) → replay_all f = Some (Ok (li_records s)).
Proof.
  intros Hi Ha Hf. destruct (inv_accepting s Hi Ha) as (es & (bs & _ & _ & Hdur & Hw) & Hd).
  unfold durable_log in Hf. rewrite Hdur in Hf. destruct (replay_complete f bs es _ _ Hf Hw Hd) as (Hr & _).
  unfold replay_all. rewrite Hr. simpl. rewrite fst_zip; [done|]. rewrite length_fmap, (decode_from_length _ _ _ Hd). lia.
Qed.
Lemma find_by_seq n es l : decode_from n es = Ok l → ∀ seq, n ≤ seq →
  snd <$> list_find (λ event, ev_seq event = seq) l = l !! Z.to_nat (seq - n).
Proof.
  intros Hd seq Hs. destruct (l !! Z.to_nat (seq - n)) as [ev|] eqn:Hev.
  - pose proof (decode_from_lookup _ _ _ _ _ Hd Hev) as Hq. apply fmap_Some. exists (Z.to_nat (seq - n), ev). split; [|done].
    apply list_find_Some. split_and!; [done|lia|]. intros j y Hj Hlt Hy.
    rewrite (decode_from_lookup _ _ _ _ _ Hd Hj) in Hy. lia.
  - destruct (list_find _ l) as [[k ev]|] eqn:Hf; [|done]. exfalso. apply list_find_Some in Hf as (Hk & Hq & _).
    pose proof (decode_from_lookup _ _ _ _ _ Hd Hk) as Hk'. assert (k = Z.to_nat (seq - n)) as -> by lia. by rewrite Hk in Hev.
Qed.

(** C8: What an accepting journal answers is what its file says.  A replay of the durable file gives
    exactly the published records, and an account's replay its own; the staged control found by index is
    the one a search of the replay finds; the indexed pending controls and the latest recovery pause of an
    account's dispatch are those read off the records; and the file's verified tail counts the records. *)
Theorem reads_agree_with_file s f : live_inv s → accepting s = true → plain f (durable_log s) →
  replay_all f = Some (Ok (li_records s))
  ∧ (∀ account, replay_account f account = Some (Ok (filter (λ event, ev_account_id event = account) (li_records s))))
  ∧ (∀ seq dispatch, 0 ≤ seq → staged_dispatch_control_at f seq dispatch = Some (staged_dispatch_control seq dispatch s).2)
  ∧ (∀ account dispatch, (pending_target_controls account dispatch s).2
       = Ok (omap (select pending_control (control_key account dispatch)) (li_records s)))
  ∧ (∀ account dispatch, (last_approved_recovery_pause account dispatch s).2
       = Ok (last (omap (select approved_pause (control_key account dispatch)) (li_records s))))
  ∧ ∃ binding, verified_tail_of f = Some (Ok binding)
      ∧ tb_last_sequence binding = (λ n, {| event_seq := n |}) <$> checked_sub_u64 (Z.of_nat (length (li_records s))) 1
      ∧ tb_last_hash binding = w_last_hash (li_writer s).
Proof.
  intros Hi Ha Hf. pose proof (replay_all_records s f Hi Ha Hf) as Hall.
  destruct (inv_accepting s Hi Ha) as (es & (bs & _ & _ & Hdur & Hw) & Hd).
  unfold durable_log in Hf. rewrite Hdur in Hf. destruct (replay_complete f bs es _ _ Hf Hw Hd) as (_ & resolved & Hv).
  pose proof (decode_from_length _ _ _ Hd) as Hlen.
  assert (next_sequence (writer_state (li_writer s)) = Z.of_nat (length es)) as Hn
    by (by apply written_chained, chained_length in Hw).
  split_and!.
  - done.
  - intros account. unfold replay_account. by rewrite Hall.
  - intros seq dispatch Hs. unfold staged_dispatch_control_at, staged_dispatch_control. rewrite Hall, accepting_call by done.
    simpl. do 2 f_equal. pose proof (find_by_seq _ _ _ Hd seq Hs) as Hfind. rewrite Z.sub_0_r in Hfind. rewrite <- Hfind.
    by destruct (list_find _ _) as [[]|].
  - intros account dispatch. unfold pending_target_controls. rewrite accepting_call by done. simpl. f_equal.
    apply (inv_pending _ Hi (control_key account dispatch)).
  - intros account dispatch. unfold last_approved_recovery_pause. rewrite accepting_call by done. simpl. do 2 f_equal.
    apply (inv_pauses _ Hi (control_key account dispatch)).
  - exists (tail_binding resolved (writer_state (li_writer s))). split_and!; [|by rewrite Hlen, <- Hn|done].
    unfold verified_tail_of. rewrite Hall, Hv. simpl. unfold last_sequence. cbn [tb_last_sequence tail_binding].
    rewrite Hn, <- Hlen. pose proof (written_u64 _ _ _ _ (proj1 plain_start) Hw) as Hu. rewrite Hn, <- Hlen in Hu. unfold is_u64, U64_MAX in Hu.
    unfold checked_sub_u64, checked_add_u64. destruct (fits 0 U64_MAX (Z.of_nat (length (li_records s)) - 1)) as [m|] eqn:E; simpl.
    + apply fits_Some in E as [-> E]. rewrite Z.sub_add, is_u64_fits by done. simpl. by rewrite Z.eqb_refl.
    + apply fits_None in E. unfold U64_MAX in E. assert (length (li_records s) = 0%nat) as -> by lia. done.
Qed.

(** *** Account checkpoints *)
Lemma decode_from_prefix n es more l : decode_from n (es ++ more) = Ok l →
  ∃ l1 l2, l = l1 ++ l2 ∧ decode_from n es = Ok l1.
Proof.
  revert n l. induction es as [|e es IH]; intros n l; cbn [decode_from app]; [by intros _; exists [], l|].
  intros (ev & -> & H)%result_bind_Ok. apply result_bind_Ok in H as (evs & Hes & [= <-]).
  destruct (IH _ _ Hes) as (l1 & l2 & -> & Hd). exists (ev :: l1), l2. cbn [mbind result_mbind]. by rewrite Hd.
Qed.
Lemma decode_from_env_seq n es l k e : decode_from n es = Ok l → es !! k = Some e → event_seq (env_seq e) = n + Z.of_nat k.
Proof.
  revert n l k. induction es as [|e' es IH]; intros n l k; cbn [decode_from]; [done|].
  intros (ev' & He & H)%result_bind_Ok. apply result_bind_Ok in H as (evs & Hes & [= <-]).
  destruct k as [|k]; simpl.
  - intros [= <-]. apply decode_record_seq in He as [_ ->]. lia.
  - intros Hk. rewrite (IH _ _ _ Hes Hk). lia.
Qed.
Lemma checkpoint_prefix_own es l rest : decode_from 0 es = Ok l → is_u64 (Z.of_nat (length es)) →
  let events := zip l (receipt_of <$> es) in
  ∀ checkpoint, lt_scanned_prefix_last_sequence checkpoint = (receipt_pair (last_receipt events)).1 →
    lt_scanned_prefix_last_hash checkpoint = (receipt_pair (last_receipt events)).2 →
  checkpoint_prefix (events ++ rest) checkpoint = Ok (length events).
Proof.
  intros Hd Hu events c Hs Hh. pose proof (decode_from_length _ _ _ Hd) as Hlen. unfold checkpoint_prefix. rewrite Hs, Hh.
  unfold last_receipt. destruct (last events) as [[ev r]|] eqn:Hl; simpl.
  2:{ apply last_None in Hl. by rewrite Hl. }
  assert (length events = length es) as Hle by (unfold events; rewrite length_zip, length_fmap; lia).
  apply last_Some in Hl as [pre Hpre]. assert (length es = S (length pre)) as Hlp by (rewrite <- Hle, Hpre, length_app; simpl; lia).
  assert (events !! length pre = Some (ev, r)) as Hget by (rewrite Hpre; by apply list_lookup_middle).
  unfold events in Hget. apply lookup_zip_Some in Hget as [Hev Hr]. simpl in Hr. apply list_lookup_fmap_Some in Hr as (e & -> & He).
  simpl in He. pose proof (decode_from_env_seq _ _ _ _ _ Hd He) as Hq. simpl. rewrite Hq, Z.add_0_l.
  unfold checked_add_u64. replace (Z.of_nat (length pre) + 1) with (Z.of_nat (length es)) by lia. rewrite is_u64_fits by done. simpl.
  replace (Z.to_nat (Z.of_nat (length es) - 1)) with (length pre) by lia.
  rewrite lookup_app_l by lia. rewrite Hpre at 1. rewrite list_lookup_middle by done. simpl.
  rewrite !bool_decide_eq_false_2 by naive_solver. simpl. f_equal. lia.
Qed.

(** An account checkpoint stays valid.  The tail of an account taken from a replay of the journal
    verifies against every later state of it, however many records of any account were appended since. *)
Theorem checkpoint_survives_appends f f' account bs es t bs' more t' l l' events tail :
  plain f (file_header ++ bs) → written after_header bs es t →
  plain f' (file_header ++ bs ++ bs') → written t bs' more t' → decode_from 0 (es ++ more) = Ok (l ++ l') →
  length l = length es → replay_account_with_tail f account = Some (Ok (events, tail)) →
  events = filter (λ event, ev_account_id event = account) l
  ∧ verify_account_tail_checkpoint f' account tail = Some (Ok tt).
Proof.
  intros Hf Hw Hf' Hw' Hd Hlen H. destruct (decode_from_prefix _ _ _ _ Hd) as (l1 & l2 & Hl & Hd1).
  pose proof (decode_from_length _ _ _ Hd1) as Hlen1. apply app_inj_1 in Hl as [<- <-]; [|lia].
  destruct (replay_complete f bs es t l Hf Hw Hd1) as [Hr _]. pose proof (written_app _ _ _ _ _ _ _ Hw Hw') as Hw''.
  destruct (replay_complete f' (bs ++ bs') (es ++ more) t' (l ++ l') Hf' Hw'' Hd) as [Hr' _].
  unfold replay_account_with_tail in H. rewrite Hr in H. injection H as <- <-.
  rewrite fst_zip by (rewrite length_fmap; lia). split; [done|]. unfold verify_account_tail_checkpoint. rewrite Hr'.
  rewrite fmap_app, zip_with_app by (by rewrite length_fmap). cbn [mbind option_bind result_mbind].
  assert (is_u64 (Z.of_nat (length es))) as Hu.
  { pose proof (written_u64 _ _ _ _ (proj1 plain_start) Hw) as Hu. apply written_chained, chained_length in Hw. by rewrite Hw in Hu. }
  rewrite (checkpoint_prefix_own es l _ Hd1 Hu) by done. cbn [mbind result_mbind].
  rewrite (proj2 (Nat.ltb_ge _ _)) by (rewrite length_app; lia). rewrite take_app_length. rewrite bool_decide_eq_false_2; [done|].
  intros Hne. apply Hne. cbn [lt_last_sequence lt_last_hash]. by destruct (receipt_pair _).
Qed.

(** *** The interface of the redemption driver *)
Context {VA : ToVec (string * RawHttpAttempt)}.
Lemma live_append_inv account timestamp payload s : live_inv s → live_inv (live_append account timestamp payload s).1.
Proof. intros Hi. destruct (live_append account timestamp payload s) as [s' x] eqn:E. by destruct (live_append_cases _ _ _ _ _ _ Hi E). Qed.
Definition live_journal_ops : LiveJournalOps := {|
  Journal := { s : LiveJournalInner | live_inv s };
  JournalError := LiveJournalError;
  journal_events j := li_records (`j);
  journal_append account timestamp payload j :=
    (exist live_inv (live_append account timestamp payload (`j)).1 (live_append_inv _ _ _ _ (proj2_sig j)),
     (live_append account timestamp payload (`j)).2);
  RedemptionMachine.http_attempt_hashes := LiveAdmission.http_attempt_hashes
|}.
Lemma ops_append account timestamp payload (j j' : @Journal _ _ live_journal_ops) x :
  @journal_append _ _ live_journal_ops account timestamp payload j = (j', x) →
  live_append account timestamp payload (`j) = (`j', x).
Proof.
  intros H. pose proof (f_equal (λ y, `(y.1)) H) as H1. pose proof (f_equal snd H) as H2. cbn in H1, H2.
  rewrite <- H1, <- H2. apply surjective_pairing.
Qed.
(** The live journal keeps the promise the redemption driver relies on: an append publishes exactly
    one record, with the given account, time and payload under the next sequence number, or publishes
    none; so what was proved of the driver against that interface holds over the durable log. *)
Theorem live_journal_meets_interface : LiveJournalLaws (JO := live_journal_ops).
Proof.
  split; intros account timestamp payload j j' x H%ops_append.
  - destruct (live_append_cases _ _ _ _ _ _ (proj2_sig j) H) as (_ & -> & _ & _ & _ & Hr). done.
  - destruct (live_append_cases _ _ _ _ _ _ (proj2_sig j) H) as (_ & Hr & _). done.
Qed.
End StorageFacts.

Lemma written_nil_inv `{TO : TimeOps} {B3 : Blake3} {LJ : LogJson} {ZS : Zstd} s bs t : written s bs [] t → bs = [] ∧ t = s.
Proof. by inversion 1. Qed.

(** ** A journal on a disk

    A JSON of two bytes for one kind of record: its sequence and its time. *)
Module SampleJournal.
Definition account : AccountId := {| account_slug := "main" |}.
Definition frozen : CredentialBindingIdentity := {| cb_version := 1; cb_key_id := "key" |}.
Definition current : CredentialBindingIdentity := {| cb_version := 2; cb_key_id := "key" |}.
Definition payload : @LiveJournalPayload ZTime QDecimal := CredentialBindingMismatch frozen current.
Definition event (seq : Z) (timestamp : @OffsetDateTime ZTime) : @LiveJournalEvent ZTime QDecimal :=
  {| ev_account_id := account; ev_seq := seq; ev_timestamp := timestamp; ev_payload := payload |}.
#[export] Instance two_bytes : @LiveJson ZTime QDecimal := {|
  live_to_vec e := match ev_payload e with
                   | CredentialBindingMismatch f c =>
                       if decide (ev_account_id e = account ∧ f = frozen ∧ c = current)
                       then Ok [ev_seq e; ev_timestamp e : Z] else Err "unsupported"
                   | _ => Err "unsupported"
                   end;
  live_from_slice bs := match bs with [seq; timestamp] => Ok (event seq timestamp) | _ => Err "two bytes" end;
  legacy_from_slice _ := Err "unsupported"; legacy_from_value _ := Err "unsupported";
  value_from_slice _ := Err "unsupported"
|}.
#[export] Instance two_bytes_laws : @LiveJsonLaws ZTime QDecimal two_bytes.
Proof.
  split. intros [a q t p] bs. cbn [live_to_vec two_bytes ev_payload ev_account_id ev_seq ev_timestamp].
  destruct p; try discriminate. destruct (decide _) as [(-> & -> & ->)|]; [|discriminate]. by intros [= <-].
Qed.

Definition env (exists_ : bool) : JournalPath := {|
  jp_env := sample_env; jp_exists := exists_;
  jp_metadata := if exists_ then Ok {| meta_is_symlink := false; meta_mode := 384 |}
                 else Err {| io_kind := NotFound; io_message := "no such file" |};
  jp_create_new := Ok tt |}.
Definition disk (bytes : list Z) : @Device DiskDevice :=
  {| disk_accepted := bytes; disk_at := 0; disk_visible := bytes; disk_safe := bytes; disk_room := 4999 |}.
Lemma live_found_disk e bytes : found (jp_env (env e)) bytes (disk bytes).
Proof. by split_and!. Qed.
Definition opened : LiveJournalInner :=
  result_or (fresh_inner sample_writer genesis_hash) (live_open (env false) (disk [])).2.
Lemma opens : live_open (env false) (disk []) = ((live_open (env false) (disk [])).1, Ok opened).
Proof.
  assert (is_ok (live_open (env false) (disk [])).2 = true) as H by vm_cast_no_check (eq_refl true).
  unfold opened. by destruct (live_open (env false) (disk [])) as [d [x|e]].
Qed.
Lemma opened_facts : live_inv opened ∧ accepting opened = true ∧ li_records opened = [].
Proof.
  destruct (live_open_holds (env false) [] [] (disk []) _ opened (live_found_disk _ _) (or_introl (conj eq_refl eq_refl)) opens)
    as (? & ? & H). split_and!; [assumption..|]. exact (eq_sym (f_equal (result_or []) H)).
Qed.
Definition appended : LiveJournalInner := (live_append account (5 : @OffsetDateTime ZTime) payload opened).1.
Definition first : @LiveJournalEvent ZTime QDecimal := event 0 5.
Lemma live_append_runs : live_append account (5 : @OffsetDateTime ZTime) payload opened = (appended, Ok first).
Proof.
  unfold appended. assert ((live_append account (5 : @OffsetDateTime ZTime) payload opened).2 = Ok first) as <-
    by vm_cast_no_check (eq_refl (Ok (E := LiveJournalError) first)).
  apply surjective_pairing.
Qed.
Lemma appended_facts : live_inv appended ∧ accepting appended = true ∧ li_records appended = [first].
Proof.
  destruct opened_facts as (Hi & Ha & Hr). destruct (live_append_cases _ _ _ _ _ _ Hi live_append_runs) as (? & _ & _ & _ & ? & Hr').
  split_and!; [assumption..|]. rewrite Hr', Hr. reflexivity.
Qed.
Definition reopened : LiveJournalInner :=
  result_or opened (live_open (env true) (disk (durable_log appended))).2.
Lemma reopens : live_open (env true) (disk (durable_log appended))
  = ((live_open (env true) (disk (durable_log appended))).1, Ok reopened).
Proof.
  assert (is_ok (live_open (env true) (disk (durable_log appended))).2 = true) as H by vm_cast_no_check (eq_refl true).
  unfold reopened. by destruct (live_open (env true) (disk (durable_log appended))) as [d [x|e]].
Qed.
Definition file (bytes : list Z) : LogFile := {|
  file_path := "l"; file_resolved := Ok "/l"; file_bytes := bytes; file_end := None; file_authority := Ok None |}.
Lemma file_plain bytes : plain (file bytes) bytes.
Proof. by split_and!. Qed.
#[export] Instance vec_attempt : ToVec (string * @RawHttpAttempt ZTime) := λ _, Ok [].
End SampleJournal.
#[local] Existing Instances SampleJournal.two_bytes SampleJournal.two_bytes_laws.

Lemma append_publishes_durable_witness :
  decode_from 0 (log_envelopes (durable_log SampleJournal.appended)) = Ok [SampleJournal.first].
Proof.
  destruct SampleJournal.opened_facts as (Hi & Ha & Hr).
  destruct (append_publishes_durable _ _ _ _ _ _ Hi SampleJournal.live_append_runs) as (_ & (_ & _ & _ & _ & H) & _).
  rewrite Hr in H. exact H.
Defined.
Lemma reopen_resumes_witness : li_records SampleJournal.reopened = [SampleJournal.first].
Proof.
  destruct SampleJournal.opened_facts as (Hi & Ha & Hr).
  destruct (reopen_resumes (SampleJournal.env true) _ _ _ _ _ _ _ _ _ Hi Ha SampleJournal.live_append_runs
              (SampleJournal.live_found_disk _ _) SampleJournal.reopens) as (_ & _ & H).
  rewrite Hr in H. exact H.
Defined.
Lemma reads_agree_with_file_witness :
  replay_all (SampleJournal.file (durable_log SampleJournal.appended)) = Some (Ok [SampleJournal.first]).
Proof.
  destruct SampleJournal.appended_facts as (Hi & Ha & Hr).
  destruct (reads_agree_with_file SampleJournal.appended (SampleJournal.file (durable_log SampleJournal.appended)) Hi Ha
              (SampleJournal.file_plain _)) as [H _].
  rewrite Hr in H. exact H.
Defined.
Lemma live_journal_meets_interface_witness :
  @LiveJournalLaws ZTime QDecimal (live_journal_ops (VA := SampleJournal.vec_attempt)).
Proof. exact live_journal_meets_interface. Defined.

Lemma checkpoint_survives_appends_witness : ∃ tail,
  replay_account_with_tail (SampleJournal.file (durable_log SampleJournal.opened)) SampleJournal.account = Some (Ok ([], tail))
  ∧ verify_account_tail_checkpoint (SampleJournal.file (durable_log SampleJournal.appended)) SampleJournal.account tail = Some (Ok tt).
Proof.
  destruct SampleJournal.opened_facts as (Hi & Ha & Hr). destruct SampleJournal.appended_facts as (Hi' & Ha' & Hr').
  destruct (inv_accepting _ Hi Ha) as (es & (bs & _ & _ & Hdur & Hw) & Hd).
  destruct (inv_accepting _ Hi' Ha') as (es' & (bs' & _ & _ & Hdur' & Hw') & Hd').
  rewrite Hr in Hd. rewrite Hr' in Hd'. pose proof (decode_from_length _ _ _ Hd) as Hlen. destruct es; [|done].
  assert (bs = [] ∧ writer_state (li_writer SampleJournal.opened) = after_header) as [-> Hst].
  { exact (written_nil_inv _ _ _ Hw). }
  unfold durable_log. rewrite Hdur, Hdur'. rewrite Hst in Hw.
  eexists. split; [reflexivity|].
  destruct (checkpoint_survives_appends (SampleJournal.file (file_header ++ [])) (SampleJournal.file (file_header ++ [] ++ bs'))
              SampleJournal.account [] [] after_header bs' es' _ [] [SampleJournal.first] _ _
              (SampleJournal.file_plain _) Hw (SampleJournal.file_plain _) Hw' Hd' eq_refl eq_refl) as [_ H].
  exact H.
Defined.
