(* ===== verification/LiveRecovery.v ===== *)
(** * Recovery of the live journal (crates/execution-core/src/live_journal.rs)

    The fold that rebuilds, record by record, which admissions were approved and not
    yet prepared, which orders are open, and what ended without an order; the
    inventory it yields; and the recovery of a whole file, which starts every account
    at its first baseline and re-evaluates every admission.  The theorems show that
    an accepted journal is a history of one life cycle per dispatch. *)

From S2P Require Import Prelude CoreTypes Bytes LogFrame LogChain LogScanner LogWriter LogReader LogCrash RiskEngine WinnerFollow Fee Ladder CanaryTypes LiveTypes LiveAdmission Polygon RedemptionMachine LiveJournal.
#[local] Open Scope Z_scope.

(** ** Sorted sets *)
Definition bs_insert {K} `{Ord K} (k : K) (s : list (K * unit)) : list (K * unit) := bt_insert k tt s.
Definition bs_mem {K} `{Ord K} (k : K) (s : list (K * unit)) : bool := bool_decide (is_Some (bt_get k s)).

(** [(AccountId, String)]: an account and a dispatch *)
Abbreviation DispatchKey := (string * string)%type.

Section Recovery.
Context `{TO : TimeOps} `{DO : DecimalOps} {B3 : Blake3} {LJ : LogJson} {ZS : Zstd} {AV : AccountVenue} {AL : Alloy} {TJ : ToVec JsonValue} {EJ : LiveJson}.
Context {VD : ToVec (string * SanitizedHttpRequestDescriptor)} {VA : ToVec (string * RawHttpAttempt)}.

(** ** Binding of a fact to its prepared order *)
Inductive PreparedOrderFact : Type :=
| FactPosted (posted : LiveOrderPostAudit)
| FactReconciled (reconciled : LiveOrderReconciliationAudit)
| FactFinalized (finalized : OrderFillFinalizedAudit).
Definition source_matches_outcome (source : LiveReconciliationSource) (outcome : LiveJournalOrderOutcome) : bool :=
  match source, outcome with
  | (PostResponse | OrderHashLookupAndCancel),
    (OutcomeMatched _ _ _ | OutcomeKilled _ | OutcomeRejected _ _ | OutcomeAmbiguous _) => true
  | PolygonFinality, (FinalityPending _ | FinalityConflict _) => true
  | _, _ => false
  end.
Definition prepared_order_fact_matches (prepared_seq : Z) (identity : LiveOrderIdentity) (order_hash : string)
    (fact : PreparedOrderFact) : bool :=
  match fact with
  | FactPosted posted => bool_decide (po_identity posted = identity) && bool_decide (po_order_hash posted = order_hash)
  | FactReconciled reconciled =>
      bool_decide (or_identity reconciled = identity) && bool_decide (or_order_hash reconciled = order_hash)
      && source_matches_outcome (or_source reconciled) (or_outcome reconciled)
  | FactFinalized finalized =>
      bool_decide (of_identity finalized = identity) && (of_prepared_journal_seq finalized =? prepared_seq)
  end.

(** ** State *)
Record OpenOrderInventoryEntry := {
  oe_identity : LiveOrderIdentity;
  oe_account_id : AccountId;
  oe_prepared_journal_seq : Z
}.
Record OpenOrderState := {
  oo_entry : OpenOrderInventoryEntry;
  oo_order_hash : string;
  oo_prepared : option LiveOrderPreparedAudit;
  oo_transaction_hashes : list (string * unit);
  oo_immutable_receipts : Receipts;
  oo_terminal : bool;
  oo_finality_conflict : bool;
  oo_terminal_reconciliation : option LiveOrderReconciliationAudit
}.
#[export] Instance OpenOrderState_rebuild : Rebuild OpenOrderState := λ r, {|
  oo_entry := oo_entry r; oo_order_hash := oo_order_hash r; oo_prepared := oo_prepared r;
  oo_transaction_hashes := oo_transaction_hashes r; oo_immutable_receipts := oo_immutable_receipts r;
  oo_terminal := oo_terminal r; oo_finality_conflict := oo_finality_conflict r;
  oo_terminal_reconciliation := oo_terminal_reconciliation r |}.
Inductive TerminalAdmissionRecoveryOutcome : Type :=
| TerminalRefused (reason : LiveAdmissionRefusal)
| TerminalPreparationFailed (failed : LiveOrderPreparationFailedAudit).
Record TerminalAdmissionRecoveryEntry := {
  ta_account_id : AccountId;
  ta_journal_seq : Z;
  ta_identity : LiveOrderIdentity;
  ta_outcome : TerminalAdmissionRecoveryOutcome
}.
Definition dispatch_key (account : AccountId) (identity : LiveOrderIdentity) : DispatchKey :=
  (account_slug account, oi_dispatch_id identity).
Record LiveRecoveryFold := {
  rf_orders : list (DispatchKey * OpenOrderState);
  rf_account_ids : list (string * unit);
  rf_account_bindings : list (string * LiveAccountBindingAudit);
  rf_evaluated_admissions : list (DispatchKey * unit);
  rf_approved_admissions : list (DispatchKey * (Z * LiveAdmissionEvaluationAudit));
  rf_terminal_admissions : list TerminalAdmissionRecoveryEntry;
  rf_terminal_keys : list (DispatchKey * unit)
}.
Definition LiveRecoveryFold_default : LiveRecoveryFold := {|
  rf_orders := []; rf_account_ids := []; rf_account_bindings := []; rf_evaluated_admissions := [];
  rf_approved_admissions := []; rf_terminal_admissions := []; rf_terminal_keys := []
|}.
(** *** Updates of one field *)
Definition note_account (account : AccountId) (s : LiveRecoveryFold) : LiveRecoveryFold := {|
  rf_orders := rf_orders s; rf_account_ids := bs_insert (account_slug account) (rf_account_ids s);
  rf_account_bindings := rf_account_bindings s; rf_evaluated_admissions := rf_evaluated_admissions s;
  rf_approved_admissions := rf_approved_admissions s;
  rf_terminal_admissions := rf_terminal_admissions s; rf_terminal_keys := rf_terminal_keys s
|}.
Definition put_order (key : DispatchKey) (order : OpenOrderState) (s : LiveRecoveryFold) : LiveRecoveryFold := {|
  rf_orders := bt_insert key order (rf_orders s); rf_account_ids := rf_account_ids s;
  rf_account_bindings := rf_account_bindings s; rf_evaluated_admissions := rf_evaluated_admissions s;
  rf_approved_admissions := rf_approved_admissions s;
  rf_terminal_admissions := rf_terminal_admissions s; rf_terminal_keys := rf_terminal_keys s
|}.
Definition bind_account (account : AccountId) (binding : LiveAccountBindingAudit) (s : LiveRecoveryFold) : LiveRecoveryFold := {|
  rf_orders := rf_orders s; rf_account_ids := rf_account_ids s;
  rf_account_bindings := bt_insert (account_slug account) binding (rf_account_bindings s); rf_evaluated_admissions := rf_evaluated_admissions s;
  rf_approved_admissions := rf_approved_admissions s;
  rf_terminal_admissions := rf_terminal_admissions s; rf_terminal_keys := rf_terminal_keys s
|}.
Definition mark_evaluated (key : DispatchKey) (s : LiveRecoveryFold) : LiveRecoveryFold := {|
  rf_orders := rf_orders s; rf_account_ids := rf_account_ids s;
  rf_account_bindings := rf_account_bindings s; rf_evaluated_admissions := bs_insert key (rf_evaluated_admissions s);
  rf_approved_admissions := rf_approved_admissions s;
  rf_terminal_admissions := rf_terminal_admissions s; rf_terminal_keys := rf_terminal_keys s
|}.
Definition approve (key : DispatchKey) (seq : Z) (admission : LiveAdmissionEvaluationAudit) (s : LiveRecoveryFold) : LiveRecoveryFold := {|
  rf_orders := rf_orders s; rf_account_ids := rf_account_ids s;
  rf_account_bindings := rf_account_bindings s; rf_evaluated_admissions := rf_evaluated_admissions s;
  rf_approved_admissions := bt_insert key (seq, admission) (rf_approved_admissions s);
  rf_terminal_admissions := rf_terminal_admissions s; rf_terminal_keys := rf_terminal_keys s
|}.
Definition take_approved (key : DispatchKey) (s : LiveRecoveryFold) : LiveRecoveryFold := {|
  rf_orders := rf_orders s; rf_account_ids := rf_account_ids s;
  rf_account_bindings := rf_account_bindings s; rf_evaluated_admissions := rf_evaluated_admissions s;
  rf_approved_admissions := bt_remove key (rf_approved_admissions s);
  rf_terminal_admissions := rf_terminal_admissions s; rf_terminal_keys := rf_terminal_keys s
|}.
Definition push_terminal (key : DispatchKey) (entry : TerminalAdmissionRecoveryEntry) (s : LiveRecoveryFold) : LiveRecoveryFold := {|
  rf_orders := rf_orders s; rf_account_ids := rf_account_ids s;
  rf_account_bindings := rf_account_bindings s; rf_evaluated_admissions := rf_evaluated_admissions s;
  rf_approved_admissions := rf_approved_admissions s;
  rf_terminal_admissions := rf_terminal_admissions s ++ [entry]; rf_terminal_keys := bs_insert key (rf_terminal_keys s)
|}.

(** ** [LiveRecoveryFold::apply]

    A failed record leaves a fold that must not be used again, so an error carries
    no fold; a panic of the admission check is [None]. *)
Abbreviation folding := (panicking LiveJournalError LiveRecoveryFold).
Definition insert_open_order (account : AccountId) (prepared_journal_seq : Z) (identity : LiveOrderIdentity)
    (order_hash : string) (prepared : option LiveOrderPreparedAudit) (s : LiveRecoveryFold) : folding :=
  let key := dispatch_key account identity in
  if bool_decide (is_Some (bt_get key (rf_orders s))) then throw OrderFactConflict
  else mret (put_order key {|
    oo_entry := {| oe_identity := identity; oe_account_id := account; oe_prepared_journal_seq := prepared_journal_seq |};
    oo_order_hash := order_hash; oo_prepared := prepared; oo_transaction_hashes := []; oo_immutable_receipts := [];
    oo_terminal := false; oo_finality_conflict := false; oo_terminal_reconciliation := None |} s).
Definition fold_prepared (event : LiveJournalEvent) (prepared : LiveOrderPreparedAudit) (s : LiveRecoveryFold) : folding :=
  let key := dispatch_key (ev_account_id event) (op_identity prepared) in
  '(_, admission) ← throws (ok_or (bt_get key (rf_approved_admissions s)) OrderFactConflict);
  let s := take_approved key s in
  if bool_decide (ae_identity admission ≠ op_identity prepared)
     || bool_decide (ae_frozen_binding admission ≠ op_frozen_binding prepared)
     || negb (rust_eq (ae_economic admission) (op_economic prepared))
     || bool_decide (ae_account_state admission ≠ Some (op_account_state prepared))
  then throw OrderFactConflict
  else insert_open_order (ev_account_id event) (ev_seq event) (op_identity prepared) (pb_order_hash (op_prepared prepared))
         (Some prepared) s.
Definition evaluation_error (e : LiveAdmissionEvaluationError) : LiveJournalError :=
  match e with
  | EvaluationJournal error => error
  | InvalidRiskDecision | InvalidAccountEvidence => OrderFactConflict
  end.
Definition fold_admission (verify_admissions : bool) (event : LiveJournalEvent) (admission : LiveAdmissionEvaluationAudit)
    (s : LiveRecoveryFold) : folding :=
  _ ← (if verify_admissions
       then map_err evaluation_error <$>
              verify_live_admission_evaluation admission (ev_timestamp event)
                (bt_get (account_slug (ev_account_id event)) (rf_account_bindings s))
       else Some (Ok tt));
  let key := dispatch_key (ev_account_id event) (ae_identity admission) in
  if bs_mem key (rf_evaluated_admissions s) then throw OrderFactConflict
  else
    let s := mark_evaluated key s in
    mret match ae_verdict admission with
         | VerdictApproved => approve key (ev_seq event) admission s
         | Refused reason =>
             push_terminal key {| ta_account_id := ev_account_id event; ta_journal_seq := ev_seq event;
                                  ta_identity := ae_identity admission; ta_outcome := TerminalRefused reason |} s
         end.
Definition fold_preparation_failed (event : LiveJournalEvent) (failed : LiveOrderPreparationFailedAudit)
    (s : LiveRecoveryFold) : folding :=
  let key := dispatch_key (ev_account_id event) (pf_identity failed) in
  s ← match bt_get key (rf_approved_admissions s) with
      | Some (_, admission) =>
          if bool_decide (ae_identity admission ≠ pf_identity failed) then throw OrderFactConflict
          else mret (take_approved key s)
      | None =>
          order ← throws (ok_or (bt_get key (rf_orders s)) OrderFactConflict);
          if bool_decide (oe_identity (oo_entry order) ≠ pf_identity failed) || oo_terminal order then throw OrderFactConflict
          else mret (put_order key (order <| oo_terminal := true |>) s)
      end;
  mret (push_terminal key {| ta_account_id := ev_account_id event; ta_journal_seq := ev_seq event;
                             ta_identity := pf_identity failed; ta_outcome := TerminalPreparationFailed failed |} s).
Definition fold_mark (event : LiveJournalEvent) (mark : AccountPortfolioMarkedAudit) (s : LiveRecoveryFold) : folding :=
  match pm_kind mark with
  | Baseline =>
      if negb (is_valid_for (pm_account_binding mark) (ev_account_id event))
         || bool_decide (is_Some (bt_get (account_slug (ev_account_id event)) (rf_account_bindings s)))
      then throw RequestBinding
      else mret (bind_account (ev_account_id event) (pm_account_binding mark) s)
  | Daily => mret s
  end.
Definition fact_matches (order : OpenOrderState) (fact : PreparedOrderFact) : bool :=
  prepared_order_fact_matches (oe_prepared_journal_seq (oo_entry order)) (oe_identity (oo_entry order)) (oo_order_hash order) fact.
Definition fold_posted (event : LiveJournalEvent) (posted : LiveOrderPostAudit) (s : LiveRecoveryFold) : folding :=
  order ← throws (ok_or (bt_get (dispatch_key (ev_account_id event) (po_identity posted)) (rf_orders s)) OrderFactConflict);
  if oo_terminal order || negb (fact_matches order (FactPosted posted)) then throw OrderFactConflict else mret s.
(** The newly immutable receipts of a pending Polygon fact. *)
Definition extend_receipts (new : Receipts) (receipts : Receipts) : Receipts :=
  foldl (λ m '(hash, receipt), bt_insert hash receipt m) receipts new.
Definition reconcile_polygon (order : OpenOrderState) (reconciled : LiveOrderReconciliationAudit) :
    result LiveJournalError OpenOrderState :=
  match or_source reconciled with
  | PolygonFinality =>
      prepared ← ok_or (oo_prepared order) InvalidFinalityEvidence;
      immutable ← verify_polygon_reconciliation prepared (bt_keys (oo_transaction_hashes order)) reconciled
                    (oo_immutable_receipts order);
      Ok match or_outcome reconciled with
         | FinalityPending _ =>
             order <| oo_immutable_receipts := extend_receipts immutable (oo_immutable_receipts order) |>
         | _ => order
         end
  | _ => Ok order
  end.
Definition reconcile_outcome (reconciled : LiveOrderReconciliationAudit) (order : OpenOrderState) : OpenOrderState :=
  match or_outcome reconciled with
  | OutcomeMatched _ transaction_hashes _ =>
      order <| oo_transaction_hashes := foldl (λ s h, bs_insert h s) (oo_transaction_hashes order) transaction_hashes |>
  | OutcomeKilled _ | OutcomeRejected _ _ =>
      order <| oo_terminal := true |> <| oo_terminal_reconciliation := Some reconciled |>
  | FinalityConflict _ =>
      order <| oo_terminal := true |> <| oo_finality_conflict := true |> <| oo_terminal_reconciliation := Some reconciled |>
  | OutcomeAmbiguous _ | FinalityPending _ => order
  end.
Definition fold_reconciled (event : LiveJournalEvent) (reconciled : LiveOrderReconciliationAudit) (s : LiveRecoveryFold) : folding :=
  let key := dispatch_key (ev_account_id event) (or_identity reconciled) in
  order ← throws (ok_or (bt_get key (rf_orders s)) OrderFactConflict);
  if oo_terminal order
  then if match oo_terminal_reconciliation order with Some prior => rust_eq prior reconciled | None => false end
       then mret s else throw OrderFactConflict
  else if negb (fact_matches order (FactReconciled reconciled)) then throw OrderFactConflict
  else
    order ← throws (reconcile_polygon order reconciled);
    mret (put_order key (reconcile_outcome reconciled order) s).
Definition fold_finalized (event : LiveJournalEvent) (finalized : OrderFillFinalizedAudit) (s : LiveRecoveryFold) : folding :=
  let key := dispatch_key (ev_account_id event) (of_identity finalized) in
  order ← throws (ok_or (bt_get key (rf_orders s)) OrderFactConflict);
  if negb (fact_matches order (FactFinalized finalized)) then throw OrderFactConflict
  else if oo_terminal order || oo_finality_conflict order then throw OrderFactConflict
  else
    prepared ← throws (ok_or (oo_prepared order) InvalidFinalityEvidence);
    _ ← throws (verify_polygon_finalized prepared (bt_keys (oo_transaction_hashes order)) finalized
                  (oo_immutable_receipts order));
    mret (put_order key (order <| oo_terminal := true |>) s).
Definition fold_legacy (event : LiveJournalEvent) (raw : JsonValue) (s : LiveRecoveryFold) : folding :=
  order ← throws (map_err LiveEncoding (prepared_order raw));
  match order with
  | Some (identity, order_hash) => insert_open_order (ev_account_id event) (ev_seq event) identity order_hash None s
  | None => mret s
  end.
Definition fold_apply (verify_admissions : bool) (s : LiveRecoveryFold) (event : LiveJournalEvent) : folding :=
  let s := note_account (ev_account_id event) s in
  match ev_payload event with
  | OrderPrepared prepared => fold_prepared event prepared s
  | AdmissionEvaluated admission => fold_admission verify_admissions event admission s
  | OrderPreparationFailed failed => fold_preparation_failed event failed s
  | AccountPortfolioMarked mark => fold_mark event mark s
  | LegacyV1 raw => fold_legacy event raw s
  | OrderPosted posted => fold_posted event posted s
  | OrderReconciled reconciled => fold_reconciled event reconciled s
  | OrderFillFinalized finalized => fold_finalized event finalized s
  | StagedDispatchControl _ | PendingTargetControl _ | ApprovedRecoveryControlPause _ | RedemptionRequested _
  | RedemptionTransactionIdentified _ | RedemptionReceiptTransition _ | ResolutionFinalized _
  | RedemptionCustodyReconciled _ | CollateralCredited _ | CredentialBindingMismatch _ _ | ModeTransitionApplied _ => mret s
  end.
Fixpoint fold_records (verify_admissions : bool) (s : LiveRecoveryFold) (events : list LiveJournalEvent) : folding :=
  match events with
  | [] => mret s
  | event :: events => s ← fold_apply verify_admissions s event; fold_records verify_admissions s events
  end.

(** ** What remains to be done *)
Definition has_pending_work (s : LiveRecoveryFold) : bool :=
  bool_decide (rf_approved_admissions s ≠ []) || existsb (λ order, negb (oo_terminal order)) (bt_values (rf_orders s)).
Definition has_terminal_admissions (s : LiveRecoveryFold) : bool := bool_decide (rf_terminal_admissions s ≠ []).
Definition is_terminal_admission (account : AccountId) (dispatch_id : string) (s : LiveRecoveryFold) : bool :=
  bs_mem (account_slug account, dispatch_id) (rf_terminal_keys s).
Record OpenOrderRecoveryEntry := {
  re_inventory : OpenOrderInventoryEntry;
  re_prepared : option LiveOrderPreparedAudit;
  re_transaction_hashes : list string;
  re_immutable_receipts : Receipts
}.
Record ApprovedAdmissionRecoveryEntry := {
  aa_account_id : AccountId;
  aa_admission_journal_seq : Z;
  aa_admission : LiveAdmissionEvaluationAudit
}.
Record LiveRecoveryInventory := {
  inv_account_ids : list AccountId;
  inv_approved_admissions : list ApprovedAdmissionRecoveryEntry;
  inv_terminal_admissions : list TerminalAdmissionRecoveryEntry;
  inv_open_orders : list OpenOrderRecoveryEntry
}.
Definition open_entry (order : OpenOrderState) : OpenOrderRecoveryEntry := {|
  re_inventory := oo_entry order; re_prepared := oo_prepared order;
  re_transaction_hashes := bt_keys (oo_transaction_hashes order); re_immutable_receipts := oo_immutable_receipts order
|}.
(** [sort_by_key], stable *)
Definition sort_by_key {A} (key : A → Z) : list A → list A := sort_by (λ a b, key a <=? key b).
Definition inventory (s : LiveRecoveryFold) : LiveRecoveryInventory := {|
  inv_account_ids := (λ slug, {| account_slug := slug |}) <$> bt_keys (rf_account_ids s);
  inv_approved_admissions := sort_by_key aa_admission_journal_seq
    ((λ '(key, (seq, admission)), {| aa_account_id := {| account_slug := key.1 |}; aa_admission_journal_seq := seq;
                                     aa_admission := admission |}) <$> rf_approved_admissions s);
  inv_terminal_admissions := sort_by_key ta_journal_seq (rf_terminal_admissions s);
  inv_open_orders := sort_by_key (λ e, oe_prepared_journal_seq (re_inventory e))
    (open_entry <$> filter (λ order, oo_terminal order = false) (bt_values (rf_orders s)))
|}.

(** ** Recovery of a file *)
Definition is_baseline (event : LiveJournalEvent) : bool :=
  match ev_payload event with AccountPortfolioMarked mark => bool_decide (pm_kind mark = Baseline) | _ => false end.
Definition first_account_baseline_index (events : list LiveJournalEvent) (account : AccountId) : option nat :=
  fst <$> list_find (λ event, ev_account_id event = account ∧ is_baseline event = true) events.
Definition baseline_seq (events : list LiveJournalEvent) (account : AccountId) : option Z :=
  index ← first_account_baseline_index events account; ev_seq <$> events !! index.
Definition after_baselines (events : list LiveJournalEvent) : list LiveJournalEvent :=
  filter (λ event, opt_some (λ seq, seq <=? ev_seq event) (baseline_seq events (ev_account_id event)) = true) events.
(** The outer verifier sees each admission with the records before it, once per dispatch. *)
Fixpoint check_admissions (verify_admission : LiveJournalEvent → list LiveJournalEvent → result LiveJournalError unit)
    (keys : list (DispatchKey * unit)) (before events : list LiveJournalEvent) : result LiveJournalError unit :=
  match events with
  | [] => Ok tt
  | event :: events =>
      keys ← match ev_payload event with
             | AdmissionEvaluated admission =>
                 let key := dispatch_key (ev_account_id event) (ae_identity admission) in
                 if bs_mem key keys then Err OrderFactConflict
                 else _ ← verify_admission event before; Ok (bs_insert key keys)
             | _ => Ok keys
             end;
      check_admissions verify_admission keys (before ++ [event]) events
  end.
Definition recover_events (verify_admissions : bool)
    (verify_admission : LiveJournalEvent → list LiveJournalEvent → result LiveJournalError unit)
    (events : list LiveJournalEvent) : panicking LiveJournalError LiveRecoveryInventory :=
  let events := after_baselines events in
  _ ← throws (if verify_admissions then check_admissions verify_admission [] [] events else Ok tt);
  s ← fold_records verify_admissions LiveRecoveryFold_default events;
  mret (inventory s).
(** The era's prefix is verified in its own file and must name the recovered one. *)
Definition after_prefix (f : LogFile) (era : option (LogFile * LogTailBinding)) (events : list LiveJournalEvent) :
    panicking LiveJournalError (list LiveJournalEvent) :=
  match era with
  | None => mret events
  | Some (prefix_file, prefix) =>
      current ← (map_err LiveEventLog <$> verify_prefix prefix_file prefix);
      requested ← throws (map_err LiveIo (file_resolved f));
      if bool_decide (tb_path current ≠ requested)
      then throw (LiveEventLog (LogIo {| io_kind := InvalidInput;
                                         io_message := "live recovery prefix belongs to a different journal" |}))
      else mret (filter (λ event, opt_all (λ last, event_seq last <? ev_seq event) (tb_last_sequence prefix) = true) events)
  end.
Definition build_recovery_inventory (f : LogFile) (era : option (LogFile * LogTailBinding)) (verify_admissions : bool)
    (verify_admission : LiveJournalEvent → list LiveJournalEvent → result LiveJournalError unit) :
    panicking LiveJournalError LiveRecoveryInventory :=
  events ← replay_all f;
  events ← after_prefix f era events;
  recover_events verify_admissions verify_admission events.
Definition recovery_inventory (f : LogFile) (era : option (LogFile * LogTailBinding)) :
    panicking LiveJournalError LiveRecoveryInventory :=
  build_recovery_inventory f era true (λ _ _, Ok tt).
Definition structural_recovery_inventory (f : LogFile) (era : option (LogFile * LogTailBinding)) :
    panicking LiveJournalError LiveRecoveryInventory :=
  build_recovery_inventory f era false (λ _ _, Ok tt).
End Recovery.

(** ** The life of a dispatch *)
Section Lifecycle.
Context `{TO : TimeOps} `{DO : DecimalOps} {B3 : Blake3} {LJ : LogJson} {ZS : Zstd} {AV : AccountVenue} {AL : Alloy} {TJ : ToVec JsonValue} {EJ : LiveJson}.
Context {VD : ToVec (string * SanitizedHttpRequestDescriptor)} {VA : ToVec (string * RawHttpAttempt)}.

(** One dispatch of one account: its admission, and its order. *)
Inductive AdmissionPhase : Type :=
| NotEvaluated
| AdmissionOpen (seq : Z) (a : LiveAdmissionEvaluationAudit)
| AdmissionClosed.
Inductive OrderPhase : Type :=
| NoOrder
| OrderOpen (seq : Z) (identity : LiveOrderIdentity) (order_hash : string) (prepared : option LiveOrderPreparedAudit)
| OrderEnded.
Record Life := { life_admission : AdmissionPhase; life_order : OrderPhase }.
Definition fresh_life : Life := {| life_admission := NotEvaluated; life_order := NoOrder |}.

(** The prepared order is the one that was admitted. *)
Record admitted_as (a : LiveAdmissionEvaluationAudit) (p : LiveOrderPreparedAudit) : Prop := {
  ad_identity : ae_identity a = op_identity p;
  ad_binding : ae_frozen_binding a = op_frozen_binding p;
  ad_economic : rust_eq (ae_economic a) (op_economic p) = true;
  ad_account : ae_account_state a = Some (op_account_state p)
}.
(** The fill is exactly the signed order's. *)
Definition settles (p : LiveOrderPreparedAudit) (f : OrderFillFinalizedAudit) : Prop :=
  ∃ fills, final_fills p (of_principal f) (of_quantity f) (of_fee f) fills ∧ of_matched_logs f = log_identities fills.

(** What each kind of record may do to the life of its dispatch. *)
Inductive life_step (event : LiveJournalEvent) : Life → Life → Prop :=
| step_approved a o : ev_payload event = AdmissionEvaluated a → ae_verdict a = VerdictApproved →
    life_step event {| life_admission := NotEvaluated; life_order := o |}
                    {| life_admission := AdmissionOpen (ev_seq event) a; life_order := o |}
| step_refused a reason o : ev_payload event = AdmissionEvaluated a → ae_verdict a = Refused reason →
    life_step event {| life_admission := NotEvaluated; life_order := o |}
                    {| life_admission := AdmissionClosed; life_order := o |}
| step_prepared seq a p : ev_payload event = OrderPrepared p → admitted_as a p →
    life_step event {| life_admission := AdmissionOpen seq a; life_order := NoOrder |}
                    {| life_admission := AdmissionClosed;
                       life_order := OrderOpen (ev_seq event) (op_identity p) (pb_order_hash (op_prepared p)) (Some p) |}
| step_legacy raw identity order_hash a : ev_payload event = LegacyV1 raw →
    prepared_order raw = Ok (Some (identity, order_hash)) →
    life_step event {| life_admission := a; life_order := NoOrder |}
                    {| life_admission := a; life_order := OrderOpen (ev_seq event) identity order_hash None |}
| step_admission_failed seq a failed o : ev_payload event = OrderPreparationFailed failed →
    ae_identity a = pf_identity failed →
    life_step event {| life_admission := AdmissionOpen seq a; life_order := o |}
                    {| life_admission := AdmissionClosed; life_order := o |}
| step_order_failed failed a seq order_hash p : ev_payload event = OrderPreparationFailed failed →
    (∀ seq' a', a ≠ AdmissionOpen seq' a') →
    life_step event {| life_admission := a; life_order := OrderOpen seq (pf_identity failed) order_hash p |}
                    {| life_admission := a; life_order := OrderEnded |}
| step_posted posted a seq p : ev_payload event = OrderPosted posted →
    let life := {| life_admission := a; life_order := OrderOpen seq (po_identity posted) (po_order_hash posted) p |} in
    life_step event life life
| step_observed r a seq p : ev_payload event = OrderReconciled r →
    match or_outcome r with OutcomeMatched _ _ _ | OutcomeAmbiguous _ | FinalityPending _ => True | _ => False end →
    let life := {| life_admission := a; life_order := OrderOpen seq (or_identity r) (or_order_hash r) p |} in
    life_step event life life
| step_closed r a seq p : ev_payload event = OrderReconciled r →
    match or_outcome r with OutcomeKilled _ | OutcomeRejected _ _ | FinalityConflict _ => True | _ => False end →
    life_step event {| life_admission := a; life_order := OrderOpen seq (or_identity r) (or_order_hash r) p |}
                    {| life_admission := a; life_order := OrderEnded |}
| step_repeated r a : ev_payload event = OrderReconciled r →
    let life := {| life_admission := a; life_order := OrderEnded |} in life_step event life life
| step_finalized f a order_hash p : ev_payload event = OrderFillFinalized f → settles p f →
    life_step event {| life_admission := a;
                       life_order := OrderOpen (of_prepared_journal_seq f) (of_identity f) order_hash (Some p) |}
                    {| life_admission := a; life_order := OrderEnded |}.
(** The dispatch a record is about. *)
Definition event_key (event : LiveJournalEvent) : option DispatchKey :=
  dispatch_key (ev_account_id event) <$>
  match ev_payload event with
  | AdmissionEvaluated a => Some (ae_identity a)
  | OrderPrepared p => Some (op_identity p)
  | OrderPreparationFailed failed => Some (pf_identity failed)
  | OrderPosted posted => Some (po_identity posted)
  | OrderReconciled r => Some (or_identity r)
  | OrderFillFinalized f => Some (of_identity f)
  | LegacyV1 raw => match prepared_order raw with Ok (Some legacy) => Some legacy.1 | _ => None end
  | _ => None
  end.
Inductive life_run : list LiveJournalEvent → Life → Life → Prop :=
| run_nil l : life_run [] l l
| run_snoc events event l l' l'' : life_run events l l' → life_step event l' l'' → life_run (events ++ [event]) l l''.
Definition events_of (k : DispatchKey) (events : list LiveJournalEvent) : list LiveJournalEvent :=
  filter (λ event, event_key event = Some k) events.

(** ** The fold's state as lives *)
Definition order_phase (o : option OpenOrderState) : OrderPhase :=
  match o with
  | None => NoOrder
  | Some o => if oo_terminal o then OrderEnded
              else OrderOpen (oe_prepared_journal_seq (oo_entry o)) (oe_identity (oo_entry o)) (oo_order_hash o) (oo_prepared o)
  end.
Definition admission_phase (a : option (Z * LiveAdmissionEvaluationAudit)) (evaluated : bool) : AdmissionPhase :=
  match a with
  | Some (seq, a) => AdmissionOpen seq a
  | None => if evaluated then AdmissionClosed else NotEvaluated
  end.
Definition life (s : LiveRecoveryFold) (k : DispatchKey) : Life := {|
  life_admission := admission_phase (bt_get k (rf_approved_admissions s)) (bs_mem k (rf_evaluated_admissions s));
  life_order := order_phase (bt_get k (rf_orders s))
|}.
Record fold_wf (s : LiveRecoveryFold) : Prop := {
  wf_orders : bt_wf (rf_orders s);
  wf_approved : bt_wf (rf_approved_admissions s);
  wf_evaluated : bt_wf (rf_evaluated_admissions s);
  wf_included : ∀ k x, bt_get k (rf_approved_admissions s) = Some x → bs_mem k (rf_evaluated_admissions s) = true
}.
Lemma fold_wf_default : fold_wf LiveRecoveryFold_default.
Proof. split; try constructor. done. Qed.

Lemma bs_mem_insert {K} `{Ord K} `{!EqDecision K} (k k' : K) s : bt_wf s →
  bs_mem k' (bs_insert k s) = if decide (k' = k) then true else bs_mem k' s.
Proof. intros Hw. unfold bs_mem, bs_insert. rewrite bt_get_insert by done. by destruct (decide _). Qed.

(** *** Updates *)
Lemma put_order_wf key o s : fold_wf s → fold_wf (put_order key o s).
Proof. intros [H1 H2 H3 H4]. split; simpl; try done. by apply bt_insert_wf. Qed.
Lemma life_put_order key o s k : fold_wf s →
  life (put_order key o s) k = if decide (k = key) then {| life_admission := life_admission (life s k); life_order := order_phase (Some o) |}
                               else life s k.
Proof. intros Hw. unfold life. simpl. rewrite bt_get_insert by apply Hw. by destruct (decide _). Qed.
Lemma take_approved_wf key s : fold_wf s → fold_wf (take_approved key s).
Proof.
  intros [H1 H2 H3 H4]. split; simpl; try done; [by apply bt_remove_wf|]. intros k x. rewrite bt_get_remove by done.
  destruct (decide _); [done|]. apply H4.
Qed.
Lemma life_take_approved key s k : fold_wf s → is_Some (bt_get key (rf_approved_admissions s)) →
  life (take_approved key s) k = if decide (k = key) then {| life_admission := AdmissionClosed; life_order := life_order (life s k) |}
                                 else life s k.
Proof.
  intros Hw [x Hx]. unfold life. simpl. rewrite bt_get_remove by apply Hw. destruct (decide _) as [->|]; [|done].
  simpl. by rewrite (wf_included _ Hw _ _ Hx).
Qed.
Lemma mark_evaluated_wf key s : fold_wf s → fold_wf (mark_evaluated key s).
Proof.
  intros [H1 H2 H3 H4]. split; simpl; try done; [by apply bt_insert_wf|]. intros k x Hx. rewrite bs_mem_insert by done.
  destruct (decide _); [done|]. by eapply H4.
Qed.
Lemma life_mark_evaluated key s k : fold_wf s → bs_mem key (rf_evaluated_admissions s) = false →
  life (mark_evaluated key s) k = if decide (k = key) then {| life_admission := AdmissionClosed; life_order := life_order (life s k) |}
                                  else life s k.
Proof.
  intros Hw Hm. unfold life. simpl. rewrite bs_mem_insert by apply Hw. destruct (decide _) as [->|]; [|done]. simpl.
  destruct (bt_get key (rf_approved_admissions s)) as [x|] eqn:E; [|done]. by rewrite (wf_included _ Hw _ _ E) in Hm.
Qed.
Lemma approve_wf key seq a s : fold_wf s → bs_mem key (rf_evaluated_admissions s) = true → fold_wf (approve key seq a s).
Proof.
  intros [H1 H2 H3 H4] Hm. split; simpl; try done; [by apply bt_insert_wf|]. intros k x. rewrite bt_get_insert by done.
  destruct (decide _) as [->|]; [done|]. apply H4.
Qed.
Lemma life_approve key seq a s k : fold_wf s →
  life (approve key seq a s) k = if decide (k = key) then {| life_admission := AdmissionOpen seq a; life_order := life_order (life s k) |}
                                 else life s k.
Proof. intros Hw. unfold life. simpl. rewrite bt_get_insert by apply Hw. by destruct (decide _). Qed.
Lemma life_unevaluated s k : fold_wf s → bs_mem k (rf_evaluated_admissions s) = false →
  life s k = {| life_admission := NotEvaluated; life_order := life_order (life s k) |}.
Proof.
  intros Hw Hm. unfold life. simpl. f_equal. rewrite Hm. destruct (bt_get k (rf_approved_admissions s)) as [x|] eqn:E; [|done].
  by rewrite (wf_included _ Hw _ _ E) in Hm.
Qed.

(** *** One record *)
Definition refines (event : LiveJournalEvent) (s s' : LiveRecoveryFold) : Prop :=
  fold_wf s' ∧ ∀ k, if decide (event_key event = Some k) then life_step event (life s k) (life s' k) else life s' k = life s k.
(** A record that changes one dispatch only. *)
Lemma refines_key event key s s' : event_key event = Some key → fold_wf s' → life_step event (life s key) (life s' key) →
  (∀ k, k ≠ key → life s' k = life s k) → refines event s s'.
Proof.
  intros He Hw Hs Ho. split; [done|]. intros k. rewrite He. destruct (decide _) as [[= <-]|Hn]; [done|]. apply Ho. congruence.
Qed.
Lemma life_order_eq s k : life_order (life s k) = order_phase (bt_get k (rf_orders s)).
Proof. done. Qed.
Lemma insert_open_order_Ok account seq identity order_hash prepared s s' : fold_wf s →
  insert_open_order account seq identity order_hash prepared s = Some (Ok s') →
  fold_wf s' ∧ life_order (life s (dispatch_key account identity)) = NoOrder
  ∧ ∀ k, life s' k = if decide (k = dispatch_key account identity)
                     then {| life_admission := life_admission (life s k); life_order := OrderOpen seq identity order_hash prepared |}
                     else life s k.
Proof.
  intros Hw. unfold insert_open_order. case_bool_decide as Hn; [done|]. intros [= <-].
  apply eq_None_not_Some in Hn. split; [by apply put_order_wf|]. split; [by rewrite life_order_eq, Hn|].
  intros k. by rewrite life_put_order.
Qed.
Lemma fold_prepared_refines event prepared s s' : fold_wf s → ev_payload event = OrderPrepared prepared →
  fold_prepared event prepared s = Some (Ok s') → refines event s s'.
Proof.
  intros Hw He. unfold fold_prepared. set (key := dispatch_key _ _).
  intros ([seq a] & Ha%throws_Ok%ok_or_Ok & H)%panicking_bind_Ok. cbn beta iota in H. destruct (_ || _) eqn:E; [done|].
  apply orb_false_iff in E as [[[E1%bool_decide_eq_false%dec_stable E2%bool_decide_eq_false%dec_stable]%orb_false_iff
    E3%negb_false_iff]%orb_false_iff E4%bool_decide_eq_false%dec_stable].
  assert (is_Some (bt_get key (rf_approved_admissions s))) as Hsome by eauto.
  apply insert_open_order_Ok in H as (Hw' & Hn & Hl); [|by apply take_approved_wf]. fold key in Hn, Hl.
  rewrite (life_take_approved _ _ _ Hw Hsome), decide_True in Hn by done.
  apply (refines_key event key); [by unfold event_key; rewrite He|done| |].
  - rewrite Hl, !decide_True, (life_take_approved _ _ _ Hw Hsome), decide_True by done.
    replace (life s key) with {| life_admission := AdmissionOpen seq a; life_order := NoOrder |}.
    + by apply step_prepared.
    + unfold life in *. simpl in *. by rewrite Ha, Hn.
  - intros k Hk. rewrite Hl, decide_False, (life_take_approved _ _ _ Hw Hsome), decide_False by done. done.
Qed.
Lemma fold_admission_refines verify event a s s' : fold_wf s → ev_payload event = AdmissionEvaluated a →
  fold_admission verify event a s = Some (Ok s') → refines event s s'.
Proof.
  intros Hw He. unfold fold_admission. set (key := dispatch_key _ _). intros ([] & _ & H)%panicking_bind_Ok.
  destruct (bs_mem key _) eqn:Hm; [done|]. injection H as <-.
  pose proof (mark_evaluated_wf key s Hw) as Hw1.
  assert (bs_mem key (rf_evaluated_admissions (mark_evaluated key s)) = true) as Hm1
    by (simpl; rewrite bs_mem_insert by apply Hw; by rewrite decide_True).
  assert (event_key event = Some key) as Hk by (unfold event_key; by rewrite He).
  destruct (ae_verdict a) as [|reason] eqn:Hv; apply (refines_key event key); try done.
  - by apply approve_wf.
  - rewrite life_approve, decide_True, life_mark_evaluated, decide_True, (life_unevaluated s key Hw Hm) by done.
    by apply step_approved.
  - intros k Hn. by rewrite life_approve, decide_False, life_mark_evaluated, decide_False.
  - destruct Hw1 as [? ? ? ?]. by split.
  - change (life (push_terminal _ _ ?x) key) with (life x key).
    rewrite life_mark_evaluated, decide_True, (life_unevaluated s key Hw Hm) by done. by eapply step_refused.
  - intros k Hn. change (life (push_terminal _ _ ?x) k) with (life x k). by rewrite life_mark_evaluated, decide_False.
Qed.
(** An update of the open order of the record's dispatch. *)
Lemma put_order_refines event key o o' s : fold_wf s → event_key event = Some key → bt_get key (rf_orders s) = Some o →
  (∀ a, life_step event {| life_admission := a; life_order := order_phase (Some o) |}
                        {| life_admission := a; life_order := order_phase (Some o') |}) →
  refines event s (put_order key o' s).
Proof.
  intros Hw Hk Ho Hs. apply (refines_key event key); [done|by apply put_order_wf| |].
  - rewrite life_put_order, decide_True by done. replace (life s key) with
      {| life_admission := life_admission (life s key); life_order := order_phase (Some o) |}; [apply Hs|].
    unfold life. simpl. by rewrite Ho.
  - intros k Hn. by rewrite life_put_order, decide_False.
Qed.
Lemma same_order_refines event key o s : fold_wf s → event_key event = Some key → bt_get key (rf_orders s) = Some o →
  (∀ a, life_step event {| life_admission := a; life_order := order_phase (Some o) |}
                        {| life_admission := a; life_order := order_phase (Some o) |}) →
  refines event s s.
Proof.
  intros Hw Hk Ho Hs. apply (refines_key event key); [done|done| |done].
  replace (life s key) with {| life_admission := life_admission (life s key); life_order := order_phase (Some o) |}; [apply Hs|].
  unfold life. simpl. by rewrite Ho.
Qed.
Lemma push_terminal_refines event key entry s s' : refines event s s' → refines event s (push_terminal key entry s').
Proof. intros [[? ? ? ?] Hl]. split; [by split|exact Hl]. Qed.
Lemma fold_preparation_failed_refines event failed s s' : fold_wf s → ev_payload event = OrderPreparationFailed failed →
  fold_preparation_failed event failed s = Some (Ok s') → refines event s s'.
Proof.
  intros Hw He. unfold fold_preparation_failed. set (key := dispatch_key _ _). intros (s1 & H1 & [= <-])%panicking_bind_Ok.
  apply push_terminal_refines. assert (event_key event = Some key) as Hk by (unfold event_key; by rewrite He).
  destruct (bt_get key (rf_approved_admissions s)) as [[seq a]|] eqn:Ha.
  - case_bool_decide as Hi; [done|]. injection H1 as <-.
    assert (is_Some (bt_get key (rf_approved_admissions s))) as Hsome by eauto.
    apply (refines_key event key); [done|by apply take_approved_wf| |].
    + rewrite life_take_approved, decide_True by done. replace (life s key) with
        {| life_admission := AdmissionOpen seq a; life_order := life_order (life s key) |}; [by eapply step_admission_failed|].
      unfold life. simpl. by rewrite Ha.
    + intros k Hn. by rewrite life_take_approved, decide_False.
  - apply panicking_bind_Ok in H1 as (o & Ho%throws_Ok%ok_or_Ok & H1). destruct (_ || _) eqn:E; [done|].
    apply orb_false_iff in E as [E1%bool_decide_eq_false%dec_stable E2]. injection H1 as <-.
    apply (refines_key event key); [done|by apply put_order_wf| |].
    + rewrite life_put_order, decide_True by done. replace (life s key) with
        {| life_admission := life_admission (life s key); life_order := order_phase (Some o) |} by (unfold life; simpl; by rewrite Ho).
      unfold order_phase at 1. rewrite E2, E1. apply step_order_failed; [done|].
      intros seq' a'. unfold life. simpl. rewrite Ha. simpl. by destruct (bs_mem _ _).
    + intros k Hn. by rewrite life_put_order, decide_False.
Qed.
Lemma fact_posted_matches o posted : fact_matches o (FactPosted posted) = true → oo_terminal o = false →
  ∃ seq, order_phase (Some o) = OrderOpen seq (po_identity posted) (po_order_hash posted) (oo_prepared o).
Proof.
  intros [H1%bool_decide_eq_true H2%bool_decide_eq_true]%andb_true_iff Ht. simpl. rewrite Ht, H1, H2. eauto.
Qed.
Lemma fact_reconciled_matches o r : fact_matches o (FactReconciled r) = true → oo_terminal o = false →
  ∃ seq, order_phase (Some o) = OrderOpen seq (or_identity r) (or_order_hash r) (oo_prepared o).
Proof.
  intros [[H1%bool_decide_eq_true H2%bool_decide_eq_true]%andb_true_iff _]%andb_true_iff Ht. simpl. rewrite Ht, H1, H2. eauto.
Qed.
Lemma fold_posted_refines event posted s s' : fold_wf s → ev_payload event = OrderPosted posted →
  fold_posted event posted s = Some (Ok s') → refines event s s'.
Proof.
  intros Hw He. unfold fold_posted. intros (o & Ho%throws_Ok%ok_or_Ok & H)%panicking_bind_Ok.
  destruct (_ || _) eqn:E; [done|]. injection H as <-. apply orb_false_iff in E as [E1 E2%negb_false_iff].
  eapply same_order_refines; [done|by unfold event_key; rewrite He|exact Ho|]. intros a.
  destruct (fact_posted_matches _ _ E2 E1) as [seq ->]. by apply step_posted.
Qed.
(** A reconciliation keeps which order it is about. *)
Lemma reconcile_polygon_same o r o' : reconcile_polygon o r = Ok o' → order_phase (Some o') = order_phase (Some o).
Proof.
  unfold reconcile_polygon. destruct (or_source r); [by intros [= <-]..|].
  intros (p & _ & H)%result_bind_Ok. apply result_bind_Ok in H as (im & _ & [= <-]). by destruct (or_outcome r).
Qed.
Lemma fold_reconciled_refines event r s s' : fold_wf s → ev_payload event = OrderReconciled r →
  fold_reconciled event r s = Some (Ok s') → refines event s s'.
Proof.
  intros Hw He. unfold fold_reconciled. set (key := dispatch_key _ _). intros (o & Ho%throws_Ok%ok_or_Ok & H)%panicking_bind_Ok.
  assert (event_key event = Some key) as Hk by (unfold event_key; by rewrite He).
  destruct (oo_terminal o) eqn:Ht.
  - destruct (match oo_terminal_reconciliation o with Some _ => _ | None => _ end); [|done]. injection H as <-.
    eapply same_order_refines; [done|done|exact Ho|]. intros a. simpl. rewrite Ht. by eapply step_repeated.
  - destruct (negb _) eqn:E; [done|]. apply negb_false_iff in E.
    apply panicking_bind_Ok in H as (o1 & H1%throws_Ok%reconcile_polygon_same & [= <-]).
    eapply put_order_refines; [done|done|exact Ho|]. intros a.
    destruct (fact_reconciled_matches _ _ E Ht) as [seq Hp]. rewrite Hp in *.
    unfold reconcile_outcome. destruct (or_outcome r) eqn:Hr; try (rewrite H1; by eapply step_observed; rewrite ?Hr).
    + change (order_phase (Some (_ <| oo_transaction_hashes := _ |>))) with (order_phase (Some o1)). rewrite H1.
      by eapply step_observed; rewrite ?Hr.
    + change (order_phase (Some (_ <| oo_terminal_reconciliation := _ |>))) with OrderEnded. by eapply step_closed; rewrite ?Hr.
    + change (order_phase (Some (_ <| oo_terminal_reconciliation := _ |>))) with OrderEnded. by eapply step_closed; rewrite ?Hr.
    + change (order_phase (Some (_ <| oo_terminal_reconciliation := _ |>))) with OrderEnded. by eapply step_closed; rewrite ?Hr.
Qed.
Lemma verified_settles prepared hashes f immutable : verify_polygon_finalized prepared hashes f immutable = Ok tt → settles prepared f.
Proof.
  intros (receipts & head & blocks & [_ _ _ _ (chain_id & _ & Hc)])%verify_polygon_finalized_Ok.
  apply classify_final in Hc as (fills & ds & Hff & Hlogs & _). by exists fills.
Qed.
Lemma fold_finalized_refines event f s s' : fold_wf s → ev_payload event = OrderFillFinalized f →
  fold_finalized event f s = Some (Ok s') → refines event s s'.
Proof.
  intros Hw He. unfold fold_finalized. intros (o & Ho%throws_Ok%ok_or_Ok & H)%panicking_bind_Ok.
  destruct (negb _) eqn:E; [done|]. apply negb_false_iff, andb_true_iff in E as [E1%bool_decide_eq_true E2%Z.eqb_eq].
  destruct (_ || _) eqn:Et; [done|]. apply orb_false_iff in Et as [Et _].
  apply panicking_bind_Ok in H as (p & Hp%throws_Ok%ok_or_Ok & H).
  apply panicking_bind_Ok in H as ([] & Hv%throws_Ok & [= <-]).
  eapply put_order_refines; [done|by unfold event_key; rewrite He|exact Ho|]. intros a.
  unfold order_phase at 1. rewrite Et, <- E1, <- E2, Hp. eapply step_finalized; [done|]. by eapply verified_settles.
Qed.
Lemma fold_legacy_refines event raw s s' : fold_wf s → ev_payload event = LegacyV1 raw →
  fold_legacy event raw s = Some (Ok s') → refines event s s'.
Proof.
  intros Hw He. unfold fold_legacy. intros (o & Ho%throws_Ok%map_err_Ok & H)%panicking_bind_Ok.
  destruct o as [[order_identity order_hash]|].
  2:{ injection H as <-. split; [done|]. intros k. unfold event_key. rewrite He, Ho. by rewrite decide_False. }
  apply insert_open_order_Ok in H as (Hw' & Hn & Hl); [|done].
  eapply refines_key; [by unfold event_key; rewrite He, Ho|done| |]; simpl.
  - rewrite Hl, decide_True by done. destruct (life s _) as [adm ord] eqn:El. simpl in *. subst ord. by eapply step_legacy.
  - intros k Hk. by rewrite Hl, decide_False.
Qed.
Lemma refines_nothing event s s' : fold_wf s' → event_key event = None → (∀ k, life s' k = life s k) → refines event s s'.
Proof. intros Hw He Hl. split; [done|]. intros k. by rewrite He, decide_False. Qed.
Lemma fold_apply_refines verify s event s' : fold_wf s → fold_apply verify s event = Some (Ok s') → refines event s s'.
Proof.
  intros Hw. unfold fold_apply. set (s0 := note_account _ s). assert (fold_wf s0) as Hw0 by (destruct Hw; by split).
  change (refines event s s') with (refines event s0 s'). clearbody s0. clear Hw.
  destruct (ev_payload event) eqn:He;
    try (intros [= <-]; apply refines_nothing; [done|by unfold event_key; rewrite He|done]).
  - by apply fold_admission_refines.
  - by apply fold_preparation_failed_refines.
  - by apply fold_prepared_refines.
  - by apply fold_posted_refines.
  - by apply fold_reconciled_refines.
  - by apply fold_finalized_refines.
  - unfold fold_mark. destruct (pm_kind audit); [destruct (_ || _); [done|]|]; intros [= <-];
      (apply refines_nothing; [destruct Hw0; by split|by unfold event_key; rewrite He|done]).
  - by apply fold_legacy_refines.
Qed.

(** *** All records *)
Lemma fold_records_snoc verify events event s : fold_records verify s (events ++ [event])
  = s' ← fold_records verify s events; fold_apply verify s' event.
Proof.
  revert s. induction events as [|e events IH]; intros s; simpl.
  - unfold mbind, panicking_mbind, mret, panicking_mret. destruct (fold_apply verify s event) as [[]|]; done.
  - destruct (fold_apply verify s e) as [[s'|]|]; simpl; [apply IH|done..].
Qed.
Lemma fold_records_wf verify events s : fold_records verify LiveRecoveryFold_default events = Some (Ok s) → fold_wf s.
Proof.
  revert s. induction events as [|event events IH] using rev_ind; intros s; [intros [= <-]; apply fold_wf_default|].
  rewrite fold_records_snoc. intros (s1 & H1%IH & H)%panicking_bind_Ok. by apply fold_apply_refines in H as [? _].
Qed.
(** C13: Recovery accepts exactly histories of dispatches.  Whenever the fold accepts the records of a
    journal, the records about each dispatch of each account are a run of its life cycle: one
    evaluation; an order only from an approved admission that names the same identity, credentials,
    economics and account state; posts and reconciliations only of that order while it is open; at most
    one end, by failure, kill, rejection, conflict or a fill settled on chain.  The fold's state is the
    state of these lives. *)
Theorem recovery_refines_lifecycle verify events s k :
  fold_records verify LiveRecoveryFold_default events = Some (Ok s) → life_run (events_of k events) fresh_life (life s k).
Proof.
  revert s. induction events as [|event events IH] using rev_ind; intros s; [intros [= <-]; apply run_nil|].
  rewrite fold_records_snoc. intros (s1 & H1 & H)%panicking_bind_Ok. specialize (IH _ H1).
  apply fold_apply_refines in H as [_ Hl]; [|by eapply fold_records_wf]. specialize (Hl k).
  unfold events_of in *. rewrite filter_app, filter_cons, filter_nil. destruct (decide _); [by econstructor|].
  by rewrite app_nil_r, Hl.
Qed.

(** ** Where an open order comes from *)

(** Record [j] admitted the dispatch, and its approval re-evaluates on its own evidence. *)
Definition admitted_at (events : list LiveJournalEvent) (j : nat) (e : LiveJournalEvent) (k : DispatchKey)
    (a : LiveAdmissionEvaluationAudit) : Prop :=
  events !! j = Some e ∧ ev_payload e = AdmissionEvaluated a ∧ event_key e = Some k ∧ ae_verdict a = VerdictApproved
  ∧ ∃ b, affordable a (ev_timestamp e) b ∧ account_slug (ab_account_id b) = k.1.
(** Record [j2] prepared the order from the admission of record [j1]. *)
Definition prepared_at (events : list LiveJournalEvent) (j1 j2 : nat) (k : DispatchKey) (a : LiveAdmissionEvaluationAudit)
    (p : LiveOrderPreparedAudit) (seq : Z) : Prop :=
  ∃ e1 e2, admitted_at events j1 e1 k a ∧ (j1 < j2)%nat ∧ events !! j2 = Some e2 ∧ ev_payload e2 = OrderPrepared p
    ∧ event_key e2 = Some k ∧ ev_seq e2 = seq ∧ admitted_as a p.
Record history (events : list LiveJournalEvent) (s : LiveRecoveryFold) : Prop := {
  h_wf : bt_wf (rf_account_bindings s);
  h_bindings : ∀ slug b, bt_get slug (rf_account_bindings s) = Some b → account_slug (ab_account_id b) = slug;
  h_approved : ∀ k seq a, bt_get k (rf_approved_admissions s) = Some (seq, a) → ∃ j e, admitted_at events j e k a;
  h_orders : ∀ k o p, bt_get k (rf_orders s) = Some o → oo_prepared o = Some p →
    ∃ j1 j2 a, prepared_at events j1 j2 k a p (oe_prepared_journal_seq (oo_entry o)) ∧ oe_identity (oo_entry o) = op_identity p
}.
Lemma admitted_at_app events more j e k a : admitted_at events j e k a → admitted_at (events ++ more) j e k a.
Proof. intros (H & ?). split; [by apply lookup_app_l_Some|done]. Qed.
Lemma prepared_at_app events more j1 j2 k a p seq : prepared_at events j1 j2 k a p seq → prepared_at (events ++ more) j1 j2 k a p seq.
Proof.
  intros (e1 & e2 & H1 & Hlt & H2 & ?). exists e1, e2. split_and!; try naive_solver; [by apply admitted_at_app|by apply lookup_app_l_Some].
Qed.
(** A record that opens neither an admission nor an order keeps the history. *)
Definition no_new (s s' : LiveRecoveryFold) : Prop :=
  rf_account_bindings s' = rf_account_bindings s
  ∧ (∀ k x, bt_get k (rf_approved_admissions s') = Some x → bt_get k (rf_approved_admissions s) = Some x)
  ∧ ∀ k o p, bt_get k (rf_orders s') = Some o → oo_prepared o = Some p →
      ∃ o0, bt_get k (rf_orders s) = Some o0 ∧ oo_prepared o0 = Some p ∧ oo_entry o0 = oo_entry o.
Lemma history_no_new events event s s' : history events s → no_new s s' → history (events ++ [event]) s'.
Proof.
  intros [H0 H1 H2 H3] (Hb & Ha & Ho). split.
  - by rewrite Hb.
  - by rewrite Hb.
  - intros k seq a (j & e & H)%Ha%H2. exists j, e. by apply admitted_at_app.
  - intros k o p Hk Hp. destruct (Ho k o p Hk Hp) as (o0 & Hk0 & Hp0 & He). destruct (H3 _ _ _ Hk0 Hp0) as (j1 & j2 & a & H & Hi).
    exists j1, j2, a. rewrite <- He. split; [by apply prepared_at_app|done].
Qed.
Lemma no_new_refl s : no_new s s.
Proof. split_and!; [done|done|]. intros k o p Hk Hp. by exists o. Qed.
Lemma no_new_put s key o o' : fold_wf s → bt_get key (rf_orders s) = Some o → oo_prepared o' = oo_prepared o → oo_entry o' = oo_entry o →
  no_new s (put_order key o' s).
Proof.
  intros Hw Ho Hp He. split_and!; [done|done|]. intros k o1 p. simpl. rewrite bt_get_insert by apply Hw.
  destruct (decide _) as [->|]; [intros [= <-]; rewrite Hp; by exists o|]. by exists o1.
Qed.
Lemma no_new_take s key : fold_wf s → no_new s (take_approved key s).
Proof.
  intros Hw. split_and!; [done| |]; [|intros k o p Hk Hp; by exists o]. intros k x. simpl. rewrite bt_get_remove by apply Hw.
  by destruct (decide _).
Qed.
Lemma reconcile_polygon_prepared o r o' : reconcile_polygon o r = Ok o' → oo_prepared o' = oo_prepared o ∧ oo_entry o' = oo_entry o.
Proof.
  unfold reconcile_polygon. destruct (or_source r); [by intros [= <-]..|].
  intros (p & _ & H)%result_bind_Ok. apply result_bind_Ok in H as (im & _ & [= <-]). by destruct (or_outcome r).
Qed.
Lemma fold_admission_history events event a s s' : fold_wf s → history events s → ev_payload event = AdmissionEvaluated a →
  fold_admission true event a s = Some (Ok s') → history (events ++ [event]) s'.
Proof.
  intros Hw Hh He. unfold fold_admission. set (key := dispatch_key _ _). intros ([] & Hv & H)%panicking_bind_Ok.
  destruct (bs_mem key _); [done|]. injection H as <-. destruct (ae_verdict a) as [|reason] eqn:Hva.
  2:{ apply (history_no_new _ _ s); [done|]. apply (no_new_refl s). }
  destruct (verify_live_admission_evaluation _ _ _) as [[[]|]|] eqn:Hver; try done.
  destruct (bt_get (account_slug _) _) as [b|] eqn:Hb; [|done].
  pose proof (history_no_new _ event _ _ Hh (no_new_refl s)) as [H0 H1 H2 H3]. split; [done|done| |done].
  intros k seq a'. simpl. rewrite bt_get_insert by apply Hw. destruct (decide (k = key)) as [->|]; [|apply H2].
  intros [= <- <-]. exists (length events), event. split_and!; [by rewrite lookup_app_r, Nat.sub_diag|done| |done|].
  - unfold event_key. by rewrite He.
  - exists b. split; [by apply verified_approval|]. by apply (h_bindings _ _ Hh).
Qed.
Lemma fold_prepared_history events event p s s' : fold_wf s → history events s → ev_payload event = OrderPrepared p →
  fold_prepared event p s = Some (Ok s') → history (events ++ [event]) s'.
Proof.
  intros Hw Hh He. unfold fold_prepared. set (key := dispatch_key _ _).
  intros ([seq a] & Ha%throws_Ok%ok_or_Ok & H)%panicking_bind_Ok. cbn beta iota in H. destruct (_ || _) eqn:E; [done|].
  apply orb_false_iff in E as [[[E1%bool_decide_eq_false%dec_stable E2%bool_decide_eq_false%dec_stable]%orb_false_iff
    E3%negb_false_iff]%orb_false_iff E4%bool_decide_eq_false%dec_stable].
  unfold insert_open_order in H. case_bool_decide as Hns; [done|]. injection H as <-.
  destruct (h_approved _ _ Hh _ _ _ Ha) as (j & e & Hj).
  pose proof (history_no_new _ event _ _ Hh (no_new_take s key Hw)) as [H0 H1 H2 H3]. split; [done|done|done|].
  intros k o p'. simpl. rewrite bt_get_insert by apply Hw. destruct (decide (k = _)) as [->|]; [|apply H3].
  intros [= <-] [= <-]. exists j, (length events), a. split; [|done]. exists e, event.
  split_and!; [by apply admitted_at_app| |by rewrite lookup_app_r, Nat.sub_diag|done|by unfold event_key; rewrite He|done|by split].
  apply lookup_lt_Some with e, Hj.
Qed.
Lemma fold_order_no_new event s s' : fold_wf s →
  match ev_payload event with
  | OrderPreparationFailed failed => fold_preparation_failed event failed s = Some (Ok s')
  | OrderPosted posted => fold_posted event posted s = Some (Ok s')
  | OrderReconciled r => fold_reconciled event r s = Some (Ok s')
  | OrderFillFinalized f => fold_finalized event f s = Some (Ok s')
  | LegacyV1 raw => fold_legacy event raw s = Some (Ok s')
  | _ => False
  end → no_new s s'.
Proof.
  intros Hw. destruct (ev_payload event); try done.
  - unfold fold_preparation_failed. intros (s1 & H1 & [= <-])%panicking_bind_Ok. change (no_new s s1).
    destruct (bt_get _ (rf_approved_admissions s)) as [[seq a]|].
    + case_bool_decide; [done|]. injection H1 as <-. by apply no_new_take.
    + apply panicking_bind_Ok in H1 as (o & Ho%throws_Ok%ok_or_Ok & H1). destruct (_ || _); [done|]. injection H1 as <-.
      by eapply no_new_put.
  - unfold fold_posted. intros (o & _ & H)%panicking_bind_Ok. destruct (_ || _); [done|]. injection H as <-. apply no_new_refl.
  - unfold fold_reconciled. intros (o & Ho%throws_Ok%ok_or_Ok & H)%panicking_bind_Ok. destruct (oo_terminal o).
    { destruct (match oo_terminal_reconciliation o with Some _ => _ | None => _ end); [|done]. injection H as <-. apply no_new_refl. }
    destruct (negb _); [done|]. apply panicking_bind_Ok in H as (o1 & [Hp He]%throws_Ok%reconcile_polygon_prepared & [= <-]).
    eapply no_new_put; [done|done| |]; unfold reconcile_outcome; by destruct (or_outcome _).
  - unfold fold_finalized. intros (o & Ho%throws_Ok%ok_or_Ok & H)%panicking_bind_Ok.
    destruct (negb _); [done|]. destruct (_ || _); [done|]. apply panicking_bind_Ok in H as (p & _ & H).
    apply panicking_bind_Ok in H as ([] & _ & [= <-]). by eapply no_new_put.
  - unfold fold_legacy. intros (o & _ & H)%panicking_bind_Ok. destruct o as [[order_identity order_hash]|];
      [|injection H as <-; apply no_new_refl].
    unfold insert_open_order in H. case_bool_decide; [done|]. injection H as <-. split_and!; [done|done|].
    intros k o p. simpl. rewrite bt_get_insert by apply Hw. destruct (decide _); [by intros [= <-]|]. by exists o.
Qed.
Lemma fold_apply_history events event s s' : fold_wf s → history events s → fold_apply true s event = Some (Ok s') →
  history (events ++ [event]) s'.
Proof.
  intros Hw Hh. unfold fold_apply. set (s0 := note_account _ s). assert (fold_wf s0) as Hw0 by (destruct Hw; by split).
  assert (history events s0) as Hh0 by (destruct Hh; by split). clearbody s0. clear Hw Hh.
  destruct (ev_payload event) eqn:He; intros H;
    try (injection H as <-; apply (history_no_new _ _ s0); [done|apply no_new_refl]);
    try (apply (history_no_new _ _ s0); [done|]; apply (fold_order_no_new event); [done|by rewrite He]).
  - by eapply fold_admission_history.
  - by eapply fold_prepared_history.
  - unfold fold_mark in H. pose proof (history_no_new _ event _ _ Hh0 (no_new_refl s0)) as Hn.
    destruct (pm_kind audit); [|by injection H as <-]. destruct (_ || _) eqn:E; [done|]. injection H as <-.
    apply orb_false_iff in E as [Ev%negb_false_iff _]. destruct Hn as [N0 N1 N2 N3].
    split; [by apply bt_insert_wf| |done|done]. intros slug b. simpl. rewrite bt_get_insert by done.
    destruct (decide _) as [->|]; [|apply N1]. intros [= <-].
    by apply andb_true_iff in Ev as [[[->%bool_decide_eq_true _]%andb_true_iff _]%andb_true_iff _].
Qed.
Lemma fold_records_history events s : fold_records true LiveRecoveryFold_default events = Some (Ok s) → history events s.
Proof.
  revert s. induction events as [|event events IH] using rev_ind; intros s.
  { intros [= <-]. split; try done. constructor. }
  rewrite fold_records_snoc. intros (s1 & H1 & H)%panicking_bind_Ok.
  eapply fold_apply_history; [by eapply fold_records_wf|by apply IH|done].
Qed.

(** ** Money *)
Lemma economic_eq_debit e e' : rust_eq e e' = true →
  sz_principal (eco_sizing e) = sz_principal (eco_sizing e') ∧ fa_reserve (eco_fee e) = fa_reserve (eco_fee e').
Proof.
  unfold rust_eq at 1, partial_eq_economic. intros H. repeat (apply andb_true_iff in H as [H ?]).
  repeat match goal with
         | K : rust_eq (eco_sizing _) _ = true |- _ => unfold rust_eq at 1, partial_eq_sizing in K; repeat (apply andb_true_iff in K as [K ?])
         | K : rust_eq (eco_fee _) _ = true |- _ => unfold rust_eq at 1, partial_eq_fee in K; repeat (apply andb_true_iff in K as [K ?])
         end.
  split; match goal with
         | K : rust_eq (sz_principal _) _ = true |- sz_principal _ = _ => exact (bool_decide_eq_true_1 _ K)
         | K : rust_eq (fa_reserve _) _ = true |- fa_reserve _ = _ => exact (bool_decide_eq_true_1 _ K)
         end.
Qed.
Lemma settles_within_debit a p f : admitted_as a p → settles p f →
  atomic (of_principal f) + atomic (of_fee f) ≤ worst_debit (ae_economic a).
Proof.
  intros [_ _ He _] (fills & [_ _ _ _ _ [_ Hp] _ [Hr _]] & _). apply economic_eq_debit in He as [H1 H2].
  unfold worst_debit. rewrite H1, H2, <- Hp. lia.
Qed.
(** An order that ended stays ended. *)
Lemma ended_stays event l l' : life_step event l l' → life_order l = OrderEnded → life_order l' = OrderEnded.
Proof. destruct 1; simpl; intros; simplify_eq; done. Qed.
Lemma ended_never_finalized event l l' f : life_step event l l' → ev_payload event = OrderFillFinalized f →
  life_order l ≠ OrderEnded ∧ life_order l' = OrderEnded.
Proof. destruct 1; simpl; intros; first [exfalso; congruence|by split]. Qed.
Lemma fold_records_app verify events more s s' : fold_records verify s (events ++ more) = Some (Ok s') →
  ∃ s1, fold_records verify s events = Some (Ok s1) ∧ fold_records verify s1 more = Some (Ok s').
Proof.
  revert s. induction events as [|e events IH]; intros s; simpl; [by exists s|].
  intros (s1 & H1 & (s2 & H2 & H3)%IH)%panicking_bind_Ok. exists s2. split; [|done]. apply panicking_bind_Ok. by exists s1.
Qed.
Lemma fold_records_ended verify events s s' k : fold_wf s → fold_records verify s events = Some (Ok s') →
  life_order (life s k) = OrderEnded →
  life_order (life s' k) = OrderEnded
  ∧ ∀ event f, event ∈ events → ev_payload event = OrderFillFinalized f → event_key event ≠ Some k.
Proof.
  revert s. induction events as [|e events IH]; intros s Hw; simpl; [intros [= <-]; set_solver|].
  intros (s1 & H1 & H)%panicking_bind_Ok He. apply fold_apply_refines in H1 as [Hw1 Hl]; [|done]. specialize (Hl k).
  assert (life_order (life s1 k) = OrderEnded) as He1.
  { destruct (decide _); [by eapply ended_stays|by rewrite Hl]. }
  destruct (IH _ Hw1 H He1) as [Hs' Hno]. split; [done|]. intros event f [->|Hin]%elem_of_cons Hf; [|by eapply Hno].
  intros Hk. rewrite decide_True in Hl by done. by destruct (ended_never_finalized _ _ _ _ Hl Hf).
Qed.
Lemma finalized_once verify events s i i' e e' f f' k : fold_records verify LiveRecoveryFold_default events = Some (Ok s) →
  events !! i = Some e → events !! i' = Some e' → ev_payload e = OrderFillFinalized f → ev_payload e' = OrderFillFinalized f' →
  event_key e = Some k → event_key e' = Some k → (i < i')%nat → False.
Proof.
  intros H Hi Hi' Hf Hf' Hk Hk' Hlt. apply list_elem_of_split_length in Hi as (before & after & -> & ->).
  destruct (fold_records_app _ _ _ _ _ H) as (s0 & H0 & (s1 & H1 & H2)%panicking_bind_Ok).
  apply fold_apply_refines in H1 as [Hw1 Hl]; [|by eapply fold_records_wf]. specialize (Hl k). rewrite decide_True in Hl by done.
  destruct (ended_never_finalized _ _ _ _ Hl Hf) as [_ He]. destruct (fold_records_ended _ _ _ _ _ Hw1 H2 He) as [_ Hno].
  apply (Hno e' f'); [|done..]. rewrite lookup_app_r, lookup_cons_ne_0 in Hi' by lia. by eapply list_elem_of_lookup_2.
Qed.
(** C12: A fill the journal finalizes was admitted and affordable.  In a journal the verifying recovery
    accepts, every finalized fill has before it the record that prepared exactly this order and, before
    that, the approval it was prepared from, which re-evaluates on the account's own captured evidence.
    What left the account, the principal with the fee, is at most the worst debit admitted, and so at
    most the balance, the allowance and the free collateral of that evidence; and no other record
    finalizes the same dispatch. *)
Theorem finalized_fill_was_admitted events s i event f :
  fold_records true LiveRecoveryFold_default events = Some (Ok s) → events !! i = Some event →
  ev_payload event = OrderFillFinalized f →
  ∃ j1 j2 a p account k,
    prepared_at events j1 j2 k a p (of_prepared_journal_seq f) ∧ (j2 < i)%nat ∧ event_key event = Some k
    ∧ op_identity p = of_identity f ∧ settles p f
    ∧ ae_account_state a = Some account
    ∧ atomic (of_principal f) + atomic (of_fee f) ≤ worst_debit (ae_economic a)
    ∧ worst_debit (ae_economic a) ≤ atomic (as_collateral_balance account)
    ∧ worst_debit (ae_economic a) ≤ atomic (as_allowance account)
    ∧ worst_debit (ae_economic a) ≤ atomic (as_reconciled_free_collateral account)
    ∧ ∀ i' event' f', events !! i' = Some event' → ev_payload event' = OrderFillFinalized f' → event_key event' = Some k →
        i' = i.
Proof.
  intros H Hi Hf. pose proof Hi as Hi0. apply list_elem_of_split_length in Hi as (before & after & Heq & Hlen).
  rewrite Heq in H. destruct (fold_records_app _ _ _ _ _ H) as (s0 & H0 & (s1 & H1 & H2)%panicking_bind_Ok).
  rewrite <- Heq in H. pose proof (fold_records_wf _ _ _ H0) as Hw0. pose proof (fold_records_history _ _ H0) as Hh.
  unfold fold_apply in H1. rewrite Hf in H1. unfold fold_finalized in H1. set (k := dispatch_key _ _) in H1.
  assert (event_key event = Some k) as Hk by (unfold event_key; by rewrite Hf).
  apply panicking_bind_Ok in H1 as (o & Ho%throws_Ok%ok_or_Ok & H1). destruct (negb _) eqn:E; [done|].
  apply negb_false_iff, andb_true_iff in E as [E1%bool_decide_eq_true E2%Z.eqb_eq].
  destruct (_ || _); [done|]. apply panicking_bind_Ok in H1 as (p & Hp%throws_Ok%ok_or_Ok & H1).
  apply panicking_bind_Ok in H1 as ([] & Hv%throws_Ok%verified_settles & _).
  destruct (h_orders _ _ Hh _ _ _ Ho Hp) as (j1 & j2 & a & Hat & Hid). rewrite <- E2 in Hat.
  pose proof Hat as (e1 & e2 & (_ & _ & _ & _ & b & Haff & _) & _ & Hj2 & _ & _ & _ & Has).
  destruct (af_account _ _ _ Haff) as (account & spender & state & Hev & _ & _ & B1 & B2 & B3' & _).
  exists j1, j2, a, p, account, k. split_and!; try done.
  - rewrite Heq. by apply prepared_at_app.
  - rewrite Hlen. by eapply lookup_lt_Some.
  - congruence.
  - exact (pe_account _ _ _ _ _ Hev).
  - by eapply settles_within_debit.
  - intros i' e' f' Hi' Hf' Hk'. destruct (Nat.lt_trichotomy i' i) as [Hlt|[|Hlt]]; [exfalso|done|exfalso].
    + exact (finalized_once _ _ _ _ _ _ _ _ _ _ H Hi' Hi0 Hf' Hf Hk' Hk Hlt).
    + exact (finalized_once _ _ _ _ _ _ _ _ _ _ H Hi0 Hi' Hf Hf' Hk Hk' Hlt).
Qed.

(** ** The structural inventory *)
Lemma fold_apply_structural s event s' : fold_apply true s event = Some (Ok s') → fold_apply false s event = Some (Ok s').
Proof.
  unfold fold_apply. destruct (ev_payload event); try done. unfold fold_admission. by intros ([] & _ & H)%panicking_bind_Ok.
Qed.
Lemma fold_records_structural events s s' : fold_records true s events = Some (Ok s') → fold_records false s events = Some (Ok s').
Proof.
  revert s. induction events as [|e events IH]; intros s; simpl; [done|].
  intros (s1 & H1%fold_apply_structural & H%IH)%panicking_bind_Ok. apply panicking_bind_Ok. by exists s1.
Qed.
(** C14: The structural inventory never hides work.  Whatever file and era the verifying recovery
    accepts, with whatever outer check of its admissions, the structural recovery, which re-evaluates
    nothing, accepts them too and yields the very same inventory. *)
Theorem structural_inventory_agrees f era verify_admission inv :
  build_recovery_inventory f era true verify_admission = Some (Ok inv) → structural_recovery_inventory f era = Some (Ok inv).
Proof.
  unfold structural_recovery_inventory, build_recovery_inventory, recover_events.
  intros (events & H1 & H)%panicking_bind_Ok. apply panicking_bind_Ok in H as (kept & H2 & H).
  apply panicking_bind_Ok in H as ([] & _ & H). apply panicking_bind_Ok in H as (s & H3%fold_records_structural & H).
  rewrite H1. simpl. rewrite H2. simpl. unfold throws. simpl. by rewrite H3.
Qed.

(** ** The verifying recovery, admission by admission

    The account bindings and the evaluated dispatches only ever grow, so the verifying
    fold differs from the structural one in the verdict on each admission alone. *)
Definition admission_verifies (bindings : list (string * LiveAccountBindingAudit)) (event : LiveJournalEvent) : Prop :=
  match ev_payload event with
  | AdmissionEvaluated admission =>
      verify_live_admission_evaluation admission (ev_timestamp event) (bt_get (account_slug (ev_account_id event)) bindings)
      = Some (Ok tt)
  | _ => True
  end.
Record fold_grows (event : LiveJournalEvent) (s s' : LiveRecoveryFold) : Prop := {
  gr_wf : bt_wf (rf_account_bindings s');
  gr_bindings : ∀ slug b, bt_get slug (rf_account_bindings s) = Some b → bt_get slug (rf_account_bindings s') = Some b;
  gr_baseline : is_baseline event = true → is_Some (bt_get (account_slug (ev_account_id event)) (rf_account_bindings s'));
  gr_evaluated : ∀ k, bs_mem k (rf_evaluated_admissions s) = true → bs_mem k (rf_evaluated_admissions s') = true;
  gr_admission : ∀ a, ev_payload event = AdmissionEvaluated a →
    let key := dispatch_key (ev_account_id event) (ae_identity a) in
    bs_mem key (rf_evaluated_admissions s) = false ∧ bs_mem key (rf_evaluated_admissions s') = true
}.
Lemma fold_grows_same event s s' : bt_wf (rf_account_bindings s) → is_baseline event = false →
  (∀ a, ev_payload event ≠ AdmissionEvaluated a) →
  rf_account_bindings s' = rf_account_bindings s → rf_evaluated_admissions s' = rf_evaluated_admissions s → fold_grows event s s'.
Proof.
  intros Hw Hb Ha E1 E2. split; [by rewrite E1|by rewrite E1|by rewrite Hb|by rewrite E2|]. intros a He. by destruct (Ha a).
Qed.
Lemma insert_open_order_rest account seq identity order_hash prepared s s' :
  insert_open_order account seq identity order_hash prepared s = Some (Ok s') →
  rf_account_bindings s' = rf_account_bindings s ∧ rf_evaluated_admissions s' = rf_evaluated_admissions s.
Proof. unfold insert_open_order. case_bool_decide; [done|]. by intros [= <-]. Qed.
Lemma fold_preparation_failed_rest event failed s s' : fold_preparation_failed event failed s = Some (Ok s') →
  rf_account_bindings s' = rf_account_bindings s ∧ rf_evaluated_admissions s' = rf_evaluated_admissions s.
Proof.
  unfold fold_preparation_failed. intros (s1 & H & [= <-])%panicking_bind_Ok. simpl.
  destruct (bt_get _ (rf_approved_admissions s)) as [[seq a]|].
  - case_bool_decide; [done|]. by injection H as <-.
  - apply panicking_bind_Ok in H as (o & _ & H). destruct (_ || _); [done|]. by injection H as <-.
Qed.
Lemma fold_reconciled_rest event r s s' : fold_reconciled event r s = Some (Ok s') →
  rf_account_bindings s' = rf_account_bindings s ∧ rf_evaluated_admissions s' = rf_evaluated_admissions s.
Proof.
  unfold fold_reconciled. intros (o & _ & H)%panicking_bind_Ok. destruct (oo_terminal o).
  - destruct (match _ with Some _ => _ | None => _ end); [|done]. by injection H as <-.
  - destruct (negb _); [done|]. apply panicking_bind_Ok in H as (o' & _ & [= <-]). done.
Qed.
Lemma fold_finalized_rest event f s s' : fold_finalized event f s = Some (Ok s') →
  rf_account_bindings s' = rf_account_bindings s ∧ rf_evaluated_admissions s' = rf_evaluated_admissions s.
Proof.
  unfold fold_finalized. intros (o & _ & H)%panicking_bind_Ok. destruct (negb _); [done|]. destruct (_ || _); [done|].
  apply panicking_bind_Ok in H as (p & _ & H). by apply panicking_bind_Ok in H as (u & _ & [= <-]).
Qed.
Lemma fold_prepared_rest event p s s' : fold_prepared event p s = Some (Ok s') →
  rf_account_bindings s' = rf_account_bindings s ∧ rf_evaluated_admissions s' = rf_evaluated_admissions s.
Proof.
  unfold fold_prepared. intros ([seq a] & _ & H)%panicking_bind_Ok. cbn beta iota in H. destruct (_ || _); [done|].
  by apply insert_open_order_rest in H.
Qed.
Lemma fold_legacy_rest event raw s s' : fold_legacy event raw s = Some (Ok s') →
  rf_account_bindings s' = rf_account_bindings s ∧ rf_evaluated_admissions s' = rf_evaluated_admissions s.
Proof.
  unfold fold_legacy. intros ([[identity order_hash]|] & _ & H)%panicking_bind_Ok; [by apply insert_open_order_rest in H|].
  by injection H as <-.
Qed.
Lemma fold_admission_grows verify event a s s' : fold_wf s → bt_wf (rf_account_bindings s) → ev_payload event = AdmissionEvaluated a →
  fold_admission verify event a s = Some (Ok s') → fold_grows event s s'.
Proof.
  intros Hw Hb He. unfold fold_admission. set (key := dispatch_key _ _). intros ([] & _ & H)%panicking_bind_Ok.
  destruct (bs_mem key _) eqn:Hm; [done|]. injection H as <-.
  assert (∀ k, bs_mem k (bs_insert key (rf_evaluated_admissions s)) = if decide (k = key) then true else bs_mem k (rf_evaluated_admissions s))
    as Hk by (intros k; apply bs_mem_insert, Hw).
  split; [by destruct (ae_verdict a)|by destruct (ae_verdict a)|unfold is_baseline; by rewrite He| |].
  - intros k Hmem. destruct (ae_verdict a); simpl; rewrite Hk; by case_decide.
  - intros a' He'. rewrite He in He'. injection He' as <-. split; [done|].
    destruct (ae_verdict a); simpl; rewrite Hk; by case_decide.
Qed.
Lemma fold_mark_grows event mark s s' : bt_wf (rf_account_bindings s) → ev_payload event = AccountPortfolioMarked mark →
  fold_mark event mark s = Some (Ok s') → fold_grows event s s'.
Proof.
  intros Hw He. unfold fold_mark. destruct (pm_kind mark) eqn:Hk.
  - case_bool_decide as Hb; [by rewrite orb_true_r|]. rewrite orb_false_r. destruct (negb _); [done|]. intros [= <-]. simpl.
    split; simpl; [by apply bt_insert_wf| | |done|congruence].
    + intros slug b Hs. rewrite bt_get_insert by done. case_decide as E; [|done]. exfalso. apply Hb. exists b. by rewrite <- E.
    + intros _. rewrite bt_get_insert by done. rewrite decide_True by done. by eexists.
  - intros [= <-]. apply fold_grows_same; try done; [|congruence]. unfold is_baseline. rewrite He, Hk. done.
Qed.
Lemma fold_apply_grows verify s event s' : fold_wf s → bt_wf (rf_account_bindings s) →
  fold_apply verify s event = Some (Ok s') → fold_grows event s s'.
Proof.
  intros Hw Hb H. unfold fold_apply in H. set (s0 := note_account _ s) in H.
  assert (fold_wf s0) as Hw0 by (destruct Hw; by split).
  assert (fold_grows event s0 s') as [H1 H2 H3 H4 H5]; [|by split].
  destruct (ev_payload event) eqn:He;
    try (apply fold_grows_same; [done|by unfold is_baseline; rewrite He|congruence|by injection H as <-..]).
  all: try (by eapply fold_mark_grows); try (by eapply fold_admission_grows).
  all: apply fold_grows_same; [done|by unfold is_baseline; rewrite He|congruence|..];
    (by apply fold_prepared_rest in H as [? ?]) || (by apply fold_preparation_failed_rest in H as [? ?]) || (by apply fold_reconciled_rest in H as [? ?])
    || (by apply fold_finalized_rest in H as [? ?]) || (by apply fold_legacy_rest in H as [? ?])
    || (unfold fold_posted in H; apply panicking_bind_Ok in H as (o & _ & H); destruct (_ || _); [done|]; by injection H as <-).
Qed.
Lemma fold_apply_verified s event s' : fold_apply false s event = Some (Ok s') →
  fold_apply true s event = Some (Ok s') ↔ admission_verifies (rf_account_bindings s) event.
Proof.
  unfold fold_apply, admission_verifies. destruct (ev_payload event); try done. unfold fold_admission. simpl. intros H.
  destruct (verify_live_admission_evaluation _ _ _) as [[[]|e]|]; simpl; by split.
Qed.
Lemma admission_verifies_weaken b b' event : (∀ v, bt_get (account_slug (ev_account_id event)) b = Some v →
    bt_get (account_slug (ev_account_id event)) b' = Some v) → is_Some (bt_get (account_slug (ev_account_id event)) b) →
  admission_verifies b event ↔ admission_verifies b' event.
Proof. intros H [v Hv]. unfold admission_verifies. by rewrite Hv, (H _ Hv). Qed.
(** The outer check that verifies nothing only refuses a repeated dispatch, as the fold does. *)
Lemma check_admissions_folded events keys before s s' : fold_wf s → bt_wf (rf_account_bindings s) → bt_wf keys →
  (∀ k, bs_mem k keys = true → bs_mem k (rf_evaluated_admissions s) = true) → fold_records false s events = Some (Ok s') →
  check_admissions (λ _ _, Ok tt) keys before events = Ok tt.
Proof.
  revert keys before s. induction events as [|event events IH]; intros keys before s Hw Hb Hk Hin; [done|]. simpl.
  intros (s1 & H1 & H)%panicking_bind_Ok. pose proof (fold_apply_refines _ _ _ _ Hw H1) as [Hw1 _].
  destruct (fold_apply_grows _ _ _ _ Hw Hb H1) as [G1 _ _ G4 G5].
  destruct (ev_payload event) eqn:He; simpl; try (eapply IH; [exact Hw1|exact G1|exact Hk| |exact H]; intros k Hm; by apply G4, Hin).
  destruct (G5 _ eq_refl) as [Hn Hy]. destruct (bs_mem _ keys) eqn:Hm; [by rewrite (Hin _ Hm) in Hn|]. simpl.
  eapply IH; [exact Hw1|exact G1|by apply bt_insert_wf| |exact H]. intros k. rewrite bs_mem_insert by done.
  case_decide as E; [by rewrite E|]. intros Hmem. by apply G4, Hin.
Qed.
End Lifecycle.

(** ** Sample: one order from its baseline to its final fill *)
Module SampleRecovery.
#[export] Existing Instances SampleChain.alloy SampleChain.vec_json SampleChain.node SampleOrder.vec_attempt SampleOrder.vec_descriptor
  SampleJournal.two_bytes.
Definition mark : @AccountPortfolioMarkedAudit ZTime QDecimal := {|
  pm_kind := Baseline; pm_cutoff_unix := 0; pm_account_binding := SampleOrder.binding;
  pm_account_state := SampleOrder.account_state; pm_venue_positions := [];
  pm_venue_position_evidence := {| pe_requested_wallet := ""; pe_pages := [] |}; pm_marked_positions := []; pm_prices := [];
  pm_equity := from_atomic 20000000
|}.
Definition matched : @LiveOrderReconciliationAudit ZTime QDecimal := {|
  or_identity := SampleOrder.identity; or_order_hash := SampleChain.digits 66; or_source := PostResponse;
  or_outcome := @OutcomeMatched QDecimal "venue" [SampleChain.transaction] None; or_evidence := []; or_evidence_hashes := []
|}.
Definition event (seq : Z) (payload : @LiveJournalPayload ZTime QDecimal) : @LiveJournalEvent ZTime QDecimal := {|
  ev_account_id := SampleOrder.account; ev_seq := seq; ev_timestamp := SampleOrder.second 120; ev_payload := payload
|}.
Definition journal : list (@LiveJournalEvent ZTime QDecimal) := [
  event 0 (AccountPortfolioMarked mark); event 1 (AdmissionEvaluated SampleOrder.admission);
  event 2 (OrderPrepared SampleChain.prepared); event 3 (OrderReconciled matched);
  event 4 (OrderFillFinalized SampleChain.finalized)].
Definition folded := fold_records (DO := QDecimal) true LiveRecoveryFold_default journal.
Lemma accepted : match folded with Some (Ok _) => true | _ => false end = true.
Proof. vm_cast_no_check (eq_refl true). Qed.
Lemma accepts : ∃ s, fold_records (DO := QDecimal) true LiveRecoveryFold_default journal = Some (Ok s).
Proof.
  pose proof accepted as H. unfold folded in H. destruct (fold_records _ _ journal) as [[s|]|]; [|discriminate H..].
  by exists s.
Qed.
End SampleRecovery.

#[local] Existing Instances SampleChain.alloy SampleChain.vec_json SampleChain.node SampleOrder.vec_attempt SampleOrder.vec_descriptor
  SampleJournal.two_bytes SampleJournal.two_bytes_laws.
Lemma finalized_fill_was_admitted_witness : ∃ j1 j2 a p k, (j2 < 4)%nat
  ∧ prepared_at (DO := QDecimal) SampleRecovery.journal j1 j2 k a p 2
  ∧ 5000000 + 100000 ≤ worst_debit (ae_economic a).
Proof.
  destruct SampleRecovery.accepts as [s Hs].
  destruct (finalized_fill_was_admitted _ _ 4 _ _ Hs eq_refl eq_refl) as (j1 & j2 & a & p & account & k & H1 & H2 & _ & _ & _ & _ & H3 & _).
  exists j1, j2, a, p, k. split; [exact H2|]. split; [exact H1|exact H3].
Defined.
Lemma recovery_refines_lifecycle_witness : ∃ s,
  life_run (DO := QDecimal) (events_of ("main", "d1") SampleRecovery.journal) fresh_life (life s ("main", "d1")).
Proof.
  destruct SampleRecovery.accepts as [s Hs]. exists s.
  exact (recovery_refines_lifecycle true SampleRecovery.journal s ("main", "d1") Hs).
Defined.

Definition empty_inventory : @LiveRecoveryInventory ZTime QDecimal := {|
  inv_account_ids := []; inv_approved_admissions := []; inv_terminal_admissions := []; inv_open_orders := []
|}.
Definition sample_file : LogFile := SampleJournal.file (durable_log SampleJournal.appended).
Lemma sample_file_recovers : build_recovery_inventory sample_file None true (λ _ _, Ok tt) = Some (Ok empty_inventory).
Proof.
  destruct SampleJournal.appended_facts as (Hi & Ha & Hr). unfold build_recovery_inventory, sample_file.
  rewrite (replay_all_records _ _ Hi Ha (SampleJournal.file_plain _)), Hr. reflexivity.
Qed.
Lemma structural_inventory_agrees_witness : structural_recovery_inventory sample_file None = Some (Ok empty_inventory).
Proof. exact (structural_inventory_agrees sample_file None (λ _ _, Ok tt) empty_inventory sample_file_recovers). Defined.
