(* ===== verification/LiveExecutor.v ===== *)
(** * The live executor (crates/execution-core/src/live_executor.rs)

    [prepare], [resume], [submit] and [terminalize] of one live order: the account is
    read, the admission is decided and journaled, the venue prepares the order, its
    audit is journaled, and only then does the caller hold a [PreparedLiveOrder], the
    capability to send it once.  The venue answers every call as it likes, the
    process may stop between any two interactions, and the journal is the one of
    [LiveJournal] over its log.  The theorems about these operations, run
    by any number of processes one after the other, are in [LiveSession]. *)

From S2P Require Import Prelude CoreTypes Bytes LogFrame LogChain LogScanner LogWriter LogReader LogCrash RiskEngine WinnerFollow Fee Ladder CanaryTypes LiveTypes LiveAdmission Polygon Economic RedemptionMachine LiveJournal LiveRecovery.
#[local] Open Scope Z_scope.

(** ** Requests *)
Record FrozenLiveTarget := { ft_account_id : AccountId; ft_credential_binding : CredentialBindingIdentity }.
Record LiveModeSnapshot := { mode_requested : LiveControlMode; mode_effective : LiveControlMode }.

Section Data.
Context `{TO : TimeOps} `{DO : DecimalOps}.
Record LiveOrderRequest := {
  lr_target : FrozenLiveTarget;
  lr_current_credential_binding : CredentialBindingIdentity;
  lr_mode : LiveModeSnapshot;
  lr_identity : LiveOrderIdentity;
  lr_condition_id : PolymarketConditionId;
  lr_outcome_id : OutcomeId;
  lr_token_id : PolymarketTokenId;
  lr_admission : LiveAdmissionArtifact;
  lr_ladder : LadderPlan;
  lr_economic : EconomicPrepared
}.
Record LiveVenuePrepareRequest := {
  vp_condition_id : PolymarketConditionId;
  vp_outcome_id : OutcomeId;
  vp_token_id : PolymarketTokenId;
  vp_neg_risk : bool;
  vp_limit_price : Price;
  vp_shares : ShareAmount;
  vp_maximum_collateral : CollateralAmount;
  vp_tick_size : Price;
  vp_metadata_hashes : list string
}.
Inductive LivePostClassification : Type :=
| PostMatched (venue_order_id : string) (executed : LiveExecutedAmounts) (transaction_hashes : list string)
| PostKilled (venue_order_id : option string)
| PostRejected (venue_order_id : option string)
| PostAmbiguous (kind : LiveOrderAmbiguityKind).
Inductive LiveVenueReconciledOutcome : Type :=
| ReconciledMatched (venue_order_id : string) (transaction_hashes : list string)
| ReconciledKilled (venue_order_id : option string)
| ReconciledRejected (venue_order_id : option string)
| ReconciledAmbiguous (kind : LiveOrderAmbiguityKind).
Record LiveVenueReconciliation := { vr_outcome : LiveVenueReconciledOutcome; vr_evidence : list RawHttpAttempt }.
Record LiveVenueReconciliationError := { vre_evidence : list RawHttpAttempt }.
Inductive LiveOrderOutcome : Type :=
| OutRefused (reason : LiveAdmissionRefusal)
| OutMatched (order_hash venue_order_id : string) (transaction_hashes : list string) (executed : option LiveExecutedAmounts)
| OutKilled (order_hash : string) (venue_order_id : option string)
| OutRejected (order_hash : option string) (venue_order_id : option string) (kind : LiveOrderRejectKind)
    (preparation : option (LiveOrderPreparationFailure * bool))
| OutAmbiguous (order_hash : string) (kind : LiveOrderAmbiguityKind) (reconcile_first : bool).
Definition dispatch_state (o : LiveOrderOutcome) : string :=
  match o with
  | OutMatched _ _ _ _ => "submitted"
  | OutAmbiguous _ _ _ => "ambiguous"
  | OutRefused _ | OutKilled _ _ | OutRejected _ _ _ _ => "terminal"
  end.
Definition outcome_terminal_reason (o : LiveOrderOutcome) : option string :=
  match o with
  | OutRefused CredentialVersionChanged => Some "credential_version_changed"
  | OutRefused _ => Some "admission_refused"
  | OutMatched _ _ _ _ => None
  | OutKilled _ _ => Some "killed"
  | OutRejected _ _ _ (Some (failure, has_control)) => Some (preparation_terminal_reason failure has_control)
  | OutRejected _ _ _ None => Some "rejected"
  | OutAmbiguous _ _ _ => None
  end.
Definition is_armed (m : LiveModeSnapshot) : bool :=
  bool_decide (mode_requested m = LiveTiny) && bool_decide (mode_effective m = LiveTiny).

(** ** The world: the venue, the clock, and the end of the process

    Interaction [n] of a process has its own answer. *)
Record LiveVenuePrepared (Submission : Type) := { vpd_audit : PreparedPolymarketBuy; vpd_submission : Submission }.
End Data.
Arguments vpd_audit {_ _} _.
Arguments vpd_submission {_ _} _.
Class LiveOrderVenue `{TO : TimeOps} `{DO : DecimalOps} := {
  Submission : Type;
  venue_prepare : nat → LiveVenuePrepareRequest → result unit (LiveVenuePrepared Submission);
  venue_post_once : nat → Submission → option OffsetDateTime → result RawTransportFailure RawPostAttempt;
  venue_classify_post_response : RawHttpResponse → result unit LivePostClassification;
  venue_reconcile_and_cancel : nat → string → result LiveVenueReconciliationError LiveVenueReconciliation;
  venue_read_balance_and_allowance : nat → bool → result LiveVenueAccountReadError LiveVenueAccountState;
  world_clock : nat → OffsetDateTime;
  world_stops : nat → bool
}.

Section Executor.
Context `{TO : TimeOps} `{DO : DecimalOps} {B3 : Blake3} {LJ : LogJson} {ZS : Zstd} {DV : LogDevice} {AV : AccountVenue} {EJ : LiveJson}.
Context {VD : ToVec (string * SanitizedHttpRequestDescriptor)} {VA : ToVec (string * RawHttpAttempt)} {LV : LiveOrderVenue}.

Record PreparedLiveOrder := {
  plo_account_id : AccountId;
  plo_identity : LiveOrderIdentity;
  plo_order_hash : string;
  plo_prepared_audit : LiveOrderPreparedAudit;
  plo_submission : Submission
}.
Inductive LivePrepareResult : Type :=
| PrepareOk (order : PreparedLiveOrder)
| PrepareTerminal (outcome : LiveOrderOutcome).

(** ** Effects

    The journal, the number of interactions so far, and the orders handed to
    [post_once], each with the journal it saw.  Nothing catches
    a stop. *)
Record Execution := {
  x_journal : LiveJournalInner;
  x_interactions : nat;
  x_posts : list (PreparedLiveOrder * LiveJournalInner)
}.
Inductive ExecStop : Type := StopJournal (e : LiveJournalError) | StopPanic | StopProcess.
Abbreviation exec := (stm Execution ExecStop).
Definition interact : exec nat :=
  λ x, let n := x_interactions x in
       if world_stops n then (x, Err StopProcess)
       else ({| x_journal := x_journal x; x_interactions := S n; x_posts := x_posts x |}, Ok n).
Definition clock : exec OffsetDateTime := n ← interact; mret (world_clock n).
Definition from_journal_result {A} (r : result LiveJournalError A) : exec A := stm_lift (map_err StopJournal r).
Definition journal_call (account_id : AccountId) (timestamp : OffsetDateTime) (payload : LiveJournalPayload) : exec unit :=
  λ x, let '(j, r) := live_append account_id timestamp payload (x_journal x) in
       ({| x_journal := j; x_interactions := x_interactions x; x_posts := x_posts x |},
        match r with Ok _ => Ok tt | Err e => Err (StopJournal e) end).
Definition append (account_id : AccountId) (timestamp : OffsetDateTime) (payload : LiveJournalPayload) : exec unit :=
  _ ← interact; journal_call account_id timestamp payload.
Definition unpanicking {E A} (r : panicking E A) : exec (result E A) :=
  match r with Some r => mret r | None => stm_fail StopPanic end.
Definition log_post (order : PreparedLiveOrder) : exec unit :=
  λ x, ({| x_journal := x_journal x; x_interactions := x_interactions x;
           x_posts := x_posts x ++ [(order, x_journal x)] |}, Ok tt).
Definition post_once (order : PreparedLiveOrder) (deadline : option OffsetDateTime) : exec (result RawTransportFailure RawPostAttempt) :=
  n ← interact; _ ← log_post order; mret (venue_post_once n (plo_submission order) deadline).

(** ** Journal records *)
Definition journal_admission (request : LiveOrderRequest) (now : OffsetDateTime) (account_state : option LiveAccountStateAudit)
    (failure_evidence : list RawHttpAttempt) (failure_request_descriptor_hashes : list string) (verdict : LiveAdmissionVerdict) :
    exec unit :=
  failure_hashes ← from_journal_result (LiveAdmission.http_attempt_hashes failure_evidence);
  append (ft_account_id (lr_target request)) now (AdmissionEvaluated {|
    ae_identity := lr_identity request; ae_frozen_binding := ft_credential_binding (lr_target request);
    ae_current_binding := lr_current_credential_binding request; ae_requested_mode := mode_requested (lr_mode request);
    ae_effective_mode := mode_effective (lr_mode request); ae_economic := lr_economic request;
    ae_account_state := account_state; ae_failure_evidence := failure_evidence;
    ae_failure_request_descriptor_hashes := failure_request_descriptor_hashes; ae_failure_evidence_hashes := failure_hashes;
    ae_verdict := verdict |}).
Definition refuse (request : LiveOrderRequest) (now : OffsetDateTime) (account_state : option LiveAccountStateAudit)
    (failure_evidence : list RawHttpAttempt) (failure_request_descriptor_hashes : list string) (reason : LiveAdmissionRefusal) :
    exec LivePrepareResult :=
  _ ← journal_admission request now account_state failure_evidence failure_request_descriptor_hashes (Refused reason);
  mret (PrepareTerminal (OutRefused reason)).
Definition journal_post (account_id : AccountId) (identity : LiveOrderIdentity) (order_hash : string) (now : OffsetDateTime)
    (evidence : RawHttpAttempt) : exec unit :=
  evidence_hash ← from_journal_result (http_attempt_hash evidence);
  append account_id now (OrderPosted {| po_identity := identity; po_order_hash := order_hash; po_evidence := evidence;
                                        po_evidence_hash := evidence_hash |}).
Definition journal_reconciliation (account_id : AccountId) (identity : LiveOrderIdentity) (order_hash : string)
    (now : OffsetDateTime) (source : LiveReconciliationSource) (outcome : LiveJournalOrderOutcome)
    (evidence : list RawHttpAttempt) : exec unit :=
  evidence_hashes ← from_journal_result (LiveAdmission.http_attempt_hashes evidence);
  append account_id now (OrderReconciled {| or_identity := identity; or_order_hash := order_hash; or_source := source;
                                            or_outcome := outcome; or_evidence := evidence;
                                            or_evidence_hashes := evidence_hashes |}).
Definition journal_failure (account_id : AccountId) (identity : LiveOrderIdentity) (now : OffsetDateTime)
    (failure : LiveOrderPreparationFailure) (control : option LiveControlObservation) : exec unit :=
  append account_id now (OrderPreparationFailed {| pf_identity := identity; pf_failure := failure; pf_control := control |}).
Definition terminalize_approved_admission (account_id : AccountId) (identity : LiveOrderIdentity) (now : OffsetDateTime)
    (failure : LiveOrderPreparationFailure) : exec unit :=
  journal_failure account_id identity now failure None.
Definition preparation_rejected (failure : LiveOrderPreparationFailure) (has_control : bool) : LiveOrderOutcome :=
  OutRejected None None PreparationFailed (Some (failure, has_control)).

(** ** [prepare] *)
Definition classify_request (request : LiveOrderRequest) (evaluated_at : OffsetDateTime) (account : LiveAdmissionAccountEvidence) :
    exec (result LiveAdmissionNeedsAccountState LiveAdmissionVerdict) :=
  unpanicking (classify_live_admission {|
    ci_evaluated_at := evaluated_at; ci_requested_mode := mode_requested (lr_mode request);
    ci_effective_mode := mode_effective (lr_mode request); ci_frozen_binding := ft_credential_binding (lr_target request);
    ci_current_binding := lr_current_credential_binding request; ci_identity := lr_identity request;
    ci_condition_id := lr_condition_id request; ci_outcome_id := lr_outcome_id request; ci_token_id := lr_token_id request;
    ci_admission := LiveAdmissionArtifactAudit_new (art_market (lr_admission request)) (art_settlement (lr_admission request))
                      (art_fee_schedule (lr_admission request)) (art_receipts (lr_admission request));
    ci_ladder := LadderPlanAudit_new (lr_ladder request); ci_economic := lr_economic request; ci_account := account |}).
(** [unwrap_or(Refused(AccountStateUnavailable(Protocol)))] *)
Definition verdict_or_protocol (r : result LiveAdmissionNeedsAccountState LiveAdmissionVerdict) : LiveAdmissionVerdict :=
  match r with Ok verdict => verdict | Err _ => Refused (AccountStateUnavailable ReadProtocol) end.
Definition request_for (request : LiveOrderRequest) : LiveVenuePrepareRequest := {|
  vp_condition_id := lr_condition_id request; vp_outcome_id := lr_outcome_id request; vp_token_id := lr_token_id request;
  vp_neg_risk := me_neg_risk (art_market (lr_admission request)); vp_limit_price := plan_limit_price (lr_ladder request);
  vp_shares := plan_shares (lr_ladder request); vp_maximum_collateral := worst_case_debit (lr_ladder request);
  vp_tick_size := me_minimum_tick_size (art_market (lr_admission request));
  vp_metadata_hashes := oi_evidence_hashes (lr_identity request)
|}.
Definition prepared_matches_request (prepared : PreparedPolymarketBuy) (request : LiveOrderRequest)
    (account : LiveVenueAccountState) : bool :=
  let market := eco_market (lr_economic request) in
  bool_decide (ms_condition_id market = lr_condition_id request) && (ms_outcome_index market =? outcome_index (lr_outcome_id request))
  && bool_decide (ms_token_id market = lr_token_id request) && bool_decide (ms_side market = Buy)
  && bool_decide (pb_condition_id prepared = ms_condition_id market)
  && (outcome_index (pb_outcome_id prepared) =? outcome_index (lr_outcome_id request))
  && bool_decide (pb_token_id prepared = ms_token_id market)
  && eqb (pb_neg_risk prepared) (me_neg_risk (art_market (lr_admission request)))
  && bool_decide (pb_side prepared = "BUY") && bool_decide (pb_order_type prepared = "FOK") && negb (pb_post_only prepared)
  && negb (pb_defer_exec prepared) && (pb_exchange_domain_version prepared =? 2)
  && bool_decide (pb_taker_shares prepared = plan_shares (lr_ladder request))
  && price_eqb (pb_limit_price prepared) (plan_limit_price (lr_ladder request))
  && price_eqb (pb_minimum_tick_size prepared) (me_minimum_tick_size (art_market (lr_admission request)))
  && bool_decide (pb_maker_collateral prepared = worst_case_debit (lr_ladder request))
  && bool_decide (pb_worst_case_debit prepared = worst_case_debit (lr_ladder request))
  && bool_decide (pb_spender prepared = va_selected_spender account)
  && bool_decide (pb_verifying_contract prepared = va_selected_spender account)
  && bool_decide (pb_metadata_hashes prepared = oi_evidence_hashes (lr_identity request))
  && negb (blank (pb_order_hash prepared)) && negb (blank (pb_post_body_hash prepared)).
(** The last steps of both preparations: the venue's order is journaled before the
    capability exists. *)
Definition record_prepared (account_id : AccountId) (identity : LiveOrderIdentity) (frozen : CredentialBindingIdentity)
    (economic : EconomicPrepared) (account_state : LiveAccountStateAudit) (prepared : LiveVenuePrepared Submission) :
    exec LivePrepareResult :=
  let audit := {| op_identity := identity; op_frozen_binding := frozen; op_economic := economic;
                  op_account_state := account_state; op_prepared := vpd_audit prepared |} in
  now ← clock;
  _ ← append account_id now (OrderPrepared audit);
  mret (PrepareOk {| plo_account_id := account_id; plo_identity := identity;
                     plo_order_hash := pb_order_hash (vpd_audit prepared); plo_prepared_audit := audit;
                     plo_submission := vpd_submission prepared |}).
Definition call_prepare (request : LiveVenuePrepareRequest) : exec (result unit (LiveVenuePrepared Submission)) :=
  n ← interact; mret (venue_prepare n request).
Definition prepare_failed (account_id : AccountId) (identity : LiveOrderIdentity) (now : OffsetDateTime)
    (failure : LiveOrderPreparationFailure) : exec LivePrepareResult :=
  _ ← terminalize_approved_admission account_id identity now failure;
  mret (PrepareTerminal (preparation_rejected failure false)).
(** After the account is known. *)
Definition admit_and_prepare (request : LiveOrderRequest) (account : LiveVenueAccountState) : exec LivePrepareResult :=
  account_audit ← from_journal_result (LiveAdmission.account_audit account);
  admission_at ← clock;
  verdict ← classify_request request admission_at (AccountState account_audit);
  match verdict_or_protocol verdict with
  | Refused reason => refuse request admission_at (Some account_audit) [] [] reason
  | VerdictApproved =>
      _ ← journal_admission request admission_at (Some account_audit) [] [] VerdictApproved;
      prepared ← call_prepare (request_for request);
      match prepared with
      | Err _ =>
          failed_at ← clock;
          prepare_failed (ft_account_id (lr_target request)) (lr_identity request) failed_at PreparationVenue
      | Ok prepared =>
          if negb (prepared_matches_request (vpd_audit prepared) request account)
          then failed_at ← clock;
               prepare_failed (ft_account_id (lr_target request)) (lr_identity request) failed_at PreparedAuditMismatch
          else record_prepared (ft_account_id (lr_target request)) (lr_identity request)
                 (ft_credential_binding (lr_target request)) (lr_economic request) account_audit prepared
      end
  end.
Definition call_read_account (neg_risk : bool) : exec (result LiveVenueAccountReadError LiveVenueAccountState) :=
  n ← interact; mret (venue_read_balance_and_allowance n neg_risk).
Definition prepare_with_optional_account (request : LiveOrderRequest) (observed_account : option LiveVenueAccountState) :
    exec LivePrepareResult :=
  pre_account_at ← clock;
  first ← classify_request request pre_account_at NotRead;
  match first with
  | Ok (Refused reason) =>
      _ ← (if decide (reason = CredentialVersionChanged)
           then append (ft_account_id (lr_target request)) pre_account_at
                  (CredentialBindingMismatch (ft_credential_binding (lr_target request)) (lr_current_credential_binding request))
           else mret tt);
      refuse request pre_account_at None [] [] reason
  | _ =>
      match observed_account with
      | Some account => admit_and_prepare request account
      | None =>
          read ← call_read_account (me_neg_risk (art_market (lr_admission request)));
          match read with
          | Ok account => admit_and_prepare request account
          | Err error =>
              evaluated_at ← clock;
              verdict ← classify_request request evaluated_at (ReadFailure (re_kind error));
              refuse request evaluated_at None (re_evidence error) (re_request_descriptor_hashes error)
                match verdict_or_protocol verdict with
                | Refused reason => reason
                | VerdictApproved => AccountStateUnavailable ReadProtocol
                end
          end
      end
  end.

(** ** [resume_approved_admission] *)
Definition recorded_risk_is_approved (economic : EconomicPrepared) : bool :=
  let evaluated := evaluate_risk (ra_snapshot (eco_risk economic)) in
  bool_decide (evaluated = ra_decision (eco_risk economic)) && bool_decide (evaluated = Approved).
Definition venue_request_from_approved_admission (a : LiveAdmissionEvaluationAudit) : LiveVenuePrepareRequest := {|
  vp_condition_id := ms_condition_id (eco_market (ae_economic a));
  vp_outcome_id := {| outcome_index := ms_outcome_index (eco_market (ae_economic a)) |};
  vp_token_id := ms_token_id (eco_market (ae_economic a)); vp_neg_risk := ma_neg_risk (aa_market (eco_admission (ae_economic a)));
  vp_limit_price := lp_limit_price (eco_ladder (ae_economic a)); vp_shares := lp_minimum_shares (eco_ladder (ae_economic a));
  vp_maximum_collateral := lp_principal (eco_ladder (ae_economic a));
  vp_tick_size := ma_minimum_tick_size (aa_market (eco_admission (ae_economic a)));
  vp_metadata_hashes := oi_evidence_hashes (ae_identity a)
|}.
Definition prepared_matches_approved_admission (prepared : PreparedPolymarketBuy) (a : LiveAdmissionEvaluationAudit)
    (account : LiveAccountStateAudit) : bool :=
  let request := venue_request_from_approved_admission a in
  bool_decide (pb_condition_id prepared = vp_condition_id request)
  && (outcome_index (pb_outcome_id prepared) =? outcome_index (vp_outcome_id request))
  && bool_decide (pb_token_id prepared = vp_token_id request) && eqb (pb_neg_risk prepared) (vp_neg_risk request)
  && bool_decide (pb_side prepared = "BUY") && bool_decide (pb_order_type prepared = "FOK") && negb (pb_post_only prepared)
  && negb (pb_defer_exec prepared) && (pb_exchange_domain_version prepared =? 2)
  && bool_decide (pb_taker_shares prepared = vp_shares request) && price_eqb (pb_limit_price prepared) (vp_limit_price request)
  && price_eqb (pb_minimum_tick_size prepared) (vp_tick_size request)
  && bool_decide (pb_maker_collateral prepared = vp_maximum_collateral request)
  && bool_decide (pb_worst_case_debit prepared = vp_maximum_collateral request)
  && bool_decide (pb_spender prepared = as_selected_spender account)
  && bool_decide (pb_verifying_contract prepared = as_selected_spender account)
  && bool_decide (pb_metadata_hashes prepared = vp_metadata_hashes request)
  && negb (blank (pb_order_hash prepared)) && negb (blank (pb_post_body_hash prepared)).
Definition resume_input (a : LiveAdmissionEvaluationAudit) (evaluated_at : OffsetDateTime) (mode : LiveModeSnapshot)
    (binding : CredentialBindingIdentity) (account : LiveAccountStateAudit) : LiveAdmissionClassificationInput := {|
  ci_evaluated_at := evaluated_at; ci_requested_mode := mode_requested mode; ci_effective_mode := mode_effective mode;
  ci_frozen_binding := ae_frozen_binding a; ci_current_binding := binding; ci_identity := ae_identity a;
  ci_condition_id := ms_condition_id (eco_market (ae_economic a));
  ci_outcome_id := {| outcome_index := ms_outcome_index (eco_market (ae_economic a)) |};
  ci_token_id := ms_token_id (eco_market (ae_economic a)); ci_admission := eco_admission (ae_economic a);
  ci_ladder := eco_ladder (ae_economic a); ci_economic := ae_economic a; ci_account := AccountState account
|}.
Definition resume_approved_admission (account_id : AccountId) (a : LiveAdmissionEvaluationAudit) (mode : LiveModeSnapshot)
    (binding : CredentialBindingIdentity) (account : LiveVenueAccountState) : exec LivePrepareResult :=
  evaluated_at ← clock;
  current ← from_journal_result (LiveAdmission.account_audit account);
  reproduced ← unpanicking (classify_live_admission (resume_input a evaluated_at mode binding current));
  if bool_decide (ae_verdict a ≠ VerdictApproved) || negb (recorded_risk_is_approved (ae_economic a))
     || match reproduced with Ok VerdictApproved => false | _ => true end
  then prepare_failed account_id (ae_identity a) evaluated_at RecoveryAdmissionExpired
  else match ae_account_state a with
       | None => prepare_failed account_id (ae_identity a) evaluated_at RecoveryAdmissionExpired
       | Some recorded =>
           prepared ← call_prepare (venue_request_from_approved_admission a);
           match prepared with
           | Err _ => failed_at ← clock; prepare_failed account_id (ae_identity a) failed_at PreparationVenue
           | Ok prepared =>
               if negb (prepared_matches_approved_admission (vpd_audit prepared) a current)
               then failed_at ← clock; prepare_failed account_id (ae_identity a) failed_at PreparedAuditMismatch
               else record_prepared account_id (ae_identity a) (ae_frozen_binding a) (ae_economic a) recorded prepared
           end
       end.

(** ** [terminalize_prepared], with and without a control observation *)
Definition terminalize_prepared (order : PreparedLiveOrder) (now : OffsetDateTime) (failure : LiveOrderPreparationFailure) :
    exec LiveOrderOutcome :=
  _ ← terminalize_approved_admission (plo_account_id order) (plo_identity order) now failure;
  mret (preparation_rejected failure false).
Definition terminalize_prepared_with_control (order : PreparedLiveOrder) (now : OffsetDateTime)
    (failure : LiveOrderPreparationFailure) (control : LiveControlObservation) : exec LiveOrderOutcome :=
  _ ← journal_failure (plo_account_id order) (plo_identity order) now failure (Some control);
  mret (preparation_rejected failure true).

(** ** [submit] *)
Definition call_reconcile (order_hash : string) : exec (result LiveVenueReconciliationError LiveVenueReconciliation) :=
  n ← interact; mret (venue_reconcile_and_cancel n order_hash).
Definition reconcile_ambiguous (account_id : AccountId) (identity : LiveOrderIdentity) (order_hash : string)
    (initial_kind : LiveOrderAmbiguityKind) : exec LiveOrderOutcome :=
  reconciliation ← call_reconcile order_hash;
  reconciled_at ← clock;
  let journal := journal_reconciliation account_id identity order_hash reconciled_at OrderHashLookupAndCancel in
  match reconciliation with
  | Err error =>
      _ ← journal (OutcomeAmbiguous ReconciliationUnavailable) (vre_evidence error);
      mret (OutAmbiguous order_hash initial_kind true)
  | Ok r =>
      match vr_outcome r with
      | ReconciledMatched venue_order_id transaction_hashes =>
          _ ← journal (OutcomeMatched venue_order_id transaction_hashes None) (vr_evidence r);
          mret (OutMatched order_hash venue_order_id transaction_hashes None)
      | ReconciledKilled venue_order_id =>
          _ ← journal (OutcomeKilled venue_order_id) (vr_evidence r);
          mret (OutKilled order_hash venue_order_id)
      | ReconciledRejected venue_order_id =>
          _ ← journal (OutcomeRejected venue_order_id VenueRejected) (vr_evidence r);
          mret (OutRejected (Some order_hash) venue_order_id VenueRejected None)
      | ReconciledAmbiguous kind =>
          _ ← journal (OutcomeAmbiguous kind) (vr_evidence r);
          mret (OutAmbiguous order_hash initial_kind true)
      end
  end.
(** The response decides, or the order is looked up. *)
Definition settle_response (account_id : AccountId) (identity : LiveOrderIdentity) (order_hash : string) (response : RawHttpResponse) :
    exec LiveOrderOutcome :=
  let posted_at := rsp_observed_at response in
  let journal outcome :=
    journal_reconciliation account_id identity order_hash posted_at PostResponse outcome [Response response] in
  match venue_classify_post_response response with
  | Ok (PostMatched venue_order_id executed transaction_hashes) =>
      _ ← journal (OutcomeMatched venue_order_id transaction_hashes (Some executed));
      mret (OutMatched order_hash venue_order_id transaction_hashes (Some executed))
  | Ok (PostKilled venue_order_id) =>
      _ ← journal (OutcomeKilled venue_order_id); mret (OutKilled order_hash venue_order_id)
  | Ok (PostRejected venue_order_id) =>
      _ ← journal (OutcomeRejected venue_order_id VenueRejected);
      mret (OutRejected (Some order_hash) venue_order_id VenueRejected None)
  | Ok (PostAmbiguous kind) => reconcile_ambiguous account_id identity order_hash kind
  | Err _ => reconcile_ambiguous account_id identity order_hash UnexpectedResponse
  end.
Definition submit_with_deadline (order : PreparedLiveOrder) (wall_clock_deadline : option OffsetDateTime) : exec LiveOrderOutcome :=
  let account_id := plo_account_id order in
  let identity := plo_identity order in
  let order_hash := plo_order_hash order in
  post ← post_once order wall_clock_deadline;
  match post with
  | Err failure =>
      let kind := if decide (tf_error_class failure = Timeout) then AmbiguousTimeout else AmbiguousTransport in
      _ ← journal_post account_id identity order_hash (tf_observed_at failure) (TransportFailure failure);
      reconcile_ambiguous account_id identity order_hash kind
  | Ok (NotAttempted checked_at) =>
      _ ← terminalize_approved_admission account_id identity checked_at PrePostCopyExpired;
      mret (preparation_rejected PrePostCopyExpired false)
  | Ok (Attempted response) =>
      _ ← journal_post account_id identity order_hash (rsp_observed_at response) (Response response);
      settle_response account_id identity order_hash response
  end.
End Executor.
