(* ===== verification/LiveSession.v ===== *)
(** * Processes that run the live executor

    The executor of [LiveExecutor] follows a protocol on its journal: an order is
    admitted, prepared, posted and settled, one durable record before each effect.
    This file states that protocol as two records of assertions with the appends that
    lead from one to the next, proves once that every operation follows them, and
    instantiates them twice, for sessions of any number of processes over one journal
    file: nothing is posted before its own record is durable, and a session whose
    callers name each dispatch once posts it once and can always be recovered. *)

From S2P Require Import Prelude CoreTypes Bytes LogFrame LogChain LogScanner LogWriter LogReader LogCrash RiskEngine WinnerFollow Fee Ladder CanaryTypes LiveTypes LiveAdmission Polygon Economic RedemptionMachine LiveJournal LiveRecovery LiveExecutor.
#[local] Open Scope Z_scope.

Section Protocols.
Context `{TO : TimeOps} `{DLs : DecimalLaws} {B3 : Blake3} {LJ : LogJson} {ZS : Zstd} {DV : LogDevice} {AV : AccountVenue} {EJ : LiveJson}.
Context {VD : ToVec (string * SanitizedHttpRequestDescriptor)} {VA : ToVec (string * RawHttpAttempt)} {LV : LiveOrderVenue}.

(** ** Assertions

    About the journal and the posts; the number of interactions is of no interest. *)
#[local] Abbreviation exec := (stm Execution ExecStop).
Abbreviation Posts := (list (PreparedLiveOrder * LiveJournalInner)).
Abbreviation assertion := (LiveJournalInner → Posts → Prop).
Definition entails (P Q : assertion) : Prop := ∀ j ps, P j ps → Q j ps.
Lemma entails_refl (P : assertion) : entails P P.
Proof. intros j ps H. exact H. Qed.
#[local] Hint Resolve entails_refl : core.
(** From [P], [m] returns in [Q] or stops in [X]. *)
Definition triple {A} (P : assertion) (m : exec A) (Q : A → assertion) (X : assertion) : Prop :=
  ∀ x, P (x_journal x) (x_posts x) →
    match m x with
    | (x', Ok a) => Q a (x_journal x') (x_posts x')
    | (x', Err _) => X (x_journal x') (x_posts x')
    end.
(** An append of this payload leads from [P] to [Q], a failed one to [X]. *)
Definition appends (P : assertion) (account : AccountId) (payload : LiveJournalPayload) (Q X : assertion) : Prop :=
  ∀ j ps timestamp j' r, P j ps → live_append account timestamp payload j = (j', r) →
    match r with Ok _ => Q j' ps | Err _ => X j' ps end.

Lemma triple_bind {A B} P (m : exec A) (f : A → exec B) R Q X :
  triple P m R X → (∀ a, triple (R a) (f a) Q X) → triple P (a ← m; f a) Q X.
Proof.
  intros Hm Hf x Hx. specialize (Hm x Hx). unfold mbind, stm_mbind. destruct (m x) as [x' [a|e]]; [|done]. by apply Hf.
Qed.
Lemma triple_ret {A} P (a : A) Q X : entails P (Q a) → triple P (mret a) Q X.
Proof. intros H x Hx. by apply H. Qed.
Lemma triple_lift {A} P (r : result ExecStop A) Q X : (∀ a, r = Ok a → entails P (Q a)) → entails P X → triple P (stm_lift r) Q X.
Proof. intros H HX x Hx. unfold stm_lift. destruct r as [a|e]; [by apply (H a)|by apply HX]. Qed.
Lemma triple_from {A} P (r : result LiveJournalError A) X : entails P X → triple P (from_journal_result r) (λ _, P) X.
Proof. intros HX. apply triple_lift; [|exact HX]. intros a _ j ps H. exact H. Qed.
Lemma triple_interact P X : entails P X → triple P interact (λ _, P) X.
Proof. intros HX x Hx. unfold interact. destruct (world_stops _); [by apply HX|done]. Qed.
Lemma triple_interacting {A} P (f : nat → A) X : entails P X → triple P (n ← interact; mret (f n)) (λ _, P) X.
Proof. intros HX. eapply triple_bind; [by apply triple_interact|]. intros n. by apply triple_ret. Qed.
Lemma triple_clock P X : entails P X → triple P clock (λ _, P) X.
Proof. apply triple_interacting. Qed.
Lemma triple_unpanicking {E A} P (r : panicking E A) X : entails P X → triple P (unpanicking r) (λ _, P) X.
Proof. intros HX. destruct r as [r|]; [by apply triple_ret|]. intros x Hx. by apply HX. Qed.
Lemma triple_append P account timestamp payload Q X :
  appends P account payload Q X → entails P X → triple P (append account timestamp payload) (λ _, Q) X.
Proof.
  intros H HX. eapply triple_bind; [by apply triple_interact|]. intros _ x Hx. unfold journal_call.
  destruct (live_append _ _ _ _) as [j' r] eqn:E. specialize (H _ _ _ _ _ Hx E). by destruct r.
Qed.
Lemma triple_weaken {A} P P' (m : exec A) Q Q' X X' : triple P m Q X →
  entails P' P → (∀ a, entails (Q a) (Q' a)) → entails X X' → triple P' m Q' X'.
Proof. intros H HP HQ HX x Hx. specialize (H x (HP _ _ Hx)). destruct (m x) as [x' [a|e]]; [by apply HQ|by apply HX]. Qed.
Lemma triple_exists {A B} (φ : B → Prop) (P : B → assertion) (m : exec A) Q X :
  (∀ b, φ b → triple (P b) m Q X) → triple (λ j ps, ∃ b, φ b ∧ P b j ps) m Q X.
Proof. intros H x (b & Hb & Hx). by apply (H b Hb). Qed.

(** ** The protocol of an order

    For one account and one identity. *)
Section Order.
Context (account : AccountId) (order_identity : LiveOrderIdentity).

(** The capability of a prepared order names what was journaled. *)
Definition order_ok (o : PreparedLiveOrder) : Prop :=
  plo_account_id o = account ∧ plo_identity o = order_identity ∧ op_identity (plo_prepared_audit o) = order_identity
  ∧ plo_order_hash o = pb_order_hash (op_prepared (plo_prepared_audit o)).
Record Preparing := {
  pp_fresh : assertion;
  pp_admitted : LiveAdmissionEvaluationAudit → assertion;
  pp_ready : PreparedLiveOrder → assertion;
  pp_after : assertion;
  pp_fresh_after : entails pp_fresh pp_after;
  pp_admitted_after a : entails (pp_admitted a) pp_after;
  pp_mismatch frozen current : appends pp_fresh account (CredentialBindingMismatch frozen current) pp_fresh pp_after;
  pp_refused a reason : ae_identity a = order_identity → ae_verdict a = Refused reason →
    appends pp_fresh account (AdmissionEvaluated a) pp_after pp_after;
  pp_approved a : ae_identity a = order_identity → ae_verdict a = VerdictApproved →
    appends pp_fresh account (AdmissionEvaluated a) (pp_admitted a) pp_after;
  pp_failed a failed : ae_identity a = order_identity → pf_identity failed = order_identity →
    appends (pp_admitted a) account (OrderPreparationFailed failed) pp_after pp_after;
  pp_prepared a o : admitted_as a (plo_prepared_audit o) → order_ok o →
    appends (pp_admitted a) account (OrderPrepared (plo_prepared_audit o)) (pp_ready o) pp_after
}.
(** A reconciliation of this order by the venue's own answers. *)
Definition venue_fact (o : PreparedLiveOrder) (r : LiveOrderReconciliationAudit) : Prop :=
  or_identity r = order_identity ∧ or_order_hash r = plo_order_hash o
  ∧ or_source r ≠ PolygonFinality ∧ source_matches_outcome (or_source r) (or_outcome r) = true.
Record Sending (o : PreparedLiveOrder) := {
  ps_ready : assertion;
  ps_sent : assertion;
  ps_after : assertion;
  ps_ready_after : entails ps_ready ps_after;
  ps_sent_after : entails ps_sent ps_after;
  ps_post j ps : ps_ready j ps → ps_sent j (ps ++ [(o, j)]);
  ps_drop failed : pf_identity failed = order_identity →
    appends ps_ready account (OrderPreparationFailed failed) ps_after ps_after;
  ps_expired failed : pf_identity failed = order_identity →
    appends ps_sent account (OrderPreparationFailed failed) ps_after ps_after;
  ps_posted posted : po_identity posted = order_identity → po_order_hash posted = plo_order_hash o →
    appends ps_sent account (OrderPosted posted) ps_sent ps_after;
  ps_reconciled r : venue_fact o r → appends ps_sent account (OrderReconciled r) ps_after ps_after
}.
Definition prepares (T : Preparing) (r : LivePrepareResult) : assertion :=
  match r with PrepareOk o => λ j ps, order_ok o ∧ pp_ready T o j ps | PrepareTerminal _ => pp_after T end.

(** *** The operations follow it *)
#[local] Hint Resolve pp_fresh_after pp_admitted_after : core.

Lemma follows_refuse T request now state evidence hashes reason :
  ft_account_id (lr_target request) = account → lr_identity request = order_identity →
  triple (pp_fresh T) (refuse request now state evidence hashes reason) (prepares T) (pp_after T).
Proof.
  intros Ha Hi. unfold refuse, journal_admission. eapply triple_bind with (R := λ _, pp_after T); [|intros _; by apply triple_ret].
  eapply triple_bind; [by apply triple_from|]. intros h. rewrite Ha. apply triple_append; [|auto]. by eapply pp_refused.
Qed.
Lemma follows_prepare_failed T a now failure : ae_identity a = order_identity →
  triple (pp_admitted T a) (prepare_failed account order_identity now failure) (prepares T) (pp_after T).
Proof.
  intros Hi. unfold prepare_failed. eapply triple_bind with (R := λ _, pp_after T); [|intros _; by apply triple_ret].
  apply triple_append; [|auto]. by apply pp_failed.
Qed.
Lemma follows_failed_later T a failure : ae_identity a = order_identity →
  triple (pp_admitted T a) (failed_at ← clock; prepare_failed account order_identity failed_at failure) (prepares T) (pp_after T).
Proof. intros Hi. eapply triple_bind; [by apply triple_clock|]. intros now. by apply follows_prepare_failed. Qed.
Lemma follows_record_prepared T a economic state prepared : ae_identity a = order_identity →
  ae_economic a = economic → ae_account_state a = Some state →
  triple (pp_admitted T a) (record_prepared account order_identity (ae_frozen_binding a) economic state prepared)
    (prepares T) (pp_after T).
Proof.
  intros Hi He Hs. unfold record_prepared. eapply triple_bind; [by apply triple_clock|]. intros now.
  set (audit := {| op_identity := _ |}).
  set (o := {| plo_account_id := account; plo_identity := order_identity; plo_order_hash := pb_order_hash (vpd_audit prepared);
               plo_prepared_audit := audit; plo_submission := vpd_submission prepared |}).
  assert (order_ok o) as Ho by done.
  eapply triple_bind with (R := λ _, pp_ready T o); [|by intros _; apply triple_ret].
  apply triple_append; [|auto]. apply (pp_prepared T a o); [|done].
  split; [done|done| |done]. rewrite He. apply (rust_eq_refl economic).
Qed.
(** The record an approval of this request leaves. *)
Definition approval_of (request : LiveOrderRequest) (state : LiveAccountStateAudit) (a : LiveAdmissionEvaluationAudit) : Prop :=
  ae_identity a = lr_identity request ∧ ae_frozen_binding a = ft_credential_binding (lr_target request)
  ∧ ae_economic a = lr_economic request ∧ ae_account_state a = Some state ∧ ae_verdict a = VerdictApproved.
Lemma follows_approval T request now state :
  ft_account_id (lr_target request) = account → lr_identity request = order_identity →
  triple (pp_fresh T) (journal_admission request now (Some state) [] [] VerdictApproved)
    (λ _ j ps, ∃ a, approval_of request state a ∧ pp_admitted T a j ps) (pp_after T).
Proof.
  intros Ha Hi. unfold journal_admission. eapply triple_bind; [by apply triple_from|]. intros h. rewrite Ha.
  eapply triple_weaken; [apply triple_append; [by apply pp_approved|auto]|auto| |auto].
  intros [] j ps H. eexists. split; [|exact H]. done.
Qed.
Lemma follows_admit_and_prepare T request observed :
  ft_account_id (lr_target request) = account → lr_identity request = order_identity →
  triple (pp_fresh T) (admit_and_prepare request observed) (prepares T) (pp_after T).
Proof.
  intros Ha Hi. unfold admit_and_prepare. eapply triple_bind; [by apply triple_from|]. intros audit.
  eapply triple_bind; [by apply triple_clock|]. intros now. eapply triple_bind; [by apply triple_unpanicking|]. intros verdict.
  destruct (verdict_or_protocol verdict) as [|reason]; [|by apply follows_refuse].
  eapply triple_bind; [by apply follows_approval|]. intros u. apply triple_exists. intros a (Hai & Hab & Hae & Has & _).
  assert (ae_identity a = order_identity) as Hid by by rewrite Hai.
  eapply triple_bind; [by apply triple_interacting|]. intros [prepared|[]]; rewrite Ha, Hi.
  - destruct (negb _); [by apply follows_failed_later|]. rewrite <- Hab. by apply follows_record_prepared.
  - by apply follows_failed_later.
Qed.
Lemma follows_prepare T request observed :
  ft_account_id (lr_target request) = account → lr_identity request = order_identity →
  triple (pp_fresh T) (prepare_with_optional_account request observed) (prepares T) (pp_after T).
Proof.
  intros Ha Hi. unfold prepare_with_optional_account. eapply triple_bind; [by apply triple_clock|]. intros now.
  eapply triple_bind; [by apply triple_unpanicking|]. intros first.
  assert (triple (pp_fresh T) match observed with
                 | Some account => admit_and_prepare request account
                 | None =>
                     read ← call_read_account (me_neg_risk (art_market (lr_admission request)));
                     match read with
                     | Ok account => admit_and_prepare request account
                     | Err error =>
                         evaluated_at ← clock;
                         verdict ← classify_request request evaluated_at (ReadFailure (re_kind error));
                         refuse request evaluated_at None (re_evidence error) (re_request_descriptor_hashes error)
                           match verdict_or_protocol verdict with
                           | Refused reason => reason
                           | VerdictApproved => AccountStateUnavailable ReadProtocol
                           end
                     end
                 end (prepares T) (pp_after T)) as Hread.
  { destruct observed as [a|]; [by apply follows_admit_and_prepare|]. eapply triple_bind; [by apply triple_interacting|].
    intros [a|error]; [by apply follows_admit_and_prepare|]. eapply triple_bind; [by apply triple_clock|]. intros at_.
    eapply triple_bind; [by apply triple_unpanicking|]. intros verdict. by apply follows_refuse. }
  destruct first as [[|reason]|]; [exact Hread| |exact Hread].
  eapply triple_bind; [|intros u; by apply follows_refuse]. destruct (decide _); [|by apply triple_ret].
  rewrite Ha. apply triple_append; [apply pp_mismatch|auto].
Qed.
Lemma follows_resume T a mode binding observed : ae_identity a = order_identity →
  triple (pp_admitted T a) (resume_approved_admission account a mode binding observed) (prepares T) (pp_after T).
Proof.
  intros Hi. unfold resume_approved_admission. eapply triple_bind; [by apply triple_clock|]. intros now.
  eapply triple_bind; [by apply triple_from|]. intros current. eapply triple_bind; [by apply triple_unpanicking|].
  intros reproduced. rewrite Hi. destruct (_ || _); [by apply follows_prepare_failed|].
  destruct (ae_account_state a) as [recorded|] eqn:Hs; [|by apply follows_prepare_failed].
  eapply triple_bind; [by apply triple_interacting|]. intros [prepared|[]].
  - destruct (negb _); [by apply follows_failed_later|]. by apply follows_record_prepared.
  - by apply follows_failed_later.
Qed.

#[local] Hint Resolve ps_ready_after ps_sent_after : core.
Lemma follows_journal_reconciliation o (T : Sending o) now source outcome evidence :
  source ≠ PolygonFinality → source_matches_outcome source outcome = true →
  triple (ps_sent o T) (journal_reconciliation account order_identity (plo_order_hash o) now source outcome evidence)
    (λ _, ps_after o T) (ps_after o T).
Proof.
  intros Hs Hm. unfold journal_reconciliation. eapply triple_bind; [by apply triple_from|]. intros hashes.
  apply triple_append; [|auto]. by apply ps_reconciled.
Qed.
Lemma follows_reconciled o (T : Sending o) now source outcome evidence (result : LiveOrderOutcome) :
  source ≠ PolygonFinality → source_matches_outcome source outcome = true →
  triple (ps_sent o T)
    (_ ← journal_reconciliation account order_identity (plo_order_hash o) now source outcome evidence; mret result)
    (λ _, ps_after o T) (ps_after o T).
Proof.
  intros Hs Hm. eapply triple_bind; [by apply follows_journal_reconciliation|]. intros u. by apply triple_ret.
Qed.
Lemma follows_reconcile_ambiguous o (T : Sending o) kind :
  triple (ps_sent o T) (reconcile_ambiguous account order_identity (plo_order_hash o) kind) (λ _, ps_after o T) (ps_after o T).
Proof.
  unfold reconcile_ambiguous. eapply triple_bind; [by apply triple_interacting|]. intros reconciliation.
  eapply triple_bind; [by apply triple_clock|]. intros now.
  destruct reconciliation as [r|error]; [destruct (vr_outcome r)|]; by apply follows_reconciled.
Qed.
Lemma follows_settle_response o (T : Sending o) response :
  triple (ps_sent o T) (settle_response account order_identity (plo_order_hash o) response) (λ _, ps_after o T) (ps_after o T).
Proof.
  unfold settle_response. destruct (venue_classify_post_response response) as [[]|];
    (by apply follows_reconciled) || apply follows_reconcile_ambiguous.
Qed.
Lemma follows_submit o (T : Sending o) deadline : plo_account_id o = account → plo_identity o = order_identity →
  triple (ps_ready o T) (submit_with_deadline o deadline) (λ _, ps_after o T) (ps_after o T).
Proof.
  intros Ha Hi. unfold submit_with_deadline. rewrite Ha, Hi. eapply triple_bind with (R := λ _, ps_sent o T).
  { unfold post_once. eapply triple_bind; [by apply triple_interact|]. intros n.
    eapply triple_bind with (R := λ _, ps_sent o T); [|intros u; by apply triple_ret].
    intros x Hx. unfold log_post. simpl. by apply ps_post. }
  assert (∀ now evidence, triple (ps_sent o T) (journal_post account order_identity (plo_order_hash o) now evidence)
    (λ _, ps_sent o T) (ps_after o T)) as Hpost.
  { intros now evidence. unfold journal_post. eapply triple_bind; [by apply triple_from|]. intros h.
    apply triple_append; [|auto]. by apply ps_posted. }
  intros [[response|checked_at]|failure].
  - eapply triple_bind; [apply Hpost|]. intros u. apply follows_settle_response.
  - eapply triple_bind with (R := λ _, ps_after o T); [|intros u; by apply triple_ret]. apply triple_append; [|auto].
    by apply ps_expired.
  - eapply triple_bind; [apply Hpost|]. intros u. apply follows_reconcile_ambiguous.
Qed.
Lemma follows_terminalize o (T : Sending o) now failure control : plo_account_id o = account → plo_identity o = order_identity →
  triple (ps_ready o T) match control with
                        | Some control => terminalize_prepared_with_control o now failure control
                        | None => terminalize_prepared o now failure
                        end (λ _, ps_after o T) (ps_after o T).
Proof.
  intros Ha Hi. destruct control as [control|]; unfold terminalize_prepared_with_control, terminalize_prepared,
    terminalize_approved_admission, journal_failure; rewrite Ha, Hi;
    (eapply triple_bind with (R := λ _, ps_after o T); [|intros u; by apply triple_ret]; apply triple_append; [|auto]; by apply ps_drop).
Qed.
End Order.
End Protocols.

(** ** Sessions

    Processes, one after the other, over one journal file.  Calls of a process run one
    at a time; its capabilities are the orders it prepared and has not consumed. *)
Section Sessions.
Context `{TO : TimeOps} `{DLs : DecimalLaws} {B3 : Blake3} {LJ : LogJson} {ZS : Zstd} {DV : LogDevice} {AV : AccountVenue} {EJ : LiveJson}.
Context {VD : ToVec (string * SanitizedHttpRequestDescriptor)} {VA : ToVec (string * RawHttpAttempt)} {LV : LiveOrderVenue}.
Context {BL : Blake3Laws} {LL : LogJsonLaws} {ZL : ZstdLaws} {DL : LogDeviceLaws} {CL : LogDeviceCrashLaws} {JL : LiveJsonLaws}.

Inductive Call : Type :=
| CallPrepare (request : LiveOrderRequest) (observed : option LiveVenueAccountState)
| CallResume (account : AccountId) (a : LiveAdmissionEvaluationAudit) (mode : LiveModeSnapshot)
    (binding : CredentialBindingIdentity) (observed : LiveVenueAccountState)
| CallSubmit (o : PreparedLiveOrder) (deadline : option OffsetDateTime)
| CallTerminalize (o : PreparedLiveOrder) (now : OffsetDateTime) (failure : LiveOrderPreparationFailure)
    (control : option LiveControlObservation)
| CallAppend (account : AccountId) (timestamp : OffsetDateTime) (payload : LiveJournalPayload)
| Forget (o : PreparedLiveOrder)
| Restart (p : JournalPath) (d : Device).
Record Session := { se_execution : Execution; se_held : list PreparedLiveOrder }.
Definition capability (r : result ExecStop LivePrepareResult) : list PreparedLiveOrder :=
  match r with Ok (PrepareOk o) => [o] | _ => [] end.
Definition with_journal (j : LiveJournalInner) (x : Execution) : Execution :=
  {| x_journal := j; x_interactions := x_interactions x; x_posts := x_posts x |}.
Inductive session_step : Call → Session → Session → Prop :=
| do_prepare request observed x held x' r : prepare_with_optional_account request observed x = (x', r) →
    session_step (CallPrepare request observed) {| se_execution := x; se_held := held |}
      {| se_execution := x'; se_held := capability r ++ held |}
| do_resume account a mode binding observed x held x' r :
    resume_approved_admission account a mode binding observed x = (x', r) →
    session_step (CallResume account a mode binding observed) {| se_execution := x; se_held := held |}
      {| se_execution := x'; se_held := capability r ++ held |}
| do_submit o deadline x held rest x' r : held ≡ₚ o :: rest → submit_with_deadline o deadline x = (x', r) →
    session_step (CallSubmit o deadline) {| se_execution := x; se_held := held |} {| se_execution := x'; se_held := rest |}
| do_terminalize o now failure control x held rest x' r : held ≡ₚ o :: rest →
    match control with
    | Some control => terminalize_prepared_with_control o now failure control
    | None => terminalize_prepared o now failure
    end x = (x', r) →
    session_step (CallTerminalize o now failure control) {| se_execution := x; se_held := held |}
      {| se_execution := x'; se_held := rest |}
| do_append account timestamp payload x held j r : live_append account timestamp payload (x_journal x) = (j, r) →
    session_step (CallAppend account timestamp payload) {| se_execution := x; se_held := held |}
      {| se_execution := with_journal j x; se_held := held |}
| do_forget o x held rest : held ≡ₚ o :: rest →
    session_step (Forget o) {| se_execution := x; se_held := held |} {| se_execution := x; se_held := rest |}
| do_restart p d x held d' j : found (jp_env p) (durable_log (x_journal x)) d → live_open p d = (d', Ok j) →
    session_step (Restart p d) {| se_execution := x; se_held := held |} {| se_execution := with_journal j x; se_held := [] |}.
(** Any number of steps, each of them allowed by [ok]. *)
Inductive session_run (ok : Call → Session → Prop) : Session → Session → Prop :=
| session_nil s : session_run ok s s
| session_snoc s s' s'' call : session_run ok s s' → ok call s' → session_step call s' s'' → session_run ok s s''.
Definition starts_on (j : LiveJournalInner) (s : Session) : Prop :=
  x_journal (se_execution s) = j ∧ x_posts (se_execution s) = [] ∧ se_held s = [].

(** ** What the journal holds, and would hold after a crash *)
Record keeps (P : list LiveJournalEvent → Prop) (j : LiveJournalInner) : Prop := {
  keeps_inv : live_inv j;
  keeps_now : P (li_records j);
  keeps_left : accepting j = false →
    ∃ e, ev_seq e = Z.of_nat (length (li_records j)) ∧ left_by e (li_records j) (durable_log j) ∧ P (li_records j ++ [e])
}.
Lemma keeps_append P account timestamp payload j j' r : keeps P j → P (li_records j ++ [new_event j account timestamp payload]) →
  live_append account timestamp payload j = (j', r) →
  keeps P j' ∧ match r with
               | Ok e => e = new_event j account timestamp payload ∧ li_records j' = li_records j ++ [e]
               | Err _ => li_records j' = li_records j
               end.
Proof.
  intros [Hi Hn Hl] Hp H. destruct (live_append_cases _ _ _ _ _ _ Hi H) as [Hi' Hr]. destruct r as [e|e].
  - destruct Hr as (-> & _ & Ha & Ha' & Hr). split; [|done]. split; [done|by rewrite Hr; apply Hp|congruence].
  - destruct Hr as (Hr & [->|[Ha' Hleft]]); (split; [|done]); [by split|]. split; [done|by rewrite Hr|]. intros _. rewrite Hr.
    exists (new_event j account timestamp payload). done.
Qed.
Lemma keeps_reopened P p d d' j j' : keeps P j → found (jp_env p) (durable_log j) d → live_open p d = (d', Ok j') →
  keeps P j' ∧ accepting j' = true ∧ li_records j `prefix_of` li_records j'.
Proof.
  intros [Hi Hn Hl] Hf Ho.
  assert (∀ es l, holds_log (durable_log j) es → decode_from 0 es = Ok l → P l → li_records j `prefix_of` l →
    keeps P j' ∧ accepting j' = true ∧ li_records j `prefix_of` li_records j') as Hgo.
  { intros es l Hh Hd Hp Hx. destruct (live_open_holds p _ es d d' j' Hf (or_intror Hh) Ho) as (Hi' & Ha' & Hd').
    rewrite Hd in Hd'. injection Hd' as ->. split_and!; [|done|done]. split; [done|done|congruence]. }
  destruct (accepting j) eqn:Ha.
  - destruct (inv_accepting j Hi Ha) as (es & Hc & Hd). eapply Hgo; [by apply complete_log_holds|done|done|done].
  - destruct (Hl eq_refl) as (e & Hq & (es & extra & Hh & Hd & He) & Hp). destruct He as [->|(e' & -> & Hdec)].
    + rewrite app_nil_r in Hh. by eapply Hgo.
    + destruct (control_event_valid e) eqn:Hv.
      * eapply (Hgo _ (li_records j ++ [e])); [exact Hh| |done|by apply prefix_app_r].
        rewrite (decode_from_app _ _ _ _ Hd), Z.add_0_l, <- (decode_from_length _ _ _ Hd), <- Hq, Hdec. done.
      * exfalso. destruct (live_open_holds p _ _ d d' j' Hf (or_intror Hh) Ho) as (_ & _ & H3).
        rewrite (decode_from_app _ _ _ _ Hd), Z.add_0_l, <- (decode_from_length _ _ _ Hd), <- Hq, Hdec in H3. done.
Qed.
Lemma keeps_impl (P Q : list LiveJournalEvent → Prop) j : (∀ l, P l → Q l) → keeps P j → keeps Q j.
Proof. intros H [Hi Hn Hl]. split; [done|by apply H|]. intros Ha. destruct (Hl Ha) as (e & ? & ? & ?). exists e. auto. Qed.

(** ** No post before its own record *)
Definition prepared_record (event : LiveJournalEvent) : option (AccountId * LiveOrderPreparedAudit) :=
  match ev_payload event with OrderPrepared p => Some (ev_account_id event, p) | _ => None end.
Definition order_record (o : PreparedLiveOrder) : AccountId * LiveOrderPreparedAudit := (plo_account_id o, plo_prepared_audit o).
(** The capability names what was journaled for it. *)
Definition sound (o : PreparedLiveOrder) : Prop := order_ok (plo_account_id o) (plo_identity o) o.
(** Every order posted or held has a record of its own, and the posted ones had it then. *)
Definition covered (ps : list (PreparedLiveOrder * LiveJournalInner)) (held : list PreparedLiveOrder)
    (records : list LiveJournalEvent) : Prop :=
  order_record <$> (ps.*1 ++ held) ⊆+ omap prepared_record records
  ∧ Forall (λ '(o, seen), live_inv seen ∧ order_record o ∈ omap prepared_record (li_records seen)
                          ∧ li_records seen `prefix_of` records) ps
  ∧ Forall sound (ps.*1 ++ held).
Lemma covered_more ps held records event : covered ps held records → covered ps held (records ++ [event]).
Proof.
  intros (H1 & H2 & H3). split; [rewrite omap_app; by apply submseteq_inserts_r|]. split; [|done].
  eapply Forall_impl; [exact H2|]. intros [o seen] (? & ? & ?). split_and!; [done..|]. by apply prefix_app_r.
Qed.
Lemma covered_less ps held held' records : held' ⊆+ held → covered ps held records → covered ps held' records.
Proof.
  intros Hs (H1 & H2 & H3). split_and!; [|done|].
  - etrans; [|exact H1]. apply fmap_submseteq. by apply submseteq_app.
  - rewrite Forall_app in *. destruct H3 as [H3 H4]. split; [done|]. rewrite Forall_forall in *. intros o Ho. apply H4.
    by eapply elem_of_submseteq.
Qed.
Lemma covered_new ps held records event o : sound o → prepared_record event = Some (order_record o) → covered ps held records →
  covered ps (o :: held) (records ++ [event]).
Proof.
  intros Ho He Hc. destruct (covered_more _ _ _ event Hc) as (_ & H2 & H3). split_and!; [|done|].
  2:{ rewrite Forall_app in *. destruct H3. split; [done|]. by constructor. }
  destruct Hc as [H1 _]. rewrite omap_app. cbn [omap list_omap]. rewrite He.
  rewrite fmap_app, fmap_cons, <- Permutation_middle, <- fmap_app, <- Permutation_cons_append.
  by apply submseteq_skip.
Qed.
Lemma covered_post ps held j o : live_inv j → covered ps (o :: held) (li_records j) →
  covered (ps ++ [(o, j)]) held (li_records j).
Proof.
  intros Hi (H1 & H2 & H3). unfold covered.
  replace ((ps ++ [(o, j)]).*1 ++ held) with (ps.*1 ++ o :: held) by (rewrite fmap_app, <- app_assoc; done).
  split_and!; [done| |done].
  - apply Forall_app. split; [done|]. apply Forall_singleton. split_and!; [done| |done].
    eapply elem_of_submseteq; [|exact H1]. apply list_elem_of_fmap. exists o. split; [done|]. apply elem_of_app. right. left.
Qed.

(** The assertions of one operation, with the other capabilities held. *)
Definition covers (held : list PreparedLiveOrder) (j : LiveJournalInner) (ps : list (PreparedLiveOrder * LiveJournalInner)) : Prop :=
  keeps (covered ps held) j.
Lemma covers_append held account payload : appends (covers held) account payload (covers held) (covers held).
Proof.
  intros j ps timestamp j' r H E. destruct (keeps_append _ _ _ _ _ _ _ H (covered_more _ _ _ _ (keeps_now _ _ H)) E) as [Hk _].
  by destruct r.
Qed.
Lemma covers_less held held' : held' ⊆+ held → entails (covers held) (covers held').
Proof. intros Hs j ps. apply keeps_impl. intros l. by apply covered_less. Qed.
Lemma covers_prepared held account order_identity o : order_ok account order_identity o →
  appends (covers held) account (OrderPrepared (plo_prepared_audit o)) (covers (o :: held)) (covers held).
Proof.
  intros (Ha & Hi & Ho) j ps timestamp j' r H E. pose proof (covered_more _ _ _ (new_event j account timestamp (OrderPrepared (plo_prepared_audit o)))
    (keeps_now _ _ H)) as Hmore. destruct (keeps_append _ _ _ _ _ _ _ H Hmore E) as [Hk Hr]. destruct r as [e|]; [|done].
  destruct (live_append_cases _ _ _ _ _ _ (keeps_inv _ _ H) E) as [Hinv (-> & _ & _ & Hacc & Hr')].
  split; [done| |congruence]. rewrite Hr'. apply covered_new; [| |apply H].
  - unfold sound. rewrite Ha, Hi. done.
  - unfold prepared_record, order_record. simpl. by rewrite Ha.
Qed.
#[local] Obligation Tactic := idtac.
Program Definition covering_preparation (held : list PreparedLiveOrder) account order_identity : Preparing account order_identity := {|
  pp_fresh := covers held; pp_admitted _ := covers held; pp_ready o := covers (o :: held); pp_after := covers held
|}.
Next Obligation. intros. apply entails_refl. Qed.
Next Obligation. intros. apply entails_refl. Qed.
Next Obligation. intros. apply covers_append. Qed.
Next Obligation. intros. apply covers_append. Qed.
Next Obligation. intros. apply covers_append. Qed.
Next Obligation. intros. apply covers_append. Qed.
Next Obligation. intros held account order_identity a o _ Ho. by eapply covers_prepared. Qed.
Program Definition covering_sending (held : list PreparedLiveOrder) account order_identity o : Sending account order_identity o := {|
  ps_ready := covers (o :: held); ps_sent := covers held; ps_after := covers held
|}.
Next Obligation. intros. apply covers_less. by apply submseteq_cons. Qed.
Next Obligation. intros. apply entails_refl. Qed.
Next Obligation.
  intros held account order_identity o j ps [Hi Hn Hl]. split; [done|by apply covered_post|]. intros Ha.
  destruct (Hl Ha) as (e & ? & ? & _). exists e. split_and!; [done|done|]. by apply covered_more, covered_post.
Qed.
Next Obligation.
  intros held account order_identity o failed _ j ps timestamp j' r H E.
  pose proof (covers_append _ _ _ _ _ _ _ _ H E) as H'.
  assert (covers (o :: held) j' ps) as Hc by by destruct r. apply (covers_less _ held) in Hc; [by destruct r|by apply submseteq_cons].
Qed.
Next Obligation. intros. apply covers_append. Qed.
Next Obligation. intros. apply covers_append. Qed.
Next Obligation. intros. apply covers_append. Qed.

(** *** Every step keeps it *)
Definition covered_session (s : Session) : Prop :=
  covers (se_held s) (x_journal (se_execution s)) (x_posts (se_execution s)).
Lemma covered_step call s s' : session_step call s s' → covered_session s → covered_session s'.
Proof.
  unfold covered_session. intros H. destruct H as [request observed x held x' r E|account a mode binding observed x held x' r E
    |o deadline x held rest x' r Hp E|o now failure control x held rest x' r Hp E|account timestamp payload x held j r E
    |o x held rest Hp|p d x held d' j Hf E]; cbn [se_execution se_held]; intros Hc.
  - pose proof (follows_prepare _ _ (covering_preparation held _ _) request observed eq_refl eq_refl x Hc) as H.
    rewrite E in H. destruct r as [[o|]|]; [|done..]. by destruct H as [_ H].
  - pose proof (follows_resume account _ (covering_preparation held _ _) a mode binding observed eq_refl x Hc) as H.
    rewrite E in H. destruct r as [[o|]|]; [|done..]. by destruct H as [_ H].
  - apply (covers_less _ (o :: rest)) in Hc; [|by rewrite Hp].
    pose proof (follows_submit _ _ o (covering_sending rest _ _ o) deadline eq_refl eq_refl x Hc) as H. rewrite E in H. by destruct r.
  - apply (covers_less _ (o :: rest)) in Hc; [|by rewrite Hp].
    pose proof (follows_terminalize _ _ o (covering_sending rest _ _ o) now failure control eq_refl eq_refl x Hc) as H.
    rewrite E in H. by destruct r.
  - pose proof (covers_append _ _ _ _ _ _ _ _ Hc E) as H. by destruct r.
  - apply (covers_less _ rest) in Hc; [done|]. rewrite Hp. by apply submseteq_cons.
  - apply (covers_less _ []) in Hc; [|by apply submseteq_nil_l]. by destruct (keeps_reopened _ _ _ _ _ _ Hc Hf E).
Qed.
Lemma covered_run ok s s' : session_run ok s s' → covered_session s → covered_session s'.
Proof. induction 1 as [|s s' s'' call _ IH _ Hs]; [done|]. intros H. eapply covered_step; [exact Hs|auto]. Qed.

(** A resumed admission leaves a well-formed journal. *)
Lemma resumed_inv account a mode binding observed x x' r : live_inv (x_journal x) → accepting (x_journal x) = true → x_posts x = [] →
  resume_approved_admission account a mode binding observed x = (x', r) → live_inv (x_journal x').
Proof.
  intros Hi Ha Hp E. assert (covered_session {| se_execution := x'; se_held := capability r ++ [] |}) as H; [|apply H].
  apply (covered_step _ _ _ (do_resume _ _ _ _ _ x [] x' r E)). unfold covered_session, covers. simpl. rewrite Hp.
  split; [done|by split_and!; [apply submseteq_nil_l|..]|congruence].
Qed.

(** C9: Nothing is sent before its own record is durable.  Over any number of processes on one journal,
    with whatever calls, answers of the venue, failing writes and crashes, every order handed to the
    venue was handed over when the complete frames of the file decoded to records that contain the
    preparation of exactly that order, with its account, identity and hash; no two hand-overs share one
    such record, and the records are still in the journal at the end. *)
Theorem posts_follow_records ok j s s' : live_inv j → accepting j = true → starts_on j s → session_run ok s s' →
  let x := se_execution s' in
  order_record <$> (x_posts x).*1 ⊆+ omap prepared_record (li_records (x_journal x))
  ∧ ∀ o seen, (o, seen) ∈ x_posts x →
      sound o ∧ li_records seen `prefix_of` li_records (x_journal x)
      ∧ ∃ es extra, log_envelopes (durable_log seen) = es ++ extra ∧ decode_from 0 es = Ok (li_records seen)
          ∧ (plo_account_id o, plo_prepared_audit o) ∈ omap prepared_record (li_records seen).
Proof.
  intros Hi Ha (Hj & Hps & Hh) Hrun. assert (covered_session s) as H0.
  { unfold covered_session, covers. rewrite Hj, Hps, Hh. split; [done|by split_and!; [apply submseteq_nil_l|..]|congruence]. }
  destruct (covered_run _ _ _ Hrun H0) as [_ (H1 & H2 & H3) _]. cbv zeta. split.
  - etrans; [|exact H1]. rewrite fmap_app. by apply submseteq_inserts_r.
  - intros o seen Hin. rewrite Forall_forall in H2. destruct (H2 _ Hin) as (Hi' & Hrec & Hpre).
    rewrite Forall_app, !Forall_forall in H3. split_and!; [apply (proj1 H3)|done|].
    + apply list_elem_of_fmap. by exists (o, seen).
    + pose proof (inv_log _ Hi') as Hl. destruct (accepting seen).
      * destruct Hl as (es & Hc & Hd). exists es, []. rewrite app_nil_r. split_and!; [|done|done].
        by apply holds_log_envelopes, complete_log_holds.
      * destruct Hl as (es & extra & Hh' & Hd & _). exists es, extra. split_and!; [|done|done]. by apply holds_log_envelopes.
Qed.

(** ** Recovery of a session's journal *)
Context {AL : Alloy} {TJ : ToVec JsonValue}.

Lemma filter_iff_in {A} (P Q : A → Prop) `{∀ x, Decision (P x), ∀ x, Decision (Q x)} (l : list A) : (∀ x, x ∈ l → P x ↔ Q x) →
  filter P l = filter Q l.
Proof.
  induction l as [|x l IH]; intros Hl; [done|]. rewrite !filter_cons, IH by (intros y Hy; apply Hl; by right).
  destruct (decide (P x)) as [HP|HP], (decide (Q x)) as [HQ|HQ]; try done; exfalso; apply (Hl x) in HP || apply (Hl x) in HQ; by try left.
Qed.
Definition recovered (records : list LiveJournalEvent) (f : LiveRecoveryFold) : Prop :=
  fold_records false LiveRecoveryFold_default (after_baselines records) = Some (Ok f).
Definition bound (records : list LiveJournalEvent) (account : AccountId) : Prop := is_Some (baseline_seq records account).
Definition numbered (records : list LiveJournalEvent) : Prop :=
  ∀ n event, records !! n = Some event → ev_seq event = Z.of_nat n.
Lemma recovered_fun records f f' : recovered records f → recovered records f' → f = f'.
Proof. unfold recovered. congruence. Qed.
Lemma recovered_wf records f : recovered records f → fold_wf f.
Proof. apply fold_records_wf. Qed.
Lemma live_inv_numbered j : live_inv j → numbered (li_records j).
Proof.
  intros [_ _ Hl] n event Hn. assert (∃ es, decode_from 0 es = Ok (li_records j)) as [es Hd].
  { destruct (accepting j); [destruct Hl as (es & _ & ?)|destruct Hl as (es & ? & _ & ? & _)]; by exists es. }
  by rewrite (decode_from_lookup _ _ _ _ _ Hd Hn).
Qed.
Lemma numbered_snoc records event : numbered records → ev_seq event = Z.of_nat (length records) → numbered (records ++ [event]).
Proof.
  intros Hn He n e. destruct (decide (n < length records)%nat) as [Hlt|Hge].
  - rewrite lookup_app_l by done. apply Hn.
  - rewrite lookup_app_r by lia. intros Hl. destruct (n - length records)%nat eqn:Hm; simplify_eq/=. rewrite He. f_equal. lia.
Qed.
Lemma baseline_seq_snoc records event account : baseline_seq (records ++ [event]) account
  = match baseline_seq records account with
    | Some seq => Some seq
    | None => if decide (ev_account_id event = account ∧ is_baseline event = true) then Some (ev_seq event) else None
    end.
Proof.
  unfold baseline_seq, first_account_baseline_index. set (Q := λ e, ev_account_id e = account ∧ is_baseline e = true).
  destruct (list_find Q records) as [[i e]|] eqn:Hf; simpl.
  - rewrite (list_find_app_l _ _ [event] i e Hf). simpl. apply list_find_Some in Hf as (Hi & _).
    rewrite lookup_app_l by by eapply lookup_lt_Some. by rewrite Hi.
  - rewrite list_find_app_r by done. unfold Q. simpl. case_decide; [|done]. simpl.
    by rewrite lookup_app_r, Nat.sub_diag by lia.
Qed.
Lemma bound_prefix records records' account : records `prefix_of` records' → bound records account → bound records' account.
Proof.
  intros [more ->]. induction more as [|e more IH] using rev_ind; [by rewrite app_nil_r|].
  intros [seq H]%IH. unfold bound. rewrite app_assoc, baseline_seq_snoc, H. by eexists.
Qed.
Lemma baseline_seq_bound records account seq : numbered records → baseline_seq records account = Some seq →
  seq < Z.of_nat (length records).
Proof.
  intros Hn. unfold baseline_seq. intros (i & _ & (e & He & ->)%fmap_Some)%bind_Some. rewrite (Hn _ _ He).
  apply lookup_lt_Some in He. lia.
Qed.
Lemma after_baselines_snoc records event : numbered (records ++ [event]) → after_baselines (records ++ [event])
  = after_baselines records ++ (if decide (bound (records ++ [event]) (ev_account_id event)) then [event] else []).
Proof.
  intros Hn. assert (numbered records) as Hn' by (intros n e He; apply Hn; by apply lookup_app_l_Some).
  assert (ev_seq event = Z.of_nat (length records)) as Hq by (apply Hn; rewrite lookup_app_r, Nat.sub_diag; done).
  unfold after_baselines at 1. rewrite filter_app. f_equal.
  - apply filter_iff_in. intros e He. apply list_elem_of_lookup in He as [n He].
    rewrite baseline_seq_snoc. destruct (baseline_seq records (ev_account_id e)); [done|].
    destruct (decide _); [|done]. simpl. rewrite Hq, (Hn' _ _ He). apply lookup_lt_Some in He. split; [|done].
    intros Hle%Z.leb_le. lia.
  - rewrite filter_cons, filter_nil. unfold bound. destruct (baseline_seq _ _) as [seq|] eqn:Hs; repeat case_decide as Hd; try done.
    exfalso. apply Hd. apply (baseline_seq_bound _ _ _ Hn) in Hs. rewrite length_app in Hs. simpl in *. apply Z.leb_le. lia.
Qed.
Lemma recovered_snoc records event f f' : numbered (records ++ [event]) → bound (records ++ [event]) (ev_account_id event) →
  recovered records f → fold_apply false f event = Some (Ok f') → recovered (records ++ [event]) f'.
Proof.
  intros Hn Hb Hr Hf. unfold recovered in *. rewrite after_baselines_snoc, decide_True, fold_records_snoc by done.
  apply panicking_bind_Ok. by exists f.
Qed.
(** One more record changes nothing, or is a step of the life cycle. *)
Lemma recovered_next records event f f' : numbered (records ++ [event]) → recovered records f →
  recovered (records ++ [event]) f' → f' = f ∨ refines event f f'.
Proof.
  intros Hn Hr Hr'. unfold recovered in Hr'. rewrite after_baselines_snoc in Hr' by done. destruct (decide _).
  - rewrite fold_records_snoc in Hr'. apply panicking_bind_Ok in Hr' as (f1 & H1 & H2).
    rewrite (recovered_fun _ _ _ Hr H1). right. apply (fold_apply_refines false); [|done]. by eapply recovered_wf.
  - rewrite app_nil_r in Hr'. left. symmetry. by eapply recovered_fun.
Qed.
(** What the verifying recovery adds: the verdict on each admission, under the binding of the account's baseline. *)
Record recovered_bindings (records : list LiveJournalEvent) (f : LiveRecoveryFold) : Prop := {
  rb_wf : bt_wf (rf_account_bindings f);
  rb_bound : ∀ account, bound records account → is_Some (bt_get (account_slug account) (rf_account_bindings f));
  rb_verified : fold_records true LiveRecoveryFold_default (after_baselines records) = Some (Ok f)
                ↔ Forall (admission_verifies (rf_account_bindings f)) (after_baselines records)
}.
Lemma after_baselines_bound records event : event ∈ after_baselines records → bound records (ev_account_id event).
Proof. intros [H _]%list_elem_of_filter. unfold bound. destruct (baseline_seq _ _); [by eexists|done]. Qed.
Lemma verified_snoc records event f f' : recovered_bindings records f → recovered records f →
  numbered (records ++ [event]) → bound (records ++ [event]) (ev_account_id event) → fold_apply false f event = Some (Ok f') →
  recovered_bindings (records ++ [event]) f'.
Proof.
  intros [Hw Hb Hv] Hr Hn Hbe Hf. destruct (fold_apply_grows _ _ _ _ (recovered_wf _ _ Hr) Hw Hf) as [G1 G2 G3 _ _].
  assert (∀ e, bound records (ev_account_id e) →
    admission_verifies (rf_account_bindings f) e ↔ admission_verifies (rf_account_bindings f') e) as Hsame
    by (intros e He; apply admission_verifies_weaken; [intros v; apply G2|by apply Hb]).
  assert (admission_verifies (rf_account_bindings f) event ↔ admission_verifies (rf_account_bindings f') event) as Hlast.
  { unfold bound in Hbe. rewrite baseline_seq_snoc in Hbe. destruct (baseline_seq records (ev_account_id event)) eqn:E.
    - apply Hsame. by eexists.
    - destruct (decide _) as [[_ Hbl]|]; [|by destruct Hbe]. unfold admission_verifies, is_baseline in *. by destruct (ev_payload event). }
  split; [done| |].
  - intros account [seq Hs]. rewrite baseline_seq_snoc in Hs. destruct (baseline_seq records account) as [seq'|] eqn:E.
    + destruct (Hb account) as [v Hg]; [by eexists|]. exists v. by apply G2.
    + destruct (decide _) as [[<- Hbl]|]; [by apply G3|done].
  - rewrite after_baselines_snoc, decide_True, fold_records_snoc, Forall_app, Forall_singleton, <- Hlast by done.
    rewrite <- (fold_apply_verified _ _ _ Hf). assert (Forall (admission_verifies (rf_account_bindings f)) (after_baselines records)
      ↔ Forall (admission_verifies (rf_account_bindings f')) (after_baselines records)) as <-.
    { rewrite !Forall_forall. split; intros H e He; apply Hsame; auto using after_baselines_bound. }
    rewrite <- Hv. split.
    + intros (f1 & H1 & H2)%panicking_bind_Ok. assert (f1 = f) as -> by (eapply recovered_fun; [by apply fold_records_structural|done]).
      done.
    + intros [-> H]. done.
Qed.
Lemma recovered_verified records f : numbered records → recovered records f → recovered_bindings records f.
Proof.
  revert f. induction records as [|event records IH] using rev_ind; intros f Hn Hr.
  { injection Hr as <-. split; [constructor|by intros account [seq H]|by split]. }
  assert (numbered records) as Hn' by (intros n e He; apply Hn; by apply lookup_app_l_Some).
  pose proof Hr as Hr0. unfold recovered in Hr0. rewrite after_baselines_snoc in Hr0 by done. destruct (decide _) as [Hb|Hb].
  - rewrite fold_records_snoc in Hr0. apply panicking_bind_Ok in Hr0 as (f1 & H1 & H2). by eapply verified_snoc; [apply IH|..].
  - rewrite app_nil_r in Hr0. destruct (IH _ Hn' Hr0) as [H1 H2 H3]. split; [done| |].
    + intros account [seq Hs]. rewrite baseline_seq_snoc in Hs. destruct (baseline_seq records account) eqn:E; [apply H2; by eexists|].
      destruct (decide _) as [[<- Hbl]|]; [|done]. destruct Hb. unfold bound. rewrite baseline_seq_snoc, E, decide_True by done. by eexists.
    + rewrite after_baselines_snoc, decide_False, app_nil_r by done. exact H3.
Qed.
Lemma inventories_recovered file records f : numbered records → recovered records f → replay_all file = Some (Ok records) →
  structural_recovery_inventory file None = Some (Ok (inventory f))
  ∧ ∀ inv, recovery_inventory file None = Some (Ok inv)
      ↔ inv = inventory f ∧ Forall (admission_verifies (rf_account_bindings f)) (after_baselines records).
Proof.
  intros Hn Hr Hf. unfold structural_recovery_inventory, recovery_inventory, build_recovery_inventory, recover_events.
  rewrite Hf. cbn [mbind panicking_mbind after_prefix mret panicking_mret throws]. split; [by rewrite Hr|]. intros inv.
  rewrite (check_admissions_folded _ [] [] _ f fold_wf_default); [|constructor|constructor|done|exact Hr].
  cbn [mbind panicking_mbind after_prefix mret panicking_mret throws].
  rewrite <- (rb_verified _ _ (recovered_verified _ _ Hn Hr)). split.
  - intros (f' & H & [= <-])%panicking_bind_Ok. by rewrite (recovered_fun _ _ _ Hr (fold_records_structural _ _ _ H)).
  - intros [-> H]. by rewrite H.
Qed.
(** A dispatch whose order exists and whose admission is used up. *)
Definition spent (l : Life) : Prop := life_admission l = AdmissionClosed ∧ life_order l ≠ NoOrder.
Lemma spent_step event l l' : life_step event l l' → spent l → spent l'.
Proof. intros H [Ha Ho]. unfold spent. destruct H; simplify_eq/=; try done; subst; done. Qed.
Lemma spent_refines event f f' k : refines event f f' → spent (life f k) → spent (life f' k).
Proof. intros [_ H]. specialize (H k). destruct (decide _); [by eapply spent_step|by rewrite H]. Qed.
Definition all_spent (ks : list (string * string)) (records : list LiveJournalEvent) : Prop :=
  ∃ f, recovered records f ∧ Forall (λ k, spent (life f k)) ks.
Lemma all_spent_next ks records event f : numbered (records ++ [event]) → all_spent ks records →
  recovered (records ++ [event]) f → Forall (λ k, spent (life f k)) ks.
Proof.
  intros Hn (f0 & H0 & Hs) Hr. destruct (recovered_next _ _ _ _ Hn H0 Hr) as [->|Hf]; [done|].
  eapply Forall_impl; [exact Hs|]. intros k. by eapply spent_refines.
Qed.
Lemma keeps_spent_more ks k j f : keeps (all_spent ks) j → recovered (li_records j) f → spent (life f k) → keeps (all_spent (k :: ks)) j.
Proof.
  intros [Hi (f0 & H0 & Hs) Hl] Hr Hk. rewrite (recovered_fun _ _ _ H0 Hr) in *. split; [done|exists f; by auto|].
  intros Ha. destruct (Hl Ha) as (e & Hq & Hleft & f1 & H1 & Hs1). exists e. split_and!; [done|done|]. exists f1. split; [done|].
  constructor; [|done]. destruct (recovered_next _ _ _ _ (numbered_snoc _ _ (live_inv_numbered _ Hi) Hq) Hr H1) as [->|Hf]; [done|].
  by eapply spent_refines.
Qed.

(** *** What recovery foldable *)
Lemma life_not_evaluated f k : life_admission (life f k) = NotEvaluated → bs_mem k (rf_evaluated_admissions f) = false.
Proof. unfold life, admission_phase. simpl. destruct (bt_get k _) as [[? ?]|]; [done|]. by destruct (bs_mem k _). Qed.
Lemma life_open_admission f k seq a : life_admission (life f k) = AdmissionOpen seq a →
  bt_get k (rf_approved_admissions f) = Some (seq, a).
Proof. unfold life, admission_phase. simpl. destruct (bt_get k _) as [[? ?]|]; [by intros [= -> ->]|]. by destruct (bs_mem k _). Qed.
Lemma life_no_admission f k : life_admission (life f k) = AdmissionClosed → bt_get k (rf_approved_admissions f) = None.
Proof. unfold life, admission_phase. simpl. by destruct (bt_get k _) as [[? ?]|]. Qed.
Lemma life_no_order f k : life_order (life f k) = NoOrder → bt_get k (rf_orders f) = None.
Proof. unfold life, order_phase. simpl. destruct (bt_get k _) as [o|]; [|done]. by destruct (oo_terminal o). Qed.
Lemma life_open_order f k seq order_identity hash p : life_order (life f k) = OrderOpen seq order_identity hash p →
  ∃ o, bt_get k (rf_orders f) = Some o ∧ oo_terminal o = false ∧ oe_identity (oo_entry o) = order_identity ∧ oo_order_hash o = hash
       ∧ oe_prepared_journal_seq (oo_entry o) = seq ∧ oo_prepared o = p.
Proof.
  unfold life, order_phase. simpl. destruct (bt_get k _) as [o|]; [|done]. destruct (oo_terminal o) eqn:Ht; [done|].
  intros [= <- <- <- <-]. by exists o.
Qed.
Definition foldable (f : LiveRecoveryFold) (event : LiveJournalEvent) : Prop := ∃ f', fold_apply false f event = Some (Ok f').
Lemma foldable_admission f event a : ev_payload event = AdmissionEvaluated a →
  life_admission (life f (dispatch_key (ev_account_id event) (ae_identity a))) = NotEvaluated → foldable f event.
Proof.
  intros He Hl%life_not_evaluated. unfold foldable, fold_apply. rewrite He. unfold fold_admission. cbn [mbind panicking_mbind].
  change (rf_evaluated_admissions (note_account _ f)) with (rf_evaluated_admissions f). rewrite Hl. by eexists.
Qed.
Lemma foldable_prepared f event a p seq : ev_payload event = OrderPrepared p → admitted_as a p →
  life f (dispatch_key (ev_account_id event) (op_identity p)) = {| life_admission := AdmissionOpen seq a; life_order := NoOrder |} →
  foldable f event.
Proof.
  intros He [H1 H2 H3 H4] Hl. assert (bt_get _ (rf_approved_admissions f) = Some (seq, a)) as Ha
    by (apply life_open_admission; by rewrite Hl).
  assert (bt_get _ (rf_orders f) = None) as Ho by (apply life_no_order; by rewrite Hl).
  unfold foldable, fold_apply. rewrite He. unfold fold_prepared.
  change (rf_approved_admissions (note_account _ f)) with (rf_approved_admissions f). rewrite Ha. simpl.
  rewrite H3, !bool_decide_eq_false_2 by (by intros Hn; apply Hn). simpl. unfold insert_open_order. simpl. rewrite Ho.
  rewrite bool_decide_eq_false_2 by by intros [? ?]. by eexists.
Qed.
Lemma foldable_admission_failed f event a failed seq o : ev_payload event = OrderPreparationFailed failed → ae_identity a = pf_identity failed →
  life f (dispatch_key (ev_account_id event) (pf_identity failed)) = {| life_admission := AdmissionOpen seq a; life_order := o |} →
  foldable f event.
Proof.
  intros He Hi Hl. assert (bt_get _ (rf_approved_admissions f) = Some (seq, a)) as Ha by (apply life_open_admission; by rewrite Hl).
  unfold foldable, fold_apply. rewrite He. unfold fold_preparation_failed.
  change (rf_approved_admissions (note_account _ f)) with (rf_approved_admissions f). rewrite Ha. simpl.
  rewrite bool_decide_eq_false_2 by (by intros Hn; apply Hn). by eexists.
Qed.
Lemma foldable_order_failed f event failed seq hash p : ev_payload event = OrderPreparationFailed failed →
  life f (dispatch_key (ev_account_id event) (pf_identity failed))
    = {| life_admission := AdmissionClosed; life_order := OrderOpen seq (pf_identity failed) hash p |} →
  foldable f event.
Proof.
  intros He Hl. assert (bt_get _ (rf_approved_admissions f) = None) as Ha by (apply life_no_admission; by rewrite Hl).
  destruct (life_open_order f _ _ _ _ _ (f_equal life_order Hl)) as (o & Ho & Ht & Hi & _).
  unfold foldable, fold_apply. rewrite He. unfold fold_preparation_failed.
  change (rf_approved_admissions (note_account _ f)) with (rf_approved_admissions f).
  change (rf_orders (note_account _ f)) with (rf_orders f). rewrite Ha, Ho. simpl.
  rewrite Ht, bool_decide_eq_false_2 by (by intros Hn; apply Hn). by eexists.
Qed.
Lemma foldable_posted f event posted seq a p : ev_payload event = OrderPosted posted →
  life f (dispatch_key (ev_account_id event) (po_identity posted))
    = {| life_admission := a; life_order := OrderOpen seq (po_identity posted) (po_order_hash posted) p |} →
  foldable f event.
Proof.
  intros He Hl. destruct (life_open_order f _ _ _ _ _ (f_equal life_order Hl)) as (o & Ho & Ht & Hi & Hh & _).
  unfold foldable, fold_apply. rewrite He. unfold fold_posted. change (rf_orders (note_account _ f)) with (rf_orders f).
  rewrite Ho. simpl. rewrite Ht. unfold fact_matches, prepared_order_fact_matches. rewrite Hi, Hh, !bool_decide_eq_true_2 by done.
  by eexists.
Qed.
Lemma foldable_reconciled f event r seq a p : ev_payload event = OrderReconciled r → or_source r ≠ PolygonFinality →
  source_matches_outcome (or_source r) (or_outcome r) = true →
  life f (dispatch_key (ev_account_id event) (or_identity r))
    = {| life_admission := a; life_order := OrderOpen seq (or_identity r) (or_order_hash r) p |} →
  foldable f event.
Proof.
  intros He Hs Hm Hl. destruct (life_open_order f _ _ _ _ _ (f_equal life_order Hl)) as (o & Ho & Ht & Hi & Hh & _).
  unfold foldable, fold_apply. rewrite He. unfold fold_reconciled. change (rf_orders (note_account _ f)) with (rf_orders f).
  rewrite Ho. simpl. rewrite Ht. unfold fact_matches, prepared_order_fact_matches.
  rewrite Hi, Hh, Hm, !bool_decide_eq_true_2 by done. simpl. unfold reconcile_polygon. destruct (or_source r); [by eexists..|done].
Qed.

(** *** One operation on a recoverable journal

    [ks] are the dispatches posted so far, [f0] and [l0] what was recovered and
    published before; only the life of the operation's own dispatch changes. *)
Section Operation.
Context (ks : list (string * string)) (f0 : LiveRecoveryFold) (l0 : list LiveJournalEvent).
Context (account : AccountId) (order_identity : LiveOrderIdentity).
#[local] Abbreviation key := (dispatch_key account order_identity).
Record during (Φ : Life → Prop) (j : LiveJournalInner) : Prop := {
  during_keeps : keeps (all_spent ks) j;
  during_fold : ∃ f, recovered (li_records j) f ∧ (∀ k, k ≠ key → life f k = life f0 k) ∧ Φ (life f key);
  during_prefix : l0 `prefix_of` li_records j;
  during_bound : bound l0 account
}.
Lemma during_impl (Φ Ψ : Life → Prop) j : (∀ l, Φ l → Ψ l) → during Φ j → during Ψ j.
Proof. intros H [Hd1 (f & Hd2 & Hd3 & Hd4) Hd5 Hd6]. split; [done|exists f; by auto|done|done]. Qed.
Lemma during_append (Φ Ψ : Life → Prop) payload timestamp j j' r :
  (∀ f event, ev_account_id event = account → ev_payload event = payload → Φ (life f key) → foldable f event) →
  (∀ event l l', ev_account_id event = account → ev_payload event = payload → Φ l → life_step event l l' → Ψ l') →
  (∀ event, ev_account_id event = account → ev_payload event = payload →
     event_key event = Some key ∨ (event_key event = None ∧ ∀ l, Φ l → Ψ l)) →
  during Φ j → live_append account timestamp payload j = (j', r) →
  match r with Ok _ => during Ψ j' | Err _ => during Φ j' end.
Proof.
  intros Hacc Hstep Hkey [H1 (f & Hr & Ho & Hf) H3 H4] E. set (event := new_event j account timestamp payload).
  pose proof (numbered_snoc _ event (live_inv_numbered _ (keeps_inv _ _ H1)) eq_refl) as Hn.
  destruct (Hacc f event eq_refl eq_refl Hf) as [f' Hf'].
  assert (recovered (li_records j ++ [event]) f') as Hr'.
  { eapply recovered_snoc; [done| |done|done]. eapply bound_prefix; [|exact H4]. by apply prefix_app_r. }
  pose proof (fold_apply_refines _ _ _ _ (recovered_wf _ _ Hr) Hf') as [_ Hl].
  assert (all_spent ks (li_records j ++ [event])) as Hs by (exists f'; split; [done|]; by eapply all_spent_next; [..|apply H1|]).
  destruct (keeps_append _ _ _ _ _ _ _ H1 Hs E) as [Hk He]. destruct r as [e|e].
  - destruct He as [-> Hrec]. fold event in Hrec. split; [done| |rewrite Hrec; by apply prefix_app_r|done].
    exists f'. rewrite Hrec. split_and!; [done| |].
    + intros k Hne. rewrite <- (Ho k Hne). specialize (Hl k). rewrite decide_False in Hl; [done|].
      destruct (Hkey event eq_refl eq_refl) as [->|[-> _]]; congruence.
    + specialize (Hl key). destruct (Hkey event eq_refl eq_refl) as [Hek|[Hek HΨ]]; rewrite Hek in Hl.
      * rewrite decide_True in Hl by done. by apply (Hstep event (life f key)).
      * rewrite decide_False in Hl by done. rewrite Hl. by apply HΨ.
  - split; [done| |by rewrite He|done]. exists f. by rewrite He.
Qed.

Definition fresh_phase (l : Life) : Prop := l = fresh_life.
Definition admitted_phase (a : LiveAdmissionEvaluationAudit) (l : Life) : Prop :=
  ∃ seq, l = {| life_admission := AdmissionOpen seq a; life_order := NoOrder |}.
Definition open_phase (o : PreparedLiveOrder) (l : Life) : Prop :=
  ∃ seq p, l = {| life_admission := AdmissionClosed; life_order := OrderOpen seq order_identity (plo_order_hash o) p |}.
Lemma open_spent o l : open_phase o l → spent l.
Proof. intros (seq & p & ->). done. Qed.
Definition alive (Φ : Life → Prop) (ps : list (PreparedLiveOrder * LiveJournalInner)) (j : LiveJournalInner)
    (ps' : list (PreparedLiveOrder * LiveJournalInner)) : Prop := during Φ j ∧ ps' = ps.
Lemma alive_append (Φ Ψ : Life → Prop) payload ps :
  (∀ f event, ev_account_id event = account → ev_payload event = payload → Φ (life f key) → foldable f event) →
  (∀ event l l', ev_account_id event = account → ev_payload event = payload → Φ l → life_step event l l' → Ψ l') →
  (∀ event, ev_account_id event = account → ev_payload event = payload →
     event_key event = Some key ∨ (event_key event = None ∧ ∀ l, Φ l → Ψ l)) →
  appends (alive Φ ps) account payload (alive Ψ ps) (alive (λ _, True) ps).
Proof.
  intros H1 H2 H3 j ps' timestamp j' r [Hd ->] E. pose proof (during_append Φ Ψ payload timestamp j j' r H1 H2 H3 Hd E) as H.
  destruct r; split; try done. by eapply during_impl; [|exact H].
Qed.
Program Definition recovering_preparation ps : Preparing account order_identity := {|
  pp_fresh := alive fresh_phase ps; pp_admitted a := alive (admitted_phase a) ps; pp_ready o := alive (open_phase o) ps;
  pp_after := alive (λ _, True) ps
|}.
Next Obligation. intros ps j ps' [H ->]. split; [|done]. by eapply during_impl; [|exact H]. Qed.
Next Obligation. intros ps a j ps' [H ->]. split; [|done]. by eapply during_impl; [|exact H]. Qed.
Next Obligation.
  intros ps frozen current. apply alive_append.
  - intros f event _ He _. unfold foldable, fold_apply. rewrite He. by eexists.
  - intros event l l' _ He _ Hs. destruct Hs; congruence.
  - intros event _ He. right. unfold event_key. by rewrite He.
Qed.
Next Obligation.
  intros ps a reason Hi Hv. apply alive_append.
  - intros f event <- He Hf. apply (foldable_admission _ _ _ He). by rewrite Hi, Hf.
  - done.
  - intros event <- He. left. unfold event_key. rewrite He. simpl. by rewrite Hi.
Qed.
Next Obligation.
  intros ps a Hi Hv. apply alive_append.
  - intros f event <- He Hf. apply (foldable_admission _ _ _ He). by rewrite Hi, Hf.
  - intros event l l' _ He -> Hs. inversion Hs; simplify_eq/=; try congruence. exists (ev_seq event). congruence.
  - intros event <- He. left. unfold event_key. rewrite He. simpl. by rewrite Hi.
Qed.
Next Obligation.
  intros ps a failed Hi Hf. apply alive_append.
  - intros f event <- He [seq Hl]. rewrite <- Hf in Hl. eapply (foldable_admission_failed _ _ _ _ _ _ He); [|exact Hl]. congruence.
  - done.
  - intros event <- He. left. unfold event_key. rewrite He. simpl. by rewrite Hf.
Qed.
Next Obligation.
  intros ps a o Had (_ & _ & Hi & Hh). apply alive_append.
  - intros f event <- He [seq Hl]. rewrite <- Hi in Hl. by eapply (foldable_prepared _ _ _ _ _ He Had).
  - intros event l l' _ He [seq ->] Hs. inversion Hs; simplify_eq/=; try congruence.
    exists (ev_seq event), (Some p). unfold open_phase. rewrite Hh. congruence.
  - intros event <- He. left. unfold event_key. rewrite He. simpl. by rewrite Hi.
Qed.
(** The order is posted from here on, or not. *)
Definition spending o ps (j : LiveJournalInner) (ps' : list (PreparedLiveOrder * LiveJournalInner)) : Prop :=
  during spent j ∧ (ps' = ps ∨ ∃ seen, ps' = ps ++ [(o, seen)]).
Definition sent o ps (j : LiveJournalInner) (ps' : list (PreparedLiveOrder * LiveJournalInner)) : Prop :=
  during (open_phase o) j ∧ ∃ seen, ps' = ps ++ [(o, seen)].
Lemma open_failed o failed : pf_identity failed = order_identity → ∀ j timestamp j' r, during (open_phase o) j →
  live_append account timestamp (OrderPreparationFailed failed) j = (j', r) → during spent j'.
Proof.
  intros Hi j timestamp j' r Hd E. eapply (during_append (open_phase o) spent) in E; [| | | |exact Hd].
  - destruct r; [done|]. eapply during_impl; [|exact E]. apply open_spent.
  - intros f event <- He (seq & p & Hl). rewrite <- Hi in Hl. by eapply (foldable_order_failed _ _ _ _ _ _ He).
  - intros event l l' _ _ Hl Hs. eapply spent_step; [exact Hs|]. by eapply open_spent.
  - intros event <- He. left. unfold event_key. rewrite He. simpl. by rewrite Hi.
Qed.
Lemma open_posted o posted : po_identity posted = order_identity → po_order_hash posted = plo_order_hash o →
  ∀ j timestamp j' r, during (open_phase o) j → live_append account timestamp (OrderPosted posted) j = (j', r) →
  during (open_phase o) j'.
Proof.
  intros Hi Hh j timestamp j' r Hd E. eapply (during_append (open_phase o) (open_phase o)) in E; [| | | |exact Hd].
  - by destruct r.
  - intros f event <- He (seq & p & Hl). rewrite <- Hi, <- Hh in Hl. by eapply (foldable_posted _ _ _ _ _ _ He).
  - intros event l l' _ He Hl Hs. destruct Hs; try congruence.
  - intros event <- He. left. unfold event_key. rewrite He. simpl. by rewrite Hi.
Qed.
Lemma open_reconciled o r : venue_fact order_identity o r →
  ∀ j timestamp j' x, during (open_phase o) j → live_append account timestamp (OrderReconciled r) j = (j', x) → during spent j'.
Proof.
  intros (Hi & Hh & Hs & Hm) j timestamp j' x Hd E. eapply (during_append (open_phase o) spent) in E; [| | | |exact Hd].
  - destruct x; [done|]. eapply during_impl; [|exact E]. apply open_spent.
  - intros f event <- He (seq & p & Hl). rewrite <- Hi, <- Hh in Hl. by eapply (foldable_reconciled _ _ _ _ _ _ He).
  - intros event l l' _ _ Hl Hstep. eapply spent_step; [exact Hstep|]. by eapply open_spent.
  - intros event <- He. left. unfold event_key. rewrite He. simpl. by rewrite Hi.
Qed.
Program Definition recovering_sending ps o : Sending account order_identity o := {|
  ps_ready := alive (open_phase o) ps; ps_sent := sent o ps; ps_after := spending o ps
|}.
Next Obligation. intros ps o j ps' [H ->]. split; [|by left]. eapply during_impl; [|exact H]. apply open_spent. Qed.
Next Obligation. intros ps o j ps' [H Hp]. split; [|by right]. eapply during_impl; [|exact H]. apply open_spent. Qed.
Next Obligation. intros ps o j ps' [H ->]. split; [done|by exists j]. Qed.
Next Obligation.
  intros ps o failed Hi j ps' timestamp j' r [H ->] E. pose proof (open_failed o failed Hi _ _ _ _ H E). destruct r; (split; [done|by left]).
Qed.
Next Obligation.
  intros ps o failed Hi j ps' timestamp j' r [H Hp] E. pose proof (open_failed o failed Hi _ _ _ _ H E). destruct r; (split; [done|by right]).
Qed.
Next Obligation.
  intros ps o posted Hi Hh j ps' timestamp j' r [H Hp] E. pose proof (open_posted o posted Hi Hh _ _ _ _ H E) as H'.
  destruct r; [done|]. split; [|by right]. eapply during_impl; [|exact H']. apply open_spent.
Qed.
Next Obligation.
  intros ps o fact Hv j ps' timestamp j' r [H Hp] E. pose proof (open_reconciled o fact Hv _ _ _ _ H E). destruct r; (split; [done|by right]).
Qed.

(** What a reported outcome says of the order: it has ended, or it is still open. *)
Definition outcome_phase (o : PreparedLiveOrder) (outcome : LiveOrderOutcome) (l : Life) : Prop :=
  if decide (dispatch_state outcome = "terminal") then spent l ∧ life_order l = OrderEnded else open_phase o l.
Definition reconciled_phase (o : PreparedLiveOrder) (r : LiveJournalOrderOutcome) (l : Life) : Prop :=
  match r with
  | OutcomeKilled _ | OutcomeRejected _ _ => spent l ∧ life_order l = OrderEnded
  | _ => open_phase o l
  end.
#[local] Hint Resolve entails_refl : core.
#[local] Abbreviation in_phase Φ := (λ j (_ : list (PreparedLiveOrder * LiveJournalInner)), during Φ j).
#[local] Abbreviation anything := (λ (_ : LiveJournalInner) (_ : list (PreparedLiveOrder * LiveJournalInner)), True).
Lemma in_phase_append (Φ Ψ : Life → Prop) payload :
  (∀ f event, ev_account_id event = account → ev_payload event = payload → Φ (life f key) → foldable f event) →
  (∀ event l l', ev_account_id event = account → ev_payload event = payload → Φ l → life_step event l l' → Ψ l') →
  (∀ event, ev_account_id event = account → ev_payload event = payload → event_key event = Some key) →
  appends (in_phase Φ) account payload (in_phase Ψ) anything.
Proof.
  intros H1 H2 H3 j ps timestamp j' r Hd E. pose proof (during_append Φ Ψ payload timestamp j j' r H1 H2) as H.
  destruct r; [|done]. apply H; [|done|done]. intros event Ha Hp. left. by apply H3.
Qed.
Lemma recorded_outcome o now source outcome evidence (result : LiveOrderOutcome) :
  source ≠ PolygonFinality → source_matches_outcome source outcome = true →
  (∀ l, reconciled_phase o outcome l → outcome_phase o result l) →
  triple (in_phase (open_phase o))
    (_ ← journal_reconciliation account order_identity (plo_order_hash o) now source outcome evidence; mret result)
    (λ reported, in_phase (outcome_phase o reported)) anything.
Proof.
  intros Hs Hm Hr. eapply triple_bind with (R := λ _, in_phase (reconciled_phase o outcome)).
  - eapply triple_bind; [by apply triple_from|]. intros hashes. apply triple_append; [|done]. apply in_phase_append.
    + intros f event <- He (seq & p & Hl). by eapply (foldable_reconciled _ _ _ _ _ _ He).
    + intros event l l' _ He (seq & p & ->) Hstep. inversion Hstep; simplify_eq/=; try congruence.
      * assert (r = {| or_identity := order_identity; or_order_hash := plo_order_hash o; or_source := source; or_outcome := outcome;
                       or_evidence := evidence; or_evidence_hashes := hashes |}) as -> by congruence. simpl in *.
        destruct outcome; try done; by exists seq, p.
      * assert (r = {| or_identity := order_identity; or_order_hash := plo_order_hash o; or_source := source; or_outcome := outcome;
                       or_evidence := evidence; or_evidence_hashes := hashes |}) as -> by congruence. simpl in *.
        destruct outcome; try done. by destruct source.
    + intros event <- He. unfold event_key. by rewrite He.
  - intros u. apply triple_ret. intros j ps. apply during_impl. exact Hr.
Qed.
Lemma reconciled_outcome o kind :
  triple (in_phase (open_phase o)) (reconcile_ambiguous account order_identity (plo_order_hash o) kind)
    (λ reported, in_phase (outcome_phase o reported)) anything.
Proof.
  unfold reconcile_ambiguous. eapply triple_bind; [by apply triple_interacting|]. intros reconciliation.
  eapply triple_bind; [by apply triple_clock|]. intros now.
  destruct reconciliation as [r|error]; [destruct (vr_outcome r)|]; by apply recorded_outcome.
Qed.
Lemma submitted_outcome o deadline : plo_account_id o = account → plo_identity o = order_identity →
  triple (in_phase (open_phase o)) (submit_with_deadline o deadline) (λ reported, in_phase (outcome_phase o reported)) anything.
Proof.
  intros Ha Hi. unfold submit_with_deadline. rewrite Ha, Hi. eapply triple_bind with (R := λ _, in_phase (open_phase o)).
  { unfold post_once. eapply triple_bind; [by apply triple_interact|]. intros n.
    eapply triple_bind with (R := λ _, in_phase (open_phase o)); [|intros u; by apply triple_ret]. intros x Hx. exact Hx. }
  assert (∀ now evidence, triple (in_phase (open_phase o)) (journal_post account order_identity (plo_order_hash o) now evidence)
    (λ _, in_phase (open_phase o)) anything) as Hpost.
  { intros now evidence. unfold journal_post. eapply triple_bind; [by apply triple_from|]. intros h.
    apply triple_append; [|done]. intros j ps timestamp j' r Hd E. destruct r; [|done]. by eapply open_posted in E. }
  intros [[response|checked_at]|failure].
  - eapply triple_bind; [apply Hpost|]. intros u. unfold settle_response.
    destruct (venue_classify_post_response response) as [[]|]; (by apply recorded_outcome) || apply reconciled_outcome.
  - eapply triple_bind with (R := λ _, in_phase (λ l, spent l ∧ life_order l = OrderEnded)); [|intros u; by apply triple_ret].
    apply triple_append; [|done]. apply in_phase_append.
    + intros f event <- He (seq & p & Hl). by eapply (foldable_order_failed _ _ _ _ _ _ He).
    + intros event l l' _ He (seq & p & ->) Hstep. inversion Hstep; simplify_eq/=; try congruence. done.
    + intros event <- He. unfold event_key. by rewrite He.
  - eapply triple_bind; [apply Hpost|]. intros u. apply reconciled_outcome.
Qed.
End Operation.

(** *** Sessions whose callers name each dispatch once *)
Definition order_key (o : PreparedLiveOrder) : string * string := dispatch_key (plo_account_id o) (plo_identity o).
(** A new order for an account with a baseline is for a dispatch recovery has not met; a
    resumed admission is one recovery lists as open; whatever else is appended, such as
    marks, redemptions or final fills, is accepted by recovery and not about an order
    still held. *)
Definition permitted (call : Call) (s : Session) : Prop :=
  let j := x_journal (se_execution s) in
  match call with
  | CallPrepare request _ =>
      bound (li_records j) (ft_account_id (lr_target request))
      ∧ ∃ f, recovered (li_records j) f
             ∧ life f (dispatch_key (ft_account_id (lr_target request)) (lr_identity request)) = fresh_life
  | CallResume account a _ _ _ =>
      bound (li_records j) account
      ∧ ∃ f, recovered (li_records j) f ∧ admitted_phase a (life f (dispatch_key account (ae_identity a)))
  | CallAppend account timestamp payload =>
      let event := new_event j account timestamp payload in
      (∃ f, recovered (li_records j ++ [event]) f) ∧ ∀ o, o ∈ se_held s → event_key event ≠ Some (order_key o)
  | CallSubmit _ _ | CallTerminalize _ _ _ _ | Forget _ | Restart _ _ => True
  end.
Definition held_open (f : LiveRecoveryFold) (records : list LiveJournalEvent) (o : PreparedLiveOrder) : Prop :=
  open_phase (plo_identity o) o (life f (order_key o)) ∧ bound records (plo_account_id o).
(** C11: What [submit] reports is what recovery finds.  When a prepared order is open in the recovered
    journal and its submission returns, the journal it leaves recovers with that order ended exactly if
    the reported outcome is terminal, and otherwise open under the same identity and hash, so that a
    matched or ambiguous order stays due for reconciliation; the other dispatches are untouched. *)
Theorem submit_agrees_with_recovery o deadline x x' outcome f :
  live_inv (x_journal x) → accepting (x_journal x) = true → recovered (li_records (x_journal x)) f →
  held_open f (li_records (x_journal x)) o → submit_with_deadline o deadline x = (x', Ok outcome) →
  ∃ f', recovered (li_records (x_journal x')) f'
    ∧ (dispatch_state outcome = "terminal" ↔ life_order (life f' (order_key o)) = OrderEnded)
    ∧ (dispatch_state outcome ≠ "terminal" → open_phase (plo_identity o) o (life f' (order_key o)))
    ∧ ∀ k, k ≠ order_key o → life f' k = life f k.
Proof.
  intros Hi Ha Hr [Ho Hb] E.
  pose proof (submitted_outcome [] f (li_records (x_journal x)) _ _ o deadline eq_refl eq_refl x) as H. rewrite E in H.
  destruct H as [_ (f' & Hr' & Hothers & Hphase) _ _].
  { split; [|exists f; done|done|done]. split; [done|exists f; by split|congruence]. }
  exists f'. fold (order_key o) in Hothers, Hphase. unfold outcome_phase in Hphase. case_decide as Hd; split_and!; try done.
  - split; [by intros _; apply Hphase|done].
  - split; [done|]. destruct Hphase as (seq & p & ->). done.
Qed.
Record recoverable_session (s : Session) : Prop := {
  rs_keeps : keeps (all_spent (order_key <$> (x_posts (se_execution s)).*1)) (x_journal (se_execution s));
  rs_held : ∃ f, recovered (li_records (x_journal (se_execution s))) f
                 ∧ Forall (held_open f (li_records (x_journal (se_execution s)))) (se_held s);
  rs_once : NoDup (order_key <$> ((x_posts (se_execution s)).*1 ++ se_held s))
}.
(** The held orders are untouched by an operation on another dispatch. *)
Lemma held_during ks f0 l0 account order_identity Φ j held : during ks f0 l0 account order_identity Φ j →
  Forall (held_open f0 l0) held → dispatch_key account order_identity ∉ order_key <$> held →
  ∀ f, recovered (li_records j) f → Forall (held_open f (li_records j)) held.
Proof.
  intros [_ (f' & Hr' & Ho & _) Hp _] Hh Hk f Hr. rewrite (recovered_fun _ _ _ Hr Hr'). rewrite Forall_forall in *.
  intros o Hin. destruct (Hh o Hin) as [H1 H2]. split; [|by eapply bound_prefix]. rewrite Ho; [done|].
  intros He. apply Hk. apply list_elem_of_fmap. by exists o.
Qed.
(** A dispatch that is fresh or only admitted was neither posted nor is it held. *)
Lemma unused_dispatch s f k : recoverable_session s → recovered (li_records (x_journal (se_execution s))) f →
  life_order (life f k) = NoOrder → k ∉ order_key <$> ((x_posts (se_execution s)).*1 ++ se_held s).
Proof.
  intros [Hk (f1 & H1 & Hh) _] Hr Hn. rewrite (recovered_fun _ _ _ H1 Hr) in *. rewrite fmap_app. intros [Hin|Hin]%elem_of_app.
  - destruct (keeps_now _ _ Hk) as (f2 & H2 & Hs). rewrite (recovered_fun _ _ _ H2 Hr), Forall_forall in Hs.
    by destruct (Hs _ Hin).
  - apply list_elem_of_fmap in Hin as (o & -> & Ho). rewrite Forall_forall in Hh. destruct (Hh o Ho) as [(seq & p & Hl) _].
    by rewrite Hl in Hn.
Qed.
(** A call that prepares: what it leaves keeps the session recoverable. *)
Lemma prepared_session x held x' r f account order_identity l : recoverable_session {| se_execution := x; se_held := held |} →
  recovered (li_records (x_journal x)) f → life f (dispatch_key account order_identity) = l → life_order l = NoOrder →
  match r with
  | Ok a => prepares account order_identity
              (recovering_preparation (order_key <$> (x_posts x).*1) f (li_records (x_journal x)) account order_identity (x_posts x))
              a (x_journal x') (x_posts x')
  | Err _ => alive (order_key <$> (x_posts x).*1) f (li_records (x_journal x)) account order_identity (λ _, True) (x_posts x)
               (x_journal x') (x_posts x')
  end →
  recoverable_session {| se_execution := x'; se_held := capability r ++ held |}.
Proof.
  intros Hs Hr <- Hn H. pose proof (unused_dispatch _ _ _ Hs Hr Hn) as Hk. destruct Hs as [_ (f1 & H1 & Hh) Hd]. simpl in *.
  rewrite (recovered_fun _ _ _ H1 Hr) in *. rewrite fmap_app, not_elem_of_app in Hk. destruct Hk as [Hk1 Hk2].
  assert (∀ Φ, during (order_key <$> (x_posts x).*1) f (li_records (x_journal x)) account order_identity Φ (x_journal x') →
    x_posts x' = x_posts x → recoverable_session {| se_execution := x'; se_held := held |}) as Hplain.
  { intros Φ Hdu Hps. pose proof (held_during _ _ _ _ _ _ _ _ Hdu Hh Hk2) as Hh'. destruct Hdu as [Hkeep (f' & Hr' & _) _ _].
    split; simpl; [by rewrite Hps|exists f'; by auto|by rewrite Hps]. }
  destruct r as [[o|]|]; simpl in *; [|by destruct H as [H ?]; eapply Hplain..].
  destruct H as ((Ha & Hi & _) & Hdu & Hps). pose proof (Hplain _ Hdu Hps) as [Hkeep (f' & Hr' & Hh') Hd']. simpl in *.
  assert (order_key o = dispatch_key account order_identity) as Hko by (unfold order_key; by rewrite Ha, Hi).
  split; simpl; [done| |].
  - exists f'. split; [done|]. constructor; [|done]. split.
    + rewrite Hko, Hi. destruct Hdu as [_ (f2 & Hr2 & _ & Hop) _ _]. by rewrite (recovered_fun _ _ _ Hr' Hr2).
    + rewrite Ha. eapply bound_prefix; [apply Hdu|apply (during_bound _ _ _ _ _ _ _ Hdu)].
  - rewrite <- Permutation_middle, fmap_cons, Hko. constructor; [|done]. rewrite Hps, fmap_app, not_elem_of_app. done.
Qed.
(** A call that consumes a capability. *)
Lemma consumed_session x held o rest x' f : recoverable_session {| se_execution := x; se_held := held |} → held ≡ₚ o :: rest →
  recovered (li_records (x_journal x)) f →
  spending (order_key o :: (order_key <$> (x_posts x).*1)) f (li_records (x_journal x)) (plo_account_id o) (plo_identity o) o
    (x_posts x) (x_journal x') (x_posts x') →
  recoverable_session {| se_execution := x'; se_held := rest |}.
Proof.
  intros [_ (f1 & H1 & Hh) Hd] Hp Hr [Hdu Hps]. simpl in *. rewrite (recovered_fun _ _ _ H1 Hr), Hp in Hh.
  apply Forall_cons in Hh as [_ Hh]. rewrite Hp, <- Permutation_middle, fmap_cons in Hd. apply NoDup_cons in Hd as [Hko Hd].
  rewrite fmap_app, not_elem_of_app in Hko. destruct Hko as [Hko1 Hko2].
  pose proof (held_during _ _ _ _ _ _ _ _ Hdu Hh Hko2) as Hh'. destruct Hdu as [Hkeep (f' & Hr' & _) _ _].
  assert (order_key <$> (x_posts x').*1 = order_key <$> (x_posts x).*1
          ∨ order_key <$> (x_posts x').*1 = (order_key <$> (x_posts x).*1) ++ [order_key o]) as Heq.
  { destruct Hps as [->|[seen ->]]; [by left|right]. by rewrite !fmap_app. }
  split; simpl; [|exists f'; by auto|].
  - eapply keeps_impl; [|exact Hkeep]. intros l (f2 & Hr2 & Hs2). exists f2. split; [done|]. apply Forall_cons in Hs2 as [Hs2 Hs3].
    destruct Heq as [->| ->]; [done|]. apply Forall_app. split; [done|]. by apply Forall_singleton.
  - rewrite fmap_app. destruct Heq as [->| ->].
    + by rewrite fmap_app in Hd.
    + rewrite <- app_assoc. simpl. rewrite <- Permutation_middle. constructor; [|by rewrite fmap_app in Hd].
      by rewrite not_elem_of_app.
Qed.
Lemma consuming_session {A} (m : stm Execution ExecStop A) x held o rest x' r :
  (∀ T : Sending (plo_account_id o) (plo_identity o) o, triple (ps_ready _ _ o T) m (λ _, ps_after _ _ o T) (ps_after _ _ o T)) →
  recoverable_session {| se_execution := x; se_held := held |} → held ≡ₚ o :: rest → m x = (x', r) →
  recoverable_session {| se_execution := x'; se_held := rest |}.
Proof.
  intros Hm Hs Hp E. destruct (rs_held _ Hs) as (f & Hr & Hh). simpl in Hr, Hh. eapply consumed_session; [done|exact Hp|exact Hr|].
  rewrite Hp in Hh. apply Forall_cons in Hh as [[Ho Hb] _].
  specialize (Hm (recovering_sending (order_key o :: (order_key <$> (x_posts x).*1)) f (li_records (x_journal x)) _ _ (x_posts x) o) x).
  rewrite E in Hm. assert (alive (order_key o :: (order_key <$> (x_posts x).*1)) f (li_records (x_journal x)) (plo_account_id o)
    (plo_identity o) (open_phase (plo_identity o) o) (x_posts x) (x_journal x) (x_posts x)) as Hready.
  { split; [|done]. split; [|exists f; done|done|done]. eapply keeps_spent_more; [apply Hs|done|by eapply open_spent]. }
  specialize (Hm Hready). by destruct r.
Qed.
(** Another record, accepted by recovery and not about a held order. *)
Lemma appended_session x held account timestamp payload j r : recoverable_session {| se_execution := x; se_held := held |} →
  permitted (CallAppend account timestamp payload) {| se_execution := x; se_held := held |} →
  live_append account timestamp payload (x_journal x) = (j, r) →
  recoverable_session {| se_execution := with_journal j x; se_held := held |}.
Proof.
  intros [Hk (f & Hr & Hh) Hd] [[f' Hf'] Hkey] E. simpl in *. set (event := new_event _ _ _ _) in *.
  pose proof (numbered_snoc _ event (live_inv_numbered _ (keeps_inv _ _ Hk)) eq_refl) as Hn.
  assert (all_spent (order_key <$> (x_posts x).*1) (li_records (x_journal x) ++ [event])) as Hs
    by (exists f'; split; [done|]; eapply all_spent_next; [exact Hn|apply Hk|done]).
  destruct (keeps_append _ _ _ _ _ _ _ Hk Hs E) as [Hk' He]. split; simpl; [done| |done]. destruct r as [e|e]; [|exists f; by rewrite He].
  destruct He as [-> Hrec]. exists f'. rewrite Hrec. split; [done|]. rewrite Forall_forall in *. intros o Ho.
  destruct (Hh o Ho) as [H1 H2]. split; [|eapply bound_prefix; [|exact H2]; by apply prefix_app_r].
  destruct (recovered_next _ _ _ _ Hn Hr Hf') as [->|[_ Hl]]; [done|]. specialize (Hl (order_key o)).
  rewrite decide_False in Hl by by apply Hkey. by rewrite Hl.
Qed.
Lemma recoverable_step call s s' : session_step call s s' → permitted call s → recoverable_session s → recoverable_session s'.
Proof.
  intros H Hok Hs. destruct H as [request observed x held x' r E|account a mode binding observed x held x' r E
    |o deadline x held rest x' r Hp E|o now failure control x held rest x' r Hp E|account timestamp payload x held j r E
    |o x held rest Hp|p d x held d' j Hf E].
  - destruct Hok as (Hb & f & Hr & Hl). simpl in *. eapply prepared_session; [done|exact Hr|exact Hl|done|].
    set (T := recovering_preparation _ _ _ _ _ _). pose proof (follows_prepare _ _ T request observed eq_refl eq_refl x) as H.
    rewrite E in H. apply H. split; [|done]. split; [apply Hs|exists f; done|done|done].
  - destruct Hok as (Hb & f & Hr & seq & Hl). simpl in *. eapply prepared_session; [done|exact Hr|exact Hl|done|].
    set (T := recovering_preparation _ _ _ _ _ _). pose proof (follows_resume _ _ T a mode binding observed eq_refl x) as H.
    rewrite E in H. apply H. split; [|done]. split; [apply Hs|exists f; split_and!; [done|done|by exists seq]|done|done].
  - eapply consuming_session; [|done|exact Hp|exact E]. intros T. by apply follows_submit.
  - eapply consuming_session; [|done|exact Hp|exact E]. intros T. by apply follows_terminalize.
  - by eapply appended_session.
  - destruct Hs as [Hk (f & Hr & Hh) Hd]. simpl in *. split; simpl; [done| |].
    + exists f. split; [done|]. rewrite Hp in Hh. by apply Forall_cons in Hh as [_ Hh].
    + rewrite Hp, <- Permutation_middle in Hd. by apply NoDup_cons in Hd as [_ Hd].
  - destruct Hs as [Hk _ Hd]. simpl in *. destruct (keeps_reopened _ _ _ _ _ _ Hk Hf E) as (Hk' & _). split; simpl; [done| |].
    + destruct (keeps_now _ _ Hk') as (f & Hr & _). exists f. by split.
    + rewrite app_nil_r. rewrite fmap_app in Hd. by apply NoDup_app in Hd as [Hd _].
Qed.
Lemma recoverable_run s s' : session_run permitted s s' → recoverable_session s → recoverable_session s'.
Proof. induction 1 as [|s s' s'' call _ IH Hok Hs]; [done|]. intros H. by eapply recoverable_step; [..|apply IH]. Qed.

(** C10: A session stays recoverable, and sends each dispatch once.  From a journal whose records the
    recovery fold accepts, over any number of processes, with whatever answers of the venue, failing
    writes and crashes, in which each call was [permitted] (a new order names an account with a baseline
    and a dispatch not met before, a resumed admission is one recovery lists as open, and every other
    append is a record the fold accepts and not about an order still held): the fold accepts the
    published records; every order still held is open in it, every order sent is in it, open or ended,
    with its admission used up; and no dispatch was sent twice.  Of a file with these records the
    structural inventory is returned and is the fold's; the consuming recovery returns an inventory
    exactly if every admission after its account's baseline verifies on its own evidence, and then it
    returns this one. *)
Theorem session_recoverable j f0 s s' : live_inv j → accepting j = true → recovered (li_records j) f0 → starts_on j s →
  session_run permitted s s' →
  let x := se_execution s' in
  NoDup (order_key <$> (x_posts x).*1)
  ∧ ∃ f, recovered (li_records (x_journal x)) f
      ∧ (∀ o, o ∈ se_held s' → open_phase (plo_identity o) o (life f (order_key o)))
      ∧ (∀ o seen, (o, seen) ∈ x_posts x → spent (life f (order_key o)))
      ∧ ∀ file, accepting (x_journal x) = true → plain file (durable_log (x_journal x)) →
          structural_recovery_inventory file None = Some (Ok (inventory f))
          ∧ ∀ inv, recovery_inventory file None = Some (Ok inv)
              ↔ inv = inventory f
                ∧ Forall (admission_verifies (rf_account_bindings f)) (after_baselines (li_records (x_journal x))).
Proof.
  intros Hi Ha Hr (Hj & Hps & Hh) Hrun. assert (recoverable_session s) as H0.
  { split; rewrite ?Hj, ?Hps, ?Hh; [|exists f0; by split|constructor]. split; [done|by exists f0|congruence]. }
  destruct (recoverable_run _ _ Hrun H0) as [Hk (f & Hf & Hh') Hd]. cbv zeta. split.
  { rewrite fmap_app in Hd. by apply NoDup_app in Hd as [Hd _]. }
  exists f. split_and!; [done| | |].
  - intros o Ho. rewrite Forall_forall in Hh'. by destruct (Hh' o Ho).
  - intros o seen Ho. destruct (keeps_now _ _ Hk) as (f' & Hf' & Hs). rewrite (recovered_fun _ _ _ Hf' Hf), Forall_forall in Hs.
    apply Hs. apply list_elem_of_fmap. exists o. split; [done|]. apply list_elem_of_fmap. by exists (o, seen).
  - intros file Hacc Hplain. apply inventories_recovered; [by apply live_inv_numbered, Hk|done|].
    exact (replay_all_records _ _ (keeps_inv _ _ Hk) Hacc Hplain).
Qed.
End Sessions.

(** ** Sample: an admission resumed, prepared, posted and matched

    Over a disk, with a JSON of three bytes for the five records of this order. *)
Module SampleSession.
#[export] Existing Instances SampleChain.alloy SampleChain.vec_json SampleChain.node SampleOrder.vec_attempt SampleOrder.vec_descriptor.
#[export] Instance q_dec : EqDecision QArith_base.Q.
Proof. solve_decision. Defined.
#[export] Instance decimal_dec : EqDecision (@Decimal QDecimal) := q_dec.
#[export] Instance time_dec : EqDecision (@OffsetDateTime ZTime) := Z.eq_dec.
#[export] Instance price_dec : EqDecision (@Price QDecimal).
Proof. solve_decision. Defined.
#[export] Instance kelly_dec : EqDecision (@KellyFraction QDecimal).
Proof. solve_decision. Defined.
#[export] Instance probability_dec : EqDecision (@Probability QDecimal).
Proof. solve_decision. Defined.
#[export] Instance market_dec : EqDecision (@LiveMarketEvidenceAudit QDecimal).
Proof. solve_decision. Defined.
#[export] Instance schedule_dec : EqDecision (@CompactFeeSchedule QDecimal).
Proof. solve_decision. Defined.
#[export] Instance artifact_dec : EqDecision (@LiveAdmissionArtifactAudit QDecimal).
Proof. solve_decision. Defined.
#[export] Instance ask_dec : EqDecision (@LadderAskAudit QDecimal).
Proof. solve_decision. Defined.
#[export] Instance ladder_dec : EqDecision (@LadderPlanAudit QDecimal).
Proof. solve_decision. Defined.
#[export] Instance mode_dec : EqDecision (@SizingModeAudit QDecimal).
Proof. solve_decision. Defined.
#[export] Instance sizing_dec : EqDecision (@SizingAudit QDecimal).
Proof. solve_decision. Defined.
#[export] Instance fee_dec : EqDecision (@FeeAudit QDecimal).
Proof. solve_decision. Defined.
#[export] Instance balance_dec : EqDecision (@BalanceAudit QDecimal).
Proof. solve_decision. Defined.
#[export] Instance economic_dec : EqDecision (@EconomicPrepared QDecimal).
Proof. solve_decision. Defined.
#[export] Instance admission_dec : EqDecision (@LiveAdmissionEvaluationAudit ZTime QDecimal).
Proof. solve_decision. Defined.
#[export] Instance signed_dec : EqDecision (@PreparedPolymarketBuy QDecimal).
Proof. solve_decision. Defined.
#[export] Instance prepared_dec : EqDecision (@LiveOrderPreparedAudit ZTime QDecimal).
Proof. solve_decision. Defined.
#[export] Instance posted_dec : EqDecision (@LiveOrderPostAudit ZTime).
Proof. solve_decision. Defined.
#[export] Instance executed_dec : EqDecision (@LiveExecutedAmounts QDecimal).
Proof. solve_decision. Defined.
#[export] Instance outcome_dec : EqDecision (@LiveJournalOrderOutcome QDecimal).
Proof. solve_decision. Defined.
#[export] Instance reconciled_dec : EqDecision (@LiveOrderReconciliationAudit ZTime QDecimal).
Proof. solve_decision. Defined.
#[export] Instance position_dec : EqDecision CanonicalPositionAudit.
Proof. solve_decision. Defined.
#[export] Instance page_dec : EqDecision LivePositionPageAudit.
Proof. solve_decision. Defined.
#[export] Instance evidence_dec : EqDecision LivePositionEvidenceAudit.
Proof. solve_decision. Defined.
#[export] Instance binding_dec : EqDecision LiveAccountBindingAudit.
Proof. solve_decision. Defined.
#[export] Instance mark_price_dec : EqDecision (@MarkPrice QDecimal).
Proof. solve_decision. Defined.
#[export] Instance mark_dec : EqDecision (@AccountPortfolioMarkedAudit ZTime QDecimal).
Proof. solve_decision. Defined.

Definition signed : @PreparedPolymarketBuy QDecimal := @Build_PreparedPolymarketBuy QDecimal
  SampleOrder.condition {| outcome_index := 0 |} (SampleOrder.token "7") "maker" "signer" "funder" "0xab" "0xab" 2 false "BUY" "salt"
  120000 "0" (from_atomic 5000000) (from_atomic 10000000) SampleOrder.half SampleOrder.cent 3 "FOK" false false "" "" "0xhash" "body"
  "sdk" "sha" ["e"] (from_atomic 5000000).
Definition prepared : @LiveOrderPreparedAudit ZTime QDecimal := {|
  op_identity := SampleOrder.identity; op_frozen_binding := SampleOrder.credential; op_economic := SampleOrder.economic;
  op_account_state := SampleOrder.account_state; op_prepared := signed
|}.
Definition response : @RawHttpResponse ZTime := SampleOrder.response "order" "/order" [] 9.
Definition posted : @LiveOrderPostAudit ZTime := {|
  po_identity := SampleOrder.identity; po_order_hash := "0xhash"; po_evidence := Response response;
  po_evidence_hash := SampleOrder.hashes (http_attempt_hash (Response response)) ""
|}.
Definition matched : @LiveOrderReconciliationAudit ZTime QDecimal := {|
  or_identity := SampleOrder.identity; or_order_hash := "0xhash"; or_source := PostResponse;
  or_outcome := @OutcomeMatched QDecimal "venue" [SampleChain.transaction] (Some (@Build_LiveExecutedAmounts QDecimal (5 # 1)%Q (10 # 1)%Q));
  or_evidence := [Response response]; or_evidence_hashes := SampleOrder.hashes (LiveAdmission.http_attempt_hashes [Response response]) []
|}.
Definition tag (p : @LiveJournalPayload ZTime QDecimal) : option Z :=
  match p with
  | AccountPortfolioMarked m => if decide (m = SampleRecovery.mark) then Some 1 else None
  | AdmissionEvaluated a => if decide (a = SampleOrder.admission) then Some 2 else None
  | OrderPrepared p => if decide (p = prepared) then Some 3 else None
  | OrderPosted p => if decide (p = posted) then Some 4 else None
  | OrderReconciled r => if decide (r = matched) then Some 5 else None
  | _ => None
  end.
Definition untag (n : Z) : option (@LiveJournalPayload ZTime QDecimal) :=
  match n with
  | 1 => Some (AccountPortfolioMarked SampleRecovery.mark)
  | 2 => Some (AdmissionEvaluated SampleOrder.admission)
  | 3 => Some (OrderPrepared prepared)
  | 4 => Some (OrderPosted posted)
  | 5 => Some (OrderReconciled matched)
  | _ => None
  end.
Lemma untag_tag p n : tag p = Some n → untag n = Some p.
Proof. destruct p; try done; simpl; destruct (decide _) as [->|]; by intros [= <-]. Qed.
#[export] Instance three_bytes : @LiveJson ZTime QDecimal := {|
  live_to_vec e := match tag (ev_payload e) with
                   | Some n => if decide (ev_account_id e = SampleOrder.account) then Ok [n; ev_seq e; ev_timestamp e : Z] else Err "account"
                   | None => Err "unsupported"
                   end;
  live_from_slice bs := match bs with
                        | [n; seq; timestamp] =>
                            match untag n with
                            | Some p => Ok {| ev_account_id := SampleOrder.account; ev_seq := seq; ev_timestamp := timestamp : Z; ev_payload := p |}
                            | None => Err "unsupported"
                            end
                        | _ => Err "three bytes"
                        end;
  legacy_from_slice _ := Err "unsupported"; legacy_from_value _ := Err "unsupported"; value_from_slice _ := Err "unsupported"
|}.
#[export] Instance three_bytes_laws : @LiveJsonLaws ZTime QDecimal three_bytes.
Proof.
  split. intros [a q t p] bs. cbn [live_to_vec three_bytes ev_payload ev_account_id ev_seq ev_timestamp live_from_slice].
  destruct (tag p) as [n|] eqn:Hn; [|discriminate]. destruct (decide _) as [->|]; [|discriminate]. intros [= <-].
  by rewrite (untag_tag _ _ Hn).
Qed.
#[export] Instance venue : @LiveOrderVenue ZTime QDecimal := {|
  Submission := unit; venue_prepare _ _ := Ok {| vpd_audit := signed; vpd_submission := tt |};
  venue_post_once _ _ _ := Ok (Attempted response);
  venue_classify_post_response _ := Ok (@PostMatched QDecimal "venue" (@Build_LiveExecutedAmounts QDecimal (5 # 1)%Q (10 # 1)%Q)
                                          [SampleChain.transaction]);
  venue_reconcile_and_cancel _ _ := Err {| vre_evidence := [] |};
  venue_read_balance_and_allowance _ _ := Err {| re_kind := ReadProtocol; re_evidence := []; re_request_descriptor_hashes := [] |};
  world_clock _ := SampleOrder.second 120; world_stops _ := false
|}.
Definition observed : @LiveVenueAccountState ZTime := {|
  va_observed_at := SampleOrder.second 100; va_closed_only := false; va_geoblocked := false; va_selected_spender := "0xab";
  va_collateral_balance := from_atomic 20000000; va_allowance := from_atomic 20000000;
  va_reconciled_free_collateral := from_atomic 20000000; va_schema_version := 1; va_parser_version := 1;
  va_evidence := SampleOrder.evidence; va_request_descriptor_hashes := SampleOrder.descriptors
|}.
Definition armed : LiveModeSnapshot := {| mode_requested := LiveTiny; mode_effective := LiveTiny |}.
Definition opened : LiveJournalInner :=
  result_or (fresh_inner sample_writer genesis_hash) (live_open (SampleJournal.env false) (SampleJournal.disk [])).2.
Lemma sample_opens : live_open (SampleJournal.env false) (SampleJournal.disk [])
  = ((live_open (SampleJournal.env false) (SampleJournal.disk [])).1, Ok opened).
Proof.
  assert (is_ok (live_open (SampleJournal.env false) (SampleJournal.disk [])).2 = true) as H by vm_cast_no_check (eq_refl true).
  unfold opened. by destruct (live_open (SampleJournal.env false) (SampleJournal.disk [])) as [d [x|e]].
Qed.
Lemma sample_opened : live_inv opened ∧ accepting opened = true ∧ li_records opened = [].
Proof.
  destruct (live_open_holds (SampleJournal.env false) [] [] (SampleJournal.disk []) _ opened (SampleJournal.live_found_disk _ _)
    (or_introl (conj eq_refl eq_refl)) sample_opens) as (? & ? & H).
  split_and!; [assumption..|]. exact (eq_sym (f_equal (result_or []) H)).
Qed.
Definition event (seq time : Z) (payload : @LiveJournalPayload ZTime QDecimal) : @LiveJournalEvent ZTime QDecimal := {|
  ev_account_id := SampleOrder.account; ev_seq := seq; ev_timestamp := SampleOrder.second time; ev_payload := payload
|}.
Definition marked : @LiveJournalPayload ZTime QDecimal := AccountPortfolioMarked SampleRecovery.mark.
Definition admitted : @LiveJournalPayload ZTime QDecimal := AdmissionEvaluated SampleOrder.admission.
Definition x0 : @Execution ZTime QDecimal _ _ := {| x_journal := opened; x_interactions := 0; x_posts := [] |}.
Definition j1 := (live_append SampleOrder.account (SampleOrder.second 110) marked (x_journal x0)).1.
Definition x1 := with_journal j1 x0.
Definition j2 := (live_append SampleOrder.account (SampleOrder.second 120) admitted (x_journal x1)).1.
Definition x2 := with_journal j2 x1.
Definition x3 := (resume_approved_admission SampleOrder.account SampleOrder.admission armed SampleOrder.credential observed x2).1.
Definition order : @PreparedLiveOrder ZTime QDecimal venue := {|
  plo_account_id := SampleOrder.account; plo_identity := SampleOrder.identity; plo_order_hash := "0xhash";
  plo_prepared_audit := prepared; plo_submission := (tt : @Submission ZTime QDecimal venue)
|}.
Definition x4 := (submit_with_deadline order None x3).1.
Lemma first_append : live_append SampleOrder.account (SampleOrder.second 110) marked (x_journal x0)
  = (j1, Ok (event 0 110 marked)).
Proof.
  unfold j1. assert ((live_append SampleOrder.account (SampleOrder.second 110) marked (x_journal x0)).2 = Ok (event 0 110 marked)) as <-
    by vm_cast_no_check (eq_refl (Ok (E := LiveJournalError) (event 0 110 marked))).
  apply surjective_pairing.
Qed.
Lemma second_append : live_append SampleOrder.account (SampleOrder.second 120) admitted (x_journal x1)
  = (j2, Ok (event 1 120 admitted)).
Proof.
  unfold j2. assert ((live_append SampleOrder.account (SampleOrder.second 120) admitted (x_journal x1)).2 = Ok (event 1 120 admitted)) as <-
    by vm_cast_no_check (eq_refl (Ok (E := LiveJournalError) (event 1 120 admitted))).
  apply surjective_pairing.
Qed.
Lemma resumes : resume_approved_admission SampleOrder.account SampleOrder.admission armed SampleOrder.credential observed x2
  = (x3, Ok (PrepareOk order)).
Proof.
  unfold x3. assert ((resume_approved_admission SampleOrder.account SampleOrder.admission armed SampleOrder.credential observed x2).2
    = Ok (PrepareOk order)) as <-
    by vm_cast_no_check (eq_refl (Ok (E := ExecStop) (PrepareOk order))).
  apply surjective_pairing.
Qed.
Definition final : @Session ZTime QDecimal _ _ := {| se_execution := x4; se_held := [] |}.
Lemma posts : (x_posts (se_execution final)).*1 = [order].
Proof. vm_cast_no_check (eq_refl [order]). Qed.
(** The published records, and what recovery makes of them. *)
Lemma records1 : live_inv (x_journal x1) ∧ li_records (x_journal x1) = [event 0 110 marked].
Proof.
  unfold x1. cbn [with_journal x_journal]. destruct sample_opened as (Hi & _ & Hr). destruct (live_append_cases _ _ _ _ _ _ Hi first_append) as (? & _ & _ & _ & _ & H).
  split; [assumption|]. rewrite H, Hr. reflexivity.
Qed.
Lemma records2 : li_records (x_journal x2) = [event 0 110 marked; event 1 120 admitted].
Proof.
  unfold x2. cbn [with_journal x_journal]. destruct records1 as (Hi & Hr). destruct (live_append_cases _ _ _ _ _ _ Hi second_append) as (_ & _ & _ & _ & _ & H).
  rewrite H, Hr. reflexivity.
Qed.
Definition fold_of (records : list (@LiveJournalEvent ZTime QDecimal)) : @LiveRecoveryFold ZTime QDecimal :=
  match fold_records (DO := QDecimal) false LiveRecoveryFold_default (after_baselines records) with Some (Ok f) => f | _ => LiveRecoveryFold_default end.
Lemma recovers0 : recovered [] (fold_of []).
Proof. vm_cast_no_check (eq_refl (Some (Ok (E := LiveJournalError) (fold_of [])))). Qed.
Lemma recovers1 : recovered [event 0 110 marked] (fold_of [event 0 110 marked]).
Proof. vm_cast_no_check (eq_refl (Some (Ok (E := LiveJournalError) (fold_of [event 0 110 marked])))). Qed.
Lemma recovers2 : recovered [event 0 110 marked; event 1 120 admitted] (fold_of [event 0 110 marked; event 1 120 admitted]).
Proof. vm_cast_no_check (eq_refl (Some (Ok (E := LiveJournalError) (fold_of [event 0 110 marked; event 1 120 admitted])))). Qed.
Lemma admission_open : life (fold_of [event 0 110 marked; event 1 120 admitted]) ("main", "d1")
  = {| life_admission := AdmissionOpen 1 SampleOrder.admission; life_order := NoOrder |}.
Proof. vm_cast_no_check (eq_refl {| life_admission := AdmissionOpen 1 SampleOrder.admission; life_order := NoOrder |}). Qed.
Definition session (x : @Execution ZTime QDecimal _ _) (held : list PreparedLiveOrder) : Session := {| se_execution := x; se_held := held |}.
Lemma sample_run : session_run permitted (session x0 []) final.
Proof.
  destruct sample_opened as (_ & _ & Hr0). destruct records1 as (_ & Hr1).
  eapply session_snoc with (s' := session x3 [order]) (call := CallSubmit order None);
    [|exact I|eapply do_submit; [reflexivity|apply surjective_pairing]].
  eapply session_snoc with (s' := session x2 []) (call := CallResume SampleOrder.account SampleOrder.admission armed SampleOrder.credential observed);
    [| |exact (do_resume _ _ _ _ _ x2 [] x3 _ resumes)].
  2:{ unfold permitted, session. cbn [se_execution]. rewrite records2. split; [by exists 0|].
      eexists. split; [exact recovers2|]. exists 1. exact admission_open. }
  eapply session_snoc with (s' := session x1 []) (call := CallAppend SampleOrder.account (SampleOrder.second 120) admitted);
    [| |exact (do_append _ _ _ x1 [] j2 _ second_append)].
  2:{ unfold permitted, session, new_event. cbn [se_execution se_held]. rewrite Hr1. split; [exact (ex_intro _ _ recovers2)|].
      intros o Ho. destruct (not_elem_of_nil o Ho). }
  eapply session_snoc with (s' := session x0 []) (call := CallAppend SampleOrder.account (SampleOrder.second 110) marked);
    [apply session_nil| |exact (do_append _ _ _ x0 [] j1 _ first_append)].
  unfold permitted, session, new_event. cbn [se_execution se_held x_journal x0]. rewrite Hr0.
  split; [exact (ex_intro _ _ recovers1)|]. intros o Ho. destruct (not_elem_of_nil o Ho).
Qed.
Definition records3 : list (@LiveJournalEvent ZTime QDecimal) :=
  [event 0 110 marked; event 1 120 admitted; event 2 120 (OrderPrepared prepared)].
Lemma published3 : li_records (x_journal x3) = records3.
Proof. vm_cast_no_check (eq_refl records3). Qed.
Lemma accepting3 : accepting (x_journal x3) = true.
Proof. vm_cast_no_check (eq_refl true). Qed.
Lemma recovers3 : recovered records3 (fold_of records3).
Proof. vm_cast_no_check (eq_refl (Some (Ok (E := LiveJournalError) (fold_of records3)))). Qed.
Lemma order_open : life (fold_of records3) ("main", "d1")
  = {| life_admission := AdmissionClosed; life_order := OrderOpen 2 SampleOrder.identity "0xhash" (Some prepared) |}.
Proof.
  vm_cast_no_check (eq_refl {| life_admission := AdmissionClosed; life_order := OrderOpen 2 SampleOrder.identity "0xhash" (Some prepared) |}).
Qed.
Lemma inv2 : live_inv (x_journal x2) ∧ accepting (x_journal x2) = true.
Proof.
  unfold x2. cbn [with_journal x_journal]. destruct records1 as [Hi _].
  destruct (live_append_cases _ _ _ _ _ _ Hi second_append) as (Hi2 & _ & _ & _ & Ha & _). exact (conj Hi2 Ha).
Qed.
Lemma inv3 : live_inv (x_journal x3).
Proof. destruct inv2 as [Hi Ha]. exact (resumed_inv _ _ _ _ _ x2 x3 _ Hi Ha eq_refl resumes). Qed.
Definition reported : @LiveOrderOutcome QDecimal := @OutMatched QDecimal "0xhash" "venue" [SampleChain.transaction]
  (Some (@Build_LiveExecutedAmounts QDecimal (5 # 1)%Q (10 # 1)%Q)).
Lemma submits : submit_with_deadline order None x3 = (x4, Ok reported).
Proof.
  unfold x4. assert ((submit_with_deadline order None x3).2 = Ok reported) as <- by vm_cast_no_check (eq_refl (Ok (E := ExecStop) reported)).
  apply surjective_pairing.
Qed.
End SampleSession.
#[local] Existing Instances SampleChain.alloy SampleChain.vec_json SampleChain.node SampleOrder.vec_attempt SampleOrder.vec_descriptor
  SampleSession.three_bytes SampleSession.three_bytes_laws SampleSession.venue.

Lemma posts_follow_records_witness : ∃ seen, (SampleSession.order, seen) ∈ x_posts (se_execution SampleSession.final)
  ∧ (SampleOrder.account, SampleSession.prepared) ∈ omap prepared_record (li_records seen).
Proof.
  destruct SampleSession.sample_opened as (Hi & Ha & _).
  destruct (posts_follow_records _ SampleSession.opened (SampleSession.session SampleSession.x0 []) _ Hi Ha
              (conj eq_refl (conj eq_refl eq_refl)) SampleSession.sample_run) as (_ & H).
  assert (SampleSession.order ∈ (x_posts (se_execution SampleSession.final)).*1) as Hin by (rewrite SampleSession.posts; left).
  apply list_elem_of_fmap in Hin as ([o seen] & Ho & Hin). simpl in Ho. subst o. exists seen. split; [exact Hin|].
  destruct (H _ _ Hin) as (_ & _ & es & extra & _ & _ & H'). exact H'.
Defined.
Lemma session_recoverable_witness : ∃ f, recovered (li_records (x_journal (se_execution SampleSession.final))) f ∧ spent (life f ("main", "d1")).
Proof.
  destruct SampleSession.sample_opened as (Hi & Ha & Hr).
  assert (recovered (li_records SampleSession.opened) (SampleSession.fold_of [])) as H0 by (rewrite Hr; exact SampleSession.recovers0).
  destruct (session_recoverable SampleSession.opened _ (SampleSession.session SampleSession.x0 []) _ Hi Ha H0
              (conj eq_refl (conj eq_refl eq_refl)) SampleSession.sample_run) as (_ & f & Hf & _ & Hs & _).
  exists f. split; [exact Hf|]. assert (SampleSession.order ∈ (x_posts (se_execution SampleSession.final)).*1) as Hin by (rewrite SampleSession.posts; left).
  apply list_elem_of_fmap in Hin as ([o seen] & Ho & Hin). simpl in Ho. subst o. exact (Hs _ _ Hin).
Defined.
Lemma submit_agrees_with_recovery_witness : ∃ f, recovered (li_records (x_journal SampleSession.x4)) f
  ∧ life_order (life f ("main", "d1")) ≠ OrderEnded.
Proof.
  assert (recovered (li_records (x_journal SampleSession.x3)) (SampleSession.fold_of SampleSession.records3)) as Hr
    by (rewrite SampleSession.published3; exact SampleSession.recovers3).
  assert (held_open (SampleSession.fold_of SampleSession.records3) (li_records (x_journal SampleSession.x3)) SampleSession.order) as Ho.
  { rewrite SampleSession.published3. split; [|by exists 0]. exists 2, (Some SampleSession.prepared). exact SampleSession.order_open. }
  destruct (submit_agrees_with_recovery SampleSession.order None _ _ _ _ SampleSession.inv3 SampleSession.accepting3 Hr Ho
              SampleSession.submits) as (f & Hf & Hiff & _).
  exists f. split; [exact Hf|]. intros He. apply Hiff in He. discriminate He.
Defined.
