(* ===== verification/CanaryState.v ===== *)
(** * The campaign reducer (crates/execution-core canary.rs)

    [apply] is [CanaryCampaignState::apply]: one definition per arm of its match,
    in the state monad, so that what an arm writes before an early return stays
    written.  The invariant of every journal that replays, the finality of a closed
    campaign and the conservation of collateral at a reconciliation are proved on
    it. *)

From S2P Require Import Prelude CoreTypes Bytes SignalEngine RiskEngine WinnerFollow LogFrame CanaryTypes.
#[local] Open Scope Z_scope.

Definition stm_modify {S E} (f : S → S) : stm S E unit := λ s, (f s, Ok tt).
Abbreviation when b m := (if b then m else mret tt).

(** [iter_mut().find(p)] followed by a write through the reference. *)
Fixpoint update_first {A} (p : A → bool) (f : A → A) (l : list A) : option (list A) :=
  match l with
  | [] => None
  | a :: l => if p a then Some (f a :: l) else cons a <$> update_first p f l
  end.
(** [iter().find(p)] *)
Definition find_first {A} (p : A → bool) (l : list A) : option A := head (List.filter p l).

Definition same_position (c : PolymarketConditionId) (o : OutcomeId) (p : CanaryPosition) : bool :=
  bool_decide (pos_condition_id p = c) && bool_decide (pos_outcome_id p = o).
Definition identified (identity : string) (a : CampaignAttemptRecord) : bool :=
  bool_decide (att_identity a = identity).

(** ** Execution reports *)
Definition sum_amounts (field : string) (l : list ExactAmount) : result CanaryStateError ExactAmount :=
  map_err (λ _, Arithmetic) (try_fold (amount_checked_add field) amount_ZERO l).

Definition validate_report (pending : PendingAttempt) (report : ExactExecutionReport) :
    result CanaryStateError unit :=
  fill_collateral ← sum_amounts "CollateralAmount" (fill_collateral_debit <$> rep_fills report);
  fill_shares ← sum_amounts "ShareAmount" (fill_shares <$> rep_fills report);
  fill_fees ← sum_amounts "CollateralAmount" (fill_fee <$> rep_fills report);
  let no_fills := bool_decide (rep_fills report = []) in
  let unfilled := bool_decide (rep_filled_shares report = amount_ZERO) in
  let filled_all := bool_decide (rep_filled_shares report = rep_requested_shares report) in
  if bool_decide (rep_requested_collateral report ≠ pend_worst_case_debit pending)
     || bool_decide (rep_requested_shares report ≠ pend_requested_shares pending)
     || bool_decide (rep_venue_order_id report ≠ pend_venue_order_id pending)
     || bool_decide (rep_filled_collateral report ≠ fill_collateral)
     || bool_decide (rep_filled_shares report ≠ fill_shares)
     || bool_decide (rep_fees report ≠ fill_fees)
     || bool_decide (rep_fees report ≠ amount_ZERO)
     || amount_ltb (rep_requested_collateral report) (rep_filled_collateral report)
     || negb unfilled && negb filled_all
     || unfilled && bool_decide (rep_filled_collateral report ≠ amount_ZERO)
     || existsb (λ fill, is_blank (fill_trade_id fill)) (rep_fills report)
     || bool_decide (pend_post_success pending = Some true) && (negb filled_all || no_fills)
     || bool_decide (pend_post_success pending = Some false) && (negb unfilled || negb no_fills)
     || bool_decide (pend_phase pending = Reserved) && (negb unfilled || negb no_fills)
     || bool_decide (pend_post_success pending = None) && bool_decide (pend_phase pending = PostInFlightPhase)
        && negb no_fills && negb filled_all
  then Err AdmissionMismatch else Ok tt.

Section Reducer.
Context `{TO : TimeOps} `{DO : DecimalOps} {B3 : Blake3}.
Abbreviation state := CanaryCampaignState.
Abbreviation M := (stm CanaryCampaignState CanaryStateError).

(** ** Queries *)
Definition require_campaign (s : state) (campaign_id : string) : result CanaryStateError unit :=
  if decide (st_campaign_id s = Some campaign_id) then Ok tt else Err AuthorityMismatch.

Definition command_receipt (s : state) (id : string) : option CommandReceipt :=
  find_first (λ r, bool_decide (command_id r = id)) (st_command_receipts s).

(** The payload of a reviewable probe's hash. *)
Abbreviation review_payload :=
  (string * string * string * option VenueOrderId * option bool * option ExactExecutionReport * list string)%type.
Context {V4 : ToVec CampaignAuthorization} {V5 : ToVec (list string)} {V6 : ToVec review_payload}.

Definition probe_in_review (p : PendingAttempt) : bool :=
  bool_decide (pend_origin p = OperatorProbe) && bool_decide (pend_phase p = Review).
Definition pending_probe (s : state) : option PendingAttempt :=
  pending ← st_pending s; if probe_in_review pending then Some pending else None.

Definition reviewable_probe_hash (s : state) : result CanaryStateError (option string) :=
  match pending_probe s with
  | None => Ok None
  | Some pending =>
      reconciliation ← ok_or (st_last_reconciliation s) InvalidAttempt;
      hash ← map_err Encoding (json_hash
        (pend_identity pending, pend_order_hash pending, pend_prepared_body_hash pending,
         pend_venue_order_id pending, pend_post_success pending, rec_execution_report reconciliation,
         rec_evidence_hashes reconciliation));
      Ok (Some hash)
  end.

Definition add_exposure (on : bool) (amount debit : CollateralAmount) : result CanaryStateError CollateralAmount :=
  if on then map_err (λ _, Arithmetic) (collateral_checked_add amount debit) else Ok amount.
Definition exposure_step (attribution : AttemptAttribution) (e : CanaryExposureAmounts)
    (attempt : CampaignAttemptRecord) : result CanaryStateError CanaryExposureAmounts :=
  let theirs := att_attribution attempt in
  let debit := att_open_debit attempt in
  total ← add_exposure true (exp_total e) debit;
  market ← add_exposure (bool_decide (attr_condition_id theirs = attr_condition_id attribution)) (exp_market e) debit;
  family ← add_exposure (bool_decide (attr_family theirs = attr_family attribution)) (exp_family e) debit;
  leader ← add_exposure (bool_decide (attr_leader attribution ≠ None)
                         && bool_decide (attr_leader theirs = attr_leader attribution)) (exp_leader e) debit;
  Ok {| exp_leader := leader; exp_market := market; exp_family := family; exp_total := total |}.
Definition exposure_amounts (s : state) (attribution : AttemptAttribution) :
    result CanaryStateError CanaryExposureAmounts :=
  try_fold (exposure_step attribution) CanaryExposureAmounts_default (st_attempts s).

(** ** What a reconciliation must explain *)
Definition previous_positions (s : state) : list CanaryPosition :=
  match st_last_reconciliation s with Some previous => rec_positions previous | None => [] end.
Definition filled_debit (snapshot : CanaryReconciliation) : CollateralAmount :=
  match rec_execution_report snapshot with Some report => rep_filled_collateral report | None => amount_ZERO end.
Definition held (positions : list CanaryPosition) (c : PolymarketConditionId) (o : OutcomeId) : bool :=
  existsb (same_position c o) positions.
Definition resolution_of (snapshot : CanaryReconciliation) (c : PolymarketConditionId) : option CanaryResolution :=
  find_first (λ r, bool_decide (res_condition_id r = c)) (rec_resolutions snapshot).

(** The loop over positions that disappeared; [None] is [return false]. *)
Definition settlement_step (snapshot : CanaryReconciliation) (credit : Z) (position : CanaryPosition) : option Z :=
  resolution ← resolution_of snapshot (pos_condition_id position);
  if decide (res_winner resolution = pos_outcome_id position)
  then checked_add_u64 credit (atomic (pos_shares position)) else Some credit.
Fixpoint settlement_credit (snapshot : CanaryReconciliation) (credit : Z) (gone : list CanaryPosition) : option Z :=
  match gone with
  | [] => Some credit
  | p :: gone => credit ← settlement_step snapshot credit p; settlement_credit snapshot credit gone
  end.
Definition disappeared (s : state) (snapshot : CanaryReconciliation) : list CanaryPosition :=
  List.filter (λ p, negb (held (rec_positions snapshot) (pos_condition_id p) (pos_outcome_id p)))
    (previous_positions s).

Definition reconciliation_balance_explained (s : state) (snapshot : CanaryReconciliation) : bool :=
  match st_campaign_id s with
  | None => true
  | Some _ =>
      match collateral_checked_sub (st_free_collateral s) (filled_debit snapshot) with
      | Err _ => false
      | Ok expected_after_fill =>
          if amount_ltb (rec_free_collateral snapshot) expected_after_fill then false
          else
            let credit := atomic (rec_free_collateral snapshot) - atomic expected_after_fill in
            match settlement_credit snapshot 0 (disappeared s snapshot) with
            | None => false
            | Some settled => credit =? settled
            end
      end
  end.

Definition expected_allowance_after (s : state) (snapshot : CanaryReconciliation) : option CollateralAmount :=
  result_ok (collateral_checked_sub (st_allowance s) (filled_debit snapshot)).

Definition pending_fill (s : state) (snapshot : CanaryReconciliation) : option (AttemptAttribution * ShareAmount) :=
  pending ← st_pending s;
  attempt ← find_first (identified (pend_identity pending)) (st_attempts s);
  report ← rec_execution_report snapshot;
  Some (att_attribution attempt, rep_filled_shares report).

Definition current_exact (s : state) (snapshot : CanaryReconciliation) : bool :=
  forallb (λ current,
    let previous := match find_first (same_position (pos_condition_id current) (pos_outcome_id current))
                            (previous_positions s) with
                    | Some position => pos_shares position
                    | None => amount_ZERO
                    end in
    let added := match pending_fill s snapshot with
                 | Some (attribution, shares) =>
                     if bool_decide (attr_condition_id attribution = pos_condition_id current)
                        && bool_decide (attr_outcome_id attribution = pos_outcome_id current)
                     then shares else amount_ZERO
                 | None => amount_ZERO
                 end in
    bool_decide (share_checked_add previous added = Ok (pos_shares current))) (rec_positions snapshot).
Definition resolved (snapshot : CanaryReconciliation) (c : PolymarketConditionId) : bool :=
  existsb (λ r, bool_decide (res_condition_id r = c)) (rec_resolutions snapshot).
Definition no_unexplained_disappearance (s : state) (snapshot : CanaryReconciliation) : bool :=
  forallb (λ previous,
    held (rec_positions snapshot) (pos_condition_id previous) (pos_outcome_id previous)
    || resolved snapshot (pos_condition_id previous)) (previous_positions s).
Definition pending_fill_present (s : state) (snapshot : CanaryReconciliation) : bool :=
  match pending_fill s snapshot with
  | None => true
  | Some (attribution, shares) =>
      bool_decide (shares = amount_ZERO)
      || held (rec_positions snapshot) (attr_condition_id attribution) (attr_outcome_id attribution)
      || resolved snapshot (attr_condition_id attribution)
  end.
Definition reconciliation_inventory_explained (s : state) (snapshot : CanaryReconciliation) : bool :=
  current_exact s snapshot && no_unexplained_disappearance s snapshot && pending_fill_present s snapshot.

(** The conjunction [apply] calls [authoritative]. *)
Definition authoritative (s : state) (snapshot : CanaryReconciliation) : bool :=
  reconciliation_balance_explained s snapshot
  && bool_decide (expected_allowance_after s snapshot = Some (rec_allowance snapshot))
  && reconciliation_inventory_explained s snapshot
  && bool_decide (rec_open_order_ids snapshot = [])
  && negb (rec_unexpected_activity snapshot)
  && rec_standard_spender_only snapshot.

(** ** Mutations shared by the arms *)
Definition record_receipt (receipt : CommandReceipt) : M unit :=
  if is_blank (command_id receipt) || is_blank (command_hash receipt) then stm_fail InvalidAttempt
  else
    s ← stm_get;
    match command_receipt s (command_id receipt) with
    | Some existing =>
        if decide (command_hash existing = command_hash receipt) then mret tt else stm_fail AuthorityMismatch
    | None => stm_put (s <| st_command_receipts := st_command_receipts s ++ [receipt] |>)
    end.
Definition record_optional_receipt (receipt : option CommandReceipt) : M unit :=
  match receipt with Some receipt => record_receipt receipt | None => mret tt end.

Definition pending_mut (identity : string) : M PendingAttempt :=
  s ← stm_get;
  match st_pending s with
  | Some pending => if decide (pend_identity pending = identity) then mret pending else stm_fail InvalidAttempt
  | None => stm_fail InvalidAttempt
  end.

Definition any_open (s : state) : bool :=
  existsb (λ a, bool_decide (att_open_debit a ≠ amount_ZERO)) (st_attempts s).

(** [if self.stage != Closed { self.stage = ClosedObserving }] *)
Definition observe (s : state) : state :=
  if decide (st_stage s = Closed) then s else s <| st_stage := ClosedObserving |>.

(** ** The arms of [apply] *)
Definition apply_campaign_armed (a : CampaignAuthorization) (receipt : CommandReceipt) : M unit :=
  s ← stm_get;
  if decide (st_stage s ≠ Inactive) then stm_fail (InvalidStage (st_stage s))
  else
    _ ← stm_modify (λ s, s <| st_campaign_id := Some (ca_campaign_id a) |>);
    hash ← stm_lift (campaign_authorization_hash a);
    _ ← stm_modify (λ s, s
      <| st_campaign_authorization_hash := Some hash |>
      <| st_stage := ProbesArmed |>
      <| st_expires_at := Some (ca_expires_at a) |>
      <| st_implementation_commit := Some (ca_implementation_commit a) |>
      <| st_binary_hash := Some (ca_binary_hash a) |>
      <| st_config_hash := Some (ca_config_hash a) |>
      <| st_resolver_inventory_hash := Some (ca_resolver_inventory_hash a) |>
      <| st_wallet := Some (ca_wallet a) |>
      <| st_owner_signer := Some (ca_owner_signer a) |>
      <| st_spender := Some (ca_spender a) |>
      <| st_sdk_archive_sha256 := Some (ca_sdk_archive_sha256 a) |>
      <| st_sdk_effective_vendor_tree_sha256 := Some (ca_sdk_effective_vendor_tree_sha256 a) |>
      <| st_starting_collateral := ca_starting_collateral a |>
      <| st_free_collateral := ca_starting_collateral a |>
      <| st_canary_bankroll := ca_starting_collateral a |>
      <| st_allowance := ca_allowance a |>);
    record_receipt receipt.

Definition apply_probe_review (campaign_id : string) (ordinal : Z) (hash : string) (receipt : CommandReceipt) : M unit :=
  s ← stm_get;
  _ ← stm_lift (require_campaign s campaign_id);
  pending ← stm_lift (ok_or (pending_probe s) (InvalidStage (st_stage s)));
  let refuse := stm_fail (InvalidStage (st_stage s)) in
  if bool_decide (st_stage s ≠ ProbesArmed) || negb (ordinal =? st_probe_posts s) then refuse
  else
    reviewable ← stm_lift (reviewable_probe_hash s);
    if bool_decide (reviewable ≠ Some hash) || bool_decide (pend_identity pending = EmptyString) then refuse
    else
      _ ← stm_modify (λ s, s
        <| st_pending := None |>
        <| st_reviewed_probe_hashes := st_reviewed_probe_hashes s ++ [hash] |>
        <| st_stage := if st_probe_posts s =? PROBE_POST_LIMIT then OrganicReady else ProbesArmed |>);
      record_receipt receipt.

Definition apply_organic_armed (a : OrganicStageAuthorization) (receipt : CommandReceipt) : M unit :=
  s ← stm_get;
  _ ← stm_lift (require_campaign s (os_campaign_id a));
  if bool_decide (st_stage s ≠ OrganicReady)
     || negb (os_schema_version a =? 1)
     || negb (os_reviewed_probe_count a =? PROBE_POST_LIMIT)
     || bool_decide (st_campaign_authorization_hash s ≠ Some (os_campaign_authorization_hash a))
     || bool_decide (st_implementation_commit s ≠ Some (os_implementation_commit a))
  then stm_fail AuthorityMismatch
  else
    bundle ← stm_lift (organic_evidence_bundle_hash (st_reviewed_probe_hashes s));
    if decide (bundle ≠ os_evidence_bundle_hash a) then stm_fail AuthorityMismatch
    else
      _ ← stm_modify (λ s, s <| st_stage := OrganicArmed |>);
      record_receipt receipt.

(** The debits of positions that are no longer held are released. *)
Definition release_settled (previous current : list CanaryPosition) (a : CampaignAttemptRecord) : CampaignAttemptRecord :=
  let c := attr_condition_id (att_attribution a) in
  let o := attr_outcome_id (att_attribution a) in
  if held previous c o && negb (held current c o) then a <| att_open_debit := amount_ZERO |> else a.

Definition adopt (snapshot : CanaryReconciliation) (s : state) : state :=
  s <| st_attempts := release_settled (previous_positions s) (rec_positions snapshot) <$> st_attempts s |>
    <| st_last_reconciliation := Some snapshot |>
    <| st_last_reconciliation_at := Some (rec_observed_at snapshot) |>
    <| st_free_collateral := rec_free_collateral snapshot |>
    <| st_allowance := rec_allowance snapshot |>.
Definition adopt_snapshot (snapshot : CanaryReconciliation) : M unit :=
  _ ← stm_modify (adopt snapshot);
  s ← stm_get;
  bankroll ← stm_lift match st_pending s with
                      | Some pending =>
                          map_err (λ _, Arithmetic)
                            (collateral_checked_sub (rec_free_collateral snapshot) (pend_worst_case_debit pending))
                      | None => Ok (rec_free_collateral snapshot)
                      end;
  stm_modify (λ s, s <| st_canary_bankroll := bankroll |>).

Definition learn_trade (known : list string) (fill : VenueFill) : list string :=
  if decide (fill_trade_id fill ∈ known) then known else known ++ [fill_trade_id fill].

(** What becomes of the pending attempt once its report is accepted. *)
Definition retire_pending (pending : PendingAttempt) (s : state) : state :=
  if decide (st_stage s ≠ ClosedObserving)
  then match pend_origin pending with
       | OperatorProbe =>
           s <| st_pending := (λ p, p <| pend_phase := Review |>) <$> st_pending s |>
       | Organic =>
           if st_organic_posts s <? ORGANIC_POST_LIMIT
           then s <| st_pending := None |> <| st_stage := OrganicArmed |>
           else s <| st_pending := None |> <| st_stage := ClosedObserving |>
                  <| st_terminal_reason := Some ExhaustedReason |>
       end
  else s <| st_pending := None |>.

Definition settle_pending (snapshot : CanaryReconciliation) (pending : PendingAttempt)
    (report : ExactExecutionReport) : M unit :=
  _ ← stm_lift (validate_report pending report);
  _ ← stm_modify (λ s, s <| st_canary_bankroll := rec_free_collateral snapshot |>);
  s ← stm_get;
  attempts ← stm_lift (ok_or (update_first (identified (pend_identity pending))
                                (λ a, a <| att_open_debit := rep_filled_collateral report |>) (st_attempts s))
                         InvalidAttempt);
  _ ← stm_modify (λ s, s
    <| st_attempts := attempts |>
    <| st_known_trade_ids := foldl learn_trade (st_known_trade_ids s) (rep_fills report) |>);
  stm_modify (retire_pending pending).

Definition apply_reconciliation (snapshot : CanaryReconciliation) (receipt : option CommandReceipt)
    (final_for_shutdown : bool) : M unit :=
  s ← stm_get;
  let explained := authoritative s snapshot in
  _ ← stm_modify (λ s, s
    <| st_reconciliation_failed := negb explained |>
    <| st_recovery_unresolved := negb explained |>);
  _ ← when explained (adopt_snapshot snapshot);
  _ ← when final_for_shutdown (stm_modify (λ s, s
        <| st_shutdown_reconciliation_designated := true |>
        <| st_shutdown_reconciliation_succeeded := explained |>));
  s ← stm_get;
  _ ← match st_pending s, rec_execution_report snapshot with
      | Some pending, Some report =>
          when (explained && bool_decide (pend_phase pending ≠ Review)) (settle_pending snapshot pending report)
      | _, _ => mret tt
      end;
  record_optional_receipt receipt.

Definition apply_reconciliation_failed (final_for_shutdown : bool) : M unit :=
  _ ← stm_modify (λ s, s
    <| st_last_reconciliation_at := None |>
    <| st_reconciliation_failed := true |>
    <| st_recovery_unresolved := true |>);
  s ← stm_get;
  _ ← when (bool_decide (st_pending s ≠ None) || any_open s)
        (stm_modify (λ s, (observe (s <| st_kill_latched := true |>)) <| st_terminal_reason := Some VenueAmbiguous |>));
  when final_for_shutdown (stm_modify (λ s, s
    <| st_shutdown_reconciliation_designated := true |>
    <| st_shutdown_reconciliation_succeeded := false |>)).

(** The slot an attempt of this origin takes, by the campaign's stage. *)
Definition take_slot (origin : CanaryOrigin) : M unit :=
  s ← stm_get;
  match origin with
  | OperatorProbe =>
      if bool_decide (st_stage s = ProbesArmed) && (st_probe_posts s <? PROBE_POST_LIMIT)
      then stm_put (s <| st_probe_posts := st_probe_posts s + 1 |>) else stm_fail (InvalidStage (st_stage s))
  | Organic =>
      if bool_decide (st_stage s = OrganicArmed) && (st_organic_posts s <? ORGANIC_POST_LIMIT)
      then stm_put (s <| st_organic_posts := st_organic_posts s + 1 |>) else stm_fail (InvalidStage (st_stage s))
  end.

Definition reserved_pending (admission : CanaryAdmission) (prepared : PreparedPolymarketBuy) : PendingAttempt := {|
  pend_identity := adm_identity admission; pend_origin := adm_origin admission;
  pend_worst_case_debit := pb_worst_case_debit prepared; pend_requested_shares := pb_taker_shares prepared;
  pend_order_hash := pb_order_hash prepared; pend_prepared_body_hash := pb_post_body_hash prepared;
  pend_venue_order_id := None; pend_post_success := None; pend_phase := Reserved
|}.
Definition reserved_attempt (admission : CanaryAdmission) (prepared : PreparedPolymarketBuy) : CampaignAttemptRecord := {|
  att_identity := adm_identity admission; att_origin := adm_origin admission;
  att_attribution := adm_attribution admission; att_shares := pb_taker_shares prepared;
  att_open_debit := pb_worst_case_debit prepared
|}.

Definition apply_attempt_reserved (admission : CanaryAdmission) (prepared : PreparedPolymarketBuy)
    (receipt : CommandReceipt) : M unit :=
  s ← stm_get;
  if bool_decide (st_pending s ≠ None) then stm_fail PendingAttemptExists
  else if is_blank (adm_identity admission) || bool_decide (pb_worst_case_debit prepared = amount_ZERO)
  then stm_fail InvalidAttempt
  else
    _ ← take_slot (adm_origin admission);
    s ← stm_get;
    committed ← stm_lift (map_err (λ _, Arithmetic)
                            (collateral_checked_add (st_committed_debit s) (pb_worst_case_debit prepared)));
    if amount_ltb CAMPAIGN_MAX_COMMITMENT committed then stm_fail Exhausted
    else
      _ ← stm_modify (λ s, s <| st_committed_debit := committed |>);
      bankroll ← stm_lift (map_err (λ _, Arithmetic)
                             (collateral_checked_sub (st_free_collateral s) (pb_worst_case_debit prepared)));
      _ ← stm_modify (λ s, s
        <| st_canary_bankroll := bankroll |>
        <| st_pending := Some (reserved_pending admission prepared) |>
        <| st_attempts := st_attempts s ++ [reserved_attempt admission prepared] |>);
      record_receipt receipt.

Definition apply_post_in_flight (identity order_hash post_body_hash : string) : M unit :=
  pending ← pending_mut identity;
  if bool_decide (pend_phase pending ≠ Reserved)
     || bool_decide (pend_prepared_body_hash pending ≠ post_body_hash)
     || bool_decide (pend_order_hash pending ≠ order_hash)
  then stm_fail InvalidAttempt
  else stm_modify (λ s, s <| st_pending := Some (pending <| pend_phase := PostInFlightPhase |>) |>).

Definition post_failure (definitive : bool) (origin : CanaryOrigin) : ClosureReason :=
  if definitive
  then match origin with OperatorProbe => ProbeFailed | Organic => OrganicAttemptFailed end
  else VenueAmbiguous.

Definition apply_post_returned (identity : string) (success definitive : bool) (order_id : string) : M unit :=
  pending ← pending_mut identity;
  if decide (pend_phase pending ≠ PostInFlightPhase) then stm_fail InvalidAttempt
  else
    let pending := if is_blank order_id then pending
                   else pending <| pend_venue_order_id := Some {| venue_order_id := order_id |} |> in
    _ ← stm_modify (λ s, s <| st_pending := Some pending |>);
    if definitive && success && bool_decide (pend_venue_order_id pending = None) then stm_fail InvalidAttempt
    else
      _ ← stm_modify (λ s, s
        <| st_pending := Some (pending <| pend_post_success := if definitive then Some success else None |>) |>);
      when (negb success) (stm_modify (λ s, s
        <| st_stage := ClosedObserving |>
        <| st_terminal_reason := Some (post_failure definitive (pend_origin pending)) |>)).

Definition apply_admission_closed (reason : ClosureReason) (receipt : option CommandReceipt) : M unit :=
  _ ← stm_modify (λ s, observe (s <| st_kill_latched := true |>));
  _ ← stm_modify (λ s,
        if bool_decide (reason ≠ Killed) || bool_decide (st_terminal_reason s = None)
        then s <| st_terminal_reason := Some reason |> else s);
  _ ← stm_modify (λ s,
        match st_pending s with
        | Some attempt => if decide (pend_phase attempt = Review) then s <| st_pending := None |> else s
        | None => s
        end);
  record_optional_receipt receipt.

Definition apply_recovery_required (reason : ClosureReason) : M unit :=
  stm_modify (λ s, (observe (s <| st_kill_latched := true |>)) <| st_terminal_reason := Some reason |>).

Definition apply_campaign_closed : M unit :=
  s ← stm_get;
  if bool_decide (st_stage s ≠ ClosedObserving) || bool_decide (st_pending s ≠ None) || any_open s
  then stm_fail (InvalidStage (st_stage s))
  else stm_put (s <| st_stage := Closed |>).

Definition apply (event : CanaryEvent) : M unit :=
  match event with
  | CampaignArmed authorization receipt => apply_campaign_armed authorization receipt
  | ProbeReviewAccepted campaign_id ordinal hash receipt => apply_probe_review campaign_id ordinal hash receipt
  | OrganicStageArmed authorization receipt => apply_organic_armed authorization receipt
  | PreReservationSkipped _ _ _ receipt => record_receipt receipt
  | HttpResponseCaptured _ _ _ _ _ _ _ _ _ _ _ _ _ _ _ _ _
  | HttpTransportFailed _ _ _ _ _ _ _ _ _ _ _ _ _
  | ArtifactCaptured _ _ _ _ _ _ _ _ _ _ _ => mret tt
  | ReconciliationRecorded _ snapshot receipt final => apply_reconciliation snapshot receipt final
  | ReconciliationFailed _ _ final => apply_reconciliation_failed final
  | AttemptReserved admission prepared receipt => apply_attempt_reserved admission prepared receipt
  | PostInFlight identity order_hash post_body_hash => apply_post_in_flight identity order_hash post_body_hash
  | PostReturned identity success definitive order_id _ => apply_post_returned identity success definitive order_id
  | AdmissionClosed reason receipt => apply_admission_closed reason receipt
  | RecoveryRequired reason => apply_recovery_required reason
  | CampaignClosed => apply_campaign_closed
  end.

(** Replaying a journal from the default state, stopping at the first refusal. *)
Definition apply_result (s : state) (event : CanaryEvent) : result CanaryStateError state :=
  match apply event s with (s', Ok _) => Ok s' | (_, Err e) => Err e end.
Definition replay (events : list CanaryEvent) : result CanaryStateError state :=
  try_fold apply_result CanaryCampaignState_default events.

End Reducer.

(** ** The abstract campaign

    What the reducer promises about orders and money, without receipts, hashes or
    evidence: the stage, the reservations made so far with their debits, the one
    attempt that may be open and the number of reviewed probes. *)
Record Campaign := {
  c_stage : CampaignStage;
  c_reserved : list (CanaryOrigin * Z);
  c_open : option (CanaryOrigin * Z * AttemptPhase);
  c_reviewed : nat
}.
Definition initial_campaign : Campaign :=
  {| c_stage := Inactive; c_reserved := []; c_open := None; c_reviewed := 0 |}.

Definition slots_used (o : CanaryOrigin) (l : list (CanaryOrigin * Z)) : Z :=
  sum_with (λ r, if decide (r.1 = o) then 1 else 0) l.
Definition slot_limit (o : CanaryOrigin) : Z :=
  match o with OperatorProbe => PROBE_POST_LIMIT | Organic => ORGANIC_POST_LIMIT end.
Definition armed_stage (o : CanaryOrigin) : CampaignStage :=
  match o with OperatorProbe => ProbesArmed | Organic => OrganicArmed end.

Inductive campaign_step : Campaign → option (CanaryOrigin * Z) → Campaign → Prop :=
| step_idle c : campaign_step c None c
| step_arm l p n :
    campaign_step {| c_stage := Inactive; c_reserved := l; c_open := p; c_reviewed := n |} None
                  {| c_stage := ProbesArmed; c_reserved := l; c_open := p; c_reviewed := n |}
| step_reserve o d l n : 0 < d → slots_used o l < slot_limit o →
    sum_with snd l + d ≤ atomic CAMPAIGN_MAX_COMMITMENT →
    campaign_step {| c_stage := armed_stage o; c_reserved := l; c_open := None; c_reviewed := n |} (Some (o, d))
                  {| c_stage := armed_stage o; c_reserved := l ++ [(o, d)]; c_open := Some (o, d, Reserved);
                     c_reviewed := n |}
| step_post s o d l n :
    campaign_step {| c_stage := s; c_reserved := l; c_open := Some (o, d, Reserved); c_reviewed := n |} None
                  {| c_stage := s; c_reserved := l; c_open := Some (o, d, PostInFlightPhase); c_reviewed := n |}
| step_probe_settled s d ph l n : s ≠ ClosedObserving → ph ≠ Review →
    campaign_step {| c_stage := s; c_reserved := l; c_open := Some (OperatorProbe, d, ph); c_reviewed := n |} None
                  {| c_stage := s; c_reserved := l; c_open := Some (OperatorProbe, d, Review); c_reviewed := n |}
| step_probe_reviewed d l n :
    campaign_step {| c_stage := ProbesArmed; c_reserved := l; c_open := Some (OperatorProbe, d, Review);
                     c_reviewed := n |} None
                  {| c_stage := if slots_used OperatorProbe l =? PROBE_POST_LIMIT then OrganicReady else ProbesArmed;
                     c_reserved := l; c_open := None; c_reviewed := S n |}
| step_arm_organic l p n :
    campaign_step {| c_stage := OrganicReady; c_reserved := l; c_open := p; c_reviewed := n |} None
                  {| c_stage := OrganicArmed; c_reserved := l; c_open := p; c_reviewed := n |}
| step_organic_settled s d ph l n : s ≠ ClosedObserving → ph ≠ Review →
    campaign_step {| c_stage := s; c_reserved := l; c_open := Some (Organic, d, ph); c_reviewed := n |} None
                  {| c_stage := if slots_used Organic l <? ORGANIC_POST_LIMIT then OrganicArmed else ClosedObserving;
                     c_reserved := l; c_open := None; c_reviewed := n |}
| step_close s l p p' n : s ≠ Closed →
    (p' = p ∨ ∃ o d, p = Some (o, d, Review) ∧ p' = None) →
    campaign_step {| c_stage := s; c_reserved := l; c_open := p; c_reviewed := n |} None
                  {| c_stage := ClosedObserving; c_reserved := l; c_open := p'; c_reviewed := n |}
| step_observed_settled o d ph l n : ph ≠ Review →
    campaign_step {| c_stage := ClosedObserving; c_reserved := l; c_open := Some (o, d, ph); c_reviewed := n |} None
                  {| c_stage := ClosedObserving; c_reserved := l; c_open := None; c_reviewed := n |}
| step_finish l n :
    campaign_step {| c_stage := ClosedObserving; c_reserved := l; c_open := None; c_reviewed := n |} None
                  {| c_stage := Closed; c_reserved := l; c_open := None; c_reviewed := n |}.

(** A run from a campaign, with the reservations it makes. *)
Inductive campaign_run : Campaign → list (CanaryOrigin * Z) → Campaign → Prop :=
| run_nil c : campaign_run c [] c
| run_step c o c' l c'' : campaign_step c o c' → campaign_run c' l c'' → campaign_run c (option_list o ++ l) c''.

(** The invariant: at most one attempt is open and it is the last reservation; the
    stage bounds what may have been reserved; nothing organic happens before every
    probe is reviewed. *)
Definition campaign_inv (c : Campaign) : Prop :=
  let probes := slots_used OperatorProbe (c_reserved c) in
  let organic := slots_used Organic (c_reserved c) in
  let opened := match c_open c with Some _ => 1 | None => 0 end in
  0 ≤ probes ≤ PROBE_POST_LIMIT ∧ 0 ≤ organic ≤ ORGANIC_POST_LIMIT
  ∧ Forall (λ r, 0 < r.2) (c_reserved c)
  ∧ sum_with snd (c_reserved c) ≤ atomic CAMPAIGN_MAX_COMMITMENT
  ∧ Z.of_nat (c_reviewed c) ≤ probes
  ∧ (0 < organic → c_reviewed c = 3%nat ∧ probes = 3)
  ∧ (∀ o d ph, c_open c = Some (o, d, ph) → last (c_reserved c) = Some (o, d) ∧ (ph = Review → o = OperatorProbe))
  ∧ match c_stage c with
    | Inactive => c_reserved c = [] ∧ c_open c = None
    | ProbesArmed => organic = 0 ∧ Z.of_nat (c_reviewed c) + opened = probes
                     ∧ (c_open c = None → probes < PROBE_POST_LIMIT)
                     ∧ ∀ o d ph, c_open c = Some (o, d, ph) → o = OperatorProbe
    | OrganicReady => organic = 0 ∧ c_reviewed c = 3%nat ∧ probes = 3 ∧ c_open c = None
    | OrganicArmed => c_reviewed c = 3%nat ∧ probes = 3 ∧ ∀ o d ph, c_open c = Some (o, d, ph) → o = Organic
    | ClosedObserving => True
    | Closed => c_open c = None
    end.

Lemma slots_used_app o l1 l2 : slots_used o (l1 ++ l2) = slots_used o l1 + slots_used o l2.
Proof. apply sum_with_app. Qed.
Lemma slots_used_total l : slots_used OperatorProbe l + slots_used Organic l = Z.of_nat (length l).
Proof.
  induction l as [|[o d] l IH]; [done|]. unfold slots_used in *. rewrite !sum_with_cons. simpl fst. simpl length.
  destruct o; simpl; lia.
Qed.

Lemma initial_campaign_inv : campaign_inv initial_campaign.
Proof. unfold campaign_inv. simpl. split_and!; try done; try lia. Qed.

Lemma slots_used_nonneg o l : 0 ≤ slots_used o l.
Proof. apply sum_with_nonneg, Forall_forall. intros. case_decide; lia. Qed.
Lemma slots_used_snoc o o' d l :
  slots_used o (l ++ [(o', d)]) = slots_used o l + if decide (o' = o) then 1 else 0.
Proof. rewrite slots_used_app. unfold slots_used at 2. simpl. lia. Qed.

Lemma campaign_step_inv c o c' : campaign_step c o c' → campaign_inv c → campaign_inv c'.
Proof.
  unfold campaign_inv, PROBE_POST_LIMIT, ORGANIC_POST_LIMIT.
  destruct 1 as [|l p n|o d l n Hd0 Hlim Hsum|s o d l n|s d ph l n Hs1 Hph|d l n|l p n|s d ph l n Hs1 Hph
                 |s l p p' n Hs1 Hp'|o d ph l n Hph|l n]; cbn [c_stage c_reserved c_open c_reviewed];
    intros (Hp & Ho & Hd & Hs & Hr & Hor & Hlast & Hst).
  - naive_solver.
  - destruct Hst as [-> ->]. unfold slots_used in *. simpl in *. split_and!; try done; lia.
  - rewrite !slots_used_snoc, sum_with_app, last_snoc.
    assert (Forall (λ r : CanaryOrigin * Z, 0 < r.2) (l ++ [(o, d)])) as HF
      by (apply Forall_app; split; [done|by constructor]).
    destruct o; cbn [armed_stage slot_limit snd sum_with foldr] in *; unfold PROBE_POST_LIMIT, ORGANIC_POST_LIMIT in *;
      repeat case_decide; try done; split_and!; try done; try lia; naive_solver lia.
  - split_and!; try lia; [done|naive_solver|]. destruct s; naive_solver.
  - split_and!; try lia; [done|naive_solver|]. destruct s; naive_solver.
  - destruct Hst as (Horg & Hrev & Hfull & _). split_and!; try lia; [done|done|].
    unfold PROBE_POST_LIMIT. destruct (Z.eqb_spec (slots_used OperatorProbe l) 3); split_and!; try done; lia.
  - split_and!; try lia; [done|naive_solver|naive_solver].
  - assert (0 < slots_used Organic l) as Hpos.
    { destruct (Hlast _ _ _ eq_refl) as [Hl _]. apply last_Some in Hl as [l' ->].
      rewrite slots_used_snoc, decide_True by done. pose proof (slots_used_nonneg Organic l'). lia. }
    destruct (Hor Hpos). split_and!; try lia; try done; by destruct (_ <? _).
  - split_and!; try lia; try done; naive_solver.
  - split_and!; try lia; done.
  - split_and!; try lia; done.
Qed.

Lemma campaign_step_reserved c o c' : campaign_step c o c' → c_reserved c' = c_reserved c ++ option_list o.
Proof. destruct 1; simpl; by rewrite ?app_nil_r. Qed.
Lemma campaign_run_inv c l c' : campaign_run c l c' → campaign_inv c →
  campaign_inv c' ∧ c_reserved c' = c_reserved c ++ l.
Proof.
  induction 1 as [c|c o c' l c'' Hs Hr IH]; intros Hc; [by rewrite app_nil_r|].
  destruct (IH (campaign_step_inv _ _ _ Hs Hc)) as [? ->]. split; [done|].
  by rewrite (campaign_step_reserved _ _ _ Hs), (assoc_L (++)).
Qed.
Lemma campaign_run_snoc c l c' o c'' : campaign_run c l c' → campaign_step c' o c'' →
  campaign_run c (l ++ option_list o) c''.
Proof.
  induction 1 as [c|c o' c' l c1 Hs Hr IH]; intros H.
  - rewrite app_nil_l, <- (app_nil_r (option_list o)). econstructor; [done|constructor].
  - rewrite <- (assoc_L (++)). econstructor; [done|by apply IH].
Qed.

Definition closed_stage (s : CampaignStage) : Prop := s = ClosedObserving ∨ s = Closed.
(** Closing is final: a closed campaign reserves nothing and never re-arms. *)
Lemma campaign_closed_step c o c' : campaign_step c o c' → campaign_inv c → closed_stage (c_stage c) →
  o = None ∧ closed_stage (c_stage c') ∧ c_reserved c' = c_reserved c ∧ c_reviewed c' = c_reviewed c.
Proof.
  intros Hs Hi Hc. destruct Hs as [c|l p n|o d l n ? ? ?|s o d l n|s d ph l n Hs1 Hph|d l n|l p n|s d ph l n Hs1 Hph
                 |s l p p' n Hs1 Hp'|o d ph l n Hph|l n]; simpl in *; try done; destruct Hc as [Hc|Hc];
    try (destruct o; discriminate); try done; split_and!; try done; try (by left); try (by right); auto.
  exfalso. destruct Hi as (_ & _ & _ & _ & _ & _ & _ & Hi). simpl in Hi. by rewrite Hc in Hi.
Qed.

(** ** The reducer refines the abstract campaign *)
Section Refinement.
Context `{TO : TimeOps} `{DO : DecimalOps} {B3 : Blake3}.
Context {V4 : ToVec CampaignAuthorization} {V5 : ToVec (list string)}.
Context {V6 : ToVec (string * string * string * option VenueOrderId * option bool
                     * option ExactExecutionReport * list string)}.

(** The reservation an event makes. *)
Definition reservation (e : CanaryEvent) : option (CanaryOrigin * Z) :=
  match e with
  | AttemptReserved admission prepared _ => Some (adm_origin admission, atomic (pb_worst_case_debit prepared))
  | _ => None
  end.
Definition reservations (events : list CanaryEvent) : list (CanaryOrigin * Z) := events ≫= option_list ∘ reservation.
(** The order of an event is a [u64]. *)
Definition event_wf (e : CanaryEvent) : Prop := ∀ o d, reservation e = Some (o, d) → is_u64 d.

Definition open_view (p : PendingAttempt) : CanaryOrigin * Z * AttemptPhase :=
  (pend_origin p, atomic (pend_worst_case_debit p), pend_phase p).
Definition view (s : CanaryCampaignState) (reserved : list (CanaryOrigin * Z)) : Campaign := {|
  c_stage := st_stage s; c_reserved := reserved; c_open := open_view <$> st_pending s;
  c_reviewed := length (st_reviewed_probe_hashes s)
|}.
Definition counters_match (s : CanaryCampaignState) (reserved : list (CanaryOrigin * Z)) : Prop :=
  st_probe_posts s = slots_used OperatorProbe reserved
  ∧ st_organic_posts s = slots_used Organic reserved
  ∧ atomic (st_committed_debit s) = sum_with snd reserved
  ∧ att_origin <$> st_attempts s = reserved.*1
  ∧ Forall (λ a, 0 ≤ atomic (att_open_debit a) ≤ atomic CAMPAIGN_MAX_COMMITMENT) (st_attempts s).

Lemma record_receipt_frame r s s' : record_receipt r s = (s', Ok tt) →
  ∃ l, s' = s <| st_command_receipts := l |>.
Proof.
  unfold record_receipt, mbind, stm_mbind, stm_get, stm_put, mret, stm_mret, stm_fail. intros H.
  repeat (case_match; simplify_eq); eauto. exists (st_command_receipts s'). by destruct s'.
Qed.
Lemma record_optional_frame r s s' : record_optional_receipt r s = (s', Ok tt) →
  ∃ l, s' = s <| st_command_receipts := l |>.
Proof.
  destruct r as [r|]; [apply record_receipt_frame|]. intros [= <-]. exists (st_command_receipts s). by destruct s.
Qed.

#[local] Arguments field_set {R T} proj {_} f r : simpl nomatch.
(** Run a [stm] program in a hypothesis up to its first test. *)
Ltac run H := cbv beta iota zeta delta [mbind stm_mbind stm_get stm_put stm_modify stm_lift mret stm_mret stm_fail] in H.
(** Read the fields an update leaves. *)
Ltac project :=
  unfold view;
  cbn [field_set st_stage st_pending st_attempts st_reviewed_probe_hashes st_probe_posts st_organic_posts
       st_committed_debit st_free_collateral st_allowance st_canary_bankroll st_campaign_id st_last_reconciliation
       st_known_trade_ids st_terminal_reason st_kill_latched].

Definition simulated (s : CanaryCampaignState) (l : list (CanaryOrigin * Z)) (o : option (CanaryOrigin * Z))
    (s' : CanaryCampaignState) : Prop :=
  campaign_step (view s l) o (view s' (l ++ option_list o)) ∧ counters_match s' (l ++ option_list o).

(** Steps that reserve nothing. *)
Lemma simulated_quiet s l s' : campaign_step (view s l) None (view s' l) → counters_match s' l → simulated s l None s'.
Proof. unfold simulated. by rewrite app_nil_r. Qed.

Lemma armed_simulated a r s l s' : counters_match s l →
  apply_campaign_armed a r s = (s', Ok tt) → simulated s l None s'.
Proof.
  intros Hm H. unfold apply_campaign_armed in H. run H. case_decide as Hs; [done|].
  destruct (campaign_authorization_hash a); [|done].
  apply record_receipt_frame in H as [rs ->]. apply simulated_quiet; [|exact Hm].
  project. rewrite Hs. apply step_arm.
Qed.

Lemma review_simulated id n h r s l s' : counters_match s l →
  apply_probe_review id n h r s = (s', Ok tt) → simulated s l None s'.
Proof.
  intros Hm H. unfold apply_probe_review in H. run H.
  destruct (require_campaign s id); [|done]. destruct (pending_probe s) as [p|] eqn:Hp; [|done]. simpl in H.
  destruct (bool_decide (st_stage s ≠ ProbesArmed)) eqn:Hs; [done|]. apply bool_decide_eq_false, dec_stable in Hs.
  destruct (negb _); [done|]. simpl in H. destruct (reviewable_probe_hash s) as [o|]; [|done].
  destruct (_ || _); [done|]. apply record_receipt_frame in H as [rs ->].
  apply simulated_quiet; [|exact Hm]. unfold pending_probe in Hp. destruct (st_pending s) as [q|] eqn:Eq; [|done].
  simpl in Hp. unfold probe_in_review in Hp. destruct (bool_decide (pend_origin q = OperatorProbe)) eqn:E1; [|done].
  destruct (bool_decide (pend_phase q = Review)) eqn:E2; [|done]. apply bool_decide_eq_true in E1, E2.
  injection Hp as <-. project. rewrite Eq, Hs. cbn. unfold open_view. rewrite E1, E2, length_app, Nat.add_1_r.
  destruct Hm as (-> & _). apply step_probe_reviewed.
Qed.

Lemma organic_armed_simulated a r s l s' : counters_match s l →
  apply_organic_armed a r s = (s', Ok tt) → simulated s l None s'.
Proof.
  intros Hm H. unfold apply_organic_armed in H. run H. destruct (require_campaign _ _); [|done].
  destruct (bool_decide (st_stage s ≠ OrganicReady)) eqn:Hs; [done|]. apply bool_decide_eq_false, dec_stable in Hs.
  destruct (_ || _); [done|]. destruct (organic_evidence_bundle_hash _); [|done]. case_decide; [done|].
  apply record_receipt_frame in H as [rs ->]. apply simulated_quiet; [|exact Hm].
  project. rewrite Hs. apply step_arm_organic.
Qed.

(** Closing for observation, whatever else the update touches. *)
Definition observed_stage (stage : CampaignStage) : CampaignStage :=
  if decide (stage = Closed) then Closed else ClosedObserving.
Lemma observe_step s l s' : st_stage s' = observed_stage (st_stage s) → st_pending s' = st_pending s →
  st_reviewed_probe_hashes s' = st_reviewed_probe_hashes s → campaign_step (view s l) None (view s' l).
Proof.
  unfold view. intros -> -> ->. unfold observed_stage. case_decide as Hc; [rewrite Hc; apply step_idle|].
  apply step_close; [done|by left].
Qed.

Lemma reconciliation_failed_simulated b s l s' : counters_match s l →
  apply_reconciliation_failed b s = (s', Ok tt) → simulated s l None s'.
Proof.
  intros Hm H. unfold apply_reconciliation_failed in H. run H. destruct (_ || any_open _).
  - apply simulated_quiet; [|destruct b; injection H as <-; unfold observe; case_decide; exact Hm].
    destruct b; injection H as <-; apply observe_step; unfold observe, observed_stage; project; by case_decide.
  - apply simulated_quiet; [|destruct b; injection H as <-; exact Hm].
    destruct b; injection H as <-; apply step_idle.
Qed.

Lemma recovery_simulated reason s l s' : counters_match s l →
  apply_recovery_required reason s = (s', Ok tt) → simulated s l None s'.
Proof.
  intros Hm [= <-]. apply simulated_quiet; [|unfold observe; case_decide; exact Hm].
  apply observe_step; unfold observe, observed_stage; project; by case_decide.
Qed.

Lemma in_flight_simulated i h b s l s' : counters_match s l →
  apply_post_in_flight i h b s = (s', Ok tt) → simulated s l None s'.
Proof.
  intros Hm H. unfold apply_post_in_flight, pending_mut in H. run H.
  destruct (st_pending s) as [p|] eqn:Hp; [|done]. case_decide; [|done].
  destruct (bool_decide (pend_phase p ≠ Reserved)) eqn:Hph; [done|]. apply bool_decide_eq_false, dec_stable in Hph.
  destruct (_ || _); [done|]. injection H as <-. apply simulated_quiet; [|exact Hm].
  project. rewrite Hp. unfold open_view. simpl. rewrite Hph. apply step_post.
Qed.

Lemma closed_no_pending s l : campaign_inv (view s l) → st_stage s = Closed → st_pending s = None.
Proof.
  intros (_ & _ & _ & _ & _ & _ & _ & Hi) Hs. simpl in Hi. rewrite Hs in Hi. by destruct (st_pending s).
Qed.

Lemma returned_simulated i ok d id s l s' : counters_match s l → campaign_inv (view s l) →
  apply_post_returned i ok d id s = (s', Ok tt) → simulated s l None s'.
Proof.
  intros Hm Hi H. unfold apply_post_returned, pending_mut in H. run H.
  destruct (st_pending s) as [p|] eqn:Hp; [|done]. case_decide; [|done]. case_decide; [done|].
  set (q := if is_blank id then p else _) in H. assert (open_view q = open_view p) as Hq by (unfold q; by destruct (is_blank id)).
  destruct (_ && _ && _); [done|]. assert (st_stage s ≠ Closed) as Hnc.
  { intros Hc. by rewrite (closed_no_pending s l Hi Hc) in Hp. }
  destruct (negb ok); injection H as <-; apply simulated_quiet; try exact Hm; project; rewrite Hp.
  - unfold open_view in *. simpl. injection Hq as -> -> ->. apply step_close; [done|by left].
  - unfold open_view in *. simpl. injection Hq as -> -> ->. apply step_idle.
Qed.

Lemma campaign_closed_simulated s l s' : counters_match s l →
  apply_campaign_closed s = (s', Ok tt) → simulated s l None s'.
Proof.
  intros Hm H. unfold apply_campaign_closed in H. run H.
  destruct (bool_decide (st_stage s ≠ ClosedObserving)) eqn:Hs; [done|]. apply bool_decide_eq_false, dec_stable in Hs.
  destruct (bool_decide (st_pending s ≠ None)) eqn:Hp; [done|]. apply bool_decide_eq_false, dec_stable in Hp.
  simpl in H. destruct (any_open s); [done|]. injection H as <-. apply simulated_quiet; [|exact Hm].
  project. rewrite Hs, Hp. apply step_finish.
Qed.

Lemma admission_closed_simulated reason r s l s' : counters_match s l → campaign_inv (view s l) →
  apply_admission_closed reason r s = (s', Ok tt) → simulated s l None s'.
Proof.
  intros Hm Hi H. unfold apply_admission_closed in H. run H. apply record_optional_frame in H as [rs ->].
  apply simulated_quiet; [|unfold observe; repeat case_match; exact Hm].
  destruct (st_pending s) as [p|] eqn:Hp.
  - assert (st_stage s ≠ Closed) as Hnc by (intros Hc; by rewrite (closed_no_pending s l Hi Hc) in Hp).
    unfold observe. rewrite decide_False by done.
    destruct (_ || _); project; rewrite Hp; project; (case_decide as Hr; project; rewrite ?Hp);
      (apply step_close; [done|]); try (by left); right;
      exists (pend_origin p), (atomic (pend_worst_case_debit p)); rewrite <- Hr; done.
  - apply observe_step; unfold observe, observed_stage; project; rewrite ?Hp;
      (destruct (decide _); destruct (_ || _); project; rewrite ?Hp; done).
Qed.

Lemma take_slot_Ok o s s1 : take_slot o s = (s1, Ok tt) →
  st_stage s = armed_stage o
  ∧ match o with
    | OperatorProbe => s1 = s <| st_probe_posts := st_probe_posts s + 1 |> ∧ st_probe_posts s < PROBE_POST_LIMIT
    | Organic => s1 = s <| st_organic_posts := st_organic_posts s + 1 |> ∧ st_organic_posts s < ORGANIC_POST_LIMIT
    end.
Proof.
  unfold take_slot. intros H. run H. destruct o; simpl;
    (destruct (bool_decide _) eqn:Hs; [|done]); apply bool_decide_eq_true in Hs;
    (destruct (_ <? _) eqn:Hl; [|done]); injection H as <-; apply Z.ltb_lt in Hl; done.
Qed.

Lemma reserved_simulated a b r s l s' : counters_match s l → campaign_inv (view s l) → is_u64 (atomic (pb_worst_case_debit b)) →
  apply_attempt_reserved a b r s = (s', Ok tt) →
  simulated s l (Some (adm_origin a, atomic (pb_worst_case_debit b))) s'.
Proof.
  intros (Hp & Ho & Hc & Ha & Hf) (_ & _ & Hpos & _) Hd H. unfold apply_attempt_reserved in H. run H.
  destruct (bool_decide (st_pending s ≠ None)) eqn:Hn; [done|]. apply bool_decide_eq_false, dec_stable in Hn.
  destruct (is_blank _); [done|]. destruct (bool_decide (_ = amount_ZERO)) eqn:Hz; [done|].
  apply bool_decide_eq_false in Hz. simpl in H.
  destruct (take_slot (adm_origin a) s) as [s1 [[]|]] eqn:Ht; [|done]. apply take_slot_Ok in Ht as [Hs Ht].
  destruct (collateral_checked_add _ _) as [committed|] eqn:Hadd; [|done].
  apply amount_checked_add_Ok in Hadd as [-> Hadd]. simpl in H.
  destruct (amount_ltb _ _) eqn:Hle; [done|]. unfold amount_ltb in Hle. apply Z.ltb_ge in Hle.
  destruct (collateral_checked_sub _ _); [|done]. apply record_receipt_frame in H as [rs ->].
  set (d := atomic (pb_worst_case_debit b)) in *.
  assert (0 < d) as Hd0.
  { destruct Hd as [Hd _]. assert (d ≠ 0); [|lia]. intros E. apply Hz. unfold d in E.
    destruct (pb_worst_case_debit b). simpl in E. by subst. }
  assert (st_committed_debit s1 = st_committed_debit s ∧ st_attempts s1 = st_attempts s
          ∧ st_reviewed_probe_hashes s1 = st_reviewed_probe_hashes s ∧ st_stage s1 = st_stage s
          ∧ st_probe_posts s1 = slots_used OperatorProbe (l ++ [(adm_origin a, d)])
          ∧ st_organic_posts s1 = slots_used Organic (l ++ [(adm_origin a, d)])) as (E1 & E2 & E3 & E4 & E5 & E6).
  { rewrite !slots_used_snoc, <- Hp, <- Ho.
    destruct (adm_origin a), Ht as [-> _]; project; repeat case_decide; try done; split_and!; done || lia. }
  rewrite E1 in *. cbn [atomic CAMPAIGN_MAX_COMMITMENT] in Hle. rewrite Hc in Hle. split.
  - project. rewrite E3, E4, Hn, Hs. apply step_reserve; [done| |done].
    destruct (adm_origin a), Ht as [_ Ht]; simpl; congruence.
  - unfold counters_match. project. rewrite E2, fmap_app, Ha, fmap_app, sum_with_app.
    split_and!; [done|done|simpl; lia|done|]. apply Forall_app. split; [done|]. constructor; [|done].
    assert (0 ≤ sum_with snd l) by (apply sum_with_nonneg; eapply Forall_impl; [exact Hpos|]; simpl; lia).
    simpl. fold d. lia.
Qed.

(** *** Reconciliations *)
Lemma release_settled_origin p c a : att_origin (release_settled p c a) = att_origin a.
Proof. unfold release_settled. by case_match. Qed.
Lemma release_settled_debit p c a :
  att_open_debit (release_settled p c a) = att_open_debit a ∨ att_open_debit (release_settled p c a) = amount_ZERO.
Proof. unfold release_settled. case_match; auto. Qed.

Lemma update_first_Some {A} p (f : A → A) l l' : update_first p f l = Some l' →
  ∃ l1 a l2, l = l1 ++ a :: l2 ∧ p a = true ∧ l' = l1 ++ f a :: l2 ∧ Forall (λ b, p b = false) l1.
Proof.
  revert l'. induction l as [|a l IH]; intros l' H; simpl in H; [done|]. destruct (p a) eqn:E.
  - injection H as <-. by exists [], a, l.
  - apply fmap_Some in H as (l1 & H & ->). destruct (IH _ H) as (x & b & y & -> & ? & -> & ?).
    exists (a :: x), b, y. repeat split; [done|]. by constructor.
Qed.

Lemma try_fold_amounts field l a0 a : try_fold (amount_checked_add field) a0 l = Ok a → 0 ≤ atomic a0 →
  atomic a = atomic a0 + sum_with atomic l ∧ 0 ≤ atomic a.
Proof.
  revert a0. induction l as [|x l IH]; intros a0 H Ha; simpl in H.
  - injection H as <-. simpl. lia.
  - apply result_bind_Ok in H as (a1 & H1 & H). apply amount_checked_add_Ok in H1 as [-> H1].
    apply IH in H; simpl in *; lia.
Qed.
Lemma sum_amounts_Ok field l a : sum_amounts field l = Ok a → atomic a = sum_with atomic l ∧ 0 ≤ atomic a.
Proof. unfold sum_amounts. intros H%map_err_Ok. by apply try_fold_amounts in H. Qed.

(** What an accepted execution report says: its totals are the sums of its fills, it
    charges no fee and no more than the reserved debit, and it is all or nothing. *)
Lemma validate_report_Ok p r : validate_report p r = Ok tt →
  atomic (rep_filled_collateral r) = sum_with (atomic ∘ fill_collateral_debit) (rep_fills r)
  ∧ atomic (rep_filled_shares r) = sum_with (atomic ∘ fill_shares) (rep_fills r)
  ∧ 0 ≤ atomic (rep_filled_collateral r) ≤ atomic (pend_worst_case_debit p)
  ∧ rep_fees r = amount_ZERO ∧ rep_venue_order_id r = pend_venue_order_id p
  ∧ (rep_filled_shares r = pend_requested_shares p
     ∨ rep_filled_shares r = amount_ZERO ∧ rep_filled_collateral r = amount_ZERO)
  ∧ (pend_phase p = Reserved ∨ pend_post_success p = Some false → rep_fills r = [] ∧ rep_filled_collateral r = amount_ZERO)
  ∧ (pend_post_success p = Some true → rep_filled_shares r = pend_requested_shares p ∧ rep_fills r ≠ []).
Proof.
  unfold validate_report. intros H. apply result_bind_Ok in H as (fc & Hfc & H).
  apply result_bind_Ok in H as (fs & Hfs & H). apply result_bind_Ok in H as (ff & _ & H).
  apply sum_amounts_Ok in Hfc as [Hfc Hfc0], Hfs as [Hfs _].
  destruct (_ || _) eqn:E in H; [done|]. clear H. autorewrite with rust in E. destruct_and!.
  repeat match goal with Hn : ¬ (_ ≠ _) |- _ => apply dec_stable in Hn end.
  unfold amount_ltb in *. rust. subst. rewrite !sum_with_fmap in *.
  assert (rep_filled_shares r = amount_ZERO → rep_filled_collateral r = amount_ZERO) as Hz.
  { intros Hz. destruct (decide (rep_filled_collateral r = amount_ZERO)); naive_solver. }
  match goal with Hc : rep_requested_collateral r = _ |- _ => rewrite Hc in * end.
  match goal with Hs : rep_requested_shares r = _ |- _ => rewrite Hs in * end.
  split_and!; [done|done|done|done|done|done|naive_solver|naive_solver|naive_solver].
Qed.

Definition adopted (snapshot : CanaryReconciliation) (bankroll : CollateralAmount) (s : CanaryCampaignState) :
    CanaryCampaignState :=
  (adopt snapshot s) <| st_canary_bankroll := bankroll |>.
Definition pending_debit (s : CanaryCampaignState) : Z :=
  match st_pending s with Some p => atomic (pend_worst_case_debit p) | None => 0 end.

Lemma adopt_snapshot_Ok snapshot s s' : adopt_snapshot snapshot s = (s', Ok tt) →
  ∃ b, s' = adopted snapshot b s ∧ atomic b = atomic (rec_free_collateral snapshot) - pending_debit s.
Proof.
  unfold adopt_snapshot, pending_debit. intros H.
  apply stm_bind_Ok in H as ([] & s1 & H1 & H). apply stm_bind_Ok in H as (s2 & s3 & H2 & H).
  injection H1 as <-. injection H2 as <- <-. apply stm_bind_Ok in H as (b & s4 & H3 & H). injection H as <-.
  assert (st_pending (adopt snapshot s) = st_pending s) as Hp by reflexivity. rewrite Hp in H3.
  injection H3 as <- H3. exists b. split; [reflexivity|]. destruct (st_pending s) as [p|].
  - by apply map_err_Ok, amount_checked_sub_Ok in H3 as [-> _].
  - injection H3 as <-. lia.
Qed.

Lemma adopted_counters snapshot b s l : counters_match s l → counters_match (adopted snapshot b s) l.
Proof.
  intros (H1 & H2 & H3 & H4 & H5). unfold adopted, adopt, counters_match. project. split_and!; try done.
  - rewrite <- H4, <- list_fmap_compose. apply list_fmap_ext. intros. apply release_settled_origin.
  - apply Forall_fmap. eapply Forall_impl; [exact H5|]. intros a Ha. unfold compose.
    by destruct (release_settled_debit (previous_positions s) (rec_positions snapshot) a) as [-> | ->].
Qed.

Definition settled (snapshot : CanaryReconciliation) (report : ExactExecutionReport)
    (attempts : list CampaignAttemptRecord) (s : CanaryCampaignState) : CanaryCampaignState :=
  s <| st_canary_bankroll := rec_free_collateral snapshot |> <| st_attempts := attempts |>
    <| st_known_trade_ids := foldl learn_trade (st_known_trade_ids s) (rep_fills report) |>.
Lemma settle_pending_Ok snapshot p r s s' : settle_pending snapshot p r s = (s', Ok tt) →
  validate_report p r = Ok tt ∧ ∃ attempts,
    update_first (identified (pend_identity p)) (λ a, a <| att_open_debit := rep_filled_collateral r |>)
      (st_attempts s) = Some attempts
    ∧ s' = retire_pending p (settled snapshot r attempts s).
Proof.
  unfold settle_pending. intros H. run H. destruct (validate_report p r) as [[]|] eqn:Hv; [|done].
  revert H. project. intros H. destruct (update_first _ _ _) as [attempts|] eqn:Hu; [|done].
  injection H as <-. split; [done|]. exists attempts. by split.
Qed.

Lemma settled_counters snapshot p r attempts s l : counters_match s l → validate_report p r = Ok tt →
  atomic (pend_worst_case_debit p) ≤ atomic CAMPAIGN_MAX_COMMITMENT →
  update_first (identified (pend_identity p)) (λ a, a <| att_open_debit := rep_filled_collateral r |>)
    (st_attempts s) = Some attempts →
  counters_match (settled snapshot r attempts s) l.
Proof.
  intros (H1 & H2 & H3 & H4 & H5) (_ & _ & Hf & _)%validate_report_Ok Hd
    (l1 & a & l2 & Hl & _ & -> & _)%update_first_Some.
  unfold settled, counters_match. project. rewrite Hl in H4, H5. split_and!; try done.
  - rewrite <- H4, !fmap_app. done.
  - apply Forall_app in H5 as [F1 F2]. inversion F2. apply Forall_app. split; [done|]. constructor; [|done].
    cbn [field_set att_open_debit]. lia.
Qed.

Lemma retire_counters p s l : counters_match s l → counters_match (retire_pending p s) l.
Proof. unfold retire_pending. repeat case_match; done. Qed.
Lemma retire_step p s l s0 : st_pending s = Some p → pend_phase p ≠ Review → counters_match s l →
  view s l = view s0 l → campaign_step (view s0 l) None (view (retire_pending p s) l).
Proof.
  intros Hp Hph (_ & Ho & _) <-. unfold retire_pending. case_decide as Hs.
  - destruct (pend_origin p) eqn:E.
    + project. rewrite Hp. unfold open_view. simpl. rewrite E. by apply step_probe_settled.
    + replace (view s l) with {| c_stage := st_stage s; c_reserved := l;
        c_open := Some (Organic, atomic (pend_worst_case_debit p), pend_phase p);
        c_reviewed := length (st_reviewed_probe_hashes s) |}
        by (unfold view, open_view; rewrite Hp; simpl; by rewrite E).
      pose proof (step_organic_settled (st_stage s) (atomic (pend_worst_case_debit p)) (pend_phase p) l
        (length (st_reviewed_probe_hashes s)) Hs Hph) as Hstep. rewrite <- Ho in Hstep.
      destruct (_ <? _); exact Hstep.
  - project. rewrite Hp, Hs. unfold open_view. simpl. by apply step_observed_settled.
Qed.

Definition flagged (explained : bool) (s : CanaryCampaignState) : CanaryCampaignState :=
  s <| st_reconciliation_failed := negb explained |> <| st_recovery_unresolved := negb explained |>.
Definition designated (final explained : bool) (s : CanaryCampaignState) : CanaryCampaignState :=
  if final then s <| st_shutdown_reconciliation_designated := true |>
                  <| st_shutdown_reconciliation_succeeded := explained |>
  else s.
(** The state an accepted reconciliation leaves, before its receipt. *)
Definition reconciled_as (snapshot : CanaryReconciliation) (final : bool) (s t : CanaryCampaignState) : Prop :=
  let explained := authoritative s snapshot in
  if explained then
    ∃ b, atomic b = atomic (rec_free_collateral snapshot) - pending_debit s
    ∧ let s1 := designated final true (adopted snapshot b (flagged true s)) in
      (t = s1 ∧ (∀ p r, st_pending s = Some p → rec_execution_report snapshot = Some r → pend_phase p = Review))
      ∨ ∃ p r attempts, st_pending s = Some p ∧ rec_execution_report snapshot = Some r ∧ pend_phase p ≠ Review
        ∧ validate_report p r = Ok tt
        ∧ update_first (identified (pend_identity p)) (λ a, a <| att_open_debit := rep_filled_collateral r |>)
            (st_attempts s1) = Some attempts
        ∧ t = retire_pending p (settled snapshot r attempts s1)
  else t = designated final false (flagged false s).

Lemma apply_reconciliation_Ok snapshot r final s s' : apply_reconciliation snapshot r final s = (s', Ok tt) →
  ∃ t rs, reconciled_as snapshot final s t ∧ s' = t <| st_command_receipts := rs |>.
Proof.
  unfold apply_reconciliation, reconciled_as. intros H. apply stm_bind_Ok in H as (? & ? & [= <- <-] & H).
  apply stm_bind_Ok in H as ([] & s1 & H1 & H). injection H1 as <-. fold (flagged (authoritative s snapshot) s) in H.
  apply stm_bind_Ok in H as ([] & s2 & H2 & H). apply stm_bind_Ok in H as ([] & s3 & H3 & H).
  apply stm_bind_Ok in H as (? & ? & [= <- <-] & H). apply stm_bind_Ok in H as ([] & s4 & H4 & H).
  apply record_optional_frame in H as [rs ->]. exists s4, rs. split; [|done].
  assert (s3 = designated final (authoritative s snapshot) s2) as -> by (by destruct final; injection H3 as <-).
  clear H3. destruct (authoritative s snapshot).
  - apply adopt_snapshot_Ok in H2 as (b & -> & Hb). exists b. split; [exact Hb|].
    set (s1 := designated final true _) in *. assert (st_pending s1 = st_pending s) as Hp by (unfold s1; by destruct final).
    rewrite Hp in H4. destruct (st_pending s) as [p|]; [|injection H4 as <-; left; by split].
    destruct (rec_execution_report snapshot) as [rep|]; [|injection H4 as <-; left; by split].
    destruct (bool_decide (pend_phase p ≠ Review)) eqn:Hph; simpl in H4.
    + right. apply settle_pending_Ok in H4 as (Hv & attempts & Hu & ->). apply bool_decide_eq_true in Hph.
      exists p, rep, attempts. done.
    + left. injection H4 as <-. split; [done|]. intros p' r' [= <-] _. by apply bool_decide_eq_false, dec_stable in Hph.
  - injection H2 as <-. destruct (st_pending _); [destruct (rec_execution_report _)|]; by injection H4 as <-.
Qed.

Lemma designated_frame final b s l : view (designated final b s) l = view s l
  ∧ (counters_match s l → counters_match (designated final b s) l) ∧ st_pending (designated final b s) = st_pending s.
Proof. by destruct final. Qed.

Lemma reconciliation_simulated snapshot r final s l s' : counters_match s l → campaign_inv (view s l) →
  apply_reconciliation snapshot r final s = (s', Ok tt) → simulated s l None s'.
Proof.
  intros Hm Hi (t & rs & Ht & ->)%apply_reconciliation_Ok.
  cut (campaign_step (view s l) None (view t l) ∧ counters_match t l).
  { intros [H1 H2]. by apply simulated_quiet. }
  clear rs. unfold reconciled_as in Ht. destruct (authoritative s snapshot).
  - destruct Ht as (b & _ & Ht). set (s1 := designated final true _) in *.
    assert (view s1 l = view s l ∧ counters_match s1 l ∧ st_pending s1 = st_pending s) as (Hv1 & Hm1 & Hp1).
    { unfold s1. destruct (designated_frame final true (adopted snapshot b (flagged true s)) l) as (-> & Hc & ->).
      split_and!; [done| |done]. apply Hc, adopted_counters. exact Hm. }
    destruct Ht as [[-> _]|(p & rep & attempts & Hp & _ & Hph & Hv & Hu & ->)].
    { split; [|done]. rewrite Hv1. apply step_idle. }
    assert (atomic (pend_worst_case_debit p) ≤ atomic CAMPAIGN_MAX_COMMITMENT) as Hd.
    { destruct Hi as (_ & _ & Hpos & Hs & _ & _ & Hl & _). simpl in *.
      destruct (Hl (pend_origin p) (atomic (pend_worst_case_debit p)) (pend_phase p)) as [Hlast _]; [by rewrite Hp|].
      apply last_Some in Hlast as [l' ->]. rewrite sum_with_app in Hs. apply Forall_app in Hpos as [Hpos _].
      assert (0 ≤ sum_with snd l') by (apply sum_with_nonneg; eapply Forall_impl; [exact Hpos|]; simpl; lia).
      simpl in Hs. lia. }
    assert (counters_match (settled snapshot rep attempts s1) l) as Hm2 by (by eapply settled_counters).
    split; [|by apply retire_counters].
    apply retire_step; [by rewrite <- Hp, <- Hp1|done|done|]. by rewrite <- Hv1.
  - subst t. destruct (designated_frame final false (flagged false s) l) as (-> & Hc & _).
    split; [apply step_idle|by apply Hc].
Qed.

(** *** The simulation *)
Lemma receipt_simulated r s l s' : counters_match s l → record_receipt r s = (s', Ok tt) → simulated s l None s'.
Proof.
  intros Hm [rs ->]%record_receipt_frame. apply simulated_quiet; [apply step_idle|exact Hm].
Qed.
Lemma apply_simulated e s l s' : counters_match s l → campaign_inv (view s l) → event_wf e →
  apply e s = (s', Ok tt) → simulated s l (reservation e) s'.
Proof.
  intros Hm Hi Hw H. destruct e; simpl in *;
    eauto using armed_simulated, review_simulated, organic_armed_simulated, receipt_simulated,
      in_flight_simulated, reconciliation_simulated, reconciliation_failed_simulated, returned_simulated,
      admission_closed_simulated, recovery_simulated, campaign_closed_simulated.
  - eapply reserved_simulated; eauto.
  - injection H as <-. apply simulated_quiet; [apply step_idle|done].
  - injection H as <-. apply simulated_quiet; [apply step_idle|done].
  - injection H as <-. apply simulated_quiet; [apply step_idle|done].
Qed.

Lemma apply_result_Ok s e s' : apply_result s e = Ok s' ↔ apply e s = (s', Ok tt).
Proof. unfold apply_result. destruct (apply e s) as [t [[]|]]; naive_solver. Qed.

Lemma initial_counters : counters_match CanaryCampaignState_default [].
Proof. by repeat split. Qed.

Lemma reservations_app ev1 ev2 : reservations (ev1 ++ ev2) = reservations ev1 ++ reservations ev2.
Proof. apply bind_app. Qed.

(** From a state that refines a campaign, a run of events is a run of the campaign. *)
Lemma events_run events : ∀ s l s', counters_match s l → campaign_inv (view s l) → Forall event_wf events →
  try_fold apply_result s events = Ok s' →
  campaign_run (view s l) (reservations events) (view s' (l ++ reservations events))
  ∧ counters_match s' (l ++ reservations events) ∧ campaign_inv (view s' (l ++ reservations events)).
Proof.
  induction events as [|e events IH]; intros s l s' Hm Hi Hw H; simpl in H.
  - injection H as <-. change (reservations []) with (@nil (CanaryOrigin * Z)). rewrite app_nil_r. split; [constructor|done].
  - apply result_bind_Ok in H as (s1 & H1%apply_result_Ok & H). apply Forall_cons in Hw as [Hw1 Hw].
    destruct (apply_simulated e s l s1 Hm Hi Hw1 H1) as [Hstep Hm1].
    pose proof (campaign_step_inv _ _ _ Hstep Hi) as Hi1.
    destruct (IH s1 _ s' Hm1 Hi1 Hw H) as (Hrun & Hm2 & Hi2).
    change (reservations (e :: events)) with (option_list (reservation e) ++ reservations events).
    rewrite (assoc_L (++)). split; [|done]. econstructor; [exact Hstep|exact Hrun].
Qed.

Lemma replay_run events s : replay events = Ok s → Forall event_wf events →
  campaign_run initial_campaign (reservations events) (view s (reservations events))
  ∧ counters_match s (reservations events) ∧ campaign_inv (view s (reservations events)).
Proof. intros H Hw. apply (events_run events CanaryCampaignState_default [] s initial_counters initial_campaign_inv Hw H). Qed.

(** C5: The campaign reducer implements the abstract campaign: any journal that
    replays is, event for event, a run of the abstract machine from its initial
    state that makes exactly the reservations of the journal, and the state's slot
    counters, committed debit and attempts are those of the machine. *)
Theorem reducer_refines_campaign events s :
  Forall event_wf events → replay events = Ok s →
  campaign_run initial_campaign (reservations events) (view s (reservations events))
  ∧ counters_match s (reservations events).
Proof. intros Hw H. destruct (replay_run events s H Hw) as (? & ? & _). done. Qed.

(** What a campaign can spend: in any journal that replays, at most three probes
    and five organic orders were ever reserved, their worst-case debits are
    positive and sum to the recorded commitment, which is at most eight dollars;
    an organic order is reserved only after three probes were reviewed; and at most
    one attempt is open, the last one reserved. *)
Theorem campaign_spend_bounded events s :
  Forall event_wf events → replay events = Ok s →
  let l := reservations events in
  slots_used OperatorProbe l ≤ 3 ∧ slots_used Organic l ≤ 5 ∧ (length l ≤ 8)%nat
  ∧ Z.of_nat (length (st_attempts s)) = st_probe_posts s + st_organic_posts s
  ∧ Forall (λ r, 0 < r.2) l
  ∧ sum_with snd l = atomic (st_committed_debit s) ∧ atomic (st_committed_debit s) ≤ 8000000
  ∧ (0 < slots_used Organic l → length (st_reviewed_probe_hashes s) = 3%nat)
  ∧ (∀ p, st_pending s = Some p → last l = Some (pend_origin p, atomic (pend_worst_case_debit p))).
Proof.
  intros Hw H l. destruct (replay_run events s H Hw) as (_ & (H1 & H2 & H3 & H4 & _) & Hp & Ho & Hd & Hs & _ & Hor & Hl & _).
  fold l in H1, H2, H3, H4, Hp, Ho, Hd, Hs, Hor, Hl. simpl in *. unfold PROBE_POST_LIMIT, ORGANIC_POST_LIMIT in *.
  pose proof (slots_used_total l) as Ht. apply (f_equal length) in H4. rewrite !length_fmap in H4.
  split_and!; try lia; try done. intros p Hpend. destruct (Hl (pend_origin p) (atomic (pend_worst_case_debit p)) (pend_phase p)); [|done].
  by rewrite Hpend.
Qed.

Lemma closed_run c l c' : campaign_run c l c' → campaign_inv c → closed_stage (c_stage c) →
  l = [] ∧ closed_stage (c_stage c').
Proof.
  induction 1 as [c|c o c' l c'' Hs Hr IH]; intros Hi Hc; [done|].
  destruct (campaign_closed_step _ _ _ Hs Hi Hc) as (-> & Hc' & _).
  destruct (IH (campaign_step_inv _ _ _ Hs Hi) Hc') as [-> ?]. done.
Qed.

(** Closing a campaign is final: whatever events follow the closure, no further
    attempt is reserved, the slot counters and the committed debit are frozen, and
    the campaign stays closed. *)
Theorem closed_campaign_final before after s1 s2 :
  Forall event_wf (before ++ after) → replay before = Ok s1 → closed_stage (st_stage s1) →
  replay (before ++ after) = Ok s2 →
  closed_stage (st_stage s2) ∧ reservations after = [] ∧ st_committed_debit s2 = st_committed_debit s1
  ∧ st_probe_posts s2 = st_probe_posts s1 ∧ st_organic_posts s2 = st_organic_posts s1.
Proof.
  intros [Hw1 Hw2]%Forall_app H1 Hc H2. destruct (replay_run before s1 H1 Hw1) as (_ & Hm1 & Hi1).
  unfold replay in H1, H2. rewrite try_fold_app, H1 in H2. simpl in H2.
  destruct (events_run after s1 _ s2 Hm1 Hi1 Hw2 H2) as (Hrun & Hm2 & _).
  destruct (closed_run _ _ _ Hrun Hi1 Hc) as [E Hc2]. rewrite E, app_nil_r in Hm2.
  destruct Hm1 as (P1 & O1 & D1 & _), Hm2 as (P2 & O2 & D2 & _). split_and!; try congruence; [done|].
  destruct (st_committed_debit s1), (st_committed_debit s2). simpl in *. congruence.
Qed.








End Refinement.

(** ** A campaign that runs

    One probe armed, reserved, posted, filled, reviewed and the campaign closed,
    over stand-in encoders. *)
Module SampleCampaign.

Definition text (l : list string) : result string (list Z) :=
  Ok (l ≫= λ s, string_bytes s ++ [0]).
#[export] Instance vec_authorization : ToVec (@CampaignAuthorization ZTime) :=
  λ a, text [ca_campaign_id a; ca_implementation_commit a; ca_wallet a].
#[export] Instance vec_hashes : ToVec (list string) := text.
#[export] Instance vec_review : ToVec (string * string * string * option VenueOrderId * option bool
    * option ExactExecutionReport * list string) :=
  λ '(i, o, b, _, _, _, h), text (i :: o :: b :: h).

Definition condition : PolymarketConditionId := {| condition_id_str := "0xcondition" |}.
Definition token : PolymarketTokenId := {| token_id_str := "7" |}.
Definition yes : OutcomeId := {| outcome_index := 0 |}.
Definition half : @Price QDecimal := @Build_Price QDecimal (1 # 2)%Q.
Definition cent : @Price QDecimal := @Build_Price QDecimal (1 # 100)%Q.
Definition receipt (n : string) : CommandReceipt := {| command_id := n; command_hash := "h" +:+ n |}.
Definition start : Z := 1700000000 * 1000000000.
Definition at_second (n : Z) : @OffsetDateTime ZTime := start + n * 1000000000.

Definition authorization : @CampaignAuthorization ZTime := {|
  ca_schema_version := 1; ca_campaign_id := "campaign"; ca_implementation_commit := "commit";
  ca_binary_hash := "bin"; ca_config_hash := "cfg"; ca_resolver_inventory_hash := "inv";
  ca_sdk_archive_sha256 := "sdk"; ca_sdk_effective_vendor_tree_sha256 := "tree"; ca_wallet := "0xwallet";
  ca_owner_signer := "0xowner"; ca_spender := "0xspender"; ca_jurisdiction := "XX";
  ca_jurisdiction_attestation_hash := "ja"; ca_account_attestation_hash := "aa"; ca_issued_at := at_second 0;
  ca_expires_at := at_second 3600; ca_starting_collateral := CAMPAIGN_START_COLLATERAL;
  ca_allowance := from_atomic 8000000; ca_commitment_cap := CAMPAIGN_MAX_COMMITMENT; ca_probe_slots := 3;
  ca_organic_slots := 5
|}.
Definition attribution : AttemptAttribution :=
  {| attr_leader := None; attr_condition_id := condition; attr_outcome_id := yes; attr_family := Weather |}.
Definition risk : CanaryRiskSnapshot := {|
  cr_origin := OperatorProbe; cr_proposed_worst_case_debit := from_atomic 500000;
  cr_canary_bankroll := CAMPAIGN_START_COLLATERAL; cr_leader_exposure_bps := None;
  cr_market_exposure_bps := {| bps := 0 |}; cr_family_exposure_bps := {| bps := 0 |};
  cr_total_copy_exposure_bps := {| bps := 0 |}; cr_open_exposure_bps := {| bps := 0 |};
  cr_resolver_tradable := true; cr_account_state_fresh := true; cr_venue_reconciliation_fresh := true;
  cr_geoblock_fresh := true; cr_geoblocked := false; cr_closed_only_fresh := true; cr_closed_only := false;
  cr_jurisdiction_attestation_valid := true; cr_pending_reservation := false; cr_allowance := from_atomic 8000000;
  cr_standard_spender_only := true
|}.
Definition quote : @CanaryQuote ZTime QDecimal := @Build_CanaryQuote ZTime QDecimal
  OperatorProbe "probe-1" "raw" 1700000010000 condition yes token "ladder" half half half None cent
  (@Build_Price QDecimal (99 # 100)%Q) cent (from_atomic 1000000) (from_atomic 1000000) (from_atomic 500000)
  ["m"] (at_second 60).
Definition prepared : @PreparedPolymarketBuy QDecimal := @Build_PreparedPolymarketBuy QDecimal
  condition yes token "0xwallet" "0xwallet" "0xwallet" "0xspender" "0xspender" 2 false "BUY" "salt" 0 "0"
  (from_atomic 500000) (from_atomic 1000000) half cent 0 "FOK" false false "" "" "order" "body" "1" "sdk" ["m"]
  (from_atomic 500000).
Definition admission (authority : option (@ProbeAuthorization ZTime QDecimal)) (request_hash : string) :
    @CanaryAdmission ZTime QDecimal := @Build_CanaryAdmission ZTime QDecimal
  "probe-1" "campaign" OperatorProbe request_hash "card" quote risk attribution authority None.

Definition report : ExactExecutionReport := {|
  rep_venue_order_id := Some {| venue_order_id := "v1" |}; rep_requested_collateral := from_atomic 500000;
  rep_requested_shares := from_atomic 1000000; rep_filled_collateral := from_atomic 480000;
  rep_filled_shares := from_atomic 1000000; rep_fees := amount_ZERO;
  rep_fills := [{| fill_trade_id := "t1"; fill_collateral_debit := from_atomic 480000;
                   fill_shares := from_atomic 1000000; fill_fee := amount_ZERO |}]
|}.
Definition snapshot (free allowance : Z) (positions : list CanaryPosition) (r : option ExactExecutionReport) :
    @CanaryReconciliation ZTime := {|
  rec_observed_at := at_second 10; rec_geoblocked := false; rec_closed_only := false;
  rec_free_collateral := from_atomic free; rec_allowance := from_atomic allowance; rec_standard_spender_only := true;
  rec_open_order_ids := []; rec_all_trade_ids := []; rec_position_count := Z.of_nat (length positions);
  rec_positions := positions; rec_resolutions := []; rec_unexpected_activity := false; rec_execution_report := r;
  rec_evidence_hashes := ["e"]
|}.
Definition position : CanaryPosition :=
  {| pos_condition_id := condition; pos_outcome_id := yes; pos_shares := from_atomic 1000000 |}.

Definition opening : list (@CanaryEvent ZTime QDecimal) :=
  [CampaignArmed authorization (receipt "1");
   ReconciliationRecorded "start" (snapshot 200000000 8000000 [] None) None false;
   AttemptReserved (admission None "request") prepared (receipt "2");
   PostInFlight "probe-1" "order" "body";
   PostReturned "probe-1" true true "v1" None].
Definition filled : list (@CanaryEvent ZTime QDecimal) :=
  opening ++ [ReconciliationRecorded "post" (snapshot 199520000 7520000 [position] (Some report)) None false].
Definition reached (events : list (@CanaryEvent ZTime QDecimal)) : @CanaryCampaignState ZTime :=
  result_or CanaryCampaignState_default (replay events).
Definition reviewed : list (@CanaryEvent ZTime QDecimal) :=
  filled ++ [ProbeReviewAccepted "campaign" 1
               (default EmptyString (result_or None (reviewable_probe_hash (reached filled)))) (receipt "3");
             AdmissionClosed Killed (Some (receipt "4"))].

Lemma replays events : is_ok (replay events) = true → replay events = Ok (reached events).
Proof. unfold reached. by destruct (replay events). Qed.
Lemma reviewed_replays : replay reviewed = Ok (reached reviewed).
Proof. apply replays. vm_cast_no_check (eq_refl true). Qed.
Lemma opening_replays : replay opening = Ok (reached opening).
Proof. apply replays. vm_cast_no_check (eq_refl true). Qed.
Lemma reviewed_wf : Forall event_wf reviewed.
Proof.
  unfold reviewed, filled, opening. cbn [app].
  repeat (apply Forall_cons; split; [intros o d Hr; try discriminate Hr; injection Hr as <- <-; by vm_compute|]).
  apply Forall_nil. done.
Qed.
End SampleCampaign.
#[export] Existing Instances SampleCampaign.vec_authorization SampleCampaign.vec_hashes SampleCampaign.vec_review.

Lemma reducer_refines_campaign_witness :
  campaign_run initial_campaign [(OperatorProbe, 500000)]
    (view (SampleCampaign.reached SampleCampaign.reviewed) [(OperatorProbe, 500000)]).
Proof.
  exact (proj1 (reducer_refines_campaign SampleCampaign.reviewed _ SampleCampaign.reviewed_wf
                  SampleCampaign.reviewed_replays)).
Defined.

Lemma campaign_spend_bounded_witness :
  sum_with snd (reservations SampleCampaign.reviewed) = 500000
  ∧ atomic (st_committed_debit (SampleCampaign.reached SampleCampaign.reviewed)) ≤ 8000000.
Proof.
  split; [reflexivity|].
  destruct (campaign_spend_bounded SampleCampaign.reviewed _ SampleCampaign.reviewed_wf
              SampleCampaign.reviewed_replays) as (_ & _ & _ & _ & _ & _ & H & _).
  exact H.
Defined.

Lemma closed_campaign_final_witness :
  closed_stage (st_stage (SampleCampaign.reached (SampleCampaign.reviewed ++ [RecoveryRequired VenueAmbiguous])))
  ∧ st_stage (SampleCampaign.reached SampleCampaign.reviewed) = ClosedObserving.
Proof.
  assert (st_stage (SampleCampaign.reached SampleCampaign.reviewed) = ClosedObserving) as Hc
    by vm_cast_no_check (eq_refl ClosedObserving).
  split; [|exact Hc].
  destruct (closed_campaign_final SampleCampaign.reviewed [RecoveryRequired VenueAmbiguous]
              (SampleCampaign.reached SampleCampaign.reviewed)
              (SampleCampaign.reached (SampleCampaign.reviewed ++ [RecoveryRequired VenueAmbiguous]))) as [H _].
  - apply Forall_app. split; [exact SampleCampaign.reviewed_wf|]. apply Forall_singleton. intros o d Hr. discriminate Hr.
  - exact SampleCampaign.reviewed_replays.
  - left. exact Hc.
  - apply SampleCampaign.replays. vm_cast_no_check (eq_refl true).
  - exact H.
Defined.

Module SampleFill.
Definition before : @CanaryCampaignState ZTime := SampleCampaign.reached SampleCampaign.opening.
Definition fill : @CanaryReconciliation ZTime :=
  SampleCampaign.snapshot 199520000 7520000 [SampleCampaign.position] (Some SampleCampaign.report).
Definition event : @CanaryEvent ZTime QDecimal := ReconciliationRecorded "post" fill None false.
Definition after : @CanaryCampaignState ZTime := (apply event before).1.
End SampleFill.

