(* ===== verification/CanaryAdmission.v ===== *)
(** * Admission of a canary order (crates/execution-core canary.rs)

    [CanaryAdmission::validate]: the proof obligations of one order against the
    campaign state, the prepared order, the clock and the latest reconciliation.
    Its decimal remainder and product panic as in the source. *)

From S2P Require Import Prelude CoreTypes Bytes SignalEngine RiskEngine WinnerFollow LogFrame CanaryTypes CanaryState.
#[local] Open Scope Z_scope.

Section Admission.
Context `{TO : TimeOps} `{DO : DecimalOps} {B3 : Blake3}.
Context {V3 : ToVec probe_payload} {V7 : ToVec OrganicDecisionProof}.

Definition option_price_eqb (a : option Price) (b : Price) : bool :=
  match a with Some a => price_eqb a b | None => false end.

(** Milliseconds of [now] as a [u64]. *)
Definition now_millis (now : OffsetDateTime) : option Z := fits 0 U64_MAX (Z.quot (unix_timestamp_nanos now) 1000000).

Definition exposure_or_error (amount bankroll : CollateralAmount) : result CanaryStateError BasisPoints :=
  ok_or (exposure_bps_ceil amount bankroll) Arithmetic.

Definition organic_matches (adm : CanaryAdmission) (proof : OrganicDecisionProof) (order : OrganicCanaryOrder) : bool :=
  let quote := adm_quote adm in
  bool_decide (idempotency_key (organic_intent order) = proof_idempotency_key proof)
  && bool_decide (market_to_string (intent_market_id (organic_intent order)) = condition_id_str (q_condition_id quote))
  && bool_decide (intent_outcome_id (organic_intent order) = q_outcome_id quote)
  && bool_decide (organic_shares order = q_shares quote)
  && price_eqb (organic_kelly_cost order) (q_origin_price_ceiling quote)
  && amount_leb (q_maximum_collateral quote) (organic_maximum_collateral order).

Definition organic_proof_valid (adm : CanaryAdmission) (s : CanaryCampaignState) : panicking CanaryStateError bool :=
  match adm_origin adm, adm_organic_decision_proof adm with
  | OperatorProbe, None => mret true
  | Organic, Some proof =>
      let quote := adm_quote adm in
      if bool_decide (result_ok (organic_decision_proof_hash proof) = Some (adm_neutral_request_hash adm))
         && bool_decide (proof_idempotency_key proof = adm_identity adm)
         && bool_decide (proof_evidence_hashes proof = q_metadata_hashes quote)
         && bool_decide (market_to_string (signal_market_id (proof_signal proof)) = condition_id_str (q_condition_id quote))
         && bool_decide (signal_outcome_id (proof_signal proof) = q_outcome_id quote)
         && bool_decide (attr_leader (adm_attribution adm)
                         = Some (wallet_to_string (trader_wallet (leader (proof_signal proof)))))
      then
        match organic_evaluate (proof_signal proof) (proof_probability proof) (st_canary_bankroll s)
                (q_minimum_tick_size quote) with
        | None => None
        | Some (Err _) => mret false
        | Some (Ok order) => mret (organic_matches adm proof order)
        end
      else mret false
  | _, _ => mret false
  end.

(** The disjuncts before the tick test, and those after it. *)
Definition quote_mismatch (adm : CanaryAdmission) (s : CanaryCampaignState) (prepared : PreparedPolymarketBuy)
    (now : OffsetDateTime) (now_ms : Z) (proof_valid : bool) : bool :=
  let quote := adm_quote adm in
  let attribution := adm_attribution adm in
  is_blank (adm_identity adm)
  || is_blank (adm_neutral_request_hash adm)
  || is_blank (adm_resolver_card_hash adm)
  || negb proof_valid
  || bool_decide (q_origin quote ≠ adm_origin adm)
  || bool_decide (q_request_identity quote ≠ adm_identity adm)
  || is_blank (q_snapshot_raw_hash quote)
  || is_blank (q_full_ask_ladder_hash quote)
  || bool_decide (q_metadata_hashes quote = [])
  || negb (odt_ltb now (q_expires_at quote))
  || match st_expires_at s with None => true | Some expires_at => negb (odt_ltb now expires_at) end
  || (now_ms <? q_snapshot_observed_at_ms quote)
  || (2000 <? now_ms - q_snapshot_observed_at_ms quote)
  || price_ltb (q_executable_ask quote) (q_best_ask quote)
  || price_ltb (q_origin_price_ceiling quote) (q_executable_ask quote)
  || match adm_origin adm with
     | OperatorProbe => bool_decide (is_Some (q_kelly_cost quote))
     | Organic => negb (option_price_eqb (q_kelly_cost quote) (q_origin_price_ceiling quote))
     end
  || price_ltb (q_executable_ask quote) (q_minimum_fill_price quote)
  || negb (price_ltb (q_executable_ask quote) (q_maximum_fill_price_exclusive quote))
  || amount_ltb (q_shares quote) (q_minimum_order_size quote)
  || bool_decide (q_condition_id quote ≠ pb_condition_id prepared)
  || bool_decide (q_outcome_id quote ≠ pb_outcome_id prepared)
  || bool_decide (q_token_id quote ≠ pb_token_id prepared)
  || bool_decide (q_shares quote ≠ pb_taker_shares prepared)
  || negb (price_eqb (q_executable_ask quote) (pb_limit_price prepared))
  || negb (price_eqb (q_minimum_tick_size quote) (pb_minimum_tick_size prepared))
  || bool_decide (q_maximum_collateral quote ≠ pb_worst_case_debit prepared)
  || bool_decide (q_maximum_collateral quote ≠ pb_maker_collateral prepared)
  || bool_decide (q_metadata_hashes quote ≠ pb_metadata_hashes prepared)
  || negb (pb_exchange_domain_version prepared =? 2)
  || pb_neg_risk prepared
  || bool_decide (pb_side prepared ≠ "BUY"%string)
  || bool_decide (attr_condition_id attribution ≠ pb_condition_id prepared)
  || bool_decide (attr_outcome_id attribution ≠ pb_outcome_id prepared)
  || match adm_origin adm, attr_leader attribution with
     | OperatorProbe, leader => bool_decide (is_Some leader)
     | Organic, Some leader => is_blank leader
     | Organic, None => true
     end.

Record ExpectedExposure := {
  xp_leader : option BasisPoints;
  xp_market : BasisPoints;
  xp_family : BasisPoints;
  xp_total : BasisPoints
}.

Definition fresh (now : OffsetDateTime) (reconciliation : CanaryReconciliation) : bool :=
  Z.abs (odt_seconds_between now (rec_observed_at reconciliation)) <=? 30.

Definition risk_mismatch (adm : CanaryAdmission) (s : CanaryCampaignState) (prepared : PreparedPolymarketBuy)
    (now : OffsetDateTime) (reconciliation : CanaryReconciliation) (expected : ExpectedExposure) : bool :=
  let risk := adm_risk adm in
  bool_decide (cr_origin risk ≠ adm_origin adm)
  || bool_decide (cr_proposed_worst_case_debit risk ≠ pb_worst_case_debit prepared)
  || bool_decide (cr_canary_bankroll risk ≠ st_canary_bankroll s)
  || bool_decide (cr_leader_exposure_bps risk ≠ xp_leader expected)
  || bool_decide (cr_market_exposure_bps risk ≠ xp_market expected)
  || bool_decide (cr_family_exposure_bps risk ≠ xp_family expected)
  || bool_decide (cr_total_copy_exposure_bps risk ≠ xp_total expected)
  || bool_decide (cr_open_exposure_bps risk ≠ xp_total expected)
  || bool_decide (cr_pending_reservation risk ≠ bool_decide (is_Some (st_pending s)))
  || bool_decide (cr_allowance risk ≠ st_allowance s)
  || bool_decide (cr_account_state_fresh risk ≠ fresh now reconciliation)
  || bool_decide (cr_venue_reconciliation_fresh risk ≠ fresh now reconciliation)
  || bool_decide (cr_geoblock_fresh risk ≠ fresh now reconciliation)
  || bool_decide (cr_closed_only_fresh risk ≠ fresh now reconciliation)
  || bool_decide (cr_geoblocked risk ≠ rec_geoblocked reconciliation)
  || bool_decide (cr_closed_only risk ≠ rec_closed_only reconciliation)
  || bool_decide (cr_allowance risk ≠ rec_allowance reconciliation)
  || bool_decide (cr_standard_spender_only risk ≠ rec_standard_spender_only reconciliation)
  || rec_unexpected_activity reconciliation
  || bool_decide (rec_open_order_ids reconciliation ≠ [])
  || bool_decide (st_wallet s ≠ Some (pb_maker prepared))
  || bool_decide (st_wallet s ≠ Some (pb_signer prepared))
  || bool_decide (st_wallet s ≠ Some (pb_funder prepared))
  || bool_decide (st_spender s ≠ Some (pb_spender prepared))
  || bool_decide (st_spender s ≠ Some (pb_verifying_contract prepared)).

(** The guard of the probe arm. *)
Definition probe_authority_valid (adm : CanaryAdmission) (s : CanaryCampaignState) (prepared : PreparedPolymarketBuy)
    (now : OffsetDateTime) (authority : ProbeAuthorization) : panicking CanaryStateError bool :=
  if (pa_schema_version authority =? 1)
     && bool_decide (pa_campaign_id authority = adm_campaign_id adm)
     && bool_decide (st_campaign_authorization_hash s = Some (pa_campaign_authorization_hash authority))
     && (pa_probe_ordinal authority =? saturating_add_u8 (st_probe_posts s) 1)
     && bool_decide (pa_condition_id authority = pb_condition_id prepared)
     && bool_decide (pa_outcome_id authority = pb_outcome_id prepared)
     && bool_decide (pa_token_id authority = pb_token_id prepared)
     && bool_decide (pa_shares authority = pb_taker_shares prepared)
     && price_eqb (pa_worst_price authority) (q_origin_price_ceiling (adm_quote adm))
  then
    cost ← unpanic (dec_checked_mul (to_decimal (pa_shares authority)) (price_value (pa_worst_price authority)));
    maximum ← throws (map_err (λ _, Arithmetic) (from_decimal_exact "CollateralAmount" cost));
    if bool_decide (pa_maximum_collateral authority = maximum)
       && amount_leb (pb_worst_case_debit prepared) (pa_maximum_collateral authority)
       && bool_decide (pa_resolver_card_hash authority = adm_resolver_card_hash adm)
    then
      hash ← throws (probe_authority_hash authority);
      mret (bool_decide (pa_authority_hash authority = hash)
            && bool_decide (adm_neutral_request_hash adm = pa_authority_hash authority)
            && odt_ltb now (pa_expires_at authority))
    else mret false
  else mret false.

Definition expected_exposure (s : CanaryCampaignState) (attribution : AttemptAttribution) :
    result CanaryStateError ExpectedExposure :=
  exposure ← exposure_amounts s attribution;
  leader ← match attr_leader attribution with
           | Some _ => bps ← exposure_or_error (exp_leader exposure) (st_canary_bankroll s); Ok (Some bps)
           | None => Ok None
           end;
  market ← exposure_or_error (exp_market exposure) (st_canary_bankroll s);
  family ← exposure_or_error (exp_family exposure) (st_canary_bankroll s);
  total ← exposure_or_error (exp_total exposure) (st_canary_bankroll s);
  Ok {| xp_leader := leader; xp_market := market; xp_family := family; xp_total := total |}.

Definition validate (adm : CanaryAdmission) (s : CanaryCampaignState) (prepared : PreparedPolymarketBuy)
    (now : OffsetDateTime) (reconciliation : CanaryReconciliation) : panicking CanaryStateError unit :=
  _ ← throws (require_campaign s (adm_campaign_id adm));
  now_ms ← throws (ok_or (now_millis now) AdmissionMismatch);
  expected ← throws (expected_exposure s (adm_attribution adm));
  proof_valid ← organic_proof_valid adm s;
  if quote_mismatch adm s prepared now now_ms proof_valid then throw AdmissionMismatch
  else
    off_tick ← unpanic (dec_checked_rem (price_value (q_executable_ask (adm_quote adm)))
                          (price_value (q_minimum_tick_size (adm_quote adm))));
    if negb (dec_eqb off_tick dec_ZERO) || risk_mismatch adm s prepared now reconciliation expected
    then throw AdmissionMismatch
    else
      match evaluate_canary_risk (adm_risk adm) with
      | Blocked _ => throw CanaryRiskBlocked
      | Approved =>
          match adm_origin adm, adm_probe_authorization adm with
          | OperatorProbe, Some authority =>
              valid ← probe_authority_valid adm s prepared now authority;
              if valid : bool then mret tt else throw AuthorityMismatch
          | Organic, None => mret tt
          | _, _ => throw AuthorityMismatch
          end
      end.

End Admission.

(** ** Exposure of the open attempts *)

Definition open_exposure (p : AttemptAttribution → bool) (l : list CampaignAttemptRecord) : Z :=
  sum_with (λ a, if p (att_attribution a) then atomic (att_open_debit a) else 0) l.
Definition same_market (x y : AttemptAttribution) : bool := bool_decide (attr_condition_id y = attr_condition_id x).
Definition same_family (x y : AttemptAttribution) : bool := bool_decide (attr_family y = attr_family x).
Definition same_leader (x y : AttemptAttribution) : bool :=
  bool_decide (attr_leader x ≠ None) && bool_decide (attr_leader y = attr_leader x).
Definition everything (_ : AttemptAttribution) : bool := true.

Lemma add_exposure_Ok on a d r : add_exposure on a d = Ok r → atomic r = atomic a + (if on then atomic d else 0).
Proof.
  unfold add_exposure. destruct on; [|intros [= <-]; lia]. intros H%map_err_Ok.
  by apply amount_checked_add_Ok in H as [-> _].
Qed.
Lemma open_exposure_cons p a l :
  open_exposure p (a :: l) = (if p (att_attribution a) then atomic (att_open_debit a) else 0) + open_exposure p l.
Proof. done. Qed.
Lemma exposure_fold x l : ∀ e e', try_fold (exposure_step x) e l = Ok e' →
  atomic (exp_total e') = atomic (exp_total e) + open_exposure everything l
  ∧ atomic (exp_market e') = atomic (exp_market e) + open_exposure (same_market x) l
  ∧ atomic (exp_family e') = atomic (exp_family e) + open_exposure (same_family x) l
  ∧ atomic (exp_leader e') = atomic (exp_leader e) + open_exposure (same_leader x) l.
Proof.
  induction l as [|a l IH]; intros e e' H; cbn [try_fold] in H.
  - injection H as <-. unfold open_exposure. simpl. lia.
  - apply result_bind_Ok in H as (e1 & H1 & H). apply IH in H as (-> & -> & -> & ->). clear IH e'.
    rewrite !open_exposure_cons. unfold exposure_step in H1.
    apply result_bind_Ok in H1 as (t & Ht%add_exposure_Ok & H1). apply result_bind_Ok in H1 as (m & Hm%add_exposure_Ok & H1).
    apply result_bind_Ok in H1 as (f & Hf%add_exposure_Ok & H1). apply result_bind_Ok in H1 as (d & Hd%add_exposure_Ok & [= <-]).
    cbn [exp_total exp_market exp_family exp_leader]. unfold everything, same_market, same_family, same_leader in *. lia.
Qed.

Lemma open_exposure_bounds p M l : Forall (λ a, 0 ≤ atomic (att_open_debit a) ≤ M) l →
  0 ≤ open_exposure p l ≤ M * Z.of_nat (length l).
Proof.
  intros H. unfold open_exposure. split.
  - apply sum_with_nonneg. eapply Forall_impl; [exact H|]. simpl. intros a ?. case_match; lia.
  - apply sum_with_bound. eapply Forall_impl; [exact H|]. simpl. intros a ?. case_match; lia.
Qed.

Lemma add_exposure_total on a d : 0 ≤ atomic d → 0 ≤ atomic a → atomic a + atomic d ≤ U64_MAX →
  ∃ r, add_exposure on a d = Ok r ∧ 0 ≤ atomic r ≤ atomic a + atomic d.
Proof.
  intros Hd Ha Hm. unfold add_exposure. destruct on; [|exists a; split; [done|lia]].
  exists (from_atomic (atomic a + atomic d)). split; [|simpl; lia].
  unfold collateral_checked_add. by rewrite (proj2 (amount_checked_add_Ok _ a d _)) by (split; [done|lia]).
Qed.
Lemma exposure_fold_total x M l : 0 ≤ M → Forall (λ a, 0 ≤ atomic (att_open_debit a) ≤ M) l →
  ∀ e K, Forall (λ z, 0 ≤ atomic z ≤ K) [exp_total e; exp_market e; exp_family e; exp_leader e] →
  K + M * Z.of_nat (length l) ≤ U64_MAX → is_ok (try_fold (exposure_step x) e l) = true.
Proof.
  intros HM. induction 1 as [|a l Ha Hl IH]; intros e K He HK; [done|]. cbn [try_fold].
  rewrite !Forall_cons in He. destruct He as (H1 & H2 & H3 & H4 & _). simpl length in HK.
  unfold exposure_step.
  do 4 (match goal with
        | |- context [add_exposure ?b ?x ?d] => destruct (add_exposure_total b x d) as (? & -> & ?); [lia..|]
        end; cbn [mbind result_mbind]).
  apply (IH _ (K + M)); [|lia]. repeat (constructor; [simpl; lia|]). done.
Qed.

Section AdmissionFacts.
Context `{TO : TimeOps} `{DL : DecimalLaws} {B3 : Blake3}.
Context {V3 : ToVec probe_payload} {V7 : ToVec OrganicDecisionProof}.
Context {V4 : ToVec CampaignAuthorization} {V5 : ToVec (list string)}.
Context {V6 : ToVec (string * string * string * option VenueOrderId * option bool
                     * option ExactExecutionReport * list string)}.

(** The open debits of a journal that replays. *)
Lemma replay_open_debits events s : Forall event_wf events → replay events = Ok s →
  Forall (λ a, 0 ≤ atomic (att_open_debit a) ≤ 8000000) (st_attempts s) ∧ (length (st_attempts s) ≤ 8)%nat.
Proof.
  intros Hw H. destruct (replay_run events s H Hw) as (_ & (_ & _ & _ & Ho & Hf) & Hp & Hg & _).
  split; [exact Hf|]. apply (f_equal length) in Ho. rewrite !length_fmap in Ho.
  pose proof (slots_used_total (reservations events)). simpl in *. unfold PROBE_POST_LIMIT, ORGANIC_POST_LIMIT in *. lia.
Qed.

(** The exposure of a campaign is always computable: in every state a journal
    replays to, the checked sums over the open debits cannot overflow, and each is
    the sum it stands for. *)
Theorem exposure_amounts_defined events s x :
  Forall event_wf events → replay events = Ok s →
  ∃ e, exposure_amounts s x = Ok e
  ∧ atomic (exp_total e) = open_exposure everything (st_attempts s)
  ∧ atomic (exp_market e) = open_exposure (same_market x) (st_attempts s)
  ∧ atomic (exp_family e) = open_exposure (same_family x) (st_attempts s)
  ∧ atomic (exp_leader e) = open_exposure (same_leader x) (st_attempts s)
  ∧ atomic (exp_total e) ≤ 64000000.
Proof.
  intros Hw H. destruct (replay_open_debits events s Hw H) as [Hf Hl].
  destruct (exposure_amounts s x) as [e|err] eqn:E.
  - exists e. split; [done|]. apply exposure_fold in E as (E1 & E2 & E3 & E4). simpl in *.
    pose proof (open_exposure_bounds everything _ _ Hf). lia.
  - pose proof (exposure_fold_total x 8000000 _ ltac:(lia) Hf CanaryExposureAmounts_default 0) as Ht.
    unfold exposure_amounts in E. rewrite E in Ht. simpl in Ht. exfalso.
    enough (false = true) by done. apply Ht; [repeat (constructor; [simpl; lia|]); done|unfold U64_MAX; lia].
Qed.

Lemma validate_Ok adm s prepared now rc : validate adm s prepared now rc = Some (Ok tt) →
  ∃ now_ms expected valid off,
    now_millis now = Some now_ms ∧ expected_exposure s (adm_attribution adm) = Ok expected
    ∧ quote_mismatch adm s prepared now now_ms valid = false
    ∧ dec_checked_rem (price_value (q_executable_ask (adm_quote adm)))
        (price_value (q_minimum_tick_size (adm_quote adm))) = Some off
    ∧ dec_eqb off dec_ZERO = true ∧ risk_mismatch adm s prepared now rc expected = false
    ∧ evaluate_canary_risk (adm_risk adm) = Approved.
Proof.
  unfold validate. intros H. apply panicking_bind_Ok in H as ([] & _ & H).
  apply panicking_bind_Ok in H as (ms & Hms & H). injection Hms as Hms. apply ok_or_Ok in Hms.
  apply panicking_bind_Ok in H as (expected & He & H). injection He as He.
  apply panicking_bind_Ok in H as (valid & _ & H). destruct (quote_mismatch _ _ _ _ _ _) eqn:Eq; [done|].
  apply unpanic_bind_Ok in H as (off & Hoff & H). destruct (dec_eqb off dec_ZERO) eqn:Ez; [|done].
  destruct (risk_mismatch _ _ _ _ _ _) eqn:Er; [done|]. simpl in H.
  destruct (evaluate_canary_risk _) eqn:Ev; [|done]. by exists ms, expected, valid, off.
Qed.

Lemma quote_mismatch_false adm s prepared now ms valid : quote_mismatch adm s prepared now ms valid = false →
  let q := adm_quote adm in
  0 ≤ ms - q_snapshot_observed_at_ms q ≤ 2000
  ∧ price_ltb (q_origin_price_ceiling q) (q_executable_ask q) = false
  ∧ price_ltb (q_executable_ask q) (q_minimum_fill_price q) = false
  ∧ price_ltb (q_executable_ask q) (q_maximum_fill_price_exclusive q) = true
  ∧ attr_condition_id (adm_attribution adm) = pb_condition_id prepared
  ∧ (adm_origin adm = Organic → is_Some (attr_leader (adm_attribution adm))).
Proof.
  intros H q. subst q. unfold quote_mismatch in H. autorewrite with rust in H. destruct_and!.
  repeat match goal with Hn : ¬ (_ ≠ _) |- _ => apply dec_stable in Hn end.
  split_and!; try done; try lia. intros Ho. destruct (attr_leader _); [eauto|]. by destruct (adm_origin adm).
Qed.

Lemma risk_mismatch_false adm s prepared now rc expected : risk_mismatch adm s prepared now rc expected = false →
  let r := adm_risk adm in
  cr_origin r = adm_origin adm ∧ cr_proposed_worst_case_debit r = pb_worst_case_debit prepared
  ∧ cr_canary_bankroll r = st_canary_bankroll s ∧ cr_leader_exposure_bps r = xp_leader expected
  ∧ cr_market_exposure_bps r = xp_market expected ∧ cr_family_exposure_bps r = xp_family expected
  ∧ cr_total_copy_exposure_bps r = xp_total expected ∧ cr_pending_reservation r = bool_decide (is_Some (st_pending s))
  ∧ cr_allowance r = st_allowance s ∧ cr_account_state_fresh r = fresh now rc
  ∧ rec_open_order_ids rc = [] ∧ rec_unexpected_activity rc = false
  ∧ st_wallet s = Some (pb_maker prepared) ∧ st_wallet s = Some (pb_funder prepared).
Proof.
  intros H r. subst r. unfold risk_mismatch in H. autorewrite with rust in H. destruct_and!.
  repeat match goal with Hn : ¬ (_ ≠ _) |- _ => apply dec_stable in Hn end. done.
Qed.

Lemma expected_exposure_Ok s x e : expected_exposure s x = Ok e →
  ∃ a, exposure_amounts s x = Ok a
  ∧ match attr_leader x with
    | Some _ => ∃ b, xp_leader e = Some b ∧ exposure_bps_ceil (exp_leader a) (st_canary_bankroll s) = Some b
    | None => xp_leader e = None
    end
  ∧ exposure_bps_ceil (exp_market a) (st_canary_bankroll s) = Some (xp_market e)
  ∧ exposure_bps_ceil (exp_family a) (st_canary_bankroll s) = Some (xp_family e)
  ∧ exposure_bps_ceil (exp_total a) (st_canary_bankroll s) = Some (xp_total e).
Proof.
  unfold expected_exposure, exposure_or_error. intros H. apply result_bind_Ok in H as (a & Ha & H).
  apply result_bind_Ok in H as (ld & Hl & H). apply result_bind_Ok in H as (mk & Hm%ok_or_Ok & H).
  apply result_bind_Ok in H as (fm & Hf%ok_or_Ok & H). apply result_bind_Ok in H as (tt' & Ht%ok_or_Ok & [= <-]).
  exists a. split_and!; try done. cbn [xp_leader]. destruct (attr_leader x); [|by injection Hl as <-].
  apply result_bind_Ok in Hl as (b & Hb%ok_or_Ok & [= <-]). eauto.
Qed.

(** Basis points that do not wrap bound the money they stand for. *)
Lemma exposure_within amount bankroll proposed debit e cap :
  amount_wf amount → atomic amount ≤ 64000000 → amount_wf bankroll → amount_wf debit → 400 ≤ atomic bankroll →
  exposure_bps_ceil amount bankroll = Some e → exposure_bps_ceil debit bankroll = Some proposed →
  bps proposed ≤ 50 → wrapping_add_i32 (bps e) (bps proposed) ≤ cap →
  (atomic amount + atomic debit) * 10000 ≤ cap * atomic bankroll.
Proof.
  intros Ha Hs Hb Hd HB He Hp H50 Hw.
  pose proof (exposure_bps_ceil_least _ _ Ha Hb) as Le. rewrite He in Le. destruct Le as (_ & _ & E1 & E2).
  pose proof (exposure_bps_ceil_least _ _ Hd Hb) as Lp. rewrite Hp in Lp. destruct Lp as (_ & _ & P1 & _).
  specialize (E2 1600000000 ltac:(lia)). unfold amount_wf, is_u64 in *.
  assert (0 ≤ bps e ∧ 0 ≤ bps proposed) as [? ?] by nia.
  rewrite wrapping_add_i32_id in Hw by (unfold is_i32, I32_MIN, I32_MAX; lia). nia.
Qed.

(** C35: An admitted order is within every limit of the campaign.  In a state a
    journal replays to, an order for more than one atomic unit that passes [validate] costs at most a dollar and
    half a percent of the bankroll, fits the allowance, and, together with the
    debits still open, keeps its market within 2%, its family within 8%, its leader
    within 3% and the whole campaign within 25% of the bankroll, in exact money and
    without wrap-around.  Nothing is pending, the quote is at most two seconds old,
    the reconciliation at most thirty, and the ask is a tick multiple inside the
    policy's price range, paid from the campaign's own wallet. *)
Theorem admitted_order_bounded events s adm prepared now rc :
  Forall event_wf events → replay events = Ok s → amount_wf (st_canary_bankroll s) →
  amount_wf (pb_worst_case_debit prepared) → 1 < atomic (pb_worst_case_debit prepared) →
  validate adm s prepared now rc = Some (Ok tt) →
  let debit := atomic (pb_worst_case_debit prepared) in
  let bankroll := atomic (st_canary_bankroll s) in
  let x := adm_attribution adm in
  let ask := dec_value (price_value (q_executable_ask (adm_quote adm))) in
  debit ≤ 1000000 ∧ 200 * debit ≤ bankroll ∧ debit ≤ atomic (st_allowance s) ≤ 8000000
  ∧ (open_exposure (same_market x) (st_attempts s) + debit) * 10000 ≤ 200 * bankroll
  ∧ (open_exposure (same_family x) (st_attempts s) + debit) * 10000 ≤ 800 * bankroll
  ∧ (open_exposure everything (st_attempts s) + debit) * 10000 ≤ 2500 * bankroll
  ∧ (adm_origin adm = Organic → (open_exposure (same_leader x) (st_attempts s) + debit) * 10000 ≤ 300 * bankroll)
  ∧ st_pending s = None ∧ rec_open_order_ids rc = []
  ∧ Z.abs (odt_seconds_between now (rec_observed_at rc)) ≤ 30
  ∧ (∃ ms, now_millis now = Some ms ∧ 0 ≤ ms - q_snapshot_observed_at_ms (adm_quote adm) ≤ 2000)
  ∧ (∃ k, ask == inject_Z k * dec_value (price_value (q_minimum_tick_size (adm_quote adm))))%Q
  ∧ (dec_value (price_value (q_minimum_fill_price (adm_quote adm))) <= ask
     < dec_value (price_value (q_maximum_fill_price_exclusive (adm_quote adm))))%Q
  ∧ st_wallet s = Some (pb_maker prepared).
Proof.
  intros Hw Hr Hb Hd Hd1 Hv debit bankroll x ask.
  destruct (validate_Ok _ _ _ _ _ Hv) as (ms & ex & valid & off & Hms & Hex & Hq & Hoff & Hz & Hrm & Hap).
  apply quote_mismatch_false in Hq as (Q1 & _ & Q3 & Q4 & _ & Ql).
  apply risk_mismatch_false in Hrm as (R1 & R2 & R3 & R4 & R5 & R6 & R7 & R8 & R9 & R10 & R11 & _ & R13 & _).
  apply canary_approved in Hap as (pr & Hp & H50 & A1 & A2 & A3 & _ & A5 & _ & _ & _ & _ & ld & Hld & W1 & W2 & W3 & W4 & _).
  rewrite R2, R3 in Hp. rewrite R2 in A1, A2. rewrite R9 in A2. fold debit in A1, A2.
  rewrite R8 in A3. rewrite R10 in A5. rewrite R5 in W2. rewrite R6 in W3. rewrite R7 in W4.
  pose proof (exposure_bps_ceil_least _ _ Hd Hb) as Lp. rewrite Hp in Lp. destruct Lp as (_ & _ & P1 & _).
  fold debit bankroll in P1, Hd1. assert (200 * debit ≤ bankroll) as H200 by (unfold amount_wf, is_u64 in Hb; fold bankroll in Hb; nia).
  destruct (expected_exposure_Ok _ _ _ Hex) as (a & Ha & Xl & Xm & Xf & Xt). fold x in Ha, Xl, Ql.
  destruct (replay_open_debits events s Hw Hr) as [Hf Hlen].
  pose proof (exposure_fold _ _ _ _ Ha) as (E1 & E2 & E3 & E4). cbn in E1, E2, E3, E4.
  assert (∀ p, 0 ≤ open_exposure p (st_attempts s) ≤ 64000000) as Hbound.
  { intros p. pose proof (open_exposure_bounds p _ _ Hf). lia. }
  assert (∀ m p e cap, atomic m = open_exposure p (st_attempts s) → exposure_bps_ceil m (st_canary_bankroll s) = Some e →
            wrapping_add_i32 (bps e) (bps pr) ≤ cap →
            (open_exposure p (st_attempts s) + debit) * 10000 ≤ cap * bankroll) as Hcap.
  { intros m p e cap Hm He Hwr. rewrite <- Hm. specialize (Hbound p).
    eapply exposure_within; eauto; [unfold amount_wf, is_u64, U64_MAX; lia|lia|fold bankroll; lia]. }
  split_and!; try lia; try done.
  - by eapply Hcap; [exact E2|exact Xm|exact W2].
  - by eapply Hcap; [exact E3|exact Xf|exact W3].
  - by eapply Hcap; [exact E1|exact Xt|exact W4].
  - intros Ho. destruct (Ql Ho) as [lname Hln]. rewrite Hln in Xl. destruct Xl as (b & Hxb & Hb').
    destruct Hld as [[_ Hld]|[Hld _]]; [|congruence]. rewrite R4, Hxb in Hld. injection Hld as <-.
    by eapply Hcap; [exact E4|exact Hb'|exact W1].
  - apply bool_decide_eq_false in A3. by apply eq_None_not_Some.
  - unfold fresh in A5. by apply Z.leb_le in A5.
  - by exists ms.
  - apply dec_checked_rem_value in Hoff as [_ [k Hk]]. exists k. apply dec_eqb_eq in Hz. rewrite dec_ZERO_value in Hz.
    unfold ask. rewrite Hk, Hz. ring.
  - by apply dec_ltb_ge.
  - by apply dec_ltb_lt.
Qed.

End AdmissionFacts.

(** ** An admitted probe *)
Module SampleAdmission.
Import SampleCampaign.
#[export] Instance vec_probe : ToVec (@probe_payload ZTime QDecimal) :=
  λ '(_, c, h, _, _, _, _, _, _, _, r, _), text [c; h; r].
#[export] Instance vec_proof : ToVec (@OrganicDecisionProof QDecimal ZTime) := λ p, text [proof_idempotency_key p].

Definition events : list (@CanaryEvent ZTime QDecimal) :=
  [CampaignArmed authorization (receipt "1");
   ReconciliationRecorded "start" (snapshot 200000000 8000000 [] None) None false].
Definition state : @CanaryCampaignState ZTime := reached events.
Definition authority_with (hash : string) : @ProbeAuthorization ZTime QDecimal :=
  @Build_ProbeAuthorization ZTime QDecimal 1 "campaign" (default EmptyString (st_campaign_authorization_hash state)) 1
    condition yes token (from_atomic 1000000) half (from_atomic 500000) "card" hash (at_second 60).
Definition hash : string := result_or EmptyString (probe_authority_hash (authority_with EmptyString)).
Definition request : @CanaryAdmission ZTime QDecimal := admission (Some (authority_with hash)) hash.
Definition account : @CanaryReconciliation ZTime := snapshot 200000000 8000000 [] None.

Lemma events_wf : Forall event_wf events.
Proof. repeat (apply Forall_cons; split; [intros o d Hr; discriminate Hr|]). apply Forall_nil. done. Qed.
Lemma events_replay : replay events = Ok state.
Proof. apply replays. vm_cast_no_check (eq_refl true). Qed.
Lemma admitted : validate request state prepared (at_second 11) account = Some (Ok tt).
Proof. vm_cast_no_check (eq_refl (Some (Ok (E := CanaryStateError) tt))). Qed.
End SampleAdmission.

Lemma exposure_amounts_defined_witness :
  is_ok (exposure_amounts SampleAdmission.state SampleCampaign.attribution) = true.
Proof.
  destruct (exposure_amounts_defined SampleAdmission.events _ SampleCampaign.attribution
              SampleAdmission.events_wf SampleAdmission.events_replay) as (e & He & _).
  rewrite He. reflexivity.
Defined.

Lemma admitted_order_bounded_witness :
  200 * atomic (pb_worst_case_debit SampleCampaign.prepared) ≤ atomic (st_canary_bankroll SampleAdmission.state).
Proof.
  assert (atomic (st_canary_bankroll SampleAdmission.state) = 200000000) as Hb by vm_cast_no_check (eq_refl 200000000).
  assert (amount_wf (st_canary_bankroll SampleAdmission.state)) as Hw
    by (unfold amount_wf; rewrite Hb; split; discriminate).
  assert (amount_wf (pb_worst_case_debit SampleCampaign.prepared)) as Hd by (split; discriminate).
  destruct (@admitted_order_bounded ZTime QDecimal QDecimal_laws ToyBlake3 SampleAdmission.vec_probe
              SampleAdmission.vec_proof SampleCampaign.vec_authorization SampleCampaign.vec_hashes
              SampleCampaign.vec_review SampleAdmission.events SampleAdmission.state SampleAdmission.request
              SampleCampaign.prepared (SampleCampaign.at_second 11) SampleAdmission.account
              SampleAdmission.events_wf SampleAdmission.events_replay Hw Hd eq_refl SampleAdmission.admitted)
    as (_ & H & _).
  exact H.
Defined.
