(* ===== verification/CanaryActor.v ===== *)
(** * The campaign actor (crates/execution-core canary_actor.rs)

    The single owner of a campaign: it validates commands, journals every event
    before its effect, posts an order at most once and reconciles.  The venue, the
    clock and the arrival of priority kills are the interface [CanaryWorld]: each
    answer may depend on how many interactions came before it.  The durable journal
    is the interface [Journal].  A run leaves a trace of journal contents and posted
    orders, so that a crash after any prefix is covered.

    A kill may latch wherever the source awaits or loads a shared flag; it cannot
    latch while the dispatch gate is held. *)

From S2P Require Import Prelude CoreTypes Bytes SignalEngine RiskEngine WinnerFollow LogFrame CanaryTypes CanaryState CanaryAdmission.
#[local] Open Scope Z_scope.

Definition CANARY_RECONCILIATION_TIMEOUT_NANOS : Z := 30 * 1000000000.
Definition SDK_VERSION : string := "0.7.0".

Definition transport_error_str (e : TransportErrorClass) : string :=
  match e with
  | Timeout => "timeout" | Connect => "connect" | BodyRead => "body_read" | RequestBuild => "request_build"
  | Cancelled => "cancelled" | OtherTransport => "other"
  end.

Inductive CanaryActorError : Type :=
| NotRunning
| StateError (e : CanaryStateError)
| KilledError
| BusyError
| PostError (message : string).
(** How a handler stops early: an error it returns, or a panic that ends the task. *)
Inductive Stop : Type := Fails (e : CanaryActorError) | Panics.

Record KillRequest := { kill_receipt : CommandReceipt; kill_deadline : option Z }.

Section Interfaces.
Context `{TO : TimeOps} `{DO : DecimalOps}.

Record RawReconciliation := { raw_evidence : list RawEvidence; protocol_failure : option string }.
Record V2BuyRequest := {
  req_condition_id : PolymarketConditionId;
  req_outcome_id : OutcomeId;
  req_token_id : PolymarketTokenId;
  req_limit_price : Price;
  req_shares : ShareAmount;
  req_maximum_collateral : CollateralAmount;
  req_tick_size : Price;
  req_metadata_hashes : list string
}.
Record PreparedSubmission := { sub_prepared : PreparedPolymarketBuy; sub_serialized_body : list Z }.
Record PostOnceResult := {
  por_success : bool;
  por_definitive : bool;
  por_order_id : string;
  por_making_amount : Decimal;
  por_taking_amount : Decimal;
  por_error_message : option string
}.

(** [CanarySubmitter], [CanaryReconciler], the clocks and the kill requests that
    arrive; the first argument counts earlier interactions.  [post_order_once] is
    [None] when the surrounding timeout fires. *)
Class CanaryWorld := {
  now_utc : nat → OffsetDateTime;
  instant_now : nat → Z;
  kill_arrives : nat → option KillRequest;
  prepare_buy : nat → V2BuyRequest → result string PreparedSubmission;
  post_order_once : nat → PreparedSubmission → option (result RawTransportFailure RawHttpResponse);
  cancel_order_once : nat → string → result RawTransportFailure RawHttpResponse;
  parse_post_response : RawHttpResponse → result string PostOnceResult;
  reconcile_raw : nat → list PolymarketConditionId → option string → Z → result string RawReconciliation;
  parse_reconciliation : RawReconciliation → option PendingAttempt → list string → result string CanaryReconciliation
}.
(** A prepared order holds [u64] amounts. *)
Class CanaryWorldLaws {W : CanaryWorld} : Prop := {
  prepared_debit_u64 n r s : prepare_buy n r = Ok s → amount_wf (pb_worst_case_debit (sub_prepared s))
}.

(** [CanaryJournal] as the actor relies on it: [recorded] is what a rebuild reads.
    A synced append records the event; a failed one either changed nothing or left
    a journal that refuses further appends and may have recorded the event. *)
Class Journal := {
  journal : Type;
  append_sync : CanaryEvent → OffsetDateTime → journal → journal * result CanaryStateError unit;
  recorded : journal → list CanaryEvent;
  healthy : journal → bool
}.
Class JournalLaws {JO : Journal} : Prop := {
  append_sync_Ok e t j j' : append_sync e t j = (j', Ok tt) →
    healthy j = true ∧ healthy j' = true ∧ recorded j' = recorded j ++ [e];
  append_sync_Err e t j j' x : append_sync e t j = (j', Err x) →
    (recorded j' = recorded j ∧ healthy j' = healthy j)
    ∨ (healthy j = true ∧ healthy j' = false ∧ (recorded j' = recorded j ∨ recorded j' = recorded j ++ [e]))
}.

(** What a run leaves outside the actor: the contents of the journal after an
    append, and the orders sent and cancelled. *)
Inductive Effect : Type :=
| Journaled (events : list CanaryEvent)
| PostedOrder (order : PreparedPolymarketBuy)
| CancelledOrder (order_id : string).

Inductive Command : Type :=
| ArmCommand (receipt : CommandReceipt) (authorization : CampaignAuthorization)
| ReviewProbeCommand (receipt : CommandReceipt) (campaign_id : string) (ordinal : Z)
| ArmOrganicCommand (receipt : CommandReceipt) (authorization : OrganicStageAuthorization)
| DispatchCommand (receipt : CommandReceipt) (admission : CanaryAdmission) (request : V2BuyRequest)
    (evidence : list RawEvidence)
| SkipCommand (receipt : CommandReceipt) (identity reason : string) (evidence : list RawEvidence)
| ReconcileCommand (receipt : option CommandReceipt) (context : string)
| StatusCommand
| ShutdownCommand (work_deadline : option Z).

Context {JO : Journal}.
Record Actor := {
  a_state : CanaryCampaignState;
  a_journal : journal;
  a_killed : bool;
  a_final_requested : bool;
  a_kill_request : option KillRequest;
  a_journal_failed : bool;
  a_clock : nat;
  a_trace : list Effect
}.
#[global] Instance rebuild_actor : Rebuild Actor := λ a, {|
  a_state := a_state a; a_journal := a_journal a; a_killed := a_killed a; a_final_requested := a_final_requested a;
  a_kill_request := a_kill_request a; a_journal_failed := a_journal_failed a; a_clock := a_clock a; a_trace := a_trace a
|}.
End Interfaces.

Section ActorModel.
Context `{TO : TimeOps} `{DO : DecimalOps} {B3 : Blake3} {JO : Journal} {W : CanaryWorld}.
Context {V1 : ToVec EvidenceCommitment} {V2 : ToVec ArtifactCommitment} {V3 : ToVec probe_payload}.
Context {V4 : ToVec CampaignAuthorization} {V5 : ToVec (list string)}.
Context {V6 : ToVec (string * string * string * option VenueOrderId * option bool
                     * option ExactExecutionReport * list string)}.
Context {V7 : ToVec OrganicDecisionProof}.
Abbreviation act := (stm Actor Stop).

(** ** The monad of a handler *)
Definition fails {A} (e : CanaryActorError) : act A := stm_fail (Fails e).
Definition refuses {A} (e : CanaryStateError) : act A := fails (StateError e).
(** A match on a [Result] catches the error, never a panic. *)
Definition attempt {A} (m : act A) : act (result CanaryActorError A) :=
  λ a, match m a with
       | (a', Ok x) => (a', Ok (Ok x))
       | (a', Err (Fails e)) => (a', Ok (Err e))
       | (a', Err Panics) => (a', Err Panics)
       end.
Definition from_result {A} (r : result CanaryActorError A) : act A := stm_lift (map_err Fails r).
Definition from_state_result {A} (r : result CanaryStateError A) : act A := from_result (map_err StateError r).
Definition from_panicking {A} (r : panicking CanaryStateError A) : act A :=
  match r with None => stm_fail Panics | Some r => from_state_result r end.

Definition tick : act nat := λ a, (a <| a_clock := S (a_clock a) |>, Ok (a_clock a)).
Definition effect (e : Effect) : act unit := stm_modify (λ a, a <| a_trace := a_trace a ++ [e] |>).
Definition now : act OffsetDateTime := n ← tick; mret (now_utc n).
Definition instant : act Z := n ← tick; mret (instant_now n).

(** [kill_until] runs to its end: under the dispatch gate it takes the empty slot
    and latches both flags, or is refused. *)
Definition latch_kill (request : KillRequest) (a : Actor) : Actor :=
  match a_kill_request a with
  | Some _ => a
  | None => a <| a_kill_request := Some request |> <| a_killed := true |> <| a_final_requested := true |>
  end.
Definition poll_kill : act unit :=
  n ← tick;
  match kill_arrives n with
  | Some request => stm_modify (latch_kill request)
  | None => mret tt
  end.
Definition load_killed : act bool := _ ← poll_kill; a ← stm_get; mret (a_killed a).
Definition load_final_requested : act bool := _ ← poll_kill; a ← stm_get; mret (a_final_requested a).
Definition get_state : act CanaryCampaignState := a ← stm_get; mret (a_state a).

(** ** Journaled transitions *)
Definition commit_state (next : CanaryCampaignState) (a : Actor) : Actor :=
  a <| a_state := next |> <| a_killed := a_killed a || st_kill_latched next |>.
Definition commit (event : CanaryEvent) : act unit :=
  s ← get_state;
  next ← from_state_result (apply_result s event);
  t ← now;
  a ← stm_get;
  let '(j, r) := append_sync event t (a_journal a) in
  _ ← stm_modify (λ a, a <| a_journal := j |> <| a_trace := a_trace a ++ [Journaled (recorded j)] |>);
  match r with
  | Err error => _ ← stm_modify (λ a, a <| a_journal_failed := true |>); refuses error
  | Ok _ => stm_modify (commit_state next)
  end.

Definition captured (identity : string) (observation : RawEvidence) : CanaryEvent :=
  match observation with
  | HttpResponse r =>
      HttpResponseCaptured identity (rsp_source_id r) (rsp_endpoint_kind r) (rsp_method r) (rsp_path r)
        (rsp_ordered_query r) (rsp_attempt_ordinal r) (rsp_status r) (rsp_headers r) (rsp_source_at r)
        (rsp_observed_at r) (rsp_received_at r) (rsp_schema_version r) (rsp_parser_version r)
        (rsp_adapter_version r) (to_hex (blake3 (rsp_body r))) (rsp_body r)
  | HttpTransportFailure f =>
      HttpTransportFailed identity (tf_source_id f) (tf_endpoint_kind f) (tf_method f) (tf_path f)
        (tf_ordered_query f) (tf_attempt_ordinal f) (tf_observed_at f) (tf_received_at f) (tf_error_class f)
        (tf_schema_version f) (tf_parser_version f) (tf_adapter_version f)
  | Artifact r =>
      ArtifactCaptured identity (art_source_id r) (art_artifact_kind r) (art_path r) (art_observed_at r)
        (art_received_at r) (art_schema_version r) (art_parser_version r) (art_adapter_version r)
        (to_hex (blake3 (art_body r))) (art_body r)
  end.
Fixpoint capture_evidence (identity : string) (evidence : list RawEvidence) : act (list string) :=
  match evidence with
  | [] => mret []
  | observation :: evidence =>
      _ ← commit (captured identity observation);
      hash ← from_result (map_err PostError (raw_evidence_hash observation));
      hashes ← capture_evidence identity evidence;
      mret (option_list hash ++ hashes)
  end.

Definition check_receipt (s : CanaryCampaignState) (receipt : CommandReceipt) : result CanaryActorError bool :=
  match command_receipt s (command_id receipt) with
  | Some existing =>
      if decide (command_hash existing = command_hash receipt) then Ok true else Err (StateError AuthorityMismatch)
  | None =>
      if is_blank (command_id receipt) || is_blank (command_hash receipt)
      then Err (StateError InvalidAttempt) else Ok false
  end.
(** A command whose receipt is already recorded answers with the current state. *)
Definition once (receipt : CommandReceipt) (body : act CanaryCampaignState) : act CanaryCampaignState :=
  s ← get_state;
  seen ← from_result (check_receipt s receipt);
  if seen : bool then mret s else body.

(** ** Reconciliation *)
Definition record_reconciliation_failure {A} (context error_class : string) : act A :=
  requested ← load_final_requested;
  s ← get_state;
  _ ← commit (ReconciliationFailed context error_class
                (requested && negb (st_shutdown_reconciliation_designated s)));
  fails (PostError error_class).

Definition open_conditions (s : CanaryCampaignState) : list string :=
  (λ a, condition_id_str (attr_condition_id (att_attribution a)))
    <$> List.filter (λ a, bool_decide (att_open_debit a ≠ amount_ZERO)) (st_attempts s).
(** [Vec::dedup]: equal neighbours are merged. *)
Fixpoint dedup (l : list string) : list string :=
  match l with
  | a :: (b :: _) as rest => if decide (a = b) then dedup rest else a :: dedup rest
  | _ => l
  end.
Definition tracked_conditions (s : CanaryCampaignState) : list PolymarketConditionId :=
  (λ c, {| condition_id_str := c |}) <$> dedup (sort_by leb_of (open_conditions s)).

Definition first_transport_failure (evidence : list RawEvidence) : option RawTransportFailure :=
  head (omap (λ o, match o with HttpTransportFailure f => Some f | _ => None end) evidence).

Definition closing_snapshot (snapshot : CanaryReconciliation) (accounting_drift allowance_drift : bool) : bool :=
  rec_geoblocked snapshot || rec_closed_only snapshot || negb (rec_standard_spender_only snapshot)
  || amount_ltb CANARY_MAX_ALLOWANCE (rec_allowance snapshot)
  || accounting_drift || allowance_drift || bool_decide (rec_open_order_ids snapshot ≠ [])
  || rec_unexpected_activity snapshot.
Definition closing_reason (snapshot : CanaryReconciliation) : ClosureReason :=
  if rec_geoblocked snapshot then Geoblocked
  else if rec_closed_only snapshot then AccountClosedOnly
  else if rec_unexpected_activity snapshot then ExternalActivity
  else if bool_decide (rec_open_order_ids snapshot ≠ []) then UnexpectedOrderState
  else AccountingDrift.
Definition armed (stage : CampaignStage) : bool :=
  match stage with ProbesArmed | OrganicReady | OrganicArmed => true | _ => false end.
(** The clock is read only when the campaign has an expiry. *)
Definition expired (s : CanaryCampaignState) : act bool :=
  match st_expires_at s with
  | None => mret false
  | Some expires_at => t ← now; mret (negb (odt_ltb t expires_at))
  end.

Definition mark_unexplained (s : CanaryCampaignState) (snapshot : CanaryReconciliation) : CanaryReconciliation :=
  if reconciliation_inventory_explained s snapshot then snapshot
  else {| rec_observed_at := rec_observed_at snapshot; rec_geoblocked := rec_geoblocked snapshot;
          rec_closed_only := rec_closed_only snapshot; rec_free_collateral := rec_free_collateral snapshot;
          rec_allowance := rec_allowance snapshot; rec_standard_spender_only := rec_standard_spender_only snapshot;
          rec_open_order_ids := rec_open_order_ids snapshot; rec_all_trade_ids := rec_all_trade_ids snapshot;
          rec_position_count := rec_position_count snapshot; rec_positions := rec_positions snapshot;
          rec_resolutions := rec_resolutions snapshot; rec_unexpected_activity := true;
          rec_execution_report := rec_execution_report snapshot; rec_evidence_hashes := rec_evidence_hashes snapshot |}.
Definition allowance_drifts (s : CanaryCampaignState) (snapshot : CanaryReconciliation) : bool :=
  bool_decide (is_Some (st_campaign_id s))
  && negb (bool_decide (expected_allowance_after s snapshot = Some (rec_allowance snapshot))).

(** The closures and the final [CampaignClosed] after a recorded snapshot. *)
Definition close_after (snapshot : CanaryReconciliation) (accounting_drift allowance_drift : bool) : act unit :=
  s ← get_state;
  over ← expired s;
  _ ← (if over && armed (st_stage s) then commit (AdmissionClosed Expired None)
       else if closing_snapshot snapshot accounting_drift allowance_drift
       then commit (AdmissionClosed (closing_reason snapshot) None) else mret tt);
  s ← get_state;
  when (bool_decide (st_stage s = ClosedObserving) && bool_decide (st_pending s = None)
        && bool_decide (rec_open_order_ids snapshot = []) && (rec_position_count snapshot =? 0)
        && negb (rec_unexpected_activity snapshot) && negb accounting_drift && negb allowance_drift
        && negb (st_recovery_unresolved s) && negb (any_open s))
    (commit CampaignClosed).

Definition reconciliation_deadline (work_deadline : option Z) : act Z :=
  timeout ← match work_deadline with
            | None => mret CANARY_RECONCILIATION_TIMEOUT_NANOS
            | Some deadline => t ← instant; mret (Z.min (Z.max 0 (deadline - t)) CANARY_RECONCILIATION_TIMEOUT_NANOS)
            end;
  t ← instant;
  mret (t + timeout).

Definition capture_reconciliation_until (context : string) (receipt : option CommandReceipt)
    (work_deadline : option Z) : act CanaryReconciliation :=
  s ← get_state;
  deadline ← reconciliation_deadline work_deadline;
  n ← tick;
  let raw := reconcile_raw n (tracked_conditions s) (pend_order_hash <$> st_pending s) deadline in
  _ ← poll_kill;
  match raw with
  | Err error => record_reconciliation_failure context error
  | Ok raw =>
      _ ← capture_evidence ("reconciliation:" +:+ context) (raw_evidence raw);
      match first_transport_failure (raw_evidence raw), protocol_failure raw with
      | Some failure, _ => record_reconciliation_failure context (transport_error_str (tf_error_class failure))
      | None, Some failure => record_reconciliation_failure context failure
      | None, None =>
          s ← get_state;
          match parse_reconciliation raw (st_pending s) (st_known_trade_ids s) with
          | Err error => record_reconciliation_failure context error
          | Ok snapshot =>
              let snapshot := mark_unexplained s snapshot in
              let accounting_drift := negb (reconciliation_balance_explained s snapshot) in
              let allowance_drift := allowance_drifts s snapshot in
              requested ← load_final_requested;
              _ ← commit (ReconciliationRecorded context snapshot receipt
                            (requested && negb (st_shutdown_reconciliation_designated s)));
              _ ← close_after snapshot accounting_drift allowance_drift;
              mret snapshot
          end
      end
  end.
Definition capture_reconciliation (context : string) (receipt : option CommandReceipt) : act CanaryReconciliation :=
  capture_reconciliation_until context receipt None.

Definition recover_ambiguous_post {A} (error : string) : act A :=
  _ ← commit (RecoveryRequired VenueAmbiguous);
  _ ← attempt (capture_reconciliation "post_ambiguous" None);
  fails (PostError error).

(** ** Dispatch *)
Definition evidence_matches_quote (expected : list string) (snapshot : string) (captured : list string) : bool :=
  bool_decide (expected = captured) && existsb (λ hash, bool_decide (hash = snapshot)) captured.

Definition timeout_failure (observed received : OffsetDateTime) : RawTransportFailure := {|
  tf_source_id := "polymarket-clob-v2"; tf_endpoint_kind := "order-post"; tf_method := "POST"; tf_path := "/order";
  tf_ordered_query := []; tf_attempt_ordinal := 1; tf_observed_at := observed; tf_received_at := received;
  tf_error_class := Timeout; tf_schema_version := 1; tf_parser_version := 1; tf_adapter_version := SDK_VERSION
|}.

(** The reservation and the in-flight mark, under the dispatch gate. *)
Definition reserve (receipt : CommandReceipt) (admission : CanaryAdmission) (prepared : PreparedPolymarketBuy) : act unit :=
  killed ← load_killed;
  if killed : bool then fails KilledError
  else
    _ ← commit (AttemptReserved admission prepared receipt);
    commit (PostInFlight (adm_identity admission) (pb_order_hash prepared) (pb_post_body_hash prepared)).

Definition cancel_failed_order (identity order_id : string) : act unit :=
  n ← tick;
  _ ← effect (CancelledOrder order_id);
  _ ← poll_kill;
  match cancel_order_once n order_id with
  | Ok response =>
      _ ← capture_evidence identity [HttpResponse response];
      when (negb ((200 <=? rsp_status response) && (rsp_status response <? 300)))
        (commit (AdmissionClosed CancellationFailed None))
  | Err failure =>
      _ ← capture_evidence identity [HttpTransportFailure failure];
      commit (AdmissionClosed CancellationFailed None)
  end.

(** The POST and everything after it. *)
Definition post_and_settle (identity : string) (submission : PreparedSubmission) : act CanaryCampaignState :=
  observed ← now;
  n ← tick;
  _ ← effect (PostedOrder (sub_prepared submission));
  _ ← poll_kill;
  match post_order_once n submission with
  | Some (Err failure) =>
      _ ← capture_evidence identity [HttpTransportFailure failure];
      recover_ambiguous_post (transport_error_str (tf_error_class failure))
  | None =>
      received ← now;
      _ ← capture_evidence identity [HttpTransportFailure (timeout_failure observed received)];
      recover_ambiguous_post "timeout"
  | Some (Ok response) =>
      _ ← capture_evidence identity [HttpResponse response];
      match parse_post_response response with
      | Err error => recover_ambiguous_post error
      | Ok result =>
          _ ← commit (PostReturned identity (por_success result) (por_definitive result) (por_order_id result)
                        (por_error_message result));
          _ ← when (negb (por_definitive result)) (commit (RecoveryRequired VenueAmbiguous));
          _ ← when (negb (por_success result) && bool_decide (por_order_id result ≠ EmptyString))
                (cancel_failed_order identity (por_order_id result));
          _ ← capture_reconciliation "post_return" None;
          s ← get_state;
          match st_pending s with
          | Some attempt =>
              if decide (pend_identity attempt = identity) then refuses AdmissionMismatch else mret s
          | None => mret s
          end
      end
  end.

Definition dispatch (receipt : CommandReceipt) (admission : CanaryAdmission) (request : V2BuyRequest)
    (evidence : list RawEvidence) : act CanaryCampaignState :=
  killed ← load_killed;
  if killed : bool then fails KilledError
  else if bool_decide (evidence = []) then refuses AdmissionMismatch
  else
    evidence_hashes ← capture_evidence (adm_identity admission) evidence;
    if negb (evidence_matches_quote (q_metadata_hashes (adm_quote admission))
               (q_snapshot_raw_hash (adm_quote admission)) evidence_hashes)
    then refuses AdmissionMismatch
    else
      n ← tick;
      submission ← from_result (map_err PostError (prepare_buy n request));
      let prepared := sub_prepared submission in
      preflight ← capture_reconciliation "pre_reservation" None;
      s ← get_state;
      t ← now;
      _ ← from_panicking (validate admission s prepared t preflight);
      _ ← reserve receipt admission prepared;
      post_and_settle (adm_identity admission) submission.

(** ** Commands *)
Definition arm (receipt : CommandReceipt) (authorization : CampaignAuthorization) : act CanaryCampaignState :=
  killed ← load_killed;
  if killed : bool then fails KilledError
  else once receipt (
    t ← now;
    _ ← from_state_result (validate_authorization authorization t);
    snapshot ← capture_reconciliation "arm_probes" None;
    if bool_decide (rec_free_collateral snapshot = CAMPAIGN_START_COLLATERAL)
       && bool_decide (rec_allowance snapshot = ca_allowance authorization)
       && rec_standard_spender_only snapshot && negb (rec_geoblocked snapshot) && negb (rec_closed_only snapshot)
       && bool_decide (rec_open_order_ids snapshot = []) && bool_decide (rec_all_trade_ids snapshot = [])
       && (rec_position_count snapshot =? 0) && negb (rec_unexpected_activity snapshot)
    then _ ← commit (CampaignArmed authorization receipt); get_state
    else refuses AdmissionMismatch).

Definition review_probe (receipt : CommandReceipt) (campaign_id : string) (ordinal : Z) : act CanaryCampaignState :=
  once receipt (
    s ← get_state;
    hash ← from_state_result (reviewable_probe_hash s);
    match hash with
    | Some hash => _ ← commit (ProbeReviewAccepted campaign_id ordinal hash receipt); get_state
    | None => refuses InvalidAttempt
    end).

Definition arm_organic (receipt : CommandReceipt) (authorization : OrganicStageAuthorization) : act CanaryCampaignState :=
  once receipt (
    t ← now;
    if negb (odt_ltb t (os_expires_at authorization)) then refuses AuthorityMismatch
    else
      snapshot ← capture_reconciliation "advance_organic" None;
      if negb (rec_geoblocked snapshot) && negb (rec_closed_only snapshot)
         && negb (rec_unexpected_activity snapshot) && bool_decide (rec_open_order_ids snapshot = [])
      then _ ← commit (OrganicStageArmed authorization receipt); get_state
      else refuses AdmissionMismatch).

Definition skip (receipt : CommandReceipt) (identity reason : string) (evidence : list RawEvidence) : act CanaryCampaignState :=
  once receipt (
    evidence_hashes ← capture_evidence identity evidence;
    _ ← commit (PreReservationSkipped identity reason evidence_hashes receipt);
    get_state).

Definition reconcile (receipt : option CommandReceipt) (context : string) : act CanaryCampaignState :=
  let body :=
    s ← get_state;
    if st_shutdown_reconciliation_designated s then mret s
    else _ ← capture_reconciliation context receipt; get_state in
  match receipt with Some receipt => once receipt body | None => body end.

Definition shutdown (work_deadline : option Z) : act CanaryCampaignState :=
  s ← get_state;
  if bool_decide (st_campaign_id s = None) then mret s
  else
    reconciled ← (if st_shutdown_reconciliation_designated s
                  then mret (st_shutdown_reconciliation_succeeded s)
                  else _ ← stm_modify (λ a, a <| a_final_requested := true |>);
                       r ← attempt (capture_reconciliation_until "shutdown_final" None work_deadline);
                       mret (is_ok r));
    s ← get_state;
    _ ← (if negb reconciled || bool_decide (is_Some (st_pending s)) then commit (RecoveryRequired VenueAmbiguous)
         else if decide (st_stage s = Closed) then mret tt
         else commit (AdmissionClosed Killed None));
    get_state.

(** The reply of a command and whether the actor stops. *)
Definition handle (command : Command) : act (result CanaryActorError CanaryCampaignState * bool) :=
  match command with
  | ArmCommand receipt authorization => r ← attempt (arm receipt authorization); mret (r, false)
  | ReviewProbeCommand receipt campaign_id ordinal =>
      r ← attempt (review_probe receipt campaign_id ordinal); mret (r, false)
  | ArmOrganicCommand receipt authorization => r ← attempt (arm_organic receipt authorization); mret (r, false)
  | DispatchCommand receipt admission request evidence =>
      r ← attempt (once receipt (dispatch receipt admission request evidence)); mret (r, false)
  | SkipCommand receipt identity reason evidence => r ← attempt (skip receipt identity reason evidence); mret (r, false)
  | ReconcileCommand receipt context => r ← attempt (reconcile receipt context); mret (r, false)
  | StatusCommand => s ← get_state; mret (Ok s, false)
  | ShutdownCommand work_deadline => r ← attempt (shutdown work_deadline); mret (r, true)
  end.

(** ** The priority kill and the loop *)
Definition serve_kill (request : KillRequest) : act unit :=
  s ← get_state;
  seen ← from_result (check_receipt s (kill_receipt request));
  if seen || bool_decide (st_campaign_id s = None) then mret tt
  else
    closed ← attempt (commit (AdmissionClosed Killed (Some (kill_receipt request))));
    s ← get_state;
    failed ← match closed with
             | Err _ => mret false
             | Ok _ =>
                 if st_shutdown_reconciliation_designated s then mret (negb (st_shutdown_reconciliation_succeeded s))
                 else r ← attempt (capture_reconciliation_until "operator_kill" None (kill_deadline request));
                      mret (negb (is_ok r))
             end;
    if failed : bool then commit (RecoveryRequired VenueAmbiguous) else from_result closed.

Definition fatal (r : result CanaryActorError unit) : bool :=
  match r with Err (StateError (EventLogError _)) => true | _ => false end.

(** One turn of [run]'s loop; [true] breaks it.  The kill branch has priority. *)
Definition turn (commands : list Command) : act (list Command * bool) :=
  _ ← poll_kill;
  a ← stm_get;
  match a_kill_request a, commands with
  | Some request, _ =>
      _ ← stm_modify (λ a, a <| a_kill_request := None |>);
      r ← attempt (serve_kill request);
      a ← stm_get;
      mret (commands, fatal r || a_journal_failed a)
  | None, [] => mret ([], true)
  | None, command :: commands =>
      r ← handle command;
      a ← stm_get;
      mret (commands, r.2 || a_journal_failed a)
  end.
Fixpoint serve (turns : nat) (commands : list Command) : act unit :=
  match turns with
  | O => mret tt
  | S turns => r ← turn commands; if r.2 : bool then mret tt else serve turns r.1
  end.

Definition run (turns : nat) (commands : list Command) : act unit :=
  s ← get_state;
  started ← (if bool_decide (is_Some (st_pending s))
             then r ← attempt (commit (AdmissionClosed VenueAmbiguous None)); mret (is_ok r)
             else mret true);
  if negb started then mret tt
  else
    s ← get_state;
    _ ← when (bool_decide (is_Some (st_campaign_id s)))
          (r ← attempt (capture_reconciliation "startup_recovery" None);
           when (negb (is_ok r)) (_ ← attempt (commit (RecoveryRequired VenueAmbiguous)); mret tt));
    serve turns commands.

(** [CanaryActor::new] *)
Definition new_actor (s : CanaryCampaignState) (j : journal) : Actor := {|
  a_state := s; a_journal := j; a_killed := st_kill_latched s || bool_decide (is_Some (st_pending s));
  a_final_requested := false; a_kill_request := None; a_journal_failed := false; a_clock := 0; a_trace := []
|}.

End ActorModel.

Definition reserved_order `{TO : TimeOps} `{DO : DecimalOps} (e : CanaryEvent) : option PreparedPolymarketBuy :=
  match e with AttemptReserved _ prepared _ => Some prepared | _ => None end.
Definition reserved_orders `{TO : TimeOps} `{DO : DecimalOps} (events : list CanaryEvent) : list PreparedPolymarketBuy :=
  omap reserved_order events.

Create HintDb actor.

(** ** Invariants of the actor

    [Stable I] says what an invariant must survive: changes of the flags, the slot
    and the clock (a latched kill stays latched), journaled events that reserve
    nothing, and a cancellation.  Every handler but [dispatch] then preserves it. *)
Section Invariants.
Context `{TO : TimeOps} `{DO : DecimalOps} {B3 : Blake3} {JO : Journal} {W : CanaryWorld}.
Context {V1 : ToVec EvidenceCommitment} {V2 : ToVec ArtifactCommitment} {V3 : ToVec probe_payload}.
Context {V4 : ToVec CampaignAuthorization} {V5 : ToVec (list string)}.
Context {V6 : ToVec (string * string * string * option VenueOrderId * option bool
                     * option ExactExecutionReport * list string)}.
Context {V7 : ToVec OrganicDecisionProof}.

Definition preserves (I : Actor → Prop) {A} (m : stm Actor Stop A) : Prop := ∀ a, I a → I (m a).1.
Class Stable (I : Actor → Prop) : Prop := {
  stable_frame a a' : a_trace a' = a_trace a → a_journal a' = a_journal a → a_state a' = a_state a →
    (a_killed a = true → a_killed a' = true) → I a → I a';
  stable_commit e : reservation e = None → preserves I (commit e);
  stable_cancelled id : preserves I (effect (CancelledOrder id))
}.
Context (I : Actor → Prop) {St : Stable I}.

Lemma preserves_mret {A} (x : A) : preserves I (mret x).
Proof. by intros a. Qed.
Lemma preserves_bind {A B} (m : stm Actor Stop A) (k : A → stm Actor Stop B) :
  preserves I m → (∀ x, preserves I (k x)) → preserves I (m ≫= k).
Proof.
  intros Hm Hk a Ha. unfold mbind, stm_mbind. specialize (Hm a Ha). destruct (m a) as [a' [x|e]]; [|done]. by apply Hk.
Qed.
Lemma preserves_fail {A} e : preserves I (A := A) (stm_fail e).
Proof. by intros a. Qed.
Lemma preserves_lift {A} (r : result Stop A) : preserves I (stm_lift r).
Proof. by intros a. Qed.
Lemma preserves_attempt {A} (m : stm Actor Stop A) : preserves I m → preserves I (attempt m).
Proof.
  intros Hm a Ha. unfold attempt. specialize (Hm a Ha). by destruct (m a) as [a' [x|[e|]]].
Qed.
Lemma preserves_panicking {A} (r : panicking CanaryStateError A) : preserves I (from_panicking r).
Proof. destruct r; [apply preserves_lift|apply preserves_fail]. Qed.
Lemma preserves_get : preserves I stm_get.
Proof. by intros a. Qed.
Lemma preserves_get_state : preserves I get_state.
Proof. by intros a. Qed.
(** A change of the flags, the slot or the clock. *)
Lemma preserves_flags f :
  (∀ a, a_trace (f a) = a_trace a ∧ a_journal (f a) = a_journal a ∧ a_state (f a) = a_state a
        ∧ (a_killed a = true → a_killed (f a) = true)) →
  preserves I (stm_modify f).
Proof. intros Hf a Ha. destruct (Hf a) as (E1 & E2 & E3 & E4). by apply (stable_frame a). Qed.
Lemma preserves_tick : preserves I tick.
Proof. intros a. by apply stable_frame. Qed.
Lemma latch_kill_frame r a : a_trace (latch_kill r a) = a_trace a ∧ a_journal (latch_kill r a) = a_journal a
  ∧ a_state (latch_kill r a) = a_state a ∧ (a_killed a = true → a_killed (latch_kill r a) = true).
Proof. unfold latch_kill. by case_match. Qed.
Lemma preserves_poll : preserves I poll_kill.
Proof.
  apply preserves_bind; [apply preserves_tick|]. intros n. case_match; [|apply preserves_mret].
  apply preserves_flags. intros a. apply latch_kill_frame.
Qed.
End Invariants.

(** Prove [preserves] by following the program. *)
Ltac preserve :=
  repeat first
    [ apply preserves_mret | apply preserves_fail | apply preserves_lift | apply preserves_get
    | apply preserves_get_state | apply preserves_tick; exact _ | apply preserves_poll; exact _ | apply preserves_panicking
    | solve [eauto with actor typeclass_instances]
    | apply preserves_attempt
    | apply preserves_bind; [|intros ?]
    | case_match ].

Section Handlers.
Context `{TO : TimeOps} `{DO : DecimalOps} {B3 : Blake3} {JO : Journal} {W : CanaryWorld}.
Context {V1 : ToVec EvidenceCommitment} {V2 : ToVec ArtifactCommitment} {V3 : ToVec probe_payload}.
Context {V4 : ToVec CampaignAuthorization} {V5 : ToVec (list string)}.
Context {V6 : ToVec (string * string * string * option VenueOrderId * option bool
                     * option ExactExecutionReport * list string)}.
Context {V7 : ToVec OrganicDecisionProof}.
Context (I : Actor → Prop) {St : Stable I}.

Lemma preserves_now : preserves I now.
Proof. unfold now. preserve. Qed.
Lemma preserves_instant : preserves I instant.
Proof. unfold instant. preserve. Qed.
Lemma preserves_load_killed : preserves I load_killed.
Proof. unfold load_killed. preserve. Qed.
Lemma preserves_load_final : preserves I load_final_requested.
Proof. unfold load_final_requested. preserve. Qed.
Hint Resolve preserves_now preserves_instant preserves_load_killed preserves_load_final stable_cancelled : actor.
Hint Extern 1 (preserves _ (commit _)) => (apply stable_commit; reflexivity) : actor.

Lemma preserves_capture_evidence identity evidence : preserves I (capture_evidence identity evidence).
Proof.
  induction evidence as [|o evidence IH]; [apply preserves_mret|]. cbn [capture_evidence].
  apply preserves_bind; [|intros _]. { apply stable_commit. by destruct o. }
  apply preserves_bind; [apply preserves_lift|]. intros h. apply preserves_bind; [done|]. intros hs. apply preserves_mret.
Qed.
Hint Resolve preserves_capture_evidence : actor.
Lemma preserves_record_failure {A} context error : preserves I (record_reconciliation_failure (A := A) context error).
Proof. unfold record_reconciliation_failure. preserve. Qed.
Hint Resolve preserves_record_failure : actor.
Lemma preserves_close_after snapshot d1 d2 : preserves I (close_after snapshot d1 d2).
Proof. unfold close_after, expired. preserve. Qed.
Hint Resolve preserves_close_after : actor.
Lemma preserves_deadline d : preserves I (reconciliation_deadline d).
Proof. unfold reconciliation_deadline. preserve. Qed.
Hint Resolve preserves_deadline : actor.
Lemma preserves_reconciliation context receipt d : preserves I (capture_reconciliation_until context receipt d).
Proof. unfold capture_reconciliation_until. preserve. Qed.
Hint Resolve preserves_reconciliation : actor.
Lemma preserves_capture_reconciliation context receipt : preserves I (capture_reconciliation context receipt).
Proof. apply preserves_reconciliation. Qed.
Hint Resolve preserves_capture_reconciliation : actor.
Lemma preserves_recover {A} error : preserves I (recover_ambiguous_post (A := A) error).
Proof. unfold recover_ambiguous_post. preserve. Qed.
Hint Resolve preserves_recover : actor.
Lemma preserves_cancel identity order_id : preserves I (cancel_failed_order identity order_id).
Proof. unfold cancel_failed_order. preserve. Qed.
Hint Resolve preserves_cancel : actor.

Lemma preserves_once receipt body : preserves I body → preserves I (once receipt body).
Proof. intros Hb. unfold once. preserve. Qed.
Hint Resolve preserves_once : actor.

(** With [dispatch], the whole actor. *)
Hypothesis dispatch_preserves : ∀ receipt admission request evidence,
  preserves I (dispatch receipt admission request evidence).
Hint Resolve dispatch_preserves : actor.

Lemma preserves_handle command : preserves I (handle command).
Proof.
  destruct command; cbn [handle].
  - unfold arm. preserve.
  - unfold review_probe. preserve.
  - unfold arm_organic. preserve.
  - preserve.
  - unfold skip. preserve.
  - unfold reconcile. preserve.
  - preserve.
  - unfold shutdown. preserve. by apply preserves_flags.
Qed.
Lemma preserves_serve_kill request : preserves I (serve_kill request).
Proof. unfold serve_kill. preserve. Qed.
Hint Resolve preserves_handle preserves_serve_kill : actor.
Lemma preserves_turn commands : preserves I (turn commands).
Proof. unfold turn. preserve. by apply preserves_flags. Qed.
Lemma preserves_serve turns : ∀ commands, preserves I (serve turns commands).
Proof.
  induction turns as [|turns IH]; intros commands; cbn [serve]; [apply preserves_mret|].
  apply preserves_bind; [apply preserves_turn|]. intros r. case_match; [apply preserves_mret|apply IH].
Qed.
Lemma preserves_run turns commands : preserves I (run turns commands).
Proof. unfold run. preserve. apply preserves_serve. Qed.

End Handlers.
#[export] Hint Resolve preserves_now preserves_instant preserves_load_killed preserves_load_final stable_cancelled
  preserves_capture_evidence preserves_record_failure preserves_close_after preserves_capture_reconciliation
  preserves_recover preserves_cancel : actor.
#[export] Hint Extern 1 (preserves _ (commit _)) => (apply stable_commit; reflexivity) : actor.

(** ** Safety of a session

    [H] is the durable journal the session starts from and [P] the orders posted
    before it. *)

Section Safety.
Context `{TO : TimeOps} `{DO : DecimalOps} {B3 : Blake3} {JO : Journal} {JL : JournalLaws}.
Context {W : CanaryWorld} {WL : CanaryWorldLaws}.
Context {V1 : ToVec EvidenceCommitment} {V2 : ToVec ArtifactCommitment} {V3 : ToVec probe_payload}.
Context {V4 : ToVec CampaignAuthorization} {V5 : ToVec (list string)}.
Context {V6 : ToVec (string * string * string * option VenueOrderId * option bool
                     * option ExactExecutionReport * list string)}.
Context {V7 : ToVec OrganicDecisionProof}.

Definition posted (tr : list Effect) : list PreparedPolymarketBuy :=
  omap (λ e, match e with PostedOrder p => Some p | _ => None end) tr.
Definition journals (tr : list Effect) : list (list CanaryEvent) :=
  omap (λ e, match e with Journaled l => Some l | _ => None end) tr.
(** What a rebuild reads after a crash at this point of the trace. *)
Definition journal_after (H : list CanaryEvent) (tr : list Effect) : list CanaryEvent := default H (last (journals tr)).

(** A journal that names the order and marks it in flight, as its last two events. *)
Definition posting_permitted (l : list CanaryEvent) (p : PreparedPolymarketBuy) : Prop :=
  ∃ l' admission receipt,
    l = l' ++ [AttemptReserved admission p receipt;
               PostInFlight (adm_identity admission) (pb_order_hash p) (pb_post_body_hash p)].
Definition replayable (l : list CanaryEvent) : Prop := Forall event_wf l ∧ ∃ s, replay l = Ok s.

Variables (H : list CanaryEvent) (P : list PreparedPolymarketBuy).
Record safe (a : Actor) : Prop := {
  safe_journal : journal_after H (a_trace a) = recorded (a_journal a);
  safe_state : healthy (a_journal a) = true → replay (recorded (a_journal a)) = Ok (a_state a);
  safe_prefix tr : tr `prefix_of` a_trace a →
    replayable (journal_after H tr) ∧ P ++ posted tr `sublist_of` reserved_orders (journal_after H tr);
  safe_posts tr p tr' : a_trace a = tr ++ PostedOrder p :: tr' → posting_permitted (journal_after H tr) p
}.

#[local] Arguments field_set {R T} proj {_} f r : simpl nomatch.
Lemma snoc_split {A} (l tr tr' : list A) x y : l ++ [x] = tr ++ y :: tr' →
  (tr = l ∧ x = y ∧ tr' = []) ∨ ∃ k, tr' = k ++ [x] ∧ l = tr ++ y :: k.
Proof.
  destruct tr' as [|z k _] using rev_ind; intros E.
  - apply app_inj_tail in E as [-> ->]. by left.
  - right. exists k. change (tr ++ y :: k ++ [z]) with (tr ++ (y :: k) ++ [z]) in E. rewrite (assoc_L (++)) in E.
    by apply app_inj_tail in E as [-> ->].
Qed.

Lemma journal_after_snoc tr e : journal_after H (tr ++ [e]) = match e with Journaled l => l | _ => journal_after H tr end.
Proof.
  unfold journal_after, journals. rewrite omap_app. destruct e; simpl; rewrite ?app_nil_r; [|done|done].
  by rewrite last_snoc.
Qed.
Lemma posted_snoc tr e : posted (tr ++ [e]) = posted tr ++ match e with PostedOrder p => [p] | _ => [] end.
Proof. unfold posted. rewrite omap_app. by destruct e. Qed.

(** Changes outside the journal, the trace and the campaign state. *)
Lemma safe_frame a a' : a_trace a' = a_trace a → a_journal a' = a_journal a → a_state a' = a_state a →
  safe a → safe a'.
Proof. intros E1 E2 E3 [S1 S2 S3 S4]. split; rewrite ?E1, ?E2, ?E3; eauto. Qed.

(** One more effect. *)
Lemma safe_effect a e : safe a →
  (match e with Journaled _ => False | PostedOrder p =>
     posting_permitted (recorded (a_journal a)) p
     ∧ P ++ posted (a_trace a) ++ [p] `sublist_of` reserved_orders (recorded (a_journal a))
   | CancelledOrder _ => True end) →
  safe (a <| a_trace := a_trace a ++ [e] |>).
Proof.
  intros [S1 S2 S3 S4] He. split; cbn [a_trace a_journal a_state field_set].
  - rewrite journal_after_snoc. by destruct e.
  - done.
  - intros tr [Htr| ->]%prefix_snoc; [by apply S3|]. rewrite journal_after_snoc, posted_snoc.
    destruct (S3 _ (reflexivity _)) as [Hr Hs]. destruct e as [l|p|id]; [done| |by rewrite app_nil_r].
    split; [done|]. rewrite S1. apply He.
  - intros tr p tr' [(-> & -> & ->)|(k & -> & E)]%snoc_split; [|by eapply S4]. rewrite S1. apply He.
Qed.

(** A journal append, with the state it leaves. *)
Lemma safe_append a e t j r next : safe a → event_wf e → apply_result (a_state a) e = Ok next →
  append_sync e t (a_journal a) = (j, r) →
  safe (a <| a_journal := j |> <| a_trace := a_trace a ++ [Journaled (recorded j)] |>
          <| a_state := match r with Ok _ => next | Err _ => a_state a end |>)
  ∧ match r with Ok _ => recorded j = recorded (a_journal a) ++ [e] | Err _ => True end.
Proof.
  intros [S1 S2 S3 S4] He Ha Hj.
  assert (recorded j = recorded (a_journal a) ∨ recorded j = recorded (a_journal a) ++ [e] ∧ healthy (a_journal a) = true)
    as Hrec.
  { destruct r as [[]|x]; [apply append_sync_Ok in Hj|apply append_sync_Err in Hj]; naive_solver. }
  assert (replayable (recorded j) ∧ P ++ posted (a_trace a) `sublist_of` reserved_orders (recorded j)) as Hnew.
  { destruct (S3 _ (reflexivity _)) as [Hr Hs]. rewrite S1 in Hr, Hs. destruct Hrec as [-> | [-> Hh]]; [done|]. split.
    - destruct Hr as [Hw _]. split; [apply Forall_app; split; [done|by apply Forall_singleton]|].
      exists next. unfold replay in *. rewrite try_fold_app, (S2 Hh). simpl. by rewrite Ha.
    - unfold reserved_orders. rewrite omap_app. by apply sublist_inserts_r. }
  split; [|by destruct r as [[]|x]; [apply append_sync_Ok in Hj|]; naive_solver].
  split; cbn [a_trace a_journal a_state field_set].
  - by rewrite journal_after_snoc.
  - intros Hh. destruct r as [[]|x].
    + apply append_sync_Ok in Hj as (Hh0 & _ & ->). unfold replay in *. rewrite try_fold_app, (S2 Hh0). simpl. by rewrite Ha.
    + apply append_sync_Err in Hj as [[-> E]|(_ & E & _)]; [|congruence]. apply S2. congruence.
  - intros tr [Htr| ->]%prefix_snoc; [by apply S3|]. rewrite journal_after_snoc, posted_snoc, app_nil_r. done.
  - intros tr p tr' [(_ & E & _)|(k & -> & E)]%snoc_split; [done|by eapply S4].
Qed.

(** [commit]: the event is durable before the state moves. *)
Lemma commit_spec e a : safe a → event_wf e →
  safe (commit e a).1
  ∧ ((commit e a).2 = Ok tt → recorded (a_journal (commit e a).1) = recorded (a_journal a) ++ [e]
                              ∧ posted (a_trace (commit e a).1) = posted (a_trace a)).
Proof.
  intros Ha He. unfold commit, get_state, from_state_result, from_result, now, tick, refuses, fails.
  cbv beta iota zeta delta [mbind stm_mbind stm_get stm_modify stm_lift mret stm_mret stm_fail].
  destruct (apply_result (a_state a) e) as [next|x] eqn:Hap; cbn; [|by split].
  destruct (append_sync e (now_utc (a_clock a)) (a_journal a)) as [j r] eqn:Hj.
  destruct (safe_append _ _ _ _ _ _ Ha He Hap Hj) as [Hs Hr].
  destruct r as [[]|x]; cbn; (split; [eapply safe_frame; [..|exact Hs]; done|]).
  - intros _. split; [done|]. by rewrite posted_snoc, app_nil_r.
  - done.
Qed.
Lemma event_wf_other e : reservation e = None → event_wf e.
Proof. intros E o d H'. congruence. Qed.
#[local] Instance safe_stable : Stable safe.
Proof.
  split.
  - intros a a' E1 E2 E3 _. by apply safe_frame.
  - intros e He a Ha. by apply commit_spec, event_wf_other.
  - intros id a Ha. by apply (safe_effect a (CancelledOrder id)).
Qed.

(** The journal ends with the reservation and the in-flight mark of [p], and what
    was posted before is among the earlier reservations. *)
Definition ready (a : Actor) (p : PreparedPolymarketBuy) : Prop :=
  ∃ l admission receipt,
    recorded (a_journal a)
    = l ++ [AttemptReserved admission p receipt;
            PostInFlight (adm_identity admission) (pb_order_hash p) (pb_post_body_hash p)]
    ∧ P ++ posted (a_trace a) `sublist_of` reserved_orders l.

Lemma reserve_spec receipt admission p a : safe a → amount_wf (pb_worst_case_debit p) →
  safe (reserve receipt admission p a).1
  ∧ ((reserve receipt admission p a).2 = Ok tt → ready (reserve receipt admission p a).1 p).
Proof.
  intros Ha Hp. unfold reserve. unfold mbind at 1 3 5, stm_mbind.
  pose proof (preserves_load_killed safe a Ha) as H1. destruct (load_killed a) as [a1 [[]|e]]; [done| |done].
  simpl in H1. assert (event_wf (AttemptReserved admission p receipt)) as Hw by (by intros o d [= <- <-]).
  destruct (commit_spec _ _ H1 Hw) as [H2 R2]. unfold mbind, stm_mbind.
  destruct (commit (AttemptReserved admission p receipt) a1) as [a2 [[]|e]]; [|done]. simpl in *.
  assert (event_wf (PostInFlight (adm_identity admission) (pb_order_hash p) (pb_post_body_hash p))) as Hw'
    by (by apply event_wf_other).
  destruct (commit_spec _ _ H2 Hw') as [H3 R3]. split; [done|]. intros E.
  destruct (R2 eq_refl) as [J2 T2]. destruct (R3 E) as [J3 T3].
  exists (recorded (a_journal a1)), admission, receipt. split.
  - rewrite J3, J2. by rewrite <- (assoc_L (++)).
  - rewrite T3, T2. destruct (safe_prefix _ H1 _ (reflexivity _)) as [_ Hs]. by rewrite (safe_journal _ H1) in Hs.
Qed.

Lemma ready_frame a a' p : a_trace a' = a_trace a → a_journal a' = a_journal a → ready a p → ready a' p.
Proof. unfold ready. by intros -> ->. Qed.

(** The POST is permitted when the order is ready. *)
Lemma post_safe a p : safe a → ready a p → safe (a <| a_trace := a_trace a ++ [PostedOrder p] |>).
Proof.
  intros Ha (l & admission & receipt & Hl & Hs). apply safe_effect; [done|]. rewrite Hl. split.
  - by exists l, admission, receipt.
  - unfold reserved_orders in *. rewrite omap_app. simpl. rewrite (assoc_L (++)). by apply sublist_app.
Qed.
Lemma post_and_settle_safe identity submission a : safe a → ready a (sub_prepared submission) →
  safe (post_and_settle identity submission a).1.
Proof.
  intros Ha Hr. unfold post_and_settle.
  unfold mbind at 1, stm_mbind at 1. unfold now, mbind at 1, stm_mbind at 1, tick at 1. cbn [mret stm_mret].
  unfold mbind at 1, stm_mbind at 1, tick at 1. unfold mbind at 1, stm_mbind at 1, effect at 1, stm_modify at 1.
  match goal with |- safe ((?rest) ?a1).1 => assert (safe a1 ∧ preserves safe rest) as [H1 H2]; [|by apply H2] end.
  split; [|preserve].
  set (a1 := (a <| a_clock := _ |>) <| a_clock := _ |>).
  apply (post_safe a1); [by apply (safe_frame a)|by apply (ready_frame a)].
Qed.

Lemma preserves_dispatch receipt admission request evidence : preserves safe (dispatch receipt admission request evidence).
Proof.
  unfold dispatch. apply preserves_bind; [preserve|]. intros killed. destruct killed; [apply preserves_fail|].
  case_match; [apply preserves_fail|]. apply preserves_bind; [preserve|]. intros hashes.
  case_match; [apply preserves_fail|]. apply preserves_bind; [preserve|]. intros n.
  destruct (prepare_buy n request) as [submission|e] eqn:Hprep.
  2:{ intros a Ha. done. }
  assert (amount_wf (pb_worst_case_debit (sub_prepared submission))) as Hwf by (by eapply prepared_debit_u64).
  intros a Ha. unfold mbind at 1, stm_mbind at 1. simpl. revert a Ha.
  apply preserves_bind; [preserve|]. intros preflight. apply preserves_bind; [apply preserves_get_state|]. intros s.
  apply preserves_bind; [preserve|]. intros t. apply preserves_bind; [apply preserves_panicking|]. intros _.
  intros a Ha. unfold mbind, stm_mbind.
  destruct (reserve_spec receipt admission (sub_prepared submission) a Ha Hwf) as [Hs Hr].
  destruct (reserve receipt admission (sub_prepared submission) a) as [a1 [[]|e]]; [|done].
  apply post_and_settle_safe; [done|by apply Hr].
Qed.
(** The safety of a whole session, from a rebuilt journal. *)
Lemma session_safe s j turns commands :
  recorded j = H → healthy j = true → replay H = Ok s → Forall event_wf H → P `sublist_of` reserved_orders H →
  safe (run turns commands (new_actor s j)).1.
Proof.
  intros Hj Hh Hr Hw HP. apply preserves_run; [exact _|exact preserves_dispatch|]. split; cbn.
  - done.
  - by rewrite Hj.
  - intros tr ->%prefix_nil_inv. rewrite app_nil_r. split; [|done]. split; [done|by exists s].
  - intros tr p tr' E. by destruct tr.
Qed.
End Safety.

(** ** The life of a campaign *)
Section Lifetime.
Context `{TO : TimeOps} `{DO : DecimalOps} {B3 : Blake3} {JO : Journal} {JL : JournalLaws}.
Context {V1 : ToVec EvidenceCommitment} {V2 : ToVec ArtifactCommitment} {V3 : ToVec probe_payload}.
Context {V4 : ToVec CampaignAuthorization} {V5 : ToVec (list string)}.
Context {V6 : ToVec (string * string * string * option VenueOrderId * option bool
                     * option ExactExecutionReport * list string)}.
Context {V7 : ToVec OrganicDecisionProof}.

Definition order_debit (p : PreparedPolymarketBuy) : Z := atomic (pb_worst_case_debit p).
Lemma reserved_orders_debits events : order_debit <$> reserved_orders events = (reservations events).*2.
Proof.
  unfold reserved_orders, reservations. induction events as [|e events IH]; [done|]. csimpl. rewrite fmap_app, <- IH.
  by destruct e.
Qed.

(** The durable journal and the orders posted so far, over any number of sessions.
    Each session is a fresh process that rebuilds its state from the journal, meets
    an arbitrary world and arbitrary commands, and ends or crashes after any prefix
    of its effects. *)
Inductive lifetime : list CanaryEvent → list PreparedPolymarketBuy → Prop :=
| life_start : lifetime [] []
| life_session H P (W : CanaryWorld) (WL : CanaryWorldLaws) j s turns commands tr :
    lifetime H P → recorded j = H → healthy j = true → replay H = Ok s →
    tr `prefix_of` a_trace (run turns commands (new_actor s j)).1 →
    lifetime (journal_after H tr) (P ++ posted tr).

Lemma lifetime_replayable H P : lifetime H P → replayable H ∧ P `sublist_of` reserved_orders H.
Proof.
  induction 1 as [|H P W WL j s turns commands tr _ [[Hw _] HP] Hj Hh Hr Htr].
  - split; [|done]. split; [constructor|by eexists].
  - exact (safe_prefix _ _ _ (session_safe H P s j turns commands Hj Hh Hr Hw HP) tr Htr).
Qed.

Lemma lifetime_bounded H P : lifetime H P →
  P `sublist_of` reserved_orders H ∧ (length P ≤ 8)%nat ∧ sum_with order_debit P ≤ 8000000
  ∧ ∃ s, replay H = Ok s.
Proof.
  intros HL. destruct (lifetime_replayable H P HL) as [[Hw [s Hs]] HP].
  destruct (replay_run H s Hs Hw) as (_ & _ & Hpr & Hor & Hpos & Hsum & _).
  cbn [c_reserved view] in *. pose proof (reserved_orders_debits H) as Hd.
  split_and!; [done| | |by exists s].
  - apply sublist_length in HP. apply (f_equal length) in Hd. rewrite !length_fmap in Hd.
    pose proof (slots_used_total (reservations H)). unfold PROBE_POST_LIMIT, ORGANIC_POST_LIMIT in *. lia.
  - assert (Forall (λ d, 0 < d) (order_debit <$> reserved_orders H)) as Hall
      by (rewrite Hd; apply Forall_fmap; eapply Forall_impl; [exact Hpos|]; done).
    rewrite Forall_fmap in Hall. etrans; [apply (sum_with_sublist _ _ _ HP)|].
    { eapply Forall_impl; [exact Hall|]. simpl. unfold compose. intros. lia. }
    change order_debit with (id ∘ order_debit). rewrite <- sum_with_fmap, Hd, sum_with_fmap. exact Hsum.
Qed.

(** C1: However a campaign is run - any commands, venue answers, kills, journal
    failures, crashes at any point and restarts - the orders it ever posts are
    among those its durable journal reserved, in order and without repetition: at
    most eight orders, with worst-case debits of at most eight dollars together,
    and the journal always replays. *)
Theorem campaign_lifetime_bounded H P : lifetime H P →
  P `sublist_of` reserved_orders H ∧ (length P ≤ 8)%nat ∧ sum_with order_debit P ≤ 8000000
  ∧ ∃ s, replay H = Ok s.
Proof. apply lifetime_bounded. Qed.

Lemma in_flight_pending l i h b r : replay (l ++ [PostInFlight i h b]) = Ok r →
  ∃ q, st_pending r = Some q ∧ pend_phase q = PostInFlightPhase ∧ pend_order_hash q = h.
Proof.
  unfold replay. rewrite try_fold_app. intros (s & _ & E)%result_bind_Ok.
  apply result_bind_Ok in E as (s' & E%apply_result_Ok & [= <-]).
  cbn [apply] in E. unfold apply_post_in_flight, pending_mut in E.
  apply stm_bind_Ok in E as (q & s1 & Hq & E). apply stm_bind_Ok in Hq as (? & ? & [= <- <-] & Hq).
  destruct (st_pending s) as [q'|]; [|done]. case_decide; [|done]. injection Hq as <- <-.
  destruct (bool_decide (pend_phase q' ≠ Reserved)); [done|].
  destruct (bool_decide (pend_prepared_body_hash q' ≠ b)); [done|].
  destruct (bool_decide (pend_order_hash q' ≠ h)) eqn:Hh; [done|]. injection E as <-.
  apply bool_decide_eq_false, dec_stable in Hh. by eexists.
Qed.

(** C2: Every order is sent only after its intent is durable: at the moment of a
    POST the journal ends with the reservation of that very order and its in-flight
    mark, so a restart finds the attempt pending whatever happens next. *)
Theorem posts_follow_durable_intent (W : CanaryWorld) (WL : CanaryWorldLaws) H P j s turns commands tr p tr' :
  lifetime H P → recorded j = H → healthy j = true → replay H = Ok s →
  a_trace (run turns commands (new_actor s j)).1 = tr ++ PostedOrder p :: tr' →
  posting_permitted (journal_after H tr) p
  ∧ ∃ r q, replay (journal_after H tr) = Ok r ∧ st_pending r = Some q
    ∧ pend_phase q = PostInFlightPhase ∧ pend_order_hash q = pb_order_hash p.
Proof.
  intros HL Hj Hh Hr Htr. destruct (lifetime_replayable H P HL) as [[Hw _] HP].
  pose proof (session_safe H P s j turns commands Hj Hh Hr Hw HP) as Hsafe.
  pose proof (safe_posts _ _ _ Hsafe tr p tr' Htr) as Hp. split; [done|].
  destruct (safe_prefix _ _ _ Hsafe tr) as [[_ [r Hrep]] _]; [by exists (PostedOrder p :: tr')|].
  exists r. destruct Hp as (l & admission & receipt & El). rewrite El in Hrep |- *.
  destruct (in_flight_pending (l ++ [AttemptReserved admission p receipt]) (adm_identity admission)
              (pb_order_hash p) (pb_post_body_hash p) r) as (q & ? & ? & ?).
  { by rewrite <- (assoc_L (++)). }
  by exists q.
Qed.
End Lifetime.

(** ** Kills and repeated commands *)
Section Latch.
Context `{TO : TimeOps} `{DO : DecimalOps} {B3 : Blake3} {JO : Journal} {W : CanaryWorld}.
Context {V1 : ToVec EvidenceCommitment} {V2 : ToVec ArtifactCommitment} {V3 : ToVec probe_payload}.
Context {V4 : ToVec CampaignAuthorization} {V5 : ToVec (list string)}.
Context {V6 : ToVec (string * string * string * option VenueOrderId * option bool
                     * option ExactExecutionReport * list string)}.
Context {V7 : ToVec OrganicDecisionProof}.
#[local] Arguments field_set {R T} proj {_} f r : simpl nomatch.

Definition latched (Q : list PreparedPolymarketBuy) (a : Actor) : Prop := a_killed a = true ∧ posted (a_trace a) = Q.

Lemma commit_latched Q e : preserves (latched Q) (commit e).
Proof.
  intros a [Hk HQ]. unfold commit, get_state, from_state_result, from_result, now, tick, refuses, fails.
  cbv beta iota zeta delta [mbind stm_mbind stm_get stm_modify stm_lift mret stm_mret stm_fail].
  destruct (apply_result (a_state a) e) as [next|x]; cbn; [|by split].
  destruct (append_sync e (now_utc (a_clock a)) (a_journal a)) as [j [[]|x]];
    unfold latched, commit_state; cbn [a_trace a_killed field_set fst]; by rewrite posted_snoc, app_nil_r, Hk.
Qed.
#[local] Instance latched_stable Q : Stable (latched Q).
Proof.
  split.
  - intros a a' E1 _ _ Hk [? <-]. split; [by apply Hk|by rewrite E1].
  - intros e _. apply commit_latched.
  - intros id a [Hk HQ]. split; [done|]. cbn [effect stm_modify fst a_trace field_set]. by rewrite posted_snoc, app_nil_r.
Qed.

Lemma load_killed_latched a : a_killed a = true →
  (load_killed a).2 = Ok true ∧ a_trace (load_killed a).1 = a_trace a ∧ a_killed (load_killed a).1 = true.
Proof.
  intros Hk. unfold load_killed, poll_kill, tick.
  cbv beta iota zeta delta [mbind stm_mbind stm_get stm_modify mret stm_mret].
  destruct (kill_arrives (a_clock a)) as [r|]; cbn; [|by rewrite Hk].
  destruct (latch_kill_frame r (a <| a_clock := S (a_clock a) |>)) as (E1 & _ & _ & E4). rewrite E1.
  by rewrite (E4 Hk).
Qed.
Lemma dispatch_latched Q receipt admission request evidence :
  preserves (latched Q) (dispatch receipt admission request evidence).
Proof.
  intros a [Hk HQ]. unfold dispatch, mbind at 1, stm_mbind at 1.
  destruct (load_killed_latched a Hk) as (E1 & E2 & E3). destruct (load_killed a) as [a' r]. cbn in *. subst r.
  split; [done|]. cbn. by rewrite E2.
Qed.

(** C33: A kill is final for orders: once it has latched, no command, however many
    follow, posts another order in this process; and a process restarted on a
    campaign that was killed, or that died with an attempt pending, never posts. *)
Theorem killed_campaign_posts_nothing turns commands :
  (∀ a, a_killed a = true → posted (a_trace (serve turns commands a).1) = posted (a_trace a))
  ∧ ∀ s j, st_kill_latched s = true ∨ is_Some (st_pending s) →
      posted (a_trace (run turns commands (new_actor s j)).1) = [].
Proof.
  split.
  - intros a Hk. apply (preserves_serve (latched (posted (a_trace a)))); [apply dispatch_latched|done].
  - intros s j Hs. apply (preserves_run (latched [])); [apply dispatch_latched|]. split; [|done]. simpl.
    destruct Hs as [-> |Hs]; [done|]. by rewrite (bool_decide_eq_true_2 _ Hs), orb_true_r.
Qed.

Definition receipt_of (command : Command) : option CommandReceipt :=
  match command with
  | ArmCommand r _ | ReviewProbeCommand r _ _ | ArmOrganicCommand r _ | DispatchCommand r _ _ _ | SkipCommand r _ _ _ => Some r
  | ReconcileCommand r _ => r
  | StatusCommand | ShutdownCommand _ => None
  end.

(** Nothing outside the flags and the clock has changed. *)
Definition untouched (a a' : Actor) : Prop :=
  a_trace a' = a_trace a ∧ a_journal a' = a_journal a ∧ a_state a' = a_state a.

Lemma once_seen receipt body a existing : command_receipt (a_state a) (command_id receipt) = Some existing →
  untouched a (once receipt body a).1.
Proof.
  intros Hr. unfold once, get_state, from_result, check_receipt.
  cbv beta iota zeta delta [mbind stm_mbind stm_get stm_lift mret stm_mret]. rewrite Hr. by case_decide.
Qed.
Lemma attempt_untouched {A} (m : stm Actor Stop A) (b : bool) a :
  untouched a (m a).1 → untouched a ((attempt m ≫= λ r, mret (r, b)) a).1.
Proof. unfold attempt, mbind, stm_mbind. by destruct (m a) as [a' [x|[e|]]]. Qed.

Lemma load_killed_untouched a : untouched a (load_killed a).1.
Proof.
  unfold load_killed, poll_kill, tick.
  cbv beta iota zeta delta [mbind stm_mbind stm_get stm_modify mret stm_mret].
  destruct (kill_arrives (a_clock a)) as [r|]; cbn; [|done].
  destruct (latch_kill_frame r (a <| a_clock := S (a_clock a) |>)) as (E1 & E2 & E3 & _).
  exact (conj E1 (conj E2 E3)).
Qed.

(** A command is executed at most once: when its identifier is already among the
    campaign's receipts, handling it again journals nothing, posts nothing and
    leaves the campaign state unchanged. *)
Theorem repeated_command_inert command receipt existing a :
  receipt_of command = Some receipt → command_receipt (a_state a) (command_id receipt) = Some existing →
  untouched a (handle command a).1.
Proof.
  intros Hc Hr. destruct command; simplify_eq/=; apply attempt_untouched.
  - unfold arm, mbind at 1, stm_mbind at 1. destruct (load_killed_untouched a) as (E1 & E2 & E3).
    destruct (load_killed a) as [a' [[]|e]]; cbn in *; [done| |done].
    match goal with |- untouched a (once _ ?b a').1 => destruct (once_seen receipt b a' existing) as (F1 & F2 & F3) end.
    { by rewrite E3. }
    unfold untouched. by rewrite F1, F2, F3.
  - by eapply once_seen.
  - by eapply once_seen.
  - by eapply once_seen.
  - by eapply once_seen.
  - by eapply once_seen.
Qed.
End Latch.

(** ** A session that runs

    An in-memory journal with room for a number of events, after which an append
    records its event but reports a failed sync and the journal refuses the next;
    and a venue that fills the one probe it is sent. *)
Module SampleSession.
Import SampleCampaign SampleAdmission.

Record MemJournal := { mem_events : list (@CanaryEvent ZTime QDecimal); mem_room : nat; mem_healthy : bool }.
#[export] Instance mem_journal : @Journal ZTime QDecimal := {|
  journal := MemJournal;
  append_sync e _ j :=
    if negb (mem_healthy j) then (j, Err Arithmetic)
    else match mem_room j with
         | O => ({| mem_events := mem_events j ++ [e]; mem_room := 0; mem_healthy := false |}, Err Arithmetic)
         | S room => ({| mem_events := mem_events j ++ [e]; mem_room := room; mem_healthy := true |}, Ok tt)
         end;
  recorded := mem_events;
  healthy := mem_healthy
|}.
#[export] Instance mem_journal_laws : @JournalLaws ZTime QDecimal mem_journal.
Proof. split; intros e t [l [|n] []] j'; simpl; naive_solver. Qed.

#[export] Instance vec_evidence : ToVec (@EvidenceCommitment ZTime) := λ c, text [ec_source_id c; ec_body_hash c].
#[export] Instance vec_artifact : ToVec (@ArtifactCommitment ZTime) := λ c, text [ac_source_id c; ac_body_hash c].

Definition evidence : @RawEvidence ZTime := Artifact {|
  art_source_id := "clob"; art_artifact_kind := "book"; art_path := "/book"; art_body := [1; 2; 3];
  art_observed_at := at_second 10; art_received_at := at_second 10; art_schema_version := 1; art_parser_version := 1;
  art_adapter_version := "1" |}.
Definition evidence_hash : string := default EmptyString (result_or None (raw_evidence_hash evidence)).

Definition order : @PreparedPolymarketBuy QDecimal := @Build_PreparedPolymarketBuy QDecimal
  condition yes token "0xwallet" "0xwallet" "0xwallet" "0xspender" "0xspender" 2 false "BUY" "salt" 0 "0"
  (from_atomic 500000) (from_atomic 1000000) half cent 0 "FOK" false false "" "" "order" "body" "1" "sdk"
  [evidence_hash] (from_atomic 500000).
Definition quote : @CanaryQuote ZTime QDecimal := @Build_CanaryQuote ZTime QDecimal
  OperatorProbe "probe-1" evidence_hash 1700000010000 condition yes token "ladder" half half half None cent
  (@Build_Price QDecimal (99 # 100)%Q) cent (from_atomic 1000000) (from_atomic 1000000) (from_atomic 500000)
  [evidence_hash] (at_second 60).
Definition admission : @CanaryAdmission ZTime QDecimal := @Build_CanaryAdmission ZTime QDecimal
  "probe-1" "campaign" OperatorProbe hash "card" quote risk attribution (Some (authority_with hash)) None.
Definition request : @V2BuyRequest QDecimal := @Build_V2BuyRequest QDecimal
  condition yes token half (from_atomic 1000000) (from_atomic 500000) cent [evidence_hash].

Definition response : @RawHttpResponse ZTime := {|
  rsp_source_id := "clob"; rsp_endpoint_kind := "order-post"; rsp_method := "POST"; rsp_path := "/order";
  rsp_ordered_query := []; rsp_status := 200; rsp_headers := []; rsp_body := [7]; rsp_attempt_ordinal := 1;
  rsp_source_at := None; rsp_observed_at := at_second 11; rsp_received_at := at_second 11; rsp_schema_version := 1;
  rsp_parser_version := 1; rsp_adapter_version := "0.7.0" |}.
Definition account_of (pending : option PendingAttempt) : @CanaryReconciliation ZTime :=
  match pending with
  | None => snapshot 200000000 8000000 [] None
  | Some _ => snapshot 199520000 7520000 [position] (Some report)
  end.
#[export] Instance world : @CanaryWorld ZTime QDecimal := @Build_CanaryWorld ZTime QDecimal
  (λ _, at_second 11) (λ _, 0) (λ _, None)
  (λ _ _, Ok (@Build_PreparedSubmission QDecimal order [1]))
  (λ _ _, Some (Ok response)) (λ _ _, Ok response)
  (λ _, Ok (@Build_PostOnceResult QDecimal true true "v1" (480000 # 1)%Q (1000000 # 1)%Q None))
  (λ _ _ _ _, Ok {| raw_evidence := []; protocol_failure := None |})
  (λ _ pending _, Ok (account_of pending)).
#[export] Instance world_laws : @CanaryWorldLaws ZTime QDecimal world.
Proof. split. intros n r s [= <-]. by vm_compute. Qed.

Definition fresh_journal : @journal ZTime QDecimal mem_journal := {| mem_events := []; mem_room := 100; mem_healthy := true |}.
Definition commands : list (@Command ZTime QDecimal) :=
  [ArmCommand (receipt "1") authorization; DispatchCommand (receipt "2") admission request [evidence]].
Definition session : @Actor ZTime QDecimal mem_journal :=
  (run 3 commands (new_actor CanaryCampaignState_default fresh_journal)).1.
Definition trace : list (@Effect ZTime QDecimal) := a_trace session.
(** Where the POST is. *)
Definition is_post (e : @Effect ZTime QDecimal) : bool := match e with PostedOrder _ => true | _ => false end.
Definition post_index : nat := default 0%nat (fst <$> list_find (λ e, Is_true (is_post e)) trace).
Lemma post_at_index : trace !! post_index = Some (PostedOrder order).
Proof. vm_cast_no_check (eq_refl (Some (PostedOrder (TO := ZTime) order))). Qed.
Lemma trace_split : trace = take post_index trace ++ PostedOrder order :: drop (S post_index) trace.
Proof. symmetry. apply take_drop_middle. exact post_at_index. Qed.
Lemma empty_replay : replay (TO := ZTime) (DO := QDecimal) [] = Ok CanaryCampaignState_default.
Proof. reflexivity. Qed.
Lemma session_lifetime : lifetime (journal_after [] trace) ([] ++ posted trace).
Proof.
  apply (life_session [] [] world world_laws fresh_journal CanaryCampaignState_default 3 commands);
    [constructor|reflexivity|reflexivity|exact empty_replay|reflexivity].
Qed.

(** The actor after the campaign is armed, and the reply to the probe. *)
Definition armed_actor : @Actor ZTime QDecimal mem_journal :=
  (handle (ArmCommand (receipt "1") authorization) (new_actor CanaryCampaignState_default fresh_journal)).1.
Definition after_probe : @Actor ZTime QDecimal mem_journal *
    result Stop (result CanaryActorError (@CanaryCampaignState ZTime) * bool) :=
  handle (DispatchCommand (receipt "2") admission request [evidence]) armed_actor.
End SampleSession.
#[local] Existing Instances SampleSession.mem_journal SampleSession.mem_journal_laws SampleSession.world
  SampleSession.vec_evidence SampleSession.vec_artifact SampleAdmission.vec_probe SampleAdmission.vec_proof.

(** A probe that the venue filled completely is answered with an error: settlement
    moves it to review, where it is still the pending attempt that [dispatch] takes
    for an unsettled one. *)
Theorem filled_probe_reported_as_mismatch :
  ∃ a, SampleSession.after_probe = (a, Ok (Err (StateError AdmissionMismatch), false))
  ∧ pend_phase <$> st_pending (a_state a) = Some Review
  ∧ att_open_debit <$> st_attempts (a_state a) = [from_atomic 480000]
  ∧ st_stage (a_state a) = ProbesArmed ∧ st_terminal_reason (a_state a) = None.
Proof.
  exists SampleSession.after_probe.1. split_and!.
  - assert (SampleSession.after_probe.2 = Ok (Err (StateError AdmissionMismatch), false)) as H
      by vm_cast_no_check (eq_refl (A := result Stop (result CanaryActorError (@CanaryCampaignState ZTime) * bool))
                             (Ok (Err (StateError AdmissionMismatch), false))).
    destruct SampleSession.after_probe as [a r]. by simpl in H; subst.
  - vm_cast_no_check (eq_refl (Some Review)).
  - vm_cast_no_check (eq_refl [from_atomic 480000]).
  - vm_cast_no_check (eq_refl ProbesArmed).
  - vm_cast_no_check (eq_refl (@None ClosureReason)).
Qed.

Lemma campaign_lifetime_bounded_witness :
  length (posted SampleSession.trace) = 1%nat ∧ sum_with order_debit (posted SampleSession.trace) ≤ 8000000.
Proof.
  split; [vm_cast_no_check (eq_refl 1%nat)|].
  destruct (campaign_lifetime_bounded _ _ SampleSession.session_lifetime) as (_ & _ & H & _). exact H.
Defined.

Lemma posts_follow_durable_intent_witness :
  posting_permitted (journal_after [] (take SampleSession.post_index SampleSession.trace)) SampleSession.order.
Proof.
  destruct (posts_follow_durable_intent SampleSession.world SampleSession.world_laws [] [] SampleSession.fresh_journal
              CanaryCampaignState_default 3 SampleSession.commands
              (take SampleSession.post_index SampleSession.trace) SampleSession.order
              (drop (S SampleSession.post_index) SampleSession.trace)
              life_start eq_refl eq_refl SampleSession.empty_replay SampleSession.trace_split) as [H _].
  exact H.
Defined.

Lemma repeated_command_inert_witness :
  untouched SampleSession.armed_actor
    (handle (ArmCommand (SampleCampaign.receipt "1") SampleCampaign.authorization) SampleSession.armed_actor).1.
Proof.
  apply (repeated_command_inert (ArmCommand (SampleCampaign.receipt "1") SampleCampaign.authorization)
           (SampleCampaign.receipt "1") (SampleCampaign.receipt "1") SampleSession.armed_actor eq_refl).
  vm_cast_no_check (eq_refl (Some (SampleCampaign.receipt "1"))).
Defined.
