(* ===== verification/CanaryJournal.v ===== *)
(** * The canary journal over the event log

    crates/execution-core/src/canary.rs, [CanaryJournal]: the campaign's events as
    JSON payloads of an event log, appended and synchronized one by one, and read
    back by a replay.  The journal meets the interface the actor was verified
    against: what it recorded is what the durable bytes of its file hold, whatever
    call failed and wherever a crash cut the last frame. *)

From S2P Require Import Prelude CoreTypes SignalEngine Bytes LogFrame LogChain LogScanner LogWriter LogReader LogCrash RiskEngine WinnerFollow CanaryTypes CanaryState CanaryAdmission CanaryActor.
#[local] Open Scope Z_scope.

(** serde_json at the event type. *)
Class EventJson `{TO : TimeOps} `{DO : DecimalOps} := {
  event_to_vec : CanaryEvent → result string (list Z);
  event_from_slice : list Z → result string CanaryEvent
}.
Class EventJsonLaws `{TO : TimeOps} `{DO : DecimalOps} {EJ : EventJson} : Prop := {
  event_json_roundtrip e bs : event_to_vec e = Ok bs → event_from_slice bs = Ok e
}.

Section JournalModel.
Context `{TO : TimeOps} `{DO : DecimalOps} {B3 : Blake3} {LJ : LogJson} {ZS : Zstd} {DV : LogDevice} {EJ : EventJson}.
Context {V4 : ToVec CampaignAuthorization} {V5 : ToVec (list string)}.
Context {V6 : ToVec (string * string * string * option VenueOrderId * option bool
                     * option ExactExecutionReport * list string)}.

Record CanaryJournal := { cj_writer : Writer }.

Definition journal_path_secure (p : JournalPath) : result CanaryStateError unit :=
  match jp_metadata p with
  | Ok m =>
      if meta_is_symlink m || negb (Z.land (meta_mode m) 63 =? 0) then Err InsecureJournalPermissions else Ok tt
  | Err e => map_err JournalIo (if decide (io_kind e = NotFound) then jp_create_new p else Err e)
  end.
Definition from_log {S A} (m : stm S LogError A) : stm S CanaryStateError A :=
  λ s, let '(s', x) := m s in (s', map_err EventLogError x).
Definition journal_open (p : JournalPath) : stm Device CanaryStateError CanaryJournal :=
  _ ← stm_lift (journal_path_secure p);
  w ← from_log (LogWriter.open (jp_env p));
  mret {| cj_writer := w |}.

Definition JOURNAL_SOURCE : string := "live-canary".
Definition journal_envelope (payload : list Z) (observed_at received_at : OffsetDateTime) : EnvelopeIn := {|
  in_source_id := JOURNAL_SOURCE; in_schema_version := 1; in_parser_version := 1;
  in_observed_at := {| source_timestamp := observed_at |}; in_received_at := {| received_at_time := received_at |};
  in_content_type := JsonContent; in_payload := payload
|}.
(** An operation of the writer field. *)
Definition on_writer {A} (m : stm Writer LogError A) : stm CanaryJournal CanaryStateError A :=
  λ j, let '(w, x) := m (cj_writer j) in ({| cj_writer := w |}, map_err EventLogError x).
Definition journal_append_sync (event : CanaryEvent) (observed_at received_at : OffsetDateTime) :
    stm CanaryJournal CanaryStateError unit :=
  payload ← stm_lift (map_err Encoding (event_to_vec event));
  _ ← on_writer (append (journal_envelope payload observed_at received_at));
  on_writer sync.

(** The event an envelope of the journal carries. *)
Definition journal_event (e : EventEnvelope) : result CanaryStateError CanaryEvent :=
  if bool_decide (env_source_id e ≠ JOURNAL_SOURCE) || negb (env_parser_version e =? 1)
     || bool_decide (env_content_type e ≠ JsonContent)
  then Err UnexpectedJournalEnvelope
  else if negb (env_schema_version e =? 1) then Err (UnknownSchema (env_schema_version e))
  else map_err Encoding (event_from_slice (env_payload e)).
Definition rebuild_step (s : CanaryCampaignState) (x : result LogError (Z * EventSeq * EventEnvelope)) :
    result CanaryStateError CanaryCampaignState :=
  '(_, _, envelope) ← map_err EventLogError x;
  event ← journal_event envelope;
  apply_result s event.
(** [CanaryJournal::rebuild]; the option is the fuel of the scan, which never runs out. *)
Definition rebuild (f : LogFile) : option (result CanaryStateError CanaryCampaignState) :=
  x ← replay_with_offsets f;
  Some (it ← map_err EventLogError x; try_fold rebuild_step CanaryCampaignState_default (replayed it)).

(** ** Starting the daemon, [pe-service-live-canary.rs] *)
Definition SDK_ARCHIVE_SHA256 : string := "ba212e0641f178c274af266772de15962ac7e76da550a0f79f47b49349b1138a".
Definition SDK_EFFECTIVE_VENDOR_TREE_SHA256 : string := "46386f697c128d0245406aa90c00e7cd00e4172d3e4d3f4d9a0836a70fc0ddbb".
(** [CanaryBootIdentity]; the resolver inventory's hash is recomputed from its directory. *)
Record CanaryBootIdentity := {
  boot_implementation_commit : string;
  boot_config_hash : string;
  boot_binary_hash : string;
  boot_wallet : string;
  boot_owner_signer : string;
  boot_spender : string;
  boot_resolver_inventory_hash : result string string
}.
Inductive StartError : Type :=
| RebuildFailed (e : CanaryStateError)
| BindingFailed (message : string)
| OpenFailed (e : CanaryStateError).

Definition same_account (journaled : option string) (running : string) : bool :=
  match journaled with Some account => eq_ignore_ascii_case account running | None => false end.
Definition ensure_running_campaign_binding (s : CanaryCampaignState) (boot : CanaryBootIdentity) : result string unit :=
  match st_campaign_id s with
  | None => Ok tt
  | Some _ =>
      current_resolver_hash ← boot_resolver_inventory_hash boot;
      if bool_decide (st_implementation_commit s = Some (boot_implementation_commit boot))
         && bool_decide (st_binary_hash s = Some (boot_binary_hash boot))
         && bool_decide (st_config_hash s = Some (boot_config_hash boot))
         && bool_decide (st_resolver_inventory_hash s = Some current_resolver_hash)
         && bool_decide (st_sdk_archive_sha256 s = Some SDK_ARCHIVE_SHA256)
         && bool_decide (st_sdk_effective_vendor_tree_sha256 s = Some SDK_EFFECTIVE_VENDOR_TREE_SHA256)
         && same_account (st_wallet s) (boot_wallet boot) && same_account (st_owner_signer s) (boot_owner_signer boot)
         && same_account (st_spender s) (boot_spender boot)
      then Ok tt else Err "journaled campaign does not bind the running binary, config, credentials, spender, SDK, or resolver inventory; restore the reviewed artifacts before recovery"
  end.

Definition open_for_start (p : JournalPath) : stm Device StartError CanaryJournal :=
  λ d, let '(d', x) := journal_open p d in (d', map_err OpenFailed x).
(** The state is rebuilt before the journal is opened. *)
Definition start (p : JournalPath) (boot : CanaryBootIdentity) : stm Device StartError (CanaryCampaignState * CanaryJournal) :=
  d ← stm_get;
  s ← stm_lift (if jp_exists p
                then map_err RebuildFailed (default (Err (EventLogError LogFrame.Cancelled)) (rebuild (device_file (jp_env p) d)))
                else Ok CanaryCampaignState_default);
  _ ← stm_lift (map_err BindingFailed (ensure_running_campaign_binding s boot));
  j ← open_for_start p;
  mret (s, j).

(** ** What a journal has recorded *)

(** The events in the complete frames of a file's bytes. *)
Definition durable_events (bytes : list Z) : list CanaryEvent :=
  match walk_locked (plain_file bytes) (until_eof None) with
  | Some (seen, _) => omap (λ x, result_ok (journal_event x.2)) seen
  | None => []
  end.
Definition journal_recorded (j : CanaryJournal) : list CanaryEvent :=
  durable_events (dev_durable (w_inner (cj_writer j))).
Definition journal_healthy (j : CanaryJournal) : bool := bool_decide (w_poison_reason (cj_writer j) = None).

End JournalModel.

Section JournalFacts.
Context `{TO : TimeOps} `{DO : DecimalOps} {B3 : Blake3} {LJ : LogJson} {ZS : Zstd} {DV : LogDevice} {EJ : EventJson}.
Context {BL : Blake3Laws} {LL : LogJsonLaws} {ZL : ZstdLaws} {DL : LogDeviceLaws} {CL : LogDeviceCrashLaws} {EL : EventJsonLaws}.
Context {V4 : ToVec CampaignAuthorization} {V5 : ToVec (list string)}.
Context {V6 : ToVec (string * string * string * option VenueOrderId * option bool
                     * option ExactExecutionReport * list string)}.

(** The envelopes [es] carry the events [l]. *)
Definition carries (es : list EventEnvelope) (l : list CanaryEvent) : Prop :=
  Forall2 (λ e event, journal_event e = Ok event) es l.
(** A file with the events [l] in its complete frames, the last write possibly cut. *)
Definition holds (bytes : list Z) (l : list CanaryEvent) : Prop :=
  ∃ bs es t torn, bytes = file_header ++ bs ++ torn ∧ written after_header bs es t ∧ torn_tail torn ∧ carries es l.

Lemma carries_omap es l : carries es l → ∀ offs : list Z, length offs = length es →
  omap (λ x, result_ok (journal_event x.2)) (zip offs es) = l.
Proof.
  induction 1 as [|e event es l He _ IH]; intros [|off offs] Hl; simplify_eq/=; [done|].
  rewrite He. simpl. by rewrite IH.
Qed.
Lemma carries_rebuild es l : carries es l → ∀ (offs : list Z) s, length offs = length es →
  try_fold rebuild_step s (item <$> zip offs es) = try_fold apply_result s l.
Proof.
  induction 1 as [|e event es l He _ IH]; intros [|off offs] s Hl; simplify_eq/=; [done|].
  change (rebuild_step s (item (off, e))) with (event ← journal_event e; apply_result s event).
  rewrite He. simpl. destruct (apply_result s event); simpl; [by apply IH|done].
Qed.

Lemma holds_events bytes l : holds bytes l → durable_events bytes = l.
Proof.
  intros (bs & es & t & torn & -> & Hw & Ht & Hc). unfold durable_events.
  destruct (scan_plain (plain_file (file_header ++ bs ++ torn)) (until_eof None) EmptyString bs es t torn)
    as (offs & p & Hl & -> & _); try done.
  by apply carries_omap.
Qed.

(** ** The invariant of a journal *)

(** A healthy journal's file is complete and durable; a poisoned one's may end in
    a part of the frame whose write failed. *)
Definition complete (j : CanaryJournal) (l : list CanaryEvent) : Prop :=
  let w := cj_writer j in
  ∃ bs es, (dev_bytes (w_inner w) = file_header ++ bs ∧ at_end (w_inner w)) ∧ dev_flushed (w_inner w) = file_header ++ bs
    ∧ dev_durable (w_inner w) = file_header ++ bs ∧ written after_header bs es (writer_state w) ∧ carries es l.
Definition journal_inv (j : CanaryJournal) : Prop :=
  match w_poison_reason (cj_writer j) with
  | None => ∃ l, complete j l
  | Some _ => ∃ l, holds (dev_durable (w_inner (cj_writer j))) l
  end.

Lemma healthy_complete j : journal_inv j → journal_healthy j = true → ∃ l, complete j l.
Proof. intros Hj Hh%bool_decide_eq_true. unfold journal_inv in Hj. by rewrite Hh in Hj. Qed.
Lemma complete_holds j l : complete j l → holds (dev_durable (w_inner (cj_writer j))) l.
Proof.
  intros (bs & es & _ & _ & Hd & Hw & Hc). exists bs, es, (writer_state (cj_writer j)), [].
  rewrite app_nil_r. split_and!; [done..|by left|done].
Qed.

(** A cut inside the frame of [event] loses it; the whole frame keeps it. *)
Lemma grown_holds bs es s l d json f e t event : file_header ++ bs `prefix_of` d → d `prefix_of` (file_header ++ bs) ++ f →
  written after_header bs es s → carries es l → encode_frame json = Ok f → written s f [e] t → journal_event e = Ok event →
  holds d l ∨ holds d (l ++ [event]).
Proof.
  intros [p ->] [q Hq] Hw Hc Hf Hw' He. rewrite <- (app_assoc (file_header ++ bs) p q) in Hq. apply app_inv_head in Hq.
  destruct q as [|z q].
  - right. rewrite app_nil_r in Hq. subst p. exists (bs ++ f), (es ++ [e]), t, [].
    rewrite app_nil_r, <- app_assoc. split_and!; [done|by eapply written_app|by left|].
    apply Forall2_app; [done|]. by constructor.
  - left. exists bs, es, s, p. rewrite <- app_assoc. split_and!; [done..| |done]. right. by exists json, f, (z :: q).
Qed.

Lemma append_sync_cases event observed received j j' x l : w_poison_reason (cj_writer j) = None → complete j l →
  journal_append_sync event observed received j = (j', x) →
  match x with
  | Ok _ => w_poison_reason (cj_writer j') = None ∧ complete j' (l ++ [event])
  | Err _ => j' = j ∨ (is_Some (w_poison_reason (cj_writer j'))
      ∧ let d := dev_durable (w_inner (cj_writer j')) in holds d l ∨ holds d (l ++ [event]))
  end.
Proof.
  intros Hp (bs & es & [Hb Hend] & Hfl & Hd & Hw & Hc). unfold journal_append_sync. rewrite stm_bind_run. unfold stm_lift.
  destruct (event_to_vec event) as [payload|] eqn:Hv; [|intros [= <- <-]; by left]. apply event_json_roundtrip in Hv.
  simpl map_err. cbv iota. rewrite stm_bind_run. unfold on_writer at 1. set (i := journal_envelope _ _ _).
  destruct (append i (cj_writer j)) as [w1 x1] eqn:Ha.
  assert (writer_ok (AtAuthority None) (cj_writer j)) as Hok by (by exists file_header, bs, es).
  assert (dev_ordered (w_inner (cj_writer j))) as Ho by (split; by rewrite ?Hd, Hfl, ?Hb).
  destruct (append_grows _ _ _ _ Hok Hp Ho Ha) as [[-> [e ->]]|(raw & this & json & f & t & Hf & Hwf & (G1 & G2 & G3) & Hx)].
  { intros [= <- <-]. left. by destruct j. }
  assert (journal_event (append_envelope (cj_writer j) i raw this) = Ok event) as He
    by (unfold journal_event; simpl; by rewrite Hv).
  assert (∀ d, dev_durable (w_inner w1) `prefix_of` d → d `prefix_of` (file_header ++ bs) ++ f →
            holds d l ∨ holds d (l ++ [event])) as Hcut.
  { intros d Hd1 Hd2. eapply grown_holds; eauto. by rewrite Hd in G1; etrans. }
  rewrite Hb in G3. destruct x1 as [q|e]; simpl; cbv iota.
  - destruct Hx as (-> & Hp1 & Hb1 & Hend1). rewrite Hb in Hb1. unfold on_writer. cbn [cj_writer].
    destruct (sync w1) as [w2 [[]|e]] eqn:Hs; intros [= <- <-]; cbn [cj_writer].
    + apply sync_Ok in Hs as (d & -> & Sb & Sf & Sd & Sp). cbn [w_inner w_poison_reason set_inner]. split; [done|].
      exists (bs ++ f), (es ++ [append_envelope (cj_writer j) i raw this]). cbn [cj_writer w_inner set_inner].
      unfold at_end in *. cbn [w_inner set_inner]. rewrite Sp, Hend1, Sb, Sf, Sd, Hb1, <- app_assoc. split_and!; [done..| |by apply Forall2_app; [|constructor]].
      by eapply written_app.
    + right. split; [by apply sync_Err in Hs|]. apply sync_grows in Hs as (K1 & K2 & K3).
      2:{ split; [done|]. by rewrite Hb1. }
      apply Hcut; [done|]. rewrite Hb1 in K3. by etrans.
  - intros [= <- <-]. right. split; [done|]. apply Hcut; [done|]. by etrans.
Qed.

Lemma poisoned_append_sync event observed received j r : w_poison_reason (cj_writer j) = Some r →
  ∃ e, journal_append_sync event observed received j = (j, Err e).
Proof.
  intros Hp. unfold journal_append_sync. rewrite stm_bind_run. unfold stm_lift.
  destruct (event_to_vec event); simpl; [|by eexists]. rewrite stm_bind_run. unfold on_writer at 1, append.
  rewrite stm_bind_run. unfold ensure_healthy. rewrite Hp. simpl. eexists. by destruct j.
Qed.

Lemma append_sync_inv event observed received j : journal_inv j →
  journal_inv (journal_append_sync event observed received j).1.
Proof.
  intros Hj. destruct (w_poison_reason (cj_writer j)) as [r|] eqn:Hp.
  { by destruct (poisoned_append_sync event observed received j r Hp) as [e ->]. }
  pose proof Hj as Hj'. unfold journal_inv in Hj'. rewrite Hp in Hj'. destruct Hj' as [l Hl].
  destruct (journal_append_sync event observed received j) as [j' x] eqn:E.
  pose proof (append_sync_cases _ _ _ _ _ _ _ Hp Hl E) as H. cbn [fst]. unfold journal_inv. destruct x as [[]|e].
  - destruct H as [-> H]. by eexists.
  - destruct H as [-> |[[r ->] H]]; [exact Hj|]. destruct H; by eexists.
Qed.

Lemma inv_recorded j : journal_inv j → holds (dev_durable (w_inner (cj_writer j))) (journal_recorded j).
Proof.
  unfold journal_inv, journal_recorded. destruct (w_poison_reason _).
  - intros [l Hl]. by rewrite (holds_events _ _ Hl).
  - intros [l Hl%complete_holds]. by rewrite (holds_events _ _ Hl).
Qed.

Lemma append_sync_recorded event observed received j j' x : journal_inv j →
  journal_append_sync event observed received j = (j', x) →
  match x with
  | Ok _ => journal_healthy j = true ∧ journal_healthy j' = true ∧ journal_recorded j' = journal_recorded j ++ [event]
  | Err _ =>
      (journal_recorded j' = journal_recorded j ∧ journal_healthy j' = journal_healthy j)
      ∨ (journal_healthy j = true ∧ journal_healthy j' = false
         ∧ (journal_recorded j' = journal_recorded j ∨ journal_recorded j' = journal_recorded j ++ [event]))
  end.
Proof.
  intros Hj H. unfold journal_inv in Hj. destruct (w_poison_reason (cj_writer j)) as [r|] eqn:Hp.
  { destruct (poisoned_append_sync event observed received j r Hp) as [e He]. rewrite He in H. injection H as <- <-. by left. }
  destruct Hj as [l Hl]. pose proof (append_sync_cases _ _ _ _ _ _ _ Hp Hl H) as Hx.
  assert (journal_recorded j = l) as -> by apply holds_events, complete_holds, Hl.
  unfold journal_healthy. rewrite Hp. destruct x as [[]|e].
  - destruct Hx as [-> Hx]. split_and!; [done..|]. apply holds_events, complete_holds, Hx.
  - destruct Hx as [-> |[[r Hr] Hx]].
    + left. rewrite Hp. split; [|done]. apply holds_events, complete_holds, Hl.
    + right. rewrite Hr. split_and!; [done..|]. unfold journal_recorded. destruct Hx as [Hx|Hx]; rewrite (holds_events _ _ Hx); auto.
Qed.

(** ** The interface of the actor *)

(** [ReceivedAt::now_utc] of one append. *)
Context (received_now : CanaryJournal → OffsetDateTime).

Definition log_journal : Journal := {|
  journal := { j : CanaryJournal | journal_inv j };
  append_sync event observed j :=
    (exist journal_inv (journal_append_sync event observed (received_now (`j)) (`j)).1
       (append_sync_inv _ _ _ _ (proj2_sig j)),
     (journal_append_sync event observed (received_now (`j)) (`j)).2);
  recorded j := journal_recorded (`j);
  healthy j := journal_healthy (`j)
|}.

#[local] Existing Instance log_journal.
Lemma log_append_recorded event observed (j j' : @journal _ _ log_journal) x : append_sync event observed j = (j', x) →
  journal_append_sync event observed (received_now (`j)) (`j) = (`j', x).
Proof.
  intros H. pose proof (f_equal (λ y, `(y.1)) H) as H1. pose proof (f_equal snd H) as H2. cbn in H1, H2.
  rewrite <- H1, <- H2. apply surjective_pairing.
Qed.

#[local] Instance log_journal_laws : JournalLaws (JO := log_journal).
Proof.
  split; intros event observed j j'.
  - intros H%log_append_recorded. exact (append_sync_recorded _ _ _ _ _ _ (proj2_sig j) H).
  - intros x H%log_append_recorded. exact (append_sync_recorded _ _ _ _ _ _ (proj2_sig j) H).
Qed.

(** C4: The journal over the event log keeps the promise the actor relies on.  An
    append that returns has made exactly its event durable; one that fails has
    either changed nothing, or poisoned the writer, which then refuses everything,
    with the event recorded or not, wherever the write was cut; in no case is an
    earlier event lost. *)
Theorem journal_meets_interface : JournalLaws (JO := log_journal).
Proof. exact log_journal_laws. Qed.

(** ** Restarting *)

Lemma rebuild_holds f resolved bs es t torn l :
  file_authority f = Ok None → file_resolved f = Ok resolved → file_end f = None →
  file_bytes f = file_header ++ bs ++ torn → written after_header bs es t → torn_tail torn → carries es l →
  rebuild f = Some (match incomplete_at torn t with
                    | None => replay l
                    | Some i => Err (EventLogError (Truncated (it_next_sequence i) (it_byte_offset i)))
                    end).
Proof.
  intros Ha Hr He Hb Hw Ht Hc. pose proof (replay_written f resolved bs es t torn Ha Hr He Hw Ht Hb) as H.
  unfold rebuild. destruct (incomplete_at torn t) as [i|]; [by rewrite H|].
  destruct H as (it & offs & -> & Hl & Hd). simpl. rewrite Hd. f_equal. by apply carries_rebuild.
Qed.

Lemma open_holds p resolved d d' j bs es t torn l :
  le_authority (jp_env p) = Ok None → le_resolved (jp_env p) = Ok resolved → dev_read_end d = None →
  dev_flushed d = dev_bytes d → dev_bytes d = file_header ++ bs ++ torn →
  written after_header bs es t → torn_tail torn → carries es l →
  journal_open p d = (d', Ok j) → journal_inv j ∧ journal_healthy j = true ∧ journal_recorded j = l.
Proof.
  intros Ha Hr He Hf Hb Hw Ht Hc H. unfold journal_open in H.
  apply stm_bind_Ok in H as ([] & d1 & H1 & H). injection H1 as <- _.
  apply stm_bind_Ok in H as (w & d1 & H1 & [= <- <-]). unfold from_log in H1.
  pose proof (open_torn (jp_env p) None resolved d file_header bs es t torn Ha I Hr He Hf (proj2 (log_base_None _) eq_refl) Hw Ht Hb I) as Ho.
  destruct (LogWriter.open (jp_env p) d) as [d2 [w'|e]] eqn:E; [|done]. simpl in H1. injection H1 as <- <-.
  destruct Ho as (-> & Hb' & Hf' & Hd' & Hend).
  assert (complete {| cj_writer := from_file (le_path (jp_env p)) d2 (next_sequence t) (previous_hash t) (physical_tail t) |} l) as Hl.
  { exists bs, es. split_and!; try done. by destruct t. }
  split; [by exists l|]. split; [done|]. apply holds_events, complete_holds, Hl.
Qed.

(** Opening an empty file. *)
Lemma open_empty p d d' j : le_authority (jp_env p) = Ok None → dev_flushed d = dev_bytes d → dev_bytes d = [] → dev_pos d = 0 →
  journal_open p d = (d', Ok j) → journal_inv j ∧ journal_healthy j = true ∧ journal_recorded j = [].
Proof.
  intros Ha Hf Hb Hpos H. unfold journal_open in H.
  apply stm_bind_Ok in H as ([] & d1 & H1 & H). injection H1 as <- _.
  apply stm_bind_Ok in H as (w & d1 & H1 & [= <- <-]). unfold from_log in H1.
  destruct (LogWriter.open (jp_env p) d) as [d2 [w'|e]] eqn:E; [|done]. simpl in H1. injection H1 as <- <-.
  unfold LogWriter.open in E. apply stm_bind_Ok in E as ([] & d1 & H1 & E). injection H1 as <- _.
  apply stm_bind_Ok in E as (len & d1 & H1 & E). injection H1 as <- Hlen%map_err_Ok%dev_len_Ok.
  rewrite Hf, Hb in Hlen. subst len. simpl in E. rewrite Ha in E. apply start_log_Ok in E as (-> & Hb' & Hf' & Hd' & Hend); [|done..].
  assert (complete {| cj_writer := from_file (le_path (jp_env p)) d2 0 genesis_hash HEADER_LEN |} []) as Hl.
  { exists [], []. rewrite app_nil_r. split_and!; try done; [constructor|]. by constructor. }
  split; [by exists []|]. split; [done|]. apply holds_events, complete_holds, Hl.
Qed.

(** A file as a new process finds it. *)
Definition on_disk (p : JournalPath) (bytes : list Z) (d : Device) : Prop :=
  le_authority (jp_env p) = Ok None ∧ is_ok (le_resolved (jp_env p)) = true ∧ dev_read_end d = None
  ∧ dev_bytes d = bytes ∧ dev_flushed d = bytes ∧ dev_pos d = 0 ∧ (jp_exists p = false → bytes = []).

Lemma rebuild_empty f : file_bytes f = [] → file_authority f = Ok None → ∀ s, rebuild f ≠ Some (Ok s).
Proof.
  intros Hb Ha s H. unfold rebuild in H. apply bind_Some in H as (x & Hx & H). injection H as H.
  apply result_bind_Ok in H as (it & ->%map_err_Ok & _). unfold replay_with_offsets in Hx.
  apply bind_Some in Hx as (y & _ & Hx). injection Hx as Hx. apply result_bind_Ok in Hx as (? & _ & Hx).
  unfold replay_open in Hx. apply result_bind_Ok in Hx as ([] & Hh & _).
  unfold file_seek in Hh. rewrite Hb in Hh. by apply verify_header_Ok in Hh as [rest Hrest].
Qed.

Lemma start_resumes p boot bytes H d d' s j : on_disk p bytes d → (bytes = [] ∧ H = []) ∨ holds bytes H →
  start p boot d = (d', Ok (s, j)) →
  journal_inv j ∧ journal_healthy j = true ∧ journal_recorded j = H ∧ replay H = Ok s.
Proof.
  intros (Ha & Hr & He & Hb & Hf & Hpos & Hx) HH Hs. destruct (le_resolved (jp_env p)) as [resolved|] eqn:Hres; [|done].
  unfold start in Hs. apply stm_bind_Ok in Hs as (dd & d1 & H1 & Hs). injection H1 as <- <-.
  apply stm_bind_Ok in Hs as (s1 & d1 & H1 & Hs). injection H1 as <- Hreb.
  apply stm_bind_Ok in Hs as ([] & d1 & H1 & Hs). injection H1 as <- _.
  apply stm_bind_Ok in Hs as (j1 & d1 & H1 & [= <- <- <-]).
  unfold open_for_start in H1. destruct (journal_open p d) as [d2 [j2|]] eqn:Ho; simpl in H1; [|done]. injection H1 as <- <-.
  destruct HH as [[-> ->]|(bs & es & t & torn & -> & Hw & Ht & Hc)].
  - destruct (open_empty p d d2 j2) as (? & ? & ?); [done|by rewrite Hb|done|done|done|].
    split_and!; try done. destruct (jp_exists p); [|by injection Hreb as <-].
    apply map_err_Ok in Hreb. exfalso. eapply (rebuild_empty (device_file (jp_env p) d)); [done..|].
    destruct (rebuild _) as [x|]; [|done]. simpl in Hreb. by rewrite Hreb.
  - destruct (open_holds p resolved d d2 j2 bs es t torn H) as (? & ? & ?); try done; [by rewrite Hb|].
    split_and!; try done. destruct (jp_exists p); [|by discriminate (Hx eq_refl)]. apply map_err_Ok in Hreb.
    erewrite (rebuild_holds (device_file (jp_env p) d) resolved bs es t torn H) in Hreb by done. simpl in Hreb.
    by destruct (incomplete_at torn t).
Qed.

End JournalFacts.

(** ** Campaigns on disk *)

Section OnDisk.
Context `{TO : TimeOps} `{DO : DecimalOps} {B3 : Blake3} {LJ : LogJson} {ZS : Zstd} {DV : LogDevice} {EJ : EventJson}.
Context {BL : Blake3Laws} {LL : LogJsonLaws} {ZL : ZstdLaws} {DL : LogDeviceLaws} {CL : LogDeviceCrashLaws} {EL : EventJsonLaws}.
Context {V1 : ToVec EvidenceCommitment} {V2 : ToVec ArtifactCommitment} {V3 : ToVec probe_payload}.
Context {V4 : ToVec CampaignAuthorization} {V5 : ToVec (list string)}.
Context {V6 : ToVec (string * string * string * option VenueOrderId * option bool
                     * option ExactExecutionReport * list string)}.
Context {V7 : ToVec OrganicDecisionProof}.
Context (received_now : CanaryJournal → OffsetDateTime).
#[local] Instance disk_journal : Journal := log_journal received_now.
#[local] Instance disk_journal_laws : JournalLaws := log_journal_laws received_now.

(** The bytes on disk and the orders posted so far.  Each process starts from the
    file as it finds it, runs in an arbitrary world, and ends or crashes after any
    prefix of its effects; what it leaves has the events of its last append in
    complete frames and possibly a part of the next one. *)
Inductive logged : list Z → list PreparedPolymarketBuy → Prop :=
| logged_none : logged [] []
| logged_process bytes P p boot d d' s j (Hj : journal_inv j) (W : CanaryWorld) (WL : CanaryWorldLaws)
    turns commands tr bytes' :
    logged bytes P → on_disk p bytes d → start p boot d = (d', Ok (s, j)) →
    tr `prefix_of` a_trace (run turns commands (new_actor s (exist journal_inv j Hj))).1 →
    holds bytes' (journal_after (journal_recorded j) tr) →
    logged bytes' (P ++ posted tr).

Lemma logged_lifetime bytes P : logged bytes P →
  ∃ H, lifetime H P ∧ (bytes = [] ∧ H = [] ∨ holds bytes H).
Proof.
  induction 1 as [|bytes P p boot d d' s j Hj W WL turns commands tr bytes' _ (H & HL & HH) Hd Hs Htr Hb].
  - exists []. split; [constructor|by left].
  - destruct (start_resumes p boot bytes H d d' s j Hd HH Hs) as (_ & Hh & Hrec & Hrep).
    exists (journal_after H tr). rewrite Hrec in Hb. split; [|by right].
    by apply (life_session (JO := disk_journal) H P W WL (exist journal_inv j Hj) s turns commands tr).
Qed.

(** A whole process on an empty file, ended by a crash after its last effect. *)
Lemma session_logged p boot d d' s j (Hj : journal_inv j) (W : CanaryWorld) (WL : CanaryWorldLaws) turns commands :
  on_disk p [] d → start p boot d = (d', Ok (s, j)) →
  let a := (run turns commands (new_actor s (exist journal_inv j Hj : @journal _ _ disk_journal))).1 in
  logged (dev_durable (w_inner (cj_writer (proj1_sig (a_journal a : { j : CanaryJournal | journal_inv j })))))
    (posted (a_trace a)).
Proof.
  intros Hd Hs a. destruct (start_resumes p boot [] [] d d' s j Hd (or_introl (conj eq_refl eq_refl)) Hs) as (_ & Hh & Hrec & Hrep).
  eapply (logged_process [] [] p boot d d' s j Hj W WL turns commands); [constructor|done|done|reflexivity|].
  rewrite Hrec. fold a.
  pose proof (session_safe [] [] s (exist journal_inv j Hj : @journal _ _ disk_journal) turns commands Hrec Hh Hrep
    (Forall_nil_2 _) (sublist_nil_l _)) as HS.
  pose proof (safe_journal _ _ _ HS) as HJ. fold a in HJ. rewrite HJ. exact (inv_recorded _ (proj2_sig (a_journal a))).
Qed.

(** C3: The limits hold on disk.  Over any number of daemon processes that start
    from the file they find, run against any world and die anywhere, through
    failed writes and torn frames, at most eight orders are ever sent, for at most
    eight dollars of worst-case debit together, each of them reserved in the
    complete frames of the file, and those frames always replay. *)
Theorem logged_campaign_bounded bytes P : logged bytes P →
  (length P ≤ 8)%nat ∧ sum_with order_debit P ≤ 8000000
  ∧ P `sublist_of` reserved_orders (durable_events bytes) ∧ ∃ s, replay (durable_events bytes) = Ok s.
Proof.
  intros (H & HL & HH)%logged_lifetime. destruct (lifetime_bounded H P HL) as (HP & Hn & Hsum & Hr).
  assert (durable_events bytes = H) as ->; [|done]. destruct HH as [[-> ->]|HH]; [done|by apply holds_events].
Qed.

(** A restart resumes the campaign.  When a daemon starts on what an earlier
    journal left on disk, the state it rebuilds is the replay of exactly the
    recorded events, and the journal it opens is healthy and has recorded the same
    events; on a file without a torn frame the rebuild does return, with that
    replay's result. *)
Theorem restart_resumes p boot j d : journal_inv j →
  on_disk p (dev_durable (w_inner (cj_writer j))) d →
  (∀ d' s j', start p boot d = (d', Ok (s, j')) →
     replay (journal_recorded j) = Ok s ∧ journal_inv j' ∧ journal_healthy j' = true
     ∧ journal_recorded j' = journal_recorded j)
  ∧ (journal_healthy j = true → rebuild (device_file (jp_env p) d) = Some (replay (journal_recorded j))).
Proof.
  intros Hj Hd. pose proof (inv_recorded j Hj) as HH. split.
  - intros d' s j' Hs. destruct (start_resumes p boot _ _ d d' s j' Hd (or_intror HH) Hs) as (? & ? & ? & ?). done.
  - intros Hh. destruct (healthy_complete j Hj Hh) as [l Hl]. pose proof Hl as (bs & es & _ & _ & Hdur & Hw & Hc). destruct Hd as (Ha & Hr & He & Hb & Hf & _).
    destruct (le_resolved (jp_env p)) as [resolved|] eqn:Hres; [|done].
    assert (journal_recorded j = l) as -> by apply holds_events, complete_holds, Hl.
    rewrite (rebuild_holds _ resolved bs es (writer_state (cj_writer j)) [] l); try done; [|by left].
    simpl. by rewrite Hf, Hdur, app_nil_r.
Qed.

(** C31: A torn frame blocks the restart.  After a crash inside an append the file
    ends in a part of a frame.  The daemon rebuilds its state before it opens the
    journal, and the rebuild refuses the file as truncated, so the daemon does not
    start; the open it never reaches would have cut the part off and kept every
    recorded event. *)
Theorem torn_journal_blocks_start p boot bs es t torn l d : on_disk p (file_header ++ bs ++ torn) d →
  written after_header bs es t → torn_tail torn → torn ≠ [] → carries es l →
  start p boot d = (d, Err (RebuildFailed (EventLogError (Truncated {| event_seq := next_sequence t |} (physical_tail t)))))
  ∧ ∀ d' j, journal_open p d = (d', Ok j) → journal_healthy j = true ∧ journal_recorded j = l.
Proof.
  intros (Ha & Hr & He & Hb & Hf & _ & Hx) Hw Ht Hne Hc. destruct (le_resolved (jp_env p)) as [resolved|] eqn:Hres; [|done].
  split.
  - unfold start. rewrite stm_bind_run. cbn [stm_get]. rewrite stm_bind_run. unfold stm_lift at 1.
    destruct (jp_exists p); [|by discriminate (Hx eq_refl)].
    rewrite (rebuild_holds (device_file (jp_env p) d) resolved bs es t torn l) by done. by destruct torn.
  - intros d' j Ho. destruct (open_holds p resolved d d' j bs es t torn l) as (_ & ? & ?); try done. by rewrite Hb.
Qed.

End OnDisk.

(** ** A campaign on a disk

    The disk of the writer's samples, and a JSON text for the events of the sample
    session: their numbers. *)
Module SampleDisk.
#[local] Existing Instances SampleCampaign.vec_authorization SampleCampaign.vec_hashes SampleCampaign.vec_review
  SampleAdmission.vec_probe SampleAdmission.vec_proof SampleSession.vec_evidence SampleSession.vec_artifact
  SampleSession.world SampleSession.world_laws.

#[local] Instance decimal_eq_dec : EqDecision (@Decimal QDecimal).
Proof. unfold Decimal. simpl. solve_decision. Defined.
#[local] Instance odt_eq_dec : EqDecision (@OffsetDateTime ZTime) := Z.eq_dec.
#[local] Instance transport_eq_dec : EqDecision (TransportErrorClass).
Proof. solve_decision. Defined.
#[local] Instance authorization_eq_dec : EqDecision (@CampaignAuthorization ZTime).
Proof. solve_decision. Defined.
#[local] Instance organic_authorization_eq_dec : EqDecision (@OrganicStageAuthorization ZTime).
Proof. solve_decision. Defined.
#[local] Instance fill_eq_dec : EqDecision (VenueFill).
Proof. solve_decision. Defined.
#[local] Instance report_eq_dec : EqDecision (ExactExecutionReport).
Proof. solve_decision. Defined.
#[local] Instance position_eq_dec : EqDecision (CanaryPosition).
Proof. solve_decision. Defined.
#[local] Instance resolution_eq_dec : EqDecision (CanaryResolution).
Proof. solve_decision. Defined.
#[local] Instance reconciliation_eq_dec : EqDecision (@CanaryReconciliation ZTime).
Proof. solve_decision. Defined.
#[local] Instance price_eq_dec : EqDecision (@Price QDecimal).
Proof. solve_decision. Defined.
#[local] Instance probability_eq_dec : EqDecision (@Probability QDecimal).
Proof. solve_decision. Defined.
#[local] Instance quote_eq_dec : EqDecision (@CanaryQuote ZTime QDecimal).
Proof. solve_decision. Defined.
#[local] Instance risk_eq_dec : EqDecision (CanaryRiskSnapshot).
Proof. solve_decision. Defined.
#[local] Instance probe_eq_dec : EqDecision (@ProbeAuthorization ZTime QDecimal).
Proof. solve_decision. Defined.
#[local] Instance attribution_eq_dec : EqDecision (AttemptAttribution).
Proof. solve_decision. Defined.
#[local] Instance trader_eq_dec : EqDecision TraderId.
Proof. solve_decision. Defined.
#[local] Instance quality_eq_dec : EqDecision ReconstructionQuality.
Proof. solve_decision. Defined.
#[local] Instance signal_eq_dec : EqDecision (@LeaderSignal QDecimal ZTime).
Proof. solve_decision. Defined.
#[local] Instance proof_eq_dec : EqDecision (@OrganicDecisionProof QDecimal ZTime).
Proof. solve_decision. Defined.
#[local] Instance admission_eq_dec : EqDecision (@CanaryAdmission ZTime QDecimal).
Proof. solve_decision. Defined.
#[local] Instance prepared_eq_dec : EqDecision (@PreparedPolymarketBuy QDecimal).
Proof. solve_decision. Defined.
#[local] Instance event_eq_dec : EqDecision (@CanaryEvent ZTime QDecimal).
Proof. solve_decision. Defined.

(** The events of the session, and their places as JSON. *)
Definition known : list (@CanaryEvent ZTime QDecimal) := Eval vm_compute in journal_after [] SampleSession.trace.
#[export] Instance index_json : @EventJson ZTime QDecimal := {|
  event_to_vec e := match list_find (e =.) known with Some (n, _) => Ok [Z.of_nat n] | None => Err "unknown event" end;
  event_from_slice bs := match bs with
                         | [n] => ok_or (known !! Z.to_nat n) "unknown index"
                         | _ => Err "expected one number"
                         end
|}.
#[export] Instance index_json_laws : @EventJsonLaws ZTime QDecimal index_json.
Proof.
  split. intros e bs. cbn -[known]. destruct (list_find _ known) as [[n e']|] eqn:H; [|done]. intros [= <-].
  apply list_find_Some in H as (Hn & -> & _). by rewrite Nat2Z.id, Hn.
Qed.

Definition env (exists_ : bool) : JournalPath := {|
  jp_env := sample_env; jp_exists := exists_;
  jp_metadata := if exists_ then Ok {| meta_is_symlink := false; meta_mode := 384 |}
                 else Err {| io_kind := NotFound; io_message := "no such file" |};
  jp_create_new := Ok tt |}.
Definition boot : CanaryBootIdentity := {|
  boot_implementation_commit := "commit"; boot_config_hash := "cfg"; boot_binary_hash := "bin";
  boot_wallet := "0xWALLET"; boot_owner_signer := "0xwallet"; boot_spender := "0xspender";
  boot_resolver_inventory_hash := Ok "inv" |}.
Definition room : nat := Z.to_nat 100000.
Definition disk (bytes : list Z) : @Device DiskDevice :=
  {| disk_accepted := bytes; disk_at := 0; disk_visible := bytes; disk_safe := bytes; disk_room := room |}.
Definition started : CanaryCampaignState * CanaryJournal :=
  result_or (CanaryCampaignState_default, {| cj_writer := sample_writer |})
    (start (env false) boot (disk [])).2.
Lemma starts : start (env false) boot (disk []) = ((start (env false) boot (disk [])).1, Ok started).
Proof.
  assert (is_ok (start (env false) boot (disk [])).2 = true) as H by vm_cast_no_check (eq_refl true).
  unfold started. by destruct (start (env false) boot (disk [])) as [d [x|e]].
Qed.
Lemma fresh_disk : on_disk (env false) [] (disk []).
Proof. by split_and!. Qed.
Lemma fresh_start_inv d' x : start (env false) boot (disk []) = (d', Ok x) → journal_inv x.2.
Proof. destruct x as [s j]. intros H. by destruct (start_resumes _ _ _ [] _ _ _ _ fresh_disk (or_introl (conj eq_refl eq_refl)) H). Qed.
Lemma started_inv : journal_inv started.2.
Proof. exact (fresh_start_inv _ _ starts). Qed.

Definition now (j : CanaryJournal) : @OffsetDateTime ZTime := SampleCampaign.at_second 12.
Definition session : @Actor ZTime QDecimal (disk_journal now) :=
  (run (JO := disk_journal now) 3 SampleSession.commands
     (new_actor (JO := disk_journal now) started.1 (exist journal_inv started.2 started_inv))).1.
Lemma fresh_session_logged d' x (Hj : journal_inv x.2) : start (env false) boot (disk []) = (d', Ok x) →
  let a := (run (JO := disk_journal now) 3 SampleSession.commands
    (new_actor (JO := disk_journal now) x.1 (exist journal_inv x.2 Hj))).1 in
  logged now (dev_durable (w_inner (cj_writer (proj1_sig (a_journal a : { j : CanaryJournal | journal_inv j })))))
    (posted (a_trace a)).
Proof.
  destruct x as [s j]. intros Hs.
  exact (session_logged now (env false) boot (disk []) d' s j Hj SampleSession.world SampleSession.world_laws 3
           SampleSession.commands fresh_disk Hs).
Qed.

(** The journal after its first event. *)
Definition first_event : @CanaryEvent ZTime QDecimal :=
  CampaignArmed SampleCampaign.authorization (SampleCampaign.receipt "1").
Definition append_first (j : CanaryJournal) : CanaryJournal * result CanaryStateError unit :=
  journal_append_sync first_event (SampleCampaign.at_second 11) (SampleCampaign.at_second 12) j.
Lemma append_first_healthy j : journal_inv j → is_ok (append_first j).2 = true →
  journal_inv (append_first j).1 ∧ journal_healthy (append_first j).1 = true.
Proof.
  intros Hj H. destruct (append_first j) as [j' [[]|e]] eqn:E; [|done].
  destruct (append_sync_recorded _ _ _ _ _ _ Hj E) as (_ & ? & _). split; [|done].
  pose proof (append_sync_inv _ _ _ _ Hj : journal_inv (append_first j).1) as Hi. by rewrite E in Hi.
Qed.
Definition appended : CanaryJournal := (append_first started.2).1.
Lemma append_runs : is_ok (append_first started.2).2 = true.
Proof. vm_cast_no_check (eq_refl true). Qed.
Lemma appended_inv : journal_inv appended.
Proof. exact (proj1 (append_first_healthy started.2 started_inv append_runs)). Qed.
Lemma appended_healthy : journal_healthy appended = true.
Proof. exact (proj2 (append_first_healthy started.2 started_inv append_runs)). Qed.
Lemma found_disk bytes : on_disk (env true) bytes (disk bytes).
Proof. by split_and!. Qed.
End SampleDisk.

#[local] Existing Instances SampleCampaign.vec_authorization SampleCampaign.vec_hashes SampleCampaign.vec_review
  SampleAdmission.vec_probe SampleAdmission.vec_proof SampleSession.vec_evidence SampleSession.vec_artifact
  SampleDisk.index_json SampleDisk.index_json_laws.
Lemma journal_meets_interface_witness : @JournalLaws ZTime QDecimal (log_journal SampleDisk.now).
Proof. exact (journal_meets_interface SampleDisk.now). Defined.

Lemma logged_campaign_bounded_witness :
  (length (posted (a_trace SampleDisk.session)) ≤ 8)%nat
  ∧ sum_with order_debit (posted (a_trace SampleDisk.session)) ≤ 8000000.
Proof.
  destruct (logged_campaign_bounded SampleDisk.now _ _
    (SampleDisk.fresh_session_logged _ SampleDisk.started SampleDisk.started_inv SampleDisk.starts)) as (Hn & H & _).
  exact (conj Hn H).
Defined.

Lemma restart_resumes_witness :
  rebuild (device_file (jp_env (SampleDisk.env true))
             (SampleDisk.disk (dev_durable (w_inner (cj_writer SampleDisk.appended)))))
  = Some (replay (journal_recorded SampleDisk.appended)).
Proof.
  assert (∀ j : CanaryJournal, journal_inv j → journal_healthy j = true →
    rebuild (device_file (jp_env (SampleDisk.env true)) (SampleDisk.disk (dev_durable (w_inner (cj_writer j)))))
    = Some (replay (journal_recorded j))) as H.
  { intros j Hj Hh.
    destruct (restart_resumes (SampleDisk.env true) SampleDisk.boot j _ Hj (SampleDisk.found_disk _)) as [_ H].
    exact (H Hh). }
  exact (H SampleDisk.appended SampleDisk.appended_inv SampleDisk.appended_healthy).
Defined.

Lemma torn_journal_blocks_start_witness : ∃ n at_,
  (start (SampleDisk.env true) SampleDisk.boot
     (SampleDisk.disk (dev_durable (w_inner (cj_writer SampleDisk.appended)) ++ take 9 sample_frame))).2
  = Err (RebuildFailed (EventLogError (Truncated n at_))).
Proof.
  assert (∀ j : CanaryJournal, journal_inv j → journal_healthy j = true → ∃ n at_,
    (start (SampleDisk.env true) SampleDisk.boot
       (SampleDisk.disk (dev_durable (w_inner (cj_writer j)) ++ take 9 sample_frame))).2
    = Err (RebuildFailed (EventLogError (Truncated n at_)))) as H.
  { intros j Hj Hh. destruct (healthy_complete j Hj Hh) as (l & bs & es & _ & _ & -> & Hw & Hc). rewrite <- app_assoc.
    destruct (torn_journal_blocks_start (SampleDisk.env true) SampleDisk.boot bs es _ (take 9 sample_frame) _
                (SampleDisk.disk (file_header ++ bs ++ take 9 sample_frame)) (SampleDisk.found_disk _) Hw sample_torn
                (λ H, ltac:(discriminate H)) Hc) as [-> _].
    do 2 eexists. cbn [snd]. reflexivity. }
  exact (H SampleDisk.appended SampleDisk.appended_inv SampleDisk.appended_healthy).
Defined.
